(* ===== verification/_CoqProject ===== *)
-Q . S2P
Prelude.v
PhysMem.v
Capability.v
CapTable.v
Cdt.v
Untyped.v
AddressSpace.v
Ipc.v
Protocol.v
Weight.v
ChainGroup.v
Scheduler.v
Manifest.v
Kernel.v
Syscall.v
KernelInv.v
Boot.v
Preempt.v
Elf.v
Spawn.v
ElfSpawn.v
System.v
Bytes.v
Registry.v
DeviceTree.v
Fdt.v
Discovery.v
Uefi.v
Service.v
MmService.v
FsNative.v
Compositor.v
RootTask.v
DeviceManager.v
VfsRouter.v
Netstack.v
PageTable.v
PageMachine.v
Sv39.v
X86Paging.v
Arm64Paging.v
PageRuns.v
IdentityMap.v
BootX86.v
BootArm64.v
BootRiscv.v
BootMaps.v
Direct.v
Bootloader.v
Handoff.v
Retired.v
Confined.v
Supervise.v
Virtio.v
VirtioRules.v
VirtioLogic.v
VirtioBlk.v
BlkDevice.v
BlkExample.v
BlkDisk.v
VirtioNet.v
PciConfig.v
PciScan.v
PciTransport.v
PciWindows.v
PciDriver.v
Irq.v
IrqRiscv.v
IrqArm64.v
IrqX86.v
IrqMachines.v
