(* ===== verification/Prelude.v ===== *)
(** * Simurgh-OS: a verification library of the microkernel

    Simurgh-OS is a capability-based microkernel in Rust (under [src/]): a
    hardware layer discovers the machine and hands a [BootInfo] to the kernel
    ([kernel/]), which keeps all its objects in fixed-capacity tables and is
    driven by system calls and timer ticks; drivers and services run as user
    processes ([subsystems/]).  This library models
    - the kernel proper: the data and the operations of the crates [kernel-cap],
      [kernel-mm], [kernel-ipc], [kernel-sched] and [kernel-core], with
      [hal-manifest], the hand-off of [hal-core] and the parser of [elf-loader];
    - the glue between the kernel and the trap vector, [kernel-arch-glue]: the
      process spawns and the trap-level handlers;
    - the hardware layers as far as they compute: the page tables that they write, while
      booting and for processes, what they read from device trees, UEFI memory maps
      and ACPI tables, the interrupt controllers, and the gate before direct hardware
      access ([hal-direct]);
    - the boot loader ([uefi-bootloader]) and its hand-off to the kernel;
    - the services: their protocol ([ipc-protocol]), the loop that they share, and
      the handlers of the memory service, the native file system, the router of
      the virtual file system, the compositor, the device manager, the root task
      and the packets of the network stack;
    - the user-mode drivers [driver-virtio-blk] and [driver-virtio-net], with their
      processes, over any device behind a bus; the block driver also against a
      device that follows the virtio specification.

    ** Conventions

    - Unsigned integers are values of [N]; every operation that can leave the
      width says what happens there: [checked_add] and the like where the code
      calls them, and also for plain [+] and [-], whose overflow stops the
      program (the [dev] profile, which the build scripts use, has overflow
      checks on; the [release] profile would wrap).  [truncate] is [as].
      [usize] is 64 bits wide, as on the three supported targets.
    - Arrays are lists of constant length; object tables are lists of options,
      read with [tget].
    - A method on [&mut self] is a state transformer [M S E A := S → outcome E A
      * S] where [outcome] is [Ok], [Err] or [Panic]: an error keeps what was
      written before it.  [wp m Q s] is its postcondition; [no_panic I] says
      that it does not panic and ends in [I].
    - Code outside the repository or behind the hardware interface is a
      parameter: [Capability.Bitflags] (the crate [bitflags], with its
      documented behaviour [BitflagsSpec] where a theorem needs it, satisfied
      by [bitflags_bits]; likewise [Protocol.FlagBits]) and [Syscall.HalInterface] (with the contract
      [KernelInv.hal_ok] of [map_range]: the frames used, or [u32::MAX]).
      [flush_tlb] and [map_ram_identity] do not touch the kernel state and are
      left out of [Syscall]; what [map_range] and [map_ram_identity] do to memory
      on each machine is modelled by itself, in [PageTable] and the files after
      it.

    ** Files, from the bottom up

    - [PhysMem]: bytes of physical memory, reads and writes of little-endian and
      big-endian values, for all the files that touch it.
    - [Capability]: [kernel-cap/src/rights.rs], [ids.rs], [lib.rs].
    - [CapTable]: [kernel-cap/src/cdt.rs], one table.  [wf] is the free-list
      invariant; [entry] is the partial function a table stands for, and every
      operation is shown to be an update of it.
    - [Cdt]: [cdt.rs], all tables: [forest] is the derivation forest; grants,
      revocation and the bounded ancestry walk are correct for it.
    - [Untyped], [AddressSpace]: [kernel-mm/src]: the bump allocator with
      retyping; the mappings of one address space.
    - [Ipc]: [kernel-ipc/src]: messages, endpoints (refining two bounded FIFO
      queues, [Chan]), notifications (refining sticky bits with a bounded queue),
      shared regions and the fast-path predicate.
    - [Protocol]: [ipc-protocol/src]: the labels, the request and response types
      of six namespaces and their codecs, as one family indexed by [Proto].
    - [Weight], [ChainGroup], [Scheduler]: [kernel-sched/src]: fixed-point
      weights, chain groups, selection, accounting, fairness.
    - [Manifest]: [hal-manifest/src]: the machine description.
    - [Kernel]: [kernel-core/src/config.rs], [tcb.rs], [state.rs]: the state.
    - [Syscall]: [kernel-core/src/syscall.rs]: the thirteen system calls.
    - [KernelInv]: the invariant [kinv] of the whole state and its preservation
      by every handler, without panics.
    - [Boot]: [hal-core/src/boot.rs] and [populate_from_boot_info].
    - [Preempt]: [kernel-core/src/preempt.rs], [run.rs].
    - [Elf]: [elf-loader/src/lib.rs]: the header parser and the lazy iterator
      over loadable segments.
    - [Spawn]: [spawn_process] of [kernel-arch-glue/src/lib.rs].
    - [ElfSpawn]: [spawn_process_from_elf] of the same file, with the physical
      memory it writes and the mappings it asks for.
    - [System]: properties of the whole: safety of every run, authority, grant
      and revocation, the call / reply protocol; with sample runs.
    - [Bytes], [Registry]: slices and keyed registries, shared by the services.
    - [DeviceTree]: the two walks over a device tree of [hal-riscv64/src/memory.rs] and
      [peripheral.rs]; [Fdt]: trees and the blobs that encode them, and how a loop
      over tokens is a recursion over the tree; [Discovery]: what the walks report.
    - [Uefi]: the memory map and the ACPI tables as [hal-x86_64/src/memory.rs] and
      [hal-arm64/src/memory.rs] read them.
    - [Service]: the loop of every service process over its message page, for any
      handler, and what it refines; the interface [ServiceSpec].
    - [MmService], [FsNative], [Compositor]: the three services with a request
      handler, as instances ([subsystems/mm-service], [vfs-service/fs-native],
      [compositor]).
    - [RootTask], [DeviceManager], [VfsRouter], [Netstack]: the boot plan; the
      restart policy and the log of requests in flight; the mount table; the
      parsers and builders of packets (the crates of these names).
    - [PageTable]: the walk and [map_range] over any entry format, against what
      the memory management unit reads; [PageMachine]: whole address spaces, for
      any machine; [Sv39], [X86Paging], [Arm64Paging]: the formats and first tables
      of [hal-riscv64], [hal-x86_64] and [hal-arm64] ([src/cpu.rs]); [PageRuns]:
      sample tables, and a failing run.
    - [IdentityMap]: the page tables that [src/memory.rs] of a hardware layer writes
      while booting, over any entry format; [BootX86], [BootArm64], [BootRiscv]: the
      three formats with their hardware; [BootMaps]: what is mapped on the three machines.
    - [Direct]: capability tokens and their verification, and the operations behind it
      ([hal-direct/src], [hal-*/src/direct.rs]).
    - [Bootloader]: [uefi-bootloader/src/main.rs], over the firmware's services;
      [Handoff]: what the kernel's parser finds when the loader jumps.
    - [Retired]: which threads are scheduled in a run of the system; [Confined]: where
      the capabilities that are held after a run come from.
    - [Supervise]: the trap-level handlers of [kernel-arch-glue/src/lib.rs]:
      ticks, faults, the supervision of the driver, inter-process calls.
    - [Virtio]: what the two drivers share: the accesses to registers and to the
      shared page, over any [Bus], and the steps of the handshake; [VirtioRules]:
      the rules of the virtio specification for a driver, as a monitor of its
      accesses; [VirtioLogic]: the program logic of the drivers under it.
    - [VirtioBlk], [VirtioNet]: the drivers ([subsystems/drivers/*/src/lib.rs]) and
      their processes ([subsystem_entry.rs]).
    - [BlkDevice]: a device of the specification; [BlkExample]: one such device;
      [BlkDisk]: the driver and the device together as a disk.
    - [PciConfig]: the PCI configuration space, the two ways to reach it and the sizing
      of registers; [PciScan]: the scan of the buses ([hal-x86_64/src] and
      [hal-arm64/src], [peripheral.rs] and [compute.rs]).
    - [PciTransport]: from a function's capabilities to the windows in a driver's process
      ([kernel-arch-glue/src/lib.rs], [pci_cfg_read8] to [wire_virtio_pci_transport_net]);
      [PciWindows]: the program logic of these; [PciDriver]: what the driver finds.
    - [Irq]: the interrupt controllers: the table of handlers that the three machines share
      ([hal-core/src/interrupt.rs]), and their contract; [IrqRiscv], [IrqArm64],
      [IrqX86]: [hal-*/src/interrupt.rs] with the set-up of the processor and the
      dispatch, each with a PLIC, a GICv3 and a local APIC; [IrqMachines]: the three
      keep the contract.

    ** How the theorems fit together

    Each component file proves what its operations do on every branch against
    its own invariant ([wf], [forest], [um_wf], [as_wf], [ep_wf], [notif_wf],
    [cg_wf], [sched_wf], [manifest_wf]).  [KernelInv.kinv] joins these with the
    cross-component facts: every capability names an object that exists and
    every thread lives in spaces that exist.  [Boot] establishes it, every
    system call, tick and spawn preserves it, so [System.system_safe] holds
    for every run from boot.

    A service promises [ServiceSpec] of its handler: from a related state it
    answers as its abstract specification does and stays related.
    [Service.calls_refine] turns this into a statement on whole conversations
    through the message page, using [Protocol]'s round trip; each service has an
    instance, and a theorem that its handler keeps the promise.

    A hardware layer promises [FormatSpec] (its bits mean to the machine what the
    code means by them) and [MachineSpec] (its first tables); the theorems of
    [PageTable] and [PageMachine] are proved from these and hold for the three
    machines.

    Likewise [BootFormatSpec] for the tables of the boot; [UefiSpec] states what the
    UEFI specification says of the firmware, and [Handoff.boot_loader_hands_over] joins
    the loader of [Bootloader], the image of [Elf] and the parser of [Uefi]; the loader
    stops exactly where [Handoff.final_map] says that the firmware or the image makes it.

    A decoder of [Protocol] is compared with a table of the fields of every message
    ([Protocol.layouts]), which gives both its tests and the words of its result.
    [Direct] takes the signature library as a parameter: its theorems assume that a
    signature which verifies was made by the holder of the key for these bytes, and
    derive from the injectivity of the encoding that the token was granted.

    For device trees, [Fdt.scan_visits] turns the loop over tokens with its flags into a
    recursion over the tree; [Discovery] then follows by induction on trees.

    [Retired.keeps] relates the states before and after any operation by a
    preorder; with [evolves] (no thread becomes scheduled by accident) it gives
    that terminated threads never run again, and with the notes of [Supervise]
    that no crash of a watched driver is lost; with [Confined.contained] (what is held
    was derived from what was held) that no event makes authority over an existing
    object out of nothing.

    A driver is shown to follow the rules of [VirtioRules.mon] on every bus that
    [Observes] them ([VirtioBlk.blk_follows_rules], [VirtioNet.net_follows_rules]);
    a block device promises [BlkDevice.Complies], which [BlkExample] discharges and
    from which [BlkDisk.blk_refines_disk] is proved.

    An access method promises [ConfigSpec] of a machine made of [PciFunction]s; the two
    methods keep it, and [PciScan.pci_devices_found] is proved from it for any.
    [PciDevice] says the same of one function behind the kernel's mapping, and
    [PciDriver.driver_finds_device] joins the kernel's wiring with the construction of
    the transports in [VirtioBlk] and [VirtioNet].

    An interrupt controller promises [IrqMachineSpec]: how each of its accesses changes
    the lines that are open and raised.  Each machine keeps it on a device that follows
    [PlicSpec], [GicSpec] or [ApicSpec], and [Irq.irq_machine_serves] derives the contract
    from it once.

    ** Fuel and bounds

    Recursion is structural on lists or on counts the code bounds (a page-table
    walk has three levels, [map_pages] one step per page), except for
    - the ancestry walk, which has the bound of the code (one more than the number
      of slots); [Cdt.is_descendant_of_decides] shows that it is enough in every
      forest;
    - the carries of the Internet checksum, two rounds: [Netstack.fold_carries_spec]
      shows that these are enough for every packet of a 16-bit length;
    - the walks over a device tree and the strings in it: [Discovery.discovery_ends] gives
      the number of rounds for any bytes, and the theorems on encoded trees show that
      the fuel they ask for gives a result;
    - the descriptors of a memory map and the records of an ACPI table, at most one per
      byte: [Handoff.descriptors_enough], [Uefi.madt_enough];
    - the walk over a capability list, 48 rounds as in the code: a list of more
      capabilities does not fit in the configuration space, and [PciDriver] is about
      lists of at most so many;
    - the loop over the pages of a region, which has as many rounds as there are pages
      ([BootMaps.identity_map_correct] is about the final tables);
    - the crash loop of the device manager, which ends after six crashes
      ([DeviceManager.subsystem_main_parks]);
    - the wait of [hal-arm64] for the redistributor, which the code does not bound:
      [IrqMachines.interrupts_served] asks for one read more than the device needs;
    - the handshake's wait for a reset, which has the bound [MAX_SPINS] of the code,
      and the wait for a completion, which has its [MAX_WAIT_RETRIES]: [Complies]
      assumes that a request completes within so many interrupts, and
      [BlkDisk.late_completion_overlaps] shows what happens otherwise.

    ** Not modelled

    Trap entry and the timers of the hardware layers (raw pointers and assembly); the
    discovery of processors; the kernel binary and its user-mode demonstrations; logging;
    the test harness over the dispatcher; the process of the network stack.  Interrupts
    are taken one at a time and handlers do not use the controller.  Some
    hypotheses exclude inputs on which the code panics, and a theorem shows each
    panic: [Map] is assumed not to end at the last byte of the address space
    ([KernelInv.op_ok], [AddressSpace.map_last_page_panics]); an ELF image is
    assumed to have room for the fields of its program headers and segments whose
    size does not wrap around ([Elf.short_entries_panic],
    [ElfSpawn.huge_segment_panics]); the block driver is assumed not to be asked for the
    sector [2^64 - 1] ([BlkDisk.last_lba_panics]).  The page tables that the hardware layer
    writes are not part of the memory of [ElfSpawn]: they lie in the frames which
    it is given, and these are disjoint from the loaded segments.
    [schedule_step] and [yield_to] of the run loop are defined, but no theorem is
    stated about them yet. *)

From stdpp Require Export base tactics numbers option list relations.

(** ** Words

    Unsigned machine integers are values of [N]; the modulus of the width is
    written out at every operation that can leave it. *)

Abbreviation U8 := 256%N (only parsing).
Abbreviation U16 := 65536%N (only parsing).
Abbreviation U32 := 4294967296%N (only parsing).
Abbreviation U64 := 18446744073709551616%N (only parsing).

(** [checked_add]/[checked_mul] of an unsigned type with modulus [w]; also the
    meaning of [+]/[*] where an overflow stops the program (overflow checks
    are on in the kernel's [dev] profile). *)
Definition checked_add (w a b : N) : option N :=
  if (a + b <? w)%N then Some (a + b)%N else None.

Definition checked_mul (w a b : N) : option N :=
  if (a * b <? w)%N then Some (a * b)%N else None.

Definition checked_sub (a b : N) : option N :=
  if (b <=? a)%N then Some (a - b)%N else None.

Definition saturating_add (w a b : N) : N := N.min (a + b) (w - 1).

Definition saturating_sub (a b : N) : N := (a - b)%N.

(** [x as u8], [x as u32], ... : truncation to the width. *)
Definition truncate (w a : N) : N := (a mod w)%N.

(** Bitwise [!x] of a [u64]. *)
Definition u64_not (a : N) : N := N.lnot a 64.

Definition is_power_of_two (a : N) : bool :=
  negb (a =? 0)%N && (a =? 2 ^ N.log2 a)%N.

(** ** Fixed-capacity arrays

    A Rust array is a list whose length never changes.  [getN l i] is
    [l.get(i)]; the range test comes first, so that evaluating it on an
    arbitrary 32-bit index does not build a unary number. *)
Definition getN {A} (l : list A) (i : N) : option A :=
  if (i <? N.of_nat (length l))%N then l !! N.to_nat i else None.

(** [l.get(i).and_then(|s| s.as_ref())] on an array of [Option]s: the object
    table accessors. *)
Definition tget {A} (l : list (option A)) (i : N) : option A :=
  match getN l i with
  | Some o => o
  | None => None
  end.

(** [iter().position(p)] *)
Fixpoint position {A} (p : A → bool) (l : list A) : option nat :=
  match l with
  | [] => None
  | x :: l => if p x then Some 0 else S <$> position p l
  end.

Definition is_none {A} (o : option A) : bool :=
  match o with None => true | Some _ => false end.

(** [iter().flatten()] on an array of [Option]s. *)
Fixpoint flatten {A} (l : list (option A)) : list A :=
  match l with
  | [] => []
  | Some x :: l => x :: flatten l
  | None :: l => flatten l
  end.

(** ** Results, state and panics

    A method on [&mut self] that returns [Result<A, E>] is a function from
    the state to an outcome and the state it leaves behind: an error does
    not undo the writes made before it.  [Panic] is the outcome of a failed
    bounds check, [unwrap] or overflow check. *)
Inductive outcome (E A : Type) : Type :=
| Ok (a : A)
| Err (e : E)
| Panic.
Arguments Ok {E A} a.
Arguments Err {E A} e.
Arguments Panic {E A}.

(** A function that only reads: the outcome alone, with [?] as bind. *)
#[export] Instance outcome_ret {E} : MRet (outcome E) := λ A a, Ok a.

#[export] Instance outcome_bind {E} : MBind (outcome E) := λ A B k r,
  match r with
  | Ok a => k a
  | Err e => Err e
  | Panic => Panic
  end.

(** [o.ok_or(e)] *)
Definition or_err {E A} (o : option A) (e : E) : outcome E A :=
  match o with Some a => Ok a | None => Err e end.

(** Tests in the order in which they are made, each with its error: the first that fails. *)
Fixpoint first_failure {E} (tests : list (E * bool)) : option E :=
  match tests with
  | [] => None
  | (e, ok) :: tests => if ok then first_failure tests else Some e
  end.

(** An operation that stops the program where it is undefined: an index, a
    slice, an arithmetic operation with its overflow check. *)
Definition or_panic {E A} (o : option A) : outcome E A :=
  match o with Some a => Ok a | None => Panic end.

Definition M (S E A : Type) : Type := S → outcome E A * S.

#[export] Instance M_ret {S E} : MRet (M S E) := λ A a s, (Ok a, s).

#[export] Instance M_bind {S E} : MBind (M S E) := λ A B k m s,
  match m s with
  | (Ok a, s') => k a s'
  | (Err e, s') => (Err e, s')
  | (Panic, s') => (Panic, s')
  end.

Section monad.
Context {S E : Type}.

Definition throw {A} (e : E) : M S E A := λ s, (Err e, s).
Definition panic {A} : M S E A := λ s, (Panic, s).
Definition gets {A} (f : S → A) : M S E A := λ s, (Ok (f s), s).
Definition modify (f : S → S) : M S E unit := λ s, (Ok tt, f s).

(** [o.ok_or(e)?] *)
Definition ok_or {A} (o : option A) (e : E) : M S E A :=
  match o with Some a => mret a | None => throw e end.

(** [o.unwrap()], and array indexing. *)
Definition unwrap {A} (o : option A) : M S E A :=
  match o with Some a => mret a | None => panic end.

(** [let _ = m;]: the error is dropped, the effect is kept. *)
Definition ignore {E' A} (m : M S E' A) : M S E unit := λ s,
  match m s with
  | (Panic, s') => (Panic, s')
  | (_, s') => (Ok tt, s')
  end.

(** [?] with a [From] conversion of the error. *)
Definition map_err {E' A} (f : E' → E) (m : M S E' A) : M S E A := λ s,
  match m s with
  | (Ok a, s') => (Ok a, s')
  | (Err e, s') => (Err (f e), s')
  | (Panic, s') => (Panic, s')
  end.

(** Running an operation of a component inside the state that holds it. *)
Definition zoom {T A} (get : S → T) (set : T → S → S) (m : M T E A) : M S E A := λ s,
  let '(r, t) := m (get s) in (r, set t s).

(** [for x in l { f(x)? }] *)
Fixpoint for_each {A} (l : list A) (f : A → M S E unit) : M S E unit :=
  match l with
  | [] => mret tt
  | x :: l => f x ≫= λ _, for_each l f
  end.
End monad.

(** [self.table.get_mut(id).and_then(|s| s.as_mut()).ok_or(e)?.m()]: an
    operation on the object in slot [i] of an object table. *)
Definition on_slot {S E T A} (get : S → list (option T)) (set : list (option T) → S → S)
    (i : N) (e : E) (m : M T E A) : M S E A := λ s,
  match tget (get s) i with
  | Some t => let '(r, t') := m t in
              (r, set (<[N.to_nat i := Some t']> (get s)) s)
  | None => (Err e, s)
  end.

Lemma outcome_bind_assoc {E A B C} (r : outcome E A) (f : A → outcome E B)
    (k : B → outcome E C) : (r ≫= f) ≫= k = r ≫= λ a, f a ≫= k.
Proof. by destruct r. Qed.

(** Running a sequence. *)
Lemma run_bind {S E A B} (m : M S E A) (k : A → M S E B) s :
  (m ≫= k) s = match m s with
               | (Ok a, s') => k a s'
               | (Err e, s') => (Err e, s')
               | (Panic, s') => (Panic, s')
               end.
Proof. done. Qed.

(** Symbolic execution of a run, as far as the outcomes are known. *)
Ltac run :=
  repeat first [rewrite run_bind
               |progress cbn [gets modify unwrap ok_or throw panic mret M_ret]].

(** The outcome of a run determines the pair, up to the state it ends in. *)
Lemma run_pair {S E A} (p : outcome E A * S) r : p.1 = r → p = (r, p.2).
Proof. destruct p. by intros <-. Qed.

(** ** Postconditions

    [wp m Q s]: running [m] from [s] ends in an outcome and a state that
    satisfy [Q]. *)
Definition wp {S E A} (m : M S E A) (Q : outcome E A → S → Prop) (s : S) : Prop :=
  Q (m s).1 (m s).2.

(** The error and panic cases of a postcondition that must hold whatever the
    outcome is, except a panic. *)
Definition no_panic {S E A} (I : S → Prop) : outcome E A → S → Prop :=
  λ r s, r ≠ Panic ∧ I s.

Create HintDb simurgh discriminated.

Section wp.
Context {S E : Type}.

Lemma wp_mono {A} (m : M S E A) (Q Q' : outcome E A → S → Prop) s :
  wp m Q s → (∀ r s', Q r s' → Q' r s') → wp m Q' s.
Proof. unfold wp. auto. Qed.

Lemma wp_ret {A} (a : A) (Q : outcome E A → S → Prop) s :
  Q (Ok a) s → wp (mret a) Q s.
Proof. done. Qed.

Lemma wp_bind {A B} (m : M S E A) (k : A → M S E B) (Q : outcome E B → S → Prop) s :
  wp m (λ r s', match r with
                | Ok a => wp (k a) Q s'
                | Err e => Q (Err e) s'
                | Panic => Q Panic s'
                end) s →
  wp (m ≫= k) Q s.
Proof.
  unfold wp, mbind, M_bind. by destruct (m s) as [[] ?]; simpl.
Qed.

Lemma wp_throw {A} (e : E) (Q : outcome E A → S → Prop) s :
  Q (Err e) s → wp (throw e) Q s.
Proof. done. Qed.

Lemma wp_gets {A} (f : S → A) (Q : outcome E A → S → Prop) s :
  Q (Ok (f s)) s → wp (gets f) Q s.
Proof. done. Qed.

Lemma wp_modify f (Q : outcome E unit → S → Prop) s :
  Q (Ok tt) (f s) → wp (modify f) Q s.
Proof. done. Qed.

Lemma wp_ok_or {A} (o : option A) e (Q : outcome E A → S → Prop) s :
  (∀ a, o = Some a → Q (Ok a) s) → (o = None → Q (Err e) s) →
  wp (ok_or o e) Q s.
Proof. destruct o; unfold wp; naive_solver. Qed.

Lemma wp_unwrap {A} (o : option A) a (Q : outcome E A → S → Prop) s :
  o = Some a → Q (Ok a) s → wp (unwrap o) Q s.
Proof. by intros ->. Qed.

Lemma wp_ignore {E' A} (m : M S E' A) (Q : outcome E unit → S → Prop) s :
  wp m (λ r s', match r with Panic => Q Panic s' | _ => Q (Ok tt) s' end) s →
  wp (ignore m) Q s.
Proof. unfold wp, ignore. by destruct (m s) as [[] ?]. Qed.

Lemma wp_map_err {E' A} (f : E' → E) (m : M S E' A) (Q : outcome E A → S → Prop) s :
  wp m (λ r s', match r with
                | Ok a => Q (Ok a) s'
                | Err e => Q (Err (f e)) s'
                | Panic => Q Panic s'
                end) s →
  wp (map_err f m) Q s.
Proof. unfold wp, map_err. by destruct (m s) as [[] ?]. Qed.

Lemma wp_zoom {T A} (get : S → T) set (m : M T E A) (Q : outcome E A → S → Prop) s :
  wp m (λ r t, Q r (set t s)) (get s) → wp (zoom get set m) Q s.
Proof. unfold wp, zoom. by destruct (m (get s)). Qed.

Lemma wp_on_slot {T A} (get : S → list (option T)) set i e (m : M T E A)
    (Q : outcome E A → S → Prop) s :
  (∀ t, tget (get s) i = Some t →
    wp m (λ r t', Q r (set (<[N.to_nat i := Some t']> (get s)) s)) t) →
  (tget (get s) i = None → Q (Err e) s) →
  wp (on_slot get set i e m) Q s.
Proof.
  unfold wp, on_slot. destruct (tget (get s) i) as [t|]; [|naive_solver].
  intros H _. specialize (H t eq_refl). by destruct (m t).
Qed.

Lemma wp_for_each {A} (l : list A) (f : A → M S E unit) (I : S → Prop) s :
  I s → (∀ x s, x ∈ l → I s → wp (f x) (no_panic I) s) →
  wp (for_each l f) (no_panic I) s.
Proof.
  revert s. induction l as [|x l IH]; intros s Hs Hf; simpl.
  { by apply wp_ret; split. }
  apply wp_bind. eapply wp_mono; [apply Hf; [left|done]|].
  intros [] s' [? HI]; try done. apply IH; [done|].
  intros; apply Hf; [by right|done].
Qed.
End wp.

(** ** Checked arithmetic *)

Lemma checked_add_lt w a b : (a + b < w)%N → checked_add w a b = Some (a + b)%N.
Proof. intros. unfold checked_add. by rewrite (proj2 (N.ltb_lt _ _)). Qed.

Lemma checked_add_ge w a b : (w ≤ a + b)%N → checked_add w a b = None.
Proof. intros. unfold checked_add. by rewrite (proj2 (N.ltb_ge _ _)). Qed.

Lemma page_round_up n : (n ≤ (n + 4095) / 4096 * 4096)%N.
Proof.
  pose proof (N.div_mod (n + 4095) 4096). pose proof (N.mod_lt (n + 4095) 4096). lia.
Qed.

(** A word of 32 bits, by its bits. *)
Lemma u32_bits v i : (v < U32)%N → (32 ≤ i)%N → N.testbit v i = false.
Proof.
  intros Hv Hi. destruct (decide (v = 0%N)) as [->|Hz]; [apply N.bits_0|]. apply N.bits_above_log2.
  apply N.log2_lt_pow2; [lia|]. eapply N.lt_le_trans; [exact Hv|].
  change U32 with (2 ^ 32)%N. by apply N.pow_le_mono_r.
Qed.

Lemma bits_u32 v : (∀ i, (32 ≤ i)%N → N.testbit v i = false) → (v < U32)%N.
Proof.
  intros Hv. destruct (decide (v = 0%N)) as [->|Hz]; [done|].
  change U32 with (2 ^ 32)%N. apply N.log2_lt_pow2; [lia|].
  destruct (N.lt_ge_cases (N.log2 v) 32) as [?|Hl]; [done|].
  pose proof (N.bit_log2 v Hz) as Hb. by rewrite Hv in Hb.
Qed.

(** ** Arrays and object tables *)

Lemma getN_lookup {A} (l : list A) i : getN l i = l !! N.to_nat i.
Proof.
  unfold getN. destruct (N.ltb_spec i (N.of_nat (length l))); [done|].
  symmetry. apply lookup_ge_None_2. lia.
Qed.

Section arrays.
Context {A : Type}.

Lemma tget_Some (l : list (option A)) i x :
  tget l i = Some x ↔ l !! N.to_nat i = Some (Some x).
Proof.
  unfold tget. rewrite getN_lookup. destruct (l !! N.to_nat i) as [[]|]; naive_solver.
Qed.

Lemma tget_of_nat (l : list (option A)) n x :
  l !! n = Some (Some x) → tget l (N.of_nat n) = Some x.
Proof. intros. apply tget_Some. by rewrite Nat2N.id. Qed.

Lemma tget_lt (l : list (option A)) i x :
  tget l i = Some x → (i < N.of_nat (length l))%N.
Proof. intros H%tget_Some%lookup_lt_Some. lia. Qed.

Lemma tget_insert (l : list (option A)) i j o :
  N.to_nat i < length l →
  tget (<[N.to_nat i := o]> l) j = if decide (i = j) then o else tget l j.
Proof.
  intros Hi. unfold tget. rewrite !getN_lookup. case_decide as Hd.
  - subst. by rewrite list_lookup_insert_eq.
  - rewrite list_lookup_insert_ne; [done|lia].
Qed.

Lemma tget_insert_nat (l : list (option A)) n j o :
  n < length l →
  tget (<[n := o]> l) j = if decide (N.of_nat n = j) then o else tget l j.
Proof. intros. rewrite <- (Nat2N.id n) at 1. apply tget_insert. lia. Qed.

Lemma tget_insert_eq (l : list (option A)) i o x :
  tget l i = Some x → tget (<[N.to_nat i := o]> l) i = o.
Proof.
  intros H. rewrite tget_insert; [by rewrite decide_True|].
  apply tget_lt in H. lia.
Qed.

Lemma tget_insert_ne (l : list (option A)) i j o :
  i ≠ j → tget (<[N.to_nat i := o]> l) j = tget l j.
Proof.
  intros Hij. unfold tget. rewrite !getN_lookup, list_lookup_insert_ne; [done|lia].
Qed.

Lemma flatten_elem (l : list (option A)) x :
  x ∈ flatten l ↔ Some x ∈ l.
Proof.
  induction l as [|[y|] l IH]; simpl; rewrite ?elem_of_cons, ?IH; [|naive_solver..].
  split; intros []%not_elem_of_nil.
Qed.

Lemma flatten_lookup (l : list (option A)) x :
  x ∈ flatten l ↔ ∃ i, l !! i = Some (Some x).
Proof. rewrite flatten_elem. apply list_elem_of_lookup. Qed.

Lemma position_Some p (l : list A) i :
  position p l = Some i →
  (∃ x, l !! i = Some x ∧ p x = true) ∧ ∀ j x, j < i → l !! j = Some x → p x = false.
Proof.
  revert i. induction l as [|x l IH]; intros i; simpl; [done|].
  destruct (p x) eqn:Hp.
  - intros [= <-]. split; [by exists x|lia].
  - destruct (position p l) as [k|]; simpl; [|done]. intros [= <-].
    destruct (IH k eq_refl) as [[y ?] Hj]. split; [by exists y|].
    intros [|j] z Hlt Hz; simpl in *; [by simplify_eq|]. apply (Hj j); [lia|done].
Qed.

Lemma position_None p (l : list A) :
  position p l = None ↔ ∀ x, x ∈ l → p x = false.
Proof.
  induction l as [|x l IH]; simpl.
  - split; [intros _ x H; inversion H|done].
  - setoid_rewrite elem_of_cons. destruct (p x) eqn:Hp.
    + split; [done|]. intros H. rewrite (H x (or_introl eq_refl)) in Hp. done.
    + rewrite fmap_None, IH. naive_solver.
Qed.
End arrays.

Lemma flatten_length_le {A} (l : list (option A)) : length (flatten l) ≤ length l.
Proof. induction l as [|[] l IH]; simpl; lia. Qed.

(** The first free slot of an object table. *)
Lemma position_free {A} (l : list (option A)) i :
  position is_none l = Some i → l !! i = Some None ∧ i < length l.
Proof.
  intros [[[x|] [Hi Hx]] _]%position_Some; [done|].
  split; [done|]. by eapply lookup_lt_Some.
Qed.

Lemma position_free_None {A} (l : list (option A)) i x :
  position is_none l = None → l !! i = Some x → ∃ y, x = Some y.
Proof.
  intros H Hi. rewrite position_None in H. apply list_elem_of_lookup_2, H in Hi.
  destruct x; naive_solver.
Qed.

Lemma tget_replicate_None {A} n i : tget (replicate n (None : option A)) i = None.
Proof.
  unfold tget. rewrite getN_lookup. destruct (_ !! _) as [o|] eqn:E; [|done].
  by apply lookup_replicate in E as [-> _].
Qed.

Lemma tget_insert_Some {A} (l : list (option A)) i j o x :
  tget (<[N.to_nat i := o]> l) j = Some x →
  (i = j ∧ o = Some x) ∨ (i ≠ j ∧ tget l j = Some x).
Proof.
  intros H. destruct (decide (i = j)) as [->|Hne].
  - left. split; [done|].
    pose proof (tget_lt _ _ _ H) as Hlt. rewrite length_insert in Hlt.
    rewrite tget_insert in H by lia. by rewrite decide_True in H.
  - right. by rewrite tget_insert_ne in H.
Qed.
