(* ===== verification/PhysMem.v ===== *)
(** * Memory as a function from addresses to bytes

    What the parts that read and write memory through raw pointers share: the
    firmware's tables, the hand-off of the boot loader, and the page that a driver
    shares with its device.  A cell is used modulo 256; an access to an address
    that is not mapped is outside the model. *)

From S2P Require Import Prelude.

Definition upd {K A} `{EqDecision K} (k : K) (x : A) (f : K → A) : K → A :=
  λ i, if decide (i = k) then x else f i.

(** ** Reads and writes *)

(** [write_bytes(p, 0, n)] and [copy_nonoverlapping(bytes, p, bytes.len())] *)
Definition write_zeros (p n : N) (m : N → N) : N → N := λ a,
  if (p <=? a)%N && (a <? p + n)%N then 0%N else m a.

Definition write_copy (p : N) (bytes : list N) (m : N → N) : N → N := λ a,
  if (p <=? a)%N && (a <? p + N.of_nat (length bytes))%N
  then default 0%N (getN bytes (a - p)) else m a.

(** Little-endian numbers of [n] bytes, in the memory of a region by offset. *)
Fixpoint rd (m : N → N) (a : N) (n : nat) : N :=
  match n with
  | 0 => 0
  | S n => m a mod 256 + 256 * rd m (a + 1) n
  end.

Fixpoint wr (m : N → N) (a : N) (n : nat) (v : N) : N → N :=
  match n with
  | 0 => m
  | S n => upd a (v mod 256)%N (wr m (a + 1) n (v / 256))
  end.

Lemma rd_ext m m' a n : (∀ i, (a ≤ i < a + N.of_nat n)%N → m i = m' i) → rd m a n = rd m' a n.
Proof.
  revert a. induction n as [|n IH]; intros a He; [done|]. cbn [rd].
  rewrite (He a) by lia. by rewrite (IH (a + 1)%N) by (intros; apply He; lia).
Qed.

Lemma wr_other m a n v i : ¬ (a ≤ i < a + N.of_nat n)%N → wr m a n v i = m i.
Proof.
  revert a v. induction n as [|n IH]; intros a v Hi; [done|]. cbn [wr]. unfold upd.
  rewrite decide_False by lia. apply IH. lia.
Qed.

Lemma rd_wr_other m a n v b k :
  (b + N.of_nat k ≤ a ∨ a + N.of_nat n ≤ b)%N → rd (wr m a n v) b k = rd m b k.
Proof. intros Hd. apply rd_ext. intros i Hi. apply wr_other. lia. Qed.

Lemma rd_wr m a n v : (v < 256 ^ N.of_nat n)%N → rd (wr m a n v) a n = v.
Proof.
  revert a v. induction n as [|n IH]; intros a v Hv; [simpl in *; lia|].
  rewrite Nat2N.inj_succ, N.pow_succ_r' in Hv. cbn [rd wr].
  assert (rd (upd a (v mod 256)%N (wr m (a + 1) n (v / 256))) (a + 1) n = v / 256)%N as ->.
  { rewrite <- (IH (a + 1)%N (v / 256)%N) at 2 by (by apply N.Div0.div_lt_upper_bound).
    apply rd_ext. intros i Hi. unfold upd. rewrite decide_False; [done|lia]. }
  unfold upd. rewrite decide_True, N.Div0.mod_mod by done.
  pose proof (N.div_mod v 256 ltac:(done)). lia.
Qed.

Lemma rd_bound m a n : (rd m a n < 256 ^ N.of_nat n)%N.
Proof.
  revert a. induction n as [|n IH]; intros a; cbn [rd]; [done|].
  rewrite Nat2N.inj_succ, N.pow_succ_r'. specialize (IH (a + 1)%N).
  pose proof (N.mod_lt (m a) 256 ltac:(done)). lia.
Qed.

Definition bytes_at (m : N → N) (a n : N) : list N := (λ i, m (a + N.of_nat i)%N mod 256)%N <$> seq 0 (N.to_nat n).

Lemma bytes_at_same m m' a n :
  (∀ i, (a ≤ i < a + n)%N → m' i = m i) → bytes_at m' a n = bytes_at m a n.
Proof.
  intros Hm. apply list_fmap_ext. intros i k Hi. apply lookup_seq in Hi as [-> Hlt]. by rewrite Hm by lia.
Qed.

(** Writing the bytes [l] at [a]. *)
Fixpoint fill (m : N → N) (a : N) (l : list N) : N → N :=
  match l with
  | [] => m
  | x :: l => upd a x (fill m (a + 1) l)
  end.

Lemma fill_other m a l i : ¬ (a ≤ i < a + N.of_nat (length l))%N → fill m a l i = m i.
Proof.
  revert a. induction l as [|x l IH]; intros a Hi; [done|]. cbn [fill length] in *. unfold upd.
  rewrite decide_False by lia. apply IH. lia.
Qed.

(** The bytes of [fill]. *)
Lemma fill_bytes m a l :
  Forall (λ x, x < 256)%N l → bytes_at (fill m a l) a (N.of_nat (length l)) = l.
Proof.
  intros Hl. unfold bytes_at. rewrite Nat2N.id. revert a. induction Hl as [|x l Hx Hl IH]; intros a; [done|].
  cbn [length seq fmap list_fmap fill]. f_equal.
  - rewrite N.add_0_r. unfold upd. rewrite decide_True by done. by apply N.mod_small.
  - rewrite <- (IH (a + 1)%N) at 2. rewrite <- fmap_S_seq, <- list_fmap_compose. apply list_fmap_ext.
    intros i k _. simpl. unfold upd. rewrite decide_False by lia. do 2 f_equal. lia.
Qed.

(** ** The bytes at an address *)

Definition cell (m : N → N) (a : N) : N := (m a mod 256)%N.

(** The bytes [l] are at [a]. *)
Definition holds (m : N → N) (a : N) (l : list N) : Prop :=
  ∀ i x, l !! i = Some x → cell m (a + N.of_nat i) = x.

Lemma holds_nil m a : holds m a [].
Proof. done. Qed.

Lemma holds_cons m a x l : holds m a (x :: l) ↔ cell m a = x ∧ holds m (a + 1) l.
Proof.
  split.
  - intros Hh. split; [by rewrite <- (Hh 0 x eq_refl), N.add_0_r|].
    intros i y Hi. rewrite <- (Hh (S i) y Hi). f_equal. lia.
  - intros [Hx Hl] [|i] y; [intros [= <-]; by rewrite N.add_0_r|]. intros Hi.
    rewrite <- (Hl i y Hi). f_equal. lia.
Qed.

Lemma holds_app m a l k : holds m a (l ++ k) ↔ holds m a l ∧ holds m (a + N.of_nat (length l)) k.
Proof.
  revert a. induction l as [|x l IH]; intros a; cbn [app length].
  - rewrite N.add_0_r. split; [by split|by intros []].
  - rewrite !holds_cons, IH. replace (a + 1 + N.of_nat (length l))%N with (a + N.of_nat (S (length l)))%N by lia.
    tauto.
Qed.

Lemma holds_bytes_at m a l : holds m a l → bytes_at m a (N.of_nat (length l)) = l.
Proof.
  intros Hh. unfold bytes_at. rewrite Nat2N.id. apply list_eq. intros i. rewrite list_lookup_fmap.
  destruct (l !! i) as [x|] eqn:Hi.
  - rewrite lookup_seq_lt by (by apply lookup_lt_Some in Hi). simpl. f_equal. by apply Hh.
  - apply lookup_ge_None in Hi. by rewrite lookup_seq_ge.
Qed.

Lemma bytes_at_holds m a l : bytes_at m a (N.of_nat (length l)) = l → holds m a l.
Proof.
  intros E i x Hi. rewrite <- E in Hi. unfold bytes_at in Hi. rewrite Nat2N.id, list_lookup_fmap in Hi.
  rewrite lookup_seq_lt in Hi; [by injection Hi|].
  apply fmap_Some in Hi as (j & Hj & _). by apply lookup_seq in Hj as [-> ?].
Qed.

(** Numbers as bytes, in the two orders. *)
Fixpoint to_le (n : nat) (v : N) : list N :=
  match n with
  | 0 => []
  | S n => (v mod 256)%N :: to_le n (v / 256)
  end.

Fixpoint to_be (n : nat) (v : N) : list N :=
  match n with
  | 0 => []
  | S n => (v / 256 ^ N.of_nat n mod 256)%N :: to_be n v
  end.

Fixpoint rd_be (m : N → N) (a : N) (n : nat) : N :=
  match n with
  | 0 => 0
  | S n => 256 ^ N.of_nat n * cell m a + rd_be m (a + 1) n
  end.

Lemma to_le_length n v : length (to_le n v) = n.
Proof. revert v. induction n as [|n IH]; intros v; [done|]. simpl. by rewrite IH. Qed.

Lemma to_be_length n v : length (to_be n v) = n.
Proof. induction n as [|n IH]; [done|]. simpl. by rewrite IH. Qed.

Lemma to_le_inj n v w :
  (v < 256 ^ N.of_nat n)%N → (w < 256 ^ N.of_nat n)%N → to_le n v = to_le n w → v = w.
Proof.
  revert v w. induction n as [|n IH]; intros v w; [simpl; lia|].
  rewrite Nat2N.inj_succ, N.pow_succ_r'. intros Hv Hw [= Hm Hd].
  apply IH in Hd; [|by apply N.Div0.div_lt_upper_bound..].
  rewrite (N.div_mod v 256), (N.div_mod w 256) by done. congruence.
Qed.

Lemma rd_holds m a n v : holds m a (to_le n v) → (v < 256 ^ N.of_nat n)%N → rd m a n = v.
Proof.
  revert a v. induction n as [|n IH]; intros a v; [simpl; lia|].
  rewrite Nat2N.inj_succ, N.pow_succ_r'. cbn [to_le rd]. intros [Hc Hl]%holds_cons Hv.
  rewrite (IH (a + 1)%N (v / 256)%N) by (done || by apply N.Div0.div_lt_upper_bound).
  unfold cell in Hc. rewrite Hc. pose proof (N.div_mod v 256 ltac:(done)). lia.
Qed.

Lemma rd_be_holds m a n v : holds m a (to_be n v) → (v < 256 ^ N.of_nat n)%N → rd_be m a n = v.
Proof.
  intros Hh Hv. rewrite <- (N.mod_small v (256 ^ N.of_nat n)) by done. clear Hv. revert a Hh.
  induction n as [|n IH]; intros a; cbn [to_be rd_be].
  - by rewrite N.mod_1_r.
  - intros [Hc Hl]%holds_cons. rewrite IH by done. rewrite Hc, Nat2N.inj_succ, N.pow_succ_r'.
    rewrite (N.mul_comm 256), N.Div0.mod_mul_r. lia.
Qed.

Lemma rd_be_bound m a n : (rd_be m a n < 256 ^ N.of_nat n)%N.
Proof.
  revert a. induction n as [|n IH]; intros a; [done|]. cbn [rd_be].
  rewrite Nat2N.inj_succ, N.pow_succ_r'. specialize (IH (a + 1)%N).
  pose proof (N.mod_lt (m a) 256 ltac:(done)). unfold cell. nia.
Qed.

Definition be_value (l : list N) : N := foldl (λ x b, 256 * x + b)%N 0%N l.

Lemma be_value_from x l :
  foldl (λ x b, 256 * x + b)%N x l = (x * 256 ^ N.of_nat (length l) + be_value l)%N.
Proof.
  unfold be_value. revert x. induction l as [|b l IH]; intros x; cbn [foldl length]; [lia|].
  rewrite IH, (IH (256 * 0 + b)%N), Nat2N.inj_succ, N.pow_succ_r'. lia.
Qed.

Lemma rd_be_value m a l : holds m a l → rd_be m a (length l) = be_value l.
Proof.
  revert a. induction l as [|b l IH]; intros a; [done|]. intros [Hb Hl]%holds_cons.
  cbn [length rd_be]. unfold be_value. cbn [foldl]. rewrite be_value_from, IH, Hb by done. lia.
Qed.

Lemma holds_sub m a l k n : holds m a l → holds m (a + N.of_nat k) (take n (drop k l)).
Proof.
  intros Hh i x Hi. apply lookup_take_Some in Hi as [Hi _]. rewrite lookup_drop in Hi.
  rewrite <- (Hh _ _ Hi). f_equal. lia.
Qed.

Lemma holds_ext m m' a l :
  (∀ i, (a ≤ i < a + N.of_nat (length l))%N → m' i = m i) → holds m a l → holds m' a l.
Proof.
  intros He Hh i x Hi. rewrite <- (Hh i x Hi). unfold cell. rewrite He; [done|].
  apply lookup_lt_Some in Hi. lia.
Qed.

Lemma holds_wr m a n v : holds (wr m a n v) a (to_le n v).
Proof.
  revert m a v. induction n as [|n IH]; intros m a v; [apply holds_nil|]. cbn [wr to_le]. apply holds_cons. split.
  - unfold cell, upd. rewrite decide_True by done. by rewrite N.Div0.mod_mod.
  - eapply holds_ext; [|apply IH]. intros i Hi. unfold upd. by rewrite decide_False by lia.
Qed.

Lemma write_copy_in p l m i x : l !! i = Some x → write_copy p l m (p + N.of_nat i)%N = x.
Proof.
  intros Hi. pose proof (lookup_lt_Some _ _ _ Hi). unfold write_copy.
  rewrite (proj2 (N.leb_le _ _)), (proj2 (N.ltb_lt _ _)) by lia. simpl.
  rewrite getN_lookup. replace (N.to_nat (p + N.of_nat i - p)) with i by lia. by rewrite Hi.
Qed.

Lemma write_copy_out p l m a : ¬ (p ≤ a < p + N.of_nat (length l))%N → write_copy p l m a = m a.
Proof.
  intros Ha. unfold write_copy. destruct (N.leb_spec p a), (N.ltb_spec a (p + N.of_nat (length l))); simpl; done || lia.
Qed.

Lemma write_zeros_at p n m a :
  write_zeros p n m a = if decide (p ≤ a < p + n)%N then 0%N else m a.
Proof. unfold write_zeros. destruct (N.leb_spec p a), (N.ltb_spec a (p + n)); simpl; case_decide; done || lia. Qed.

Lemma holds_write_copy p l m : Forall (λ x, x < 256)%N l → holds (write_copy p l m) p l.
Proof.
  intros Hl i x Hi. unfold cell. rewrite (write_copy_in p l m i x Hi). apply N.mod_small.
  by apply (Forall_lookup_1 _ _ _ _ Hl Hi).
Qed.

(** The value of little-endian bytes. *)
Lemma rd_value m a l : holds m a l → rd m a (length l) = foldr (λ b n, b + 256 * n)%N 0%N l.
Proof.
  revert a. induction l as [|x l IH]; intros a; [done|]. intros [Hx Hl]%holds_cons. cbn [length rd foldr].
  rewrite IH by done. unfold cell in Hx. by rewrite Hx.
Qed.
