(* ===== verification/Capability.v ===== *)
(** * Capabilities

    [kernel/kernel-cap/src/rights.rs] and [lib.rs]: the rights bit set, the
    kinds of kernel object, object references and the capability value.

    The bit-set operations on rights come from the [bitflags] crate, which is
    not part of the repository: they are the class [Bitflags], and what the
    kernel relies on of its documentation is [BitflagsSpec]. *)

From S2P Require Import Prelude.

(** ** Identifiers ([ids.rs])

    Every id is a transparent [u32] index into a table. *)
Abbreviation CapId := N (only parsing).
Abbreviation ObjectId := N (only parsing).
Abbreviation ThreadId := N (only parsing).
Abbreviation EndpointId := N (only parsing).
Abbreviation NotificationId := N (only parsing).
Abbreviation UntypedId := N (only parsing).
Abbreviation PageTableId := N (only parsing).
Abbreviation CapSpaceId := N (only parsing).
Abbreviation SharedRegionId := N (only parsing).
Abbreviation ChainGroupId := N (only parsing).
Abbreviation MmioRegionId := N (only parsing).

(** [u32::MAX], the id of nothing. *)
Definition id_max : N := 4294967295.

(** ** Rights *)

Abbreviation CapabilityRights := N (only parsing).

Class Bitflags := {
  bf_contains : CapabilityRights → CapabilityRights → bool;
  bf_union : CapabilityRights → CapabilityRights → CapabilityRights;
  bf_all : list CapabilityRights → CapabilityRights;
}.

(** The crate's documentation: [contains] is [self & other == other], [union]
    is the bitwise or, [all] is the union of the declared flags. *)
Class BitflagsSpec (BF : Bitflags) : Prop := {
  bf_contains_spec a b : bf_contains a b = (N.land a b =? b)%N;
  bf_union_spec a b : bf_union a b = N.lor a b;
  bf_all_spec l : bf_all l = foldr N.lor 0%N l;
}.

(** The implementation that satisfies the documentation. *)
#[export] Instance bitflags_bits : Bitflags := {|
  bf_contains a b := (N.land a b =? b)%N;
  bf_union := N.lor;
  bf_all := foldr N.lor 0%N;
|}.

#[export] Instance bitflags_bits_spec : BitflagsSpec bitflags_bits.
Proof. by split. Qed.

Definition READ : CapabilityRights := 1.
Definition WRITE : CapabilityRights := 2.
Definition EXECUTE : CapabilityRights := 4.
Definition GRANT : CapabilityRights := 8.
Definition DUPLICATE : CapabilityRights := 16.
Definition REVOKE : CapabilityRights := 32.

(** ** Objects *)

Inductive KernelObjectKind :=
| UntypedMemoryK
| PageTableK
| ThreadControlBlockK
| EndpointK
| NotificationK
| CapabilitySpaceK
| SharedRegionK
| MmioRegionK.

#[export] Instance KernelObjectKind_eq_dec : EqDecision KernelObjectKind.
Proof. solve_decision. Defined.

Record ObjectRef := { or_kind : KernelObjectKind; or_id : ObjectId }.

#[export] Instance ObjectRef_eq_dec : EqDecision ObjectRef.
Proof. solve_decision. Defined.

Record Capability := {
  cap_object : ObjectRef;
  cap_rights : CapabilityRights;
  cap_badge : N;
}.

#[export] Instance Capability_eq_dec : EqDecision Capability.
Proof. solve_decision. Defined.

Section rights.
Context {BF : Bitflags}.

Definition all_rights : CapabilityRights :=
  bf_all [READ; WRITE; EXECUTE; GRANT; DUPLICATE; REVOKE].

Definition RO : CapabilityRights := READ.
Definition RW : CapabilityRights := bf_union READ WRITE.
Definition RX : CapabilityRights := bf_union READ EXECUTE.

Definition is_subset_of (self parent : CapabilityRights) : bool :=
  bf_contains parent self.

Definition full (object : ObjectRef) : Capability :=
  {| cap_object := object; cap_rights := all_rights; cap_badge := 0 |}.

(** The [debug_assert!] on a capability that already has a badge is a
    panic. *)
Definition with_badge (c : Capability) (badge : N) : option Capability :=
  if (cap_badge c =? 0)%N
  then Some {| cap_object := cap_object c; cap_rights := cap_rights c; cap_badge := badge |}
  else None.

Definition allows (c : Capability) (needed : CapabilityRights) : bool :=
  bf_contains (cap_rights c) needed.
End rights.

(** ** The order on rights *)
Section order.
Context {BF : Bitflags} {BFS : BitflagsSpec BF}.

Lemma is_subset_of_spec r p : is_subset_of r p = true ↔ N.land p r = r.
Proof. unfold is_subset_of. rewrite bf_contains_spec. apply N.eqb_eq. Qed.

(** Bit by bit. *)
Lemma is_subset_of_bits r p :
  is_subset_of r p = true ↔ ∀ i, N.testbit r i = true → N.testbit p i = true.
Proof.
  rewrite is_subset_of_spec. split.
  - intros H i Hi. rewrite <- H, N.land_spec in Hi. by apply andb_prop in Hi as [].
  - intros H. apply N.bits_inj. intros i. rewrite N.land_spec.
    destruct (N.testbit r i) eqn:E; [by rewrite H|by rewrite andb_false_r].
Qed.

Lemma is_subset_of_refl r : is_subset_of r r = true.
Proof. apply is_subset_of_bits. auto. Qed.

Lemma is_subset_of_trans r1 r2 r3 :
  is_subset_of r1 r2 = true → is_subset_of r2 r3 = true → is_subset_of r1 r3 = true.
Proof. rewrite !is_subset_of_bits. auto. Qed.

Lemma all_rights_val : all_rights = 63%N.
Proof. unfold all_rights. by rewrite bf_all_spec. Qed.

Lemma RW_val : RW = 3%N.
Proof. unfold RW. by rewrite bf_union_spec. Qed.

Lemma allows_spec c r : allows c r = true ↔ N.land (cap_rights c) r = r.
Proof. apply is_subset_of_spec. Qed.
End order.
