(* ===== verification/CapTable.v ===== *)
(** * One capability table

    [kernel/kernel-cap/src/cdt.rs], the per-space part: the slot array with
    its intrusive free list ([new], [lookup], [alloc_slot], [free_slot],
    [insert_root], [insert_derived], [derive_child]).  The invariant [wf] is
    invariants 1 and 2 of the module's documentation; the operations are
    refined by insertion into, and deletion from, the partial function
    [entry] from slot numbers to a capability and its parent link. *)

From S2P Require Import Prelude Capability.

Inductive CapTableError := Full | EmptySlot | RightsEscalation | BadgeConflict.

Record GlobalCapId := mkGlobalCapId { g_space : CapSpaceId; g_cap : CapId }.

#[export] Instance GlobalCapId_eq_dec : EqDecision GlobalCapId.
Proof. solve_decision. Defined.

#[export] Instance CapTableError_eq_dec : EqDecision CapTableError.
Proof. solve_decision. Defined.

Record CapSlot := mkSlot {
  slot_cap : option Capability;
  slot_parent : option GlobalCapId;
  slot_free_next : option CapId;
}.

Definition EMPTY : CapSlot := mkSlot None None None.

Record CapTable := mkCapTable {
  slots : list CapSlot;
  free_head : option CapId;
  occupied : N;
  space_id : CapSpaceId;
}.

(** [CapTable::<n>::new(space)] *)
Definition new (n : nat) (space : CapSpaceId) : CapTable := {|
  slots := (λ i, mkSlot None None
             (if i + 1 <? n then Some (truncate U32 (N.of_nat (i + 1))) else None))
           <$> seq 0 n;
  free_head := if 0 <? n then Some 0%N else None;
  occupied := 0;
  space_id := space;
|}.

Definition len (t : CapTable) : N := occupied t.
Definition is_empty (t : CapTable) : bool := (occupied t =? 0)%N.
Definition is_full (t : CapTable) : bool := is_none (free_head t).

Definition lookup (t : CapTable) (id : CapId) : option Capability :=
  s ← getN (slots t) id; slot_cap s.

Definition parent_of (t : CapTable) (id : CapId) : option GlobalCapId :=
  s ← getN (slots t) id; slot_parent s.

(** [self.slots[id] = s] *)
Definition set_slot (id : CapId) (s : CapSlot) (t : CapTable) : CapTable := {|
  slots := <[N.to_nat id := s]> (slots t);
  free_head := free_head t;
  occupied := occupied t;
  space_id := space_id t;
|}.

Definition set_free_head (h : option CapId) (t : CapTable) : CapTable := {|
  slots := slots t; free_head := h; occupied := occupied t; space_id := space_id t;
|}.

Definition set_occupied (n : N) (t : CapTable) : CapTable := {|
  slots := slots t; free_head := free_head t; occupied := n; space_id := space_id t;
|}.

Definition alloc_slot : M CapTable CapTableError CapId :=
  head ← gets free_head;
  id ← ok_or head Full;
  t ← gets (λ t, t);
  slot ← unwrap (getN (slots t) id);
  _ ← modify (set_free_head (slot_free_next slot));
  _ ← modify (set_slot id EMPTY);
  n ← unwrap (checked_add U64 (occupied t) 1);
  _ ← modify (set_occupied n);
  mret id.

Definition free_slot {E} (id : CapId) : M CapTable E unit :=
  t ← gets (λ t, t);
  _ ← unwrap (getN (slots t) id);
  _ ← modify (set_slot id (mkSlot None None (free_head t)));
  _ ← modify (set_free_head (Some id));
  n ← unwrap (checked_sub (occupied t) 1);
  modify (set_occupied n).

Definition insert_root (cap : Capability) : M CapTable CapTableError CapId :=
  id ← alloc_slot;
  t ← gets (λ t, t);
  slot ← unwrap (getN (slots t) id);
  _ ← modify (set_slot id (mkSlot (Some cap) (slot_parent slot) (slot_free_next slot)));
  mret id.

Section derive.
Context {BF : Bitflags}.

(** The badge of a derived capability: badges are write-once. *)
Definition effective_badge (parent_cap : Capability) (badge : N) : option N :=
  if negb (cap_badge parent_cap =? 0)%N then
    if negb (badge =? 0)%N && negb (badge =? cap_badge parent_cap)%N
    then None
    else Some (cap_badge parent_cap)
  else Some badge.

Definition insert_derived (parent_cap : Capability) (parent_global : GlobalCapId)
    (rights : CapabilityRights) (badge : N) : M CapTable CapTableError CapId :=
  if negb (is_subset_of rights (cap_rights parent_cap)) then throw RightsEscalation else
  eff ← ok_or (effective_badge parent_cap badge) BadgeConflict;
  child ← alloc_slot;
  t ← gets (λ t, t);
  slot ← unwrap (getN (slots t) child);
  _ ← modify (set_slot child
        (mkSlot (Some {| cap_object := cap_object parent_cap;
                         cap_rights := rights;
                         cap_badge := eff |})
                (Some parent_global) (slot_free_next slot)));
  mret child.

Definition derive_child (parent : CapId) (rights : CapabilityRights) (badge : N)
    : M CapTable CapTableError CapId :=
  t ← gets (λ t, t);
  parent_cap ← ok_or (lookup t parent) EmptySlot;
  insert_derived parent_cap (mkGlobalCapId (space_id t) parent) rights badge.

(** [derive_child_cross_space]: a method of the destination table that reads
    the source table. *)
Definition derive_child_cross_space (src : CapTable) (src_space : CapSpaceId)
    (parent : CapId) (rights : CapabilityRights) (badge : N)
    : M CapTable CapTableError CapId :=
  parent_cap ← ok_or (lookup src parent) EmptySlot;
  insert_derived parent_cap (mkGlobalCapId src_space parent) rights badge.
End derive.

(** ** The invariant *)

(** [free_chain l head fl]: following [free_next] from [head] visits exactly
    the free slots [fl], in order, and then stops. *)
Fixpoint free_chain (l : list CapSlot) (head : option CapId) (fl : list CapId) : Prop :=
  match fl with
  | [] => head = None
  | i :: fl =>
      head = Some i ∧
      ∃ next, l !! N.to_nat i = Some (mkSlot None None next) ∧ free_chain l next fl
  end.

Record wf_with (t : CapTable) (fl : list CapId) : Prop := {
  wf_chain : free_chain (slots t) (free_head t) fl;
  wf_nodup : NoDup fl;
  wf_free i s : slots t !! i = Some s → slot_cap s = None → N.of_nat i ∈ fl;
  wf_occupied : (occupied t + N.of_nat (length fl) = N.of_nat (length (slots t)))%N;
  wf_bound : (N.of_nat (length (slots t)) < U32)%N;
}.

Definition wf (t : CapTable) : Prop := ∃ fl, wf_with t fl.

(** The contents of a table: the capability and the parent link of every
    occupied slot. *)
Definition entry (t : CapTable) (id : CapId) : option (Capability * option GlobalCapId) :=
  s ← getN (slots t) id; c ← slot_cap s; Some (c, slot_parent s).

(** A slot as it is when occupied. *)
Definition filled (cap : Capability) (parent : option GlobalCapId) : CapSlot :=
  mkSlot (Some cap) parent None.

(** What a successful insertion does: one fresh slot is filled, nothing else
    changes. *)
Record inserted (t : CapTable) (id : CapId) (cap : Capability)
    (parent : option GlobalCapId) (t' : CapTable) : Prop := {
  ins_fresh : entry t id = None;
  ins_lt : (id < N.of_nat (length (slots t)))%N;
  ins_wf : wf t';
  ins_entry j : entry t' j = if decide (id = j) then Some (cap, parent) else entry t j;
  ins_length : length (slots t') = length (slots t);
  ins_space : space_id t' = space_id t;
  ins_len : len t' = (len t + 1)%N;
}.

(** What freeing an occupied slot does. *)
Record freed (t : CapTable) (id : CapId) (t' : CapTable) : Prop := {
  fr_wf : wf t';
  fr_entry j : entry t' j = if decide (id = j) then None else entry t j;
  fr_length : length (slots t') = length (slots t);
  fr_space : space_id t' = space_id t;
  fr_len : (len t' + 1)%N = len t;
}.

(** ** Free chains *)

Lemma free_chain_elem l h fl i :
  free_chain l h fl → i ∈ fl → ∃ next, l !! N.to_nat i = Some (mkSlot None None next).
Proof.
  revert h. induction fl as [|j fl IH]; intros h; simpl; [by intros _ ?%not_elem_of_nil|].
  intros (_ & next & Hj & Hc) [->|Hi]%elem_of_cons; eauto.
Qed.

Lemma free_chain_insert l h fl i s :
  i ∉ fl → free_chain l h fl → free_chain (<[N.to_nat i := s]> l) h fl.
Proof.
  revert h. induction fl as [|j fl IH]; intros h; simpl; [done|].
  intros [Hij Hi]%not_elem_of_cons (-> & next & Hj & Hc). split; [done|].
  exists next. rewrite list_lookup_insert_ne by lia. auto.
Qed.

Lemma free_chain_lt l h fl i :
  free_chain l h fl → i ∈ fl → N.to_nat i < length l.
Proof. intros Hc Hi. destruct (free_chain_elem _ _ _ _ Hc Hi). by eapply lookup_lt_Some. Qed.

(** The chain threaded by [new]. *)
Lemma new_chain n k m :
  k + m = n → (N.of_nat n < U32)%N →
  free_chain ((λ i, mkSlot None None
             (if i + 1 <? n then Some (truncate U32 (N.of_nat (i + 1))) else None)) <$> seq 0 n)
    (if k <? n then Some (N.of_nat k) else None) (N.of_nat <$> seq k m).
Proof.
  revert k. induction m as [|m IH]; intros k Hn Hb; simpl.
  { case_match eqn:E; [apply Nat.ltb_lt in E; lia|done]. }
  rewrite (proj2 (Nat.ltb_lt k n)) by lia. split; [done|]. eexists.
  rewrite Nat2N.id, list_lookup_fmap, lookup_seq_lt by lia. simpl. split; [done|].
  replace (k + 1) with (S k) by lia.
  specialize (IH (S k) ltac:(lia) Hb). case_match eqn:E; [|done].
  apply Nat.ltb_lt in E. unfold truncate. rewrite N.mod_small by lia. done.
Qed.

Lemma new_slots_length n s : length (slots (new n s)) = n.
Proof. simpl. by rewrite length_fmap, length_seq. Qed.

Lemma new_wf n s : (N.of_nat n < U32)%N → wf (new n s).
Proof.
  intros Hb. exists (N.of_nat <$> seq 0 n). split.
  - pose proof (new_chain n 0 n eq_refl Hb). done.
  - apply NoDup_fmap_2; [apply _|]. apply NoDup_seq.
  - intros i sl Hi _. apply list_elem_of_fmap_2, elem_of_seq.
    apply lookup_lt_Some in Hi. rewrite new_slots_length in Hi. lia.
  - simpl. rewrite !length_fmap, length_seq. lia.
  - by rewrite new_slots_length.
Qed.

Lemma new_entry n s id : entry (new n s) id = None.
Proof.
  unfold entry. rewrite getN_lookup. simpl.
  rewrite list_lookup_fmap. destruct (seq 0 n !! N.to_nat id); done.
Qed.

(** ** Entries *)

Lemma entry_slots t t' id : slots t = slots t' → entry t id = entry t' id.
Proof. unfold entry. by intros ->. Qed.

Lemma entry_lookup t id : lookup t id = fst <$> entry t id.
Proof. unfold lookup, entry. by destruct (getN _ _) as [[[] ? ?]|]. Qed.

Lemma entry_parent t id c p : entry t id = Some (c, p) → parent_of t id = p.
Proof.
  unfold parent_of, entry. destruct (getN _ _) as [[[] ? ?]|]; simpl; naive_solver.
Qed.

Lemma entry_lt t id e : entry t id = Some e → (id < N.of_nat (length (slots t)))%N.
Proof.
  unfold entry. rewrite getN_lookup. destruct (_ !! _) eqn:E; simpl; [|done].
  apply lookup_lt_Some in E. lia.
Qed.

Lemma entry_insert l h o sp id s j :
  (id < N.of_nat (length l))%N →
  entry (mkCapTable (<[N.to_nat id := s]> l) h o sp) j =
    if decide (id = j) then c ← slot_cap s; Some (c, slot_parent s)
    else entry (mkCapTable l h o sp) j.
Proof.
  intros Hlt. unfold entry. rewrite !getN_lookup. simpl. case_decide as Hd.
  - subst. rewrite list_lookup_insert_eq by lia. done.
  - rewrite list_lookup_insert_ne by lia. done.
Qed.

Lemma free_entry t id n :
  slots t !! N.to_nat id = Some (mkSlot None None n) → entry t id = None.
Proof. unfold entry. rewrite getN_lookup. by intros ->. Qed.

(** A free slot has no parent link. *)
Lemma entry_None_parent t id : wf t → entry t id = None → parent_of t id = None.
Proof.
  intros [fl Hfl] He. unfold entry, parent_of in *. rewrite getN_lookup in *.
  destruct (slots t !! N.to_nat id) as [[[c|] p nx]|] eqn:E; simpl in *; try done.
  pose proof (wf_free _ _ Hfl _ _ E eq_refl) as Hin. rewrite N2Nat.id in Hin.
  destruct (free_chain_elem _ _ _ _ (wf_chain _ _ Hfl) Hin) as [n Hn].
  rewrite E in Hn. by simplify_eq.
Qed.

(** ** Allocation and release *)

Lemma alloc_slot_full t : free_head t = None → alloc_slot t = (Err Full, t).
Proof. intros H. unfold alloc_slot, mbind, M_bind. simpl. by rewrite H. Qed.

(** The slot handed out is the head of the chain, and filling it leaves a
    well-formed table. *)
Lemma alloc_slot_head t i fl :
  wf_with t (i :: fl) →
  ∃ next,
    alloc_slot t =
      (Ok i, mkCapTable (<[N.to_nat i := EMPTY]> (slots t)) next (occupied t + 1) (space_id t)) ∧
    entry t i = None ∧ (i < N.of_nat (length (slots t)))%N ∧
    ∀ cap parent,
      wf_with (mkCapTable (<[N.to_nat i := filled cap parent]> (slots t)) next
                 (occupied t + 1) (space_id t)) fl.
Proof.
  intros [[Hh (next & Hi & Hc)] [Hni Hnd]%NoDup_cons Hfree Hocc Hb].
  pose proof (lookup_lt_Some _ _ _ Hi) as Hlt. simpl in Hocc.
  exists next. split; [|split; [by eapply free_entry|split; [lia|]]].
  - unfold alloc_slot, mbind, M_bind. simpl. rewrite Hh. simpl.
    rewrite getN_lookup, Hi. simpl. unfold checked_add.
    rewrite (proj2 (N.ltb_lt _ _)) by lia. done.
  - intros cap parent. split; simpl.
    + by apply free_chain_insert.
    + done.
    + intros j s Hj Hs. destruct (decide (j = N.to_nat i)) as [->|Hji].
      { rewrite list_lookup_insert_eq in Hj by done. by simplify_eq. }
      rewrite list_lookup_insert_ne in Hj by done.
      destruct (elem_of_cons fl (N.of_nat j) i) as [Hor _].
      destruct (Hor (Hfree _ _ Hj Hs)); [lia|done].
    + rewrite length_insert. lia.
    + by rewrite length_insert.
Qed.

Section insertion.
(** The shape shared by [insert_root] and [insert_derived]. *)
Definition fill (cap : Capability) (parent : option GlobalCapId) :
    M CapTable CapTableError CapId :=
  id ← alloc_slot; _ ← modify (set_slot id (filled cap parent)); mret id.

Lemma fill_spec t cap parent :
  wf t →
  (fill cap parent t = (Err Full, t) ∧ is_full t = true) ∨
  (∃ id t', fill cap parent t = (Ok id, t') ∧ is_full t = false ∧
            inserted t id cap parent t').
Proof.
  intros [[|i fl] Hfl].
  - left. pose proof (wf_chain _ _ Hfl) as Hh. simpl in Hh.
    unfold fill, mbind, M_bind. rewrite alloc_slot_full by done.
    unfold is_full. by rewrite Hh.
  - right. destruct (alloc_slot_head _ _ _ Hfl) as (next & Ha & Hnone & Hlt & Hwf).
    exists i. eexists. split; [|split].
    + unfold fill, mbind, M_bind. rewrite Ha. done.
    + destruct (wf_chain _ _ Hfl) as [Hh _]. unfold is_full. by rewrite Hh.
    + split; simpl; rewrite ?list_insert_insert_eq, ?length_insert; try done.
      * exists fl. unfold set_slot; simpl. rewrite list_insert_insert_eq. apply Hwf.
      * intros j. unfold set_slot; simpl.
        rewrite list_insert_insert_eq, entry_insert by done. by case_decide.
Qed.

Lemma insert_root_fill t cap : wf t → insert_root cap t = fill cap None t.
Proof.
  intros [[|i fl] Hfl]; unfold insert_root, fill, mbind, M_bind.
  - pose proof (wf_chain _ _ Hfl) as Hh. by rewrite alloc_slot_full.
  - destruct (alloc_slot_head _ _ _ Hfl) as (next & -> & _ & Hlt & _). simpl.
    rewrite getN_lookup, list_lookup_insert_eq by lia. done.
Qed.

Context {BF : Bitflags}.

Lemma insert_derived_fill t pc pg rights badge :
  wf t →
  insert_derived pc pg rights badge t =
    if negb (is_subset_of rights (cap_rights pc)) then (Err RightsEscalation, t) else
    match effective_badge pc badge with
    | None => (Err BadgeConflict, t)
    | Some eff =>
        fill {| cap_object := cap_object pc; cap_rights := rights; cap_badge := eff |}
             (Some pg) t
    end.
Proof.
  unfold insert_derived. destruct (negb _); [done|].
  destruct (effective_badge pc badge) as [eff|]; [|done].
  intros [[|i fl] Hfl]; unfold fill, mbind, M_bind; simpl.
  - pose proof (wf_chain _ _ Hfl) as Hh. by rewrite alloc_slot_full.
  - destruct (alloc_slot_head _ _ _ Hfl) as (next & -> & _ & Hlt & _). simpl.
    rewrite getN_lookup, list_lookup_insert_eq by lia. done.
Qed.
End insertion.

Lemma free_slot_spec {E} t id e :
  wf t → entry t id = Some e →
  ∃ t', free_slot (E := E) id t = (Ok tt, t') ∧ freed t id t'.
Proof.
  intros [fl [Hc Hnd Hfree Hocc Hb]] He. pose proof (entry_lt _ _ _ He) as Hlt.
  destruct (lookup_lt_is_Some_2 (slots t) (N.to_nat id)) as [s Hs]; [lia|].
  assert (id ∉ fl) as Hid.
  { intros Hin. destruct (free_chain_elem _ _ _ _ Hc Hin) as [n Hn].
    by rewrite (free_entry _ _ _ Hn) in He. }
  assert (length fl < length (slots t)) as Hlen.
  { assert (NoDup (id :: fl)) as Hnd' by by constructor.
    enough (length (id :: fl) ≤ length (N.of_nat <$> seq 0 (length (slots t)))) as H
      by (rewrite length_fmap, length_seq in H; simpl in H; lia).
    apply submseteq_length, NoDup_submseteq; [done|].
    intros x Hx. assert (N.to_nat x < length (slots t)).
    { apply elem_of_cons in Hx as [->|Hx]; [lia|]. by eapply free_chain_lt. }
    apply list_elem_of_fmap. exists (N.to_nat x). rewrite elem_of_seq. lia. }
  unfold free_slot, mbind, M_bind. simpl. rewrite getN_lookup, Hs. simpl.
  unfold checked_sub. rewrite (proj2 (N.leb_le 1 (occupied t))) by lia. simpl.
  eexists; split; [done|]. split; simpl; rewrite ?length_insert; try done.
  - exists (id :: fl). split; simpl; rewrite ?length_insert; try done.
    + split; [done|]. exists (free_head t). rewrite list_lookup_insert_eq by lia.
      split; [done|]. by apply free_chain_insert.
    + by constructor.
    + intros j sj Hj Hcap. apply elem_of_cons.
      destruct (decide (j = N.to_nat id)) as [->|Hne]; [left; lia|right].
      rewrite list_lookup_insert_ne in Hj by done. by eapply Hfree.
    + lia.
  - intros j. unfold set_slot, set_occupied, set_free_head; simpl.
    rewrite entry_insert by done. case_decide; [done|]. by apply entry_slots.
  - unfold len; simpl. lia.
Qed.
