(* ===== verification/Cdt.v ===== *)
(** * The capability derivation tree across capability spaces

    [kernel/kernel-cap/src/cdt.rs], the part that spans tables:
    [is_descendant_of] and [revoke_cross_space], over the array of all
    capability spaces.  [forest] is the module's invariants 3 to 5 together
    with well-formedness of every table; [descends] is the derivation order
    that the bounded ancestry walk decides. *)

From S2P Require Import Prelude Capability CapTable.

Abbreviation tables := (list (option CapTable)) (only parsing).

(** ** The ancestry walk and revocation *)

Definition parent_at (ts : tables) (g : GlobalCapId) : option GlobalCapId :=
  t ← tget ts (g_space g); parent_of t (g_cap g).

Fixpoint is_descendant_loop (fuel : nat) (ts : tables) (cur target : GlobalCapId) : bool :=
  match fuel with
  | 0 => false
  | S fuel =>
      match parent_at ts cur with
      | Some p => if decide (p = target) then true else is_descendant_loop fuel ts p target
      | None => false
      end
  end.

(** [n] is the const parameter [N]; [M] is the length of the array. *)
Definition is_descendant_of (n : nat) (ts : tables) (cur target : GlobalCapId) : bool :=
  is_descendant_loop (length ts * n + 1) ts cur target.

Definition is_marked (n : nat) (ts : tables) (target cand : GlobalCapId) : bool :=
  bool_decide (cand = target) || is_descendant_of n ts cand target.

(** Pass 1: one row of marks per table. *)
Definition mark (n : nat) (ts : tables) (target : GlobalCapId) : list (list bool) :=
  imap (λ si o,
    match o with
    | None => replicate n false
    | Some tbl =>
        (λ i, match lookup tbl (N.of_nat i) with
              | None => false
              | Some _ => is_marked n ts target (mkGlobalCapId (N.of_nat si) (N.of_nat i))
              end) <$> seq 0 n
    end) ts.

(** Pass 2: free the marked slots of one table, then of every table, counting
    in a [u32]. *)
Fixpoint free_row {E} (i : nat) (row : list bool) (freed : N) : M CapTable E N :=
  match row with
  | [] => mret freed
  | b :: row =>
      if b then
        _ ← free_slot (N.of_nat i);
        freed ← unwrap (checked_add U32 freed 1);
        free_row (S i) row freed
      else free_row (S i) row freed
  end.

Fixpoint free_marked {E} (ts : tables) (marked : list (list bool)) (freed : N)
    : outcome E N * tables :=
  match ts, marked with
  | Some t :: ts, row :: marked =>
      match free_row 0 row freed t with
      | (Ok freed, t') => let '(r, ts') := free_marked ts marked freed in (r, Some t' :: ts')
      | (Err e, t') => (Err e, Some t' :: ts)
      | (Panic, t') => (Panic, Some t' :: ts)
      end
  | None :: ts, _ :: marked =>
      let '(r, ts') := free_marked ts marked freed in (r, None :: ts')
  | _, _ => (Ok freed, ts)
  end.

Definition free_all {E} (marked : list (list bool)) : M tables E N :=
  λ ts, free_marked ts marked 0.

Definition revoke_cross_space (n : nat) (target : GlobalCapId) : M tables CapTableError N :=
  ts ← gets (λ ts, ts);
  t ← ok_or (tget ts (g_space target)) EmptySlot;
  _ ← ok_or (lookup t (g_cap target)) EmptySlot;
  free_all (mark n ts target).

(** ** The derivation forest *)

(** The occupied slots of all spaces. *)
Definition node (ts : tables) (g : GlobalCapId) : option (Capability * option GlobalCapId) :=
  t ← tget ts (g_space g); entry t (g_cap g).

(** [descends ts g a]: [a] is a strict ancestor of [g]. *)
Inductive descends (ts : tables) : GlobalCapId → GlobalCapId → Prop :=
| descends_parent g c p : node ts g = Some (c, Some p) → descends ts g p
| descends_step g c p a : node ts g = Some (c, Some p) → descends ts p a → descends ts g a.

(** [rooted ts g k]: [k] parent links lead from [g] to a root. *)
Inductive rooted (ts : tables) : GlobalCapId → nat → Prop :=
| rooted_root g c : node ts g = Some (c, None) → rooted ts g 0
| rooted_child g c p k : node ts g = Some (c, Some p) → rooted ts p k → rooted ts g (S k).

Definition doomed (ts : tables) (target g : GlobalCapId) : Prop :=
  g = target ∨ descends ts g target.

Record table_ok (n : nat) (i : nat) (t : CapTable) : Prop := {
  tok_wf : wf t;
  tok_length : length (slots t) = n;
  tok_space : space_id t = N.of_nat i;
}.

Section derived.
Context {BF : Bitflags}.

(** What a child has of its parent (invariant 4, and write-once badges). *)
Record derived_from (parent child : Capability) : Prop := {
  df_rights : is_subset_of (cap_rights child) (cap_rights parent) = true;
  df_object : cap_object child = cap_object parent;
  df_badge : cap_badge parent = 0%N ∨ cap_badge child = cap_badge parent;
}.

Record forest (n : nat) (ts : tables) : Prop := {
  fo_table i t : ts !! i = Some (Some t) → table_ok n i t;
  fo_parent g c p : node ts g = Some (c, Some p) →
    ∃ cp pp, node ts p = Some (cp, pp) ∧ derived_from cp c;
  fo_rooted g e : node ts g = Some e → ∃ k, rooted ts g k;
  fo_size : (N.of_nat (length ts * n) < U32)%N;
}.
End derived.

(** ** The walk is the derivation order *)

Lemma rooted_unique ts g k k' : rooted ts g k → rooted ts g k' → k = k'.
Proof.
  intros H. revert k'. induction H as [g c Hg|g c p k Hg Hp IH]; intros k'.
  - inversion 1; naive_solver.
  - inversion 1; simplify_eq. f_equal. by apply IH.
Qed.

Lemma rooted_node ts g k : rooted ts g k → is_Some (node ts g).
Proof. destruct 1; eauto. Qed.

(** The nodes on the way to the root, all different. *)
Lemma rooted_path ts g k :
  rooted ts g k →
  ∃ l, length l = S k ∧ NoDup l ∧ ∀ x, x ∈ l → ∃ j, j ≤ k ∧ rooted ts x j.
Proof.
  induction 1 as [g c Hg|g c p k Hg Hp (l & Hl & Hnd & Hall)].
  - exists [g]. split; [done|]. split; [apply NoDup_singleton|].
    intros x ->%list_elem_of_singleton. exists 0. split; [done|]. by econstructor.
  - exists (g :: l). simpl. split; [by f_equal|]. split.
    + constructor; [|done]. intros (j & Hj & Hr)%Hall.
      pose proof (rooted_unique _ _ _ _ Hr (rooted_child _ _ _ _ _ Hg Hp)). lia.
    + intros x [->|(j & ? & ?)%Hall]%elem_of_cons; [|eauto with lia].
      exists (S k). split; [done|]. by econstructor.
Qed.

Lemma node_Some ts g e :
  node ts g = Some e →
  ∃ t, ts !! N.to_nat (g_space g) = Some (Some t) ∧ entry t (g_cap g) = Some e.
Proof.
  unfold node. destruct (tget ts (g_space g)) as [t|] eqn:Ht; simpl; [|done].
  intros He. exists t. by rewrite tget_Some in Ht.
Qed.

Lemma node_of ts i t id :
  ts !! i = Some (Some t) → node ts (mkGlobalCapId (N.of_nat i) id) = entry t id.
Proof. intros H. unfold node. simpl. by erewrite tget_of_nat. Qed.

(** Every slot of every space. *)
Definition all_ids (m n : nat) : list GlobalCapId :=
  si ← seq 0 m; i ← seq 0 n; [mkGlobalCapId (N.of_nat si) (N.of_nat i)].

Lemma all_ids_length m n : length (all_ids m n) = m * n.
Proof.
  unfold all_ids. assert (∀ k si, length (i ← seq k n; [mkGlobalCapId (N.of_nat si) (N.of_nat i)]) = n)
    as H. { intros k. revert k. induction n; intros; simpl; auto. }
  assert (∀ k, length (si ← seq k m; i ← seq 0 n; [mkGlobalCapId (N.of_nat si) (N.of_nat i)]) = m * n)
    as Hk; [|apply Hk].
  induction m as [|m IH]; intros k; [done|]. simpl.
  rewrite length_app. rewrite IH. f_equal. apply H.
Qed.

Lemma elem_of_all_ids m n g :
  N.to_nat (g_space g) < m → N.to_nat (g_cap g) < n → g ∈ all_ids m n.
Proof.
  intros Hs Hc. unfold all_ids. apply list_elem_of_bind.
  exists (N.to_nat (g_space g)). rewrite elem_of_seq. split; [|lia].
  apply list_elem_of_bind. exists (N.to_nat (g_cap g)). rewrite elem_of_seq.
  split; [|lia]. rewrite !N2Nat.id. destruct g. by apply list_elem_of_singleton.
Qed.

Section walk.
Context {BF : Bitflags}.

Lemma node_in_all n ts g e :
  forest n ts → node ts g = Some e → g ∈ all_ids (length ts) n.
Proof.
  intros Hf Hg. destruct (node_Some _ _ _ Hg) as (t & Ht & He).
  apply elem_of_all_ids; [by eapply lookup_lt_Some|].
  apply entry_lt in He. rewrite (tok_length _ _ _ (fo_table _ _ Hf _ _ Ht)) in He. lia.
Qed.

(** The depth of the tree is bounded by the number of slots. *)
Lemma rooted_bound n ts g k : forest n ts → rooted ts g k → k < length ts * n.
Proof.
  intros Hf (l & Hl & Hnd & Hall)%rooted_path.
  assert (length l ≤ length (all_ids (length ts) n)) as H.
  { apply submseteq_length, NoDup_submseteq; [done|].
    intros x (j & _ & [e He]%rooted_node)%Hall. by eapply node_in_all. }
  rewrite all_ids_length in H. lia.
Qed.

Lemma parent_at_node n ts g :
  forest n ts → parent_at ts g = e ← node ts g; snd e.
Proof.
  intros Hf. unfold parent_at, node. destruct (tget ts (g_space g)) as [t|] eqn:Ht; simpl; [|done].
  apply tget_Some in Ht. destruct (entry t (g_cap g)) as [[c p]|] eqn:He; simpl.
  - by eapply entry_parent.
  - eapply entry_None_parent; [|done]. by destruct (fo_table _ _ Hf _ _ Ht).
Qed.

Lemma is_descendant_loop_spec n ts g k fuel a :
  forest n ts → rooted ts g k → k < fuel →
  is_descendant_loop fuel ts g a = true ↔ descends ts g a.
Proof.
  intros Hf Hr. revert fuel.
  induction Hr as [g c Hg|g c p k Hg Hp IH]; intros [|fuel] Hlt; try lia; simpl;
    rewrite (parent_at_node _ _ _ Hf), Hg; simpl.
  - split; [done|]. inversion 1; naive_solver.
  - case_decide as Hpa.
    + subst. split; [|done]. intros _. by eapply descends_parent.
    + rewrite IH by lia. split.
      * by eapply descends_step.
      * inversion 1; by simplify_eq.
Qed.

Lemma is_marked_spec n ts target g e :
  forest n ts → node ts g = Some e →
  is_marked n ts target g = true ↔ doomed ts target g.
Proof.
  intros Hf Hg. destruct (fo_rooted _ _ Hf _ _ Hg) as [k Hk].
  unfold is_marked, doomed, is_descendant_of.
  rewrite orb_true_iff, bool_decide_eq_true.
  rewrite is_descendant_loop_spec; [done..|].
  pose proof (rooted_bound _ _ _ _ Hf Hk). lia.
Qed.
End walk.

(** ** Revocation *)

(** Occupied slots over all spaces. *)
Fixpoint total_len (ts : tables) : N :=
  match ts with
  | [] => 0
  | None :: ts => total_len ts
  | Some t :: ts => (len t + total_len ts)%N
  end.

#[local] Instance row_marked_dec i (row : list bool) id :
  Decision (∃ j, row !! j = Some true ∧ id = N.of_nat (i + j)).
Proof.
  destruct (decide (N.of_nat i ≤ id)%N) as [Hle|Hn].
  - destruct (decide (row !! (N.to_nat id - i) = Some true)) as [H|H].
    + left. exists (N.to_nat id - i). split; [done|lia].
    + right. intros (j & Hj & ->). apply H. by replace (N.to_nat (N.of_nat (i + j)) - i) with j by lia.
  - right. intros (j & _ & ->). lia.
Defined.

(** What freeing the marked slots of one table does: the marked slots [i],
    [i + 1], ... become free. *)
Record row_freed (i : nat) (row : list bool) (freed freed' : N) (t t' : CapTable) : Prop := {
  rf_wf : wf t';
  rf_length : length (slots t') = length (slots t);
  rf_space : space_id t' = space_id t;
  rf_entry id : entry t' id =
    if decide (∃ j, row !! j = Some true ∧ id = N.of_nat (i + j)) then None else entry t id;
  rf_count : (len t' + freed' = len t + freed)%N;
  rf_same : (∀ j, row !! j ≠ Some true) → t' = t;
  rf_mono : (freed ≤ freed')%N;
  rf_pos j : row !! j = Some true → (freed < freed')%N;
}.

Lemma free_row_spec {E} i row freed t :
  wf t →
  (∀ j, row !! j = Some true → is_Some (entry t (N.of_nat (i + j)))) →
  (freed + N.of_nat (length row) < U32)%N →
  ∃ freed' t', free_row (E := E) i row freed t = (Ok freed', t') ∧
    row_freed i row freed freed' t t' ∧ (freed' ≤ freed + N.of_nat (length row))%N.
Proof.
  revert i freed t. induction row as [|b row IH]; intros i freed t Hwf Hocc Hb; simpl.
  { exists freed, t. split; [done|]. split; [|lia]. split; try done.
    intros id. rewrite decide_False; [done|]. by intros (j & ? & _). }
  simpl in Hb. destruct b.
  - destruct (Hocc 0 eq_refl) as [e He]. rewrite Nat.add_0_r in He.
    destruct (free_slot_spec (E := E) _ _ _ Hwf He) as (t1 & Hfs & [Hwf1 He1 Hl1 Hs1 Hn1]).
    unfold mbind, M_bind. rewrite Hfs. simpl. unfold checked_add.
    rewrite (proj2 (N.ltb_lt _ _)) by lia. simpl.
    destruct (IH (S i) (freed + 1)%N t1) as (f' & t' & -> & [Hw Hl Hs He' Hc _ Hmono _] & Hle);
      [done| |lia|].
    { intros j Hj. rewrite He1, decide_False by lia.
      replace (S i + j) with (i + S j) by lia. by apply Hocc. }
    exists f', t'. split; [done|]. split; [|lia].
    split; try congruence; [|lia|intros Hno; by destruct (Hno 0)|lia|lia].
    intros id. rewrite He', He1.
    destruct (decide (N.of_nat i = id)) as [<-|Hne].
    { rewrite (decide_True (P := ∃ j, (true :: row) !! j = _ ∧ _)) by (by exists 0; rewrite Nat.add_0_r).
      by case_decide. }
    case_decide as Hd; case_decide as Hd0; try done; exfalso.
    + destruct Hd as (j & Hj & ->). apply Hd0. exists (S j). split; [done|lia].
    + destruct Hd0 as ([|j] & Hj & ->); simpl in *; [lia|].
      apply Hd. exists j. split; [done|lia].
  - destruct (IH (S i) freed t) as (f' & t' & -> & [Hw Hl Hs He' Hc Hsm Hmono Hpos] & Hle); [done| |lia|].
    { intros j Hj. replace (S i + j) with (i + S j) by lia. by apply Hocc. }
    exists f', t'. split; [done|]. split; [|lia].
    split; try done;
      [|intros Hno; apply Hsm; intros j; apply (Hno (S j))|intros [|j] Hj; [done|by eapply Hpos]].
    intros id. rewrite He'. case_decide as Hd; case_decide as Hd0; try done; exfalso.
    + destruct Hd as (j & Hj & ->). apply Hd0. exists (S j). split; [done|lia].
    + destruct Hd0 as ([|j] & Hj & ->); simpl in *; [done|].
      apply Hd. exists j. split; [done|lia].
Qed.

Lemma free_marked_spec {E} n ts marked freed :
  length marked = length ts →
  (∀ i t row, ts !! i = Some (Some t) → marked !! i = Some row →
    wf t ∧ length row = n ∧ ∀ j, row !! j = Some true → is_Some (entry t (N.of_nat j))) →
  (freed + N.of_nat (length ts * n) < U32)%N →
  ∃ freed' ts', free_marked (E := E) ts marked freed = (Ok freed', ts') ∧
    length ts' = length ts ∧ (total_len ts' + freed' = total_len ts + freed)%N ∧
    (freed ≤ freed')%N ∧
    (∀ i, ts !! i = Some None → ts' !! i = Some None) ∧
    (∀ i t row, ts !! i = Some (Some t) → marked !! i = Some row →
      ∃ f f' t', ts' !! i = Some (Some t') ∧ row_freed 0 row f f' t t' ∧
        (freed ≤ f ∧ f' ≤ freed')%N).
Proof.
  revert marked freed. induction ts as [|o ts IH]; intros [|row marked] freed; simpl; try done.
  { intros. exists freed, []. split_and!; intros; done. }
  intros [= Hlen] Hok Hb.
  destruct o as [t|].
  - destruct (Hok 0 t row eq_refl eq_refl) as (Hwf & Hrow & Hocc).
    destruct (free_row_spec (E := E) 0 row freed t) as (f1 & t1 & -> & Hrf & Hle); [done|done|lia|].
    destruct (IH marked f1 Hlen) as (f' & ts' & -> & Hl & Htot & Hm & Hnone & Hsome);
      [intros i; apply (Hok (S i))|lia|].
    pose proof (rf_count _ _ _ _ _ _ Hrf). pose proof (rf_mono _ _ _ _ _ _ Hrf).
    exists f', (Some t1 :: ts'). simpl. split; [done|]. split; [lia|]. split; [lia|].
    split; [lia|]. split; [intros [|i]; [done|apply Hnone]|].
    intros [|i] u r; simpl.
    + intros [= <-] [= <-]. exists freed, f1, t1. split_and!; [done..|lia|lia].
    + intros Hu Hr. destruct (Hsome _ _ _ Hu Hr) as (f & f2 & t' & ? & ? & ? & ?).
      exists f, f2, t'. split_and!; [done..|lia|lia].
  - destruct (IH marked freed Hlen) as (f' & ts' & -> & Hl & Htot & Hm & Hnone & Hsome);
      [intros i; apply (Hok (S i))|lia|].
    exists f', (None :: ts'). simpl. split; [done|]. split; [lia|]. split; [done|].
    split; [done|]. split; [intros [|i]; [done|apply Hnone]|]. intros [|i] u r; [done|apply Hsome].
Qed.

Lemma mark_lookup n ts target i t :
  ts !! i = Some (Some t) →
  ∃ row, mark n ts target !! i = Some row ∧ length row = n ∧
    ∀ j, row !! j = Some true ↔
      j < n ∧ is_Some (lookup t (N.of_nat j)) ∧
      is_marked n ts target (mkGlobalCapId (N.of_nat i) (N.of_nat j)) = true.
Proof.
  intros Hi. unfold mark. rewrite list_lookup_imap, Hi. simpl. eexists; split; [done|].
  split; [by rewrite length_fmap, length_seq|].
  intros j. rewrite list_lookup_fmap. destruct (decide (j < n)) as [Hj|Hj].
  - rewrite lookup_seq_lt by done. simpl.
    destruct (lookup t (N.of_nat j)); [|split; [done|by intros (_ & [? ?] & _)]].
    split; [intros [= ->]; eauto|by intros (_ & _ & ->)].
  - rewrite lookup_seq_ge by lia. simpl. split; [done|lia].
Qed.

Section revoke.
Context {BF : Bitflags}.

(** A node survives together with its parent, so what is left of a forest
    after removing a subtree is a forest. *)
Lemma forest_prune n ts ts' target :
  forest n ts → length ts' = length ts →
  (∀ i t', ts' !! i = Some (Some t') → table_ok n i t') →
  (∀ g, node ts' g = node ts g ∧ ¬ doomed ts target g ∨ node ts' g = None ∧
        (is_Some (node ts g) → doomed ts target g)) →
  forest n ts'.
Proof.
  intros Hf Hlen Hok Hnode. split; [done| | |by rewrite Hlen; destruct Hf].
  - intros g c p Hg. destruct (Hnode g) as [[Heq Hnd]|[Heq _]]; [|congruence].
    rewrite Heq in Hg. destruct (fo_parent _ _ Hf _ _ _ Hg) as (cp & pp & Hp & Hd).
    destruct (Hnode p) as [[Hp' _]|[_ Hdoom]]; [rewrite Hp'; eauto|].
    destruct Hnd. right. destruct Hdoom as [->|Hdesc]; [eauto|by eapply descends_parent|].
    by eapply descends_step.
  - intros g e Hg. destruct (Hnode g) as [[Heq Hnd]|[Heq _]]; [|congruence].
    rewrite Heq in Hg. destruct (fo_rooted _ _ Hf _ _ Hg) as [k Hk].
    exists k. clear e Hg Heq. induction Hk as [g c Hg|g c p k Hg Hp IH].
    + destruct (Hnode g) as [[Heq _]|[_ Hdoom]]; [|by destruct Hnd; eauto].
      eapply rooted_root. by rewrite Heq.
    + destruct (Hnode g) as [[Heq _]|[_ Hdoom]]; [|by destruct Hnd; eauto].
      eapply rooted_child; [by rewrite Heq|]. apply IH.
      intros [->|Hdesc]; apply Hnd; right; [by eapply descends_parent|by eapply descends_step].
Qed.

Lemma revoke_empty n target ts :
  node ts target = None → revoke_cross_space n target ts = (Err EmptySlot, ts).
Proof.
  unfold node, revoke_cross_space, mbind, M_bind. simpl.
  destruct (tget ts (g_space target)) as [t|]; simpl; [|done].
  rewrite entry_lookup. by intros ->.
Qed.

(** The marked slots are the occupied ones in the subtree. *)
Lemma mark_row n ts target :
  forest n ts → ∀ i t j row,
  ts !! i = Some (Some t) → mark n ts target !! i = Some row →
  row !! j = Some true ↔ is_Some (entry t (N.of_nat j)) ∧
    doomed ts target (mkGlobalCapId (N.of_nat i) (N.of_nat j)).
Proof.
  intros Hf i t j row Ht Hrow. destruct (mark_lookup n ts target _ _ Ht) as (row' & Hr & _ & Hj).
  assert (row' = row) as -> by congruence. rewrite Hj, entry_lookup, fmap_is_Some. split.
  - intros (_ & [e' He'] & Hm). split; [eauto|].
    rewrite (is_marked_spec _ _ _ _ e') in Hm; [done|done|by rewrite (node_of _ _ _ _ Ht)].
  - intros [[e' He'] Hd]. split_and!; [|eauto|].
    + apply entry_lt in He'. rewrite (tok_length _ _ _ (fo_table _ _ Hf _ _ Ht)) in He'. lia.
    + rewrite (is_marked_spec _ _ _ _ e'); [done|done|by rewrite (node_of _ _ _ _ Ht)].
Qed.

Lemma revoke_nodes n ts target e :
  forest n ts → node ts target = Some e →
  ∃ freed ts', revoke_cross_space n target ts = (Ok freed, ts') ∧
    length ts' = length ts ∧ (total_len ts' + freed = total_len ts)%N ∧ (1 ≤ freed)%N ∧
    (∀ i t', ts' !! i = Some (Some t') → table_ok n i t') ∧
    (∀ i, ts !! i = Some None → ts' !! i = Some None) ∧
    (∀ i t, ts !! i = Some (Some t) → ∃ t', ts' !! i = Some (Some t') ∧
      (∀ id, entry t' id = entry t id ∧ ¬ doomed ts target (mkGlobalCapId (N.of_nat i) id) ∨
             entry t' id = None ∧
             (is_Some (entry t id) → doomed ts target (mkGlobalCapId (N.of_nat i) id))) ∧
      ((∀ id, ¬ doomed ts target (mkGlobalCapId (N.of_nat i) id)) → t' = t)).
Proof.
  intros Hf He. destruct (node_Some _ _ _ He) as (tt & Htt & Het).
  unfold revoke_cross_space, free_all, mbind, M_bind. simpl.
  rewrite (proj2 (tget_Some _ _ _) Htt). simpl. rewrite entry_lookup, Het. simpl.
  pose proof (mark_row n ts target Hf) as Hmark.
  destruct (free_marked_spec (E := CapTableError) n ts (mark n ts target) 0)
    as (freed & ts' & -> & Hlen & Htot & _ & Hnone & Hsome).
  { unfold mark. apply length_imap. }
  { intros i t row Ht Hrow. destruct (mark_lookup n ts target _ _ Ht) as (row' & Hr & Hl & _).
    assert (row' = row) as -> by congruence. split_and!; [apply (fo_table _ _ Hf _ _ Ht)|done|].
    intros j Hj. by apply (Hmark _ _ _ _ Ht Hrow) in Hj as [? _]. }
  { pose proof (fo_size _ _ Hf). lia. }
  exists freed, ts'. split; [done|]. split; [done|]. split; [lia|].
  split; [|split; [|split; [done|]]].
  - destruct (mark_lookup n ts target _ _ Htt) as (row & Hrow & _).
    destruct (Hsome _ _ _ Htt Hrow) as (f & f' & t' & _ & Hrf & ? & ?).
    enough (f < f')%N by lia. apply (rf_pos _ _ _ _ _ _ Hrf (N.to_nat (g_cap target))).
    rewrite (Hmark _ _ _ _ Htt Hrow), !N2Nat.id. split; [eauto|].
    left. by destruct target.
  - intros i t' Ht'. destruct (lookup_lt_is_Some_2 ts i) as [[t|] Ht];
      [by rewrite <- Hlen; eapply lookup_lt_Some| |by rewrite (Hnone _ Ht) in Ht'].
    destruct (mark_lookup n ts target _ _ Ht) as (row & Hrow & _).
    destruct (Hsome _ _ _ Ht Hrow) as (f & f' & t1 & Ht1 & Hrf & _). simplify_eq.
    destruct (fo_table _ _ Hf _ _ Ht) as [_ ? ?].
    destruct Hrf as [? ? ? _ _ _ _ _]. split; congruence.
  - intros i t Ht. destruct (mark_lookup n ts target _ _ Ht) as (row & Hrow & _).
    destruct (Hsome _ _ _ Ht Hrow) as (f & f' & t' & Ht' & Hrf & _). exists t'. split; [done|].
    split.
    + intros id. rewrite (rf_entry _ _ _ _ _ _ Hrf). case_decide as Hd.
      * right. split; [done|]. intros _. destruct Hd as (j & Hj & ->).
        by apply (Hmark _ _ _ _ Ht Hrow) in Hj as [_ ?].
      * destruct (entry t id) as [e'|] eqn:Heid; [left|right; split; [done|by intros [? ?]]].
        split; [done|]. intros Hdoom. apply Hd. exists (N.to_nat id).
        split; [|lia]. apply (Hmark _ _ _ _ Ht Hrow). rewrite N2Nat.id. eauto.
    + intros Hno. apply (rf_same _ _ _ _ _ _ Hrf). intros j Hj.
      apply (Hmark _ _ _ _ Ht Hrow) in Hj as [_ Hd]. by apply (Hno (N.of_nat j)).
Qed.
End revoke.

Section forest.
Context {BF : Bitflags}.

(** Revocation removes exactly the subtree of [target], and leaves a
    forest. *)
Lemma revoke_spec n ts target e :
  forest n ts → node ts target = Some e →
  ∃ freed ts', revoke_cross_space n target ts = (Ok freed, ts') ∧
    length ts' = length ts ∧ forest n ts' ∧
    (∀ g, node ts' g = node ts g ∧ ¬ doomed ts target g ∨ node ts' g = None ∧
        (is_Some (node ts g) → doomed ts target g)) ∧
    (∀ i, tget ts i = None ↔ tget ts' i = None) ∧
    (total_len ts' + freed = total_len ts)%N ∧ (1 ≤ freed)%N ∧
    (∀ i, (∀ id, ¬ doomed ts target (mkGlobalCapId (N.of_nat i) id)) → ts' !! i = ts !! i).
Proof.
  intros Hf He.
  destruct (revoke_nodes _ _ _ _ Hf He) as
    (freed & ts' & Hr & Hlen & Htot & Hpos & Hok & Hnone & Hsome).
  exists freed, ts'.
  assert (Hnode : ∀ g, node ts' g = node ts g ∧ ¬ doomed ts target g ∨ node ts' g = None ∧
        (is_Some (node ts g) → doomed ts target g)).
  { intros [sp id]. destruct (tget ts sp) as [t|] eqn:Ht.
    - apply tget_Some in Ht. destruct (Hsome _ _ Ht) as (t' & Ht' & Hent & _).
      rewrite <- (N2Nat.id sp), (node_of _ _ _ _ Ht), (node_of _ _ _ _ Ht'). apply Hent.
    - right. unfold node; simpl. rewrite Ht. split; [|by intros [? ?]].
      destruct (tget ts' sp) as [t'|] eqn:Ht'; [|done]. exfalso. apply tget_Some in Ht'.
      destruct (lookup_lt_is_Some_2 ts (N.to_nat sp)) as [[t|] Hsp].
      { rewrite <- Hlen. by eapply lookup_lt_Some. }
      + by rewrite (proj2 (tget_Some _ _ _) Hsp) in Ht.
      + by rewrite (Hnone _ Hsp) in Ht'. }
  split_and!; try done.
  - by eapply forest_prune.
  - intros i. unfold tget. rewrite !getN_lookup.
    destruct (ts !! N.to_nat i) as [[t|]|] eqn:Ht.
    + by destruct (Hsome _ _ Ht) as (t' & -> & _).
    + by rewrite (Hnone _ Ht).
    + rewrite (lookup_ge_None_2 ts'); [done|]. rewrite Hlen. by apply lookup_ge_None.
  - intros i Hno. destruct (ts !! i) as [[t|]|] eqn:Ht.
    + destruct (Hsome _ _ Ht) as (t' & -> & _ & ->); done.
    + by rewrite (Hnone _ Ht).
    + apply lookup_ge_None. rewrite Hlen. by apply lookup_ge_None.
Qed.

(** ** Growing the forest *)

Lemma node_update ts i t t' g :
  ts !! i = Some (Some t) →
  node (<[i := Some t']> ts) g =
    if decide (g_space g = N.of_nat i) then entry t' (g_cap g) else node ts g.
Proof.
  intros Hi. unfold node. rewrite tget_insert_nat by by eapply lookup_lt_Some.
  repeat case_decide; try done; lia.
Qed.

Lemma node_inserted ts i t id cap parent t' g :
  ts !! i = Some (Some t) → inserted t id cap parent t' →
  node (<[i := Some t']> ts) g =
    if decide (g = mkGlobalCapId (N.of_nat i) id) then Some (cap, parent) else node ts g.
Proof.
  intros Hi Hins. rewrite (node_update _ _ _ _ _ Hi), (ins_entry _ _ _ _ _ Hins).
  destruct g as [sp c]; simpl. repeat case_decide; simplify_eq;
    try done; by rewrite (node_of _ _ _ _ Hi).
Qed.

(** Filling a fresh slot with a root, or with a child of an occupied slot. *)
Lemma forest_insert n ts i t id cap parent t' :
  forest n ts → ts !! i = Some (Some t) → inserted t id cap parent t' →
  (∀ p, parent = Some p → ∃ cp pp, node ts p = Some (cp, pp) ∧ derived_from cp cap) →
  forest n (<[i := Some t']> ts).
Proof.
  intros Hf Hi Hins Hpar.
  assert (Hfresh : node ts (mkGlobalCapId (N.of_nat i) id) = None).
  { rewrite (node_of _ _ _ _ Hi). apply (ins_fresh _ _ _ _ _ Hins). }
  assert (Hsub : ∀ g e, node ts g = Some e → node (<[i := Some t']> ts) g = Some e).
  { intros g e Hg. rewrite (node_inserted _ _ _ _ _ _ _ _ Hi Hins).
    case_decide; [congruence|done]. }
  assert (Hroot : ∀ g k, rooted ts g k → rooted (<[i := Some t']> ts) g k).
  { intros g k Hk. induction Hk; [eapply rooted_root|eapply rooted_child]; eauto. }
  split.
  - intros j u Hj. destruct (decide (j = i)) as [->|Hne].
    + rewrite list_lookup_insert_eq in Hj by by eapply lookup_lt_Some. simplify_eq.
      destruct (fo_table _ _ Hf _ _ Hi), Hins. split; congruence.
    + rewrite list_lookup_insert_ne in Hj by done. by apply (fo_table _ _ Hf).
  - intros g c p. rewrite (node_inserted _ _ _ _ _ _ _ _ Hi Hins). intros Hg.
    assert (∃ cp pp, node ts p = Some (cp, pp) ∧ derived_from cp c) as (cp & pp & Hp & Hd).
    { case_decide; [simplify_eq; eauto|]. by eapply fo_parent. }
    eauto.
  - intros g e. rewrite (node_inserted _ _ _ _ _ _ _ _ Hi Hins). intros Hg.
    case_decide as Hd.
    + simplify_eq. destruct parent as [p|].
      * destruct (Hpar p eq_refl) as (cp & pp & Hp & _).
        destruct (fo_rooted _ _ Hf _ _ Hp) as [k Hk]. exists (S k).
        eapply rooted_child; [|by apply Hroot].
        rewrite (node_inserted _ _ _ _ _ _ _ _ Hi Hins). by rewrite decide_True.
      * exists 0. eapply rooted_root.
        rewrite (node_inserted _ _ _ _ _ _ _ _ Hi Hins). by rewrite decide_True.
    + destruct (fo_rooted _ _ Hf _ _ Hg) as [k Hk]. exists k. by apply Hroot.
  - rewrite length_insert. apply Hf.
Qed.

(** A fresh, empty space. *)
Lemma node_new_space n ts i sp g :
  ts !! i = Some None → node (<[i := Some (new n sp)]> ts) g = node ts g.
Proof.
  intros Hi. unfold node. rewrite tget_insert_nat by by eapply lookup_lt_Some.
  case_decide as Hd; [|done]. subst. simpl. rewrite new_entry.
  unfold tget. by rewrite <- Hd, getN_lookup, Nat2N.id, Hi.
Qed.

Lemma forest_new_space n ts i :
  forest n ts → ts !! i = Some None →
  forest n (<[i := Some (new n (N.of_nat i))]> ts).
Proof.
  intros Hf Hi. pose proof (lookup_lt_Some _ _ _ Hi).
  pose proof (λ sp g, node_new_space n ts i sp g Hi) as Hn.
  split.
  - intros j u Hj. destruct (decide (j = i)) as [->|Hne].
    + rewrite list_lookup_insert_eq in Hj by done. simplify_eq.
      split; [|apply new_slots_length|done]. apply new_wf.
      pose proof (fo_size _ _ Hf). assert (n ≤ length ts * n) by nia. lia.
    + rewrite list_lookup_insert_ne in Hj by done. by apply (fo_table _ _ Hf).
  - intros g c p. setoid_rewrite Hn. apply (fo_parent _ _ Hf).
  - intros g e. rewrite Hn. intros [k Hk]%(fo_rooted _ _ Hf). exists k.
    induction Hk; [eapply rooted_root|eapply rooted_child]; rewrite ?Hn; eauto.
  - rewrite length_insert. apply Hf.
Qed.

Lemma forest_empty n m : (N.of_nat (m * n) < U32)%N → forest n (replicate m None).
Proof.
  intros Hb. assert (∀ g, node (replicate m None) g = None) as Hn.
  { intros g. unfold node, tget. rewrite getN_lookup.
    destruct (replicate m None !! _) as [o|] eqn:E; [|done].
    by apply lookup_replicate in E as [-> _]. }
  split; try (intros *; rewrite Hn; done).
  - intros i t Hi. by apply lookup_replicate in Hi as [? _].
  - by rewrite length_replicate.
Qed.
End forest.

(** ** Derivation *)

Section derivation.
Context {BF : Bitflags}.

(** The capability a successful derivation creates. *)
Definition derived_cap (pc : Capability) (rights : CapabilityRights) (eff : N) : Capability :=
  {| cap_object := cap_object pc; cap_rights := rights; cap_badge := eff |}.

(** The outcome of a derivation from [parent], looked up as [o], into the
    table [t], on every branch. *)
Definition derive_post (o : option Capability) (pg : GlobalCapId) (rights : CapabilityRights)
    (badge : N) (t : CapTable) (r : outcome CapTableError CapId) (t' : CapTable) : Prop :=
  match r with
  | Ok child => ∃ pc eff, o = Some pc ∧
      is_subset_of rights (cap_rights pc) = true ∧ effective_badge pc badge = Some eff ∧
      inserted t child (derived_cap pc rights eff) (Some pg) t'
  | Err EmptySlot => o = None ∧ t' = t
  | Err RightsEscalation => t' = t ∧ ∃ pc, o = Some pc ∧ is_subset_of rights (cap_rights pc) = false
  | Err BadgeConflict => t' = t ∧ ∃ pc, o = Some pc ∧ effective_badge pc badge = None
  | Err Full => t' = t ∧ is_full t = true
  | Panic => False
  end.

Lemma insert_derived_spec t pc pg rights badge :
  wf t → wp (insert_derived pc pg rights badge) (derive_post (Some pc) pg rights badge t) t.
Proof.
  intros Hwf. unfold wp. rewrite insert_derived_fill by done.
  destruct (is_subset_of rights (cap_rights pc)) eqn:Hs; simpl; [|eauto].
  destruct (effective_badge pc badge) as [eff|] eqn:He; simpl; [|eauto].
  change (fill _ _ t) with (fill (derived_cap pc rights eff) (Some pg) t).
  destruct (fill_spec t (derived_cap pc rights eff) (Some pg) Hwf)
    as [[-> Hfull]|(id & t' & -> & _ & Hins)]; simpl; [done|]. exists pc, eff. done.
Qed.

Lemma derive_cross_spec src sp parent rights badge t :
  wf t → wp (derive_child_cross_space src sp parent rights badge)
            (derive_post (lookup src parent) (mkGlobalCapId sp parent) rights badge t) t.
Proof.
  intros Hwf. apply wp_bind. apply wp_ok_or; intros.
  - rewrite H. by apply insert_derived_spec.
  - simpl. by rewrite H.
Qed.

Lemma derive_child_spec parent rights badge t :
  wf t → wp (derive_child parent rights badge)
            (derive_post (lookup t parent) (mkGlobalCapId (space_id t) parent) rights badge t) t.
Proof.
  intros Hwf. apply wp_bind, wp_gets. by apply (derive_cross_spec t).
Qed.

Lemma effective_badge_spec pc badge eff :
  effective_badge pc badge = Some eff → cap_badge pc = 0%N ∨ eff = cap_badge pc.
Proof.
  unfold effective_badge. destruct (N.eqb_spec (cap_badge pc) 0); simpl; [auto|].
  case_match; naive_solver.
Qed.

Lemma derived_from_cap pc rights badge eff :
  is_subset_of rights (cap_rights pc) = true → effective_badge pc badge = Some eff →
  derived_from pc (derived_cap pc rights eff).
Proof. intros ? ?%effective_badge_spec. by split. Qed.

(** Whatever the outcome of a derivation, the spaces stay a forest. *)
Lemma forest_derive n ts i j src t t' parent rights badge r :
  forest n ts → ts !! i = Some (Some src) → ts !! j = Some (Some t) →
  derive_post (lookup src parent) (mkGlobalCapId (N.of_nat i) parent) rights badge t r t' →
  forest n (<[j := Some t']> ts).
Proof.
  intros Hf Hi Hj Hpost.
  assert (forest n (<[j := Some t]> ts)) as Hid by by rewrite list_insert_id.
  destruct r as [child|e|]; [|destruct e; naive_solver|done].
  destruct Hpost as (pc & eff & Hpc & Hs & He & Hins).
  eapply forest_insert; [done..|]. intros p [= <-].
  rewrite entry_lookup in Hpc. destruct (entry src parent) as [[c pp]|] eqn:E; simplify_eq/=.
  exists pc, pp. rewrite (node_of _ _ _ _ Hi). split; [done|]. by eapply derived_from_cap.
Qed.

Lemma forest_insert_root n ts i t cap :
  forest n ts → ts !! i = Some (Some t) →
  wp (insert_root cap) (λ r t', r ≠ Panic ∧ forest n (<[i := Some t']> ts)) t.
Proof.
  intros Hf Hi. pose proof (tok_wf _ _ _ (fo_table _ _ Hf _ _ Hi)) as Hwf.
  unfold wp. rewrite insert_root_fill by done.
  destruct (fill_spec t cap None Hwf) as [[-> _]|(id & t' & -> & _ & Hins)]; simpl.
  - split; [done|]. by rewrite list_insert_id.
  - split; [done|]. by eapply forest_insert.
Qed.
End derivation.

(** ** The operations as a transition system *)

Inductive cdt_step {BF : Bitflags} (n : nat) (ts : tables) : tables → Prop :=
| step_new_space i :
    position is_none ts = Some i → cdt_step n ts (<[i := Some (new n (N.of_nat i))]> ts)
| step_insert_root i t cap :
    ts !! i = Some (Some t) → cdt_step n ts (<[i := Some (insert_root cap t).2]> ts)
| step_derive i t parent rights badge :
    ts !! i = Some (Some t) →
    cdt_step n ts (<[i := Some (derive_child parent rights badge t).2]> ts)
| step_derive_cross i j src dst parent rights badge :
    ts !! i = Some (Some src) → ts !! j = Some (Some dst) →
    cdt_step n ts (<[j := Some
      (derive_child_cross_space src (N.of_nat i) parent rights badge dst).2]> ts)
| step_revoke target :
    cdt_step n ts (revoke_cross_space n target ts).2.

(** ** Properties *)

Section properties.
Context {BF : Bitflags}.

(** C5 Revoking an occupied capability in a well-formed derivation forest
    succeeds; it frees the capability and all its transitive derivatives in
    every space and nothing else, counts them, leaves a well-formed forest
    and does not touch a space that holds none of them. *)
Theorem revoke_removes_subtree n ts target e :
  forest n ts → node ts target = Some e →
  ∃ freed ts', revoke_cross_space n target ts = (Ok freed, ts') ∧
    forest n ts' ∧
    (∀ g, doomed ts target g → node ts' g = None) ∧
    (∀ g, ¬ doomed ts target g → node ts' g = node ts g) ∧
    (total_len ts' + freed = total_len ts)%N ∧ (1 ≤ freed)%N ∧
    (∀ i, (∀ id, ¬ doomed ts target (mkGlobalCapId (N.of_nat i) id)) → ts' !! i = ts !! i).
Proof.
  intros Hf He.
  destruct (revoke_spec _ _ _ _ Hf He) as (fr & ts' & ? & ? & ? & Hn & _ & ? & ? & ?).
  exists fr, ts'. split_and!; try done; intros g Hg; destruct (Hn g) as [[]|[-> Hd]]; try done.
  destruct (node ts g); [|done]. destruct Hg. eauto.
Qed.

(** The ancestry walk, bounded by the number of slots, answers exactly
    whether a capability is derived from the target. *)
Theorem is_descendant_of_decides n ts g e target :
  forest n ts → node ts g = Some e →
  is_descendant_of n ts g target = true ↔ descends ts g target.
Proof.
  intros Hf He. destruct (fo_rooted _ _ Hf _ _ He) as [k Hk].
  apply (is_descendant_loop_spec n _ _ k); [done..|].
  pose proof (rooted_bound _ _ _ _ Hf Hk). lia.
Qed.

(** A grant into another space: what it returns and does on every
    branch, and that the spaces stay a forest. *)
Theorem derive_child_cross_space_correct n ts i j src dst parent rights badge :
  forest n ts → ts !! i = Some (Some src) → ts !! j = Some (Some dst) →
  wp (derive_child_cross_space src (N.of_nat i) parent rights badge)
     (λ r dst', derive_post (lookup src parent) (mkGlobalCapId (N.of_nat i) parent)
                  rights badge dst r dst' ∧
                forest n (<[j := Some dst']> ts)) dst.
Proof.
  intros Hf Hi Hj. eapply wp_mono.
  - apply derive_cross_spec. apply (fo_table _ _ Hf _ _ Hj).
  - intros r t' Hpost. split; [done|]. by eapply (forest_derive _ _ _ _ _ _ _ _ _ _ _ Hf Hi Hj).
Qed.

(** C19 From empty tables, every sequence of operations keeps the spaces a
    forest: the free lists are exact, links point to occupied slots, rights
    shrink along links and there are no cycles. *)
Theorem reachable_forest n m ts :
  (N.of_nat (m * n) < U32)%N → rtc (cdt_step n) (replicate m None) ts → forest n ts.
Proof.
  intros Hb Hr. pose proof (forest_empty n m Hb) as Hf.
  induction Hr as [ts|ts1 ts2 ts3 Hst _ IH]; [done|]. apply IH. clear IH.
  destruct Hst as [i Hi|i t cap Hi|i t p r b Hi|i j src dst p r b Hi Hj|target].
  - apply forest_new_space; [done|]. by apply position_free.
  - by eapply forest_insert_root.
  - pose proof (fo_table _ _ Hf _ _ Hi) as [Hwf _ Hs].
    pose proof (derive_child_spec p r b t Hwf) as Hpost. rewrite Hs in Hpost.
    by eapply (forest_derive _ _ _ _ _ _ _ _ _ _ _ Hf Hi Hi).
  - pose proof (fo_table _ _ Hf _ _ Hj) as [Hwf _ _].
    eapply (forest_derive _ _ _ _ _ _ _ _ _ _ _ Hf Hi Hj). by apply derive_cross_spec.
  - destruct (node ts1 target) as [e|] eqn:He.
    + by destruct (revoke_spec _ _ _ _ Hf He) as (? & ? & -> & _ & ? & _).
    + by rewrite (revoke_empty _ _ _ He).
Qed.
End properties.

(** ** A sample forest

    Two spaces of two slots: a root capability in the first, a read-only
    child of it granted into the second. *)

Definition sample_cap : Capability :=
  full {| or_kind := EndpointK; or_id := 7 |}.

Definition sample_spaces : tables := [Some (new 2 0); Some (new 2 1)].

Definition sample_root : CapTable := (insert_root sample_cap (new 2 0)).2.

Definition sample_child : CapTable :=
  (derive_child_cross_space sample_root 0 0 READ 5 (new 2 1)).2.

Definition sample_forest : tables := [Some sample_root; Some sample_child].

Lemma sample_spaces_ok : forest 2 sample_spaces.
Proof.
  apply (forest_new_space 2 [Some (new 2 0); None] 1); [|done].
  apply (forest_new_space 2 [None; None] 0); [|done]. by apply (forest_empty 2 2).
Qed.

Lemma sample_granted_ok : forest 2 [Some sample_root; Some (new 2 1)].
Proof.
  destruct (forest_insert_root 2 sample_spaces 0 (new 2 0) sample_cap sample_spaces_ok eq_refl)
    as [_ H]. exact H.
Qed.

Lemma sample_forest_ok : forest 2 sample_forest.
Proof.
  apply (forest_derive 2 _ 0 1 sample_root (new 2 1) sample_child 0 READ 5
    (derive_child_cross_space sample_root 0 0 READ 5 (new 2 1)).1 sample_granted_ok eq_refl eq_refl).
  apply (derive_cross_spec sample_root 0 0 READ 5 (new 2 1)). by apply new_wf.
Qed.

Lemma sample_root_node : node sample_forest (mkGlobalCapId 0 0) = Some (sample_cap, None).
Proof. by vm_compute. Qed.

Lemma sample_child_node :
  node sample_forest (mkGlobalCapId 1 0) =
    Some ({| cap_object := cap_object sample_cap; cap_rights := READ; cap_badge := 5 |},
          Some (mkGlobalCapId 0 0)).
Proof. by vm_compute. Qed.

Lemma sample_descends : descends sample_forest (mkGlobalCapId 1 0) (mkGlobalCapId 0 0).
Proof. eapply descends_parent. apply sample_child_node. Qed.

Lemma revoke_removes_subtree_witness :
  ∃ freed ts', revoke_cross_space 2 (mkGlobalCapId 0 0) sample_forest = (Ok freed, ts') ∧
    node ts' (mkGlobalCapId 1 0) = None ∧ (1 ≤ freed)%N.
Proof.
  destruct (revoke_removes_subtree 2 sample_forest (mkGlobalCapId 0 0) _ sample_forest_ok
    sample_root_node) as (freed & ts' & Hr & _ & Hd & _ & _ & Hf & _).
  exists freed, ts'. split; [exact Hr|]. split; [|exact Hf]. apply Hd. right. apply sample_descends.
Defined.

Lemma is_descendant_of_decides_witness :
  is_descendant_of 2 sample_forest (mkGlobalCapId 1 0) (mkGlobalCapId 0 0) = true.
Proof.
  apply (is_descendant_of_decides 2 sample_forest _ _ (mkGlobalCapId 0 0) sample_forest_ok
    sample_child_node). apply sample_descends.
Defined.

Lemma derive_child_cross_space_correct_witness :
  wp (derive_child_cross_space sample_root 0 0 READ 5)
     (λ r dst', derive_post (lookup sample_root 0) (mkGlobalCapId 0 0) READ 5 (new 2 1) r dst' ∧
                forest 2 [Some sample_root; Some dst']) (new 2 1).
Proof.
  exact (derive_child_cross_space_correct 2 [Some sample_root; Some (new 2 1)] 0 1 sample_root
    (new 2 1) 0 READ 5 sample_granted_ok eq_refl eq_refl).
Defined.

Lemma reachable_forest_witness : forest 2 sample_spaces.
Proof.
  apply (reachable_forest 2 2); [done|].
  eapply rtc_l; [by apply (step_new_space 2 [None; None] 0)|].
  eapply rtc_l; [by apply (step_new_space 2 [Some (new 2 0); None] 1)|]. apply rtc_refl.
Defined.
