(* ===== verification/Untyped.v ===== *)
(** * Untyped memory

    [kernel/kernel-mm/src/object_type.rs] and [untyped.rs]: the bump
    allocator that carves typed objects out of a physical range.  Addresses
    are 64-bit ([usize] and [u64] coincide on the three targets). *)

From S2P Require Import Prelude Capability.

Definition PAGE_SIZE : N := 4096.

Inductive MmError :=
| OutOfMemory | BadAlignment | ZeroCount | Overflow | Unaligned | MappingOverlap
| WriteExecute | NotMapped | AddressSpaceFull | HardwareMapFailed.

#[export] Instance MmError_eq_dec : EqDecision MmError.
Proof. solve_decision. Defined.

(** ** Retype targets *)

Inductive KernelObjectType :=
| Untyped | PageTable | ThreadControlBlock | Endpoint | Notification
| CapabilitySpace | SharedRegion.

#[export] Instance KernelObjectType_eq_dec : EqDecision KernelObjectType.
Proof. solve_decision. Defined.

Definition as_object_kind (t : KernelObjectType) : KernelObjectKind :=
  match t with
  | Untyped => UntypedMemoryK
  | PageTable => PageTableK
  | ThreadControlBlock => ThreadControlBlockK
  | Endpoint => EndpointK
  | Notification => NotificationK
  | CapabilitySpace => CapabilitySpaceK
  | SharedRegion => SharedRegionK
  end.

Definition object_size_bytes (kind : KernelObjectType) : N :=
  match kind with
  | Untyped => PAGE_SIZE
  | PageTable => PAGE_SIZE
  | ThreadControlBlock => PAGE_SIZE
  | Endpoint => PAGE_SIZE
  | Notification => PAGE_SIZE
  | CapabilitySpace => PAGE_SIZE
  | SharedRegion => PAGE_SIZE
  end.

(** ** The allocator *)

Record UntypedMemory := mkUntyped {
  um_base : N;
  um_size : N;
  um_watermark : N;
}.

Record RetypeGrant := mkGrant {
  rg_kind : KernelObjectType;
  rg_count : N;
  rg_phys_base : N;
  rg_phys_len : N;
}.

Definition um_new (base size : N) : UntypedMemory := mkUntyped base size 0.

(** [size_bytes - watermark] *)
Definition remaining (u : UntypedMemory) : option N :=
  checked_sub (um_size u) (um_watermark u).

Definition alloc (align bytes : N) : M UntypedMemory MmError N :=
  if (align =? 0)%N || negb (is_power_of_two align) then throw BadAlignment else
  u ← gets (λ u, u);
  cur ← ok_or (checked_add U64 (um_base u) (um_watermark u)) Overflow;
  up ← ok_or (checked_add U64 cur (align - 1)) Overflow;
  let aligned := N.land up (u64_not (align - 1)) in
  fin ← ok_or (checked_add U64 aligned bytes) Overflow;
  region_end ← ok_or (checked_add U64 (um_base u) (um_size u)) Overflow;
  if (region_end <? fin)%N then throw OutOfMemory else
  w ← unwrap (checked_sub fin (um_base u));
  _ ← modify (λ u, mkUntyped (um_base u) (um_size u) w);
  mret aligned.

Definition retype (kind : KernelObjectType) (count : N) : M UntypedMemory MmError RetypeGrant :=
  if (count =? 0)%N then throw ZeroCount else
  total ← ok_or (checked_mul U64 (object_size_bytes kind) count) Overflow;
  phys_base ← alloc PAGE_SIZE total;
  mret (mkGrant kind count phys_base total).

Definition retype_untyped (count child_size : N) : M UntypedMemory MmError RetypeGrant :=
  if (count =? 0)%N then throw ZeroCount else
  up ← ok_or (checked_add U64 child_size (PAGE_SIZE - 1)) Overflow;
  let child := N.land up (u64_not (PAGE_SIZE - 1)) in
  if (child =? 0)%N then throw ZeroCount else
  total ← ok_or (checked_mul U64 child count) Overflow;
  phys_base ← alloc PAGE_SIZE total;
  mret (mkGrant Untyped count phys_base total).

(** ** Alignment *)

Lemma is_power_of_two_spec a : is_power_of_two a = true → ∃ k, a = (2 ^ k)%N.
Proof. unfold is_power_of_two. intros [_ ?%N.eqb_eq]%andb_prop. eauto. Qed.

(** Clearing the low [k] bits of a 64-bit word. *)
Lemma land_not_ones x k :
  (x < U64)%N → (k < 64)%N → N.land x (u64_not (2 ^ k - 1)) = (x / 2 ^ k * 2 ^ k)%N.
Proof.
  intros Hx Hk. unfold u64_not.
  rewrite <- N.ldiff_land_low.
  - replace (2 ^ k - 1)%N with (N.ones k) by (by rewrite N.ones_equiv, N.pred_sub).
    by rewrite N.ldiff_ones_r, N.shiftl_mul_pow2, N.shiftr_div_pow2.
  - destruct (decide (x = 0)%N) as [->|]; [done|]. apply N.log2_lt_pow2; [lia|].
    by change (2 ^ 64)%N with U64.
Qed.

(** Rounding up to a power of two. *)
Lemma align_up_spec cur a x :
  (a ≠ 0)%N → x = ((cur + (a - 1)) / a * a)%N →
  (cur ≤ x ∧ x < cur + a ∧ x mod a = 0)%N.
Proof.
  intros Ha ->. pose proof (N.div_mod (cur + (a - 1)) a Ha).
  pose proof (N.mod_lt (cur + (a - 1)) a Ha).
  rewrite N.Div0.mod_mul.
  generalize dependent ((cur + (a - 1)) / a)%N. generalize dependent ((cur + (a - 1)) mod a)%N.
  intros r Hr q Hq. rewrite (N.mul_comm q a). lia.
Qed.

(** ** The invariant and the allocation step *)

Record um_wf (u : UntypedMemory) : Prop := {
  umw_region : (um_base u + um_size u < U64)%N;
  umw_watermark : (um_watermark u ≤ um_size u)%N;
}.

Lemma um_new_wf base size : (base + size < U64)%N → um_wf (um_new base size).
Proof. intros. split; simpl; lia. Qed.

(** [bytes] at [p] were handed out: the range is aligned, inside the region,
    above everything handed out before, and below everything to come. *)
Record allocated (u : UntypedMemory) (align bytes p : N) (u' : UntypedMemory) : Prop := {
  al_wf : um_wf u';
  al_base : um_base u' = um_base u;
  al_size : um_size u' = um_size u;
  al_align : (p mod align = 0)%N;
  al_low : (um_base u + um_watermark u ≤ p)%N;
  al_tight : (p < um_base u + um_watermark u + align)%N;
  al_high : (p + bytes = um_base u' + um_watermark u')%N;
}.

Definition alloc_post (u : UntypedMemory) (align bytes : N)
    (r : outcome MmError N) (u' : UntypedMemory) : Prop :=
  match r with
  | Ok p => is_power_of_two align = true ∧ allocated u align bytes p u'
  | Err BadAlignment => is_power_of_two align = false ∧ u' = u
  | Err OutOfMemory => is_power_of_two align = true ∧ u' = u ∧
      (um_base u + um_size u <
        (um_base u + um_watermark u + (align - 1)) / align * align + bytes)%N
  | Err Overflow => u' = u ∧ (U64 ≤ um_base u + um_watermark u + (align - 1) + bytes)%N
  | _ => False
  end.

Lemma alloc_spec u align bytes :
  um_wf u → (align < U64)%N → wp (alloc align bytes) (alloc_post u align bytes) u.
Proof.
  intros [Hreg Hw] Hal64. unfold alloc.
  destruct (is_power_of_two align) eqn:Hp.
  2: { rewrite orb_true_r. by apply wp_throw. }
  pose proof Hp as [k ->]%is_power_of_two_spec.
  assert (2 ^ k ≠ 0)%N by (apply N.pow_nonzero; lia).
  rewrite (proj2 (N.eqb_neq _ _)) by done. simpl.
  assert (k < 64)%N as Hk.
  { apply (N.pow_lt_mono_r_iff 2); [lia|]. by change (2 ^ 64)%N with U64. }
  apply wp_bind, wp_gets, wp_bind.
  unfold checked_add. rewrite (proj2 (N.ltb_lt (um_base u + um_watermark u) _)) by lia.
  apply wp_ret, wp_bind, wp_ok_or; [|case_match eqn:E; [done|]; apply N.ltb_ge in E; intros _; split; [done|lia]].
  intros up Hup. case_match eqn:E; [|done]. apply N.ltb_lt in E. simplify_eq.
  rewrite land_not_ones by done.
  destruct (align_up_spec (um_base u + um_watermark u) (2 ^ k) _ ltac:(done) eq_refl)
    as (Hlo & Hhi & Hmod).
  set (p := ((um_base u + um_watermark u + (2 ^ k - 1)) / 2 ^ k * 2 ^ k)%N) in *.
  apply wp_bind, wp_ok_or; [|case_match eqn:E'; [done|]; apply N.ltb_ge in E'; intros _; split; [done|lia]].
  intros fin Hfin. case_match; [|done]. simplify_eq.
  apply wp_bind. rewrite (proj2 (N.ltb_lt (um_base u + um_size u) _)) by lia. apply wp_ret.
  destruct (N.ltb_spec (um_base u + um_size u) (p + bytes)); [by apply wp_throw; simpl; auto|].
  apply wp_bind. unfold checked_sub. rewrite (proj2 (N.leb_le _ _)) by lia.
  apply wp_ret, wp_bind, wp_modify, wp_ret. split; [done|].
  split; simpl; try done; [split; simpl; lia|lia].
Qed.

Lemma checked_mul_spec w a b p : checked_mul w a b = Some p → p = (a * b)%N ∧ (p < w)%N.
Proof. unfold checked_mul. case_match eqn:E; [|done]. apply N.ltb_lt in E. naive_solver. Qed.

Lemma object_size_page kind : object_size_bytes kind = PAGE_SIZE.
Proof. by destruct kind. Qed.

(** What [retype] promises. *)
Record retyped (u : UntypedMemory) (kind : KernelObjectType) (count : N)
    (g : RetypeGrant) (u' : UntypedMemory) : Prop := {
  rt_kind : rg_kind g = kind;
  rt_count : rg_count g = count;
  rt_len : rg_phys_len g = (object_size_bytes kind * count)%N;
  rt_alloc : allocated u PAGE_SIZE (rg_phys_len g) (rg_phys_base g) u';
}.

Lemma retype_spec u kind count :
  um_wf u →
  wp (retype kind count)
     (λ r u', match r with
              | Ok g => retyped u kind count g u' ∧ count ≠ 0%N
              | Err ZeroCount => count = 0%N ∧ u' = u
              | Err OutOfMemory | Err Overflow => u' = u
              | _ => False
              end) u.
Proof.
  intros Hwf. unfold retype. destruct (N.eqb_spec count 0); [by apply wp_throw|].
  apply wp_bind, wp_ok_or; [|done]. intros total [Ht _]%checked_mul_spec.
  apply wp_bind. eapply wp_mono; [by apply alloc_spec|].
  intros [p|[]|] u'; simpl; try naive_solver.
  intros [_ Ha]. apply wp_ret. split; [|done]. by split.
Qed.

(** ** Runs of the allocator *)

(** Two half-open ranges that do not meet. *)
Definition disjoint_ranges (a alen b blen : N) : Prop := (a + alen ≤ b ∨ b + blen ≤ a)%N.

(** A sequence of allocation requests [(align, bytes)], and what was granted:
    the requests that failed grant nothing. *)
Fixpoint alloc_run (reqs : list (N * N)) (u : UntypedMemory) : list (N * N) * UntypedMemory :=
  match reqs with
  | [] => ([], u)
  | (align, bytes) :: reqs =>
      match alloc align bytes u with
      | (Ok p, u') => let '(l, u2) := alloc_run reqs u' in ((p, bytes) :: l, u2)
      | (_, u') => alloc_run reqs u'
      end
  end.

Lemma alloc_run_spec reqs u :
  um_wf u → Forall (λ r, (r.1 < U64)%N) reqs →
  let '(l, u') := alloc_run reqs u in
  um_wf u' ∧ um_base u' = um_base u ∧ um_size u' = um_size u ∧
  (um_watermark u ≤ um_watermark u')%N ∧
  ∀ p n, (p, n) ∈ l →
    (um_base u + um_watermark u ≤ p ∧ p + n ≤ um_base u + um_watermark u')%N.
Proof.
  revert u. induction reqs as [|[align bytes] reqs IH]; intros u Hwf Hall; simpl.
  { split_and!; try done. by intros ?? ?%not_elem_of_nil. }
  apply Forall_cons in Hall as [Hal Hall]. simpl in Hal.
  pose proof (alloc_spec u align bytes Hwf Hal) as Hpost. unfold wp in Hpost.
  destruct (alloc align bytes u) as [[p|e|] u1]; simpl in Hpost; [| |done].
  - destruct Hpost as [_ [Hwf1 Hb1 Hs1 _ Hlo _ Hhi]]. specialize (IH u1 Hwf1 Hall).
    destruct (alloc_run reqs u1) as [l u2]. destruct IH as (? & ? & ? & ? & Hin).
    split_and!; try done; try congruence; try lia.
    intros q n [[= -> ->]|Hq]%elem_of_cons; [lia|]. specialize (Hin _ _ Hq). lia.
  - assert (u1 = u) as -> by (destruct e; naive_solver). by apply IH.
Qed.

(** ** Properties *)

(** [alloc] on every branch: a successful call returns an aligned range
    inside the region, at the first aligned address above the watermark, and
    moves the watermark to its end; a failing call changes nothing, reports
    [BadAlignment] exactly for an alignment that is not a power of two, and
    [OutOfMemory] only when the aligned request does not fit. *)
Theorem alloc_correct u align bytes :
  um_wf u → (align < U64)%N → wp (alloc align bytes) (alloc_post u align bytes) u.
Proof. apply alloc_spec. Qed.

(** [retype] and the space accounting its documentation states: on success
    the remaining space shrinks by the granted length plus the alignment gap
    (nothing is lost when the watermark is page aligned), and the granted range
    is page aligned and inside the region. *)
Theorem retype_accounting u kind count g u' :
  um_wf u → retype kind count u = (Ok g, u') →
  ∃ before after,
    remaining u = Some before ∧ remaining u' = Some after ∧
    (after + rg_phys_len g ≤ before)%N ∧ (before < after + rg_phys_len g + PAGE_SIZE)%N ∧
    (((um_base u + um_watermark u) mod PAGE_SIZE = 0)%N → (after + rg_phys_len g = before)%N) ∧
    (rg_phys_base g mod PAGE_SIZE = 0)%N ∧ (um_base u ≤ rg_phys_base g)%N ∧
    (rg_phys_base g + rg_phys_len g ≤ um_base u + um_size u)%N ∧
    rg_phys_len g = (PAGE_SIZE * count)%N.
Proof.
  intros Hwf Hr. pose proof (retype_spec u kind count Hwf) as Hpost.
  unfold wp in Hpost. rewrite Hr in Hpost. simpl in Hpost.
  destruct Hpost as [[_ _ Hlen [[Hreg' Hw'] Hb Hs Hmod Hlo Htight Hhi]] _].
  destruct Hwf as [Hreg Hw]. rewrite object_size_page in Hlen.
  exists (um_size u - um_watermark u)%N, (um_size u' - um_watermark u')%N.
  unfold remaining, checked_sub. rewrite !(proj2 (N.leb_le _ _)) by lia.
  split_and!; try done; try lia. intros Hpage.
  assert (rg_phys_base g = um_base u + um_watermark u)%N; [|lia].
  unfold PAGE_SIZE in *. apply N.Lcm0.mod_divide in Hmod as [q Hq], Hpage as [q' Hq']. lia.
Qed.

(** C21 No space is handed out twice: the ranges granted by any sequence of
    requests, failing ones included, are pairwise disjoint and inside the
    region. *)
Theorem alloc_run_disjoint reqs u :
  um_wf u → Forall (λ r, (r.1 < U64)%N) reqs →
  let l := (alloc_run reqs u).1 in
  (∀ p n, (p, n) ∈ l → (um_base u ≤ p ∧ p + n ≤ um_base u + um_size u)%N) ∧
  ∀ i j a b, i ≠ j → l !! i = Some a → l !! j = Some b →
    disjoint_ranges a.1 a.2 b.1 b.2.
Proof.
  intros Hwf Hall. split.
  { pose proof (alloc_run_spec reqs u Hwf Hall) as H. destruct (alloc_run reqs u) as [l u'].
    destruct H as ([_ ?] & Hb & Hs & _ & Hin). simpl. intros p n Hp. specialize (Hin _ _ Hp). lia. }
  revert u Hwf Hall. induction reqs as [|[align bytes] reqs IH]; intros u Hwf Hall; simpl; [done|].
  apply Forall_cons in Hall as [Hal Hall]. simpl in Hal.
  pose proof (alloc_spec u align bytes Hwf Hal) as Hpost. unfold wp in Hpost.
  destruct (alloc align bytes u) as [[p|e|] u1]; simpl in Hpost; [| |done].
  2: { assert (u1 = u) as -> by (destruct e; naive_solver). by apply IH. }
  destruct Hpost as [_ [Hwf1 _ _ _ _ _ Hhi]].
  specialize (IH u1 Hwf1 Hall). pose proof (alloc_run_spec reqs u1 Hwf1 Hall) as Hrun.
  destruct (alloc_run reqs u1) as [l u2]. simpl in *.
  destruct Hrun as (_ & _ & _ & _ & Hin).
  assert (∀ i q, l !! i = Some q → (p + bytes ≤ q.1)%N) as Hab.
  { intros i [q n] Hq%list_elem_of_lookup_2. simpl. specialize (Hin _ _ Hq). lia. }
  intros [|i] [|j] a b Hij Ha Hb; simpl in *; simplify_eq; unfold disjoint_ranges; simpl.
  - left. eauto.
  - right. eauto.
  - eapply IH; [|done..]. lia.
Qed.

(** One megabyte, and what two requests make of it. *)
Lemma alloc_correct_witness :
  let u := um_new 1048576 1048576 in
  um_wf u ∧ wp (alloc 4096 100) (alloc_post u 4096 100) u.
Proof.
  assert (um_wf (um_new 1048576 1048576)) as H by by apply um_new_wf.
  split; [exact H|]. by apply (alloc_correct _ 4096 100 H).
Defined.

Lemma retype_accounting_witness :
  let u := um_new 1048576 1048576 in
  let u' := mkUntyped 1048576 1048576 12288 in
  retype Endpoint 3 u = (Ok (mkGrant Endpoint 3 1048576 12288), u') ∧
  ∃ before after, remaining u = Some before ∧ remaining u' = Some after ∧
    (after + 12288 = before)%N.
Proof.
  set (u := um_new 1048576 1048576).
  assert (retype Endpoint 3 u = (Ok (mkGrant Endpoint 3 1048576 12288),
    mkUntyped 1048576 1048576 12288)) as H by by vm_compute.
  split; [exact H|].
  destruct (retype_accounting u Endpoint 3 _ _ (um_new_wf 1048576 1048576 ltac:(done)) H)
    as (before & after & Hb & Ha & _ & _ & Hexact & _).
  exists before, after. split; [exact Hb|]. split; [exact Ha|]. by apply Hexact.
Defined.

Lemma alloc_run_disjoint_witness :
  let u := um_new 4096 65536 in
  let l := (alloc_run [(8, 24); (3, 1); (4096, 100000); (4096, 4096)]%N u).1 in
  l = [(4096, 24); (8192, 4096)]%N ∧ disjoint_ranges 4096 24 8192 4096.
Proof.
  set (u := um_new 4096 65536). split; [by vm_compute|].
  destruct (alloc_run_disjoint [(8, 24); (3, 1); (4096, 100000); (4096, 4096)]%N u) as [_ H].
  { by apply um_new_wf. }
  { repeat constructor. }
  exact (H 0 1 (4096, 24)%N (8192, 4096)%N ltac:(done) ltac:(by vm_compute) ltac:(by vm_compute)).
Defined.
