(* ===== verification/AddressSpace.v ===== *)
(** * Address spaces

    [kernel/kernel-mm/src/address_space.rs]: the software model of one
    virtual address space, a fixed array of mappings.  Address arithmetic is
    unchecked in the source; an overflow is a panic (overflow checks are on in
    the kernel's [dev] profile), so [overlaps] and [translate] are partial. *)

From S2P Require Import Prelude Capability Untyped.

(** [hal-core]'s mapping permissions. *)
Record MapPermissions := mkPerms {
  readable : bool;
  writable : bool;
  executable : bool;
  device_uncached : bool;
}.

Record Mapping := mkMapping {
  mp_vaddr : N;
  mp_paddr : N;
  mp_len : N;
  mp_perms : MapPermissions;
}.

Record AddressSpace := mkAddressSpace {
  as_root_phys : N;
  as_mappings : list (option Mapping);
  as_count : N;
}.

Definition mapping_end (m : Mapping) : option N := checked_add U64 (mp_vaddr m) (mp_len m).

Definition overlaps (m : Mapping) (vaddr len : N) : option bool :=
  a1 ← mapping_end m;
  b1 ← checked_add U64 vaddr len;
  Some ((mp_vaddr m <? b1)%N && (vaddr <? a1)%N).

Definition as_new (m : nat) (root_phys : N) : AddressSpace :=
  mkAddressSpace root_phys (replicate m None) 0.

Definition set_root_phys {E} (root_phys : N) : M AddressSpace E unit :=
  modify (λ s, mkAddressSpace root_phys (as_mappings s) (as_count s)).

Definition as_len (s : AddressSpace) : N := as_count s.
Definition as_is_empty (s : AddressSpace) : bool := (as_count s =? 0)%N.

(** The scan of the live mappings for one that overlaps the request. *)
Fixpoint overlaps_any (l : list Mapping) (vaddr len : N) : option bool :=
  match l with
  | [] => Some false
  | m :: l => b ← overlaps m vaddr len; if b : bool then Some true else overlaps_any l vaddr len
  end.

Definition map (vaddr paddr len : N) (perms : MapPermissions) : M AddressSpace MmError unit :=
  if (len =? 0)%N || negb (vaddr mod PAGE_SIZE =? 0)%N || negb (paddr mod PAGE_SIZE =? 0)%N
     || negb (len mod PAGE_SIZE =? 0)%N
  then throw Unaligned else
  if writable perms && executable perms then throw WriteExecute else
  s ← gets (λ s, s);
  overlap ← unwrap (overlaps_any (flatten (as_mappings s)) vaddr len);
  if (overlap : bool) then throw MappingOverlap else
  slot ← ok_or (position is_none (as_mappings s)) AddressSpaceFull;
  n ← unwrap (checked_add U64 (as_count s) 1);
  modify (λ s, mkAddressSpace (as_root_phys s)
                 (<[slot := Some (mkMapping vaddr paddr len perms)]> (as_mappings s)) n).

Definition mapped_at (vaddr : N) (o : option Mapping) : bool :=
  match o with Some m => (mp_vaddr m =? vaddr)%N | None => false end.

Definition unmap (vaddr : N) : M AddressSpace MmError Mapping :=
  s ← gets (λ s, s);
  slot ← ok_or (position (mapped_at vaddr) (as_mappings s)) NotMapped;
  m ← unwrap (mjoin (as_mappings s !! slot));
  n ← unwrap (checked_sub (as_count s) 1);
  _ ← modify (λ s, mkAddressSpace (as_root_phys s) (<[slot := None]> (as_mappings s)) n);
  mret m.

(** [None]: an overflow; [Some None]: not mapped. *)
Fixpoint translate_in (l : list Mapping) (v : N) : option (option (N * MapPermissions)) :=
  match l with
  | [] => Some None
  | m :: l =>
      if (mp_vaddr m <=? v)%N then
        e ← mapping_end m;
        if (v <? e)%N then
          p ← checked_add U64 (mp_paddr m) (v - mp_vaddr m); Some (Some (p, mp_perms m))
        else translate_in l v
      else translate_in l v
  end.

Definition translate (s : AddressSpace) (v : N) : option (option (N * MapPermissions)) :=
  translate_in (flatten (as_mappings s)) v.

(** ** The invariant *)

Record mapping_ok (m : Mapping) : Prop := {
  mok_vaddr : (mp_vaddr m mod PAGE_SIZE = 0)%N;
  mok_paddr : (mp_paddr m mod PAGE_SIZE = 0)%N;
  mok_len : (mp_len m mod PAGE_SIZE = 0)%N;
  mok_nonempty : mp_len m ≠ 0%N;
  mok_wx : writable (mp_perms m) && executable (mp_perms m) = false;
  mok_end : (mp_vaddr m + mp_len m < U64)%N;
}.

Definition in_mapping (m : Mapping) (v : N) : Prop :=
  (mp_vaddr m ≤ v ∧ v < mp_vaddr m + mp_len m)%N.

Record as_wf (s : AddressSpace) : Prop := {
  aw_ok i m : as_mappings s !! i = Some (Some m) → mapping_ok m;
  aw_disjoint i j m m' :
    i ≠ j → as_mappings s !! i = Some (Some m) → as_mappings s !! j = Some (Some m') →
    disjoint_ranges (mp_vaddr m) (mp_len m) (mp_vaddr m') (mp_len m');
  aw_count : as_count s = N.of_nat (length (flatten (as_mappings s)));
  aw_bound : (N.of_nat (length (as_mappings s)) < U32)%N;
}.

Lemma as_new_wf m root : (N.of_nat m < U32)%N → as_wf (as_new m root).
Proof.
  intros Hb.
  assert (∀ i (x : Mapping), replicate m None !! i ≠ Some (Some x)) as Hno.
  { intros i x Hi. by apply lookup_replicate in Hi as [? _]. }
  split; simpl.
  - intros i x Hi. by apply Hno in Hi.
  - intros i j x y _ Hi. by apply Hno in Hi.
  - clear. by induction m.
  - by rewrite length_replicate.
Qed.

(** ** Counting the live mappings *)

Lemma flatten_length_fill {A} (l : list (option A)) i x :
  l !! i = Some None → length (flatten (<[i := Some x]> l)) = S (length (flatten l)).
Proof.
  revert i. induction l as [|[y|] l IH]; intros [|i]; simpl; intros Hi; simplify_eq; eauto.
Qed.

Lemma flatten_length_clear {A} (l : list (option A)) i x :
  l !! i = Some (Some x) → S (length (flatten (<[i := None]> l))) = length (flatten l).
Proof.
  revert i. induction l as [|[y|] l IH]; intros [|i]; simpl; intros Hi; simplify_eq; eauto.
Qed.

(** ** The scans *)

Lemma overlaps_spec m vaddr len :
  mapping_ok m → (vaddr + len < U64)%N → len ≠ 0%N →
  ∃ b, overlaps m vaddr len = Some b ∧
    (b = false ↔ disjoint_ranges (mp_vaddr m) (mp_len m) vaddr len).
Proof.
  intros [_ _ _ Hne _ Hend] Hb Hlen. unfold overlaps, mapping_end, checked_add.
  rewrite !(proj2 (N.ltb_lt _ U64)) by done. simpl. eexists; split; [done|].
  rewrite andb_false_iff, !N.ltb_ge. unfold disjoint_ranges. lia.
Qed.

Lemma overlaps_any_spec l vaddr len :
  (∀ m, m ∈ l → mapping_ok m) → (vaddr + len < U64)%N → len ≠ 0%N →
  ∃ b, overlaps_any l vaddr len = Some b ∧
    (b = false ↔ ∀ m, m ∈ l → disjoint_ranges (mp_vaddr m) (mp_len m) vaddr len).
Proof.
  intros Hok Hb Hlen. induction l as [|m l IH]; simpl.
  { exists false. split; [done|]. split; [|done]. by intros _ ? ?%not_elem_of_nil. }
  destruct (overlaps_spec m vaddr len) as (b & -> & Hdec); [by apply Hok; left|done..|]. simpl.
  destruct IH as (b' & -> & Hdec'); [by intros; apply Hok; right|].
  setoid_rewrite elem_of_cons. destruct b; [exists true|exists b'];
    (split; [done|]); naive_solver.
Qed.

Lemma live_ok s m : as_wf s → m ∈ flatten (as_mappings s) → mapping_ok m.
Proof. intros Hwf [i Hi]%flatten_lookup. by eapply aw_ok. Qed.

(** ** Mapping and unmapping *)

(** A request the checks at the head of [map] let through. *)
Definition map_request_ok (vaddr paddr len : N) (perms : MapPermissions) : Prop :=
  mapping_ok (mkMapping vaddr paddr len perms).

Lemma as_wf_map s slot m n :
  as_wf s → as_mappings s !! slot = Some None → mapping_ok m →
  (∀ m', m' ∈ flatten (as_mappings s) →
    disjoint_ranges (mp_vaddr m') (mp_len m') (mp_vaddr m) (mp_len m)) →
  n = (as_count s + 1)%N →
  as_wf (mkAddressSpace (as_root_phys s) (<[slot := Some m]> (as_mappings s)) n).
Proof.
  intros [Hok Hdis Hcnt Hb] Hslot Hm Hnew ->. pose proof (lookup_lt_Some _ _ _ Hslot) as Hlt.
  assert (∀ i m', i ≠ slot → <[slot := Some m]> (as_mappings s) !! i = Some (Some m') →
            as_mappings s !! i = Some (Some m')) as Hold.
  { intros i m' Hi. by rewrite list_lookup_insert_ne. }
  assert (∀ i m', as_mappings s !! i = Some (Some m') →
    disjoint_ranges (mp_vaddr m') (mp_len m') (mp_vaddr m) (mp_len m)) as Hnew'.
  { intros i m' Hi. apply Hnew, flatten_lookup. eauto. }
  split; simpl.
  - intros i m' Hi. destruct (decide (i = slot)) as [->|Hne]; [|eauto].
    rewrite list_lookup_insert_eq in Hi by done. by simplify_eq.
  - intros i j m1 m2 Hij Hi Hj.
    destruct (decide (i = slot)) as [->|Hi']; [|destruct (decide (j = slot)) as [->|Hj']].
    + rewrite list_lookup_insert_eq in Hi by done. simplify_eq.
      specialize (Hnew' j m2 (Hold _ _ (not_eq_sym Hij) Hj)). unfold disjoint_ranges in *. lia.
    + rewrite list_lookup_insert_eq in Hj by done. simplify_eq. eauto.
    + apply (Hdis i j); eauto.
  - rewrite flatten_length_fill by done. lia.
  - by rewrite length_insert.
Qed.

Lemma as_wf_unmap s slot m n :
  as_wf s → as_mappings s !! slot = Some (Some m) → (n + 1)%N = as_count s →
  as_wf (mkAddressSpace (as_root_phys s) (<[slot := None]> (as_mappings s)) n).
Proof.
  intros [Hok Hdis Hcnt Hb] Hslot Hn. pose proof (lookup_lt_Some _ _ _ Hslot) as Hlt.
  assert (∀ i m', <[slot := None]> (as_mappings s) !! i = Some (Some m') →
            as_mappings s !! i = Some (Some m')) as Hold.
  { intros i m' Hi. destruct (decide (i = slot)) as [->|Hne].
    - by rewrite list_lookup_insert_eq in Hi by done.
    - by rewrite list_lookup_insert_ne in Hi. }
  split; simpl; [eauto..| |by rewrite length_insert].
  pose proof (flatten_length_clear _ _ _ Hslot). lia.
Qed.

(** [map] on every branch, for a request that does not wrap around. *)
Definition map_post (s : AddressSpace) (vaddr paddr len : N) (perms : MapPermissions)
    (r : outcome MmError unit) (s' : AddressSpace) : Prop :=
  let m := mkMapping vaddr paddr len perms in
  match r with
  | Ok _ => mapping_ok m ∧ as_wf s' ∧ as_root_phys s' = as_root_phys s ∧
      (∀ m', m' ∈ flatten (as_mappings s) →
         disjoint_ranges (mp_vaddr m') (mp_len m') vaddr len) ∧
      ∃ slot, position is_none (as_mappings s) = Some slot ∧
              as_mappings s' = <[slot := Some m]> (as_mappings s)
  | Err Unaligned => s' = s ∧ (len = 0 ∨ vaddr mod PAGE_SIZE ≠ 0 ∨ paddr mod PAGE_SIZE ≠ 0 ∨
                               len mod PAGE_SIZE ≠ 0)%N
  | Err WriteExecute => s' = s ∧ writable perms = true ∧ executable perms = true
  | Err MappingOverlap => s' = s ∧ ∃ m', m' ∈ flatten (as_mappings s) ∧
      ¬ disjoint_ranges (mp_vaddr m') (mp_len m') vaddr len
  | Err AddressSpaceFull => s' = s ∧ ∀ o, o ∈ as_mappings s → o ≠ None
  | _ => False
  end.

Lemma map_spec s vaddr paddr len perms :
  as_wf s → (vaddr + len < U64)%N →
  wp (map vaddr paddr len perms) (map_post s vaddr paddr len perms) s.
Proof.
  intros Hwf Hb. unfold map.
  destruct (N.eqb_spec len 0); [apply wp_throw; simpl; auto|].
  destruct (N.eqb_spec (vaddr mod PAGE_SIZE) 0); [|apply wp_throw; simpl; auto].
  destruct (N.eqb_spec (paddr mod PAGE_SIZE) 0); [|apply wp_throw; simpl; auto].
  destruct (N.eqb_spec (len mod PAGE_SIZE) 0); [|apply wp_throw; simpl; auto]. simpl.
  destruct (writable perms && executable perms) eqn:Hwx.
  { apply andb_prop in Hwx. by apply wp_throw. }
  apply wp_bind, wp_gets, wp_bind.
  destruct (overlaps_any_spec (flatten (as_mappings s)) vaddr len) as (b & -> & Hdec);
    [by intros ? ?%live_ok|done..|]. apply wp_ret.
  destruct b.
  { apply wp_throw. split; [done|].
    assert (¬ ∀ m, m ∈ flatten (as_mappings s) →
              disjoint_ranges (mp_vaddr m) (mp_len m) vaddr len) as Hex by (by rewrite <- Hdec).
    clear -Hex. induction (flatten (as_mappings s)) as [|m l IH].
    { destruct Hex. by intros ? ?%not_elem_of_nil. }
    destruct (decide (mp_vaddr m + mp_len m ≤ vaddr ∨ vaddr + len ≤ mp_vaddr m)%N) as [Hd|Hd].
    - destruct IH as (m' & ? & ?); [|exists m'; by split; [right|]].
      intros Hall. apply Hex. intros x [->|]%elem_of_cons; auto.
    - exists m. by split; [left|]. }
  apply wp_bind, wp_ok_or.
  2: { intros Hnone. split; [done|]. intros o Ho ->.
       rewrite position_None in Hnone. by apply Hnone in Ho. }
  intros slot Hslot. destruct (position_free _ _ Hslot) as [Hs Hlt].
  apply wp_bind. unfold checked_add. rewrite (proj2 (N.ltb_lt _ _)).
  2: { pose proof (flatten_length_le (as_mappings s)).
       pose proof (aw_count _ Hwf). pose proof (aw_bound _ Hwf). lia. }
  apply wp_ret, wp_modify.
  assert (mapping_ok (mkMapping vaddr paddr len perms)) as Hok by done.
  split_and!; try done; [|naive_solver|eauto].
  apply as_wf_map; try done. naive_solver.
Qed.

Definition unmap_post (s : AddressSpace) (vaddr : N)
    (r : outcome MmError Mapping) (s' : AddressSpace) : Prop :=
  match r with
  | Ok m => mp_vaddr m = vaddr ∧ as_wf s' ∧ as_root_phys s' = as_root_phys s ∧
      ∃ slot, as_mappings s !! slot = Some (Some m) ∧
              as_mappings s' = <[slot := None]> (as_mappings s)
  | Err NotMapped => s' = s ∧ ∀ m, m ∈ flatten (as_mappings s) → mp_vaddr m ≠ vaddr
  | _ => False
  end.

Lemma unmap_spec s vaddr : as_wf s → wp (unmap vaddr) (unmap_post s vaddr) s.
Proof.
  intros Hwf. apply wp_bind, wp_gets, wp_bind, wp_ok_or.
  2: { intros Hnone. split; [done|]. intros m [i Hi]%flatten_lookup Hv.
       rewrite position_None in Hnone. apply list_elem_of_lookup_2, Hnone in Hi.
       simpl in Hi. by apply N.eqb_neq in Hi. }
  intros slot ([[m|] [Hs Hv]] & _)%position_Some; [|done]. simpl in Hv. apply N.eqb_eq in Hv.
  apply wp_bind. rewrite Hs. apply wp_ret, wp_bind.
  assert (0 < as_count s)%N as Hpos.
  { rewrite (aw_count _ Hwf). assert (m ∈ flatten (as_mappings s)) as Hin by (apply flatten_lookup; eauto).
    destruct (flatten (as_mappings s)); [by apply not_elem_of_nil in Hin|simpl; lia]. }
  unfold checked_sub. rewrite (proj2 (N.leb_le _ _)) by lia.
  apply wp_ret, wp_bind, wp_modify, wp_ret. split_and!; try done; [|eauto].
  eapply as_wf_unmap; [done..|]. lia.
Qed.

(** Mapping, and then failing in hardware and unmapping again: [unmap] finds
    the slot just filled and restores the space. *)
Lemma map_unmap s vaddr paddr len perms s' :
  as_wf s → (vaddr + len < U64)%N → map vaddr paddr len perms s = (Ok tt, s') →
  ∃ m, unmap vaddr s' = (Ok m, s).
Proof.
  intros Hwf Hb Hm. pose proof (map_spec s vaddr paddr len perms Hwf Hb) as Hpost.
  unfold wp in Hpost. rewrite Hm in Hpost. simpl in Hpost.
  destruct Hpost as (Hok & Hwf' & Hroot & Hdis & slot & Hpos & Hs').
  destruct (position_free _ _ Hpos) as [Hslot Hlt].
  pose proof (unmap_spec s' vaddr Hwf') as Hu. unfold wp in Hu.
  destruct (unmap vaddr s') as [[m|e|] s2]; simpl in Hu; [|exfalso|done].
  - exists m. do 2 f_equal. destruct Hu as (Hv & Hwf2 & Hroot2 & slot2 & Hslot2 & Hs2).
    assert (slot2 = slot) as ->.
    { destruct (decide (slot2 = slot)) as [|Hne]; [done|]. exfalso.
      rewrite Hs', list_lookup_insert_ne in Hslot2 by done.
      assert (m ∈ flatten (as_mappings s)) as Hin by (apply flatten_lookup; eauto).
      specialize (Hdis _ Hin). destruct (live_ok _ _ Hwf Hin), Hok.
      unfold disjoint_ranges in Hdis. simpl in *. lia. }
    assert (as_mappings s2 = as_mappings s) as Hms.
    { rewrite Hs2, Hs', list_insert_insert_eq. by apply list_insert_id. }
    pose proof (aw_count _ Hwf) as Hc. pose proof (aw_count _ Hwf2) as Hc2.
    destruct s as [r1 m1 c1], s2 as [r2 m2 c2]. simpl in *. subst. congruence.
  - destruct e; try done. destruct Hu as [_ Hno].
    apply (Hno (mkMapping vaddr paddr len perms)); [|done].
    apply flatten_lookup. exists slot. by rewrite Hs', list_lookup_insert_eq.
Qed.

(** ** Translation *)

Lemma in_mapping_unique s m m' v :
  as_wf s → m ∈ flatten (as_mappings s) → m' ∈ flatten (as_mappings s) →
  in_mapping m v → in_mapping m' v → m = m'.
Proof.
  intros Hwf [i Hi]%flatten_lookup [j Hj]%flatten_lookup Hv Hv'.
  destruct (decide (i = j)) as [->|Hne]; [congruence|].
  pose proof (aw_disjoint _ Hwf _ _ _ _ Hne Hi Hj) as Hd.
  unfold in_mapping, disjoint_ranges in *. lia.
Qed.

Lemma translate_hit s m v :
  as_wf s → m ∈ flatten (as_mappings s) → in_mapping m v →
  translate s v = p ← checked_add U64 (mp_paddr m) (v - mp_vaddr m); Some (Some (p, mp_perms m)).
Proof.
  intros Hwf Hm Hv. unfold translate.
  assert (∀ x, x ∈ flatten (as_mappings s) → mapping_ok x ∧ (in_mapping x v → x = m)) as Hall.
  { intros x Hx. split; [by eapply live_ok|]. intros Hxv. by eapply in_mapping_unique. }
  revert Hm Hall. generalize (flatten (as_mappings s)) as l.
  induction l as [|x l IH]; [by intros ?%not_elem_of_nil|]. intros Hm Hall. simpl.
  destruct (Hall x) as [[? ? ? ? ? Hend] Hxm]; [by left|].
  unfold mapping_end, checked_add. rewrite (proj2 (N.ltb_lt _ U64) Hend). simpl.
  destruct (N.leb_spec (mp_vaddr x) v); [destruct (N.ltb_spec v (mp_vaddr x + mp_len x))|].
  - by rewrite (Hxm ltac:(done)).
  - apply elem_of_cons in Hm as [->|Hm]; [unfold in_mapping in Hv; lia|].
    apply IH; [done|]. intros; apply Hall; by right.
  - apply elem_of_cons in Hm as [->|Hm]; [unfold in_mapping in Hv; lia|].
    apply IH; [done|]. intros; apply Hall; by right.
Qed.

Lemma translate_miss s v :
  as_wf s → (∀ m, m ∈ flatten (as_mappings s) → ¬ in_mapping m v) → translate s v = Some None.
Proof.
  intros Hwf Hno. unfold translate.
  assert (∀ x, x ∈ flatten (as_mappings s) → mapping_ok x) as Hall by (intros; by eapply live_ok).
  revert Hno Hall. generalize (flatten (as_mappings s)) as l.
  induction l as [|x l IH]; [done|]. intros Hno Hall. simpl.
  destruct (Hall x) as [? ? ? ? ? Hend]; [by left|].
  unfold mapping_end, checked_add. rewrite (proj2 (N.ltb_lt _ U64) Hend). simpl.
  assert (translate_in l v = Some None) as IH'.
  { apply IH; intros; [apply Hno|apply Hall]; by right. }
  destruct (N.leb_spec (mp_vaddr x) v); [|done].
  destruct (N.ltb_spec v (mp_vaddr x + mp_len x)); [|done].
  exfalso. by apply (Hno x); [left|].
Qed.

Lemma in_mapping_dec s v :
  (∃ m, m ∈ flatten (as_mappings s) ∧ in_mapping m v) ∨
  (∀ m, m ∈ flatten (as_mappings s) → ¬ in_mapping m v).
Proof.
  induction (flatten (as_mappings s)) as [|x l [(m & Hm & Hv)|IH]].
  - right. by intros ? ?%not_elem_of_nil.
  - left. exists m. split; [by right|done].
  - destruct (decide (mp_vaddr x ≤ v ∧ v < mp_vaddr x + mp_len x)%N).
    + left. exists x. by split; [left|].
    + right. intros m [->|Hm]%elem_of_cons; [done|by apply IH].
Qed.

(** Two well-formed spaces with the same mappings around [v] agree on it. *)
Lemma translate_agree s s' v :
  as_wf s → as_wf s' →
  (∀ m, in_mapping m v → m ∈ flatten (as_mappings s) ↔ m ∈ flatten (as_mappings s')) →
  translate s v = translate s' v.
Proof.
  intros Hwf Hwf' Hag. destruct (in_mapping_dec s v) as [(m & Hm & Hv)|Hno].
  - rewrite (translate_hit s m), (translate_hit s' m); try done. by apply Hag.
  - rewrite !translate_miss; try done. intros m Hm Hv. apply (Hno m); [|done]. by apply Hag.
Qed.

(** ** Properties *)

(** C22 [map] on every branch for a request whose end does not wrap: each
    error exactly under its documented condition and without effect, success
    only for an aligned, non-empty, W^X mapping disjoint from all others, and
    the space stays well-formed. *)
Theorem map_correct s vaddr paddr len perms :
  as_wf s → (vaddr + len < U64)%N →
  wp (map vaddr paddr len perms) (map_post s vaddr paddr len perms) s.
Proof. apply map_spec. Qed.

(** The documented postcondition of [map]: after success, every address of
    the new range translates to the matching physical address with the given
    permissions, every other address translates as before, and unmapping the
    base restores the space exactly. *)
Lemma map_then_translate s vaddr paddr len perms s' :
  as_wf s → (vaddr + len < U64)%N → (paddr + len ≤ U64)%N →
  map vaddr paddr len perms s = (Ok tt, s') →
  (∀ v, (vaddr ≤ v ∧ v < vaddr + len)%N →
     translate s v = Some None ∧
     translate s' v = Some (Some ((paddr + (v - vaddr))%N, perms))) ∧
  (∀ v, ¬ (vaddr ≤ v ∧ v < vaddr + len)%N → translate s' v = translate s v) ∧
  as_len s' = (as_len s + 1)%N ∧
  ∃ m, unmap vaddr s' = (Ok m, s).
Proof.
  intros Hwf Hb Hp Hm. pose proof (map_spec s vaddr paddr len perms Hwf Hb) as Hpost.
  unfold wp in Hpost. rewrite Hm in Hpost. simpl in Hpost.
  destruct Hpost as (Hok & Hwf' & Hroot & Hdis & slot & Hpos & Hs').
  destruct (position_free _ _ Hpos) as [Hslot Hlt].
  set (m := mkMapping vaddr paddr len perms) in *.
  assert (m ∈ flatten (as_mappings s')) as Hin.
  { apply flatten_lookup. exists slot. by rewrite Hs', list_lookup_insert_eq. }
  split_and!.
  - intros v Hv. split.
    + apply translate_miss; [done|]. intros x Hx Hxv. specialize (Hdis _ Hx).
      unfold disjoint_ranges, in_mapping in *. lia.
    + rewrite (translate_hit s' m) by done. simpl. unfold checked_add.
      by rewrite (proj2 (N.ltb_lt _ U64)) by lia.
  - intros v Hv. apply translate_agree; [done..|]. intros x Hx.
    rewrite !flatten_lookup, Hs'. split; intros [i Hi]; exists i.
    + destruct (decide (i = slot)) as [->|]; [|by rewrite list_lookup_insert_ne in Hi].
      rewrite list_lookup_insert_eq in Hi by done. simplify_eq. done.
    + rewrite list_lookup_insert_ne; [done|]. intros ->. congruence.
  - unfold as_len. rewrite (aw_count _ Hwf), (aw_count _ Hwf'), Hs'.
    rewrite flatten_length_fill by done. lia.
  - by eapply map_unmap.
Qed.

(** The bounds behaviour of the overlap test: mapping the last page of the
    address space panics as soon as the space holds one mapping, because
    [vaddr + len] is computed unchecked. *)
Theorem map_last_page_panics s m l paddr perms :
  flatten (as_mappings s) = m :: l → mapping_ok m → (paddr mod PAGE_SIZE = 0)%N →
  writable perms && executable perms = false →
  (map (U64 - PAGE_SIZE) paddr PAGE_SIZE perms s).1 = Panic.
Proof.
  intros Hl Hm Hp Hwx. unfold map. simpl.
  rewrite (proj2 (N.eqb_eq (paddr mod PAGE_SIZE) 0) Hp), Hwx. simpl.
  unfold mbind, M_bind. simpl. rewrite Hl. simpl.
  pose proof (mok_end _ Hm) as He. unfold overlaps, mapping_end, checked_add.
  rewrite (proj2 (N.ltb_lt _ U64) He). done.
Qed.

(** A space of four slots, and one page mapped read-write in it. *)
Definition rw_perms : MapPermissions := mkPerms true true false false.

Lemma map_correct_witness :
  as_wf (as_new 4 4096) ∧ (8192 + 4096 < U64)%N ∧
  wp (map 8192 65536 4096 rw_perms) (map_post (as_new 4 4096) 8192 65536 4096 rw_perms)
     (as_new 4 4096).
Proof.
  assert (as_wf (as_new 4 4096)) as H by by apply as_new_wf.
  split; [exact H|]. split; [done|]. by apply (map_correct _ 8192 65536 4096 rw_perms H).
Defined.

Lemma map_then_translate_witness :
  ∃ s', map 8192 65536 4096 rw_perms (as_new 4 4096) = (Ok tt, s') ∧
    translate s' 8200 = Some (Some (65544%N, rw_perms)) ∧ translate s' 12288 = Some None.
Proof.
  destruct (map 8192 65536 4096 rw_perms (as_new 4 4096)) as [r s'] eqn:E.
  assert (r = Ok tt) as -> by (revert E; vm_compute; by intros [= <- _]).
  exists s'. split; [done|].
  destruct (map_then_translate (as_new 4 4096) 8192 65536 4096 rw_perms s'
    (as_new_wf 4 4096 ltac:(done)) ltac:(done) ltac:(done) E) as (Hin & Hout & _).
  split.
  - exact (proj2 (Hin 8200%N ltac:(lia))).
  - rewrite (Hout 12288%N) by lia. by vm_compute.
Defined.

Lemma map_last_page_panics_witness :
  let s := (map 8192 65536 4096 rw_perms (as_new 4 4096)).2 in
  flatten (as_mappings s) = [mkMapping 8192 65536 4096 rw_perms] ∧
  (map (U64 - PAGE_SIZE) 4096 PAGE_SIZE rw_perms s).1 = Panic.
Proof.
  set (s := (map 8192 65536 4096 rw_perms (as_new 4 4096)).2).
  assert (flatten (as_mappings s) = [mkMapping 8192 65536 4096 rw_perms]) as H by by vm_compute.
  split; [exact H|].
  apply (map_last_page_panics s _ _ 4096 rw_perms H); [by split|done|done].
Defined.
