(* ===== verification/Ipc.v ===== *)
(** * Inter-process communication

    [kernel/kernel-ipc/src]: inline messages ([message.rs]), the rendezvous
    object ([endpoint.rs]), asynchronous signals ([notification.rs]), shared
    regions ([shared_region.rs]) and the fast-path predicate ([fastpath.rs]).
    The endpoint's fixed arrays are refined by two abstract FIFO queues. *)

From S2P Require Import Prelude Capability.

Inductive IpcError := IpcQueueFull | IpcWouldBlock | MessageTooLong | NoSuchObject.

#[export] Instance IpcError_eq_dec : EqDecision IpcError.
Proof. solve_decision. Defined.

(** ** Messages *)

Definition MSG_MAX_WORDS : nat := 6.

Record SmallMessage := mkMessage {
  msg_label : N;
  msg_words : list N;
  msg_len : N;
}.

#[export] Instance SmallMessage_eq_dec : EqDecision SmallMessage.
Proof. solve_decision. Defined.

Definition msg_new (label : N) : SmallMessage :=
  mkMessage label (replicate MSG_MAX_WORDS 0%N) 0.

Definition from_words (label : N) (data : list N) : IpcError + SmallMessage :=
  if MSG_MAX_WORDS <? length data then inl MessageTooLong
  else inr (mkMessage label (data ++ drop (length data) (replicate MSG_MAX_WORDS 0%N))
              (truncate U8 (N.of_nat (length data)))).

(** [&self.words[..self.len as usize]]; [None]: an index out of range. *)
Definition words (m : SmallMessage) : option (list N) :=
  if (N.of_nat (length (msg_words m)) <? msg_len m)%N then None
  else Some (take (N.to_nat (msg_len m)) (msg_words m)).

Definition msg_is_empty (m : SmallMessage) : bool := (msg_len m =? 0)%N.

Definition msg_push (word : N) : M SmallMessage IpcError unit :=
  m ← gets (λ m, m);
  let i := msg_len m in
  if (N.of_nat MSG_MAX_WORDS <=? i)%N then throw MessageTooLong else
  _ ← unwrap (getN (msg_words m) i);
  n ← unwrap (checked_add U8 (msg_len m) 1);
  modify (λ m, mkMessage (msg_label m) (<[N.to_nat i := word]> (msg_words m)) n).

(** The outer option: an index out of range of the array. *)
Definition msg_word (m : SmallMessage) (i : N) : option (option N) :=
  if (i <? msg_len m)%N then Some <$> getN (msg_words m) i else Some None.

(** ** Endpoints *)

Inductive EndpointError := QueueFull.

Inductive SendOutcome :=
| DeliveredTo (receiver : ThreadId)
| SenderQueued
| SendWouldBlock.

Inductive RecvOutcome :=
| Received (from : ThreadId) (msg : SmallMessage)
| ReceiverQueued
| RecvWouldBlock.

Record Waiter := mkWaiter { w_thread : ThreadId; w_msg : SmallMessage }.

#[export] Instance Waiter_eq_dec : EqDecision Waiter.
Proof. solve_decision. Defined.

Record Endpoint := mkEndpoint {
  senders : list (option Waiter);
  senders_len : N;
  receivers : list (option Waiter);
  receivers_len : N;
  pending_delivery : option (ThreadId * SmallMessage);
}.

Definition ep_new (q : nat) : Endpoint :=
  mkEndpoint (replicate q None) 0 (replicate q None) 0 None.

Definition is_idle (e : Endpoint) : bool :=
  (senders_len e =? 0)%N && (receivers_len e =? 0)%N && is_none (pending_delivery e).

Definition blocked_receiver (e : Endpoint) : option ThreadId :=
  if (0 <? receivers_len e)%N then w_thread <$> tget (receivers e) 0 else None.

Definition blocked_sender_count (e : Endpoint) : N := senders_len e.

(** The two [&mut] arguments of [push] and [pop_front]. *)
Definition Queue : Type := list (option Waiter) * N.

Definition push (w : Waiter) : M Queue EndpointError unit :=
  '(queue, len) ← gets (λ q, q);
  if (N.of_nat (length queue) <=? len)%N then throw QueueFull else
  n ← unwrap (checked_add U64 len 1);
  modify (λ _, (<[N.to_nat len := Some w]> queue, n)).

(** [queue[i - 1] = queue[i].take()] for [i] in [idx]; [None]: an index out
    of range. *)
Fixpoint shift_down (idx : list nat) (queue : list (option Waiter))
    : option (list (option Waiter)) :=
  match idx with
  | [] => Some queue
  | i :: idx =>
      w ← queue !! i;
      shift_down idx (<[i - 1 := w]> (<[i := None]> queue))
  end.

Definition pop_front {E} : M Queue E (option Waiter) :=
  '(queue, len) ← gets (λ q, q);
  if (len =? 0)%N then mret None else
  front ← unwrap (queue !! 0);
  queue ← unwrap (shift_down (seq 1 (N.to_nat len - 1)) (<[0 := None]> queue));
  _ ← modify (λ _, (queue, (len - 1)%N));
  mret front.

Definition on_senders {E A} : M Queue E A → M Endpoint E A :=
  zoom (λ e, (senders e, senders_len e))
       (λ '(q, n) e, mkEndpoint q n (receivers e) (receivers_len e) (pending_delivery e)).

Definition on_receivers {E A} : M Queue E A → M Endpoint E A :=
  zoom (λ e, (receivers e, receivers_len e))
       (λ '(q, n) e, mkEndpoint (senders e) (senders_len e) q n (pending_delivery e)).

Definition set_pending (d : option (ThreadId * SmallMessage)) (e : Endpoint) : Endpoint :=
  mkEndpoint (senders e) (senders_len e) (receivers e) (receivers_len e) d.

Definition try_send (sender : ThreadId) (msg : SmallMessage) (blocking : bool)
    : M Endpoint EndpointError SendOutcome :=
  recv ← on_receivers pop_front;
  match recv with
  | Some recv =>
      _ ← modify (set_pending (Some (w_thread recv, msg)));
      mret (DeliveredTo (w_thread recv))
  | None =>
      if negb blocking then mret SendWouldBlock else
      _ ← on_senders (push (mkWaiter sender msg));
      mret SenderQueued
  end.

Definition try_recv (receiver : ThreadId) (blocking : bool)
    : M Endpoint EndpointError RecvOutcome :=
  send ← on_senders pop_front;
  match send with
  | Some send => mret (Received (w_thread send) (w_msg send))
  | None =>
      if negb blocking then mret RecvWouldBlock else
      _ ← on_receivers (push (mkWaiter receiver (msg_new 0)));
      mret ReceiverQueued
  end.

Definition take_delivered {E} : M Endpoint E (option (ThreadId * SmallMessage)) :=
  d ← gets pending_delivery;
  _ ← modify (set_pending None);
  mret d.

(** ** The fast-path predicate *)

Inductive FastPathReject := NoBlockedReceiver | MessageTooLarge | UnsupportedMode.

Inductive FastPathDecision :=
| Take (receiver : ThreadId)
| Fallback (why : FastPathReject).

Definition fast_path_eligible (endpoint : Endpoint) (msg : SmallMessage) (blocking : bool)
    : FastPathDecision :=
  if negb blocking then Fallback UnsupportedMode else
  if (N.of_nat MSG_MAX_WORDS <? msg_len msg)%N then Fallback MessageTooLarge else
  match blocked_receiver endpoint with
  | Some receiver => Take receiver
  | None => Fallback NoBlockedReceiver
  end.

(** ** Notifications *)

Inductive NotificationError := NotificationQueueFull.

Record Woken := mkWoken { wk_threads : list ThreadId; wk_len : N }.

(** The live prefix of a wake-up set. *)
Definition as_slice (w : Woken) : list ThreadId := take (N.to_nat (wk_len w)) (wk_threads w).

Record Notification := mkNotification {
  signal_word : N;
  waiters : list ThreadId;
  waiters_len : N;
}.

Definition notif_new (w : nat) : Notification := mkNotification 0 (replicate w 0%N) 0.

(** [out.threads[..n].copy_from_slice(&self.waiters[..n])] *)
Definition copy_prefix (n : nat) (src dst : list ThreadId) : list ThreadId :=
  take n src ++ drop n dst.

Definition signal {E} (bits : N) : M Notification E Woken :=
  s ← gets (λ s, s);
  let s := mkNotification (N.lor (signal_word s) bits) (waiters s) (waiters_len s) in
  _ ← modify (λ _, s);
  if (N.of_nat (length (waiters s)) <? waiters_len s)%N then panic else
  let out := mkWoken
    (copy_prefix (N.to_nat (waiters_len s)) (waiters s) (replicate (length (waiters s)) 0%N))
    (waiters_len s) in
  _ ← modify (λ s, mkNotification (signal_word s) (waiters s) 0);
  mret out.

Definition poll {E} : M Notification E N :=
  bits ← gets signal_word;
  _ ← modify (λ s, mkNotification 0 (waiters s) (waiters_len s));
  mret bits.

Definition pending (s : Notification) : N := signal_word s.

Definition wait (thread : ThreadId) : M Notification NotificationError unit :=
  s ← gets (λ s, s);
  if (N.of_nat (length (waiters s)) <=? waiters_len s)%N then throw NotificationQueueFull else
  n ← unwrap (checked_add U64 (waiters_len s) 1);
  modify (λ s, mkNotification (signal_word s)
                 (<[N.to_nat (waiters_len s) := thread]> (waiters s)) n).

(** ** Shared regions *)

Record SharedRegion := mkRegion {
  sr_phys_base : N;
  sr_size : N;
  sr_max_rights : CapabilityRights;
}.

Definition contains (r : SharedRegion) (offset len : N) : bool :=
  match checked_add U64 offset len with
  | Some e => (e <=? sr_size r)%N
  | None => false
  end.

(** [None]: out of range; the outer option: an overflowing address. *)
Definition phys_at (r : SharedRegion) (offset : N) : option (option N) :=
  if (offset <? sr_size r)%N then Some <$> checked_add U64 (sr_phys_base r) offset
  else Some None.

(** ** Messages: invariant and lemmas *)

Record msg_wf (m : SmallMessage) : Prop := {
  mw_length : length (msg_words m) = MSG_MAX_WORDS;
  mw_len : (msg_len m ≤ N.of_nat MSG_MAX_WORDS)%N;
}.

Lemma msg_new_wf label : msg_wf (msg_new label).
Proof. split; simpl; [done|unfold MSG_MAX_WORDS; lia]. Qed.

Lemma words_take m : msg_wf m → words m = Some (take (N.to_nat (msg_len m)) (msg_words m)).
Proof. intros [H1 H2]. unfold words. by rewrite (proj2 (N.ltb_ge _ _)) by lia. Qed.

Lemma words_length m l : msg_wf m → words m = Some l → length l = N.to_nat (msg_len m).
Proof. intros Hm. rewrite words_take by done. intros [= <-]. destruct Hm. rewrite length_take. lia. Qed.

Lemma from_words_spec label data :
  length data ≤ MSG_MAX_WORDS →
  ∃ m, from_words label data = inr m ∧ msg_wf m ∧ msg_label m = label ∧ words m = Some data.
Proof.
  intros H. unfold from_words. rewrite (proj2 (Nat.ltb_ge _ _)) by done.
  eexists. split; [done|]. unfold truncate.
  rewrite N.mod_small by (unfold MSG_MAX_WORDS in H; lia).
  assert (msg_wf (mkMessage label (data ++ drop (length data) (replicate MSG_MAX_WORDS 0%N))
                    (N.of_nat (length data)))) as Hm.
  { split; simpl; [|lia]. rewrite length_app, length_drop. change (length _) with 6 at 2.
    unfold MSG_MAX_WORDS in *. lia. }
  split; [done|]. split; [done|]. rewrite words_take by done. simpl.
  by rewrite Nat2N.id, take_app_le, firstn_all by lia.
Qed.

Lemma msg_push_spec m w :
  msg_wf m → (msg_len m < N.of_nat MSG_MAX_WORDS)%N →
  ∃ m', msg_push w m = (Ok tt, m') ∧ msg_wf m' ∧ msg_label m' = msg_label m ∧
        words m' = (.++ [w]) <$> words m.
Proof.
  intros Hm Hlt. rewrite (words_take m) by done. destruct Hm as [H1 H2]. unfold msg_push, mbind, M_bind. simpl.
  rewrite (proj2 (N.leb_gt _ _)) by done. rewrite getN_lookup.
  destruct (msg_words m !! N.to_nat (msg_len m)) eqn:E.
  2: { apply lookup_ge_None in E. lia. }
  simpl. unfold checked_add. rewrite (proj2 (N.ltb_lt _ _)) by (unfold MSG_MAX_WORDS in *; lia).
  simpl. eexists. split; [done|].
  match goal with |- msg_wf ?m' ∧ _ => assert (msg_wf m') as Hm' end.
  { split; simpl; [by rewrite length_insert|unfold MSG_MAX_WORDS in *; lia]. }
  split; [done|]. split; [done|]. rewrite words_take by done. simpl. f_equal.
  - replace (N.to_nat (msg_len m + 1)) with (S (N.to_nat (msg_len m))) by lia.
    erewrite take_S_r; [|apply list_lookup_insert_eq; lia].
    rewrite take_insert_ge by lia. done.
Qed.

(** ** Queues *)

Lemma flatten_filled {A} (l : list A) k : flatten ((Some <$> l) ++ replicate k None) = l.
Proof. induction l as [|x l IH]; [by induction k|]. simpl. f_equal. exact IH. Qed.

(** The array and its length hold the waiters [l], from the front. *)
Record queue_rep (cap : nat) (q : Queue) (l : list Waiter) : Prop := {
  qr_array : q.1 = (Some <$> l) ++ replicate (cap - length l) None;
  qr_len : q.2 = N.of_nat (length l);
  qr_cap : length l ≤ cap;
}.

Lemma queue_rep_length cap q l : queue_rep cap q l → length q.1 = cap.
Proof.
  intros [-> _ ?]. rewrite length_app, length_fmap, length_replicate. lia.
Qed.

Lemma queue_rep_new cap : queue_rep cap (replicate cap None, 0%N) [].
Proof. split; simpl; [by rewrite Nat.sub_0_r|done|lia]. Qed.

Lemma push_full cap q l w :
  queue_rep cap q l → length l = cap → push w q = (Err QueueFull, q).
Proof.
  intros Hq Hl. pose proof (queue_rep_length _ _ _ Hq) as Hlen.
  destruct q as [a n], Hq as [_ Hn _]. simpl in *. unfold push, mbind, M_bind. simpl.
  rewrite (proj2 (N.leb_le _ _)) by lia. done.
Qed.

Lemma push_spec cap q l w :
  queue_rep cap q l → (N.of_nat cap < U64)%N → length l < cap →
  ∃ q', push w q = (Ok tt, q') ∧ queue_rep cap q' (l ++ [w]).
Proof.
  intros Hq Hc Hl. pose proof (queue_rep_length _ _ _ Hq) as Hlen.
  destruct q as [a n], Hq as [Ha Hn _]. simpl in *. unfold push, mbind, M_bind. simpl.
  rewrite (proj2 (N.leb_gt _ _)) by lia. simpl. unfold checked_add.
  rewrite (proj2 (N.ltb_lt _ _)) by lia. simpl. eexists. split; [done|].
  split; simpl.
  - rewrite Hn, Nat2N.id, Ha. rewrite <- (Nat.add_0_r (length l)) at 1.
    rewrite <- (length_fmap Some l), insert_app_r.
    replace (cap - length (Some <$> l)) with (S (cap - length (l ++ [w])))
      by (rewrite length_fmap, length_app; simpl; lia).
    simpl. rewrite fmap_app, <- app_assoc. done.
  - rewrite length_app. simpl. lia.
  - rewrite length_app. simpl. lia.
Qed.

Lemma shift_down_spec l : ∀ pre rest k,
  length pre = k →
  shift_down (seq (S k) (length l)) (pre ++ None :: (Some <$> l) ++ rest) =
    Some (pre ++ (Some <$> l) ++ None :: rest).
Proof.
  induction l as [|w l IH]; intros pre rest k Hk; simpl; [done|].
  rewrite lookup_app_r by lia. replace (S k - length pre) with 1 by lia. simpl.
  replace (S k) with (length pre + 1) at 2 by lia. rewrite insert_app_r. simpl.
  replace (k - 0) with (length pre + 0) by lia. rewrite insert_app_r. simpl.
  specialize (IH (pre ++ [Some w]) rest (S k)). rewrite <- !app_assoc in IH. simpl in IH.
  apply IH. rewrite length_app. simpl. lia.
Qed.

Lemma pop_front_nil {E} cap q : queue_rep cap q [] → pop_front (E := E) q = (Ok None, q).
Proof. destruct q as [a n]. by intros [_ Hn _]; simpl in *; subst. Qed.

Lemma pop_front_spec {E} cap q w l :
  queue_rep cap q (w :: l) →
  ∃ q', pop_front (E := E) q = (Ok (Some w), q') ∧ queue_rep cap q' l.
Proof.
  destruct q as [a n]. intros [Ha Hn Hc]; simpl in *. subst.
  unfold pop_front, mbind, M_bind. cbn -[N.of_nat seq N.eqb N.to_nat Nat.sub].
  rewrite (proj2 (N.eqb_neq _ _)) by lia. cbn -[N.of_nat seq N.to_nat Nat.sub].
  replace (N.to_nat (N.of_nat (S (length l))) - 1) with (length l) by lia.
  pose proof (shift_down_spec l [] (replicate (cap - S (length l)) None) 0 eq_refl) as Hs.
  simpl in Hs. change (list_fmap Waiter (option Waiter) Some l) with (Some <$> l).
  rewrite Hs. simpl. eexists. split; [done|].
  split; cbn -[N.of_nat]; [|lia|lia]. f_equal.
  replace (cap - length l) with (S (cap - S (length l))) by lia. done.
Qed.

(** ** The abstract endpoint

    What an endpoint promises: two first-in first-out queues of at most [cap]
    waiters, of which one is empty, and a slot for the last delivery. *)

Record Chan := mkChan {
  c_senders : list Waiter;
  c_receivers : list ThreadId;
  c_pending : option (ThreadId * SmallMessage);
}.

Definition chan_new : Chan := mkChan [] [] None.

Definition chan_send (cap : nat) (sender : ThreadId) (msg : SmallMessage) (blocking : bool)
    (c : Chan) : outcome EndpointError SendOutcome * Chan :=
  match c_receivers c with
  | r :: rs => (Ok (DeliveredTo r), mkChan (c_senders c) rs (Some (r, msg)))
  | [] =>
      if negb blocking then (Ok SendWouldBlock, c)
      else if length (c_senders c) <? cap
      then (Ok SenderQueued, mkChan (c_senders c ++ [mkWaiter sender msg]) [] (c_pending c))
      else (Err QueueFull, c)
  end.

Definition chan_recv (cap : nat) (receiver : ThreadId) (blocking : bool)
    (c : Chan) : outcome EndpointError RecvOutcome * Chan :=
  match c_senders c with
  | w :: ws => (Ok (Received (w_thread w) (w_msg w)), mkChan ws (c_receivers c) (c_pending c))
  | [] =>
      if negb blocking then (Ok RecvWouldBlock, c)
      else if length (c_receivers c) <? cap
      then (Ok ReceiverQueued, mkChan [] (c_receivers c ++ [receiver]) (c_pending c))
      else (Err QueueFull, c)
  end.

(** The representation: which abstract endpoint an endpoint stands for. *)
Record ep_rep (cap : nat) (e : Endpoint) (c : Chan) : Prop := {
  er_senders : queue_rep cap (senders e, senders_len e) (c_senders c);
  er_receivers : ∃ rs, queue_rep cap (receivers e, receivers_len e) rs ∧
                       c_receivers c = w_thread <$> rs;
  er_pending : pending_delivery e = c_pending c;
  er_one_side : c_senders c = [] ∨ c_receivers c = [];
}.

Definition ep_wf (cap : nat) (e : Endpoint) : Prop := ∃ c, ep_rep cap e c.

Lemma ep_new_rep cap : ep_rep cap (ep_new cap) chan_new.
Proof.
  split; simpl; [apply queue_rep_new| |done|by left].
  exists []. split; [apply queue_rep_new|done].
Qed.

Section endpoint.
Context (cap : nat) (Hcap : (N.of_nat cap < U64)%N).

Lemma try_send_spec sender msg blocking e c :
  ep_rep cap e c →
  ∃ e', try_send sender msg blocking e = ((chan_send cap sender msg blocking c).1, e') ∧
        ep_rep cap e' (chan_send cap sender msg blocking c).2.
Proof.
  intros [Hs (rs & Hr & Hrs) Hp Hone]. destruct c as [ss rt pd]; simpl in *.
  unfold try_send, on_senders, on_receivers, chan_send, mbind, M_bind, zoom.
  destruct rs as [|r rs]; simpl in *; subst rt.
  - rewrite (pop_front_nil _ _ Hr). destruct e as [s sl r rl p]; simpl in *.
    destruct blocking; simpl.
    + destruct (Nat.ltb_spec (length ss) cap) as [Hlt|Hge].
      * destruct (push_spec _ _ _ (mkWaiter sender msg) Hs Hcap Hlt) as ([q n] & Hpush & Hq).
        rewrite Hpush. eexists. split; [done|]. split; simpl; eauto.
      * rewrite (push_full _ _ _ _ Hs) by (pose proof (qr_cap _ _ _ Hs); lia).
        eexists. split; [done|]. split; simpl; eauto.
    + eexists. split; [done|]. split; simpl; eauto.
  - destruct (pop_front_spec (E := EndpointError) _ _ _ _ Hr) as ([q n] & Hpop & Hq).
    rewrite Hpop. simpl. eexists. split; [done|].
    destruct Hone as [-> |Hno]; [|done]. split; simpl; eauto.
Qed.

Lemma try_recv_spec receiver blocking e c :
  ep_rep cap e c →
  ∃ e', try_recv receiver blocking e = ((chan_recv cap receiver blocking c).1, e') ∧
        ep_rep cap e' (chan_recv cap receiver blocking c).2.
Proof.
  intros [Hs (rs & Hr & Hrs) Hp Hone]. destruct c as [ss rt pd]; simpl in *.
  unfold try_recv, on_senders, on_receivers, chan_recv, mbind, M_bind, zoom.
  destruct ss as [|s ss]; simpl in *.
  - rewrite (pop_front_nil _ _ Hs). destruct e as [s sl r rl p]; simpl in *.
    destruct blocking; simpl.
    + subst rt. rewrite length_fmap. destruct (Nat.ltb_spec (length rs) cap) as [Hlt|Hge].
      * destruct (push_spec _ _ _ (mkWaiter receiver (msg_new 0)) Hr Hcap Hlt)
          as ([q n] & Hpush & Hq).
        rewrite Hpush. eexists. split; [done|]. split; simpl; [done| |done|by left].
        eexists. split; [done|]. by rewrite fmap_app.
      * rewrite (push_full _ _ _ _ Hr) by (pose proof (qr_cap _ _ _ Hr); lia).
        eexists. split; [done|]. split; simpl; eauto.
    + eexists. split; [done|]. split; simpl; eauto.
  - destruct (pop_front_spec (E := EndpointError) _ _ _ _ Hs) as ([q n] & Hpop & Hq).
    rewrite Hpop. simpl. eexists. split; [done|].
    destruct Hone as [Hno| ->]; [done|]. split; simpl; eauto.
Qed.

Lemma try_send_wf sender msg blocking e :
  ep_wf cap e → wp (try_send sender msg blocking) (no_panic (ep_wf cap)) e.
Proof.
  intros [c Hc]. unfold wp. destruct (try_send_spec sender msg blocking _ _ Hc) as (e' & -> & He').
  split; [|by eexists]. simpl. unfold chan_send. repeat case_match; done.
Qed.

Lemma try_recv_wf receiver blocking e :
  ep_wf cap e → wp (try_recv receiver blocking) (no_panic (ep_wf cap)) e.
Proof.
  intros [c Hc]. unfold wp. destruct (try_recv_spec receiver blocking _ _ Hc) as (e' & -> & He').
  split; [|by eexists]. simpl. unfold chan_recv. repeat case_match; done.
Qed.
End endpoint.

Lemma set_pending_rep cap e c d :
  ep_rep cap e c → ep_rep cap (set_pending d e) (mkChan (c_senders c) (c_receivers c) d).
Proof. intros [? ? ? ?]. by split. Qed.

(** The queued senders are the filled slots, in order. *)
Lemma senders_spec cap e c : ep_rep cap e c → flatten (senders e) = c_senders c.
Proof. intros [[Ha _ _] _ _ _]. simpl in Ha. rewrite Ha. apply flatten_filled. Qed.

Lemma blocked_receiver_spec cap e c :
  ep_rep cap e c → blocked_receiver e = head (c_receivers c).
Proof.
  intros [_ (rs & [Ha Hn _] & ->) _ _]. unfold blocked_receiver. simpl in *. rewrite Hn.
  destruct rs as [|r rs]; simpl; [done|]. rewrite Ha. simpl. done.
Qed.

(** ** Runs of an endpoint *)

Inductive EpOp :=
| OpSend (sender : ThreadId) (msg : SmallMessage) (blocking : bool)
| OpRecv (receiver : ThreadId) (blocking : bool)
| OpTake.

Inductive EpResult :=
| RSend (r : outcome EndpointError SendOutcome)
| RRecv (r : outcome EndpointError RecvOutcome)
| RTake (r : outcome EndpointError (option (ThreadId * SmallMessage))).

Definition ep_step (o : EpOp) (e : Endpoint) : EpResult * Endpoint :=
  match o with
  | OpSend t m b => let '(r, e) := try_send t m b e in (RSend r, e)
  | OpRecv t b => let '(r, e) := try_recv t b e in (RRecv r, e)
  | OpTake => let '(r, e) := take_delivered e in (RTake r, e)
  end.

Definition chan_step (cap : nat) (o : EpOp) (c : Chan) : EpResult * Chan :=
  match o with
  | OpSend t m b => let '(r, c) := chan_send cap t m b c in (RSend r, c)
  | OpRecv t b => let '(r, c) := chan_recv cap t b c in (RRecv r, c)
  | OpTake => (RTake (Ok (c_pending c)), mkChan (c_senders c) (c_receivers c) None)
  end.

Fixpoint run {S O R} (step : O → S → R * S) (l : list O) (s : S) : list R * S :=
  match l with
  | [] => ([], s)
  | o :: l => let '(r, s) := step o s in let '(rs, s) := run step l s in (r :: rs, s)
  end.

(** Lock-step simulation of two systems with equal results. *)
Lemma run_simulation {S S' O R} (step : O → S → R * S) (step' : O → S' → R * S')
    (rep : S → S' → Prop) :
  (∀ o s t, rep s t → (step o s).1 = (step' o t).1 ∧ rep (step o s).2 (step' o t).2) →
  ∀ l s t, rep s t →
    (run step l s).1 = (run step' l t).1 ∧ rep (run step l s).2 (run step' l t).2.
Proof.
  intros Hstep l. induction l as [|o l IH]; intros s t Hst; simpl; [done|].
  destruct (Hstep o s t Hst) as [H1 H2]. destruct (step o s) as [r s'], (step' o t) as [r' t'].
  simpl in *. subst. destruct (IH _ _ H2) as [H3 H4].
  destruct (run step l s') as [rs s''], (run step' l t') as [rs' t'']. simpl in *.
  by subst.
Qed.

(** The messages a trace has accepted from senders, and those it has handed
    to receivers. *)
Definition accepted (o : EpOp) (r : EpResult) : list SmallMessage :=
  match o, r with
  | OpSend _ m _, RSend (Ok (DeliveredTo _ | SenderQueued)) => [m]
  | _, _ => []
  end.

Definition handed_over (o : EpOp) (r : EpResult) : list SmallMessage :=
  match o, r with
  | OpSend _ m _, RSend (Ok (DeliveredTo _)) => [m]
  | _, RRecv (Ok (Received _ m)) => [m]
  | _, _ => []
  end.

Definition collect {A B C} (f : A → B → list C) (l : list A) (k : list B) : list C :=
  mjoin (zip_with f l k).

Lemma chan_step_conserves cap o c :
  c_senders c = [] ∨ c_receivers c = [] →
  let '(r, c') := chan_step cap o c in
  (c_senders c' = [] ∨ c_receivers c' = []) ∧
  (w_msg <$> c_senders c) ++ accepted o r = handed_over o r ++ (w_msg <$> c_senders c').
Proof.
  intros Hone. destruct c as [ss rs p]; simpl in *. destruct o as [t m b|t b|]; simpl.
  - unfold chan_send; simpl. destruct rs as [|r rs].
    + repeat case_match; simplify_eq/=; rewrite ?app_nil_r, ?fmap_app; auto.
    + destruct Hone as [-> |Hno]; [|done]. simpl. auto.
  - unfold chan_recv; simpl. destruct ss as [|s ss].
    + repeat case_match; simplify_eq/=; auto.
    + destruct Hone as [Hno| ->]; [done|]. simpl. rewrite app_nil_r. auto.
  - rewrite app_nil_r. auto.
Qed.

Lemma chan_run_conserves cap l : ∀ c,
  c_senders c = [] ∨ c_receivers c = [] →
  let '(rs, c') := run (chan_step cap) l c in
  (w_msg <$> c_senders c) ++ collect accepted l rs =
    collect handed_over l rs ++ (w_msg <$> c_senders c').
Proof.
  induction l as [|o l IH]; intros c Hone; simpl; [by rewrite app_nil_r|].
  pose proof (chan_step_conserves cap o c Hone) as Hs.
  destruct (chan_step cap o c) as [r c']. destruct Hs as [Hone' Hs].
  specialize (IH c' Hone'). destruct (run (chan_step cap) l c') as [rs c''].
  unfold collect in *. simpl. rewrite app_assoc, Hs, <- app_assoc, IH, app_assoc. done.
Qed.

Lemma ep_step_sim cap o e c :
  (N.of_nat cap < U64)%N → ep_rep cap e c →
  (ep_step o e).1 = (chan_step cap o c).1 ∧ ep_rep cap (ep_step o e).2 (chan_step cap o c).2.
Proof.
  intros Hcap Hrep. destruct o as [t m b|t b|]; simpl.
  - destruct (try_send_spec cap Hcap t m b _ _ Hrep) as (e' & -> & ?).
    by destruct (chan_send cap t m b c).
  - destruct (try_recv_spec cap Hcap t b _ _ Hrep) as (e' & -> & ?).
    by destruct (chan_recv cap t b c).
  - split; [by rewrite (er_pending _ _ _ Hrep)|by apply set_pending_rep].
Qed.

(** ** Notifications: invariant and abstract behaviour *)

(** The waiters of a notification, in the order they arrived. *)
Definition waiting (s : Notification) : list ThreadId :=
  take (N.to_nat (waiters_len s)) (waiters s).

Record notif_wf (cap : nat) (s : Notification) : Prop := {
  nw_length : length (waiters s) = cap;
  nw_len : (waiters_len s ≤ N.of_nat cap)%N;
}.

Lemma notif_new_wf cap : notif_wf cap (notif_new cap).
Proof. split; simpl; [apply length_replicate|lia]. Qed.

Lemma waiting_length cap s : notif_wf cap s → length (waiting s) = N.to_nat (waiters_len s).
Proof. intros [H1 H2]. unfold waiting. rewrite length_take. lia. Qed.

Lemma signal_spec {E} cap bits s :
  notif_wf cap s →
  ∃ w s', signal (E := E) bits s = (Ok w, s') ∧ notif_wf cap s' ∧
    as_slice w = waiting s ∧ waiting s' = [] ∧
    signal_word s' = N.lor (signal_word s) bits.
Proof.
  intros [H1 H2]. unfold signal, mbind, M_bind. simpl.
  rewrite (proj2 (N.ltb_ge _ _)) by lia. simpl. do 2 eexists. split; [done|].
  split; [by split; simpl; [|lia]|]. split; [|by split].
  unfold as_slice, waiting, copy_prefix. simpl.
  rewrite take_app_le by (rewrite length_take; lia). rewrite take_take.
  f_equal. lia.
Qed.

Lemma poll_spec {E} cap s :
  notif_wf cap s →
  ∃ s', poll (E := E) s = (Ok (signal_word s), s') ∧ notif_wf cap s' ∧
    waiting s' = waiting s ∧ signal_word s' = 0%N.
Proof. intros [H1 H2]. eexists. split; [done|]. by split. Qed.

Lemma wait_spec cap t s :
  notif_wf cap s → (N.of_nat cap < U64)%N →
  if length (waiting s) <? cap
  then ∃ s', wait t s = (Ok tt, s') ∧ notif_wf cap s' ∧ waiting s' = waiting s ++ [t] ∧
             signal_word s' = signal_word s
  else wait t s = (Err NotificationQueueFull, s).
Proof.
  intros Hw Hcap. rewrite (waiting_length _ _ Hw). destruct Hw as [H1 H2].
  unfold wait, mbind, M_bind. simpl. rewrite H1.
  destruct (Nat.ltb_spec (N.to_nat (waiters_len s)) cap).
  - rewrite (proj2 (N.leb_gt _ _)) by lia. simpl. unfold checked_add.
    rewrite (proj2 (N.ltb_lt _ _)) by lia. simpl. eexists. split; [done|].
    split; [split; simpl; [by rewrite length_insert|lia]|]. split; [|done].
    unfold waiting. simpl.
    replace (N.to_nat (waiters_len s + 1)) with (S (N.to_nat (waiters_len s))) by lia.
    erewrite take_S_r; [|apply list_lookup_insert_eq; lia].
    rewrite take_insert_ge by lia. done.
  - rewrite (proj2 (N.leb_le _ _)) by lia. done.
Qed.

Inductive NotifOp := OpSignal (bits : N) | OpPoll | OpWait (t : ThreadId).

Inductive NotifResult := RWoken (l : list ThreadId) | RBits (b : N) | RWaiting | RFull | RPanic.

Definition notif_step (o : NotifOp) (s : Notification) : NotifResult * Notification :=
  match o with
  | OpSignal bits =>
      match signal (E := NotificationError) bits s with
      | (Ok w, s') => (RWoken (as_slice w), s')
      | (_, s') => (RPanic, s')
      end
  | OpPoll =>
      match poll (E := NotificationError) s with
      | (Ok b, s') => (RBits b, s')
      | (_, s') => (RPanic, s')
      end
  | OpWait t =>
      match wait t s with
      | (Ok _, s') => (RWaiting, s')
      | (Err _, s') => (RFull, s')
      | (Panic, s') => (RPanic, s')
      end
  end.

(** The abstract notification: the bits signalled since the last poll, and
    the threads that wait. *)
Definition signals_step (cap : nat) (o : NotifOp) (s : N * list ThreadId)
    : NotifResult * (N * list ThreadId) :=
  let '(bits, ts) := s in
  match o with
  | OpSignal b => (RWoken ts, (N.lor bits b, []))
  | OpPoll => (RBits bits, (0%N, ts))
  | OpWait t => if length ts <? cap then (RWaiting, (bits, ts ++ [t])) else (RFull, s)
  end.

Definition notif_rep (cap : nat) (s : Notification) (a : N * list ThreadId) : Prop :=
  notif_wf cap s ∧ a = (signal_word s, waiting s).

Lemma notif_step_sim cap o s a :
  (N.of_nat cap < U64)%N → notif_rep cap s a →
  (notif_step o s).1 = (signals_step cap o a).1 ∧
  notif_rep cap (notif_step o s).2 (signals_step cap o a).2.
Proof.
  intros Hcap [Hw ->]. destruct o as [b| |t]; simpl.
  - destruct (signal_spec (E := NotificationError) _ b _ Hw)
      as (w & s' & -> & Hw' & -> & Hwt & Hsw). simpl.
    split; [done|]. split; [done|]. by rewrite Hwt, Hsw.
  - split; [done|]. destruct Hw. by split.
  - pose proof (wait_spec _ t _ Hw Hcap) as H. case_match.
    + destruct H as (s' & -> & Hw' & Hwt & Hsw). simpl.
      split; [done|]. split; [done|]. by rewrite Hwt, Hsw.
    + by rewrite H.
Qed.

(** ** Properties *)

(** C20 Refinement: any sequence of sends, receives and deliveries on a fresh
    endpoint gives, call by call, the results of two bounded FIFO queues and a place for
    the message that was handed over and is not yet taken, and
    ends in an endpoint that represents the abstract one: the arrays hold
    exactly the waiters, never on both sides, and nothing panics. *)
Theorem endpoint_refines_queues cap l :
  (N.of_nat cap < U64)%N →
  (run ep_step l (ep_new cap)).1 = (run (chan_step cap) l chan_new).1 ∧
  ep_rep cap (run ep_step l (ep_new cap)).2 (run (chan_step cap) l chan_new).2.
Proof.
  intros Hcap. apply run_simulation; [|apply ep_new_rep].
  intros o e c. by apply ep_step_sim.
Qed.

Lemma endpoint_refines_queues_witness :
  (N.of_nat 2 < U64)%N ∧
  (run ep_step [OpRecv 1 true; OpSend 2 (msg_new 7) true; OpTake; OpSend 3 (msg_new 8) true]
     (ep_new 2)).1 =
  (run (chan_step 2)
     [OpRecv 1 true; OpSend 2 (msg_new 7) true; OpTake; OpSend 3 (msg_new 8) true] chan_new).1.
Proof. split; [lia|apply (endpoint_refines_queues 2); lia]. Defined.

(** No message is lost, duplicated or reordered: the messages an endpoint
    has accepted are, in order, the messages it has handed to receivers
    followed by those of the senders still queued. *)
Theorem endpoint_conserves_messages cap l :
  (N.of_nat cap < U64)%N →
  let '(rs, e) := run ep_step l (ep_new cap) in
  collect accepted l rs =
    collect handed_over l rs ++ (w_msg <$> flatten (senders e)).
Proof.
  intros Hcap.
  destruct (run_simulation ep_step (chan_step cap) (ep_rep cap)
              (λ o e c, ep_step_sim cap o e c Hcap) l _ _ (ep_new_rep cap)) as [Hr Hrep].
  pose proof (chan_run_conserves cap l chan_new (or_introl eq_refl)) as Hc.
  destruct (run ep_step l (ep_new cap)) as [rs e].
  destruct (run (chan_step cap) l chan_new) as [rs' c]. simpl in *. subst.
  rewrite Hc. do 2 f_equal.
  destruct (er_senders _ _ _ Hrep) as [Ha _ _]. simpl in Ha. rewrite Ha.
  by rewrite flatten_filled.
Qed.

Lemma endpoint_conserves_messages_witness :
  (N.of_nat 2 < U64)%N ∧
  let l := [OpSend 2 (msg_new 7) true; OpSend 3 (msg_new 8) true; OpRecv 1 true] in
  let '(rs, e) := run ep_step l (ep_new 2) in
  collect accepted l rs =
    collect handed_over l rs ++ (w_msg <$> flatten (senders e)).
Proof. split; [lia|apply (endpoint_conserves_messages 2); lia]. Defined.

(** The fast-path predicate is exact: a blocking call takes the fast path
    to [r] precisely when the send that follows is delivered to [r] at once. *)
Theorem fast_path_exact cap e sender msg r :
  (N.of_nat cap < U64)%N → ep_wf cap e → msg_wf msg →
  fast_path_eligible e msg true = Take r ↔
  (try_send sender msg true e).1 = Ok (DeliveredTo r).
Proof.
  intros Hcap [c Hc] [_ Hm].
  destruct (try_send_spec cap Hcap sender msg true _ _ Hc) as (e' & -> & _). simpl.
  unfold fast_path_eligible. simpl. rewrite (proj2 (N.ltb_ge _ _)) by done.
  rewrite (blocked_receiver_spec _ _ _ Hc). unfold chan_send.
  destruct (c_receivers c) as [|x xs]; simpl; [|naive_solver].
  case_match; naive_solver.
Qed.

Lemma fast_path_exact_witness :
  let e := (try_recv 4 true (ep_new 2)).2 in
  ep_wf 2 e ∧
  (fast_path_eligible e (msg_new 1) true = Take 4%N ↔
   (try_send 5 (msg_new 1) true e).1 = Ok (DeliveredTo 4%N)).
Proof.
  assert (ep_wf 2 (try_recv 4 true (ep_new 2)).2) as H.
  { apply (try_recv_wf 2 ltac:(lia) 4 true). eexists. apply ep_new_rep. }
  split; [exact H|].
  apply (fast_path_exact 2); [lia|exact H|apply msg_new_wf].
Defined.

(** Notifications: any sequence of signals, polls and waits behaves as a
    word of sticky bits (the disjunction of the signals since the last poll)
    with a bounded queue of waiters, all of them woken, in arrival order, by
    one signal. *)
Lemma notification_refines_sticky_bits cap l :
  (N.of_nat cap < U64)%N →
  let '(rs, s) := run notif_step l (notif_new cap) in
  let '(rs', (bits, ts)) := run (signals_step cap) l (0%N, []) in
  rs = rs' ∧ pending s = bits ∧ waiting s = ts.
Proof.
  intros Hcap.
  destruct (run_simulation notif_step (signals_step cap) (notif_rep cap)
              (λ o s a, notif_step_sim cap o s a Hcap) l (notif_new cap) (0%N, []))
    as [Hr [_ Ha]].
  { split; [apply notif_new_wf|done]. }
  destruct (run notif_step l (notif_new cap)) as [rs s].
  destruct (run (signals_step cap) l (0%N, [])) as [rs' [bits ts]]. simpl in *.
  by simplify_eq.
Qed.

Lemma notification_refines_sticky_bits_witness :
  (N.of_nat 2 < U64)%N ∧
  let '(rs, s) := run notif_step [OpSignal 5; OpWait 1; OpSignal 2; OpPoll] (notif_new 2) in
  let '(rs', (bits, ts)) :=
    run (signals_step 2) [OpSignal 5; OpWait 1; OpSignal 2; OpPoll] (0%N, []) in
  rs = rs' ∧ pending s = bits ∧ waiting s = ts.
Proof. split; [lia|apply (notification_refines_sticky_bits 2); lia]. Defined.

(** Messages: the words of a built message are the words given, a longer
    list is refused, appending adds one word at the end until the message is
    full, and reading a word agrees with the list. *)
Theorem message_words_roundtrip label data :
  match from_words label data with
  | inl e => e = MessageTooLong ∧ MSG_MAX_WORDS < length data
  | inr m =>
      msg_wf m ∧ words m = Some data ∧
      (∀ i, msg_word m i = Some (data !! N.to_nat i)) ∧
      ∀ w, match msg_push w m with
           | (Ok _, m') => words m' = Some (data ++ [w])
           | (Err e, m') => e = MessageTooLong ∧ m' = m ∧ length data = MSG_MAX_WORDS
           | (Panic, _) => False
           end
  end.
Proof.
  destruct (decide (length data ≤ MSG_MAX_WORDS)) as [H|H].
  - destruct (from_words_spec label data H) as (m & -> & Hm & _ & Hw).
    pose proof (words_length _ _ Hm Hw) as Hl. pose proof Hm as [Hm1 Hm2].
    pose proof Hw as Ht. rewrite words_take in Ht by done. injection Ht as Ht.
    split; [done|]. split; [done|]. split.
    + intros i. unfold msg_word. rewrite getN_lookup, <- Ht.
      destruct (N.ltb_spec i (msg_len m)).
      * rewrite lookup_take_lt by lia.
        destruct (msg_words m !! N.to_nat i) eqn:E; [done|]. apply lookup_ge_None in E. lia.
      * by rewrite lookup_take_ge by lia.
    + intros w. destruct (decide (msg_len m < N.of_nat MSG_MAX_WORDS)%N) as [Hlt|Hge].
      * destruct (msg_push_spec m w Hm Hlt) as (m' & -> & _ & _ & ->). by rewrite Hw.
      * unfold msg_push, mbind, M_bind. cbn -[N.leb].
        rewrite (proj2 (N.leb_le _ (msg_len m))) by (revert Hge; unfold MSG_MAX_WORDS; lia).
        split; [done|]. split; [done|]. destruct Hm as [_ Hm]. lia.
  - unfold from_words. rewrite (proj2 (Nat.ltb_lt _ _)) by lia. split; [done|lia].
Qed.
