(* ===== verification/Protocol.v ===== *)
(** * The message protocol of the subsystems

    [ipc-protocol/src]: the request and response types of the six namespaces
    ([fs.rs], [driver.rs], [display.rs], [mm.rs], [net.rs], [security.rs]), the
    message labels ([lib.rs]) and the codec that packs them into the words of a
    [SmallMessage] ([codec.rs]).  Every field is a [u32] or a [u64], given here
    as [N] with its bound in [in_range].

    The twelve codecs form one family, indexed by [Proto]: [payload], [encode]
    and [decode]; [layouts] is the wire format as a table; the theorems are
    stated for the family.  [OpenFlags] is a type
    of the [bitflags] crate: its [bits] and [from_bits] are the class [FlagBits]. *)

From S2P Require Import Prelude Capability Ipc.

(** ** Labels ([lib.rs]) *)

Definition PROTOCOL_VERSION : N := 1.

Inductive Namespace := Fs | Driver | Display | NetBypass | Mm | Security.

#[export] Instance Namespace_eq_dec : EqDecision Namespace.
Proof. solve_decision. Defined.

(** [self as u64] *)
Definition namespace_byte (ns : Namespace) : N :=
  match ns with
  | Fs => 1 | Driver => 2 | Display => 3 | NetBypass => 4 | Mm => 5 | Security => 6
  end.

Definition from_label (label : N) : option Namespace :=
  match truncate U8 (N.shiftr label 56) with
  | 1%N => Some Fs
  | 2%N => Some Driver
  | 3%N => Some Display
  | 4%N => Some NetBypass
  | 5%N => Some Mm
  | 6%N => Some Security
  | _ => None
  end.

Definition label (ns : Namespace) (opcode : N) : N :=
  N.lor (N.lor (truncate U64 (N.shiftl (namespace_byte ns) 56))
               (truncate U64 (N.shiftl PROTOCOL_VERSION 8))) opcode.

(** [(version, opcode)] *)
Definition label_parts (label : N) : N * N :=
  (truncate U16 (N.land (N.shiftr label 8) 65535), truncate U8 (N.land label 255)).

(** ** What the encoders and decoders share ([codec.rs]) *)

Inductive DecodeError :=
| WrongNamespace
| VersionMismatch
| UnknownOpcode
| Truncated
| BadField.

#[export] Instance DecodeError_eq_dec : EqDecision DecodeError.
Proof. solve_decision. Defined.

(** [SmallMessage::from_words(ns.label(op), &words[..n]).unwrap_or_else(|_|
    SmallMessage::new(ns.label(op)))]; [None]: the slice is out of range. *)
Definition pack (ns : Namespace) (op : N) (words : list N) (n : nat) : option SmallMessage :=
  if length words <? n then None else
  Some (match from_words (label ns op) (take n words) with
        | inr m => m
        | inl _ => msg_new (label ns op)
        end).

(** The tests every decoder opens with; the opcode and the words. *)
Definition open_msg (ns : Namespace) (msg : SmallMessage) : outcome DecodeError (N * list N) :=
  if decide (from_label (msg_label msg) = Some ns) then
    let '(version, op) := label_parts (msg_label msg) in
    if negb (version =? PROTOCOL_VERSION)%N then Err VersionMismatch else
    w ← or_panic (words msg);
    mret (op, w)
  else Err WrongNamespace.

(** The closure [need] of the decoders. *)
Definition need (w : list N) (n : nat) : outcome DecodeError unit :=
  if length w <? n then Err Truncated else mret tt.

(** [w[i]] and [w[i] as u32] *)
Definition u64_at (w : list N) (i : nat) : outcome DecodeError N := or_panic (w !! i).

Definition u32_at (w : list N) (i : nat) : outcome DecodeError N :=
  x ← u64_at w i; mret (truncate U32 x).

(** ** The flags of [Open] *)

Abbreviation OpenFlags := N (only parsing).

Class FlagBits := {
  fl_bits : OpenFlags → N;
  fl_from_bits : list OpenFlags → N → option OpenFlags;
  fl_contains : OpenFlags → OpenFlags → bool;
}.

(** The crate's documentation: [bits] is the value; [from_bits] returns [None]
    if a bit outside the declared flags is set; [contains] is [self & other ==
    other]. *)
Class FlagBitsSpec (FB : FlagBits) : Prop := {
  fl_bits_spec f : fl_bits f = f;
  fl_from_bits_spec l b :
    fl_from_bits l b = if (N.land b (foldr N.lor 0%N l) =? b)%N then Some b else None;
  fl_contains_spec f g : fl_contains f g = (N.land f g =? g)%N;
}.

#[export] Instance flag_bits : FlagBits := {|
  fl_bits f := f;
  fl_from_bits l b := if (N.land b (foldr N.lor 0%N l) =? b)%N then Some b else None;
  fl_contains f g := (N.land f g =? g)%N;
|}.

#[export] Instance flag_bits_spec : FlagBitsSpec flag_bits.
Proof. by split. Qed.

Definition FLAG_READ : OpenFlags := 1.
Definition FLAG_WRITE : OpenFlags := 2.
Definition FLAG_CREATE : OpenFlags := 4.
Definition FLAG_TRUNCATE : OpenFlags := 8.
Definition FLAG_APPEND : OpenFlags := 16.
Definition FLAG_DIRECTORY : OpenFlags := 32.

Definition open_flags : list OpenFlags :=
  [FLAG_READ; FLAG_WRITE; FLAG_CREATE; FLAG_TRUNCATE; FLAG_APPEND; FLAG_DIRECTORY].

(** ** File system *)

Module FsP.
Inductive FsRequest :=
| Open (path : N) (flags : OpenFlags)
| Read (handle offset len shared_cap : N)
| Write (handle offset len shared_cap : N)
| Stat (path : N)
| Close (handle : N).

Inductive FsErrorCode :=
  NotFound | Denied | BadHandle | BadPath | Unsupported | BadSharedRegion | Io.

(** [ReadDone] and [StatDone] are the variants [Read] and [Stat]. *)
Inductive FsResponse :=
| Opened (handle : N)
| ReadDone (bytes : N)
| Written (bytes : N)
| StatDone (size : N) (is_dir : bool)
| Closed
| Error (code : FsErrorCode).

Definition OP_OPEN : N := 1.
Definition OP_READ : N := 2.
Definition OP_WRITE : N := 3.
Definition OP_STAT : N := 4.
Definition OP_CLOSE : N := 5.

Section requests.
Context {FB : FlagBits}.

Definition encode_fs_request (req : FsRequest) : option SmallMessage :=
  let '(op, words) :=
    match req with
    | Open path flags => (OP_OPEN, [path; fl_bits flags; 0; 0])
    | Read handle offset len shared_cap => (OP_READ, [handle; offset; len; shared_cap])
    | Write handle offset len shared_cap => (OP_WRITE, [handle; offset; len; shared_cap])
    | Stat path => (OP_STAT, [path; 0; 0; 0])
    | Close handle => (OP_CLOSE, [handle; 0; 0; 0])
    end%N in
  let n := if (op =? OP_OPEN)%N then 2
           else if (op =? OP_READ)%N || (op =? OP_WRITE)%N then 4 else 1 in
  pack Fs op words n.

Definition decode_fs_request (msg : SmallMessage) : outcome DecodeError FsRequest :=
  '(op, w) ← open_msg Fs msg;
  if (op =? OP_OPEN)%N then
    _ ← need w 2;
    bits ← u32_at w 1;
    flags ← or_err (fl_from_bits open_flags bits) BadField;
    path ← u32_at w 0;
    mret (Open path flags)
  else if (op =? OP_READ)%N then
    _ ← need w 4;
    handle ← u32_at w 0; offset ← u64_at w 1; len ← u32_at w 2; shared_cap ← u32_at w 3;
    mret (Read handle offset len shared_cap)
  else if (op =? OP_WRITE)%N then
    _ ← need w 4;
    handle ← u32_at w 0; offset ← u64_at w 1; len ← u32_at w 2; shared_cap ← u32_at w 3;
    mret (Write handle offset len shared_cap)
  else if (op =? OP_STAT)%N then
    _ ← need w 1; path ← u32_at w 0; mret (Stat path)
  else if (op =? OP_CLOSE)%N then
    _ ← need w 1; handle ← u32_at w 0; mret (Close handle)
  else Err UnknownOpcode.
End requests.

(** [code as u64] and the [match] that reads it back. *)
Definition fs_code (code : FsErrorCode) : N :=
  match code with
  | NotFound => 1 | Denied => 2 | BadHandle => 3 | BadPath => 4 | Unsupported => 5
  | BadSharedRegion => 6 | Io => 7
  end.

Definition fs_code_of (w : N) : outcome DecodeError FsErrorCode :=
  match w with
  | 1%N => Ok NotFound
  | 2%N => Ok Denied
  | 3%N => Ok BadHandle
  | 4%N => Ok BadPath
  | 5%N => Ok Unsupported
  | 6%N => Ok BadSharedRegion
  | 7%N => Ok Io
  | _ => Err BadField
  end.

Definition OP_FR_OPENED : N := 1.
Definition OP_FR_READ : N := 2.
Definition OP_FR_WRITTEN : N := 3.
Definition OP_FR_STAT : N := 4.
Definition OP_FR_CLOSED : N := 5.
Definition OP_FR_ERROR : N := 6.

Definition encode_fs_response (resp : FsResponse) : option SmallMessage :=
  let '(op, words) :=
    match resp with
    | Opened handle => (OP_FR_OPENED, [handle; 0])
    | ReadDone bytes => (OP_FR_READ, [bytes; 0])
    | Written bytes => (OP_FR_WRITTEN, [bytes; 0])
    | StatDone size is_dir => (OP_FR_STAT, [size; N.b2n is_dir])
    | Closed => (OP_FR_CLOSED, [0; 0])
    | Error code => (OP_FR_ERROR, [fs_code code; 0])
    end%N in
  let n := if (op =? OP_FR_STAT)%N then 2 else if (op =? OP_FR_CLOSED)%N then 0 else 1 in
  pack Fs op words n.

Definition decode_fs_response (msg : SmallMessage) : outcome DecodeError FsResponse :=
  '(op, w) ← open_msg Fs msg;
  if (op =? OP_FR_OPENED)%N then
    _ ← need w 1; handle ← u32_at w 0; mret (Opened handle)
  else if (op =? OP_FR_READ)%N then
    _ ← need w 1; bytes ← u32_at w 0; mret (ReadDone bytes)
  else if (op =? OP_FR_WRITTEN)%N then
    _ ← need w 1; bytes ← u32_at w 0; mret (Written bytes)
  else if (op =? OP_FR_STAT)%N then
    _ ← need w 2; size ← u64_at w 0; d ← u64_at w 1;
    mret (StatDone size (negb (d =? 0)%N))
  else if (op =? OP_FR_CLOSED)%N then mret Closed
  else if (op =? OP_FR_ERROR)%N then
    _ ← need w 1; c ← u64_at w 0; code ← fs_code_of c; mret (Error code)
  else Err UnknownOpcode.
End FsP.

(** ** Drivers *)

Module DriverP.
Inductive DriverRequest :=
| Probe
| Irq (line : N)
| ReadBlocks (lba sector_count shared_cap : N)
| WriteBlocks (lba sector_count shared_cap : N)
| Quiesce
| SendFrame (len : N)
| PollFrame.

Inductive DriverErrorCode :=
  ProbeFailed | OutOfRange | BadSharedRegion | DeviceIo | Unsupported | NoData | DriverBusy.

Inductive DriverResponse :=
| Ready (sector_size sector_count : N)
| Completed (sectors : N)
| Failed (code : DriverErrorCode)
| FrameSent
| FrameReceived (len : N).

Definition OP_DR_PROBE : N := 1.
Definition OP_DR_IRQ : N := 2.
Definition OP_DR_READ_BLOCKS : N := 3.
Definition OP_DR_WRITE_BLOCKS : N := 4.
Definition OP_DR_QUIESCE : N := 5.
Definition OP_DR_SEND_FRAME : N := 6.
Definition OP_DR_POLL_FRAME : N := 7.

Definition encode_driver_request (req : DriverRequest) : option SmallMessage :=
  let '(op, words) :=
    match req with
    | Probe => (OP_DR_PROBE, [0; 0; 0])
    | Irq line => (OP_DR_IRQ, [line; 0; 0])
    | ReadBlocks lba sector_count shared_cap =>
        (OP_DR_READ_BLOCKS, [lba; sector_count; shared_cap])
    | WriteBlocks lba sector_count shared_cap =>
        (OP_DR_WRITE_BLOCKS, [lba; sector_count; shared_cap])
    | Quiesce => (OP_DR_QUIESCE, [0; 0; 0])
    | SendFrame len => (OP_DR_SEND_FRAME, [len; 0; 0])
    | PollFrame => (OP_DR_POLL_FRAME, [0; 0; 0])
    end%N in
  let n := if (op =? OP_DR_IRQ)%N || (op =? OP_DR_SEND_FRAME)%N then 1
           else if (op =? OP_DR_READ_BLOCKS)%N || (op =? OP_DR_WRITE_BLOCKS)%N then 3 else 0 in
  pack Driver op words n.

Definition decode_driver_request (msg : SmallMessage) : outcome DecodeError DriverRequest :=
  '(op, w) ← open_msg Driver msg;
  if (op =? OP_DR_PROBE)%N then mret Probe
  else if (op =? OP_DR_IRQ)%N then
    _ ← need w 1; line ← u32_at w 0; mret (Irq line)
  else if (op =? OP_DR_READ_BLOCKS)%N then
    _ ← need w 3;
    lba ← u64_at w 0; sector_count ← u32_at w 1; shared_cap ← u32_at w 2;
    mret (ReadBlocks lba sector_count shared_cap)
  else if (op =? OP_DR_WRITE_BLOCKS)%N then
    _ ← need w 3;
    lba ← u64_at w 0; sector_count ← u32_at w 1; shared_cap ← u32_at w 2;
    mret (WriteBlocks lba sector_count shared_cap)
  else if (op =? OP_DR_QUIESCE)%N then mret Quiesce
  else if (op =? OP_DR_SEND_FRAME)%N then
    _ ← need w 1; len ← u32_at w 0; mret (SendFrame len)
  else if (op =? OP_DR_POLL_FRAME)%N then mret PollFrame
  else Err UnknownOpcode.

Definition driver_code (code : DriverErrorCode) : N :=
  match code with
  | ProbeFailed => 1 | OutOfRange => 2 | BadSharedRegion => 3 | DeviceIo => 4
  | Unsupported => 5 | NoData => 6 | DriverBusy => 7
  end.

Definition driver_code_of (w : N) : outcome DecodeError DriverErrorCode :=
  match w with
  | 1%N => Ok ProbeFailed
  | 2%N => Ok OutOfRange
  | 3%N => Ok BadSharedRegion
  | 4%N => Ok DeviceIo
  | 5%N => Ok Unsupported
  | 6%N => Ok NoData
  | 7%N => Ok DriverBusy
  | _ => Err BadField
  end.

Definition OP_DRR_READY : N := 1.
Definition OP_DRR_COMPLETED : N := 2.
Definition OP_DRR_FAILED : N := 3.
Definition OP_DRR_FRAME_SENT : N := 4.
Definition OP_DRR_FRAME_RECEIVED : N := 5.

Definition encode_driver_response (resp : DriverResponse) : option SmallMessage :=
  let '(op, words) :=
    match resp with
    | Ready sector_size sector_count => (OP_DRR_READY, [sector_size; sector_count])
    | Completed sectors => (OP_DRR_COMPLETED, [sectors; 0])
    | Failed code => (OP_DRR_FAILED, [driver_code code; 0])
    | FrameSent => (OP_DRR_FRAME_SENT, [0; 0])
    | FrameReceived len => (OP_DRR_FRAME_RECEIVED, [len; 0])
    end%N in
  let n := if (op =? OP_DRR_READY)%N then 2 else if (op =? OP_DRR_FRAME_SENT)%N then 0 else 1 in
  pack Driver op words n.

Definition decode_driver_response (msg : SmallMessage) : outcome DecodeError DriverResponse :=
  '(op, w) ← open_msg Driver msg;
  if (op =? OP_DRR_READY)%N then
    _ ← need w 2; sector_size ← u32_at w 0; sector_count ← u64_at w 1;
    mret (Ready sector_size sector_count)
  else if (op =? OP_DRR_COMPLETED)%N then
    _ ← need w 1; sectors ← u32_at w 0; mret (Completed sectors)
  else if (op =? OP_DRR_FAILED)%N then
    _ ← need w 1; c ← u64_at w 0; code ← driver_code_of c; mret (Failed code)
  else if (op =? OP_DRR_FRAME_SENT)%N then mret FrameSent
  else if (op =? OP_DRR_FRAME_RECEIVED)%N then
    _ ← need w 1; len ← u32_at w 0; mret (FrameReceived len)
  else Err UnknownOpcode.
End DriverP.

(** ** Display *)

Module DisplayP.
Inductive DisplayRequest :=
| CreateSurface
| CommitBuffer (surface buffer_cap width height : N)
| DestroySurface (surface : N)
| SubscribeInput
| QueryOutputs.

Inductive DisplayErrorCode := BadSurface | BadBuffer | Unsupported.

Inductive DisplayResponse :=
| SurfaceCreated (surface : N)
| Committed
| Destroyed
| InputSubscribed
| OutputTopology (output_count primary_width primary_height primary_refresh_mhz : N)
| Error (code : DisplayErrorCode).

Definition OP_DP_CREATE_SURFACE : N := 1.
Definition OP_DP_COMMIT_BUFFER : N := 2.
Definition OP_DP_DESTROY_SURFACE : N := 3.
Definition OP_DP_SUBSCRIBE_INPUT : N := 4.
Definition OP_DP_QUERY_OUTPUTS : N := 5.

Definition encode_display_request (req : DisplayRequest) : option SmallMessage :=
  let '(op, words) :=
    match req with
    | CreateSurface => (OP_DP_CREATE_SURFACE, [0; 0; 0; 0])
    | CommitBuffer surface buffer_cap width height =>
        (OP_DP_COMMIT_BUFFER, [surface; buffer_cap; width; height])
    | DestroySurface surface => (OP_DP_DESTROY_SURFACE, [surface; 0; 0; 0])
    | SubscribeInput => (OP_DP_SUBSCRIBE_INPUT, [0; 0; 0; 0])
    | QueryOutputs => (OP_DP_QUERY_OUTPUTS, [0; 0; 0; 0])
    end%N in
  let n := if (op =? OP_DP_COMMIT_BUFFER)%N then 4
           else if (op =? OP_DP_DESTROY_SURFACE)%N then 1 else 0 in
  pack Display op words n.

Definition decode_display_request (msg : SmallMessage) : outcome DecodeError DisplayRequest :=
  '(op, w) ← open_msg Display msg;
  if (op =? OP_DP_CREATE_SURFACE)%N then mret CreateSurface
  else if (op =? OP_DP_COMMIT_BUFFER)%N then
    _ ← need w 4;
    surface ← u32_at w 0; buffer_cap ← u32_at w 1; width ← u32_at w 2; height ← u32_at w 3;
    mret (CommitBuffer surface buffer_cap width height)
  else if (op =? OP_DP_DESTROY_SURFACE)%N then
    _ ← need w 1; surface ← u32_at w 0; mret (DestroySurface surface)
  else if (op =? OP_DP_SUBSCRIBE_INPUT)%N then mret SubscribeInput
  else if (op =? OP_DP_QUERY_OUTPUTS)%N then mret QueryOutputs
  else Err UnknownOpcode.

Definition display_code (code : DisplayErrorCode) : N :=
  match code with BadSurface => 1 | BadBuffer => 2 | Unsupported => 3 end.

Definition display_code_of (w : N) : outcome DecodeError DisplayErrorCode :=
  match w with
  | 1%N => Ok BadSurface
  | 2%N => Ok BadBuffer
  | 3%N => Ok Unsupported
  | _ => Err BadField
  end.

Definition OP_DPR_SURFACE_CREATED : N := 1.
Definition OP_DPR_COMMITTED : N := 2.
Definition OP_DPR_DESTROYED : N := 3.
Definition OP_DPR_INPUT_SUBSCRIBED : N := 4.
Definition OP_DPR_OUTPUT_TOPOLOGY : N := 5.
Definition OP_DPR_ERROR : N := 6.

Definition encode_display_response (resp : DisplayResponse) : option SmallMessage :=
  let '(op, words) :=
    match resp with
    | SurfaceCreated surface => (OP_DPR_SURFACE_CREATED, [surface; 0; 0; 0])
    | Committed => (OP_DPR_COMMITTED, [0; 0; 0; 0])
    | Destroyed => (OP_DPR_DESTROYED, [0; 0; 0; 0])
    | InputSubscribed => (OP_DPR_INPUT_SUBSCRIBED, [0; 0; 0; 0])
    | OutputTopology output_count primary_width primary_height primary_refresh_mhz =>
        (OP_DPR_OUTPUT_TOPOLOGY,
         [output_count; primary_width; primary_height; primary_refresh_mhz])
    | Error code => (OP_DPR_ERROR, [display_code code; 0; 0; 0])
    end%N in
  let n := if (op =? OP_DPR_OUTPUT_TOPOLOGY)%N then 4
           else if (op =? OP_DPR_SURFACE_CREATED)%N || (op =? OP_DPR_ERROR)%N then 1 else 0 in
  pack Display op words n.

Definition decode_display_response (msg : SmallMessage) : outcome DecodeError DisplayResponse :=
  '(op, w) ← open_msg Display msg;
  if (op =? OP_DPR_SURFACE_CREATED)%N then
    _ ← need w 1; surface ← u32_at w 0; mret (SurfaceCreated surface)
  else if (op =? OP_DPR_COMMITTED)%N then mret Committed
  else if (op =? OP_DPR_DESTROYED)%N then mret Destroyed
  else if (op =? OP_DPR_INPUT_SUBSCRIBED)%N then mret InputSubscribed
  else if (op =? OP_DPR_OUTPUT_TOPOLOGY)%N then
    _ ← need w 4;
    output_count ← u32_at w 0; primary_width ← u32_at w 1; primary_height ← u32_at w 2;
    primary_refresh_mhz ← u32_at w 3;
    mret (OutputTopology output_count primary_width primary_height primary_refresh_mhz)
  else if (op =? OP_DPR_ERROR)%N then
    _ ← need w 1; c ← u64_at w 0; code ← display_code_of c; mret (Error code)
  else Err UnknownOpcode.
End DisplayP.

(** ** Memory service *)

Module MmP.
Inductive ReclaimClass := Protected | Normal | Sacrificial.

Inductive ComputeKind := Cpu | Gpu | Npu | Tpu | Fpga.

Inductive MmRequest :=
| Register (thread resident_bytes : N) (class : ReclaimClass)
| Unregister (thread : N)
| QueryVictim
| QueryTotalResident
| RegisterSwapRegion (thread region_id bytes last_touched_ns : N)
| UnregisterSwapRegion (thread region_id : N)
| QuerySwapVictim
| RegisterComputePool (pool_id : N) (kind : ComputeKind) (capacity_bytes used_bytes : N)
| QueryComputePool (bytes : N) (preferred_kind : option ComputeKind).

Inductive MmErrorCode := Unsupported.

Inductive MmResponse :=
| Registered
| Unregistered
| Victim (thread : N)
| TotalResident (bytes : N)
| SwapRegionRegistered
| SwapRegionUnregistered
| SwapVictim (thread region_id : N)
| ComputePoolRegistered
| ComputePoolChosen (pool_id : N)
| Error (code : MmErrorCode).

Definition OP_MM_REGISTER : N := 1.
Definition OP_MM_UNREGISTER : N := 2.
Definition OP_MM_QUERY_VICTIM : N := 3.
Definition OP_MM_QUERY_TOTAL_RESIDENT : N := 4.
Definition OP_MM_REGISTER_SWAP_REGION : N := 5.
Definition OP_MM_UNREGISTER_SWAP_REGION : N := 6.
Definition OP_MM_QUERY_SWAP_VICTIM : N := 7.
Definition OP_MM_REGISTER_COMPUTE_POOL : N := 8.
Definition OP_MM_QUERY_COMPUTE_POOL : N := 9.

Definition encode_compute_kind (kind : ComputeKind) : N :=
  match kind with Cpu => 0 | Gpu => 1 | Npu => 2 | Tpu => 3 | Fpga => 4 end.

Definition decode_compute_kind (word : N) : outcome DecodeError ComputeKind :=
  match word with
  | 0%N => Ok Cpu
  | 1%N => Ok Gpu
  | 2%N => Ok Npu
  | 3%N => Ok Tpu
  | 4%N => Ok Fpga
  | _ => Err BadField
  end.

(** [class as u64] and the [match] that reads it back. *)
Definition class_word (class : ReclaimClass) : N :=
  match class with Protected => 0 | Normal => 1 | Sacrificial => 2 end.

Definition class_of (w : N) : outcome DecodeError ReclaimClass :=
  match w with
  | 0%N => Ok Protected
  | 1%N => Ok Normal
  | 2%N => Ok Sacrificial
  | _ => Err BadField
  end.

Definition encode_mm_request (req : MmRequest) : option SmallMessage :=
  let '(op, words) :=
    match req with
    | Register thread resident_bytes class =>
        (OP_MM_REGISTER, [thread; resident_bytes; class_word class; 0])
    | Unregister thread => (OP_MM_UNREGISTER, [thread; 0; 0; 0])
    | QueryVictim => (OP_MM_QUERY_VICTIM, [0; 0; 0; 0])
    | QueryTotalResident => (OP_MM_QUERY_TOTAL_RESIDENT, [0; 0; 0; 0])
    | RegisterSwapRegion thread region_id bytes last_touched_ns =>
        (OP_MM_REGISTER_SWAP_REGION, [thread; region_id; bytes; last_touched_ns])
    | UnregisterSwapRegion thread region_id =>
        (OP_MM_UNREGISTER_SWAP_REGION, [thread; region_id; 0; 0])
    | QuerySwapVictim => (OP_MM_QUERY_SWAP_VICTIM, [0; 0; 0; 0])
    | RegisterComputePool pool_id kind capacity_bytes used_bytes =>
        (OP_MM_REGISTER_COMPUTE_POOL,
         [pool_id; encode_compute_kind kind; capacity_bytes; used_bytes])
    | QueryComputePool bytes preferred_kind =>
        let '(has_pref, kind_word) :=
          match preferred_kind with
          | Some k => (1, encode_compute_kind k)
          | None => (0, 0)
          end in
        (OP_MM_QUERY_COMPUTE_POOL, [bytes; has_pref; kind_word; 0])
    end%N in
  let n := if (op =? OP_MM_REGISTER)%N || (op =? OP_MM_REGISTER_SWAP_REGION)%N
              || (op =? OP_MM_REGISTER_COMPUTE_POOL)%N then 4
           else if (op =? OP_MM_QUERY_COMPUTE_POOL)%N || (op =? OP_MM_UNREGISTER_SWAP_REGION)%N
           then 3
           else if (op =? OP_MM_UNREGISTER)%N then 1 else 0 in
  pack Mm op words n.

Definition decode_mm_request (msg : SmallMessage) : outcome DecodeError MmRequest :=
  '(op, w) ← open_msg Mm msg;
  if (op =? OP_MM_REGISTER)%N then
    _ ← need w 3;
    c ← u64_at w 2; class ← class_of c; thread ← u32_at w 0; resident_bytes ← u64_at w 1;
    mret (Register thread resident_bytes class)
  else if (op =? OP_MM_UNREGISTER)%N then
    _ ← need w 1; thread ← u32_at w 0; mret (Unregister thread)
  else if (op =? OP_MM_QUERY_VICTIM)%N then mret QueryVictim
  else if (op =? OP_MM_QUERY_TOTAL_RESIDENT)%N then mret QueryTotalResident
  else if (op =? OP_MM_REGISTER_SWAP_REGION)%N then
    _ ← need w 4;
    thread ← u32_at w 0; region_id ← u32_at w 1; bytes ← u64_at w 2;
    last_touched_ns ← u64_at w 3;
    mret (RegisterSwapRegion thread region_id bytes last_touched_ns)
  else if (op =? OP_MM_UNREGISTER_SWAP_REGION)%N then
    _ ← need w 2; thread ← u32_at w 0; region_id ← u32_at w 1;
    mret (UnregisterSwapRegion thread region_id)
  else if (op =? OP_MM_QUERY_SWAP_VICTIM)%N then mret QuerySwapVictim
  else if (op =? OP_MM_REGISTER_COMPUTE_POOL)%N then
    _ ← need w 4;
    pool_id ← u32_at w 0; k ← u64_at w 1; kind ← decode_compute_kind k;
    capacity_bytes ← u64_at w 2; used_bytes ← u64_at w 3;
    mret (RegisterComputePool pool_id kind capacity_bytes used_bytes)
  else if (op =? OP_MM_QUERY_COMPUTE_POOL)%N then
    _ ← need w 3;
    has_pref ← u64_at w 1;
    preferred_kind ←
      match has_pref with
      | 0%N => mret None
      | 1%N => k ← u64_at w 2; kind ← decode_compute_kind k; mret (Some kind)
      | _ => Err BadField
      end;
    bytes ← u64_at w 0;
    mret (QueryComputePool bytes preferred_kind)
  else Err UnknownOpcode.

(** [code as u64] and the [match] that reads it back. *)
Definition mm_code (code : MmErrorCode) : N := match code with Unsupported => 1 end.

Definition mm_code_of (w : N) : outcome DecodeError MmErrorCode :=
  match w with 1%N => Ok Unsupported | _ => Err BadField end.

Definition OP_MMR_REGISTERED : N := 1.
Definition OP_MMR_UNREGISTERED : N := 2.
Definition OP_MMR_VICTIM : N := 3.
Definition OP_MMR_TOTAL_RESIDENT : N := 4.
Definition OP_MMR_ERROR : N := 5.
Definition OP_MMR_SWAP_REGION_REGISTERED : N := 6.
Definition OP_MMR_SWAP_REGION_UNREGISTERED : N := 7.
Definition OP_MMR_SWAP_VICTIM : N := 8.
Definition OP_MMR_COMPUTE_POOL_REGISTERED : N := 9.
Definition OP_MMR_COMPUTE_POOL_CHOSEN : N := 10.

Definition encode_mm_response (resp : MmResponse) : option SmallMessage :=
  let '(op, words) :=
    match resp with
    | Registered => (OP_MMR_REGISTERED, [0; 0])
    | Unregistered => (OP_MMR_UNREGISTERED, [0; 0])
    | Victim thread => (OP_MMR_VICTIM, [thread; 0])
    | TotalResident bytes => (OP_MMR_TOTAL_RESIDENT, [bytes; 0])
    | SwapRegionRegistered => (OP_MMR_SWAP_REGION_REGISTERED, [0; 0])
    | SwapRegionUnregistered => (OP_MMR_SWAP_REGION_UNREGISTERED, [0; 0])
    | SwapVictim thread region_id => (OP_MMR_SWAP_VICTIM, [thread; region_id])
    | ComputePoolRegistered => (OP_MMR_COMPUTE_POOL_REGISTERED, [0; 0])
    | ComputePoolChosen pool_id => (OP_MMR_COMPUTE_POOL_CHOSEN, [pool_id; 0])
    | Error code => (OP_MMR_ERROR, [mm_code code; 0])
    end%N in
  let n := if (op =? OP_MMR_REGISTERED)%N || (op =? OP_MMR_UNREGISTERED)%N
              || (op =? OP_MMR_SWAP_REGION_REGISTERED)%N
              || (op =? OP_MMR_SWAP_REGION_UNREGISTERED)%N
              || (op =? OP_MMR_COMPUTE_POOL_REGISTERED)%N then 0
           else if (op =? OP_MMR_SWAP_VICTIM)%N then 2 else 1 in
  pack Mm op words n.

Definition decode_mm_response (msg : SmallMessage) : outcome DecodeError MmResponse :=
  '(op, w) ← open_msg Mm msg;
  if (op =? OP_MMR_REGISTERED)%N then mret Registered
  else if (op =? OP_MMR_UNREGISTERED)%N then mret Unregistered
  else if (op =? OP_MMR_VICTIM)%N then
    _ ← need w 1; thread ← u32_at w 0; mret (Victim thread)
  else if (op =? OP_MMR_TOTAL_RESIDENT)%N then
    _ ← need w 1; bytes ← u64_at w 0; mret (TotalResident bytes)
  else if (op =? OP_MMR_SWAP_REGION_REGISTERED)%N then mret SwapRegionRegistered
  else if (op =? OP_MMR_SWAP_REGION_UNREGISTERED)%N then mret SwapRegionUnregistered
  else if (op =? OP_MMR_SWAP_VICTIM)%N then
    _ ← need w 2; thread ← u32_at w 0; region_id ← u32_at w 1;
    mret (SwapVictim thread region_id)
  else if (op =? OP_MMR_COMPUTE_POOL_REGISTERED)%N then mret ComputePoolRegistered
  else if (op =? OP_MMR_COMPUTE_POOL_CHOSEN)%N then
    _ ← need w 1; pool_id ← u32_at w 0; mret (ComputePoolChosen pool_id)
  else if (op =? OP_MMR_ERROR)%N then
    _ ← need w 1; c ← u64_at w 0; code ← mm_code_of c; mret (Error code)
  else Err UnknownOpcode.
End MmP.

(** ** Kernel-bypass networking *)

Module NetP.
Inductive NetBypassRequest :=
| RequestDirectNic (nic_id : N)
| Release (handle : N)
| RelayFrame.

Inductive NetBypassResponse :=
| Granted (handle rx_ring_cap tx_ring_cap ring_len : N)
| Denied
| Released
| Relayed.

Definition OP_NB_REQUEST_DIRECT_NIC : N := 1.
Definition OP_NB_RELEASE : N := 2.
Definition OP_NB_RELAY_FRAME : N := 3.

Definition encode_net_bypass_request (req : NetBypassRequest) : option SmallMessage :=
  let '(op, words) :=
    match req with
    | RequestDirectNic nic_id => (OP_NB_REQUEST_DIRECT_NIC, [nic_id])
    | Release handle => (OP_NB_RELEASE, [handle])
    | RelayFrame => (OP_NB_RELAY_FRAME, [0])
    end%N in
  let n := if (op =? OP_NB_RELAY_FRAME)%N then 0 else 1 in
  pack NetBypass op words n.

Definition decode_net_bypass_request (msg : SmallMessage)
    : outcome DecodeError NetBypassRequest :=
  '(op, w) ← open_msg NetBypass msg;
  if (op =? OP_NB_REQUEST_DIRECT_NIC)%N then
    _ ← need w 1; nic_id ← u32_at w 0; mret (RequestDirectNic nic_id)
  else if (op =? OP_NB_RELEASE)%N then
    _ ← need w 1; handle ← u32_at w 0; mret (Release handle)
  else if (op =? OP_NB_RELAY_FRAME)%N then mret RelayFrame
  else Err UnknownOpcode.

Definition OP_NBR_GRANTED : N := 1.
Definition OP_NBR_DENIED : N := 2.
Definition OP_NBR_RELEASED : N := 3.
Definition OP_NBR_RELAYED : N := 4.

Definition encode_net_bypass_response (resp : NetBypassResponse) : option SmallMessage :=
  let '(op, words) :=
    match resp with
    | Granted handle rx_ring_cap tx_ring_cap ring_len =>
        (OP_NBR_GRANTED, [handle; rx_ring_cap; tx_ring_cap; ring_len])
    | Denied => (OP_NBR_DENIED, [0; 0; 0; 0])
    | Released => (OP_NBR_RELEASED, [0; 0; 0; 0])
    | Relayed => (OP_NBR_RELAYED, [0; 0; 0; 0])
    end%N in
  let n := if (op =? OP_NBR_GRANTED)%N then 4 else 0 in
  pack NetBypass op words n.

Definition decode_net_bypass_response (msg : SmallMessage)
    : outcome DecodeError NetBypassResponse :=
  '(op, w) ← open_msg NetBypass msg;
  if (op =? OP_NBR_GRANTED)%N then
    _ ← need w 4;
    handle ← u32_at w 0; rx_ring_cap ← u32_at w 1; tx_ring_cap ← u32_at w 2;
    ring_len ← u32_at w 3;
    mret (Granted handle rx_ring_cap tx_ring_cap ring_len)
  else if (op =? OP_NBR_DENIED)%N then mret Denied
  else if (op =? OP_NBR_RELEASED)%N then mret Released
  else if (op =? OP_NBR_RELAYED)%N then mret Relayed
  else Err UnknownOpcode.
End NetP.

(** ** Security *)

Module SecurityP.
Inductive SecurityRequest :=
| CapGrant (target_service cap rights : N)
| CapRevoke (cap : N).

Inductive SecurityErrorCode := Unsupported | UnknownService | KernelRejected.

Inductive SecurityResponse :=
| Granted (dst : N)
| Revoked (freed : N)
| Error (code : SecurityErrorCode).

Definition OP_SEC_CAP_GRANT : N := 1.
Definition OP_SEC_CAP_REVOKE : N := 2.

Definition encode_security_request (req : SecurityRequest) : option SmallMessage :=
  let '(op, words) :=
    match req with
    | CapGrant target_service cap rights => (OP_SEC_CAP_GRANT, [target_service; cap; rights])
    | CapRevoke cap => (OP_SEC_CAP_REVOKE, [cap; 0; 0])
    end%N in
  let n := if (op =? OP_SEC_CAP_GRANT)%N then 3 else 1 in
  pack Security op words n.

Definition decode_security_request (msg : SmallMessage)
    : outcome DecodeError SecurityRequest :=
  '(op, w) ← open_msg Security msg;
  if (op =? OP_SEC_CAP_GRANT)%N then
    _ ← need w 3;
    target_service ← u32_at w 0; cap ← u32_at w 1; rights ← u32_at w 2;
    mret (CapGrant target_service cap rights)
  else if (op =? OP_SEC_CAP_REVOKE)%N then
    _ ← need w 1; cap ← u32_at w 0; mret (CapRevoke cap)
  else Err UnknownOpcode.

Definition security_code (code : SecurityErrorCode) : N :=
  match code with Unsupported => 1 | UnknownService => 2 | KernelRejected => 3 end.

Definition security_code_of (w : N) : outcome DecodeError SecurityErrorCode :=
  match w with
  | 1%N => Ok Unsupported
  | 2%N => Ok UnknownService
  | 3%N => Ok KernelRejected
  | _ => Err BadField
  end.

Definition OP_SECR_GRANTED : N := 1.
Definition OP_SECR_REVOKED : N := 2.
Definition OP_SECR_ERROR : N := 3.

Definition encode_security_response (resp : SecurityResponse) : option SmallMessage :=
  let '(op, word) :=
    match resp with
    | Granted dst => (OP_SECR_GRANTED, dst)
    | Revoked freed => (OP_SECR_REVOKED, freed)
    | Error code => (OP_SECR_ERROR, security_code code)
    end in
  pack Security op [word] 1.

(** The length test comes before the opcode is looked at. *)
Definition decode_security_response (msg : SmallMessage)
    : outcome DecodeError SecurityResponse :=
  '(op, w) ← open_msg Security msg;
  _ ← need w 1;
  if (op =? OP_SECR_GRANTED)%N then dst ← u32_at w 0; mret (Granted dst)
  else if (op =? OP_SECR_REVOKED)%N then freed ← u32_at w 0; mret (Revoked freed)
  else if (op =? OP_SECR_ERROR)%N then
    c ← u64_at w 0; code ← security_code_of c; mret (Error code)
  else Err UnknownOpcode.
End SecurityP.

(** ** The family of codecs *)

Inductive Proto :=
| FsReq | FsResp | DriverReq | DriverResp | DisplayReq | DisplayResp
| MmReq | MmResp | NetReq | NetResp | SecurityReq | SecurityResp.

Definition payload (p : Proto) : Type :=
  match p with
  | FsReq => FsP.FsRequest
  | FsResp => FsP.FsResponse
  | DriverReq => DriverP.DriverRequest
  | DriverResp => DriverP.DriverResponse
  | DisplayReq => DisplayP.DisplayRequest
  | DisplayResp => DisplayP.DisplayResponse
  | MmReq => MmP.MmRequest
  | MmResp => MmP.MmResponse
  | NetReq => NetP.NetBypassRequest
  | NetResp => NetP.NetBypassResponse
  | SecurityReq => SecurityP.SecurityRequest
  | SecurityResp => SecurityP.SecurityResponse
  end.

Definition proto_ns (p : Proto) : Namespace :=
  match p with
  | FsReq | FsResp => Fs
  | DriverReq | DriverResp => Driver
  | DisplayReq | DisplayResp => Display
  | MmReq | MmResp => Mm
  | NetReq | NetResp => NetBypass
  | SecurityReq | SecurityResp => Security
  end.

Section family.
Context {FB : FlagBits}.

Definition encode (p : Proto) : payload p → option SmallMessage :=
  match p with
  | FsReq => FsP.encode_fs_request
  | FsResp => FsP.encode_fs_response
  | DriverReq => DriverP.encode_driver_request
  | DriverResp => DriverP.encode_driver_response
  | DisplayReq => DisplayP.encode_display_request
  | DisplayResp => DisplayP.encode_display_response
  | MmReq => MmP.encode_mm_request
  | MmResp => MmP.encode_mm_response
  | NetReq => NetP.encode_net_bypass_request
  | NetResp => NetP.encode_net_bypass_response
  | SecurityReq => SecurityP.encode_security_request
  | SecurityResp => SecurityP.encode_security_response
  end.

Definition decode (p : Proto) : SmallMessage → outcome DecodeError (payload p) :=
  match p with
  | FsReq => FsP.decode_fs_request
  | FsResp => FsP.decode_fs_response
  | DriverReq => DriverP.decode_driver_request
  | DriverResp => DriverP.decode_driver_response
  | DisplayReq => DisplayP.decode_display_request
  | DisplayResp => DisplayP.decode_display_response
  | MmReq => MmP.decode_mm_request
  | MmResp => MmP.decode_mm_response
  | NetReq => NetP.decode_net_bypass_request
  | NetResp => NetP.decode_net_bypass_response
  | SecurityReq => SecurityP.decode_security_request
  | SecurityResp => SecurityP.decode_security_response
  end.
End family.

(** The values a Rust value of the type can have. *)
Abbreviation u32 x := (x < U32)%N (only parsing).
Abbreviation u64 x := (x < U64)%N (only parsing).

Definition in_range (p : Proto) : payload p → Prop :=
  match p with
  | FsReq => λ r, match r with
      | FsP.Open path flags => u32 path ∧ N.land flags 63 = flags
      | FsP.Read h o l c | FsP.Write h o l c => u32 h ∧ u64 o ∧ u32 l ∧ u32 c
      | FsP.Stat x | FsP.Close x => u32 x
      end
  | FsResp => λ r, match r with
      | FsP.Opened x | FsP.ReadDone x | FsP.Written x => u32 x
      | FsP.StatDone size _ => u64 size
      | FsP.Closed | FsP.Error _ => True
      end
  | DriverReq => λ r, match r with
      | DriverP.Irq x | DriverP.SendFrame x => u32 x
      | DriverP.ReadBlocks l n c | DriverP.WriteBlocks l n c => u64 l ∧ u32 n ∧ u32 c
      | DriverP.Probe | DriverP.Quiesce | DriverP.PollFrame => True
      end
  | DriverResp => λ r, match r with
      | DriverP.Ready s n => u32 s ∧ u64 n
      | DriverP.Completed x | DriverP.FrameReceived x => u32 x
      | DriverP.Failed _ | DriverP.FrameSent => True
      end
  | DisplayReq => λ r, match r with
      | DisplayP.CommitBuffer s b w h => u32 s ∧ u32 b ∧ u32 w ∧ u32 h
      | DisplayP.DestroySurface x => u32 x
      | DisplayP.CreateSurface | DisplayP.SubscribeInput | DisplayP.QueryOutputs => True
      end
  | DisplayResp => λ r, match r with
      | DisplayP.SurfaceCreated x => u32 x
      | DisplayP.OutputTopology n w h f => u32 n ∧ u32 w ∧ u32 h ∧ u32 f
      | DisplayP.Committed | DisplayP.Destroyed | DisplayP.InputSubscribed
      | DisplayP.Error _ => True
      end
  | MmReq => λ r, match r with
      | MmP.Register t n _ => u32 t ∧ u64 n
      | MmP.Unregister t => u32 t
      | MmP.RegisterSwapRegion t i n l => u32 t ∧ u32 i ∧ u64 n ∧ u64 l
      | MmP.UnregisterSwapRegion t i => u32 t ∧ u32 i
      | MmP.RegisterComputePool i _ c n => u32 i ∧ u64 c ∧ u64 n
      | MmP.QueryComputePool n _ => u64 n
      | MmP.QueryVictim | MmP.QueryTotalResident | MmP.QuerySwapVictim => True
      end
  | MmResp => λ r, match r with
      | MmP.Victim x | MmP.ComputePoolChosen x => u32 x
      | MmP.TotalResident n => u64 n
      | MmP.SwapVictim t i => u32 t ∧ u32 i
      | _ => True
      end
  | NetReq => λ r, match r with
      | NetP.RequestDirectNic x | NetP.Release x => u32 x
      | NetP.RelayFrame => True
      end
  | NetResp => λ r, match r with
      | NetP.Granted h a b n => u32 h ∧ u32 a ∧ u32 b ∧ u32 n
      | NetP.Denied | NetP.Released | NetP.Relayed => True
      end
  | SecurityReq => λ r, match r with
      | SecurityP.CapGrant t c n => u32 t ∧ u32 c ∧ u32 n
      | SecurityP.CapRevoke c => u32 c
      end
  | SecurityResp => λ r, match r with
      | SecurityP.Granted x | SecurityP.Revoked x => u32 x
      | SecurityP.Error _ => True
      end
  end.

(** ** The wire format

    The words of every message, written as a table: the tests of the decoders and the
    values they return are stated with it. *)

(** A field: a number of 32 or 64 bits, a truth value, the flags of [Open], a code
    between two bounds, and a code that may be missing, in two words. *)
Inductive Field := F32 | F64 | FBool | FFlags | FCode (lo hi : N) | FOption (lo hi : N).

(** The fields of the messages with opcodes [1], [2], ... *)
Definition layouts (p : Proto) : list (list Field) :=
  match p with
  | FsReq => [[F32; FFlags]; [F32; F64; F32; F32]; [F32; F64; F32; F32]; [F32]; [F32]]
  | FsResp => [[F32]; [F32]; [F32]; [F64; FBool]; []; [FCode 1 7]]
  | DriverReq => [[]; [F32]; [F64; F32; F32]; [F64; F32; F32]; []; [F32]; []]
  | DriverResp => [[F32; F64]; [F32]; [FCode 1 7]; []; [F32]]
  | DisplayReq => [[]; [F32; F32; F32; F32]; [F32]; []; []]
  | DisplayResp => [[F32]; []; []; []; [F32; F32; F32; F32]; [FCode 1 3]]
  | MmReq => [[F32; F64; FCode 0 2]; [F32]; []; []; [F32; F32; F64; F64]; [F32; F32]; [];
              [F32; FCode 0 4; F64; F64]; [F64; FOption 0 4]]
  | MmResp => [[]; []; [F32]; [F64]; [FCode 1 1]; []; []; [F32; F32]; []; [F32]]
  | NetReq => [[F32]; [F32]; []]
  | NetResp => [[F32; F32; F32; F32]; []; []; []]
  | SecurityReq => [[F32; F32; F32]; [F32]]
  | SecurityResp => [[F32]; [F32]; [FCode 1 3]]
  end.

Definition layout (p : Proto) (op : N) : option (list Field) :=
  if (op =? 0)%N then None else layouts p !! N.to_nat (op - 1).

Definition field_width (f : Field) : nat := match f with FOption _ _ => 2 | _ => 1 end.

Definition between (lo hi w : N) : bool := (lo <=? w)%N && (w <=? hi)%N.

(** Is the field valid, and the words it stands for: a field of 32 bits is cut off. *)
Definition field_ok (f : Field) (w : list N) : bool :=
  match f, w with
  | FFlags, w :: _ => (N.land (truncate U32 w) 63 =? truncate U32 w)%N
  | FCode lo hi, w :: _ => between lo hi w
  | FOption lo hi, has :: w :: _ => (has =? 0)%N || (has =? 1)%N && between lo hi w
  | _, _ => true
  end.

Definition field_value (f : Field) (w : list N) : list N :=
  match f, w with
  | (F32 | FFlags), w :: _ => [truncate U32 w]
  | (F64 | FCode _ _), w :: _ => [w]
  | FBool, w :: _ => [N.b2n (negb (w =? 0)%N)]
  | FOption _ _, has :: w :: _ => if (has =? 0)%N then [0; 0]%N else [has; w]
  | _, _ => []
  end.

Fixpoint fields_ok (fs : list Field) (w : list N) : bool :=
  match fs with
  | [] => true
  | f :: fs => field_ok f w && fields_ok fs (drop (field_width f) w)
  end.

Fixpoint fields_value (fs : list Field) (w : list N) : list N :=
  match fs with
  | [] => []
  | f :: fs => field_value f w ++ fields_value fs (drop (field_width f) w)
  end.

(** The tests of an open message: the opcode, the number of words, the fields.  The
    responses of the security service are tested for a first word before anything
    else. *)
Definition body_tests (p : Proto) (op : N) (w : list N) : list (DecodeError * bool) :=
  match p with SecurityResp => [(Truncated, 1 <=? length w)] | _ => [] end ++
  match layout p op with
  | None => [(UnknownOpcode, false)]
  | Some fs => [(Truncated, sum_list_with field_width fs <=? length w); (BadField, fields_ok fs w)]
  end.

(** All tests of a message, in order. *)
Definition decode_tests (p : Proto) (m : SmallMessage) : list (DecodeError * bool) :=
  let '(version, op) := label_parts (msg_label m) in
  (WrongNamespace, bool_decide (from_label (msg_label m) = Some (proto_ns p))) ::
  (VersionMismatch, version =? PROTOCOL_VERSION)%N ::
  body_tests p op (take (N.to_nat (msg_len m)) (msg_words m)).

(** The words that the fields of an accepted message stand for. *)
Definition decoded_words (p : Proto) (op : N) (w : list N) : list N :=
  fields_value (default [] (layout p op)) w.

(** ** Labels *)

Definition opcodes : list N := N.of_nat <$> seq 0 256.

Lemma opcodes_elem op : (op < U8)%N → op ∈ opcodes.
Proof.
  intros H. unfold opcodes. apply list_elem_of_fmap. exists (N.to_nat op).
  split; [by rewrite N2Nat.id|]. apply elem_of_seq. lia.
Qed.

Lemma label_fields ns op :
  (op < U8)%N →
  from_label (label ns op) = Some ns ∧ label_parts (label ns op) = (PROTOCOL_VERSION, op) ∧
  (label ns op < U64)%N.
Proof.
  intros Hop%opcodes_elem. revert op Hop. apply Forall_forall.
  assert (∀ ns, forallb (λ op,
    bool_decide (from_label (label ns op) = Some ns) &&
    bool_decide (label_parts (label ns op) = (PROTOCOL_VERSION, op)) &&
    (label ns op <? U64)%N) opcodes = true) as H by (intros []; vm_compute; reflexivity).
  apply Forall_forall. intros op Hop. specialize (H ns). rewrite forallb_forall in H.
  specialize (H op). rewrite <- list_elem_of_In in H. specialize (H Hop).
  apply andb_prop in H as [[H1 H2]%andb_prop H3].
  apply bool_decide_eq_true in H1, H2. apply N.ltb_lt in H3. done.
Qed.

Lemma label_fields_inj ns ns' op : (op < U8)%N → from_label (label ns op) = Some ns' → ns' = ns.
Proof. intros H. rewrite (proj1 (label_fields ns op H)). by intros [= ->]. Qed.

(** A packed message opens to its opcode and its words, and only in its own
    namespace. *)
Lemma pack_opens ns op ws n :
  (op < U8)%N → n ≤ length ws ≤ MSG_MAX_WORDS →
  ∃ m, pack ns op ws n = Some m ∧ msg_wf m ∧ msg_label m = label ns op ∧
       words m = Some (take n ws) ∧ open_msg ns m = Ok (op, take n ws).
Proof.
  intros Hop [Hn Hl]. unfold pack. rewrite (proj2 (Nat.ltb_ge _ _)) by done.
  destruct (from_words_spec (label ns op) (take n ws)) as (m & -> & Hm & Hlab & Hw).
  { rewrite length_take. lia. }
  exists m. split_and!; try done. unfold open_msg. rewrite Hlab.
  destruct (label_fields ns op Hop) as (-> & -> & _). by rewrite decide_True, Hw.
Qed.

(** What opening a message finds, in the order of the tests. *)
Lemma open_msg_cases ns m w :
  words m = Some w →
  (from_label (msg_label m) ≠ Some ns ∧ open_msg ns m = Err WrongNamespace) ∨
  (from_label (msg_label m) = Some ns ∧
   ((label_parts (msg_label m)).1 ≠ PROTOCOL_VERSION ∧ open_msg ns m = Err VersionMismatch ∨
    (label_parts (msg_label m)).1 = PROTOCOL_VERSION ∧
    open_msg ns m = Ok ((label_parts (msg_label m)).2, w))).
Proof.
  intros Hw. unfold open_msg. case_decide; [right|by left]. split; [done|].
  destruct (label_parts (msg_label m)) as [v op]. simpl.
  destruct (N.eqb_spec v PROTOCOL_VERSION); [right|by left]. by rewrite Hw.
Qed.

Lemma truncate_small w x : (x < w)%N → truncate w x = x.
Proof. apply N.mod_small. Qed.

Lemma truncate_lt w x : (w ≠ 0)%N → (truncate w x < w)%N.
Proof. apply N.mod_lt. Qed.

(** What a decoder returns once the message is open: the error of the first failed
    test, or a value that is encoded with the words of the fields. *)
Definition body_post {FB : FlagBits} (p : Proto) (op : N) (w : list N) (r : outcome DecodeError (payload p)) : Prop :=
  match r with
  | Ok r =>
      first_failure (body_tests p op w) = None ∧ in_range p r ∧
      ∃ ws n pad, encode p r = pack (proto_ns p) op ws n ∧ n ≤ length ws ≤ MSG_MAX_WORDS ∧
        take n ws = decoded_words p op w ++ pad
  | Err e => first_failure (body_tests p op w) = Some e
  | Panic => False
  end.

(** ** Decoding *)

(** The opcodes as numbers. *)
Ltac opcode_values :=
  repeat match goal with
  | H : _ ≠ ?c |- _ => let v := eval vm_compute in c in progress change c with v in H
  end.

(** The codes as numbers, and their table. *)
Ltac unfold_codes :=
  unfold FsP.fs_code_of, DriverP.driver_code_of, DisplayP.display_code_of, MmP.class_of,
    MmP.decode_compute_kind, MmP.mm_code_of, SecurityP.security_code_of.

Ltac case_code :=
  unfold_codes;
  match goal with
  | |- context [match ?x with 0%N => _ | _ => _ end] => is_var x; destruct x as [|x]
  | |- context [match ?x with xI _ => _ | _ => _ end] => is_var x; destruct x as [x|x|]
  end; cbn -[truncate pack N.lt N.le in_range encode N.land].

Ltac layout_value :=
  repeat match goal with
  | |- context [layout ?p ?op] => let l := eval vm_compute in (layout p op) in change (layout p op) with l
  end.

(** The words of a message, as far as a decoder reads them. *)
Ltac split_words Hw :=
  lazymatch type of Hw with Forall _ ?w => is_var w; destruct w as [|? [|? [|? [|? ?]]]] end;
  repeat match goal with
  | H : Forall _ (_ :: _) |- _ => let H1 := fresh in apply Forall_cons in H as [H1 H]
  end.

Lemma from_bits_open {FB : FlagBits} {FBS : FlagBitsSpec FB} b :
  fl_from_bits open_flags b = if (N.land b 63 =? b)%N then Some b else None.
Proof. by rewrite fl_from_bits_spec. Qed.

Lemma layout_unknown p op : (op = 0 ∨ N.of_nat (length (layouts p)) < op)%N → layout p op = None.
Proof.
  intros H. unfold layout. destruct (N.eqb_spec op 0); [done|]. apply lookup_ge_None. lia.
Qed.

(** A decoder after the header: [decode p m] is [body] of the open message. *)
Lemma decode_open {FB : FlagBits} {FBS : FlagBitsSpec FB} p :
  ∃ body, (∀ m, decode p m = '(op, w) ← open_msg (proto_ns p) m; body op w) ∧
          ∀ op w, Forall (λ x, u64 x) w → body_post p op w (body op w).
Proof.
  destruct p; eexists (λ op w, _); (split; [intros m; reflexivity|]); intros op w Hw.
  all: repeat match goal with
  | |- context [if (?op =? ?c)%N then _ else _] => destruct (N.eqb_spec op c); [subst op|]
  end.
  all: unfold body_post, body_tests, decoded_words.
  all: try (rewrite layout_unknown by (simpl layouts; simpl length; opcode_values; lia); split_words Hw; reflexivity).
  all: layout_value; split_words Hw; unfold need, u32_at, u64_at; cbn -[truncate pack N.lt N.le in_range encode N.land fl_from_bits];
    rewrite ?from_bits_open; try done.
  all: repeat (case_code; try done).
  all: try match goal with |- context [(N.land ?x ?y =? ?z)%N] => destruct (N.eqb_spec (N.land x y) z) end;
    cbn -[truncate pack N.lt N.le in_range encode N.land]; try done.
  all: try (split; [reflexivity|]; split; [cbn -[N.lt truncate]; split_and?; try done; try (by apply truncate_lt)|]).
  all: try (cbn -[truncate pack N.lt N.land]; eexists _, _, _; split; [reflexivity|]; rewrite ?fl_bits_spec; split; [unfold MSG_MAX_WORDS; simpl; lia|by rewrite ?app_nil_r]).
  all: by rewrite (proj2 (N.leb_gt _ _)) by lia.
Qed.

Ltac unfold_decoders :=
  unfold FsP.decode_fs_request, FsP.decode_fs_response, DriverP.decode_driver_request,
    DriverP.decode_driver_response, DisplayP.decode_display_request,
    DisplayP.decode_display_response, MmP.decode_mm_request, MmP.decode_mm_response,
    NetP.decode_net_bypass_request, NetP.decode_net_bypass_response,
    SecurityP.decode_security_request, SecurityP.decode_security_response.

(** What each encoder packs, and that the words it keeps hold the value, also
    when more words follow them. *)
Lemma encode_packs {FB : FlagBits} {FBS : FlagBitsSpec FB} p (r : payload p) :
  in_range p r →
  ∃ op ws n, encode p r = pack (proto_ns p) op ws n ∧ (op < U8)%N ∧
    n ≤ length ws ≤ MSG_MAX_WORDS ∧ Forall (λ x, u64 x) ws ∧
    ∀ m pad, open_msg (proto_ns p) m = Ok (op, take n ws ++ pad) → decode p m = Ok r.
Proof.
  assert (∀ f, N.land f 63 = f → (f < U32)%N) as Hflags.
  { intros f <-. change 63%N with (N.ones 6). rewrite N.land_ones.
    pose proof (N.mod_lt f (2 ^ 6)). lia. }
  destruct p, r; cbn -[N.lt truncate pack open_msg]; intros Hr.
  all: try match goal with c : FsP.FsErrorCode |- _ => destruct c end.
  all: try match goal with c : DriverP.DriverErrorCode |- _ => destruct c end.
  all: try match goal with c : DisplayP.DisplayErrorCode |- _ => destruct c end.
  all: try match goal with c : MmP.MmErrorCode |- _ => destruct c end.
  all: try match goal with c : SecurityP.SecurityErrorCode |- _ => destruct c end.
  all: try match goal with c : MmP.ReclaimClass |- _ => destruct c end.
  all: try match goal with c : option MmP.ComputeKind |- _ => destruct c end.
  all: try match goal with c : MmP.ComputeKind |- _ => destruct c end.
  all: try match goal with b : bool |- _ => destruct b end.
  all: eexists _, _, _; (split; [reflexivity|]).
  all: rewrite ?fl_bits_spec; (split; [reflexivity|]); (split; [unfold MSG_MAX_WORDS; simpl; lia|]).
  all: (split; [repeat constructor; cbn -[N.lt]; destruct_and?; try done; try lia|]).
  all: try (apply N.lt_trans with U32; [by apply Hflags|done]).
  all: intros m pad Ho; unfold_decoders; rewrite Ho; cbn -[truncate N.lt].
  all: destruct_and?; rewrite ?truncate_small by (first [done|by apply Hflags]); try reflexivity.
  by rewrite from_bits_open, (proj2 (N.eqb_eq _ _)) by done.
Qed.

(** ** The contract of the codecs *)

(** C31 Round trip: every value of each of the twelve request and response types
    encodes, without a panic, to a well-formed message from which its decoder
    reads the same value back; the decoders of all other namespaces refuse
    that message. *)
Theorem protocol_roundtrip {FB : FlagBits} {FBS : FlagBitsSpec FB} p (r : payload p) :
  in_range p r →
  ∃ m, encode p r = Some m ∧ msg_wf m ∧ (msg_label m < U64)%N ∧
    decode p m = Ok r ∧
    ∀ q, proto_ns q ≠ proto_ns p → decode q m = Err WrongNamespace.
Proof.
  intros Hr. destruct (encode_packs p r Hr) as (op & ws & n & -> & Hop & Hn & Hws & Hdec).
  destruct (pack_opens (proto_ns p) op ws n Hop Hn) as (m & -> & Hm & Hl & Hw & Ho).
  exists m. split_and!; [done|done| |by apply (Hdec m []); rewrite app_nil_r|].
  - rewrite Hl. by apply label_fields.
  - intros q Hq. destruct (decode_open q) as (body & -> & _).
    destruct (open_msg_cases (proto_ns q) m _ Hw) as [[_ ->]|[H _]]; [done|].
    rewrite Hl in H. by apply label_fields_inj in H.
Qed.

Definition sample_register : payload MmReq :=
  MmP.QueryComputePool 4096 (Some MmP.Npu).

Lemma protocol_roundtrip_witness :
  in_range MmReq sample_register ∧
  ∃ m, encode MmReq sample_register = Some m ∧ msg_wf m ∧ (msg_label m < U64)%N ∧
    decode MmReq m = Ok sample_register ∧
    ∀ q, proto_ns q ≠ Mm → decode q m = Err WrongNamespace.
Proof. split; [reflexivity|apply (protocol_roundtrip MmReq); reflexivity]. Defined.

(** C32 Decoding is total: on every message it returns, without a panic, the error of
    the first failed test - the namespace, the version, the opcode, the number of words
    that the fields of this opcode need, the validity of its flags and codes (in the
    responses of the security service, a first word is asked for before the opcode) -
    or, if all tests pass, a value whose fields are in range and whose encoding has
    exactly the words of the message, those of 32-bit fields cut off to their width,
    without an error, and truth values as zero or one. *)
Theorem decode_total {FB : FlagBits} {FBS : FlagBitsSpec FB} p m :
  msg_wf m → Forall (λ x, u64 x) (msg_words m) →
  match decode p m with
  | Ok r =>
      first_failure (decode_tests p m) = None ∧ in_range p r ∧
      ∃ m' w pad, encode p r = Some m' ∧ msg_wf m' ∧ words m' = Some w ∧
        let op := (label_parts (msg_label m)).2 in
        msg_label m' = label (proto_ns p) op ∧
        w = decoded_words p op (take (N.to_nat (msg_len m)) (msg_words m)) ++ pad
  | Err e => first_failure (decode_tests p m) = Some e
  | Panic => False
  end.
Proof.
  intros Hm Hws. pose proof (words_take m Hm) as Hw.
  destruct (decode_open p) as (body & -> & Hb). unfold decode_tests, open_msg. rewrite Hw.
  assert ((label_parts (msg_label m)).2 < U8)%N as Hop by by apply truncate_lt.
  destruct (label_parts (msg_label m)) as [v op]. cbn [fst snd first_failure] in *.
  destruct (decide _) as [Hns|Hns]; [rewrite bool_decide_true by done|by rewrite bool_decide_false by done].
  destruct (v =? PROTOCOL_VERSION)%N; [|done]. cbn [negb or_panic mbind outcome_bind mret outcome_ret].
  specialize (Hb op _ (Forall_take _ (N.to_nat (msg_len m)) _ Hws)). revert Hb. unfold body_post.
  destruct (body op _) as [r|e|]; [|done..]. intros (Ht & Hr & ws & n & pad & -> & Hn & Hv).
  split; [done|]. split; [done|]. destruct (pack_opens (proto_ns p) op ws n Hop Hn) as (m' & Hp & Hm' & Hl & Hw' & _).
  exists m', (take n ws), pad. by rewrite Hp.
Qed.

Definition sample_frame : SmallMessage := mkMessage (label Driver 6) [U64 - 1; 0; 0; 0; 0; 0]%N 1.

(** A value, a code out of range and a missing word. *)
Lemma decode_total_witness :
  msg_wf sample_frame ∧ Forall (λ x, u64 x) (msg_words sample_frame) ∧
  decode DriverReq sample_frame = Ok (DriverP.SendFrame (U32 - 1)) ∧
  (first_failure (decode_tests DriverReq sample_frame) = None ∧ in_range DriverReq (DriverP.SendFrame (U32 - 1)) ∧
   ∃ m' w pad, encode DriverReq (DriverP.SendFrame (U32 - 1)) = Some m' ∧ msg_wf m' ∧ words m' = Some w ∧
     msg_label m' = label Driver 6 ∧ w = [U32 - 1]%N ++ pad) ∧
  decode DriverResp (mkMessage (label Driver 3) [9; 0; 0; 0; 0; 0]%N 1) = Err BadField ∧
  decode DriverReq (mkMessage (label Driver 6) [9; 0; 0; 0; 0; 0]%N 0) = Err Truncated.
Proof.
  assert (msg_wf sample_frame) as Hm by (split; vm_compute; [reflexivity|discriminate]).
  assert (Forall (λ x, u64 x) (msg_words sample_frame)) as Hw by (repeat constructor).
  assert (decode DriverReq sample_frame = Ok (DriverP.SendFrame (U32 - 1))) as Hd by reflexivity.
  assert ((label_parts (msg_label sample_frame)).2 = 6%N) as Hop by reflexivity.
  pose proof (decode_total DriverReq sample_frame Hm Hw) as H. rewrite Hd, Hop in H.
  split; [exact Hm|]. split; [exact Hw|]. split; [exact Hd|]. split; [exact H|by split].
Defined.

(** A field wider than its type is cut off without an error: [SendFrame] with
    the length [2^64 - 1] decodes to the length [2^32 - 1]. *)
Example decode_truncates :
  decode DriverReq (mkMessage (label Driver 6) [U64 - 1; 0; 0; 0; 0; 0]%N 1)
  = Ok (DriverP.SendFrame (U32 - 1)).
Proof. reflexivity. Qed.
