(* ===== verification/Weight.v ===== *)
(** * Scheduling weights

    [kernel/kernel-sched/src/weight.rs]: the fixed-point weight of a thread
    and the advance of its virtual runtime.  [u128] intermediates are exact
    here: the products stay below [2^128] for 64-bit arguments. *)

From S2P Require Import Prelude.

Definition WEIGHT_FRAC_BITS : N := 10.
Definition WEIGHT_ONE : N := N.shiftl 1 WEIGHT_FRAC_BITS.
Definition AGING_FACTOR_FP : N := 20.
Definition AGING_CAP_MS : N := 50.
Definition NUMA_LOCALITY_BONUS_FP : N := 1138.
Definition NUMA_NEUTRAL_FP : N := WEIGHT_ONE.
Definition MAX_PRIORITY : N := 39.

Definition base_priority_weight_fp (priority : N) : N :=
  let p := N.min priority MAX_PRIORITY in
  WEIGHT_ONE + p * (3 * WEIGHT_ONE) / MAX_PRIORITY.

Definition effective_weight_fp (base_fp wait_time_ms : N) (numa_local : bool) : N :=
  let capped_wait := N.min wait_time_ms AGING_CAP_MS in
  let aging_mul_fp := (WEIGHT_ONE + AGING_FACTOR_FP * capped_wait)%N in
  let numa_fp := if numa_local then NUMA_LOCALITY_BONUS_FP else NUMA_NEUTRAL_FP in
  let e := N.shiftr (base_fp * aging_mul_fp) WEIGHT_FRAC_BITS in
  let e := N.shiftr (e * numa_fp) WEIGHT_FRAC_BITS in
  N.max (truncate U64 e) 1.

Definition vruntime_next (vruntime_current actual_runtime_ns weight_fp : N) : N :=
  let w := N.max weight_fp 1 in
  let inc := truncate U64 (actual_runtime_ns * WEIGHT_ONE / w) in
  saturating_add U64 vruntime_current inc.

(** ** Bounds *)

Lemma WEIGHT_ONE_val : WEIGHT_ONE = 1024%N.
Proof. done. Qed.

Lemma base_weight_bounds p : (1024 ≤ base_priority_weight_fp p ≤ 4096)%N.
Proof.
  unfold base_priority_weight_fp. rewrite WEIGHT_ONE_val. unfold MAX_PRIORITY. cbv zeta.
  set (q := (N.min p 39 * (3 * 1024) / 39)%N). assert (q ≤ 3072)%N; [|clearbody q; lia].
  apply N.Div0.div_le_upper_bound. lia.
Qed.

Lemma base_weight_mono p q : (p ≤ q)%N → (base_priority_weight_fp p ≤ base_priority_weight_fp q)%N.
Proof.
  intros H. unfold base_priority_weight_fp. rewrite WEIGHT_ONE_val. unfold MAX_PRIORITY.
  apply N.add_le_mono_l, N.Div0.div_le_mono. lia.
Qed.

Lemma shiftr10 a : N.shiftr a 10 = (a / 1024)%N.
Proof. by rewrite N.shiftr_div_pow2. Qed.

(** The factors of a weight, for a base weight the table can produce: nothing
    is truncated. *)
Lemma effective_weight_exact base wait (local : bool) :
  (1024 ≤ base ≤ 4096)%N →
  let a := (1024 + 20 * N.min wait 50)%N in
  let n := if local then 1138%N else 1024%N in
  effective_weight_fp base wait local = (base * a / 1024 * n / 1024)%N ∧
  (base ≤ base * a / 1024 * n / 1024 ≤ 9007)%N.
Proof.
  intros Hb a n. unfold effective_weight_fp. fold a. unfold WEIGHT_FRAC_BITS.
  rewrite !shiftr10. change (if local then NUMA_LOCALITY_BONUS_FP else NUMA_NEUTRAL_FP) with n.
  change (WEIGHT_ONE + AGING_FACTOR_FP * N.min wait AGING_CAP_MS)%N with a.
  assert (1024 ≤ a ≤ 2024)%N by (subst a; lia).
  assert (1024 ≤ n ≤ 1138)%N by (subst n; destruct local; lia).
  assert (base ≤ base * a / 1024)%N as Hlo.
  { apply N.div_le_lower_bound; nia. }
  assert (base * a / 1024 ≤ 8096)%N as Hhi.
  { apply N.Div0.div_le_upper_bound. nia. }
  set (x := (base * a / 1024)%N) in *.
  assert (base ≤ x * n / 1024)%N.
  { apply N.div_le_lower_bound; nia. }
  assert (x * n / 1024 ≤ 9007)%N.
  { assert (x * n / 1024 < 9008)%N; [|lia]. apply N.Div0.div_lt_upper_bound. nia. }
  unfold truncate. rewrite N.mod_small by lia. lia.
Qed.

Lemma effective_weight_ge base wait local :
  (1024 ≤ base ≤ 4096)%N → (1024 ≤ effective_weight_fp base wait local)%N.
Proof. intros Hb. destruct (effective_weight_exact base wait local Hb) as [-> ?]. lia. Qed.

(** Waiting and locality raise a weight by at most 2.2. *)
Lemma effective_weight_factor base wait local :
  (1024 ≤ base ≤ 4096)%N → (base ≤ effective_weight_fp base wait local ∧ 5 * effective_weight_fp base wait local ≤ 11 * base)%N.
Proof.
  intros Hb. destruct (effective_weight_exact base wait local Hb) as [-> [Hlo _]]. split; [exact Hlo|].
  set (a := (1024 + 20 * N.min wait 50)%N). set (n := if local then 1138%N else 1024%N).
  assert (a ≤ 2024)%N by (subst a; lia). assert (n ≤ 1138)%N by (subst n; destruct local; lia).
  pose proof (N.Div0.mul_div_le (base * a) 1024) as H1.
  pose proof (N.Div0.mul_div_le (base * a / 1024 * n) 1024) as H2. nia.
Qed.

(** What a slice of [ran] nanoseconds costs: between the run time over 2.2 times the
    base weight and the run time over the base weight, in units of 1024. *)
Lemma slice_cost base wait local ran :
  (1024 ≤ base ≤ 4096)%N →
  let c := (ran * 1024 / effective_weight_fp base wait local)%N in
  (base * c ≤ 1024 * ran ∧ 5 * (1024 * ran) ≤ 11 * base * (c + 1))%N.
Proof.
  intros Hb c. destruct (effective_weight_factor base wait local Hb) as [Hlo Hhi].
  set (w := effective_weight_fp base wait local) in *.
  pose proof (N.Div0.mul_div_le (ran * 1024) w) as H1.
  pose proof (N.mul_succ_div_gt (ran * 1024) w ltac:(lia)) as H2. fold c in H1, H2. nia.
Qed.

(** ** Virtual runtime *)

Lemma vruntime_next_mono v ran w : (v < U64)%N → (v ≤ vruntime_next v ran w)%N.
Proof. unfold vruntime_next, saturating_add. lia. Qed.

Lemma vruntime_next_lt v ran w : (vruntime_next v ran w < U64)%N.
Proof. unfold vruntime_next, saturating_add. lia. Qed.

(** With a weight of at least one, the increment is at most the run time and
    is not truncated. *)
Lemma vruntime_next_exact v ran w :
  (1024 ≤ w)%N → (ran < U64)%N →
  vruntime_next v ran w = N.min (v + ran * 1024 / w) (U64 - 1) ∧ (ran * 1024 / w ≤ ran)%N.
Proof.
  intros Hw Hr. unfold vruntime_next, saturating_add, truncate. rewrite WEIGHT_ONE_val.
  rewrite (N.max_l w 1) by lia.
  assert (ran * 1024 / w ≤ ran)%N.
  { apply N.Div0.div_le_upper_bound. nia. }
  rewrite (N.mod_small (ran * 1024 / w)) by lia. done.
Qed.

(** ** Properties *)

(** The weight of a thread is monotone in its priority, its waiting time
    and its locality, and lies between 1.0 and 8.8 in fixed point: no
    intermediate is truncated and the divisor is never zero. *)
Theorem effective_weight_monotone p p' wait wait' local local' :
  (p ≤ p')%N → (wait ≤ wait')%N → (local = true → local' = true) →
  (1024 ≤ effective_weight_fp (base_priority_weight_fp p) wait local ≤
   effective_weight_fp (base_priority_weight_fp p') wait' local' ≤ 9007)%N.
Proof.
  intros Hp Hw Hl.
  pose proof (base_weight_bounds p) as Hb. pose proof (base_weight_bounds p') as Hb'.
  pose proof (base_weight_mono _ _ Hp) as Hm.
  destruct (effective_weight_exact _ wait local Hb) as [-> Hlo].
  destruct (effective_weight_exact _ wait' local' Hb') as [-> Hhi].
  split; [lia|]. split; [|lia].
  clear -Hm Hw Hl. apply N.Div0.div_le_mono, N.mul_le_mono.
  - apply N.Div0.div_le_mono, N.mul_le_mono; [done|lia].
  - destruct local, local'; lia.
Qed.

Lemma effective_weight_monotone_witness :
  (1024 ≤ effective_weight_fp (base_priority_weight_fp 3) 0 false ≤
   effective_weight_fp (base_priority_weight_fp 39) 70 true ≤ 9007)%N.
Proof. apply (effective_weight_monotone 3 39 0 70 false true); [lia|lia|done]. Defined.

(** Virtual time: for a weight the scheduler computes, a run slice
    advances the virtual runtime by [ran * 1024 / w], saturating; the advance
    never exceeds the run time, grows with it and shrinks with the weight. *)
Theorem vruntime_next_fair v ran ran' w w' :
  (1024 ≤ w)%N → (w ≤ w')%N → (ran ≤ ran')%N → (ran' < U64)%N → (v < U64)%N →
  (v ≤ vruntime_next v ran w' ≤ vruntime_next v ran' w)%N ∧
  (vruntime_next v ran' w ≤ v + ran')%N ∧
  vruntime_next v ran 1024 = N.min (v + ran) (U64 - 1).
Proof.
  intros Hw Hw' Hr Hr' Hv.
  destruct (vruntime_next_exact v ran w') as [-> ?]; [lia..|].
  destruct (vruntime_next_exact v ran' w) as [-> ?]; [lia..|].
  destruct (vruntime_next_exact v ran 1024) as [-> ?]; [lia..|].
  rewrite N.div_mul by lia.
  assert (ran * 1024 / w' ≤ ran' * 1024 / w)%N as Hle.
  { trans (ran' * 1024 / w')%N; [apply N.Div0.div_le_mono; lia|].
    apply N.div_le_compat_l. lia. }
  revert Hle. generalize dependent (ran * 1024 / w')%N.
  generalize dependent (ran' * 1024 / w)%N. lia.
Qed.

Lemma vruntime_next_fair_witness :
  (5 ≤ vruntime_next 5 10 4096 ≤ vruntime_next 5 20 1024)%N ∧
  (vruntime_next 5 20 1024 ≤ 5 + 20)%N ∧
  vruntime_next 5 10 1024 = N.min (5 + 10) (U64 - 1).
Proof. apply (vruntime_next_fair 5 10 20 1024 4096); lia. Defined.

(** Below a weight of 1.0 the advance is truncated to 64 bits instead of
    saturating: the largest run times advance the clock by nothing. *)
Theorem vruntime_next_truncates v :
  (v < U64)%N → vruntime_next v (2 ^ 54) 1 = v.
Proof. unfold vruntime_next, saturating_add, truncate. rewrite WEIGHT_ONE_val. intros.
  change (2 ^ 54 * 1024 / N.max 1 1)%N with U64. rewrite N.Div0.mod_same. lia.
Qed.

Lemma vruntime_next_truncates_witness : vruntime_next 7 (2 ^ 54) 1 = 7%N.
Proof. apply (vruntime_next_truncates 7). lia. Defined.
