(* ===== verification/ChainGroup.v ===== *)
(** * Chain groups

    [kernel/kernel-sched/src/chain_group.rs]: the threads of one synchronous
    IPC chain and the virtual runtime charged to all of them. *)

From S2P Require Import Prelude Capability.

Definition MAX_CHAIN_MEMBERS : nat := 8.

Inductive ChainGroupError := ChainFull | NotAMember.

Record ChainGroup := mkGroup {
  cg_id : ChainGroupId;
  member_threads : list ThreadId;
  cg_len : N;
  group_vruntime : N;
}.

Definition cg_new (id : ChainGroupId) : ChainGroup :=
  mkGroup id (replicate MAX_CHAIN_MEMBERS 0%N) 0 0.

Definition members (g : ChainGroup) : list ThreadId :=
  take (N.to_nat (cg_len g)) (member_threads g).

Definition cg_is_empty (g : ChainGroup) : bool := (cg_len g =? 0)%N.

Definition cg_contains (thread : ThreadId) (g : ChainGroup) : bool :=
  existsb (λ t, (t =? thread)%N) (members g).

Definition add_member (thread : ThreadId) : M ChainGroup ChainGroupError unit :=
  g ← gets (λ g, g);
  if cg_contains thread g then mret tt else
  if (N.of_nat MAX_CHAIN_MEMBERS <=? cg_len g)%N then throw ChainFull else
  _ ← unwrap (getN (member_threads g) (cg_len g));
  n ← unwrap (checked_add U64 (cg_len g) 1);
  modify (λ g, mkGroup (cg_id g) (<[N.to_nat (cg_len g) := thread]> (member_threads g))
                 n (group_vruntime g)).

(** [a[i - 1] = a[i]] for [i] in [idx]; [None]: an index out of range. *)
Fixpoint copy_down (idx : list nat) (a : list ThreadId) : option (list ThreadId) :=
  match idx with
  | [] => Some a
  | i :: idx => x ← a !! i; copy_down idx (<[i - 1 := x]> a)
  end.

Definition remove_member (thread : ThreadId) : M ChainGroup ChainGroupError unit :=
  g ← gets (λ g, g);
  idx ← ok_or (position (λ t, (t =? thread)%N) (members g)) NotAMember;
  a ← unwrap (copy_down (seq (idx + 1) (N.to_nat (cg_len g) - (idx + 1))) (member_threads g));
  n ← unwrap (checked_sub (cg_len g) 1);
  modify (λ g, mkGroup (cg_id g) a n (group_vruntime g)).

Definition charge {E} (increment : N) : M ChainGroup E unit :=
  modify (λ g, mkGroup (cg_id g) (member_threads g) (cg_len g)
                 (saturating_add U64 (group_vruntime g) increment)).

(** ** Invariant *)

Record cg_wf (g : ChainGroup) : Prop := {
  gw_length : length (member_threads g) = MAX_CHAIN_MEMBERS;
  gw_len : (cg_len g ≤ N.of_nat MAX_CHAIN_MEMBERS)%N;
  gw_nodup : NoDup (members g);
  gw_vruntime : (group_vruntime g < U64)%N;
}.

Lemma cg_new_wf id : cg_wf (cg_new id).
Proof. split; simpl; [done|lia|constructor|lia]. Qed.

Lemma members_length g : cg_wf g → length (members g) = N.to_nat (cg_len g).
Proof. intros [H1 H2 _ _]. unfold members. rewrite length_take. lia. Qed.

Lemma cg_contains_spec t g : cg_contains t g = true ↔ t ∈ members g.
Proof.
  unfold cg_contains. rewrite existsb_exists. setoid_rewrite N.eqb_eq.
  setoid_rewrite list_elem_of_In. naive_solver.
Qed.

(** Closing the gap left by element [k]: the prefix up to [n] loses it. *)
Lemma copy_down_spec m : ∀ (a : list ThreadId) k,
  k + m < length a →
  ∃ a', copy_down (seq (k + 1) m) a = Some a' ∧ length a' = length a ∧
        take (k + m) a' = take k a ++ take m (drop (k + 1) a).
Proof.
  induction m as [|m IH]; intros a k Hk; simpl.
  - exists a. rewrite Nat.add_0_r, app_nil_r. done.
  - destruct (lookup_lt_is_Some_2 a (k + 1)) as [x Hx]; [lia|]. rewrite Hx. simpl.
    replace (k + 1 - 1) with k by lia.
    destruct (IH (<[k := x]> a) (k + 1)) as (a' & Hc & Hl & Ht).
    { rewrite length_insert. lia. }
    replace (S (k + 1)) with (k + 1 + 1) by lia. exists a'. split; [done|].
    rewrite length_insert in Hl. split; [done|].
    replace (k + S m) with (k + 1 + m) by lia. rewrite Ht.
    rewrite drop_insert_lt by lia.
    replace (take (k + 1) (<[k := x]> a)) with (take k a ++ [x]).
    2: { rewrite Nat.add_1_r. erewrite take_S_r; [|apply list_lookup_insert_eq; lia].
         by rewrite take_insert_ge by lia. }
    rewrite <- app_assoc. f_equal. simpl. rewrite (drop_S _ _ _ Hx). simpl.
    by rewrite (Nat.add_1_r (k + 1)).
Qed.

Lemma add_member_spec t g :
  cg_wf g →
  (t ∈ members g ∧ add_member t g = (Ok tt, g)) ∨
  (t ∉ members g ∧ cg_len g = N.of_nat MAX_CHAIN_MEMBERS ∧ add_member t g = (Err ChainFull, g)) ∨
  (t ∉ members g ∧ ∃ g', add_member t g = (Ok tt, g') ∧ cg_wf g' ∧
     members g' = members g ++ [t] ∧ group_vruntime g' = group_vruntime g ∧ cg_id g' = cg_id g).
Proof.
  intros [H1 H2 H3 H4]. unfold add_member, mbind, M_bind. cbn -[N.leb].
  destruct (cg_contains t g) eqn:E.
  { left. by apply cg_contains_spec in E. }
  right. assert (t ∉ members g) as Hni.
  { intros Hin%cg_contains_spec. congruence. }
  destruct (N.leb_spec (N.of_nat MAX_CHAIN_MEMBERS) (cg_len g)) as [Hge|Hlt].
  { left. split; [done|]. split; [lia|done]. }
  right. split; [done|]. rewrite getN_lookup.
  destruct (lookup_lt_is_Some_2 (member_threads g) (N.to_nat (cg_len g))) as [y Hy]; [lia|].
  rewrite Hy. cbn -[N.leb]. unfold checked_add.
  rewrite (proj2 (N.ltb_lt _ _)) by (unfold MAX_CHAIN_MEMBERS in *; lia). simpl.
  eexists. split; [done|].
  assert (members (mkGroup (cg_id g) (<[N.to_nat (cg_len g) := t]> (member_threads g))
           (cg_len g + 1) (group_vruntime g)) = members g ++ [t]) as Hm.
  { unfold members. simpl.
    replace (N.to_nat (cg_len g + 1)) with (S (N.to_nat (cg_len g))) by lia.
    erewrite take_S_r; [|apply list_lookup_insert_eq; lia]. by rewrite take_insert_ge by lia. }
  split; [|done]. split; simpl; [by rewrite length_insert|lia| |done].
  change (NoDup (members (mkGroup (cg_id g) (<[N.to_nat (cg_len g) := t]> (member_threads g))
           (cg_len g + 1) (group_vruntime g)))).
  rewrite Hm. apply NoDup_app. split; [done|]. split; [|apply NoDup_singleton].
  intros x Hx ->%list_elem_of_singleton. done.
Qed.

Lemma remove_member_spec t g :
  cg_wf g →
  (t ∉ members g ∧ remove_member t g = (Err NotAMember, g)) ∨
  ∃ pre post g', members g = pre ++ t :: post ∧ remove_member t g = (Ok tt, g') ∧ cg_wf g' ∧
    members g' = pre ++ post ∧ group_vruntime g' = group_vruntime g ∧ cg_id g' = cg_id g.
Proof.
  intros Hw. pose proof (members_length _ Hw) as Hml. destruct Hw as [H1 H2 H3 H4].
  unfold remove_member, mbind, M_bind. simpl.
  destruct (position _ (members g)) as [k|] eqn:E; simpl.
  - right. apply position_Some in E as [(y & Hk & ->%N.eqb_eq) _].
    pose proof (lookup_lt_Some _ _ _ Hk) as Hlt.
    destruct (copy_down_spec (N.to_nat (cg_len g) - (k + 1)) (member_threads g) k)
      as (a & Hc & Hl & Ht); [lia|].
    rewrite Hc. simpl. unfold checked_sub. rewrite (proj2 (N.leb_le _ _)) by lia. simpl.
    exists (take k (members g)), (drop (S k) (members g)). eexists.
    split; [by rewrite take_drop_middle|]. split; [done|].
    assert (members (mkGroup (cg_id g) a (cg_len g - 1) (group_vruntime g)) =
            take k (members g) ++ drop (S k) (members g)) as Hm.
    { unfold members. simpl. replace (N.to_nat (cg_len g - 1))
        with (k + (N.to_nat (cg_len g) - (k + 1))) by lia. rewrite Ht, take_take.
      f_equal; [f_equal; lia|]. rewrite <- (Nat.add_1_r k), take_drop_commute.
      do 2 f_equal. lia. }
    split; [|done]. split; [simpl; lia|simpl; lia| |done].
    rewrite Hm. eapply sublist_NoDup; [exact H3|].
    rewrite <- (take_drop_middle _ _ _ Hk) at 3. apply sublist_app; [done|by constructor].
  - left. rewrite position_None in E. split; [|done]. intros Hin%E. by rewrite N.eqb_refl in Hin.
Qed.

(** ** Properties *)

(** Membership is an ordered set of at most eight threads: joining adds a
    thread once, at the end, or fails when the group is full; leaving removes
    it and keeps the order of the others; neither touches the shared
    account. *)
Theorem chain_group_membership t g :
  cg_wf g →
  match add_member t g with
  | (Ok _, g') => cg_wf g' ∧ group_vruntime g' = group_vruntime g ∧
      members g' = if decide (t ∈ members g) then members g else members g ++ [t]
  | (Err e, g') => e = ChainFull ∧ g' = g ∧ length (members g) = MAX_CHAIN_MEMBERS
  | (Panic, _) => False
  end ∧
  match remove_member t g with
  | (Ok _, g') => cg_wf g' ∧ group_vruntime g' = group_vruntime g ∧
      ∃ pre post, members g = pre ++ t :: post ∧ members g' = pre ++ post
  | (Err e, g') => e = NotAMember ∧ g' = g ∧ t ∉ members g
  | (Panic, _) => False
  end.
Proof.
  intros Hw. split.
  - destruct (add_member_spec t g Hw)
      as [[Hin ->]|[(Hni & Hl & ->)|(Hni & g' & -> & Hw' & Hm & Hv & _)]].
    + by rewrite decide_True.
    + rewrite members_length by done. rewrite Hl. by rewrite Nat2N.id.
    + by rewrite decide_False.
  - destruct (remove_member_spec t g Hw)
      as [[Hni ->]|(pre & post & g' & Hm & -> & Hw' & Hm' & Hv & _)]; [done|].
    split; [done|]. split; [done|]. eauto.
Qed.

Lemma chain_group_membership_witness :
  let g := (add_member 3 (cg_new 0)).2 in
  cg_wf (cg_new 0) ∧ members g = [3%N] ∧
  match remove_member 3 (cg_new 0) with
  | (Err e, g') => e = NotAMember ∧ g' = cg_new 0 ∧ 3%N ∉ members (cg_new 0)
  | _ => False
  end.
Proof.
  split; [apply cg_new_wf|]. split; [reflexivity|].
  exact (proj2 (chain_group_membership 3 (cg_new 0) (cg_new_wf 0))).
Defined.
