(* ===== verification/Scheduler.v ===== *)
(** * The scheduler

    [kernel/kernel-sched/src/mode.rs] and [sched.rs]: the entity table, the
    readiness transitions, priority inheritance, chain-group accounting and
    the account / pick / dispatch cycle. *)

From S2P Require Import Prelude Capability Weight ChainGroup.

Inductive SchedulerMode := Interactive | Throughput.

#[export] Instance SchedulerMode_eq_dec : EqDecision SchedulerMode.
Proof. solve_decision. Defined.

Definition preference_class (m : SchedulerMode) : N :=
  match m with Interactive => 0 | Throughput => 1 end.

Inductive RunState := Ready | Running | Blocked.

#[export] Instance RunState_eq_dec : EqDecision RunState.
Proof. solve_decision. Defined.

Inductive SchedError :=
| TableFull
| NoSuchThread
| NoSuchGroup
| GroupTableFull
| SchedChainGroup (e : ChainGroupError).

Record SchedEntity := mkEntity {
  thread : ThreadId;
  mode : SchedulerMode;
  base_priority : N;
  effective_priority : N;
  base_weight_fp : N;
  vruntime : N;
  chain_group : option ChainGroupId;
  se_state : RunState;
  became_ready_ns : N;
  last_wait_ms : N;
  numa_local : bool;
}.

Definition entity_new (t : ThreadId) (m : SchedulerMode) (priority : N)
    (group : option ChainGroupId) : SchedEntity :=
  let p := N.min priority MAX_PRIORITY in
  mkEntity t m p p (base_priority_weight_fp p) 0 group Blocked 0 0 false.

Definition set_state (st : RunState) (e : SchedEntity) : SchedEntity :=
  mkEntity (thread e) (mode e) (base_priority e) (effective_priority e) (base_weight_fp e)
    (vruntime e) (chain_group e) st (became_ready_ns e) (last_wait_ms e) (numa_local e).

Definition set_became_ready (now : N) (e : SchedEntity) : SchedEntity :=
  mkEntity (thread e) (mode e) (base_priority e) (effective_priority e) (base_weight_fp e)
    (vruntime e) (chain_group e) (se_state e) now (last_wait_ms e) (numa_local e).

Definition set_vruntime (v : N) (e : SchedEntity) : SchedEntity :=
  mkEntity (thread e) (mode e) (base_priority e) (effective_priority e) (base_weight_fp e)
    v (chain_group e) (se_state e) (became_ready_ns e) (last_wait_ms e) (numa_local e).

Definition set_effective_priority (p : N) (e : SchedEntity) : SchedEntity :=
  mkEntity (thread e) (mode e) (base_priority e) p (base_weight_fp e)
    (vruntime e) (chain_group e) (se_state e) (became_ready_ns e) (last_wait_ms e) (numa_local e).

Definition set_chain_group (g : option ChainGroupId) (e : SchedEntity) : SchedEntity :=
  mkEntity (thread e) (mode e) (base_priority e) (effective_priority e) (base_weight_fp e)
    (vruntime e) g (se_state e) (became_ready_ns e) (last_wait_ms e) (numa_local e).

Definition set_last_wait (w : N) (e : SchedEntity) : SchedEntity :=
  mkEntity (thread e) (mode e) (base_priority e) (effective_priority e) (base_weight_fp e)
    (vruntime e) (chain_group e) (se_state e) (became_ready_ns e) w (numa_local e).

Definition with_numa_local (b : bool) (e : SchedEntity) : SchedEntity :=
  mkEntity (thread e) (mode e) (base_priority e) (effective_priority e) (base_weight_fp e)
    (vruntime e) (chain_group e) (se_state e) (became_ready_ns e) (last_wait_ms e) b.

Record Scheduler := mkScheduler {
  entities : list (option SchedEntity);
  groups : list (option ChainGroup);
  running : option ThreadId;
  running_since_ns : N;
  quantum_ns : N;
}.

Definition sched_new (nt ncg : nat) (quantum : N) : Scheduler :=
  mkScheduler (replicate nt None) (replicate ncg None) None 0 quantum.

Definition set_entities (l : list (option SchedEntity)) (s : Scheduler) : Scheduler :=
  mkScheduler l (groups s) (running s) (running_since_ns s) (quantum_ns s).
Definition set_groups (l : list (option ChainGroup)) (s : Scheduler) : Scheduler :=
  mkScheduler (entities s) l (running s) (running_since_ns s) (quantum_ns s).
Definition set_running (r : option ThreadId) (s : Scheduler) : Scheduler :=
  mkScheduler (entities s) (groups s) r (running_since_ns s) (quantum_ns s).
Definition set_running_since (now : N) (s : Scheduler) : Scheduler :=
  mkScheduler (entities s) (groups s) (running s) now (quantum_ns s).

Definition entity (s : Scheduler) (t : ThreadId) : option SchedEntity := tget (entities s) t.
Definition group (s : Scheduler) (id : ChainGroupId) : option ChainGroup := tget (groups s) id.

(** [self.slot_mut(t).ok_or(SchedError::NoSuchThread)?] followed by an update
    of the entity. *)
Definition on_entity (t : ThreadId) (f : SchedEntity → SchedEntity) : M Scheduler SchedError unit :=
  on_slot entities set_entities t NoSuchThread (modify f).

Definition admit_thread (t : ThreadId) (m : SchedulerMode) (priority : N)
    (g : option ChainGroupId) : M Scheduler SchedError unit :=
  s ← gets (λ s, s);
  if (N.of_nat (length (entities s)) <=? t)%N then throw TableFull else
  modify (set_entities (<[N.to_nat t := Some (entity_new t m priority g)]> (entities s))).

Definition remove {E} (t : ThreadId) : M Scheduler E unit :=
  s ← gets (λ s, s);
  _ ← modify (match entity s t with
              | Some _ => set_entities (<[N.to_nat t := None]> (entities s))
              | None => λ s, s
              end);
  modify (λ s, if decide (running s = Some t) then set_running None s else s).

Definition note_ready (t : ThreadId) (now_ns : N) : M Scheduler SchedError unit :=
  on_entity t (λ e, set_became_ready now_ns (set_state Ready e)).

Definition note_blocked (t : ThreadId) : M Scheduler SchedError unit :=
  _ ← on_entity t (set_state Blocked);
  modify (λ s, if decide (running s = Some t) then set_running None s else s).

Definition set_numa_local (t : ThreadId) (b : bool) : M Scheduler SchedError unit :=
  on_entity t (with_numa_local b).

Definition inherit_priority (holder : ThreadId) (donor_priority : N)
    : M Scheduler SchedError unit :=
  on_entity holder (λ e, set_effective_priority
    (N.max (effective_priority e) (N.min donor_priority MAX_PRIORITY)) e).

Definition restore_priority (holder : ThreadId) : M Scheduler SchedError unit :=
  on_entity holder (λ e, set_effective_priority (base_priority e) e).

Definition create_group (id : ChainGroupId) : M Scheduler SchedError unit :=
  s ← gets (λ s, s);
  if (N.of_nat (length (groups s)) <=? id)%N then throw GroupTableFull else
  modify (set_groups (<[N.to_nat id := Some (cg_new id)]> (groups s))).

Definition join_group (t : ThreadId) (id : ChainGroupId) : M Scheduler SchedError unit :=
  _ ← on_slot groups set_groups id NoSuchGroup (map_err SchedChainGroup (add_member t));
  on_entity t (set_chain_group (Some id)).

Definition leave_group (t : ThreadId) : M Scheduler SchedError unit :=
  s ← gets (λ s, s);
  match e ← entity s t; chain_group e with
  | None => mret tt
  | Some gid =>
      _ ← match group s gid with
          | None => mret tt
          | Some _ =>
              _ ← on_slot groups set_groups gid NoSuchGroup (ignore (remove_member t));
              modify (λ s, match group s gid with
                           | Some g => if cg_is_empty g
                                       then set_groups (<[N.to_nat gid := None]> (groups s)) s
                                       else s
                           | None => s
                           end)
          end;
      on_entity t (set_chain_group None)
  end.

Definition account {E} (now_ns : N) : M Scheduler E unit :=
  s ← gets (λ s, s);
  match running s with
  | None => mret tt
  | Some cur =>
      match entity s cur with
      | None => modify (set_running None)
      | Some e =>
          let ran := saturating_sub now_ns (running_since_ns s) in
          let w := effective_weight_fp (base_weight_fp e) (last_wait_ms e) (numa_local e) in
          let newv := vruntime_next (vruntime e) ran w in
          inc ← unwrap (checked_sub newv (vruntime e));
          let e := set_vruntime newv e in
          let e := if decide (se_state e = Running)
                   then set_became_ready now_ns (set_state Ready e) else e in
          _ ← modify (set_entities (<[N.to_nat cur := Some e]> (entities s)));
          _ ← match chain_group e with
              | None => mret tt
              | Some gid => ignore (on_slot groups set_groups gid tt (charge inc))
              end;
          modify (set_running None)
      end
  end.

(** The selection key, compared lexicographically. *)
Definition Key : Type := N * N * N * N.

Definition key_lt (a b : Key) : bool :=
  let '(a1, a2, a3, a4) := a in
  let '(b1, b2, b3, b4) := b in
  (a1 <? b1)%N || ((a1 =? b1)%N &&
  ((a2 <? b2)%N || ((a2 =? b2)%N &&
  ((a3 <? b3)%N || ((a3 =? b3)%N && (a4 <? b4)%N))))).

Arguments key_lt : simpl never.

Definition effective_vruntime (s : Scheduler) (e : SchedEntity) : N :=
  match mode e, chain_group e with
  | Throughput, Some gid =>
      match group s gid with Some g => group_vruntime g | None => vruntime e end
  | _, _ => vruntime e
  end.

Definition entity_key (s : Scheduler) (e : SchedEntity) : option Key :=
  prio_key ← match mode e with
             | Interactive => checked_sub MAX_PRIORITY (effective_priority e)
             | Throughput => Some 0%N
             end;
  Some (preference_class (mode e), prio_key, effective_vruntime s e, thread e).

Fixpoint pick_among (s : Scheduler) (l : list SchedEntity) (best : option (Key * ThreadId))
    : option (option (Key * ThreadId)) :=
  match l with
  | [] => Some best
  | e :: l =>
      if negb (bool_decide (se_state e = Ready)) then pick_among s l best else
      key ← entity_key s e;
      if match best with Some (b, _) => key_lt key b | None => true end
      then pick_among s l (Some (key, thread e))
      else pick_among s l best
  end.

(** [None]: an arithmetic overflow. *)
Definition pick_next (s : Scheduler) : option (option ThreadId) :=
  match pick_among s (flatten (entities s)) None with
  | Some (Some (_, t)) => Some (Some t)
  | Some None => Some None
  | None => None
  end.

Definition dispatch (t : ThreadId) (now_ns : N) : M Scheduler SchedError unit :=
  _ ← on_entity t (λ e, set_state Running
        (set_last_wait (saturating_sub now_ns (became_ready_ns e) / 1000000) e));
  _ ← modify (set_running (Some t));
  modify (set_running_since now_ns).

(** ** The invariant *)

Record entity_ok (t : ThreadId) (e : SchedEntity) : Prop := {
  eo_thread : thread e = t;
  eo_base : (base_priority e ≤ effective_priority e)%N;
  eo_max : (effective_priority e ≤ MAX_PRIORITY)%N;
  eo_weight : base_weight_fp e = base_priority_weight_fp (base_priority e);
  eo_vruntime : (vruntime e < U64)%N;
}.

Record sched_wf (s : Scheduler) : Prop := {
  sw_entity t e : entity s t = Some e → entity_ok t e;
  sw_group id g : group s id = Some g → cg_wf g;
}.

Lemma entity_new_ok t m p g : entity_ok t (entity_new t m p g).
Proof. split; simpl; try done; lia. Qed.

Lemma sched_new_wf nt ncg q : sched_wf (sched_new nt ncg q).
Proof. split; intros ? ?; unfold entity, group; simpl; by rewrite tget_replicate_None. Qed.


Lemma on_entity_eq t f s :
  on_entity t f s =
    match entity s t with
    | Some e => (Ok tt, set_entities (<[N.to_nat t := Some (f e)]> (entities s)) s)
    | None => (Err NoSuchThread, s)
    end.
Proof. unfold on_entity, on_slot, entity. by destruct (tget _ _). Qed.

Lemma entity_insert s t e t' e' :
  entity (set_entities (<[N.to_nat t := e]> (entities s)) s) t' = Some e' →
  (t = t' ∧ e = Some e') ∨ (t ≠ t' ∧ entity s t' = Some e').
Proof. apply tget_insert_Some. Qed.

Lemma group_insert s id g id' g' :
  group (set_groups (<[N.to_nat id := g]> (groups s)) s) id' = Some g' →
  (id = id' ∧ g = Some g') ∨ (id ≠ id' ∧ group s id' = Some g').
Proof. apply tget_insert_Some. Qed.

Lemma set_entity_wf s t e :
  sched_wf s → (∀ x, e = Some x → entity_ok t x) →
  sched_wf (set_entities (<[N.to_nat t := e]> (entities s)) s).
Proof.
  intros [He Hg] Ht. split; [|done].
  intros t' e' [[<- ->]|[_ H]]%entity_insert; eauto.
Qed.

Lemma set_group_wf s id g :
  sched_wf s → (∀ x, g = Some x → cg_wf x) →
  sched_wf (set_groups (<[N.to_nat id := g]> (groups s)) s).
Proof.
  intros [He Hg] Ht. split; [done|].
  intros id' g' [[<- ->]|[_ H]]%group_insert; eauto.
Qed.

Lemma set_running_wf s r : sched_wf s → sched_wf (set_running r s).
Proof. intros [? ?]. by split. Qed.

Lemma set_running_since_wf s n : sched_wf s → sched_wf (set_running_since n s).
Proof. intros [? ?]. by split. Qed.

(** No thread of [s] that is still scheduled in [s'] has less virtual runtime
    there, except the one in [except]. *)
Definition vruntime_grows (except : option ThreadId) (s s' : Scheduler) : Prop :=
  ∀ t e e', except ≠ Some t → entity s t = Some e → entity s' t = Some e' →
    (vruntime e ≤ vruntime e')%N.

Lemma vruntime_grows_same x s s' : entities s = entities s' → vruntime_grows x s s'.
Proof. unfold vruntime_grows, entity. intros -> t e e' _ H1 H2. by simplify_eq. Qed.

Lemma vruntime_grows_insert x s s' t e :
  entities s' = <[N.to_nat t := e]> (entities s) →
  (∀ y z, x ≠ Some t → entity s t = Some y → e = Some z → (vruntime y ≤ vruntime z)%N) →
  vruntime_grows x s s'.
Proof.
  unfold vruntime_grows, entity. intros -> He t' y z Hx H1 [[<- ->]|[_ H2]]%tget_insert_Some; eauto.
  by simplify_eq.
Qed.

(** What every operation of the scheduler guarantees. *)
Definition sched_safe {E A} (x : option ThreadId) (s : Scheduler) : outcome E A → Scheduler → Prop :=
  λ r s', r ≠ Panic ∧ sched_wf s' ∧ vruntime_grows x s s'.

Lemma on_entity_safe x t f s :
  sched_wf s →
  (∀ e, entity_ok t e → entity_ok t (f e) ∧ vruntime (f e) = vruntime e) →
  wp (on_entity t f) (sched_safe x s) s.
Proof.
  intros Hs Hf. unfold wp. rewrite on_entity_eq. destruct (entity s t) as [e|] eqn:He; simpl.
  - destruct (Hf e (sw_entity _ Hs _ _ He)) as [Hok Hv]. split; [done|]. split.
    + apply set_entity_wf; [done|]. by intros ? [= <-].
    + eapply vruntime_grows_insert; [done|]. intros y z _ Hy [= <-].
      simplify_eq. rewrite Hv. done.
  - split; [done|]. split; [done|]. by apply vruntime_grows_same.
Qed.

Lemma sched_safe_then {E A B} x s (m : M Scheduler E A) (k : A → M Scheduler E B) :
  wp m (sched_safe x s) s →
  (∀ a s', sched_wf s' → wp (k a) (λ r s'', r ≠ Panic ∧ sched_wf s'' ∧ entities s'' = entities s') s') →
  wp (m ≫= k) (sched_safe x s) s.
Proof.
  intros Hm Hk. apply wp_bind. eapply wp_mono; [exact Hm|].
  intros [a|e|] s' (Hnp & Hwf & Hg); [|by split|done].
  eapply wp_mono; [by apply Hk|]. intros r s'' (Hr & Hwf' & Heq).
  split; [done|]. split; [done|]. intros t y z Hx H1 H2. unfold entity in H2.
  rewrite Heq in H2. by apply (Hg t y z).
Qed.

(** ** The operations keep the invariant *)

Lemma note_ready_safe x t now s : sched_wf s → wp (note_ready t now) (sched_safe x s) s.
Proof. intros Hs. apply on_entity_safe; [done|]. by intros e [? ? ? ? ?]. Qed.

Lemma clear_running_eq {E} t s :
  (modify (λ s, if decide (running s = Some t) then set_running None s else s) : M _ E unit) s =
    (Ok tt, if decide (running s = Some t) then set_running None s else s).
Proof. done. Qed.

Lemma clear_running_ok {E} t s :
  sched_wf s →
  wp (modify (λ s, if decide (running s = Some t) then set_running None s else s) : M _ E unit)
    (λ r s'', r ≠ Panic ∧ sched_wf s'' ∧ entities s'' = entities s) s.
Proof.
  intros Hs. apply wp_modify. split; [done|]. case_decide; [|done].
  split; [by apply set_running_wf|done].
Qed.

Lemma note_blocked_safe x t s : sched_wf s → wp (note_blocked t) (sched_safe x s) s.
Proof.
  intros Hs. apply sched_safe_then; [|intros; by apply clear_running_ok].
  apply on_entity_safe; [done|]. by intros e [? ? ? ? ?].
Qed.

Lemma dispatch_safe x t now s : sched_wf s → wp (dispatch t now) (sched_safe x s) s.
Proof.
  intros Hs. apply sched_safe_then.
  - apply on_entity_safe; [done|]. by intros e [? ? ? ? ?].
  - intros _ s' Hs'. apply wp_bind, wp_modify, wp_modify. split; [done|].
    split; [by apply set_running_since_wf, set_running_wf|done].
Qed.

Lemma admit_safe t m p g s : sched_wf s → wp (admit_thread t m p g) (sched_safe (Some t) s) s.
Proof.
  intros Hs. unfold wp, admit_thread, mbind, M_bind. simpl. case_match; simpl.
  - split; [done|]. split; [done|]. by apply vruntime_grows_same.
  - split; [done|]. split.
    + apply set_entity_wf; [done|]. intros ? [= <-]. apply entity_new_ok.
    + eapply vruntime_grows_insert; [done|]. by intros ? ? [].
Qed.

Lemma remove_safe {E} x t s : sched_wf s → wp (E := E) (remove t) (sched_safe x s) s.
Proof.
  intros Hs. unfold remove. apply wp_bind, wp_gets.
  apply sched_safe_then; [|intros; by apply clear_running_ok].
  apply wp_modify. destruct (entity s t) as [e|] eqn:He.
  - split; [done|]. split; [by apply set_entity_wf|].
    eapply vruntime_grows_insert; [done|]. done.
  - split; [done|]. split; [done|]. by apply vruntime_grows_same.
Qed.

(** The account of the running thread after a run slice. *)
Definition charged (now_ns : N) (s : Scheduler) (e : SchedEntity) : SchedEntity :=
  let w := effective_weight_fp (base_weight_fp e) (last_wait_ms e) (numa_local e) in
  let v := vruntime_next (vruntime e) (saturating_sub now_ns (running_since_ns s)) w in
  let e := set_vruntime v e in
  if decide (se_state e = Running) then set_became_ready now_ns (set_state Ready e) else e.

Lemma charged_vruntime now s e :
  vruntime (charged now s e) =
    vruntime_next (vruntime e) (saturating_sub now (running_since_ns s))
      (effective_weight_fp (base_weight_fp e) (last_wait_ms e) (numa_local e)).
Proof. unfold charged. by case_decide. Qed.

Lemma charged_ok now s t e : entity_ok t e → entity_ok t (charged now s e).
Proof.
  intros [? ? ? ? ?]. pose proof (vruntime_next_lt (vruntime e)
    (saturating_sub now (running_since_ns s))
    (effective_weight_fp (base_weight_fp e) (last_wait_ms e) (numa_local e))).
  unfold charged. case_decide; by split.
Qed.

Lemma charged_group now s e : chain_group (charged now s e) = chain_group e.
Proof. unfold charged. by case_decide. Qed.

(** [account], branch by branch. *)
Lemma account_eq {E} now s :
  sched_wf s →
  account (E := E) now s =
    (Ok tt,
     match cur ← running s; e ← entity s cur; Some (cur, e) with
     | None => set_running None s
     | Some (cur, e) =>
         let e' := charged now s e in
         let s1 := set_entities (<[N.to_nat cur := Some e']> (entities s)) s in
         let s2 := match gid ← chain_group e; g ← group s gid; Some (gid, g) with
                   | None => s1
                   | Some (gid, g) =>
                       set_groups (<[N.to_nat gid := Some (mkGroup (cg_id g) (member_threads g)
                         (cg_len g) (saturating_add U64 (group_vruntime g)
                                       (vruntime e' - vruntime e)))]> (groups s)) s1
                   end in
         set_running None s2
     end).
Proof.
  intros Hs. unfold account, mbind, M_bind. simpl.
  destruct s as [es gs run since q]; simpl in *. destruct run as [cur|]; simpl; [|done].
  unfold entity in *. simpl. destruct (tget es cur) as [e|] eqn:He; simpl; [|done].
  pose proof (sw_entity _ Hs cur e He) as [_ _ _ _ Hv].
  unfold checked_sub. rewrite (proj2 (N.leb_le _ _)) by (by apply vruntime_next_mono). simpl.
  rewrite charged_vruntime. simpl.
  assert (chain_group (charged now (mkScheduler es gs (Some cur) since q) e) = chain_group e) as Hg
    by apply charged_group.
  unfold charged in *. simpl in *.
  case_decide; simpl in *; (destruct (chain_group e) as [gid|]; simpl; [|done]);
    unfold ignore, on_slot, group; simpl; destruct (tget gs gid); done.
Qed.

Lemma account_safe {E} x now s : sched_wf s → wp (E := E) (account now) (sched_safe x s) s.
Proof.
  intros Hs. unfold wp. rewrite account_eq by done. simpl. split; [done|].
  destruct (running s) as [cur|]; simpl.
  2: { split; [by apply set_running_wf|by apply vruntime_grows_same]. }
  destruct (entity s cur) as [e|] eqn:He; simpl.
  2: { split; [by apply set_running_wf|by apply vruntime_grows_same]. }
  pose proof (sw_entity _ Hs cur e He) as Hok.
  assert (sched_wf (set_entities (<[N.to_nat cur := Some (charged now s e)]> (entities s)) s)) as H1.
  { apply set_entity_wf; [done|]. intros ? [= <-]. by apply charged_ok. }
  split.
  - apply set_running_wf. destruct (chain_group e) as [gid|]; simpl; [|done].
    destruct (group s gid) as [g|] eqn:Hg; simpl; [|done].
    apply (set_group_wf (set_entities _ s)); [done|]. intros ? [= <-].
    destruct (sw_group _ Hs _ _ Hg). split; try done. simpl. unfold saturating_add. lia.
  - apply vruntime_grows_insert with cur (Some (charged now s e)).
    + destruct (chain_group e) as [gid|]; simpl; [|done]. by destruct (group s gid).
    + intros y z _ Hy [= <-]. simplify_eq. rewrite charged_vruntime.
      apply vruntime_next_mono, Hok.
Qed.

Lemma set_numa_local_safe x t b s : sched_wf s → wp (set_numa_local t b) (sched_safe x s) s.
Proof. intros Hs. apply on_entity_safe; [done|]. by intros e [? ? ? ? ?]. Qed.

Lemma inherit_priority_safe x t p s :
  sched_wf s → wp (inherit_priority t p) (sched_safe x s) s.
Proof.
  intros Hs. apply on_entity_safe; [done|]. intros e [? ? ? ? ?]. split; [|done].
  split; simpl; try done; lia.
Qed.

Lemma restore_priority_safe x t s : sched_wf s → wp (restore_priority t) (sched_safe x s) s.
Proof.
  intros Hs. apply on_entity_safe; [done|]. intros e [? ? ? ? ?]. split; [|done].
  split; simpl; try done; lia.
Qed.

Lemma create_group_safe x id s : sched_wf s → wp (create_group id) (sched_safe x s) s.
Proof.
  intros Hs. unfold wp, create_group, mbind, M_bind. simpl. case_match; simpl.
  - split; [done|]. split; [done|]. by apply vruntime_grows_same.
  - split; [done|]. split; [|by apply vruntime_grows_same].
    apply set_group_wf; [done|]. intros ? [= <-]. apply cg_new_wf.
Qed.

(** An update of a chain group that keeps it well-formed. *)
Lemma on_group_ok {E A} id (err : E) (m : M ChainGroup E A) s :
  sched_wf s → (∀ g, cg_wf g → wp m (λ r g', r ≠ Panic ∧ cg_wf g') g) →
  wp (on_slot groups set_groups id err m)
    (λ r s', r ≠ Panic ∧ sched_wf s' ∧ entities s' = entities s) s.
Proof.
  intros Hs Hm. apply wp_on_slot; [|done].
  intros g Hg. eapply wp_mono; [by apply Hm, (sw_group _ Hs id)|].
  intros r g' [Hr Hg']. split; [done|]. split; [|done].
  apply set_group_wf; [done|]. by intros ? [= <-].
Qed.

Lemma add_member_ok t g : cg_wf g → wp (add_member t) (λ r g', r ≠ Panic ∧ cg_wf g') g.
Proof.
  intros Hg. unfold wp.
  destruct (add_member_spec t g Hg) as [[_ ->]|[(_ & _ & ->)|(_ & g' & -> & ? & _)]]; done.
Qed.

Lemma remove_member_ok t g : cg_wf g → wp (remove_member t) (λ r g', r ≠ Panic ∧ cg_wf g') g.
Proof.
  intros Hg. unfold wp.
  destruct (remove_member_spec t g Hg) as [[_ ->]|(pre & post & g' & _ & -> & ? & _)]; done.
Qed.

Lemma grows_entities x s s' s'' :
  entities s' = entities s → vruntime_grows x s' s'' → vruntime_grows x s s''.
Proof. intros He Hg t y z Hx H1. unfold entity in H1. rewrite <- He in H1. by apply Hg. Qed.

(** A first step that leaves the entities alone, then a safe one. *)
Lemma sched_safe_after {E A B} x s (m : M Scheduler E A) (k : A → M Scheduler E B) :
  wp m (λ r s', r ≠ Panic ∧ sched_wf s' ∧ entities s' = entities s) s →
  (∀ a s', sched_wf s' → wp (k a) (sched_safe x s') s') →
  wp (m ≫= k) (sched_safe x s) s.
Proof.
  intros Hm Hk. apply wp_bind. eapply wp_mono; [exact Hm|].
  intros [a|e|] s' (Hnp & Hwf & He); [|by split; [|split; [|apply vruntime_grows_same]]|done].
  eapply wp_mono; [by apply Hk|]. intros r s'' (Hr & Hwf' & Hg).
  split; [done|]. split; [done|]. by eapply grows_entities.
Qed.

Lemma join_group_safe x t id s : sched_wf s → wp (join_group t id) (sched_safe x s) s.
Proof.
  intros Hs. apply sched_safe_after.
  - apply on_group_ok; [done|]. intros g Hg. apply wp_map_err.
    eapply wp_mono; [by apply add_member_ok|]. by intros [] ? [].
  - intros _ s' Hs'. apply on_entity_safe; [done|]. by intros e [? ? ? ? ?].
Qed.

Lemma recycle_ok {E} gid s :
  sched_wf s →
  wp (modify (λ s, match group s gid with
                   | Some g => if cg_is_empty g
                               then set_groups (<[N.to_nat gid := None]> (groups s)) s
                               else s
                   | None => s
                   end) : M _ E unit)
    (λ r s', r ≠ Panic ∧ sched_wf s' ∧ entities s' = entities s) s.
Proof.
  intros Hs. apply wp_modify. split; [done|].
  destruct (group s gid); [|done]. case_match; [|done]. split; [|done]. by apply set_group_wf.
Qed.

Lemma leave_group_safe x t s : sched_wf s → wp (leave_group t) (sched_safe x s) s.
Proof.
  intros Hs. unfold leave_group. apply wp_bind, wp_gets.
  destruct (entity s t ≫= chain_group) as [gid|] eqn:He.
  2: { apply wp_ret. split; [done|]. split; [done|]. by apply vruntime_grows_same. }
  apply sched_safe_after.
  - destruct (group s gid) as [g|]; [|by apply wp_ret].
    apply wp_bind. eapply wp_mono; [apply on_group_ok; [done|]|].
    { intros g' Hg'. apply wp_ignore. eapply wp_mono; [by apply remove_member_ok|].
      by intros [] ? []. }
    intros [] s' (? & ? & He'); [|done|done].
    eapply wp_mono; [by apply recycle_ok|]. intros ? ? (? & ? & ->). done.
  - intros _ s' Hs'. apply on_entity_safe; [done|]. by intros e [? ? ? ? ?].
Qed.

(** ** Selection *)

Definition keyed (s : Scheduler) (e : SchedEntity) : Key :=
  (preference_class (mode e),
   match mode e with
   | Interactive => (MAX_PRIORITY - effective_priority e)%N
   | Throughput => 0%N
   end,
   effective_vruntime s e, thread e).

Arguments keyed : simpl never.

Lemma entity_key_spec s t e : entity_ok t e → entity_key s e = Some (keyed s e).
Proof.
  intros Hok. unfold entity_key, keyed. destruct (mode e); simpl; [|done].
  unfold checked_sub. rewrite (proj2 (N.leb_le _ _)) by apply Hok. done.
Qed.

Lemma key_lt_irrefl k : key_lt k k = false.
Proof.
  destruct k as [[[a b] c] d]. unfold key_lt. rewrite !N.eqb_refl, !N.ltb_irrefl. done.
Qed.

Lemma key_lt_trans a b c : key_lt a b = true → key_lt b c = true → key_lt a c = true.
Proof.
  destruct a as [[[a1 a2] a3] a4], b as [[[b1 b2] b3] b4], c as [[[c1 c2] c3] c4].
  unfold key_lt. rewrite !orb_true_iff, !andb_true_iff, !orb_true_iff, !andb_true_iff,
    !orb_true_iff, !andb_true_iff, !N.eqb_eq, !N.ltb_lt. lia.
Qed.

Lemma key_lt_total s e e' :
  thread e ≠ thread e' → key_lt (keyed s e) (keyed s e') = false →
  key_lt (keyed s e') (keyed s e) = true.
Proof.
  unfold key_lt, keyed. intros Hne.
  destruct (N.ltb_spec (preference_class (mode e)) (preference_class (mode e'))); [done|].
  rewrite !orb_true_iff, !andb_true_iff, !orb_true_iff, !andb_true_iff,
    !orb_true_iff, !andb_true_iff, !N.eqb_eq, !N.ltb_lt. simpl.
  rewrite !andb_false_iff, !orb_false_iff, !andb_false_iff, !orb_false_iff, !andb_false_iff,
    !N.eqb_neq, !N.ltb_ge. lia.
Qed.

(** The candidates of [pick_next]. *)
Definition ready (s : Scheduler) (t : ThreadId) (e : SchedEntity) : Prop :=
  entity s t = Some e ∧ se_state e = Ready.

(** [b] is the best of the ready entities of [l]. *)
Definition best_of (s : Scheduler) (l : list SchedEntity) (b : SchedEntity) : Prop :=
  b ∈ l ∧ se_state b = Ready ∧
  ∀ e, e ∈ l → se_state e = Ready → e = b ∨ key_lt (keyed s b) (keyed s e) = true.

Lemma pick_among_best s l : ∀ pre b,
  (∀ e, e ∈ pre ++ l → ∃ t, entity_ok t e) →
  (∀ e e', e ∈ pre ++ l → e' ∈ pre ++ l → thread e = thread e' → e = e') →
  best_of s pre b →
  ∃ b', pick_among s l (Some (keyed s b, thread b)) = Some (Some (keyed s b', thread b')) ∧
        best_of s (pre ++ l) b'.
Proof.
  induction l as [|e l IH]; intros pre b Hok Hinj Hb; simpl.
  { exists b. by rewrite app_nil_r. }
  assert (pre ++ e :: l = (pre ++ [e]) ++ l) as Happ by by rewrite <- app_assoc.
  assert (e ∈ pre ++ e :: l) as Hel by (apply elem_of_app; right; left).
  assert (b ∈ pre ++ e :: l) as Hbl by (apply elem_of_app; left; apply Hb).
  case_bool_decide as Hr; simpl.
  - destruct (Hok e Hel) as [t Ht]. rewrite (entity_key_spec _ _ _ Ht). simpl.
    destruct (key_lt (keyed s e) (keyed s b)) eqn:Hlt; rewrite Happ in *; apply IH; try done.
    + destruct Hb as (Hb1 & Hb2 & Hb3).
      split; [apply elem_of_app; right; left|]. split; [done|].
      intros x [Hx| ->%list_elem_of_singleton]%elem_of_app Hxr; [|by left]. right.
      destruct (Hb3 x Hx Hxr) as [->|Hxb]; [done|]. by eapply key_lt_trans.
    + destruct Hb as (Hb1 & Hb2 & Hb3).
      split; [apply elem_of_app; by left|]. split; [done|].
      intros x [Hx| ->%list_elem_of_singleton]%elem_of_app Hxr; [by apply Hb3|].
      destruct (decide (thread e = thread b)) as [Heq|Hne].
      * left. by apply Hinj.
      * right. by apply key_lt_total.
  - rewrite Happ in *. apply IH; try done.
    destruct Hb as (Hb1 & Hb2 & Hb3).
    split; [apply elem_of_app; by left|]. split; [done|].
    intros x [Hx| ->%list_elem_of_singleton]%elem_of_app Hxr; [by apply Hb3|done].
Qed.

Lemma pick_among_none s l : ∀ pre,
  (∀ e, e ∈ pre ++ l → ∃ t, entity_ok t e) →
  (∀ e e', e ∈ pre ++ l → e' ∈ pre ++ l → thread e = thread e' → e = e') →
  (∀ e, e ∈ pre → se_state e ≠ Ready) →
  (pick_among s l None = Some None ∧ ∀ e, e ∈ pre ++ l → se_state e ≠ Ready) ∨
  ∃ b, pick_among s l None = Some (Some (keyed s b, thread b)) ∧ best_of s (pre ++ l) b.
Proof.
  induction l as [|e l IH]; intros pre Hok Hinj Hpre; simpl.
  { left. by rewrite app_nil_r. }
  assert (pre ++ e :: l = (pre ++ [e]) ++ l) as Happ by by rewrite <- app_assoc.
  assert (e ∈ pre ++ e :: l) as Hel by (apply elem_of_app; right; left).
  case_bool_decide as Hr; simpl.
  - right. destruct (Hok e Hel) as [t Ht]. rewrite (entity_key_spec _ _ _ Ht). simpl.
    rewrite Happ in *. apply pick_among_best; try done.
    split; [apply elem_of_app; right; left|]. split; [done|].
    intros x [Hx| ->%list_elem_of_singleton]%elem_of_app Hxr; [|by left].
    by apply Hpre in Hx.
  - rewrite Happ in *. apply IH; try done.
    intros x [Hx| ->%list_elem_of_singleton]%elem_of_app; [by apply Hpre|done].
Qed.

Lemma entity_flatten s e : sched_wf s → e ∈ flatten (entities s) ↔ entity s (thread e) = Some e.
Proof.
  intros Hs. rewrite flatten_lookup. split.
  - intros [i Hi%tget_of_nat]. pose proof (sw_entity _ Hs _ _ Hi) as Hok.
    by rewrite (eo_thread _ _ Hok).
  - intros H%tget_Some. eauto.
Qed.

Lemma pick_next_spec s :
  sched_wf s →
  (pick_next s = Some None ∧ ∀ t e, ¬ ready s t e) ∨
  ∃ t b, pick_next s = Some (Some t) ∧ ready s t b ∧
    ∀ t' e, ready s t' e → t' = t ∨ key_lt (keyed s b) (keyed s e) = true.
Proof.
  intros Hs. unfold pick_next.
  destruct (pick_among_none s (flatten (entities s)) [])
    as [[-> Hno]|(b & -> & Hb1 & Hb2 & Hb3)]; simpl.
  - intros e He%entity_flatten; [|done]. eexists. by apply (sw_entity _ Hs).
  - intros e e' He%entity_flatten He'%entity_flatten Heq; [|done..]. congruence.
  - by intros e ?%not_elem_of_nil.
  - left. split; [done|]. intros t e [He Hr].
    pose proof (sw_entity _ Hs _ _ He) as [Ht _ _ _ _]. subst t.
    apply entity_flatten in He; [|done]. by apply (Hno e).
  - right. apply entity_flatten in Hb1; [|done]. exists (thread b), b.
    split; [done|]. split; [done|]. intros t' e [He Hr].
    pose proof (sw_entity _ Hs _ _ He) as [Ht _ _ _ _]. subst t'.
    destruct (Hb3 e) as [->|?]; [by apply entity_flatten|done|by left|by right].
Qed.

(** ** Operations as steps *)

Inductive SchedOp :=
| OpAdmit (t : ThreadId) (m : SchedulerMode) (priority : N) (g : option ChainGroupId)
| OpRemove (t : ThreadId)
| OpReady (t : ThreadId) (now : N)
| OpBlocked (t : ThreadId)
| OpNuma (t : ThreadId) (b : bool)
| OpInherit (t : ThreadId) (p : N)
| OpRestore (t : ThreadId)
| OpCreateGroup (id : ChainGroupId)
| OpJoin (t : ThreadId) (id : ChainGroupId)
| OpLeave (t : ThreadId)
| OpAccount (now : N)
| OpDispatch (t : ThreadId) (now : N).

Definition sched_step (o : SchedOp) : M Scheduler SchedError unit :=
  match o with
  | OpAdmit t m p g => admit_thread t m p g
  | OpRemove t => remove t
  | OpReady t now => note_ready t now
  | OpBlocked t => note_blocked t
  | OpNuma t b => set_numa_local t b
  | OpInherit t p => inherit_priority t p
  | OpRestore t => restore_priority t
  | OpCreateGroup id => create_group id
  | OpJoin t id => join_group t id
  | OpLeave t => leave_group t
  | OpAccount now => account now
  | OpDispatch t now => dispatch t now
  end.

Definition readmitted (o : SchedOp) : option ThreadId :=
  match o with OpAdmit t _ _ _ => Some t | _ => None end.

Lemma sched_step_safe o s :
  sched_wf s → wp (sched_step o) (sched_safe (readmitted o) s) s.
Proof.
  destruct o; simpl; eauto using admit_safe, remove_safe, note_ready_safe, note_blocked_safe,
    set_numa_local_safe, inherit_priority_safe, restore_priority_safe, create_group_safe,
    join_group_safe, leave_group_safe, account_safe, dispatch_safe.
Qed.

(** A sequence of operations, whatever each of them returns. *)
Definition sched_run (l : list SchedOp) : M Scheduler SchedError unit :=
  for_each l (λ o, ignore (sched_step o)).

Lemma sched_run_wf l s : sched_wf s → (sched_run l s).1 ≠ Panic ∧ sched_wf (sched_run l s).2.
Proof.
  intros Hs. apply (wp_for_each l _ sched_wf); [done|]. intros o s' _ Hs'.
  apply wp_ignore. eapply wp_mono; [by apply sched_step_safe|].
  by intros [] s'' (? & ? & _).
Qed.

(** Every thread marked as running is the one the scheduler runs. *)
Definition single_running (s : Scheduler) : Prop :=
  ∀ t e, entity s t = Some e → se_state e = Running → running s = Some t.

Lemma single_running_same s s' :
  entities s' = entities s → running s' = running s → single_running s → single_running s'.
Proof. unfold single_running, entity. by intros -> ->. Qed.

Lemma on_entity_single t f s :
  (∀ e, se_state (f e) = Running → se_state e = Running) →
  single_running s → single_running (on_entity t f s).2.
Proof.
  intros Hf Hs. rewrite on_entity_eq. destruct (entity s t) as [e|] eqn:He; [|done].
  intros t' e' [[<- [= <-]]|[_ H]]%entity_insert Hr; simpl in *; [by eapply Hs; eauto|].
  by eapply Hs.
Qed.

(** The entities of an operation on a chain group are those before it. *)
Lemma on_group_same {E A} id (err : E) (m : M ChainGroup E A) s :
  entities (on_slot groups set_groups id err m s).2 = entities s ∧
  running (on_slot groups set_groups id err m s).2 = running s.
Proof. unfold on_slot. destruct (tget _ _) as [g|]; [|done]. by destruct (m g). Qed.

Lemma note_blocked_single t s : single_running s → single_running (note_blocked t s).2.
Proof.
  intros Hs. unfold note_blocked, mbind, M_bind. rewrite on_entity_eq.
  destruct (entity s t) as [e|] eqn:He; [|done]. simpl.
  assert (∀ x, single_running (mkScheduler (<[N.to_nat t := Some (set_state Blocked e)]>
            (entities s)) (groups s) x (running_since_ns s) (quantum_ns s)) ↔
          ∀ t' e', t ≠ t' → entity s t' = Some e' → se_state e' = Running → x = Some t') as Hx.
  { intros x. unfold single_running, entity. simpl. split.
    - intros H t' e' Hne He' Hr. apply (H t' e'); [by rewrite tget_insert_ne|done].
    - intros H t' e' [[<- [= <-]]|[Hne H']]%tget_insert_Some Hr; [done|by eapply H]. }
  case_decide; unfold set_running; apply Hx; intros t' e' Hne He' Hr; simpl.
  - pose proof (Hs _ _ He' Hr). congruence.
  - by eapply Hs.
Qed.

Lemma remove_single {E} t s : single_running s → single_running (remove (E := E) t s).2.
Proof.
  intros Hs. unfold remove, mbind, M_bind. simpl.
  destruct (entity s t) as [e|] eqn:He; simpl; case_decide as Hrun; try done.
  - intros t' e' [[_ [=]]|[Hne H']]%tget_insert_Some Hr. simpl.
    pose proof (Hs _ _ H' Hr). congruence.
  - intros t' e' [[_ [=]]|[Hne H']]%tget_insert_Some Hr. simpl. by eapply Hs.
  - intros t' e' H' Hr. pose proof (Hs _ _ H' Hr).
    replace t' with t in H' by congruence. unfold entity in *. simpl in H'. congruence.
Qed.

Lemma account_single {E} now s :
  sched_wf s → single_running s → single_running (account (E := E) now s).2.
Proof.
  intros Hwf Hs. rewrite account_eq by done. simpl.
  destruct (running s) as [cur|] eqn:Hrun; simpl.
  2: { intros t e He Hr. simpl. rewrite <- Hrun. by apply (Hs t e). }
  destruct (entity s cur) as [e|] eqn:He; simpl.
  2: { intros t e' He' Hr. pose proof (Hs t e' He' Hr).
       replace t with cur in He' by congruence. unfold entity in *. simpl in He'. congruence. }
  assert (∀ t e', tget (<[N.to_nat cur := Some (charged now s e)]> (entities s)) t = Some e' →
            se_state e' ≠ Running) as Hno.
  { intros t e' [[<- [= <-]]|[Hne H']]%tget_insert_Some.
    - unfold charged. by case_decide.
    - intros Hr. pose proof (Hs _ _ H' Hr). congruence. }
  intros t e' He' Hr. exfalso. eapply Hno; [|exact Hr].
  revert He'. unfold entity. destruct (chain_group e) as [gid|]; simpl; [|by intros ->].
  destruct (group s gid); simpl; by intros ->.
Qed.

Lemma group_then_single {E A B} s (m : M Scheduler E A) (k : A → M Scheduler E B) :
  entities (m s).2 = entities s → running (m s).2 = running s →
  (∀ a s', single_running s' → single_running (k a s').2) →
  single_running s → single_running ((m ≫= k) s).2.
Proof.
  intros He Hr Hk Hs. unfold mbind, M_bind. destruct (m s) as [[a|e|] s']; simpl in *;
    [apply Hk|..]; by eapply single_running_same.
Qed.

Lemma leave_group_single t s : single_running s → single_running (leave_group t s).2.
Proof.
  intros Hs. unfold leave_group. unfold mbind at 1, M_bind at 1. simpl.
  destruct (entity s t ≫= chain_group) as [gid|]; [|done].
  apply group_then_single; [| | |done].
  - destruct (group s gid); [|done]. unfold mbind, M_bind.
    pose proof (on_group_same (E := SchedError) gid NoSuchGroup (ignore (remove_member t)) s) as [H1 _].
    destruct (on_slot _ _ _ _ _ s) as [[] s']; simpl in *; [|done..].
    destruct (group s' gid); [|done]. by case_match.
  - destruct (group s gid); [|done]. unfold mbind, M_bind.
    pose proof (on_group_same (E := SchedError) gid NoSuchGroup (ignore (remove_member t)) s) as [_ H1].
    destruct (on_slot _ _ _ _ _ s) as [[] s']; simpl in *; [|done..].
    destruct (group s' gid); [|done]. by case_match.
  - intros _ s' Hs'. by apply on_entity_single.
Qed.

(** ** Fairness *)

(** One scheduling decision followed by a run of [d] nanoseconds; the thread that ran. *)
Definition slice (now d : N) : M Scheduler SchedError (option ThreadId) :=
  s ← gets (λ s, s);
  next ← unwrap (pick_next s);
  match next with
  | None => mret None
  | Some t => _ ← dispatch t now; _ ← account (now + d); mret (Some t)
  end.

(** Every thread is a ready batch thread outside any chain. *)
Definition batch (s : Scheduler) : Prop :=
  ∀ t e, entity s t = Some e →
    se_state e = Ready ∧ mode e = Throughput ∧ chain_group e = None.

(** The virtual runtimes of any two threads differ by at most [delta]. *)
Definition spread (delta : N) (s : Scheduler) : Prop :=
  ∀ t t' e e', entity s t = Some e → entity s t' = Some e' →
    (vruntime e ≤ vruntime e' + delta)%N.

Lemma key_lt_batch s e e' :
  mode e = Throughput → mode e' = Throughput → chain_group e = None → chain_group e' = None →
  key_lt (keyed s e) (keyed s e') = true → (vruntime e ≤ vruntime e')%N.
Proof.
  unfold key_lt, keyed, effective_vruntime. intros -> -> -> ->. simpl.
  rewrite orb_true_iff, andb_true_iff, N.ltb_lt, N.eqb_eq. lia.
Qed.

Lemma entity_set_eq s t e e' :
  entity s t = Some e →
  entity (set_entities (<[N.to_nat t := Some e']> (entities s)) s) t = Some e'.
Proof. intros H. by apply (tget_insert_eq _ _ (Some e') _ H). Qed.

(** What running for [d] nanoseconds, in [k] slices, does to the virtual runtime of a
    thread: per unit of its base weight it grows by at least the time over 2.2, less one
    per slice for the rounding, and by at most the time; if it does not saturate. *)
Definition cost (e : SchedEntity) (d k : N) (e' : SchedEntity) : Prop :=
  base_weight_fp e' = base_weight_fp e ∧
  ((vruntime e + d < U64)%N →
   let b := base_weight_fp e in
   (b * vruntime e' ≤ b * vruntime e + 1024 * d ∧
    5 * (1024 * d) + 11 * b * vruntime e ≤ 11 * b * (vruntime e' + k))%N).

(** The state after [t] has run for [d] nanoseconds. *)
Lemma run_slice_spec t e now d s :
  sched_wf s → entity s t = Some e → chain_group e = None → (now + d < U64)%N →
  ∃ e' s', (dispatch t now ≫= λ _, account (now + d)) s = (Ok tt, s') ∧ sched_wf s' ∧
    entities s' = <[N.to_nat t := Some e']> (entities s) ∧
    se_state e' = Ready ∧ mode e' = mode e ∧ chain_group e' = None ∧
    (vruntime e ≤ vruntime e' ≤ vruntime e + d)%N ∧ cost e d 1 e'.
Proof.
  intros Hs He Hg Hd. pose proof (sw_entity _ Hs _ _ He) as Hok.
  set (e1 := set_state Running
       (set_last_wait (saturating_sub now (became_ready_ns e) / 1000000) e)).
  assert (entity_ok t e1) as Hok1 by (destruct Hok; by split).
  set (s1 := set_running_since now (set_running (Some t)
         (set_entities (<[N.to_nat t := Some e1]> (entities s)) s))).
  assert (sched_wf s1) as Hs1.
  { apply set_running_since_wf, set_running_wf, set_entity_wf; [done|]. by intros ? [= <-]. }
  assert (dispatch t now s = (Ok tt, s1)) as Hdis.
  { unfold dispatch, mbind, M_bind. rewrite on_entity_eq, He. done. }
  assert (entity s1 t = Some e1) as He1 by by apply (entity_set_eq s t e).
  unfold mbind, M_bind. rewrite Hdis, account_eq by done. simpl. rewrite He1. simpl. rewrite Hg. simpl.
  set (e' := charged (now + d) s1 e1). exists e'. eexists. split; [done|].
  split; [|split].
  - apply set_running_wf, (set_entity_wf s1 t (Some e')); [done|].
    intros ? [= <-]. by apply charged_ok.
  - simpl. by rewrite list_insert_insert_eq.
  - assert (vruntime e' = vruntime_next (vruntime e) (saturating_sub (now + d) now)
      (effective_weight_fp (base_weight_fp e) (last_wait_ms e1) (numa_local e))) as Hv
      by exact (charged_vruntime (now + d) s1 e1).
    assert (saturating_sub (now + d) now = d) as Hd' by (unfold saturating_sub; lia). rewrite Hd' in Hv.
    assert (1024 ≤ base_weight_fp e ≤ 4096)%N as Hb by (rewrite (eo_weight _ _ Hok); apply base_weight_bounds).
    destruct (vruntime_next_exact (vruntime e) d
      (effective_weight_fp (base_weight_fp e) (last_wait_ms e1) (numa_local e))) as [Hx Hle];
      [by apply effective_weight_ge|lia|].
    destruct (slice_cost (base_weight_fp e) (last_wait_ms e1) (numa_local e) d Hb) as [Hc1 Hc2].
    pose proof (vruntime_next_mono (vruntime e) d
      (effective_weight_fp (base_weight_fp e) (last_wait_ms e1) (numa_local e)) (eo_vruntime _ _ Hok)) as Hmono.
    rewrite <- Hv in Hmono. rewrite Hx in Hv.
    split; [done|]. split; [done|]. split; [done|]. split; [lia|]. split; [done|]. intros Hsat. cbv zeta.
    set (c := (d * 1024 / effective_weight_fp _ _ _)%N) in *. rewrite N.min_l in Hv by lia. rewrite Hv. lia.
Qed.

Lemma slice_eq now d s :
  slice now d s =
    match pick_next s with
    | None => (Panic, s)
    | Some None => (Ok None, s)
    | Some (Some t) =>
        match (dispatch t now ≫= λ _, account (now + d)) s with
        | (Ok _, s') => (Ok (Some t), s')
        | (Err e, s') => (Err e, s')
        | (Panic, s') => (Panic, s')
        end
    end.
Proof.
  unfold slice, mbind, M_bind. simpl. destruct (pick_next s) as [[t|]|]; [simpl|done..].
  by destruct (dispatch t now s) as [[] s1]; [destruct (account (now + d) s1) as [[] s2]|..].
Qed.

(** A slice: the chosen thread has the least virtual runtime, and it alone is charged. *)
Lemma slice_fair delta now d s :
  sched_wf s → batch s → spread delta s → (d ≤ delta)%N → (now + d < U64)%N →
  ∃ r s', slice now d s = (Ok r, s') ∧ sched_wf s' ∧ batch s' ∧ spread delta s' ∧
    match r with
    | None => s' = s ∧ ∀ t, entity s t = None
    | Some t => ∃ e e', entity s t = Some e ∧ cost e d 1 e' ∧ (vruntime e' ≤ vruntime e + d)%N ∧
        ∀ x, entity s' x = if decide (x = t) then Some e' else entity s x
    end.
Proof.
  intros Hs Hb Hsp Hd Hn.
  destruct (pick_next_spec s Hs) as [[Hp Hno]|(t & e & Hp & [He Hr] & Hmin)].
  { exists None, s. rewrite slice_eq, Hp. split_and!; try done.
    intros t. destruct (entity s t) as [e|] eqn:He; [|done]. destruct (Hno t e). split; [done|]. by apply (Hb t e). }
  destruct (Hb t e He) as (_ & Hm & Hg).
  destruct (run_slice_spec t e now d s Hs He Hg Hn)
    as (e' & s' & Hrun & Hs' & Hes & Hr' & Hm' & Hg' & [Hlo Hhi] & Hcost).
  exists (Some t), s'. split.
  { by rewrite slice_eq, Hp, Hrun. }
  split; [done|].
  assert (∀ x, entity s' x = if decide (x = t) then Some e' else entity s x) as Hget.
  { intros x. pose proof (tget_lt _ _ _ He). unfold entity in *. rewrite Hes, tget_insert by lia.
    destruct (decide (t = x)), (decide (x = t)); congruence. }
  assert (∀ x y, entity s' x = Some y → (x = t ∧ y = e') ∨ (x ≠ t ∧ entity s x = Some y)) as Hcase.
  { intros x y. rewrite Hget. case_decide; [intros [= <-]; by left|by right]. }
  assert (∀ x y, entity s x = Some y → (vruntime e ≤ vruntime y)%N) as Hleast.
  { intros x y Hy. destruct (Hb x y Hy) as (Hyr & Hym & Hyg).
    destruct (Hmin x y (conj Hy Hyr)) as [->|Hlt]; [by simplify_eq|].
    by apply (key_lt_batch s). }
  split; [|split; [|by exists e, e']].
  - intros x y [[-> ->]|[_ Hy]]%Hcase; [by rewrite Hm'|by apply (Hb x)].
  - intros x x' y y' [[-> ->]|[_ Hy]]%Hcase [[-> ->]|[_ Hy']]%Hcase.
    + lia.
    + pose proof (Hleast _ _ Hy'). lia.
    + pose proof (Hsp _ _ _ _ Hy He). lia.
    + by apply (Hsp x x').
Qed.

(** A whole schedule: slices of the given lengths, back to back; who ran, and for how
    long. *)
Fixpoint schedule (now : N) (ds : list N) : M Scheduler SchedError (list (ThreadId * N)) :=
  match ds with
  | [] => mret []
  | d :: ds =>
      r ← slice now d;
      rest ← schedule (now + d) ds;
      mret (match r with Some t => (t, d) :: rest | None => rest end)
  end.

Definition total (ds : list N) : N := foldr N.add 0%N ds.

(** The slices of a thread, and how many. *)
Definition slices_of (t : ThreadId) (runs : list (ThreadId * N)) : list N :=
  omap (λ r, if decide (r.1 = t) then Some r.2 else None) runs.
Definition run_time (t : ThreadId) (runs : list (ThreadId * N)) : N := total (slices_of t runs).
Definition slice_count (t : ThreadId) (runs : list (ThreadId * N)) : N := N.of_nat (length (slices_of t runs)).

(** Every thread has been charged for the slices it ran. *)
Definition charged_for (s : Scheduler) (runs : list (ThreadId * N)) (s' : Scheduler) : Prop :=
  ∀ t e, entity s t = Some e → ∃ e', entity s' t = Some e' ∧ cost e (run_time t runs) (slice_count t runs) e'.

Lemma cost_zero e : cost e 0 0 e.
Proof. split; [done|]. intros _. cbv zeta. lia. Qed.

Lemma cost_trans e d k e1 d' k' e2 :
  cost e d k e1 → (vruntime e1 ≤ vruntime e + d)%N → cost e1 d' k' e2 → cost e (d + d') (k + k') e2.
Proof.
  intros [Hb H1] Hle [Hb' H2]. split; [congruence|]. intros Hsat. rewrite Hb in H2.
  specialize (H1 ltac:(lia)). specialize (H2 ltac:(lia)). cbv zeta in *. lia.
Qed.

Lemma schedule_fair delta ds now s :
  sched_wf s → batch s → spread delta s →
  Forall (λ d, d ≤ delta)%N ds → (now + total ds < U64)%N →
  ∃ runs s', schedule now ds s = (Ok runs, s') ∧ sched_wf s' ∧ batch s' ∧ spread delta s' ∧
    ((∃ t e, entity s t = Some e) → runs.*2 = ds) ∧ charged_for s runs s'.
Proof.
  revert now s. induction ds as [|d ds IH]; intros now s Hs Hb Hsp Hds Hn.
  { exists [], s. split_and!; try done. intros t e He. exists e. split; [done|apply cost_zero]. }
  apply Forall_cons in Hds as [Hd Hds]. unfold total in Hn. simpl in Hn. fold (total ds) in Hn.
  destruct (slice_fair delta now d s) as (r & s1 & H1 & Hs1 & Hb1 & Hsp1 & Hr); try done; [lia|].
  destruct (IH (now + d)%N s1) as (runs & s2 & H2 & Hs2 & Hb2 & Hsp2 & Hall & Hch); try done; [lia|].
  eexists _, s2. split; [simpl; unfold mbind, M_bind; rewrite H1, H2; done|].
  split; [done|]. split; [done|]. split; [done|]. destruct r as [t|].
  - destruct Hr as (e & e' & He & Hc & Hle & Hget). split.
    + intros _. simpl. f_equal. apply Hall. exists t, e'. by rewrite Hget, decide_True.
    + intros x y Hy. unfold run_time, slice_count, slices_of. simpl.
      destruct (decide (t = x)) as [<-|Hne]; simpl.
      * assert (y = e) as -> by congruence.
        destruct (Hch t e') as (e2 & He2 & Hc2); [by rewrite Hget, decide_True|]. exists e2. split; [done|].
        rewrite Nat2N.inj_succ, <- N.add_1_l. by eapply cost_trans.
      * apply Hch. by rewrite Hget, decide_False.
  - destruct Hr as [-> Hno]. split; [|done]. intros (t & e & He). by rewrite Hno in He.
Qed.

(** ** Properties *)

(** [pick_next] decides correctly: it never fails; it returns nothing only
    when no thread is ready; and the thread it returns is ready and precedes
    every other ready thread in the lexicographic order on mode class,
    inverted effective priority, effective virtual runtime and thread id. *)
Theorem pick_next_correct s :
  sched_wf s →
  match pick_next s with
  | None => False
  | Some None => ∀ t e, ¬ ready s t e
  | Some (Some t) => ∃ b, ready s t b ∧
      ∀ t' e, ready s t' e → t' = t ∨ key_lt (keyed s b) (keyed s e) = true
  end.
Proof.
  intros Hs. destruct (pick_next_spec s Hs) as [[-> H]|(t & b & -> & H)]; eauto.
Qed.

(** Two ready threads of different modes. *)
Definition two_threads : Scheduler :=
  (sched_run [OpAdmit 0 Throughput 39 None; OpAdmit 1 Interactive 0 None;
              OpReady 0 5; OpReady 1 6] (sched_new 4 2 1000000)).2.

Lemma two_threads_wf : sched_wf two_threads.
Proof. apply sched_run_wf, sched_new_wf. Qed.

Lemma pick_next_correct_witness :
  pick_next two_threads = Some (Some 1%N) ∧
  match pick_next two_threads with
  | Some (Some t) => ∃ b, ready two_threads t b ∧
      ∀ t' e, ready two_threads t' e →
        t' = t ∨ key_lt (keyed two_threads b) (keyed two_threads e) = true
  | _ => False
  end.
Proof.
  split; [vm_compute; reflexivity|].
  exact (pick_next_correct two_threads two_threads_wf).
Defined.

(** Any sequence of scheduler operations, from any well-formed scheduler,
    never panics and keeps the invariant (a table index is its entity's
    thread, base priority <= effective priority <= 39, cached weights match
    priorities, chain groups are sets of at most eight threads); and each
    operation leaves every thread with at least the virtual runtime it had,
    unless it admits that thread anew. *)
Lemma scheduler_safe l o s :
  sched_wf s →
  let s1 := (sched_run l s).2 in
  let '(r, s2) := sched_step o s1 in
  (sched_run l s).1 ≠ Panic ∧ r ≠ Panic ∧ sched_wf s2 ∧
  ∀ t e e', readmitted o ≠ Some t → entity s1 t = Some e → entity s2 t = Some e' →
    (vruntime e ≤ vruntime e')%N.
Proof.
  intros Hs. destruct (sched_run_wf l s Hs) as [Hr1 Hs1]. simpl.
  pose proof (sched_step_safe o _ Hs1) as (Hr2 & Hs2 & Hg).
  destruct (sched_step o (sched_run l s).2) as [r s2]. done.
Qed.

Lemma scheduler_safe_witness :
  let s := sched_new 4 2 1000000 in
  let l := [OpAdmit 0 Interactive 5 None; OpReady 0 1; OpDispatch 0 2] in
  sched_wf s ∧
  let s1 := (sched_run l s).2 in
  let '(r, s2) := sched_step (OpAccount 9) s1 in
  (sched_run l s).1 ≠ Panic ∧ r ≠ Panic ∧ sched_wf s2 ∧
  ∀ t e e', readmitted (OpAccount 9) ≠ Some t → entity s1 t = Some e → entity s2 t = Some e' →
    (vruntime e ≤ vruntime e')%N.
Proof.
  split; [apply sched_new_wf|].
  apply (scheduler_safe [OpAdmit 0 Interactive 5 None; OpReady 0 1; OpDispatch 0 2] (OpAccount 9)
    (sched_new 4 2 1000000)). apply sched_new_wf.
Defined.

(** Accounting: the thread that ran is charged its run time scaled by its
    weight, returns to the ready queue if it was still marked as running,
    its chain group is charged exactly the same increment, and no other
    thread changes. *)
Theorem account_charges now s cur e :
  sched_wf s → running s = Some cur → entity s cur = Some e →
  let s' := (account (E := SchedError) now s).2 in
  let e' := charged now s e in
  (account (E := SchedError) now s).1 = Ok tt ∧ running s' = None ∧
  (∀ t, entity s' t = if decide (cur = t) then Some e' else entity s t) ∧
  (se_state e = Running → se_state e' = Ready ∧ became_ready_ns e' = now) ∧
  (se_state e ≠ Running → se_state e' = se_state e) ∧
  (∀ gid g, chain_group e = Some gid → group s gid = Some g →
     ∃ g', group s' gid = Some g' ∧ members g' = members g ∧
       group_vruntime g' =
         saturating_add U64 (group_vruntime g) (vruntime e' - vruntime e)) ∧
  (∀ gid, chain_group e ≠ Some gid → group s' gid = group s gid).
Proof.
  intros Hs Hr He. rewrite account_eq by done. rewrite Hr. simpl. rewrite He. simpl.
  pose proof (tget_lt _ _ _ He) as Hlt.
  split; [done|]. split; [done|]. split; [|split; [|split; [|split]]].
  - intros t. transitivity (tget (<[N.to_nat cur := Some (charged now s e)]> (entities s)) t).
    + destruct (chain_group e) as [gid|]; simpl; [|done]. by destruct (group s gid).
    + rewrite tget_insert by lia. done.
  - intros Hst. unfold charged. simpl. by rewrite decide_True.
  - intros Hst. unfold charged. simpl. by rewrite decide_False.
  - intros gid g -> Hg. simpl. rewrite Hg. simpl. eexists.
    split; [unfold group; simpl; by rewrite (tget_insert_eq _ _ _ g)|done].
  - intros gid Hne. destruct (chain_group e) as [gid'|]; simpl; [|done].
    destruct (group s gid') as [g'|]; simpl; [|done].
    unfold group. simpl. rewrite tget_insert_ne; congruence.
Qed.

(** A running thread in a chain group. *)
Definition chain_running : Scheduler :=
  (sched_run [OpAdmit 0 Throughput 10 None; OpCreateGroup 1; OpJoin 0 1; OpReady 0 0;
              OpDispatch 0 100] (sched_new 2 2 1000000)).2.

Lemma account_charges_witness :
  running chain_running = Some 0%N ∧
  (account (E := SchedError) 2100 chain_running).1 = Ok tt ∧
  running (account (E := SchedError) 2100 chain_running).2 = None.
Proof.
  assert (sched_wf chain_running) as Hwf by (apply sched_run_wf, sched_new_wf).
  destruct (entity chain_running 0) as [e|] eqn:He; [|vm_compute in He; discriminate He].
  destruct (account_charges 2100 chain_running 0 e Hwf eq_refl He) as (H1 & H2 & _).
  split; [reflexivity|]. split; [exact H1|exact H2].
Defined.

(** The arithmetic of two charges. *)
Lemma share_bound b b' v v' w w' r r' k delta :
  (b * w ≤ b * v + 1024 * r)%N → (5 * (1024 * r') + 11 * b' * v' ≤ 11 * b' * (w' + k))%N →
  (v ≤ v' + delta)%N → (w' ≤ w + delta)%N →
  (5 * b * (1024 * r') ≤ 11 * b' * (1024 * r + b * (2 * delta + k)))%N.
Proof.
  intros H H' Hv Hw.
  assert (11 * b' * v ≤ 11 * b' * (v' + delta))%N by (by apply N.mul_le_mono_l).
  assert (11 * b' * (w' + k) ≤ 11 * b' * (w + delta + k))%N by (apply N.mul_le_mono_l; lia).
  assert (5 * (1024 * r') + 11 * b' * v ≤ 11 * b' * (w + 2 * delta + k))%N as HA by lia.
  apply (N.mul_le_mono_l _ _ b) in HA. apply (N.mul_le_mono_l _ _ (11 * b')) in H. lia.
Qed.

(** C38 Fairness of the throughput mode.  All threads of the scheduler are ready batch
    threads outside chain groups, whose virtual runtimes differ by at most [delta] at
    the start; slices of at most [delta] nanoseconds, each decided by [pick_next] and
    followed by its accounting, are run back to back, and the clock does not reach 2^64.
    Then no step fails; if there is a thread, every slice is given to one; the virtual
    runtimes stay within [delta] of each other; every thread's grows by what it ran, for
    a weight between its base weight and 2.2 times that; and so, as long as the virtual
    runtimes do not saturate, per unit of its base weight a thread runs at most 2.2 times
    as long as any other, up to two [delta] and a nanosecond of rounding per slice: no
    thread starves. *)
Theorem throughput_fair delta ds now s :
  sched_wf s → batch s → spread delta s →
  Forall (λ d, d ≤ delta)%N ds → (now + total ds < U64)%N →
  ∃ runs s', schedule now ds s = (Ok runs, s') ∧ sched_wf s' ∧ batch s' ∧ spread delta s' ∧
    ((∃ t e, entity s t = Some e) → runs.*2 = ds) ∧
    charged_for s runs s' ∧
    ∀ t t' e e', entity s t = Some e → entity s t' = Some e' →
      (vruntime e + run_time t runs < U64)%N → (vruntime e' + run_time t' runs < U64)%N →
      let b := base_weight_fp e in
      let b' := base_weight_fp e' in
      (5 * b * (1024 * run_time t' runs) ≤
       11 * b' * (1024 * run_time t runs + b * (2 * delta + slice_count t' runs)))%N.
Proof.
  intros Hs Hb Hsp Hds Hn.
  destruct (schedule_fair delta ds now s Hs Hb Hsp Hds Hn) as (runs & s' & Hrun & Hs' & Hb' & Hsp' & Hall & Hch).
  exists runs, s'. split_and!; try done. intros t t' e e' He He' Hv Hv'.
  destruct (Hch t e He) as (f & Hf & _ & Hc). destruct (Hch t' e' He') as (f' & Hf' & _ & Hc').
  specialize (Hc Hv). specialize (Hc' Hv'). cbv zeta in *.
  eapply share_bound; [apply Hc|apply Hc'|by eapply Hsp|by eapply Hsp'].
Qed.

(** Two fresh batch threads. *)
Definition batch_pair : Scheduler :=
  (sched_run [OpAdmit 0 Throughput 0 None; OpAdmit 1 Throughput 39 None;
              OpReady 0 0; OpReady 1 0] (sched_new 2 1 1000000)).2.

Lemma batch_pair_entities t e : entity batch_pair t = Some e →
  se_state e = Ready ∧ mode e = Throughput ∧ chain_group e = None ∧ vruntime e = 0%N.
Proof.
  intros He%tget_Some. destruct (N.to_nat t) as [|[|n]]; vm_compute in He.
  - by injection He as <-.
  - by injection He as <-.
  - by destruct n.
Qed.

(** Two threads of weights 1 and 4: the second runs longer. *)
Lemma throughput_fair_witness :
  (∃ runs s', schedule 10 [500; 1000; 700; 900]%N batch_pair = (Ok runs, s') ∧
     sched_wf s' ∧ batch s' ∧ spread 1000 s' ∧ runs.*2 = [500; 1000; 700; 900]%N ∧ charged_for batch_pair runs s') ∧
  (schedule 10 [500; 1000; 700; 900]%N batch_pair).1 = Ok [(0, 500); (1, 1000); (1, 700); (1, 900)]%N.
Proof.
  split; [|by vm_compute].
  destruct (throughput_fair 1000 [500; 1000; 700; 900]%N 10 batch_pair)
    as (runs & s' & H1 & H2 & H3 & H4 & H5 & H6 & _).
  - apply sched_run_wf, sched_new_wf.
  - intros t e He. apply batch_pair_entities in He. intuition.
  - intros t t' e e' He%batch_pair_entities He'%batch_pair_entities.
    destruct He as (_ & _ & _ & ->). lia.
  - repeat constructor; lia.
  - by vm_compute.
  - exists runs, s'. split; [exact H1|]. split; [exact H2|]. split; [exact H3|]. split; [exact H4|].
    split; [|exact H6]. apply H5. exists 0%N. eexists. reflexivity.
Defined.

(** At most one thread is marked as running: every operation keeps the
    fact that a thread marked as running is the scheduler's current one, as
    long as a dispatch happens when no other thread is current. *)
Theorem one_running_thread o s :
  sched_wf s → single_running s →
  (∀ t now, o = OpDispatch t now → running s = None ∨ running s = Some t) →
  single_running (sched_step o s).2.
Proof.
  intros Hwf Hs Hd. destruct o as [t m p g|t|t now|t|t b|t p|t|id|t id|t|now|t now]; simpl.
  - unfold admit_thread, mbind, M_bind. simpl. case_match; [done|].
    intros t' e' [[<- [= <-]]|[Hne H']]%entity_insert Hr; [done|]. by apply (Hs t' e').
  - by apply (remove_single (E := SchedError)).
  - by apply on_entity_single.
  - by apply note_blocked_single.
  - by apply on_entity_single.
  - by apply on_entity_single.
  - by apply on_entity_single.
  - unfold create_group, mbind, M_bind. simpl. by case_match.
  - apply group_then_single; [apply on_group_same..| |done].
    intros _ s' Hs'. by apply on_entity_single.
  - by apply leave_group_single.
  - by apply (account_single (E := SchedError)).
  - unfold dispatch, mbind, M_bind. rewrite on_entity_eq.
    destruct (entity s t) as [e|] eqn:He; [|done]. simpl.
    intros t' e' [[<- _]|[Hne H']]%tget_insert_Some Hr; [done|].
    pose proof (Hs _ _ H' Hr). destruct (Hd t now eq_refl); congruence.
Qed.

Lemma one_running_thread_witness :
  let s := (sched_run [OpAdmit 0 Interactive 5 None; OpReady 0 1] (sched_new 2 1 1000000)).2 in
  running s = None ∧ single_running (sched_step (OpDispatch 0 2) s).2.
Proof.
  split; [reflexivity|].
  apply (one_running_thread (OpDispatch 0 2)).
  - apply sched_run_wf, sched_new_wf.
  - intros t e He%tget_Some Hr. destruct (N.to_nat t) as [|[|n]]; vm_compute in He.
    + injection He as <-. discriminate Hr.
    + discriminate He.
    + by destruct n.
  - intros t now _. left. reflexivity.
Defined.
