(* ===== verification/Manifest.v ===== *)
(** * The boot-time hardware manifest

    [hal/hal-manifest/src]: the raw manifest a platform fills during
    discovery ([raw.rs]) and its conversion to the owned form ([lib.rs]).
    Padding fields are left out; the array, the count and the truncation
    counter of each device class are grouped. *)

From S2P Require Import Prelude.

Definition MAX_MEMORY_REGIONS : nat := 256.
Definition MAX_COMPUTE_DEVICES : nat := 32.
Definition MAX_POWER_DOMAINS : nat := 16.
Definition MAX_PERIPHERAL_DEVICES : nat := 32.
Definition SHORT_NAME_MAX_LEN : nat := 32.

(** ** Raw entries *)

Inductive MemoryRegionKind :=
| Usable | Reserved | AcpiReclaimable | AcpiNvs | Mmio | KernelImage | BootReserved.

#[export] Instance MemoryRegionKind_eq_dec : EqDecision MemoryRegionKind.
Proof. solve_decision. Defined.

Record MemoryRegionRaw := mkMemoryRegion {
  base_addr : N;
  length_bytes : N;
  mrr_kind : MemoryRegionKind;
  behind_iommu : bool;
}.

Definition MemoryRegionRaw_ZERO : MemoryRegionRaw := mkMemoryRegion 0 0 Reserved false.

Inductive ComputeKind := Cpu | Gpu | Npu | Tpu | Fpga.

Record ComputeDeviceRaw := mkComputeDevice {
  cdr_kind : ComputeKind;
  vendor : N;
  has_dedicated_memory : bool;
  dedicated_memory_bytes : N;
  unified_memory_capable : bool;
  bandwidth_to_cpu_mbps : N;
  short_name : list N;
  short_name_len : N;
  cdr_device_index : N;
}.

Definition ComputeDeviceRaw_ZERO : ComputeDeviceRaw :=
  mkComputeDevice Cpu 0 false 0 false 0 (replicate SHORT_NAME_MAX_LEN 0%N) 0 0.

Inductive PeripheralKind := UnknownDevice | Block | Network | GpuDevice | Console.

#[export] Instance PeripheralKind_eq_dec : EqDecision PeripheralKind.
Proof. solve_decision. Defined.

Record PeripheralDeviceRaw := mkPeripheral {
  pdr_kind : PeripheralKind;
  mmio_base : N;
  mmio_size : N;
  irq : N;
  pdr_device_index : N;
  config_space_base : N;
}.

Definition PeripheralDeviceRaw_ZERO : PeripheralDeviceRaw := mkPeripheral UnknownDevice 0 0 0 0 0.

Definition peripheral_new (kind : PeripheralKind) (base size line : N) : PeripheralDeviceRaw :=
  mkPeripheral kind base size line 0 0.

Definition peripheral_new_pci (kind : PeripheralKind) (base size line config : N)
    : PeripheralDeviceRaw :=
  let d := peripheral_new kind base size line in
  mkPeripheral (pdr_kind d) (mmio_base d) (mmio_size d) (irq d) (pdr_device_index d) config.

Inductive InterruptControllerKind := ApicXapic | ApicX2apic | Gicv3 | Gicv4 | PlicClic.

Record InterruptControllerInfoRaw := mkInterruptController {
  icr_kind : InterruptControllerKind;
  primary_base : N;
  has_secondary : bool;
  icr_secondary_base : N;
  irq_line_count : N;
  ipi_target_core_count : N;
}.

Definition InterruptControllerInfoRaw_ZERO : InterruptControllerInfoRaw :=
  mkInterruptController ApicXapic 0 false 0 0 0.

Inductive TimerKind := Tsc | Hpet | ArmGenericTimer | RiscvSbiTimer.

Record TimerInfoRaw := mkTimer {
  tir_kind : TimerKind;
  frequency_hz : N;
  supports_tickless : bool;
}.

Definition TimerInfoRaw_ZERO : TimerInfoRaw := mkTimer Tsc 0 false.

Record PowerDomainRaw := mkPowerDomain {
  domain_id : N;
  associated_compute_device_index : N;
  supports_dvfs : bool;
  has_thermal_sensor : bool;
}.

Definition NO_ASSOCIATED_DEVICE : N := 4294967295.

Definition PowerDomainRaw_ZERO : PowerDomainRaw :=
  mkPowerDomain 0 NO_ASSOCIATED_DEVICE false false.

(** ** The raw manifest *)

Record RawArray (A : Type) := mkArray { arr : list A; cnt : N; truncated : N }.
Arguments mkArray {A} _ _ _.
Arguments arr {A} _.
Arguments cnt {A} _.
Arguments truncated {A} _.

Record HardwareManifestRaw := mkManifest {
  cpu_core_count : N;
  cpu_feature_flags : N;
  memory : RawArray MemoryRegionRaw;
  compute : RawArray ComputeDeviceRaw;
  peripherals : RawArray PeripheralDeviceRaw;
  interrupt_controller : InterruptControllerInfoRaw;
  timer : TimerInfoRaw;
  power : RawArray PowerDomainRaw;
}.

Definition zeroed : HardwareManifestRaw := {|
  cpu_core_count := 0;
  cpu_feature_flags := 0;
  memory := mkArray (replicate MAX_MEMORY_REGIONS MemoryRegionRaw_ZERO) 0 0;
  compute := mkArray (replicate MAX_COMPUTE_DEVICES ComputeDeviceRaw_ZERO) 0 0;
  peripherals := mkArray (replicate MAX_PERIPHERAL_DEVICES PeripheralDeviceRaw_ZERO) 0 0;
  interrupt_controller := InterruptControllerInfoRaw_ZERO;
  timer := TimerInfoRaw_ZERO;
  power := mkArray (replicate MAX_POWER_DOMAINS PowerDomainRaw_ZERO) 0 0;
|}.

Definition has_truncation (m : HardwareManifestRaw) : bool :=
  (0 <? truncated (memory m))%N || (0 <? truncated (compute m))%N ||
  (0 <? truncated (peripherals m))%N || (0 <? truncated (power m))%N.

(** [&self.array[..self.count as usize]]; [None]: the count exceeds the
    array. *)
Definition live {A} (a : RawArray A) : option (list A) :=
  if (cnt a <=? N.of_nat (length (arr a)))%N then Some (take (N.to_nat (cnt a)) (arr a)) else None.

Definition memory_regions (m : HardwareManifestRaw) : option (list MemoryRegionRaw) :=
  live (memory m).
Definition compute_devices (m : HardwareManifestRaw) : option (list ComputeDeviceRaw) :=
  live (compute m).
Definition peripheral_devices (m : HardwareManifestRaw) : option (list PeripheralDeviceRaw) :=
  live (peripherals m).
Definition power_domains (m : HardwareManifestRaw) : option (list PowerDomainRaw) :=
  live (power m).

(** The body shared by the four [push_*] methods; [mk] is given the slot. *)
Definition push_at {A} (max : nat) (mk : N → A) : M (RawArray A) unit unit :=
  a ← gets (λ a, a);
  let idx := cnt a in
  if (N.of_nat max <=? idx)%N then
    t ← unwrap (checked_add U32 (truncated a) 1);
    _ ← modify (λ a, mkArray (arr a) (cnt a) t);
    throw tt
  else
    _ ← unwrap (getN (arr a) idx);
    _ ← modify (λ a, mkArray (<[N.to_nat idx := mk (truncate U32 idx)]> (arr a)) (cnt a) (truncated a));
    n ← unwrap (checked_add U32 (cnt a) 1);
    modify (λ a, mkArray (arr a) n (truncated a)).

Definition set_memory x m := mkManifest (cpu_core_count m) (cpu_feature_flags m) x (compute m)
  (peripherals m) (interrupt_controller m) (timer m) (power m).
Definition set_compute x m := mkManifest (cpu_core_count m) (cpu_feature_flags m) (memory m) x
  (peripherals m) (interrupt_controller m) (timer m) (power m).
Definition set_peripherals x m := mkManifest (cpu_core_count m) (cpu_feature_flags m) (memory m)
  (compute m) x (interrupt_controller m) (timer m) (power m).
Definition set_power x m := mkManifest (cpu_core_count m) (cpu_feature_flags m) (memory m)
  (compute m) (peripherals m) (interrupt_controller m) (timer m) x.
Definition set_timer x m := mkManifest (cpu_core_count m) (cpu_feature_flags m) (memory m)
  (compute m) (peripherals m) (interrupt_controller m) x (power m).

Definition push_memory_region (region : MemoryRegionRaw) : M HardwareManifestRaw unit unit :=
  zoom memory set_memory (push_at MAX_MEMORY_REGIONS (λ _, region)).

Definition with_compute_index (i : N) (d : ComputeDeviceRaw) : ComputeDeviceRaw :=
  mkComputeDevice (cdr_kind d) (vendor d) (has_dedicated_memory d) (dedicated_memory_bytes d)
    (unified_memory_capable d) (bandwidth_to_cpu_mbps d) (short_name d) (short_name_len d) i.

Definition push_compute_device (device : ComputeDeviceRaw) : M HardwareManifestRaw unit unit :=
  zoom compute set_compute (push_at MAX_COMPUTE_DEVICES (λ i, with_compute_index i device)).

Definition with_peripheral_index (i : N) (d : PeripheralDeviceRaw) : PeripheralDeviceRaw :=
  mkPeripheral (pdr_kind d) (mmio_base d) (mmio_size d) (irq d) i (config_space_base d).

Definition push_peripheral_device (device : PeripheralDeviceRaw)
    : M HardwareManifestRaw unit unit :=
  zoom peripherals set_peripherals
    (push_at MAX_PERIPHERAL_DEVICES (λ i, with_peripheral_index i device)).

Definition push_power_domain (domain : PowerDomainRaw) : M HardwareManifestRaw unit unit :=
  zoom power set_power (push_at MAX_POWER_DOMAINS (λ _, domain)).

(** ** The owned manifest

    The kinds convert one to one, so the raw enumerations serve both forms. *)

Record ComputeDevice (Cap : Type) := mkOwnedCompute {
  od_kind : ComputeKind;
  od_vendor : N;
  od_dedicated_memory_bytes : option N;
  od_unified_memory_capable : bool;
  od_bandwidth_to_cpu_mbps : N;
  od_name : list N;
  od_device_index : N;
  od_capability_token : option Cap;
}.
Arguments mkOwnedCompute {Cap} _ _ _ _ _ _ _ _.

Record PeripheralDevice (Cap : Type) := mkOwnedPeripheral {
  op_kind : PeripheralKind;
  op_mmio_base : N;
  op_mmio_size : N;
  op_irq : N;
  op_device_index : N;
  op_config_space_base : N;
  op_capability_token : option Cap;
}.
Arguments mkOwnedPeripheral {Cap} _ _ _ _ _ _ _.

Record InterruptControllerInfo := mkOwnedInterruptController {
  oi_kind : InterruptControllerKind;
  oi_primary_base : N;
  oi_secondary_base : option N;
  oi_irq_line_count : N;
  oi_ipi_target_core_count : N;
}.

Record PowerDomain := mkOwnedPowerDomain {
  ow_domain_id : N;
  ow_associated : option N;
  ow_supports_dvfs : bool;
  ow_has_thermal_sensor : bool;
}.

Record HardwareManifest (Cap : Type) := mkOwned {
  om_core_count : N;
  om_feature_flags : N;
  om_memory_regions : list MemoryRegionRaw;
  om_compute_devices : list (ComputeDevice Cap);
  om_peripheral_devices : list (PeripheralDevice Cap);
  om_interrupt_controller : InterruptControllerInfo;
  om_timer : TimerInfoRaw;
  om_power_domains : list PowerDomain;
}.
Arguments mkOwned {Cap} _ _ _ _ _ _ _ _.
Arguments om_compute_devices {Cap} _.
Arguments om_peripheral_devices {Cap} _.
Arguments om_memory_regions {Cap} _.
Arguments om_power_domains {Cap} _.

Definition then_some {A} (b : bool) (a : A) : option A := if b then Some a else None.

Section from_raw.
(** [String::from_utf8_lossy], on bytes. *)
Context {Cap : Type} (from_utf8_lossy : list N → list N).

(** [None]: the name length exceeds the name buffer. *)
Definition compute_from_raw (raw : ComputeDeviceRaw) : option (ComputeDevice Cap) :=
  if (short_name_len raw <=? N.of_nat (length (short_name raw)))%N then
    let name_bytes := take (N.to_nat (short_name_len raw)) (short_name raw) in
    Some (mkOwnedCompute (cdr_kind raw) (vendor raw)
      (then_some (has_dedicated_memory raw) (dedicated_memory_bytes raw))
      (unified_memory_capable raw) (bandwidth_to_cpu_mbps raw)
      (from_utf8_lossy name_bytes) (cdr_device_index raw) None)
  else None.

Definition peripheral_from_raw (raw : PeripheralDeviceRaw) : PeripheralDevice Cap :=
  mkOwnedPeripheral (pdr_kind raw) (mmio_base raw) (mmio_size raw) (irq raw)
    (pdr_device_index raw) (config_space_base raw) None.

Definition interrupt_from_raw (raw : InterruptControllerInfoRaw) : InterruptControllerInfo :=
  mkOwnedInterruptController (icr_kind raw) (primary_base raw)
    (then_some (has_secondary raw) (icr_secondary_base raw))
    (irq_line_count raw) (ipi_target_core_count raw).

Definition power_from_raw (raw : PowerDomainRaw) : PowerDomain :=
  let associated :=
    if (associated_compute_device_index raw =? NO_ASSOCIATED_DEVICE)%N then None
    else Some (associated_compute_device_index raw) in
  mkOwnedPowerDomain (domain_id raw) associated (supports_dvfs raw) (has_thermal_sensor raw).

Definition from_raw (raw : HardwareManifestRaw) : option (HardwareManifest Cap) :=
  regions ← memory_regions raw;
  devices ← compute_devices raw;
  devices ← mapM compute_from_raw devices;
  perips ← peripheral_devices raw;
  domains ← power_domains raw;
  Some (mkOwned (cpu_core_count raw) (cpu_feature_flags raw) regions devices
    (peripheral_from_raw <$> perips) (interrupt_from_raw (interrupt_controller raw))
    (timer raw) (power_from_raw <$> domains)).
End from_raw.

(** ** Invariant *)

Record array_wf {A} (max : nat) (a : RawArray A) : Prop := {
  arw_length : length (arr a) = max;
  arw_cnt : (cnt a ≤ N.of_nat max)%N;
}.

Record manifest_wf (m : HardwareManifestRaw) : Prop := {
  mnw_memory : array_wf MAX_MEMORY_REGIONS (memory m);
  mnw_compute : array_wf MAX_COMPUTE_DEVICES (compute m);
  mnw_peripherals : array_wf MAX_PERIPHERAL_DEVICES (peripherals m);
  mnw_power : array_wf MAX_POWER_DOMAINS (power m);
}.

Lemma array_wf_new {A} max (x : A) : array_wf max (mkArray (replicate max x) 0 0).
Proof. split; simpl; [apply length_replicate|lia]. Qed.

Lemma zeroed_wf : manifest_wf zeroed.
Proof. split; apply array_wf_new. Qed.

Lemma live_spec {A} max (a : RawArray A) :
  array_wf max a → live a = Some (take (N.to_nat (cnt a)) (arr a)).
Proof. intros [H1 H2]. unfold live. by rewrite (proj2 (N.leb_le _ _)) by lia. Qed.

(** A push appends the entry, with its slot, or counts a truncation; the only
    panic is the overflow of the truncation counter. *)
Lemma push_at_spec {A} max (mk : N → A) (a : RawArray A) l :
  array_wf max a → (N.of_nat max < U32)%N → live a = Some l → (truncated a + 1 < U32)%N →
  if decide (length l < max)
  then ∃ a', push_at max mk a = (Ok tt, a') ∧ array_wf max a' ∧
             live a' = Some (l ++ [mk (N.of_nat (length l))]) ∧ truncated a' = truncated a
  else push_at max mk a = (Err tt, mkArray (arr a) (cnt a) (truncated a + 1)) ∧ length l = max.
Proof.
  intros Hw Hm Hl Ht. rewrite (live_spec _ _ Hw) in Hl. injection Hl as <-.
  destruct Hw as [H1 H2]. rewrite length_take, H1, Nat.min_l by lia.
  unfold push_at, mbind, M_bind. simpl. case_decide as Hd.
  - rewrite (proj2 (N.leb_gt _ _)) by lia. rewrite getN_lookup.
    destruct (lookup_lt_is_Some_2 (arr a) (N.to_nat (cnt a))) as [x Hx]; [lia|].
    rewrite Hx. simpl. unfold checked_add. rewrite (proj2 (N.ltb_lt _ _)) by lia. simpl.
    eexists. split; [done|].
    assert (∀ y t, array_wf max (mkArray (<[N.to_nat (cnt a) := y]> (arr a)) (cnt a + 1) t)) as Hw'.
    { intros y t. split; simpl; [by rewrite length_insert|lia]. }
    split; [apply Hw'|]. split; [|done]. rewrite (live_spec max) by apply Hw'. simpl. f_equal.
    replace (N.to_nat (cnt a + 1)) with (S (N.to_nat (cnt a))) by lia.
    erewrite take_S_r; [|apply list_lookup_insert_eq; lia].
    rewrite take_insert_ge by lia. unfold truncate. rewrite N.mod_small by lia.
    by rewrite N2Nat.id.
  - rewrite (proj2 (N.leb_le _ _)) by lia. simpl. unfold checked_add.
    rewrite (proj2 (N.ltb_lt _ _)) by lia. simpl. split; [done|lia].
Qed.

(** ** Properties *)

(** Discovery: pushing a peripheral appends it with its slot as device
    index, so the index of every device is its position; when the array is
    full the push fails, changes no device and is counted. *)
Theorem push_peripheral_spec d m l :
  manifest_wf m → peripheral_devices m = Some l → (truncated (peripherals m) + 1 < U32)%N →
  (∀ i x, l !! i = Some x → pdr_device_index x = N.of_nat i) →
  let '(r, m') := push_peripheral_device d m in
  manifest_wf m' ∧
  ∃ l', peripheral_devices m' = Some l' ∧
    (∀ i x, l' !! i = Some x → pdr_device_index x = N.of_nat i) ∧
    if decide (length l < MAX_PERIPHERAL_DEVICES)
    then r = Ok tt ∧ l' = l ++ [with_peripheral_index (N.of_nat (length l)) d] ∧
         has_truncation m' = has_truncation m
    else r = Err tt ∧ l' = l ∧ has_truncation m' = true.
Proof.
  intros [Hme Hco Hpe Hpo] Hl Ht Hidx. unfold push_peripheral_device, zoom.
  pose proof (push_at_spec MAX_PERIPHERAL_DEVICES (λ i, with_peripheral_index i d)
    (peripherals m) l Hpe eq_refl Hl Ht) as H.
  case_decide as Hd.
  - destruct H as (a & -> & Ha & Hla & Htr). split; [by split|].
    exists (l ++ [with_peripheral_index (N.of_nat (length l)) d]). split; [done|].
    split; [|by unfold has_truncation; simpl; rewrite Htr].
    intros i x. destruct (decide (i < length l)).
    + rewrite lookup_app_l by done. apply Hidx.
    + rewrite lookup_app_r by lia. intros Hx.
      assert (i = length l) as -> by (apply lookup_lt_Some in Hx; simpl in Hx; lia).
      rewrite Nat.sub_diag in Hx. by injection Hx as <-.
  - destruct H as [-> Hfull]. split; [by split; try done; destruct Hpe|].
    exists l. split; [done|]. split; [done|]. split; [done|]. split; [done|].
    unfold has_truncation. simpl. rewrite (proj2 (N.ltb_lt 0 (truncated _ + 1))) by lia.
    by rewrite orb_true_r.
Qed.

Lemma push_peripheral_spec_witness :
  let d := peripheral_new Block 4096 4096 3 in
  let '(r, m') := push_peripheral_device d zeroed in
  manifest_wf m' ∧
  ∃ l', peripheral_devices m' = Some l' ∧
    (∀ i x, l' !! i = Some x → pdr_device_index x = N.of_nat i) ∧
    if decide (length (@nil PeripheralDeviceRaw) < MAX_PERIPHERAL_DEVICES)
    then r = Ok tt ∧ l' = [] ++ [with_peripheral_index 0 d] ∧
         has_truncation m' = has_truncation zeroed
    else r = Err tt ∧ l' = [] ∧ has_truncation m' = true.
Proof.
  apply (push_peripheral_spec (peripheral_new Block 4096 4096 3) zeroed []).
  - apply zeroed_wf.
  - reflexivity.
  - reflexivity.
  - intros i x Hi. discriminate Hi.
Defined.
