(* ===== verification/Kernel.v ===== *)
(** * Kernel state

    [kernel/kernel-core/src]: the capacities ([config.rs]), thread control
    blocks ([tcb.rs]) and the object tables with their allocation and access
    ([state.rs]).  Booting is in [Boot], system calls are in [Syscall]. *)

From S2P Require Import Prelude Capability CapTable Cdt Untyped AddressSpace Ipc Scheduler Manifest.

(** ** Capacities *)

Definition CONTEXT_BYTES : nat := 160.
Definition HAL_USER_CONTEXT_BYTES : nat := 320.
Definition MAX_THREADS : nat := 96.
Definition MAX_CHAIN_GROUPS : nat := 24.
Definition MAX_CAP_SPACES : nat := 16.
Definition CAP_SLOTS_PER_SPACE : nat := 96.
Definition MAX_ADDR_SPACES : nat := 24.
Definition MAPPINGS_PER_SPACE : nat := 32.
Definition MAX_UNTYPED : nat := 80.
Definition MAX_ENDPOINTS : nat := 48.
Definition MAX_NOTIFICATIONS : nat := 48.
Definition MAX_SHARED_REGIONS : nat := 32.
Definition MAX_MMIO_REGIONS : nat := MAX_PERIPHERAL_DEVICES.
Definition MAX_IRQ_BINDINGS : nat := 64.
Definition ENDPOINT_QUEUE : nat := 8.
Definition NOTIF_WAITERS : nat := 8.
Definition INTERACTIVE_QUANTUM_NS : N := 3000000.

(** ** Threads *)

Inductive ThreadState :=
| Inactive | Runnable | BlockedOnSend | BlockedOnRecv | BlockedOnReply
| BlockedOnNotification | Exited.

#[export] Instance ThreadState_eq_dec : EqDecision ThreadState.
Proof. solve_decision. Defined.

Definition is_blocked (s : ThreadState) : bool :=
  match s with
  | BlockedOnSend | BlockedOnRecv | BlockedOnReply | BlockedOnNotification => true
  | _ => false
  end.

Record Tcb := mkTcb {
  tcb_id : ThreadId;
  tcb_context : list N;
  tcb_user_context : list N;
  tcb_cap_space : CapSpaceId;
  tcb_addr_space : PageTableId;
  tcb_entry : N;
  tcb_state : ThreadState;
  pending_msg : option SmallMessage;
  pending_from : option ThreadId;
}.

Definition new_inactive (id : ThreadId) (cs : CapSpaceId) (sp : PageTableId) : Tcb :=
  mkTcb id (replicate CONTEXT_BYTES 0%N) (replicate HAL_USER_CONTEXT_BYTES 0%N)
    cs sp 0 Inactive None None.

Definition set_tcb_state (st : ThreadState) (t : Tcb) : Tcb :=
  mkTcb (tcb_id t) (tcb_context t) (tcb_user_context t) (tcb_cap_space t) (tcb_addr_space t)
    (tcb_entry t) st (pending_msg t) (pending_from t).

Definition set_tcb_msg (m : option SmallMessage) (t : Tcb) : Tcb :=
  mkTcb (tcb_id t) (tcb_context t) (tcb_user_context t) (tcb_cap_space t) (tcb_addr_space t)
    (tcb_entry t) (tcb_state t) m (pending_from t).

Definition set_tcb_from (f : option ThreadId) (t : Tcb) : Tcb :=
  mkTcb (tcb_id t) (tcb_context t) (tcb_user_context t) (tcb_cap_space t) (tcb_addr_space t)
    (tcb_entry t) (tcb_state t) (pending_msg t) f.

Definition set_tcb_entry (a : N) (t : Tcb) : Tcb :=
  mkTcb (tcb_id t) (tcb_context t) (tcb_user_context t) (tcb_cap_space t) (tcb_addr_space t)
    a (tcb_state t) (pending_msg t) (pending_from t).

Definition set_tcb_user_context (c : list N) (t : Tcb) : Tcb :=
  mkTcb (tcb_id t) (tcb_context t) c (tcb_cap_space t) (tcb_addr_space t)
    (tcb_entry t) (tcb_state t) (pending_msg t) (pending_from t).

Record MmioRegionDescriptor := mkMmio {
  mr_phys_base : N;
  mr_size : N;
  mr_irq : N;
  mr_config_space_base : N;
}.

(** ** The state

    The fields of [KernelState]; the boot-time identities and the page-table
    frame pool are grouped in two records. *)

Record RootIds := mkRoot {
  root_thread : ThreadId;
  root_cap_space : CapSpaceId;
  root_addr_space : PageTableId;
  root_page_table_cap : CapId;
  root_mmio_blk_cap : CapId;
  root_mmio_net_cap : CapId;
  untyped_count : N;
}.

Record MapPool := mkPool {
  map_pool_base : N;
  map_pool_len : N;
  map_pool_used : N;
}.

Record KernelState := mkKernel {
  cap_spaces : list (option CapTable);
  untyped : list (option UntypedMemory);
  addr_spaces : list (option AddressSpace);
  endpoints : list (option Ipc.Endpoint);
  notifications : list (option Ipc.Notification);
  shared_regions : list (option Ipc.SharedRegion);
  mmio_regions : list (option MmioRegionDescriptor);
  irq_bindings : list (option (N * NotificationId));
  tcbs : list (option Tcb);
  sched : Scheduler;
  root : RootIds;
  pool : MapPool;
}.

Definition EMPTY_STATE : KernelState := {|
  cap_spaces := replicate MAX_CAP_SPACES None;
  untyped := replicate MAX_UNTYPED None;
  addr_spaces := replicate MAX_ADDR_SPACES None;
  endpoints := replicate MAX_ENDPOINTS None;
  notifications := replicate MAX_NOTIFICATIONS None;
  shared_regions := replicate MAX_SHARED_REGIONS None;
  mmio_regions := replicate MAX_MMIO_REGIONS None;
  irq_bindings := replicate MAX_IRQ_BINDINGS None;
  tcbs := replicate MAX_THREADS None;
  sched := sched_new MAX_THREADS MAX_CHAIN_GROUPS INTERACTIVE_QUANTUM_NS;
  root := mkRoot 0 0 0 id_max id_max id_max 0;
  pool := mkPool 0 0 0;
|}.

Definition set_cap_spaces x k := mkKernel x (untyped k) (addr_spaces k) (endpoints k)
  (notifications k) (shared_regions k) (mmio_regions k) (irq_bindings k) (tcbs k) (sched k)
  (root k) (pool k).
Definition set_untyped x k := mkKernel (cap_spaces k) x (addr_spaces k) (endpoints k)
  (notifications k) (shared_regions k) (mmio_regions k) (irq_bindings k) (tcbs k) (sched k)
  (root k) (pool k).
Definition set_addr_spaces x k := mkKernel (cap_spaces k) (untyped k) x (endpoints k)
  (notifications k) (shared_regions k) (mmio_regions k) (irq_bindings k) (tcbs k) (sched k)
  (root k) (pool k).
Definition set_endpoints x k := mkKernel (cap_spaces k) (untyped k) (addr_spaces k) x
  (notifications k) (shared_regions k) (mmio_regions k) (irq_bindings k) (tcbs k) (sched k)
  (root k) (pool k).
Definition set_notifications x k := mkKernel (cap_spaces k) (untyped k) (addr_spaces k)
  (endpoints k) x (shared_regions k) (mmio_regions k) (irq_bindings k) (tcbs k) (sched k)
  (root k) (pool k).
Definition set_shared_regions x k := mkKernel (cap_spaces k) (untyped k) (addr_spaces k)
  (endpoints k) (notifications k) x (mmio_regions k) (irq_bindings k) (tcbs k) (sched k)
  (root k) (pool k).
Definition set_mmio_regions x k := mkKernel (cap_spaces k) (untyped k) (addr_spaces k)
  (endpoints k) (notifications k) (shared_regions k) x (irq_bindings k) (tcbs k) (sched k)
  (root k) (pool k).
Definition set_irq_bindings x k := mkKernel (cap_spaces k) (untyped k) (addr_spaces k)
  (endpoints k) (notifications k) (shared_regions k) (mmio_regions k) x (tcbs k) (sched k)
  (root k) (pool k).
Definition set_tcbs x k := mkKernel (cap_spaces k) (untyped k) (addr_spaces k)
  (endpoints k) (notifications k) (shared_regions k) (mmio_regions k) (irq_bindings k) x
  (sched k) (root k) (pool k).
Definition set_sched x k := mkKernel (cap_spaces k) (untyped k) (addr_spaces k)
  (endpoints k) (notifications k) (shared_regions k) (mmio_regions k) (irq_bindings k) (tcbs k)
  x (root k) (pool k).
Definition set_root x k := mkKernel (cap_spaces k) (untyped k) (addr_spaces k)
  (endpoints k) (notifications k) (shared_regions k) (mmio_regions k) (irq_bindings k) (tcbs k)
  (sched k) x (pool k).
Definition set_pool x k := mkKernel (cap_spaces k) (untyped k) (addr_spaces k)
  (endpoints k) (notifications k) (shared_regions k) (mmio_regions k) (irq_bindings k) (tcbs k)
  (sched k) (root k) x.

(** ** Allocation

    [let i = self.table.iter().position(|s| s.is_none())?;
     self.table[i] = Some(new(i)); Some(Id::new(i as u32))] *)
Definition alloc_in {E A} (get : KernelState → list (option A))
    (set : list (option A) → KernelState → KernelState) (new : N → A)
    : M KernelState E (option N) :=
  k ← gets (λ k, k);
  match position is_none (get k) with
  | None => mret None
  | Some i =>
      let id := truncate U32 (N.of_nat i) in
      _ ← modify (set (<[i := Some (new id)]> (get k)));
      mret (Some id)
  end.

Section alloc.
Context {E : Type}.

Definition alloc_cap_space : M KernelState E (option CapSpaceId) :=
  alloc_in cap_spaces set_cap_spaces (CapTable.new CAP_SLOTS_PER_SPACE).

Definition alloc_addr_space (root_phys : N) : M KernelState E (option PageTableId) :=
  alloc_in addr_spaces set_addr_spaces (λ _, as_new MAPPINGS_PER_SPACE root_phys).

Definition alloc_untyped (base size : N) : M KernelState E (option UntypedId) :=
  alloc_in untyped set_untyped (λ _, um_new base size).

Definition alloc_tcb (cs : CapSpaceId) (sp : PageTableId) : M KernelState E (option ThreadId) :=
  alloc_in tcbs set_tcbs (λ id, new_inactive id cs sp).

Definition alloc_endpoint : M KernelState E (option EndpointId) :=
  alloc_in endpoints set_endpoints (λ _, ep_new ENDPOINT_QUEUE).

Definition alloc_notification : M KernelState E (option NotificationId) :=
  alloc_in notifications set_notifications (λ _, notif_new NOTIF_WAITERS).

Definition alloc_shared_region (region : Ipc.SharedRegion)
    : M KernelState E (option SharedRegionId) :=
  alloc_in shared_regions set_shared_regions (λ _, region).

Definition alloc_mmio_region_direct (descriptor : MmioRegionDescriptor)
    : M KernelState E (option MmioRegionId) :=
  alloc_in mmio_regions set_mmio_regions (λ _, descriptor).
End alloc.

(** ** Interrupt bindings *)

Definition binds_irq (irq : N) (o : option (N * NotificationId)) : bool :=
  match o with Some (i, _) => (i =? irq)%N | None => false end.

Definition bind_irq {E} (irq : N) (notification : NotificationId) : M KernelState E bool :=
  k ← gets (λ k, k);
  match position (binds_irq irq) (irq_bindings k) with
  | Some i =>
      _ ← modify (set_irq_bindings (<[i := Some (irq, notification)]> (irq_bindings k)));
      mret true
  | None =>
      match position is_none (irq_bindings k) with
      | Some i =>
          _ ← modify (set_irq_bindings (<[i := Some (irq, notification)]> (irq_bindings k)));
          mret true
      | None => mret false
      end
  end.

Definition notification_for_irq (k : KernelState) (irq : N) : option NotificationId :=
  i ← position (binds_irq irq) (irq_bindings k);
  snd <$> mjoin (irq_bindings k !! i).

(** ** Access *)

Definition cap_space (k : KernelState) (id : CapSpaceId) : option CapTable :=
  tget (cap_spaces k) id.

(** [split_at_mut] at the larger index, then one table of each half. *)
Definition cap_space_pair (k : KernelState) (src dst : CapSpaceId)
    : option (CapTable * CapTable) :=
  let n := N.of_nat (length (cap_spaces k)) in
  if (src =? dst)%N || (n <=? src)%N || (n <=? dst)%N then None else
  let si := N.to_nat src in
  let di := N.to_nat dst in
  if (src <? dst)%N then
    let left := take di (cap_spaces k) in
    let right := drop di (cap_spaces k) in
    s ← mjoin (left !! si); d ← mjoin (right !! 0); Some (s, d)
  else
    let left := take si (cap_spaces k) in
    let right := drop si (cap_spaces k) in
    s ← mjoin (right !! 0); d ← mjoin (left !! di); Some (s, d).

Definition untyped_of (k : KernelState) (id : UntypedId) : option UntypedMemory :=
  tget (untyped k) id.
Definition addr_space (k : KernelState) (id : PageTableId) : option AddressSpace :=
  tget (addr_spaces k) id.
Definition endpoint (k : KernelState) (id : EndpointId) : option Ipc.Endpoint :=
  tget (endpoints k) id.
Definition notification (k : KernelState) (id : NotificationId) : option Ipc.Notification :=
  tget (notifications k) id.
Definition shared_region (k : KernelState) (id : SharedRegionId) : option Ipc.SharedRegion :=
  tget (shared_regions k) id.
Definition mmio_region (k : KernelState) (id : MmioRegionId) : option MmioRegionDescriptor :=
  tget (mmio_regions k) id.
Definition tcb (k : KernelState) (id : ThreadId) : option Tcb := tget (tcbs k) id.

(** [if let Some(t) = self.tcb_mut(id) { f(t) }] *)
Definition update_tcb (id : ThreadId) (f : Tcb → Tcb) (k : KernelState) : KernelState :=
  match tcb k id with
  | Some t => set_tcbs (<[N.to_nat id := Some (f t)]> (tcbs k)) k
  | None => k
  end.

(** An operation of the scheduler. *)
Definition on_sched {E A} : M Scheduler E A → M KernelState E A := zoom sched set_sched.

(** ** The page-table frame pool *)

Definition install_map_pool {E} (base len : N) : M KernelState E unit :=
  modify (set_pool (mkPool base len 0)).

(** [None]: an overflow. *)
Definition map_pool_remaining (k : KernelState) : option (N * N) :=
  let p := pool k in
  off ← checked_mul U64 (map_pool_used p) PAGE_SIZE;
  b ← checked_add U64 (map_pool_base p) off;
  n ← checked_sub (map_pool_len p) (map_pool_used p);
  Some (b, n).

Definition map_pool_advance {E} (consumed : N) : M KernelState E unit :=
  k ← gets (λ k, k);
  u ← unwrap (checked_add U32 (map_pool_used (pool k)) consumed);
  modify (λ k, set_pool (mkPool (map_pool_base (pool k)) (map_pool_len (pool k)) u) k).

(** [map(size_bytes).sum()]; [None]: an overflow. *)
Definition total_untyped_bytes (k : KernelState) : option N :=
  foldl (λ acc u, a ← acc; checked_add U64 a (um_size u)) (Some 0%N) (flatten (untyped k)).
