(* ===== verification/Syscall.v ===== *)
(** * System calls

    [kernel/kernel-core/src/syscall.rs]: capability resolution, the thirteen
    system calls and their dispatcher.  Every handler is a state
    transformer: what it wrote before an error stays written. *)

From S2P Require Import Prelude Capability CapTable Cdt Untyped AddressSpace Ipc Scheduler Kernel.

(** What the kernel calls of the hardware layer ([hal_core::HalInterface]), as
    functions of the arguments; a run may use another one at every step.
    [hal_context_switch from to] is what is saved in the outgoing context. *)
Record HalInterface := mkHal {
  hal_map_range : N → N → N → N → N → N → N → N;
  hal_register_irq : N → N → bool;
  hal_now_ns : N;
  hal_init_context : list N → N → N → list N;
  hal_init_user_context : list N → N → N → N → list N;
  hal_context_switch : list N → list N → list N;
}.

Inductive SyscallOp :=
| Yield
| Send (endpoint : CapId) (msg : SmallMessage)
| Call (endpoint : CapId) (msg : SmallMessage)
| Recv (endpoint : CapId)
| Reply (to : ThreadId) (msg : SmallMessage)
| CapGrant (target_thread cap : CapId) (rights : CapabilityRights)
| CapRevoke (cap : CapId)
| Retype (untyped : CapId) (target_type : KernelObjectType) (count : N)
| Map (page_table frame : CapId) (vaddr : N) (perms : MapPermissions)
| Signal (notification : CapId) (bits : N)
| Wait (notification : CapId)
| Poll (notification : CapId)
| IrqBind (mmio notification : CapId) (handler : N).

Inductive SyscallReturn :=
| Done
| Value (v : N)
| NewCaps (cap : CapId) (count : N)
| Revoked (freed : N)
| Granted (dst : CapId)
| Mapped
| RetBlocked
| Delivered (woke : ThreadId)
| Message (from : ThreadId) (msg : SmallMessage)
| Reschedule (next : option ThreadId).

Inductive SyscallError :=
| NoCaller
| BadCap
| WrongObjectKind
| InsufficientRights
| ObjectTableFull
| ErrCap (e : CapTableError)
| ErrMm (e : MmError)
| ErrIpc (e : IpcError)
| ErrSched (e : SchedError)
| NotBlockedOnReply
| ErrNotify (e : NotificationError)
| IrqRegistrationFailed
| Unsupported.

Abbreviation K := (M KernelState SyscallError) (only parsing).

(** [From<EndpointError>] *)
Definition from_endpoint_error (e : EndpointError) : SyscallError :=
  match e with QueueFull => ErrIpc IpcQueueFull end.

Definition wake_blocked {E} (tid : ThreadId) (now_ns : N) : M KernelState E unit :=
  ignore (on_sched (note_ready tid now_ns)).

Definition pick {E} : M KernelState E (option ThreadId) :=
  k ← gets (λ k, k); unwrap (pick_next (sched k)).

Section syscall.
Context {BF : Bitflags}.

(** ** Resolution *)

Definition caller_cap_space (caller : ThreadId) : K CapSpaceId :=
  k ← gets (λ k, k);
  t ← ok_or (tcb k caller) NoCaller;
  mret (tcb_cap_space t).

Definition lookup_cap (caller : ThreadId) (cap : CapId) : K Capability :=
  cs_id ← caller_cap_space caller;
  k ← gets (λ k, k);
  cs ← ok_or (cap_space k cs_id) NoCaller;
  ok_or (CapTable.lookup cs cap) BadCap.

Definition resolve (caller : ThreadId) (cap : CapId) (kind : KernelObjectKind)
    (needed : CapabilityRights) : K Capability :=
  c ← lookup_cap caller cap;
  if negb (bool_decide (or_kind (cap_object c) = kind)) then throw WrongObjectKind else
  if negb (allows c needed) then throw InsufficientRights else
  mret c.

Definition cap_kind_of (caller : ThreadId) (cap : CapId) : K KernelObjectKind :=
  c ← lookup_cap caller cap;
  mret (or_kind (cap_object c)).

(** ** Retype *)

(** The object-table slot of one retyped object. *)
Definition create_object (caller : ThreadId) (target_type : KernelObjectType)
    (obj_phys per : N) : K (KernelObjectKind * N) :=
  match target_type with
  | Untyped.Endpoint =>
      id ← alloc_endpoint; id ← ok_or id ObjectTableFull; mret (EndpointK, id)
  | Untyped.Notification =>
      id ← alloc_notification; id ← ok_or id ObjectTableFull; mret (NotificationK, id)
  | PageTable =>
      id ← alloc_addr_space obj_phys; id ← ok_or id ObjectTableFull; mret (PageTableK, id)
  | CapabilitySpace =>
      id ← alloc_cap_space; id ← ok_or id ObjectTableFull; mret (CapabilitySpaceK, id)
  | ThreadControlBlock =>
      k ← gets (λ k, k);
      t ← ok_or (tcb k caller) NoCaller;
      id ← alloc_tcb (tcb_cap_space t) (tcb_addr_space t);
      id ← ok_or id ObjectTableFull;
      mret (ThreadControlBlockK, id)
  | Untyped =>
      id ← alloc_untyped obj_phys per; id ← ok_or id ObjectTableFull; mret (UntypedMemoryK, id)
  | Untyped.SharedRegion =>
      id ← alloc_shared_region (mkRegion obj_phys per RW);
      id ← ok_or id ObjectTableFull;
      mret (SharedRegionK, id)
  end.

(** [cs.insert_root(newcap)?] in the space [cs_id]. *)
Definition insert_cap (cs_id : CapSpaceId) (cap : Capability) : K CapId :=
  on_slot cap_spaces set_cap_spaces cs_id NoCaller (map_err ErrCap (insert_root cap)).

(** Iterations [i], [i + 1], ... of the loop, [n] of them. *)
Fixpoint retype_loop (caller : ThreadId) (cs_id : CapSpaceId) (target_type : KernelObjectType)
    (phys_base : N) (n : nat) (i : N) (first : option CapId) (made : N)
    : K (option CapId * N) :=
  match n with
  | 0 => mret (first, made)
  | S n =>
      let per := object_size_bytes target_type in
      off ← unwrap (checked_mul U64 i per);
      obj_phys ← unwrap (checked_add U64 phys_base off);
      '(kind, obj_id) ← create_object caller target_type obj_phys per;
      slot ← insert_cap cs_id (full {| or_kind := kind; or_id := obj_id |});
      made ← unwrap (checked_add U32 made 1);
      retype_loop caller cs_id target_type phys_base n (i + 1)
        (match first with Some c => Some c | None => Some slot end) made
  end.

Definition do_retype (caller : ThreadId) (untyped_cap : CapId)
    (target_type : KernelObjectType) (count : N) : K SyscallReturn :=
  ucap ← resolve caller untyped_cap UntypedMemoryK WRITE;
  grant ← on_slot untyped set_untyped (or_id (cap_object ucap)) BadCap
            (map_err ErrMm (retype target_type count));
  cs_id ← caller_cap_space caller;
  '(first, made) ← retype_loop caller cs_id target_type (rg_phys_base grant)
                     (N.to_nat (rg_count grant)) 0 None 0;
  first ← ok_or first (ErrMm ZeroCount);
  mret (NewCaps first made).

(** ** Capabilities *)

Definition do_cap_revoke (caller : ThreadId) (cap : CapId) : K SyscallReturn :=
  kind ← cap_kind_of caller cap;
  _ ← resolve caller cap kind REVOKE;
  cs_id ← caller_cap_space caller;
  freed ← zoom cap_spaces set_cap_spaces
            (map_err ErrCap (revoke_cross_space CAP_SLOTS_PER_SPACE (mkGlobalCapId cs_id cap)));
  mret (Revoked freed).

Definition do_cap_grant (caller : ThreadId) (target_thread cap : CapId)
    (rights : CapabilityRights) : K SyscallReturn :=
  tcap ← resolve caller target_thread ThreadControlBlockK WRITE;
  k ← gets (λ k, k);
  dst_tcb ← ok_or (tcb k (or_id (cap_object tcap))) BadCap;
  let dst_cs := tcb_cap_space dst_tcb in
  kind ← cap_kind_of caller cap;
  _ ← resolve caller cap kind GRANT;
  src_cs ← caller_cap_space caller;
  '(src, _) ← ok_or (cap_space_pair k src_cs dst_cs) BadCap;
  dst_slot ← on_slot cap_spaces set_cap_spaces dst_cs BadCap
               (map_err ErrCap (derive_child_cross_space src src_cs cap rights 0));
  mret (Granted dst_slot).

(** ** Mapping *)

Definition bit (b : bool) : N := if b then 1 else 0.

Definition perm_bits (p : MapPermissions) : N :=
  N.lor (N.lor (N.lor (bit (readable p)) (N.shiftl (bit (writable p)) 1))
               (N.shiftl (bit (executable p)) 2))
        (N.shiftl 1 3).

(** The rights on the frame that a mapping needs. *)
Definition frame_rights (p : MapPermissions) : CapabilityRights :=
  if executable p then bf_union READ EXECUTE
  else if writable p then bf_union READ WRITE
  else READ.

(** The physical address a frame capability stands for. *)
Definition frame_base (k : KernelState) (o : ObjectRef) : SyscallError + N :=
  match or_kind o with
  | UntypedMemoryK =>
      match untyped_of k (or_id o) with Some u => inr (um_base u) | None => inl BadCap end
  | MmioRegionK =>
      match mmio_region k (or_id o) with Some r => inr (mr_phys_base r) | None => inl BadCap end
  | _ => inl WrongObjectKind
  end.

(** The hardware half of [do_map]. *)
Definition map_hardware (hal : HalInterface) (as_id : PageTableId)
    (root_phys vaddr frame_phys : N) (perms : MapPermissions) : K unit :=
  k ← gets (λ k, k);
  '(pool_base, pool_len) ← unwrap (map_pool_remaining k);
  let consumed := hal_map_range hal root_phys vaddr frame_phys PAGE_SIZE (perm_bits perms)
                    pool_base pool_len in
  if (consumed =? id_max)%N then
    _ ← ignore (on_slot addr_spaces set_addr_spaces as_id BadCap (map_err ErrMm (unmap vaddr)));
    throw (ErrMm HardwareMapFailed)
  else map_pool_advance consumed.

Definition do_map (hal : HalInterface) (caller : ThreadId) (page_table frame : CapId)
    (vaddr : N) (perms : MapPermissions) : K SyscallReturn :=
  pt ← resolve caller page_table PageTableK WRITE;
  fr ← lookup_cap caller frame;
  if negb (allows fr (frame_rights perms)) then throw InsufficientRights else
  k ← gets (λ k, k);
  frame_phys ← match frame_base k (cap_object fr) with
               | inl e => throw e
               | inr a => mret a
               end;
  let as_id := or_id (cap_object pt) in
  root_phys ← on_slot addr_spaces set_addr_spaces as_id BadCap
                (_ ← map_err ErrMm (AddressSpace.map vaddr frame_phys PAGE_SIZE perms);
                 gets as_root_phys);
  _ ← (if negb (map_pool_base (pool k) =? 0)%N
       then map_hardware hal as_id root_phys vaddr frame_phys perms
       else mret tt);
  mret Mapped.

(** ** Notifications *)

Definition do_signal (caller : ThreadId) (ncap : CapId) (bits now_ns : N) : K SyscallReturn :=
  cap ← resolve caller ncap NotificationK WRITE;
  woken ← on_slot notifications set_notifications (or_id (cap_object cap)) BadCap (signal bits);
  _ ← for_each (as_slice woken) (λ tid, wake_blocked tid now_ns);
  mret Done.

Definition do_wait (caller : ThreadId) (ncap : CapId) (now_ns : N) : K SyscallReturn :=
  cap ← resolve caller ncap NotificationK READ;
  let nid := or_id (cap_object cap) in
  bits ← on_slot notifications set_notifications nid BadCap poll;
  if negb (bits =? 0)%N then mret (Value bits) else
  _ ← on_slot notifications set_notifications nid BadCap (map_err ErrNotify (wait caller));
  _ ← on_sched (account now_ns);
  _ ← ignore (on_sched (note_blocked caller));
  mret RetBlocked.

Definition do_poll (caller : ThreadId) (ncap : CapId) : K SyscallReturn :=
  cap ← resolve caller ncap NotificationK READ;
  bits ← on_slot notifications set_notifications (or_id (cap_object cap)) BadCap poll;
  mret (Value bits).

Definition do_irq_bind (hal : HalInterface) (caller : ThreadId) (mmio ncap : CapId)
    (handler : N) : K SyscallReturn :=
  mmio_cap ← resolve caller mmio MmioRegionK WRITE;
  k ← gets (λ k, k);
  region ← ok_or (mmio_region k (or_id (cap_object mmio_cap))) BadCap;
  let irq := mr_irq region in
  notif_cap ← resolve caller ncap NotificationK WRITE;
  bound ← bind_irq irq (or_id (cap_object notif_cap));
  if negb bound then throw ObjectTableFull else
  if negb (hal_register_irq hal irq handler) then throw IrqRegistrationFailed else
  mret Done.

(** ** Synchronous IPC *)

(** The message handed to a receiver that was already blocked. *)
Definition deliver (caller : ThreadId) (eid : EndpointId) (now_ns : N) : K unit :=
  k ← gets (λ k, k);
  delivered ← match endpoint k eid with
              | Some _ => on_slot endpoints set_endpoints eid BadCap take_delivered
              | None => mret None
              end;
  match delivered with
  | Some (rx, m) =>
      _ ← modify (update_tcb rx (λ t,
            set_tcb_state Runnable (set_tcb_from (Some caller) (set_tcb_msg (Some m) t))));
      map_err ErrSched (on_sched (note_ready rx now_ns))
  | None => mret tt
  end.

Definition do_send (caller : ThreadId) (ecap : CapId) (msg : SmallMessage) (is_call : bool)
    (now_ns : N) : K SyscallReturn :=
  ep_cap ← resolve caller ecap EndpointK WRITE;
  let eid := or_id (cap_object ep_cap) in
  k ← gets (λ k, k);
  let fast_path := is_call &&
    match (λ ep, fast_path_eligible ep msg is_call) <$> endpoint k eid with
    | Some (Take _) => true
    | _ => false
    end in
  outcome ← on_slot endpoints set_endpoints eid BadCap
              (map_err from_endpoint_error (try_send caller msg true));
  match outcome with
  | DeliveredTo rx =>
      _ ← deliver caller eid now_ns;
      if is_call then
        _ ← modify (update_tcb caller (set_tcb_state BlockedOnReply));
        _ ← map_err ErrSched (on_sched (note_blocked caller));
        next ← (if fast_path then mret (Some rx) else pick);
        mret (Reschedule next)
      else mret (Delivered rx)
  | SenderQueued =>
      _ ← modify (update_tcb caller
            (set_tcb_state (if is_call then BlockedOnReply else BlockedOnSend)));
      _ ← map_err ErrSched (on_sched (note_blocked caller));
      next ← pick;
      mret (Reschedule next)
  | SendWouldBlock => mret RetBlocked
  end.

Definition do_recv (caller : ThreadId) (ecap : CapId) (now_ns : N) : K SyscallReturn :=
  ep_cap ← resolve caller ecap EndpointK READ;
  let eid := or_id (cap_object ep_cap) in
  outcome ← on_slot endpoints set_endpoints eid BadCap
              (map_err from_endpoint_error (try_recv caller true));
  match outcome with
  | Received from msg =>
      _ ← modify (update_tcb from (λ t,
            if decide (tcb_state t = BlockedOnReply) then t else set_tcb_state Runnable t));
      _ ← ignore (on_sched (note_ready from now_ns));
      mret (Message from msg)
  | ReceiverQueued =>
      _ ← modify (update_tcb caller (set_tcb_state BlockedOnRecv));
      _ ← map_err ErrSched (on_sched (note_blocked caller));
      next ← pick;
      mret (Reschedule next)
  | RecvWouldBlock => mret RetBlocked
  end.

Definition do_reply (caller to : ThreadId) (msg : SmallMessage) (now_ns : N)
    : K SyscallReturn :=
  if (caller =? to)%N then throw NotBlockedOnReply else
  k ← gets (λ k, k);
  let target_ok := match tcb k to with
                   | Some t => bool_decide (tcb_state t = BlockedOnReply)
                   | None => false
                   end in
  if negb target_ok then throw NotBlockedOnReply else
  _ ← modify (update_tcb to (λ t, set_tcb_state Runnable (set_tcb_msg (Some msg) t)));
  _ ← map_err ErrSched (on_sched (note_ready to now_ns));
  _ ← map_err ErrSched (on_sched (note_ready caller now_ns));
  mret (Reschedule (Some to)).

(** ** The dispatcher *)

Definition do_yield (now_ns : N) : K SyscallReturn :=
  _ ← on_sched (account now_ns);
  next ← pick;
  mret (Reschedule next).

Definition dispatch (caller : ThreadId) (now_ns : N) (op : SyscallOp) (hal : HalInterface)
    : K SyscallReturn :=
  match op with
  | Yield => do_yield now_ns
  | CapRevoke cap => do_cap_revoke caller cap
  | Retype u target_type count => do_retype caller u target_type count
  | CapGrant target_thread cap rights => do_cap_grant caller target_thread cap rights
  | Map page_table frame vaddr perms => do_map hal caller page_table frame vaddr perms
  | Send e msg => do_send caller e msg false now_ns
  | Call e msg => do_send caller e msg true now_ns
  | Recv e => do_recv caller e now_ns
  | Reply to msg => do_reply caller to msg now_ns
  | Signal n bits => do_signal caller n bits now_ns
  | Wait n => do_wait caller n now_ns
  | Poll n => do_poll caller n
  | IrqBind mmio n handler => do_irq_bind hal caller mmio n handler
  end.
End syscall.
