(* ===== verification/KernelInv.v ===== *)
(** * The kernel invariant

    [kinv] ties the components together: every object table is well-formed,
    the capability spaces are a derivation forest, every capability names an
    object that exists, and every thread lives in an existing capability and
    address space.  Each system call preserves it and never panics
    ([dispatch_safe]), except for the unchecked address addition of [Map]. *)

From S2P Require Import Prelude Capability CapTable Cdt Untyped AddressSpace Ipc Scheduler Kernel.
From S2P Require Import Syscall.

(** The object a capability names is in its table. *)
Definition object_exists (k : KernelState) (o : ObjectRef) : Prop :=
  match or_kind o with
  | UntypedMemoryK => is_Some (untyped_of k (or_id o))
  | PageTableK => is_Some (addr_space k (or_id o))
  | ThreadControlBlockK => is_Some (tcb k (or_id o))
  | EndpointK => is_Some (endpoint k (or_id o))
  | NotificationK => is_Some (notification k (or_id o))
  | CapabilitySpaceK => is_Some (cap_space k (or_id o))
  | SharedRegionK => is_Some (shared_region k (or_id o))
  | MmioRegionK => is_Some (mmio_region k (or_id o))
  end.

(** The tables have their capacities. *)
Record sizes (k : KernelState) : Prop := {
  sz_cap_spaces : length (cap_spaces k) = MAX_CAP_SPACES;
  sz_untyped : length (untyped k) = MAX_UNTYPED;
  sz_addr_spaces : length (addr_spaces k) = MAX_ADDR_SPACES;
  sz_endpoints : length (endpoints k) = MAX_ENDPOINTS;
  sz_notifications : length (notifications k) = MAX_NOTIFICATIONS;
  sz_shared_regions : length (shared_regions k) = MAX_SHARED_REGIONS;
  sz_mmio_regions : length (mmio_regions k) = MAX_MMIO_REGIONS;
  sz_irq_bindings : length (irq_bindings k) = MAX_IRQ_BINDINGS;
  sz_tcbs : length (tcbs k) = MAX_THREADS;
}.

(** A thread's identity and spaces. *)
Record tcb_ok (k : KernelState) (id : ThreadId) (t : Tcb) : Prop := {
  to_id : tcb_id t = id;
  to_cap_space : is_Some (cap_space k (tcb_cap_space t));
  to_addr_space : is_Some (addr_space k (tcb_addr_space t));
}.

Record pool_ok (p : MapPool) : Prop := {
  po_used : (map_pool_used p ≤ map_pool_len p)%N;
  po_len : (map_pool_len p < U32)%N;
  po_range : (map_pool_base p + map_pool_len p * PAGE_SIZE < U64)%N;
}.

Section kinv.
Context {BF : Bitflags}.

Record kinv (k : KernelState) : Prop := {
  ki_sizes : sizes k;
  ki_forest : forest CAP_SLOTS_PER_SPACE (cap_spaces k);
  ki_caps g c p : node (cap_spaces k) g = Some (c, p) → object_exists k (cap_object c);
  ki_untyped i u : untyped_of k i = Some u → um_wf u;
  ki_addr i s : addr_space k i = Some s → as_wf s;
  ki_endpoint i e : endpoint k i = Some e → ep_wf ENDPOINT_QUEUE e;
  ki_notification i n : notification k i = Some n → notif_wf NOTIF_WAITERS n;
  ki_tcb i t : tcb k i = Some t → tcb_ok k i t;
  ki_sched : sched_wf (sched k);
  ki_pool : pool_ok (pool k);
}.
End kinv.

(** ** Updates of existing objects *)

Lemma is_Some_tget_insert {A} (l : list (option A)) i j x y :
  tget l i = Some y → is_Some (tget l j) → is_Some (tget (<[N.to_nat i := Some x]> l) j).
Proof.
  intros Hi [z Hz]. destruct (decide (i = j)) as [->|Hne].
  - rewrite (tget_insert_eq _ _ _ _ Hi). eauto.
  - rewrite tget_insert_ne by done. eauto.
Qed.

(** Every object of [k] is an object of [k']. *)
Definition objects_grow (k k' : KernelState) : Prop :=
  ∀ o, object_exists k o → object_exists k' o.

Lemma tcb_ok_mono k k' id t :
  (∀ i, is_Some (cap_space k i) → is_Some (cap_space k' i)) →
  (∀ i, is_Some (addr_space k i) → is_Some (addr_space k' i)) →
  tcb_ok k id t → tcb_ok k' id t.
Proof. intros H1 H2 [? ? ?]. split; eauto. Qed.

Ltac kinv_split := split; simpl; try done.

(** An object of the old state exists in the new one, when the only table
    that changed grows. *)
Ltac keep_object H Hgrow :=
  let H' := fresh in
  pose proof H as H'; revert H'; unfold object_exists;
  destruct (or_kind _); try done; apply Hgrow.

Section update.
Context {BF : Bitflags}.

Lemma kinv_sched k s : kinv k → sched_wf s → kinv (set_sched s k).
Proof.
  intros [[] ? ? ? ? ? ? Ht ? ?] Hs. kinv_split.
  intros i t [? ? ?]%Ht. by split.
Qed.

Lemma kinv_pool k p : kinv k → pool_ok p → kinv (set_pool p k).
Proof.
  intros [[] ? ? ? ? ? ? Ht ? ?] Hs. kinv_split.
  intros i t [? ? ?]%Ht. by split.
Qed.

Lemma kinv_root k r : kinv k → kinv (set_root r k).
Proof.
  intros [[] ? ? ? ? ? ? Ht ? ?]. kinv_split.
  intros i t [? ? ?]%Ht. by split.
Qed.

Lemma kinv_irq_bindings k l :
  kinv k → length l = MAX_IRQ_BINDINGS → kinv (set_irq_bindings l k).
Proof.
  intros [[] ? ? ? ? ? ? Ht ? ?] Hl. kinv_split.
  intros i t [? ? ?]%Ht. by split.
Qed.

(** A table other than the capability spaces, of which every entry stays. *)
Lemma kinv_tcbs k l :
  kinv k → length l = MAX_THREADS →
  (∀ i, is_Some (tcb k i) → is_Some (tget l i)) →
  (∀ i t, tget l i = Some t → tcb_ok k i t) →
  kinv (set_tcbs l k).
Proof.
  intros [[] ? Hc ? ? ? ? Ht ? ?] Hl Hgrow Hok. kinv_split.
  - intros g c p Hg. keep_object (Hc g c p Hg) Hgrow.
  - intros i t Hi. destruct (Hok i t Hi). by split.
Qed.

Lemma kinv_untyped k l :
  kinv k → length l = MAX_UNTYPED →
  (∀ i, is_Some (untyped_of k i) → is_Some (tget l i)) →
  (∀ i u, tget l i = Some u → um_wf u) → kinv (set_untyped l k).
Proof.
  intros [[] ? Hc ? ? ? ? Ht ? ?] Hl Hgrow Hok. kinv_split.
  - intros g c p Hg. keep_object (Hc g c p Hg) Hgrow.
  - intros i t [? ? ?]%Ht. by split.
Qed.

Lemma kinv_addr_spaces k l :
  kinv k → length l = MAX_ADDR_SPACES →
  (∀ i, is_Some (addr_space k i) → is_Some (tget l i)) →
  (∀ i s, tget l i = Some s → as_wf s) → kinv (set_addr_spaces l k).
Proof.
  intros [[] ? Hc ? ? ? ? Ht ? ?] Hl Hgrow Hok. kinv_split.
  - intros g c p Hg. keep_object (Hc g c p Hg) Hgrow.
  - intros i t [? ? ?]%Ht. split; [done..|]. by apply Hgrow.
Qed.

Lemma kinv_endpoints k l :
  kinv k → length l = MAX_ENDPOINTS →
  (∀ i, is_Some (endpoint k i) → is_Some (tget l i)) →
  (∀ i e, tget l i = Some e → ep_wf ENDPOINT_QUEUE e) → kinv (set_endpoints l k).
Proof.
  intros [[] ? Hc ? ? ? ? Ht ? ?] Hl Hgrow Hok. kinv_split.
  - intros g c p Hg. keep_object (Hc g c p Hg) Hgrow.
  - intros i t [? ? ?]%Ht. by split.
Qed.

Lemma kinv_notifications k l :
  kinv k → length l = MAX_NOTIFICATIONS →
  (∀ i, is_Some (notification k i) → is_Some (tget l i)) →
  (∀ i n, tget l i = Some n → notif_wf NOTIF_WAITERS n) → kinv (set_notifications l k).
Proof.
  intros [[] ? Hc ? ? ? ? Ht ? ?] Hl Hgrow Hok. kinv_split.
  - intros g c p Hg. keep_object (Hc g c p Hg) Hgrow.
  - intros i t [? ? ?]%Ht. by split.
Qed.

Lemma kinv_shared_regions k l :
  kinv k → length l = MAX_SHARED_REGIONS →
  (∀ i, is_Some (shared_region k i) → is_Some (tget l i)) → kinv (set_shared_regions l k).
Proof.
  intros [[] ? Hc ? ? ? ? Ht ? ?] Hl Hgrow. kinv_split.
  - intros g c p Hg. keep_object (Hc g c p Hg) Hgrow.
  - intros i t [? ? ?]%Ht. by split.
Qed.

Lemma kinv_mmio_regions k l :
  kinv k → length l = MAX_MMIO_REGIONS →
  (∀ i, is_Some (mmio_region k i) → is_Some (tget l i)) → kinv (set_mmio_regions l k).
Proof.
  intros [[] ? Hc ? ? ? ? Ht ? ?] Hl Hgrow. kinv_split.
  - intros g c p Hg. keep_object (Hc g c p Hg) Hgrow.
  - intros i t [? ? ?]%Ht. by split.
Qed.

Lemma kinv_cap_spaces k l :
  kinv k → length l = MAX_CAP_SPACES → forest CAP_SLOTS_PER_SPACE l →
  (∀ i, is_Some (cap_space k i) → is_Some (tget l i)) →
  (∀ g c p, node l g = Some (c, p) → object_exists k (cap_object c)) →
  kinv (set_cap_spaces l k).
Proof.
  intros [[] ? Hc ? ? ? ? Ht ? ?] Hl Hf Hgrow Hok. kinv_split.
  - intros g c p Hg. keep_object (Hok g c p Hg) Hgrow.
  - intros i t [? ? ?]%Ht. split; [done| |done]. by apply Hgrow.
Qed.
End update.

(** ** Allocation *)

Section tables.
Context {A : Type}.

Lemma is_Some_tget_fill (l : list (option A)) i j x :
  l !! i = Some None → is_Some (tget l j) → is_Some (tget (<[i := Some x]> l) j).
Proof.
  intros Hi Hj. rewrite tget_insert_nat by by eapply lookup_lt_Some.
  case_decide; [eauto|done].
Qed.

Lemma tget_fill_inv (l : list (option A)) i j x y :
  l !! i = Some None → tget (<[i := Some x]> l) j = Some y →
  (j = N.of_nat i ∧ y = x) ∨ tget l j = Some y.
Proof.
  intros Hi. rewrite tget_insert_nat by by eapply lookup_lt_Some.
  case_decide; naive_solver.
Qed.

Lemma tget_fill (l : list (option A)) i x :
  l !! i = Some None → tget (<[i := Some x]> l) (N.of_nat i) = Some x.
Proof.
  intros Hi. rewrite tget_insert_nat by by eapply lookup_lt_Some. by rewrite decide_True.
Qed.
End tables.

Lemma wp_alloc_in {E A} get set (new : N → A) (Q : outcome E (option N) → KernelState → Prop) k :
  (N.of_nat (length (get k)) < U32)%N →
  (∀ i, get k !! i = Some None →
     Q (Ok (Some (N.of_nat i))) (set (<[i := Some (new (N.of_nat i))]> (get k)) k)) →
  Q (Ok None) k →
  wp (alloc_in get set new) Q k.
Proof.
  intros Hb Hs Hn. apply wp_bind, wp_gets. simpl.
  destruct (position is_none (get k)) as [i|] eqn:Hp; [|by apply wp_ret].
  apply position_free in Hp as [Hi Hlt]. apply wp_bind, wp_modify.
  unfold truncate. rewrite N.mod_small by lia. by apply wp_ret, Hs.
Qed.

Section alloc.
Context {BF : Bitflags} {E : Type}.

(** What an allocation of an object of [kind] guarantees. *)
Definition alloc_post (kind : KernelObjectKind) (k : KernelState)
    (r : outcome E (option N)) (k' : KernelState) : Prop :=
  match r with
  | Ok (Some id) => kinv k' ∧ objects_grow k k' ∧
      object_exists k' {| or_kind := kind; or_id := id |}
  | Ok None => k' = k
  | _ => False
  end.

Lemma objects_grow_table k k' :
  (∀ i, is_Some (cap_space k i) → is_Some (cap_space k' i)) →
  (∀ i, is_Some (untyped_of k i) → is_Some (untyped_of k' i)) →
  (∀ i, is_Some (addr_space k i) → is_Some (addr_space k' i)) →
  (∀ i, is_Some (endpoint k i) → is_Some (endpoint k' i)) →
  (∀ i, is_Some (notification k i) → is_Some (notification k' i)) →
  (∀ i, is_Some (shared_region k i) → is_Some (shared_region k' i)) →
  (∀ i, is_Some (mmio_region k i) → is_Some (mmio_region k' i)) →
  (∀ i, is_Some (tcb k i) → is_Some (tcb k' i)) →
  objects_grow k k'.
Proof. intros ? ? ? ? ? ? ? ? o. unfold object_exists. destruct (or_kind o); auto. Qed.

(** The three facts about the table that was filled. *)
Ltac alloc_table Hk Hi :=
  split; [|split; [|red; simpl; eexists; by apply tget_fill]];
  [| by apply objects_grow_table; simpl; try done; intros ?; apply is_Some_tget_fill].

Lemma alloc_endpoint_ok k :
  kinv k → wp (alloc_endpoint (E := E)) (alloc_post EndpointK k) k.
Proof.
  intros Hk. apply wp_alloc_in; [|intros i Hi|done].
  - rewrite (sz_endpoints _ (ki_sizes _ Hk)). done.
  - alloc_table Hk Hi. apply kinv_endpoints; [done| | |].
    + rewrite length_insert. apply (ki_sizes _ Hk).
    + intros j. by apply is_Some_tget_fill.
    + intros j e [[_ ->]|Hj]%tget_fill_inv; [|by eapply ki_endpoint|done].
      eexists. apply ep_new_rep.
Qed.

Lemma alloc_notification_ok k :
  kinv k → wp (alloc_notification (E := E)) (alloc_post NotificationK k) k.
Proof.
  intros Hk. apply wp_alloc_in; [|intros i Hi|done].
  - rewrite (sz_notifications _ (ki_sizes _ Hk)). done.
  - alloc_table Hk Hi. apply kinv_notifications; [done| | |].
    + rewrite length_insert. apply (ki_sizes _ Hk).
    + intros j. by apply is_Some_tget_fill.
    + intros j n [[_ ->]|Hj]%tget_fill_inv; [|by eapply ki_notification|done].
      apply notif_new_wf.
Qed.

Lemma alloc_addr_space_ok root k :
  kinv k → wp (alloc_addr_space (E := E) root) (alloc_post PageTableK k) k.
Proof.
  intros Hk. apply wp_alloc_in; [|intros i Hi|done].
  - rewrite (sz_addr_spaces _ (ki_sizes _ Hk)). done.
  - alloc_table Hk Hi. apply kinv_addr_spaces; [done| | |].
    + rewrite length_insert. apply (ki_sizes _ Hk).
    + intros j. by apply is_Some_tget_fill.
    + intros j n [[_ ->]|Hj]%tget_fill_inv; [|by eapply ki_addr|done].
      by apply as_new_wf.
Qed.

Lemma alloc_untyped_ok base size k :
  kinv k → (base + size < U64)%N →
  wp (alloc_untyped (E := E) base size) (alloc_post UntypedMemoryK k) k.
Proof.
  intros Hk Hb. apply wp_alloc_in; [|intros i Hi|done].
  - rewrite (sz_untyped _ (ki_sizes _ Hk)). done.
  - alloc_table Hk Hi. apply kinv_untyped; [done| | |].
    + rewrite length_insert. apply (ki_sizes _ Hk).
    + intros j. by apply is_Some_tget_fill.
    + intros j n [[_ ->]|Hj]%tget_fill_inv; [|by eapply ki_untyped|done].
      by apply um_new_wf.
Qed.

Lemma alloc_shared_region_ok r k :
  kinv k → wp (alloc_shared_region (E := E) r) (alloc_post SharedRegionK k) k.
Proof.
  intros Hk. apply wp_alloc_in; [|intros i Hi|done].
  - rewrite (sz_shared_regions _ (ki_sizes _ Hk)). done.
  - alloc_table Hk Hi. apply kinv_shared_regions; [done| |].
    + rewrite length_insert. apply (ki_sizes _ Hk).
    + intros j. by apply is_Some_tget_fill.
Qed.

Lemma alloc_mmio_region_ok r k :
  kinv k → wp (alloc_mmio_region_direct (E := E) r) (alloc_post MmioRegionK k) k.
Proof.
  intros Hk. apply wp_alloc_in; [|intros i Hi|done].
  - rewrite (sz_mmio_regions _ (ki_sizes _ Hk)). done.
  - alloc_table Hk Hi. apply kinv_mmio_regions; [done| |].
    + rewrite length_insert. apply (ki_sizes _ Hk).
    + intros j. by apply is_Some_tget_fill.
Qed.

Lemma alloc_tcb_ok cs sp k :
  kinv k → is_Some (cap_space k cs) → is_Some (addr_space k sp) →
  wp (alloc_tcb (E := E) cs sp) (alloc_post ThreadControlBlockK k) k.
Proof.
  intros Hk Hcs Hsp. apply wp_alloc_in; [|intros i Hi|done].
  - rewrite (sz_tcbs _ (ki_sizes _ Hk)). done.
  - alloc_table Hk Hi. apply kinv_tcbs; [done| | |].
    + rewrite length_insert. apply (ki_sizes _ Hk).
    + intros j. by apply is_Some_tget_fill.
    + intros j n [[-> ->]|Hj]%tget_fill_inv; [by split|by eapply ki_tcb|done].
Qed.

Lemma alloc_cap_space_ok k :
  kinv k → wp (alloc_cap_space (E := E)) (alloc_post CapabilitySpaceK k) k.
Proof.
  intros Hk. apply wp_alloc_in; [|intros i Hi|done].
  - rewrite (sz_cap_spaces _ (ki_sizes _ Hk)). done.
  - alloc_table Hk Hi. apply kinv_cap_spaces; [done| | | |].
    + rewrite length_insert. apply (ki_sizes _ Hk).
    + apply forest_new_space; [apply Hk|done].
    + intros j. by apply is_Some_tget_fill.
    + intros g c p. rewrite node_new_space by done. by apply Hk.
Qed.
End alloc.

(** ** Resolution *)

Section resolution.
Context {BF : Bitflags}.

(** What a successful lookup of [cap] by [caller] means. *)
Record held (k : KernelState) (caller : ThreadId) (cap : CapId) (c : Capability) : Prop := {
  hd_node : ∃ t p, tcb k caller = Some t ∧
              node (cap_spaces k) (mkGlobalCapId (tcb_cap_space t) cap) = Some (c, p);
  hd_exists : object_exists k (cap_object c);
}.

Lemma caller_cap_space_eq caller k :
  caller_cap_space caller k =
    match tcb k caller with
    | Some t => (Ok (tcb_cap_space t), k)
    | None => (Err NoCaller, k)
    end.
Proof. unfold caller_cap_space, mbind, M_bind. simpl. by destruct (tcb k caller). Qed.

Lemma wp_caller_cap_space caller Q k :
  (∀ t, tcb k caller = Some t → Q (Ok (tcb_cap_space t)) k) →
  (tcb k caller = None → Q (Err NoCaller) k) →
  wp (caller_cap_space caller) Q k.
Proof. unfold wp. rewrite caller_cap_space_eq. destruct (tcb k caller); naive_solver. Qed.

Lemma wp_lookup_cap caller cap Q k :
  kinv k →
  (∀ c, held k caller cap c → Q (Ok c) k) →
  (∀ e, Q (Err e) k) →
  wp (lookup_cap caller cap) Q k.
Proof.
  intros Hk Hok Herr. apply wp_bind, wp_caller_cap_space; [|by intros _; apply Herr].
  intros t Ht. apply wp_bind, wp_gets, wp_bind, wp_ok_or; [|by intros _; apply Herr].
  intros cs Hcs. apply wp_ok_or; [|by intros _; apply Herr].
  intros c Hc. apply Hok.
  assert (∃ p, node (cap_spaces k) (mkGlobalCapId (tcb_cap_space t) cap) = Some (c, p))
    as [p Hp].
  { unfold node. simpl. unfold cap_space in Hcs. rewrite Hcs. simpl.
    rewrite entry_lookup in Hc. destruct (entry cs cap) as [[c' p]|]; simplify_eq/=. eauto. }
  split; [eauto|]. by eapply ki_caps.
Qed.

Lemma wp_resolve caller cap kind needed Q k :
  kinv k →
  (∀ c, held k caller cap c → or_kind (cap_object c) = kind → allows c needed = true →
     Q (Ok c) k) →
  (∀ e, Q (Err e) k) →
  wp (resolve caller cap kind needed) Q k.
Proof.
  intros Hk Hok Herr. apply wp_bind, wp_lookup_cap; [done| |done].
  intros c Hc. case_bool_decide as Hkind; simpl; [|apply wp_throw, Herr].
  destruct (allows c needed) eqn:Ha; simpl; [|apply wp_throw, Herr].
  by apply wp_ret, Hok.
Qed.

Lemma wp_cap_kind_of caller cap Q k :
  kinv k →
  (∀ c, held k caller cap c → Q (Ok (or_kind (cap_object c))) k) →
  (∀ e, Q (Err e) k) →
  wp (cap_kind_of caller cap) Q k.
Proof.
  intros Hk Hok Herr. apply wp_bind, wp_lookup_cap; [done| |done].
  intros c Hc. by apply wp_ret, Hok.
Qed.

(** ** Operations on one object *)

Lemma on_endpoint_ok {A} i err (m : M Ipc.Endpoint SyscallError A) k :
  kinv k → (∀ e, ep_wf ENDPOINT_QUEUE e → wp m (no_panic (ep_wf ENDPOINT_QUEUE)) e) →
  wp (on_slot endpoints set_endpoints i err m) (no_panic kinv) k.
Proof.
  intros Hk Hm. apply wp_on_slot; [|done]. intros e He.
  eapply wp_mono; [eapply Hm, (ki_endpoint _ Hk), He|]. intros r e' [Hr He'].
  split; [done|]. apply kinv_endpoints; [done| | |].
  - rewrite length_insert. apply (ki_sizes _ Hk).
  - intros j. by eapply is_Some_tget_insert.
  - intros j x [[_ [= <-]]|[_ Hj]]%tget_insert_Some; [done|by eapply ki_endpoint].
Qed.

Lemma on_notification_ok {A} i err (m : M Ipc.Notification SyscallError A)
    (Q : outcome SyscallError A → Prop) k :
  kinv k → Q (Err err) →
  (∀ n, notif_wf NOTIF_WAITERS n → wp m (λ r n', Q r ∧ notif_wf NOTIF_WAITERS n') n) →
  wp (on_slot notifications set_notifications i err m) (λ r k', Q r ∧ kinv k') k.
Proof.
  intros Hk Herr Hm. apply wp_on_slot; [|done]. intros e He.
  eapply wp_mono; [eapply Hm, (ki_notification _ Hk), He|]. intros r e' [Hr He'].
  split; [done|]. apply kinv_notifications; [done| | |].
  - rewrite length_insert. apply (ki_sizes _ Hk).
  - intros j. by eapply is_Some_tget_insert.
  - intros j x [[_ [= <-]]|[_ Hj]]%tget_insert_Some; [done|by eapply ki_notification].
Qed.

Lemma set_addr_space_ok i s s' k :
  kinv k → addr_space k i = Some s → as_wf s' →
  kinv (set_addr_spaces (<[N.to_nat i := Some s']> (addr_spaces k)) k).
Proof.
  intros Hk Hs Hs'. apply kinv_addr_spaces; [done| | |].
  - rewrite length_insert. apply (ki_sizes _ Hk).
  - intros j. by eapply is_Some_tget_insert.
  - intros j x [[_ [= <-]]|[_ Hj]]%tget_insert_Some; [done|by eapply ki_addr].
Qed.

Lemma on_sched_ok {E A} (m : M Scheduler E A) k :
  kinv k → (∀ s, sched_wf s → wp m (sched_safe None s) s) →
  wp (on_sched m) (no_panic kinv) k.
Proof.
  intros Hk Hm. apply wp_zoom. eapply wp_mono; [apply Hm, Hk|].
  intros r s (? & ? & _). split; [done|]. by apply kinv_sched.
Qed.

Lemma update_tcb_ok id f k :
  kinv k →
  (∀ t, tcb_id (f t) = tcb_id t ∧ tcb_cap_space (f t) = tcb_cap_space t ∧
        tcb_addr_space (f t) = tcb_addr_space t) →
  kinv (update_tcb id f k).
Proof.
  intros Hk Hf. unfold update_tcb. destruct (tcb k id) as [t|] eqn:Ht; [|done].
  apply kinv_tcbs; [done| | |].
  - rewrite length_insert. apply (ki_sizes _ Hk).
  - intros j. by eapply is_Some_tget_insert.
  - intros j x [[<- [= <-]]|[_ Hj]]%tget_insert_Some; [|by eapply ki_tcb].
    destruct (ki_tcb _ Hk _ _ Ht), (Hf t) as (H1 & H2 & H3).
    split; rewrite ?H1, ?H2, ?H3; done.
Qed.

Lemma wp_no_panic_bind {E A B} (m : M KernelState E A) (f : A → M KernelState E B) k :
  wp m (no_panic kinv) k → (∀ a k', kinv k' → wp (f a) (no_panic kinv) k') →
  wp (m ≫= f) (no_panic kinv) k.
Proof.
  intros Hm Hf. apply wp_bind. eapply wp_mono; [exact Hm|].
  intros [a|e|] k' [? Hk']; [by apply Hf|done|done].
Qed.

Lemma wp_no_panic_map_err {S E E' A} (g : E' → E) (m : M S E' A) (I : S → Prop) s :
  wp m (no_panic I) s → wp (map_err g m) (no_panic I) s.
Proof. intros Hm. apply wp_map_err. eapply wp_mono; [exact Hm|]. by intros [] ? []. Qed.

Lemma wp_no_panic_ignore {S E E' A} (m : M S E' A) (I : S → Prop) s :
  wp m (no_panic I) s → wp (E := E) (ignore m) (no_panic I) s.
Proof. intros Hm. apply wp_ignore. eapply wp_mono; [exact Hm|]. by intros [] ? []. Qed.

Lemma pick_ok {E} k : kinv k → wp (E := E) pick (no_panic kinv) k.
Proof.
  intros Hk. apply wp_bind, wp_gets. simpl.
  destruct (pick_next_spec (sched k) (ki_sched _ Hk)) as [[-> _]|(t & b & -> & _)];
    by apply wp_ret.
Qed.

Lemma wake_blocked_ok {E} t now k : kinv k → wp (E := E) (wake_blocked t now) (no_panic kinv) k.
Proof.
  intros Hk. apply wp_no_panic_ignore, on_sched_ok; [done|].
  intros; by apply note_ready_safe.
Qed.
End resolution.

(** ** The handlers *)

Section handlers.
Context {BF : Bitflags}.

Lemma insert_cap_ok cs_id cap k :
  kinv k → object_exists k (cap_object cap) →
  wp (insert_cap cs_id cap) (no_panic kinv) k.
Proof.
  intros Hk Hobj. apply wp_on_slot; [|done]. intros t Ht.
  apply wp_no_panic_map_err.
  pose proof Ht as Hi%tget_Some.
  pose proof (tok_wf _ _ _ (fo_table _ _ (ki_forest _ Hk) _ _ Hi)) as Hwf.
  unfold wp. rewrite insert_root_fill by done.
  destruct (fill_spec t cap None Hwf) as [[-> _]|(id & t' & -> & _ & Hins)]; simpl.
  - split; [done|]. rewrite list_insert_id by done. by destruct k.
  - split; [done|]. apply kinv_cap_spaces; [done| | | |].
    + rewrite length_insert. apply (ki_sizes _ Hk).
    + eapply forest_insert; [apply Hk|done|done|done].
    + intros j. by eapply is_Some_tget_insert.
    + intros g c p. rewrite (node_inserted _ _ _ _ _ _ _ _ Hi Hins).
      case_decide; [by intros [= <- <-]|]. by apply Hk.
Qed.

Lemma create_object_ok caller ty phys per k :
  kinv k → (phys + per < U64)%N →
  wp (create_object caller ty phys per)
     (λ r k', r ≠ Panic ∧ kinv k' ∧
        ∀ kind id, r = Ok (kind, id) → object_exists k' {| or_kind := kind; or_id := id |}) k.
Proof.
  intros Hk Hb.
  assert (∀ kind (m : K (option N)), wp m (alloc_post kind k) k →
    wp (id ← m; id ← ok_or id ObjectTableFull; mret (kind, id))
     (λ r k', r ≠ Panic ∧ kinv k' ∧
        ∀ kind id, r = Ok (kind, id) → object_exists k' {| or_kind := kind; or_id := id |}) k)
    as Halloc.
  { intros kind m Hm. apply wp_bind. eapply wp_mono; [exact Hm|].
    intros [[id|]|e|] k' Hpost; simpl in Hpost; [|subst|done|done].
    - destruct Hpost as (Hk' & _ & Hid). apply wp_bind, wp_ret, wp_ret.
      split; [done|]. split; [done|]. by intros ? ? [= <- <-].
    - apply wp_bind, wp_throw. done. }
  destruct ty; simpl.
  - by apply Halloc, alloc_untyped_ok.
  - by apply Halloc, alloc_addr_space_ok.
  - apply wp_bind, wp_gets, wp_bind, wp_ok_or; [|done]. intros t Ht.
    destruct (ki_tcb _ Hk _ _ Ht). by apply Halloc, alloc_tcb_ok.
  - by apply Halloc, alloc_endpoint_ok.
  - by apply Halloc, alloc_notification_ok.
  - by apply Halloc, alloc_cap_space_ok.
  - by apply Halloc, alloc_shared_region_ok.
Qed.

Lemma retype_loop_ok caller cs_id ty phys n : ∀ i first made k,
  kinv k →
  (phys + (i + N.of_nat n) * object_size_bytes ty < U64)%N →
  (made + N.of_nat n < U32)%N →
  wp (retype_loop caller cs_id ty phys n i first made) (no_panic kinv) k.
Proof.
  induction n as [|n IH]; intros i first made k Hk Hb Hm; simpl; [by apply wp_ret|].
  assert (object_size_bytes ty = 4096%N) as Hsz by by destruct ty.
  rewrite Hsz in *.
  unfold checked_mul. rewrite (proj2 (N.ltb_lt (i * 4096) _)) by lia.
  apply wp_bind, wp_ret, wp_bind.
  unfold checked_add at 1. rewrite (proj2 (N.ltb_lt (phys + i * 4096) _)) by lia.
  apply wp_ret, wp_bind. eapply wp_mono; [apply create_object_ok; [done|lia]|].
  intros [[kind id]|e|] k1 (Hnp & Hk1 & Hid); [|by split|done].
  apply wp_no_panic_bind; [apply insert_cap_ok; [done|by apply Hid]|].
  intros slot k2 Hk2. apply wp_bind.
  unfold checked_add. rewrite (proj2 (N.ltb_lt (made + 1) _)) by lia.
  apply wp_ret, IH; [done|lia|lia].
Qed.

Lemma retype_slot_ok i ty count k :
  kinv k →
  wp (on_slot untyped set_untyped i BadCap (map_err ErrMm (retype ty count)))
     (λ r k', r ≠ Panic ∧ kinv k' ∧ ∀ g, r = Ok g →
        rg_count g = count ∧ (rg_phys_base g + count * object_size_bytes ty < U64)%N) k.
Proof.
  intros Hk. apply wp_on_slot; [|done]. intros u Hu. apply wp_map_err.
  pose proof (ki_untyped _ Hk _ _ Hu) as Hwf.
  assert (∀ u', um_wf u' →
    kinv (set_untyped (<[N.to_nat i := Some u']> (untyped k)) k)) as Hset.
  { intros u' Hu'. apply kinv_untyped; [done| | |].
    - rewrite length_insert. apply (ki_sizes _ Hk).
    - intros j. by eapply is_Some_tget_insert.
    - intros j x [[_ [= <-]]|[_ Hj]]%tget_insert_Some; [done|by eapply ki_untyped]. }
  eapply wp_mono; [by apply retype_spec|]. intros [g|e|] u' Hpost; [| |done].
  - destruct Hpost as [[_ Hc Hl [Hw' Hb Hs _ _ _ Hhi]] _].
    split; [done|]. split; [by apply Hset|]. intros ? [= <-]. split; [done|].
    destruct Hw'. rewrite N.mul_comm, <- Hl. lia.
  - assert (u' = u) as -> by (destruct e; naive_solver). split; [done|]. split; [by apply Hset|done].
Qed.

Lemma do_retype_ok caller ucap ty count k :
  kinv k → (count < U32)%N → wp (do_retype caller ucap ty count) (no_panic kinv) k.
Proof.
  intros Hk Hc. apply wp_bind, wp_resolve; [done| |done]. intros c Hh _ _.
  apply wp_bind. eapply wp_mono; [by apply retype_slot_ok|].
  intros [g|e|] k1 (? & Hk1 & Hg); [|by split|done]. destruct (Hg g eq_refl) as [Hcount Hrange].
  apply wp_bind, wp_caller_cap_space; [|done]. intros t Ht.
  apply wp_no_panic_bind; [apply retype_loop_ok; [done|lia..]|].
  intros [first made] k2 Hk2. apply wp_bind, wp_ok_or; [|done]. intros; by apply wp_ret.
Qed.

Lemma do_cap_revoke_ok caller cap k :
  kinv k → wp (do_cap_revoke caller cap) (no_panic kinv) k.
Proof.
  intros Hk. apply wp_bind, wp_cap_kind_of; [done| |done]. intros c0 _.
  apply wp_bind, wp_resolve; [done| |done]. intros c [(t & p & Ht & Hn) _] _ _.
  apply wp_bind, wp_caller_cap_space; [|done]. intros t' Ht'.
  replace t' with t by congruence.
  apply wp_bind, wp_zoom, wp_map_err. unfold wp.
  destruct (revoke_spec _ _ _ _ (ki_forest _ Hk) Hn)
    as (freed & ts' & -> & Hlen & Hf & Hnode & Hsame & _). simpl.
  split; [done|]. apply kinv_cap_spaces; [done| |done| |].
  - rewrite Hlen. apply (ki_sizes _ Hk).
  - intros i [x Hx]. destruct (tget ts' i) eqn:Hi; [eauto|].
    apply Hsame in Hi. unfold cap_space in Hx. congruence.
  - intros g c' p' Hg. destruct (Hnode g) as [[Heq _]|[Heq _]]; [|congruence].
    rewrite Heq in Hg. by eapply ki_caps.
Qed.

Lemma cap_space_pair_spec k src dst :
  cap_space_pair k src dst =
    if decide (src = dst) then None
    else match cap_space k src, cap_space k dst with
         | Some s, Some d => Some (s, d)
         | _, _ => None
         end.
Proof.
  unfold cap_space_pair, cap_space, tget. rewrite !getN_lookup.
  destruct (N.eqb_spec src dst) as [->|Hne]; simpl; [by rewrite decide_True|].
  rewrite decide_False by done.
  destruct (N.leb_spec (N.of_nat (length (cap_spaces k))) src); simpl.
  { by rewrite (lookup_ge_None_2 _ (N.to_nat src)) by lia. }
  destruct (N.leb_spec (N.of_nat (length (cap_spaces k))) dst); simpl.
  { rewrite (lookup_ge_None_2 _ (N.to_nat dst)) by lia.
    by destruct (cap_spaces k !! N.to_nat src) as [[]|]. }
  destruct (N.ltb_spec src dst).
  - rewrite lookup_take_lt, lookup_drop, Nat.add_0_r by lia.
    destruct (cap_spaces k !! N.to_nat src) as [[]|]; simpl; try done;
      by destruct (cap_spaces k !! N.to_nat dst) as [[]|].
  - rewrite lookup_take_lt, lookup_drop, Nat.add_0_r by lia.
    destruct (cap_spaces k !! N.to_nat src) as [[]|]; simpl; try done;
      by destruct (cap_spaces k !! N.to_nat dst) as [[]|].
Qed.

(** A derivation into the space [dst], whatever its outcome. *)
Lemma derive_slot_ok src src_cs dst_cs cap rights k :
  kinv k → cap_space k src_cs = Some src →
  wp (on_slot cap_spaces set_cap_spaces dst_cs BadCap
        (map_err ErrCap (derive_child_cross_space src src_cs cap rights 0)))
     (no_panic kinv) k.
Proof.
  intros Hk Hsrc. apply wp_on_slot; [|done]. intros t Ht.
  pose proof Hsrc as Hi%tget_Some. pose proof Ht as Hj%tget_Some.
  pose proof (tok_wf _ _ _ (fo_table _ _ (ki_forest _ Hk) _ _ Hj)) as Hwf.
  apply wp_no_panic_map_err. eapply wp_mono; [by apply derive_cross_spec|].
  intros r t' Hpost. split; [by intros ->|].
  rewrite <- (N2Nat.id src_cs) in Hpost.
  pose proof (forest_derive _ _ _ _ _ _ _ _ _ _ _ (ki_forest _ Hk) Hi Hj Hpost) as Hf'.
  apply kinv_cap_spaces; [done| |done| |].
  - rewrite length_insert. apply (ki_sizes _ Hk).
  - intros j. by eapply is_Some_tget_insert.
  - intros g c p Hg. destruct r as [child|e|]; [|destruct e|done]; simpl in Hpost.
    2-5: destruct_and?; subst; rewrite list_insert_id in Hg by done; by eapply ki_caps.
    destruct Hpost as (pc & eff & Hpc & _ & _ & Hins).
    rewrite (node_inserted _ _ _ _ _ _ _ _ Hj Hins) in Hg. case_decide; [|by eapply ki_caps].
    simplify_eq. simpl. rewrite entry_lookup in Hpc.
    destruct (entry src cap) as [[pc' pp]|] eqn:He; simplify_eq/=.
    eapply (ki_caps _ Hk (mkGlobalCapId src_cs cap)). unfold node. simpl.
    unfold cap_space in Hsrc. rewrite Hsrc. exact He.
Qed.

Lemma do_cap_grant_ok caller target cap rights k :
  kinv k → wp (do_cap_grant caller target cap rights) (no_panic kinv) k.
Proof.
  intros Hk. apply wp_bind, wp_resolve; [done| |done]. intros tcap _ _ _.
  apply wp_bind, wp_gets, wp_bind, wp_ok_or; [|done]. intros dst _.
  apply wp_bind, wp_cap_kind_of; [done| |done]. intros c0 _.
  apply wp_bind, wp_resolve; [done| |done]. intros c1 _ _ _.
  apply wp_bind, wp_caller_cap_space; [|done]. intros t Ht.
  apply wp_bind, wp_ok_or; [|done]. intros [src d] Hpair.
  rewrite cap_space_pair_spec in Hpair. case_decide; [done|].
  destruct (cap_space k (tcb_cap_space t)) as [s|] eqn:Hs; [|done].
  destruct (cap_space k (tcb_cap_space dst)); [|done]. simplify_eq.
  apply wp_no_panic_bind; [by apply derive_slot_ok|]. intros; by apply wp_ret.
Qed.

(** The documented contract of [map_range]: the number of pool frames
    consumed, or [u32::MAX]. *)
Definition hal_ok (hal : HalInterface) : Prop :=
  ∀ root v p len bits base n,
    hal_map_range hal root v p len bits base n = id_max ∨
    (hal_map_range hal root v p len bits base n ≤ n)%N.

Lemma map_hardware_ok hal as_id root v frame perms k :
  kinv k → hal_ok hal →
  wp (map_hardware hal as_id root v frame perms) (no_panic kinv) k.
Proof.
  intros Hk Hh. apply wp_bind, wp_gets, wp_bind.
  destruct (ki_pool _ Hk) as [Hu Hl Hr]. unfold PAGE_SIZE in Hr.
  unfold map_pool_remaining, checked_mul, checked_add, checked_sub, PAGE_SIZE.
  rewrite (proj2 (N.ltb_lt (map_pool_used (pool k) * 4096) _)) by lia. simpl.
  rewrite (proj2 (N.ltb_lt (map_pool_base (pool k) + _) _)) by lia. simpl.
  rewrite (proj2 (N.leb_le _ _)) by done. apply wp_ret. simpl.
  case_match eqn:E.
  - apply wp_no_panic_bind; [|by intros; apply wp_throw].
    apply wp_no_panic_ignore. apply wp_on_slot; [|done]. intros s Hs.
    apply wp_no_panic_map_err. eapply wp_mono; [by eapply unmap_spec, ki_addr|].
    intros r s' Hpost. destruct r as [m|e|]; [| |done]; split; try done.
    + by eapply set_addr_space_ok, Hpost.
    + destruct e; try done. destruct Hpost as [-> _].
      by eapply set_addr_space_ok, ki_addr.
  - apply N.eqb_neq in E. apply wp_bind, wp_gets, wp_bind.
    destruct (Hh root v frame PAGE_SIZE (perm_bits perms)
      (map_pool_base (pool k) + map_pool_used (pool k) * 4096)%N
      (map_pool_len (pool k) - map_pool_used (pool k))%N) as [?|Hle]; [done|].
    unfold PAGE_SIZE in Hle. unfold checked_add. rewrite (proj2 (N.ltb_lt _ _)) by lia.
    apply wp_ret, wp_modify. split; [done|]. apply kinv_pool; [done|].
    split; simpl; unfold PAGE_SIZE; lia.
Qed.

Lemma do_map_ok hal caller pt fr v perms k :
  kinv k → hal_ok hal → (v + PAGE_SIZE < U64)%N →
  wp (do_map hal caller pt fr v perms) (no_panic kinv) k.
Proof.
  intros Hk Hh Hv. apply wp_bind, wp_resolve; [done| |done]. intros ptc _ _ _.
  apply wp_bind, wp_lookup_cap; [done| |done]. intros frc _.
  case_match; [by apply wp_throw|]. apply wp_bind, wp_gets, wp_bind.
  destruct (frame_base k (cap_object frc)) as [e|a]; [by apply wp_throw|]. apply wp_ret.
  apply wp_no_panic_bind.
  - apply wp_on_slot; [|done]. intros s Hs. apply wp_bind, wp_map_err.
    eapply wp_mono; [by eapply map_spec; [eapply ki_addr|]|].
    intros [[]|e|] s' Hpost; [| |done].
    + apply wp_gets. split; [done|]. by eapply set_addr_space_ok, Hpost.
    + split; [done|]. assert (s' = s) as -> by (destruct e; naive_solver).
      by eapply set_addr_space_ok, ki_addr.
  - intros root k1 Hk1. apply wp_no_panic_bind; [|by intros; apply wp_ret].
    case_match; [by apply map_hardware_ok|by apply wp_ret].
Qed.

Lemma do_signal_ok caller n bits now k :
  kinv k → wp (do_signal caller n bits now) (no_panic kinv) k.
Proof.
  intros Hk. apply wp_bind, wp_resolve; [done| |done]. intros c _ _ _.
  apply wp_no_panic_bind.
  - apply (on_notification_ok _ _ _ (λ r, r ≠ Panic)); [done..|]. intros s Hs.
    destruct (signal_spec (E := SyscallError) _ bits _ Hs) as (w & s' & Heq & Hs' & _).
    unfold wp. by rewrite Heq.
  - intros w k1 Hk1. apply wp_no_panic_bind; [|by intros; apply wp_ret].
    apply wp_for_each; [done|]. intros x k2 _ Hk2. by apply wake_blocked_ok.
Qed.

Lemma on_poll_ok nid k :
  kinv k →
  wp (on_slot notifications set_notifications nid BadCap poll) (no_panic kinv) k.
Proof.
  intros Hk. apply (on_notification_ok _ _ _ (λ r, r ≠ Panic)); [done..|]. intros s Hs.
  destruct (poll_spec (E := SyscallError) _ _ Hs) as (s' & Heq & Hs' & _).
  unfold wp. by rewrite Heq.
Qed.

Lemma do_poll_ok caller n k : kinv k → wp (do_poll caller n) (no_panic kinv) k.
Proof.
  intros Hk. apply wp_bind, wp_resolve; [done| |done]. intros c _ _ _.
  apply wp_no_panic_bind; [by apply on_poll_ok|]. intros; by apply wp_ret.
Qed.

Lemma do_wait_ok caller n now k : kinv k → wp (do_wait caller n now) (no_panic kinv) k.
Proof.
  intros Hk. apply wp_bind, wp_resolve; [done| |done]. intros c _ _ _.
  apply wp_no_panic_bind; [by apply on_poll_ok|]. intros bits k1 Hk1.
  case_match; [by apply wp_ret|]. apply wp_no_panic_bind.
  - apply (on_notification_ok _ _ _ (λ r, r ≠ Panic)); [done..|]. intros s Hs.
    apply wp_map_err. pose proof (wait_spec _ caller _ Hs eq_refl) as Hw. unfold wp.
    case_match; [destruct Hw as (s' & -> & Hs' & _)|rewrite Hw]; done.
  - intros _ k2 Hk2. apply wp_no_panic_bind.
    { apply on_sched_ok; [done|]. intros; by apply account_safe. }
    intros _ k3 Hk3. apply wp_no_panic_bind; [|by intros; apply wp_ret].
    apply wp_no_panic_ignore, on_sched_ok; [done|]. intros; by apply note_blocked_safe.
Qed.

Lemma bind_irq_ok {E} irq nid k : kinv k → wp (E := E) (bind_irq irq nid) (no_panic kinv) k.
Proof.
  intros Hk. apply wp_bind, wp_gets.
  assert (∀ i x, kinv (set_irq_bindings (<[i := x]> (irq_bindings k)) k)) as Hset.
  { intros i x. apply kinv_irq_bindings; [done|]. rewrite length_insert. apply (ki_sizes _ Hk). }
  repeat case_match; [apply wp_bind, wp_modify, wp_ret..|by apply wp_ret]; by split.
Qed.

Lemma do_irq_bind_ok hal caller mmio n h k :
  kinv k → wp (do_irq_bind hal caller mmio n h) (no_panic kinv) k.
Proof.
  intros Hk. apply wp_bind, wp_resolve; [done| |done]. intros c _ _ _.
  apply wp_bind, wp_gets, wp_bind, wp_ok_or; [|done]. intros r _.
  apply wp_bind, wp_resolve; [done| |done]. intros nc _ _ _.
  apply wp_no_panic_bind; [by apply bind_irq_ok|]. intros b k1 Hk1.
  repeat case_match; by (apply wp_throw || apply wp_ret).
Qed.

Lemma from_endpoint_ok {A} (m : M Ipc.Endpoint EndpointError A) eid k :
  kinv k →
  (∀ e, ep_wf ENDPOINT_QUEUE e → wp m (no_panic (ep_wf ENDPOINT_QUEUE)) e) →
  wp (on_slot endpoints set_endpoints eid BadCap (map_err from_endpoint_error m))
     (no_panic kinv) k.
Proof.
  intros Hk Hm. apply on_endpoint_ok; [done|]. intros e He. by apply wp_no_panic_map_err, Hm.
Qed.

Lemma modify_tcb_ok id f k :
  kinv k →
  (∀ t, tcb_id (f t) = tcb_id t ∧ tcb_cap_space (f t) = tcb_cap_space t ∧
        tcb_addr_space (f t) = tcb_addr_space t) →
  wp (modify (update_tcb id f) : K unit) (no_panic kinv) k.
Proof. intros. apply wp_modify. split; [done|]. by apply update_tcb_ok. Qed.

(** A scheduler operation whose error is propagated. *)
Lemma sched_op_ok (m : M Scheduler SchedError unit) k :
  kinv k → (∀ s, sched_wf s → wp m (sched_safe None s) s) →
  wp (map_err ErrSched (on_sched m)) (no_panic kinv) k.
Proof. intros. by apply wp_no_panic_map_err, on_sched_ok. Qed.

(** Blocking the caller and picking a successor. *)
Lemma block_and_pick_ok caller f k :
  kinv k →
  (∀ t, tcb_id (f t) = tcb_id t ∧ tcb_cap_space (f t) = tcb_cap_space t ∧
        tcb_addr_space (f t) = tcb_addr_space t) →
  wp (_ ← modify (update_tcb caller f);
      _ ← map_err ErrSched (on_sched (note_blocked caller));
      next ← pick;
      mret (Reschedule next)) (no_panic kinv) k.
Proof.
  intros Hk Hf. apply wp_no_panic_bind; [by apply modify_tcb_ok|]. intros _ k1 Hk1.
  apply wp_no_panic_bind; [apply sched_op_ok; [done|by intros; apply note_blocked_safe]|].
  intros _ k2 Hk2. apply wp_no_panic_bind; [by apply pick_ok|]. intros; by apply wp_ret.
Qed.

Lemma deliver_ok caller eid now k : kinv k → wp (deliver caller eid now) (no_panic kinv) k.
Proof.
  intros Hk. apply wp_bind, wp_gets, wp_no_panic_bind.
  - case_match; [|by apply wp_ret]. apply on_endpoint_ok; [done|]. intros e1 [c He].
    split; [done|]. eexists. by apply set_pending_rep.
  - intros [[rx m]|] k1 Hk1; [|by apply wp_ret].
    apply wp_no_panic_bind; [by apply modify_tcb_ok|]. intros _ k2 Hk2.
    apply sched_op_ok; [done|]. by intros; apply note_ready_safe.
Qed.

Lemma do_send_ok caller ecap msg is_call now k :
  kinv k → wp (do_send caller ecap msg is_call now) (no_panic kinv) k.
Proof.
  intros Hk. apply wp_bind, wp_resolve; [done| |done]. intros c _ _ _.
  apply wp_bind, wp_gets. apply wp_no_panic_bind.
  { apply from_endpoint_ok; [done|]. intros; by apply try_send_wf. }
  intros [rx| |] k1 Hk1; [|by apply block_and_pick_ok|by apply wp_ret].
  apply wp_no_panic_bind; [by apply deliver_ok|]. intros _ k2 Hk2.
  destruct is_call; [|by apply wp_ret].
  apply wp_no_panic_bind; [by apply modify_tcb_ok|]. intros _ k3 Hk3.
  apply wp_no_panic_bind; [apply sched_op_ok; [done|by intros; apply note_blocked_safe]|].
  intros _ k4 Hk4. apply wp_no_panic_bind; [|by intros; apply wp_ret].
  case_match; [by apply wp_ret|by apply pick_ok].
Qed.

Lemma do_recv_ok caller ecap now k :
  kinv k → wp (do_recv caller ecap now) (no_panic kinv) k.
Proof.
  intros Hk. apply wp_bind, wp_resolve; [done| |done]. intros c _ _ _.
  apply wp_no_panic_bind.
  { apply from_endpoint_ok; [done|]. intros; by apply try_recv_wf. }
  intros [from msg| |] k1 Hk1; [|by apply block_and_pick_ok|by apply wp_ret].
  apply wp_no_panic_bind.
  { apply modify_tcb_ok; [done|]. intros t. by case_decide. }
  intros _ k2 Hk2. apply wp_no_panic_bind; [|by intros; apply wp_ret].
  apply wp_no_panic_ignore, on_sched_ok; [done|]. by intros; apply note_ready_safe.
Qed.

Lemma do_reply_ok caller to msg now k :
  kinv k → wp (do_reply caller to msg now) (no_panic kinv) k.
Proof.
  intros Hk. unfold do_reply. case_match; [by apply wp_throw|].
  apply wp_bind, wp_gets. case_match; [by apply wp_throw|].
  apply wp_no_panic_bind; [by apply modify_tcb_ok|]. intros _ k1 Hk1.
  apply wp_no_panic_bind; [apply sched_op_ok; [done|by intros; apply note_ready_safe]|].
  intros _ k2 Hk2.
  apply wp_no_panic_bind; [apply sched_op_ok; [done|by intros; apply note_ready_safe]|].
  intros; by apply wp_ret.
Qed.

Lemma do_yield_ok now k : kinv k → wp (do_yield now) (no_panic kinv) k.
Proof.
  intros Hk. apply wp_no_panic_bind.
  { apply on_sched_ok; [done|]. intros; by apply account_safe. }
  intros _ k1 Hk1. apply wp_no_panic_bind; [by apply pick_ok|]. intros; by apply wp_ret.
Qed.

(** The arguments are of their machine widths, and a page mapped does not
    end at the last byte of the address space. *)
Definition op_ok (op : SyscallOp) : Prop :=
  match op with
  | Retype _ _ count => (count < U32)%N
  | Map _ _ vaddr _ => (vaddr + PAGE_SIZE < U64)%N
  | _ => True
  end.

Lemma dispatch_ok caller now op hal k :
  kinv k → hal_ok hal → op_ok op →
  wp (Syscall.dispatch caller now op hal) (no_panic kinv) k.
Proof.
  intros Hk Hh Hop. destruct op; simpl;
    eauto using do_yield_ok, do_send_ok, do_recv_ok, do_reply_ok, do_cap_grant_ok,
      do_cap_revoke_ok, do_retype_ok, do_map_ok, do_signal_ok, do_wait_ok, do_poll_ok,
      do_irq_bind_ok.
Qed.
End handlers.
