(* ===== verification/Boot.v ===== *)
(** * Booting

    [hal/hal-core/src/boot.rs]: the hand-off structure and its validation;
    [kernel/kernel-core/src/state.rs]: [subtract_holes] and
    [populate_from_boot_info], which seed the Root Task's capability space
    with the usable physical memory. *)

From S2P Require Import Prelude Capability CapTable Cdt Untyped AddressSpace Ipc Scheduler Manifest.
From S2P Require Import Kernel Syscall KernelInv.

(** ** The hand-off *)

Definition BOOT_INFO_MAGIC : N := 0x4841_4C42_4F4F_5431.
Definition BOOT_INFO_VERSION : N := 1.

Inductive BootProtocol := Uefi | SbiDeviceTree.

Record BootInfo := mkBootInfo {
  magic : N;
  version : N;
  protocol : BootProtocol;
  hardware_manifest : HardwareManifestRaw;
  initial_page_table_phys : N;
  kernel_image_phys_start : N;
  kernel_image_phys_end : N;
  boot_reserved_phys_start : N;
  boot_reserved_phys_end : N;
  boot_core_id : N;
}.

Definition boot_info_new (p : BootProtocol) (m : HardwareManifestRaw) (pt : N)
    (kernel_range reserved_range : N * N) (core : N) : BootInfo :=
  mkBootInfo BOOT_INFO_MAGIC BOOT_INFO_VERSION p m pt kernel_range.1 kernel_range.2
    reserved_range.1 reserved_range.2 core.

(** The one variant of [HalError] that validation uses. *)
Inductive HalError := MalformedBootInfo.

Definition validate (b : BootInfo) : HalError + unit :=
  if negb (magic b =? BOOT_INFO_MAGIC)%N then inl MalformedBootInfo else
  if negb (version b =? BOOT_INFO_VERSION)%N then inl MalformedBootInfo else
  if (kernel_image_phys_end b <? kernel_image_phys_start b)%N then inl MalformedBootInfo else
  if (boot_reserved_phys_end b <? boot_reserved_phys_start b)%N then inl MalformedBootInfo else
  if (cnt (memory (hardware_manifest b)) =? 0)%N then inl MalformedBootInfo else
  if (frequency_hz (timer (hardware_manifest b)) =? 0)%N then inl MalformedBootInfo else
  inr tt.

Definition overlaps_kernel_image (b : BootInfo) (addr : N) : bool :=
  (kernel_image_phys_start b <=? addr)%N && (addr <? kernel_image_phys_end b)%N.

Definition overlaps_boot_reserved (b : BootInfo) (addr : N) : bool :=
  (boot_reserved_phys_start b <=? addr)%N && (addr <? boot_reserved_phys_end b)%N.

(** ** Subtracting holes *)

Abbreviation Range := (N * N)%type (only parsing).

(** [while i > 0 && hs[i - 1].0 > a { hs[i] = hs[i - 1]; i -= 1; }];
    [None]: an index out of range. *)
Fixpoint shift_up (i : nat) (a : N) (hs : list Range) : option (list Range * nat) :=
  match i with
  | 0 => Some (hs, 0)
  | S j =>
      x ← hs !! j;
      if (a <? x.1)%N then
        _ ← hs !! i;
        shift_up j a (<[i := x]> hs)
      else Some (hs, i)
  end.

(** The first loop: the holes clamped to the range, sorted by start. *)
Fixpoint collect_holes (start fin : N) (holes : list Range) (hs : list Range) (n : nat)
    : option (list Range * nat) :=
  match holes with
  | [] => Some (hs, n)
  | (a, b) :: holes =>
      let a := N.max a start in
      let b := N.min b fin in
      if (b <=? a)%N || (length hs <=? n) then collect_holes start fin holes hs n else
      '(hs, i) ← shift_up n a hs;
      _ ← hs !! i;
      collect_holes start fin holes (<[i := (a, b)]> hs) (n + 1)
  end.

(** The second loop: the gaps before each hole. *)
Fixpoint emit_gaps (hs : list Range) (cur : N) (k : nat) (out : list Range)
    : N * nat * list Range :=
  match hs with
  | [] => (cur, k, out)
  | (a, b) :: hs =>
      let '(k, out) := if (cur <? a)%N && (k <? length out)
                       then (k + 1, <[k := (cur, a)]> out) else (k, out) in
      let cur := if (cur <? b)%N then b else cur in
      emit_gaps hs cur k out
  end.

Definition subtract_holes (start fin : N) (holes out : list Range) : option (nat * list Range) :=
  '(hs, n) ← collect_holes start fin holes (replicate 8 (0%N, 0%N)) 0;
  let '(cur, k, out) := emit_gaps (take n hs) start 0 out in
  if (cur <? fin)%N && (k <? length out)
  then Some (k + 1, <[k := (cur, fin)]> out)
  else Some (k, out).

(** ** Populating the kernel state *)

Inductive KernelInitError :=
| BadBootInfo | NoUsableMemory | CapacityExhausted | AlreadyInitialised.

Abbreviation B := (M KernelState KernelInitError) (only parsing).

Section boot.
Context {BF : Bitflags}.

(** [self.cap_space_mut(cs).expect(..).insert_root(cap)], its error kept as
    [None]. *)
Definition try_insert (cs : CapSpaceId) (cap : Capability) : B (option CapId) :=
  k ← gets (λ k, k);
  t ← unwrap (cap_space k cs);
  match insert_root cap t with
  | (Ok id, t') =>
      _ ← modify (set_cap_spaces (<[N.to_nat cs := Some t']> (cap_spaces k))); mret (Some id)
  | (Err _, t') =>
      _ ← modify (set_cap_spaces (<[N.to_nat cs := Some t']> (cap_spaces k))); mret None
  | (Panic, t') => panic
  end.

Definition object_cap (kind : KernelObjectKind) (id : N) : Capability :=
  full {| or_kind := kind; or_id := id |}.

(** The fragments of one region; [true]: [break 'regions]. *)
Fixpoint seed_frags (root_cs : CapSpaceId) (frags : list Range) (made : N) : B (bool * N) :=
  match frags with
  | [] => mret (false, made)
  | (fs, fe) :: frags =>
      if (saturating_sub fe fs <? PAGE_SIZE)%N then seed_frags root_cs frags made else
      size ← unwrap (checked_sub fe fs);
      uid ← alloc_untyped fs size;
      match uid with
      | None => mret (true, made)
      | Some uid =>
          slot ← try_insert root_cs (object_cap UntypedMemoryK uid);
          match slot with
          | Some _ => made ← unwrap (checked_add U32 made 1); seed_frags root_cs frags made
          | None => mret (true, made)
          end
      end
  end.

Fixpoint seed_regions (root_cs : CapSpaceId) (holes : list Range)
    (regions : list MemoryRegionRaw) (made : N) : B N :=
  match regions with
  | [] => mret made
  | r :: regions =>
      if negb (bool_decide (mrr_kind r = Usable)) || (length_bytes r <? PAGE_SIZE)%N
      then seed_regions root_cs holes regions made else
      let start := base_addr r in
      let fin := saturating_add U64 (base_addr r) (length_bytes r) in
      '(nfrags, frags) ← unwrap (subtract_holes start fin holes (replicate 8 (0%N, 0%N)));
      '(stop, made) ← seed_frags root_cs (take nfrags frags) made;
      if (stop : bool) then mret made else seed_regions root_cs holes regions made
  end.

(** The capability to the first device of [kind], or [u32::MAX]. *)
Definition seed_device (root_cs : CapSpaceId) (kind : PeripheralKind)
    (devices : list PeripheralDeviceRaw) : B CapId :=
  match filter (λ d, pdr_kind d = kind) devices with
  | [] => mret id_max
  | d :: _ =>
      mid ← alloc_mmio_region_direct
              (mkMmio (mmio_base d) (mmio_size d) (irq d) (config_space_base d));
      match mid with
      | None => mret id_max
      | Some mid =>
          slot ← try_insert root_cs (object_cap MmioRegionK mid);
          mret (match slot with Some s => s | None => id_max end)
      end
  end.

Definition boot_holes (b : BootInfo) : list Range :=
  [(kernel_image_phys_start b, kernel_image_phys_end b);
   (boot_reserved_phys_start b, boot_reserved_phys_end b);
   (0%N, kernel_image_phys_start b)].

Definition populate_from_boot_info (b : BootInfo) : B unit :=
  _ ← match validate b with inl _ => throw BadBootInfo | inr _ => mret tt end;
  root_cs ← alloc_cap_space;
  root_cs ← ok_or root_cs CapacityExhausted;
  root_as ← alloc_addr_space (initial_page_table_phys b);
  root_as ← ok_or root_as CapacityExhausted;
  root_tid ← alloc_tcb root_cs root_as;
  root_tid ← ok_or root_tid CapacityExhausted;
  regions ← unwrap (memory_regions (hardware_manifest b));
  made ← seed_regions root_cs (boot_holes b) regions 0;
  if (made =? 0)%N then throw NoUsableMemory else
  pt ← try_insert root_cs (object_cap PageTableK root_as);
  devices ← unwrap (peripheral_devices (hardware_manifest b));
  blk ← seed_device root_cs Block devices;
  net ← seed_device root_cs Network devices;
  _ ← map_err (λ _, CapacityExhausted)
        (on_sched (admit_thread root_tid Interactive Weight.MAX_PRIORITY None));
  _ ← map_err (λ _, CapacityExhausted) (on_sched (note_ready root_tid 0));
  _ ← modify (update_tcb root_tid (λ t, set_tcb_state Runnable (set_tcb_entry 0 t)));
  modify (set_root (mkRoot root_tid root_cs root_as
    (match pt with Some c => c | None => id_max end) blk net made)).

Definition from_boot_info (b : BootInfo) : outcome KernelInitError KernelState :=
  match populate_from_boot_info b EMPTY_STATE with
  | (Ok _, k) => Ok k
  | (Err e, _) => Err e
  | (Panic, _) => Panic
  end.

(** The two statics of [init_global]: the flag and the state. *)
Definition init_global (b : BootInfo) : M (bool * KernelState) KernelInitError unit :=
  '(already, _) ← gets (λ s, s);
  if (already : bool) then throw AlreadyInitialised else
  _ ← zoom snd (λ k s, (s.1, k)) (populate_from_boot_info b);
  modify (λ s, (true, s.2)).
End boot.

(** ** The gaps, on lists *)

(** The sub-ranges of [cur, fin) before, between and after [hs]. *)
Fixpoint gaps (hs : list Range) (cur fin : N) : list Range :=
  match hs with
  | [] => if (cur <? fin)%N then [(cur, fin)] else []
  | (a, b) :: hs =>
      (if (cur <? a)%N then [(cur, a)] else []) ++ gaps hs (if (cur <? b)%N then b else cur) fin
  end.

Definition in_range (v : N) (r : Range) : Prop := (r.1 ≤ v ∧ v < r.2)%N.

Definition covered (l : list Range) (v : N) : Prop := ∃ r, r ∈ l ∧ in_range v r.

(** Non-empty ranges, in order and apart, from [lo] on. *)
Fixpoint ascending (lo : N) (l : list Range) : Prop :=
  match l with
  | [] => True
  | (s, e) :: l => (lo ≤ s ∧ s < e)%N ∧ ascending e l
  end.

Fixpoint starts_sorted (l : list Range) : Prop :=
  match l with
  | [] => True
  | h :: l => (∀ h', h' ∈ l → (h.1 ≤ h'.1)%N) ∧ starts_sorted l
  end.

Lemma covered_nil v : ¬ covered [] v.
Proof. by intros (r & ?%not_elem_of_nil & _). Qed.

Lemma covered_cons h l v : covered (h :: l) v ↔ in_range v h ∨ covered l v.
Proof. unfold covered. setoid_rewrite elem_of_cons. naive_solver. Qed.

Lemma covered_app l l' v : covered (l ++ l') v ↔ covered l v ∨ covered l' v.
Proof. unfold covered. setoid_rewrite elem_of_app. naive_solver. Qed.

Lemma ascending_mono lo lo' l : (lo' ≤ lo)%N → ascending lo l → ascending lo' l.
Proof. destruct l as [|[s e] l]; simpl; [done|]. intros ? [? ?]. split; [lia|done]. Qed.

Lemma ascending_lower lo l v : ascending lo l → covered l v → (lo ≤ v)%N.
Proof.
  revert lo. induction l as [|[s e] l IH]; intros lo; simpl; [by intros _ ?%covered_nil|].
  intros [? Hl] [[? ?]|Hc]%covered_cons; simpl in *; [lia|]. pose proof (IH e Hl Hc). lia.
Qed.

(** A hole clamped to the range: not empty. *)
Definition hole_ok (fin : N) (h : Range) : Prop := (h.1 < h.2 ∧ h.2 ≤ fin)%N.

Lemma gaps_ascending hs cur fin : Forall (hole_ok fin) hs → ascending cur (gaps hs cur fin).
Proof.
  intros Hok. revert cur. induction Hok as [|[a b] hs [Hab Hb] Hok IH]; intros cur; simpl in *.
  - destruct (N.ltb_spec cur fin); simpl; [|done]. split; [lia|done].
  - destruct (N.ltb_spec cur a); simpl; [split; [lia|]|]; (eapply ascending_mono; [|apply IH]);
      destruct (N.ltb_spec cur b); lia.
Qed.

(** The gaps hold exactly what the holes do not. *)
Lemma gaps_covered hs cur fin v :
  Forall (hole_ok fin) hs → starts_sorted hs →
  covered (gaps hs cur fin) v ↔ (cur ≤ v ∧ v < fin)%N ∧ ¬ covered hs v.
Proof.
  intros Hok. revert cur.
  induction Hok as [|[a b] hs [Hab Hb] Hok IH]; intros cur; simpl in *.
  - intros _. destruct (N.ltb_spec cur fin).
    + rewrite covered_cons. unfold in_range. simpl. split.
      * intros [?|?%covered_nil]; [|done]. split; [done|]. apply covered_nil.
      * intros [? _]. by left.
    + split; [by intros ?%covered_nil|lia].
  - intros [Ha Hs]. rewrite covered_app, (IH _ Hs), covered_cons. unfold in_range at 1. simpl.
    assert (∀ x, covered hs x → (a ≤ x)%N) as Hge.
    { intros x (r & Hr & [? ?]). pose proof (Ha r Hr). lia. }
    assert (covered (if (cur <? a)%N then [(cur, a)] else []) v ↔ (cur ≤ v ∧ v < a)%N) as ->.
    { destruct (N.ltb_spec cur a); rewrite ?covered_cons; unfold in_range; simpl.
      - split; [intros [?|?%covered_nil]; done|by left].
      - split; [by intros ?%covered_nil|lia]. }
    destruct (N.ltb_spec cur b); (split; [intros [?|[? Hn]]|intros [? Hn]]).
    + split; [lia|]. intros [?|Hc]; [lia|]. apply Hge in Hc. lia.
    + split; [lia|]. intros [?|?]; [lia|done].
    + destruct (decide (v < a)%N); [left; lia|right].
      split; [|by intros Hc; apply Hn; right]. destruct (decide (v < b)%N); [|lia].
      exfalso. apply Hn. left. lia.
    + split; [lia|]. intros [?|Hc]; [lia|]. apply Hge in Hc. lia.
    + split; [lia|]. intros [?|?]; [lia|done].
    + right. split; [lia|]. intros Hc. apply Hn. by right.
Qed.

(** A run of addresses outside the holes lies in one gap. *)
Lemma gaps_run hs cur fin lo n :
  Forall (hole_ok fin) hs → starts_sorted hs → (0 < n)%N →
  (∀ v, lo ≤ v ∧ v < lo + n → (cur ≤ v ∧ v < fin) ∧ ¬ covered hs v)%N →
  ∃ r, r ∈ gaps hs cur fin ∧ (r.1 ≤ lo ∧ lo + n ≤ r.2)%N.
Proof.
  intros Hok. revert cur. induction Hok as [|[a b] hs [Hab Hb] Hok IH]; intros cur Hs Hn Hrun; simpl in *.
  - destruct (Hrun lo) as [? _]; [lia|]. destruct (Hrun (lo + n - 1)%N) as [? _]; [lia|].
    rewrite (proj2 (N.ltb_lt _ _)) by lia. exists (cur, fin). split; [by left|simpl; lia].
  - assert (∀ v, (lo ≤ v ∧ v < lo + n)%N → ¬ in_range v (a, b)) as Hout.
    { intros v Hv Hin. apply (Hrun v Hv), covered_cons. by left. }
    unfold in_range in Hout. simpl in Hout. destruct (Hrun lo) as [[Hlo _] _]; [lia|].
    destruct (decide (lo < a)%N) as [Hlt|Hge].
    + assert (lo + n ≤ a)%N.
      { destruct (decide (lo + n ≤ a)%N); [done|]. destruct (Hout a); lia. }
      exists (cur, a). rewrite (proj2 (N.ltb_lt _ _)) by lia. split; [by left|simpl; lia].
    + assert (b ≤ lo)%N by (destruct (decide (b ≤ lo)%N); [done|]; destruct (Hout lo); lia).
      destruct (IH (if (cur <? b)%N then b else cur)) as (r & Hr & Hin); [by apply Hs|done| |].
      * intros v Hv. destruct (Hrun v Hv) as [Hc Hno]. split; [destruct (cur <? b)%N; lia|].
        intros Hcov. apply Hno, covered_cons. by right.
      * exists r. split; [|done]. apply elem_of_app. by right.
Qed.

(** [emit_gaps] and the final fragment compute [gaps], while there is room. *)
Lemma emit_gaps_spec hs : ∀ cur k out fin pre,
  k + length hs < length out → take k out = pre →
  ∃ k' out', (let '(cur, k, out) := emit_gaps hs cur k out in
     if (cur <? fin)%N && (k <? length out) then (k + 1, <[k := (cur, fin)]> out) else (k, out))
    = (k', out') ∧ length out' = length out ∧ take k' out' = pre ++ gaps hs cur fin.
Proof.
  assert (∀ k (out : list Range) r, k < length out →
    take (k + 1) (<[k := r]> out) = take k out ++ [r]) as Htake.
  { intros k out r Hk. rewrite Nat.add_1_r.
    erewrite take_S_r; [|by apply list_lookup_insert_eq]. by rewrite take_insert_ge by lia. }
  induction hs as [|[a b] hs IH]; intros cur k out fin pre Hk Hpre; simpl in *.
  - destruct (N.ltb_spec cur fin); simpl.
    + rewrite (proj2 (Nat.ltb_lt _ _)) by lia. do 2 eexists. split; [done|].
      rewrite length_insert, Htake, Hpre by lia. done.
    + do 2 eexists. split; [done|]. by rewrite app_nil_r.
  - destruct (N.ltb_spec cur a); simpl.
    + rewrite (proj2 (Nat.ltb_lt _ _)) by lia.
      destruct (IH (if (cur <? b)%N then b else cur) (k + 1) (<[k := (cur, a)]> out) fin
        (pre ++ [(cur, a)])) as (k' & out' & -> & Hlen & Ht).
      { rewrite length_insert. lia. }
      { by rewrite Htake, Hpre by lia. }
      do 2 eexists. split; [done|]. rewrite length_insert in Hlen. split; [done|].
      by rewrite Ht, <- app_assoc.
    + by destruct (IH (if (cur <? b)%N then b else cur) k out fin pre)
        as (k' & out' & -> & Hlen & Ht); [lia|done|eauto].
Qed.

(** ** The insertion sort *)

Lemma shift_up_spec i : ∀ a (hs : list Range),
  i < length hs →
  ∃ hs' j, shift_up i a hs = Some (hs', j) ∧ j ≤ i ∧ length hs' = length hs ∧
    (∀ m, i < m → hs' !! m = hs !! m) ∧
    (∀ y, take (i + 1) (<[j := y]> hs') = take j hs ++ y :: drop j (take i hs)) ∧
    (∀ h, h ∈ drop j (take i hs) → (a < h.1)%N) ∧
    (j = 0 ∨ ∃ h, hs !! (j - 1) = Some h ∧ (h.1 ≤ a)%N).
Proof.
  induction i as [|i IH]; intros a hs Hi; simpl.
  - exists hs, 0. split_and!; try done; [|by intros h ?%not_elem_of_nil|by left].
    intros y. destruct hs; [simpl in Hi; lia|done].
  - destruct (lookup_lt_is_Some_2 hs i) as [x Hx]; [lia|]. rewrite Hx. simpl.
    destruct (N.ltb_spec a x.1) as [Hlt|Hge].
    + destruct (lookup_lt_is_Some_2 hs (S i)) as [z Hz]; [lia|]. rewrite Hz. simpl.
      destruct (IH a (<[S i := x]> hs)) as (hs' & j & -> & Hj & Hlen & Habove & Htk & Hgt & Hle).
      { rewrite length_insert. lia. }
      rewrite length_insert in Hlen. rewrite (take_insert_ge _ i) in Htk by lia.
      rewrite (take_insert_ge _ i) in Hgt by lia.
      assert (take (S i) hs = take i hs ++ [x]) as Hsnoc by by apply take_S_r.
      assert (drop j (take (S i) hs) = drop j (take i hs) ++ [x]) as Hdrop.
      { rewrite Hsnoc, drop_app_le; [done|]. rewrite length_take. lia. }
      exists hs', j. split; [done|]. split; [lia|]. split; [done|]. split; [|split; [|split]].
      * intros m Hm. rewrite Habove by lia. by rewrite list_lookup_insert_ne by lia.
      * intros y. rewrite Hdrop. replace (S i + 1) with (S (i + 1)) by lia.
        rewrite (take_S_r _ _ x), Htk.
        -- rewrite (take_insert_ge _ j) by lia. by rewrite <- app_assoc.
        -- rewrite list_lookup_insert_ne by lia. rewrite Habove by lia.
           rewrite Nat.add_1_r. apply list_lookup_insert_eq. lia.
      * intros h. rewrite Hdrop, elem_of_app, list_elem_of_singleton. intros [?| ->]; [by apply Hgt|done].
      * destruct Hle as [->|(h & Hh & ?)]; [by left|]. right. exists h. split; [|done].
        rewrite list_lookup_insert_ne in Hh by lia. done.
    + exists hs, (S i). split_and!; try done.
      * intros y. rewrite Nat.add_1_r. erewrite take_S_r; [|by apply list_lookup_insert_eq].
        rewrite take_insert_ge by lia. rewrite drop_ge; [done|]. rewrite length_take. lia.
      * intros h. rewrite drop_ge; [by intros ?%not_elem_of_nil|]. rewrite length_take. lia.
      * right. exists x. simpl. by rewrite Nat.sub_0_r.
Qed.

Lemma starts_sorted_app l1 l2 :
  starts_sorted (l1 ++ l2) ↔
  starts_sorted l1 ∧ starts_sorted l2 ∧ ∀ x y, x ∈ l1 → y ∈ l2 → (x.1 ≤ y.1)%N.
Proof.
  induction l1 as [|x l1 IH]; simpl.
  - split; [intros; split_and!; try done; by intros ? ? ?%not_elem_of_nil|naive_solver].
  - rewrite IH. setoid_rewrite elem_of_app. setoid_rewrite elem_of_cons. naive_solver.
Qed.

(** Inserting one hole keeps the prefix sorted. *)
Lemma sorted_insert j (l : list Range) (y : Range) :
  starts_sorted l → j ≤ length l →
  (∀ h, h ∈ drop j l → (y.1 < h.1)%N) →
  (j = 0 ∨ ∃ h, l !! (j - 1) = Some h ∧ (h.1 ≤ y.1)%N) →
  starts_sorted (take j l ++ y :: drop j l).
Proof.
  intros Hs Hj Hgt Hle. rewrite <- (take_drop j l) in Hs.
  apply starts_sorted_app in Hs as (H1 & H2 & H12).
  assert (∀ x, x ∈ take j l → (x.1 ≤ y.1)%N) as Hlow.
  { destruct Hle as [->|(h & Hh & Hhy)]; [by intros x ?%not_elem_of_nil|].
    destruct j as [|j]; [by intros x ?%not_elem_of_nil|]. simpl in Hh. rewrite Nat.sub_0_r in Hh.
    rewrite (take_S_r _ _ _ Hh) in H1 |- *.
    apply starts_sorted_app in H1 as (_ & _ & H1).
    intros x [Hx| ->%list_elem_of_singleton]%elem_of_app; [|done].
    specialize (H1 x h Hx). rewrite list_elem_of_singleton in H1. specialize (H1 eq_refl). lia. }
  apply starts_sorted_app. split; [done|]. split.
  - simpl. split; [|done]. intros h' Hh'. specialize (Hgt h' Hh'). lia.
  - intros x z Hx [->|Hz]%elem_of_cons; [by apply Hlow|by apply H12].
Qed.

Lemma covered_insert j (l : list Range) y v :
  covered (take j l ++ y :: drop j l) v ↔ in_range v y ∨ covered l v.
Proof.
  rewrite covered_app, covered_cons. rewrite <- (take_drop j l) at 3. rewrite covered_app.
  tauto.
Qed.

Lemma collect_holes_spec start fin holes : ∀ hs n,
  n + length holes < length hs →
  starts_sorted (take n hs) → Forall (hole_ok fin) (take n hs) →
  ∃ hs' n', collect_holes start fin holes hs n = Some (hs', n') ∧
    n' ≤ n + length holes ∧ length hs' = length hs ∧
    starts_sorted (take n' hs') ∧ Forall (hole_ok fin) (take n' hs') ∧
    ∀ v, (start ≤ v ∧ v < fin)%N →
      covered (take n' hs') v ↔ covered (take n hs) v ∨ covered holes v.
Proof.
  induction holes as [|[a0 b0] holes IH]; intros hs n Hn Hs Hok; simpl in *.
  - exists hs, n. split_and!; try done; [lia|]. intros v _.
    split; [by left|]. by intros [?|?%covered_nil].
  - set (a := N.max a0 start). set (b := N.min b0 fin).
    rewrite (proj2 (Nat.leb_gt (length hs) n)), orb_false_r by lia.
    destruct (N.leb_spec b a) as [Hba|Hab].
    + destruct (IH hs n) as (hs' & n' & -> & Hn' & Hlen & Hs' & Hok' & Hc); [lia|done..|].
      exists hs', n'. split_and!; try done; [lia|]. intros v Hv.
      rewrite (Hc v Hv), covered_cons. unfold in_range at 1. simpl. split; [tauto|].
      intros [?|[?|?]]; [by left| |by right]. subst a b. lia.
    + destruct (shift_up_spec n a hs) as (hs1 & j & -> & Hj & Hl1 & _ & Htk & Hgt & Hle); [lia|].
      simpl. destruct (lookup_lt_is_Some_2 hs1 j) as [z Hz]; [lia|]. rewrite Hz. simpl.
      assert (length (take n hs) = n) as Hln by (rewrite length_take; lia).
      assert (take j (take n hs) = take j hs) as Htt by (rewrite take_take; f_equal; lia).
      assert (take (n + 1) (<[j := (a, b)]> hs1) = take j (take n hs) ++ (a, b) :: drop j (take n hs))
        as Heq by (rewrite Htk, Htt; done).
      destruct (IH (<[j := (a, b)]> hs1) (n + 1)) as (hs' & n' & -> & Hn' & Hlen & Hs' & Hok' & Hc).
      * rewrite length_insert. lia.
      * rewrite Heq. apply sorted_insert; [done|lia|done|].
        destruct Hle as [->|(h & Hh & ?)]; [by left|].
        destruct j as [|j]; [by left|]. right. exists h. split; [|done].
        by rewrite lookup_take_lt by lia.
      * rewrite Heq. rewrite <- (take_drop j (take n hs)) in Hok.
        apply Forall_app in Hok as [H1 H2]. apply Forall_app. split; [done|].
        constructor; [|done]. split; simpl; [done|]. subst b. lia.
      * exists hs', n'. rewrite length_insert in Hlen. split_and!; try done; [lia|lia|].
        intros v Hv. rewrite (Hc v Hv), Heq, covered_insert, covered_cons.
        assert (in_range v (a, b) ↔ in_range v (a0, b0)) as ->.
        { unfold in_range. simpl. subst a b. lia. }
        tauto.
Qed.

(** The fragments of a range are the range minus the holes, and no run is broken up. *)
Lemma subtract_holes_spec start fin holes out :
  length holes < 8 → length out = 8 →
  ∃ k out', subtract_holes start fin holes out = Some (k, out') ∧
    ascending start (take k out') ∧
    (∀ v, covered (take k out') v ↔ (start ≤ v ∧ v < fin)%N ∧ ¬ covered holes v) ∧
    ∀ lo n, (0 < n)%N → (∀ v, lo ≤ v ∧ v < lo + n → (start ≤ v ∧ v < fin) ∧ ¬ covered holes v)%N →
      ∃ r, r ∈ take k out' ∧ (r.1 ≤ lo ∧ lo + n ≤ r.2)%N.
Proof.
  intros Hh Ho. unfold subtract_holes.
  destruct (collect_holes_spec start fin holes (replicate 8 (0%N, 0%N)) 0)
    as (hs & n & -> & Hn & Hl & Hs & Hok & Hc); [simpl; lia|done|constructor|].
  simpl in Hl. simpl in Hn. cbn -[emit_gaps].
  destruct (emit_gaps_spec (take n hs) start 0 out fin []) as (k & out' & Heq & _ & Htk).
  { rewrite length_take. lia. }
  { done. }
  destruct (emit_gaps (take n hs) start 0 out) as [[cur k0] out0]. exists k, out'.
  split; [destruct (_ && _); by simplify_eq|]. simpl in Htk. rewrite Htk.
  assert (∀ v, (start ≤ v ∧ v < fin)%N → covered (take n hs) v ↔ covered holes v) as Hc'.
  { intros v Hv. rewrite (Hc v Hv). split; [by intros [?%covered_nil|?]|by right]. }
  split; [by apply gaps_ascending|]. split.
  - intros v. rewrite gaps_covered by done.
    split; intros [Hv Hno]; (split; [done|]); by rewrite Hc' in *.
  - intros lo m Hm Hrun. apply gaps_run; try done.
    intros v Hv. destruct (Hrun v Hv) as [Hin Hno]. by rewrite Hc'.
Qed.

(** ** The empty state *)

Section establish.
Context {BF : Bitflags}.

Lemma empty_kinv : kinv EMPTY_STATE.
Proof.
  assert (∀ {A} n i (x : A), tget (replicate n None) i = Some x → False) as Hno.
  { intros A n i x. by rewrite tget_replicate_None. }
  split.
  - by split.
  - by apply (forest_empty CAP_SLOTS_PER_SPACE MAX_CAP_SPACES).
  - intros g c p. unfold node. intros H.
    destruct (tget (cap_spaces EMPTY_STATE) (g_space g)) eqn:E; [|done].
    by apply (Hno _ MAX_CAP_SPACES) in E.
  - intros i u H. by apply (Hno _ MAX_UNTYPED) in H.
  - intros i u H. by apply (Hno _ MAX_ADDR_SPACES) in H.
  - intros i u H. by apply (Hno _ MAX_ENDPOINTS) in H.
  - intros i u H. by apply (Hno _ MAX_NOTIFICATIONS) in H.
  - intros i u H. by apply (Hno _ MAX_THREADS) in H.
  - apply sched_new_wf.
  - split; simpl; unfold PAGE_SIZE; lia.
Qed.

(** What a step of the boot leaves alone. *)
Record boot_frame (k k' : KernelState) : Prop := {
  bf_tcbs : tcbs k' = tcbs k;
  bf_sched : sched k' = sched k;
  bf_nodes g e : node (cap_spaces k) g = Some e → node (cap_spaces k') g = Some e;
  bf_objects : objects_grow k k';
}.

Lemma bf_spaces k k' cs : boot_frame k k' → is_Some (cap_space k cs) → is_Some (cap_space k' cs).
Proof.
  intros Hf. apply (bf_objects _ _ Hf {| or_kind := CapabilitySpaceK; or_id := cs |}).
Qed.

Lemma boot_frame_refl k : boot_frame k k.
Proof. split; try done. by intros o. Qed.

Lemma boot_frame_trans k1 k2 k3 : boot_frame k1 k2 → boot_frame k2 k3 → boot_frame k1 k3.
Proof.
  intros [? ? ? O1] [? ? ? O2]. split; auto; try congruence. intros o ?. by apply O2, O1.
Qed.

Lemma try_insert_spec cs cap k :
  kinv k → is_Some (cap_space k cs) → object_exists k (cap_object cap) →
  wp (try_insert cs cap)
     (λ r k', kinv k' ∧ boot_frame k k' ∧ untyped k' = untyped k ∧
        objects_grow k k' ∧
        match r with
        | Ok (Some id) => node (cap_spaces k') (mkGlobalCapId cs id) = Some (cap, None)
        | Ok None => True
        | _ => False
        end) k.
Proof.
  intros Hk [t Ht] Hobj. apply wp_bind, wp_gets, wp_bind. rewrite Ht. apply wp_ret.
  pose proof Ht as Hi%tget_Some.
  pose proof (tok_wf _ _ _ (fo_table _ _ (ki_forest _ Hk) _ _ Hi)) as Hwf.
  pose proof (insert_cap_ok cs cap k Hk Hobj) as Hins. revert Hins.
  unfold insert_cap, wp, on_slot, map_err.
  change (tget (cap_spaces k) cs) with (cap_space k cs). rewrite Ht.
  rewrite insert_root_fill by done.
  destruct (fill_spec t cap None Hwf) as [[-> _]|(id & t' & -> & _ & Hins)];
    simpl; intros [_ Hk'].
  - split; [done|].
    assert (set_cap_spaces (<[N.to_nat cs:=Some t]> (cap_spaces k)) k = k) as ->.
    { rewrite list_insert_id by done. by destruct k. }
    split; [apply boot_frame_refl|]. split; [done|]. split; [by intros o|done].
  - split; [done|].
    assert (objects_grow k (set_cap_spaces (<[N.to_nat cs := Some t']> (cap_spaces k)) k)) as Hg.
    { apply objects_grow_table; simpl; try done. intros j. by eapply is_Some_tget_insert. }
    split; [|split; [done|split; [done|]]].
    + split; simpl; try done.
      intros g e He. rewrite (node_inserted _ _ _ _ _ _ _ _ Hi Hins).
      case_decide as Hd; [|done]. subst g. rewrite (node_of _ _ _ _ Hi) in He.
      pose proof (ins_fresh _ _ _ _ _ Hins). congruence.
    + rewrite (node_inserted _ _ _ _ _ _ _ _ Hi Hins). rewrite N2Nat.id. by rewrite decide_True.
Qed.

Lemma alloc_untyped_frame base size k :
  kinv k → (base + size < U64)%N →
  wp (E := KernelInitError) (alloc_untyped base size)
     (λ r k', kinv k' ∧ boot_frame k k' ∧
        match r with
        | Ok (Some id) => ∃ i, id = N.of_nat i ∧ untyped k !! i = Some None ∧
            untyped k' = <[i := Some (um_new base size)]> (untyped k) ∧
            object_exists k' {| or_kind := UntypedMemoryK; or_id := id |}
        | Ok None => k' = k
        | _ => False
        end) k.
Proof.
  intros Hk Hb. pose proof (alloc_untyped_ok (E := KernelInitError) base size k Hk Hb) as Hpost.
  revert Hpost. unfold alloc_untyped, alloc_in, wp, mbind, M_bind. simpl.
  destruct (position is_none (untyped k)) as [i|] eqn:Hp; simpl.
  2: { intros _. split; [done|]. by split; [apply boot_frame_refl|]. }
  pose proof (position_free _ _ Hp) as [Hi Hlt].
  assert (truncate U32 (N.of_nat i) = N.of_nat i) as ->.
  { unfold truncate. rewrite N.mod_small; [done|].
    rewrite (sz_untyped _ (ki_sizes _ Hk)) in Hlt. unfold MAX_UNTYPED in Hlt. lia. }
  intros (Hk' & Hg & Hobj). split; [done|]. split; [by split|]. exists i. done.
Qed.

(** ** Seeding *)

Definition in_untyped (u : UntypedMemory) (v : N) : Prop :=
  (um_base u ≤ v ∧ v < um_base u + um_size u)%N.

(** The untyped objects: fresh, inside [safe], and, when the usable regions
    are ([D]), apart from each other. *)
Context (D : Prop).

Record seeded (safe : N → Prop) (k : KernelState) : Prop := {
  sd_fresh i u : untyped_of k i = Some u → um_watermark u = 0%N ∧ (PAGE_SIZE ≤ um_size u)%N;
  sd_safe i u v : untyped_of k i = Some u → in_untyped u v → safe v;
  sd_disjoint i j u u' v : D → untyped_of k i = Some u → untyped_of k j = Some u' →
    in_untyped u v → in_untyped u' v → i = j;
}.

(** A capability to untyped memory in the space [cs]. *)
Definition holds_untyped (k : KernelState) (cs : CapSpaceId) : Prop :=
  ∃ id c p, node (cap_spaces k) (mkGlobalCapId cs id) = Some (c, p) ∧
            or_kind (cap_object c) = UntypedMemoryK.

(** The state while the memory regions are being handed out. *)
Record seeding (k0 : KernelState) (cs : CapSpaceId) (safe : N → Prop) (made : N)
    (k : KernelState) : Prop := {
  sg_kinv : kinv k;
  sg_frame : boot_frame k0 k;
  sg_seeded : seeded safe k;
  sg_made : (made ≤ N.of_nat (length (flatten (untyped k))))%N;
  sg_holds : made ≠ 0%N → holds_untyped k cs;
}.

(** No untyped object meets a range of [l]. *)
Definition apart (k : KernelState) (l : list Range) : Prop :=
  D → ∀ i u v, untyped_of k i = Some u → in_untyped u v → ¬ covered l v.

(** A new object in a free slot: every other object was there before. *)
Lemma untyped_filled k k1 i u0 :
  untyped k !! i = Some None → untyped k1 = <[i := Some u0]> (untyped k) →
  ∀ j u, untyped_of k1 j = Some u →
    (j = N.of_nat i ∧ u = u0) ∨ (j ≠ N.of_nat i ∧ untyped_of k j = Some u).
Proof.
  intros Hi Hu1 j u. unfold untyped_of. rewrite Hu1. intros Hj.
  destruct (decide (j = N.of_nat i)) as [->|Hne].
  - left. rewrite tget_fill in Hj by done. by simplify_eq.
  - right. split; [done|]. rewrite tget_insert_nat in Hj by by eapply lookup_lt_Some.
    by rewrite decide_False in Hj by done.
Qed.

Lemma in_untyped_new fs fe v :
  (fs ≤ fe)%N → in_untyped (um_new fs (fe - fs)) v ↔ (fs ≤ v ∧ v < fe)%N.
Proof. intros. unfold in_untyped. simpl. lia. Qed.

(** A fragment that is safe and apart from the objects may become one. *)
Lemma seeded_new (safe : N → Prop) k k1 i fs fe :
  seeded safe k → untyped k !! i = Some None →
  untyped k1 = <[i := Some (um_new fs (fe - fs))]> (untyped k) →
  (fs + PAGE_SIZE ≤ fe)%N → (∀ v, (fs ≤ v ∧ v < fe)%N → safe v) → apart k [(fs, fe)] →
  seeded safe k1.
Proof.
  intros [S1 S2 S3] Hi Hu1 Hsize Hsafe Hap.
  pose proof (untyped_filled k k1 i _ Hi Hu1) as Hcase.
  assert (∀ v, in_untyped (um_new fs (fe - fs)) v ↔ (fs ≤ v ∧ v < fe)%N) as Hu0
    by (intros; apply in_untyped_new; lia).
  assert (∀ v, in_untyped (um_new fs (fe - fs)) v → covered [(fs, fe)] v) as Hcov.
  { intros v Hv%Hu0. apply covered_cons. by left. }
  split.
  - intros j u [[-> ->]|[_ Hj]]%Hcase; [simpl; split; [done|lia]|by eapply S1].
  - intros j u v [[-> ->]|[_ Hj]]%Hcase Hv; [by apply Hsafe, Hu0|by eapply S2].
  - intros j j' u u' v HD [[-> ->]|[Hne Hj]]%Hcase [[-> ->]|[Hne' Hj']]%Hcase Hv Hv';
      [done|exfalso|exfalso|by eapply S3].
    + apply (Hap HD _ _ _ Hj' Hv'), Hcov, Hv.
    + apply (Hap HD _ _ _ Hj Hv), Hcov, Hv'.
Qed.

(** The recursive call, when the first fragment is left out. *)
Lemma apart_tail k r l : apart k (r :: l) → apart k l.
Proof. intros H HD i u v Hu Hv Hc. eapply H; [done..|]. apply covered_cons. by right. Qed.

Lemma apart_head k r l : apart k (r :: l) → apart k [r].
Proof.
  intros H HD i u v Hu Hv [Hc|Hc]%covered_cons; [|by apply covered_nil in Hc].
  eapply H; [done..|]. apply covered_cons. by left.
Qed.

(** Handing out one fragment: [k1] after the allocation, [k2] after the
    capability was inserted, or could not be. *)
Lemma seeding_next k0 cs (safe : N → Prop) made k k1 k2 i fs fe :
  seeding k0 cs safe made k → kinv k2 → boot_frame k k1 → boot_frame k1 k2 →
  untyped k !! i = Some None →
  untyped k1 = <[i := Some (um_new fs (fe - fs))]> (untyped k) → untyped k2 = untyped k1 →
  (fs + PAGE_SIZE ≤ fe)%N → (∀ v, (fs ≤ v ∧ v < fe)%N → safe v) → apart k [(fs, fe)] →
  seeding k0 cs safe made k2 ∧ (made + 1 < U32)%N ∧
  (holds_untyped k2 cs → seeding k0 cs safe (made + 1) k2).
Proof.
  intros Hs Hk2 Hf1 Hf2 Hi Hu1 Hu2 Hsize Hsafe Hap.
  assert (seeded safe k2) as Hs2.
  { eapply seeded_new; [apply Hs|exact Hi|by rewrite Hu2|done..]. }
  assert (boot_frame k0 k2) as Hf02.
  { eapply boot_frame_trans; [apply Hs|]. by eapply boot_frame_trans. }
  assert (length (flatten (untyped k2)) = S (length (flatten (untyped k)))) as Hlen.
  { rewrite Hu2, Hu1. by apply flatten_length_fill. }
  pose proof (sg_made _ _ _ _ _ Hs) as Hmade. split_and!.
  - split; try done; [lia|]. intros Hne.
    destruct (sg_holds _ _ _ _ _ Hs Hne) as (id & c & p & Hn & Hk').
    exists id, c, p. split; [|done]. by apply (bf_nodes _ _ Hf2), (bf_nodes _ _ Hf1).
  - pose proof (flatten_length_le (untyped k2)) as Hle.
    rewrite (sz_untyped _ (ki_sizes _ Hk2)) in Hle. unfold MAX_UNTYPED in Hle. lia.
  - intros Hh. split; try done. lia.
Qed.

Lemma seed_frags_spec k0 cs (safe : N → Prop) frags : ∀ lo made k,
  is_Some (cap_space k0 cs) →
  seeding k0 cs safe made k → ascending lo frags → apart k frags →
  (∀ v, covered frags v → safe v) → (∀ v, covered frags v → (v < U64 - 1)%N) →
  wp (seed_frags cs frags made)
     (λ r k', match r with
              | Ok (_, made') => seeding k0 cs safe made' k' ∧
                  ∀ i u v, untyped_of k' i = Some u → in_untyped u v →
                    covered frags v ∨ (∃ j u', untyped_of k j = Some u' ∧ in_untyped u' v)
              | _ => False
              end) k.
Proof.
  induction frags as [|[fs fe] frags IH]; intros lo made k Hcs Hs Hasc Hap Hsafe Hlt; simpl.
  { apply wp_ret. split; [done|]. eauto. }
  destruct Hasc as [[Hlo Hfe] Hasc].
  assert (∀ v, covered frags v → (fe ≤ v)%N) as Hge by by (intros v; eapply ascending_lower).
  pose proof (apart_tail _ _ _ Hap) as Hap'.
  destruct (N.ltb_spec (saturating_sub fe fs) PAGE_SIZE) as [Hsmall|Hbig].
  { eapply wp_mono.
    { eapply (IH fe); try done; intros v Hv; [apply Hsafe|apply Hlt]; apply covered_cons; by right. }
    intros [[stop made']|e|] k' H; try done. destruct H as [H1 H2]. split; [done|].
    intros i u v Hu Hv. destruct (H2 i u v Hu Hv) as [?|?]; [|by right].
    left. apply covered_cons. by right. }
  unfold saturating_sub in Hbig. apply wp_bind. unfold checked_sub.
  rewrite (proj2 (N.leb_le fs fe)) by lia. apply wp_ret, wp_bind.
  assert (∀ v, (fs ≤ v ∧ v < fe)%N → covered ((fs, fe) :: frags) v) as Hin.
  { intros v Hv. apply covered_cons. by left. }
  assert (fe ≤ U64 - 1)%N by (pose proof (Hlt (fe - 1)%N ltac:(apply Hin; lia)); lia).
  eapply wp_mono; [apply alloc_untyped_frame; [apply Hs|lia]|].
  intros [[uid|]|e|] k1; [|intros (_ & _ & ->)|by intros (_ & _ & [])..].
  2: { apply wp_ret. split; [done|]. eauto. }
  intros (Hk1 & Hf1 & i & -> & Hi & Hu1 & Hobj).
  pose proof (untyped_filled k k1 i _ Hi Hu1) as Hcase.
  assert (∀ v, in_untyped (um_new fs (fe - fs)) v ↔ (fs ≤ v ∧ v < fe)%N) as Hu0
    by (intros; apply in_untyped_new; lia).
  assert (is_Some (cap_space k1 cs)) as Hcs1.
  { apply (bf_spaces _ _ _ Hf1), (bf_spaces _ _ _ (sg_frame _ _ _ _ _ Hs)), Hcs. }
  apply wp_bind. eapply wp_mono; [by apply try_insert_spec|].
  intros r k2 (Hk2 & Hf2 & Hu2 & _ & Hr).
  assert (∀ j, untyped_of k2 j = untyped_of k1 j) as Hof by (intros j; unfold untyped_of; by rewrite Hu2).
  destruct (seeding_next k0 cs safe made k k1 k2 i fs fe) as (Hs2 & Hmade & Hs2');
    [done..|lia|auto|by eapply apart_head|].
  destruct r as [[slot|]|e|]; [| |done|done].
  - apply wp_bind. unfold checked_add. rewrite (proj2 (N.ltb_lt _ _)) by done. apply wp_ret.
    eapply wp_mono; [eapply (IH fe)|]; try done.
    + apply Hs2'. do 3 eexists. split; [exact Hr|done].
    + intros HD j u v. rewrite Hof. intros [[-> ->]|[_ Hj]]%Hcase Hv Hc; [|by eapply Hap'].
      apply Hu0 in Hv. apply Hge in Hc. lia.
    + intros v Hv. apply Hsafe, covered_cons. by right.
    + intros v Hv. apply Hlt, covered_cons. by right.
    + intros [[stop made']|e|] k' Hq; try done. destruct Hq as [H1 H2]. split; [done|].
      intros j u v Hu Hv. destruct (H2 j u v Hu Hv) as [?|(j' & u' & Hj' & Hv')].
      { left. apply covered_cons. by right. }
      rewrite Hof in Hj'. apply Hcase in Hj' as [[-> ->]|[_ Hj']]; [|right; eauto].
      left. by apply Hin, Hu0.
  - apply wp_ret. split; [done|].
    intros j u v. rewrite Hof. intros [[-> ->]|[_ Hj]]%Hcase Hv; [|right; eauto].
    left. by apply Hin, Hu0.
Qed.

Definition in_region (r : MemoryRegionRaw) (v : N) : Prop :=
  mrr_kind r = Usable ∧ (base_addr r ≤ v ∧ v < base_addr r + length_bytes r)%N.

(** Usable memory outside the holes. *)
Definition free_memory (regions : list MemoryRegionRaw) (holes : list Range) (v : N) : Prop :=
  (∃ r, r ∈ regions ∧ in_region r v) ∧ ¬ covered holes v.

Definition regions_apart (regions : list MemoryRegionRaw) : Prop :=
  ForallOrdPairs (λ r r', ∀ v, in_region r v → ¬ in_region r' v) regions.

Lemma seed_regions_spec k0 cs holes all regions : ∀ made k,
  length holes < 8 → (∀ r, r ∈ regions → r ∈ all) → (D → regions_apart regions) →
  is_Some (cap_space k0 cs) →
  seeding k0 cs (free_memory all holes) made k →
  (D → ∀ i u v r, untyped_of k i = Some u → in_untyped u v → r ∈ regions → ¬ in_region r v) →
  wp (seed_regions cs holes regions made)
     (λ r k', match r with
              | Ok made' => seeding k0 cs (free_memory all holes) made' k'
              | _ => False
              end) k.
Proof.
  induction regions as [|r regions IH]; intros made k Hh Hall Hapart Hcs Hs Hap;
    cbn [seed_regions].
  { by apply wp_ret. }
  assert (∀ r', r' ∈ regions → r' ∈ all) as Hall' by (intros; apply Hall; by right).
  assert (D → regions_apart regions) as Hapart'.
  { intros HD. pose proof (Hapart HD) as Hx. by inversion Hx. }
  destruct (bool_decide (mrr_kind r = Usable)) eqn:Hus; cbn [negb orb].
  2: { apply IH; try done. intros HD i u v r' ? ? ?. eapply (Hap HD); [done..|by right]. }
  apply bool_decide_eq_true in Hus.
  case_match.
  { apply IH; try done. intros HD i u v r' ? ? ?. eapply (Hap HD); [done..|by right]. }
  apply wp_bind.
  destruct (subtract_holes_spec (base_addr r)
    (saturating_add U64 (base_addr r) (length_bytes r)) holes (replicate 8 (0%N, 0%N)) Hh eq_refl)
    as (n & out & -> & Hasc & Hcov & _). apply wp_ret.
  assert (∀ v, covered (take n out) v → in_region r v ∧ (v < U64 - 1)%N ∧ ¬ covered holes v)
    as Hreg.
  { intros v [Hv Hno]%Hcov. unfold saturating_add in Hv. split; [|split; [lia|done]].
    split; [done|lia]. }
  apply wp_bind. eapply wp_mono.
  { eapply (seed_frags_spec k0 cs _ (take n out) (base_addr r)); try done.
    - intros HD i u v Hu Hv [Hr _]%Hreg. eapply (Hap HD); [done..|by left|done].
    - intros v (Hr & _ & Hno)%Hreg. split; [|done]. exists r. split; [apply Hall; by left|done].
    - intros v (_ & ? & _)%Hreg. done. }
  intros [[stop made']|e|] k1 Hq; try done. destruct Hq as [Hs1 Hnew].
  destruct stop; [by apply wp_ret|]. apply IH; try done.
  intros HD i u v r' Hu Hv Hr' Hin.
  destruct (Hnew i u v Hu Hv) as [Hc|(j & u' & Hj & Hv')].
  - apply Hreg in Hc as [Hc _].
    assert (regions_apart (r :: regions)) as Hra by by apply Hapart.
    inversion Hra as [|? ? Hhd _]; subst. rewrite Forall_forall in Hhd.
    by apply (Hhd r' Hr' v).
  - eapply (Hap HD); [done..|by right|done].
Qed.

Lemma alloc_mmio_frame r k :
  kinv k →
  wp (E := KernelInitError) (alloc_mmio_region_direct r)
     (λ o k', kinv k' ∧ boot_frame k k' ∧ untyped k' = untyped k ∧
        match o with
        | Ok (Some id) => object_exists k' {| or_kind := MmioRegionK; or_id := id |}
        | Ok None => True
        | _ => False
        end) k.
Proof.
  intros Hk. pose proof (alloc_mmio_region_ok (E := KernelInitError) r k Hk) as Hpost.
  revert Hpost. unfold alloc_mmio_region_direct, alloc_in, wp, mbind, M_bind. simpl.
  destruct (position is_none (mmio_regions k)) as [i|] eqn:Hp; simpl.
  - intros (Hk' & Hg & Hobj). by split_and!.
  - intros _. split; [done|]. by split; [apply boot_frame_refl|].
Qed.

Lemma seed_device_spec cs kind devices k :
  kinv k → is_Some (cap_space k cs) →
  wp (seed_device cs kind devices)
     (λ r k', (∃ c, r = Ok c) ∧ kinv k' ∧ boot_frame k k' ∧ untyped k' = untyped k) k.
Proof.
  intros Hk Hcs. unfold seed_device. destruct (filter _ devices) as [|d ds].
  { apply wp_ret. split; [eauto|]. by split; [|split; [apply boot_frame_refl|]]. }
  apply wp_bind. eapply wp_mono; [by apply alloc_mmio_frame|].
  intros [[id|]|e|] k1 (Hk1 & Hf1 & Hu1 & Hobj); try done.
  - apply wp_bind. eapply wp_mono.
    { apply try_insert_spec; [done|by apply (bf_spaces _ _ _ Hf1)|exact Hobj]. }
    intros [s|e|] k2 (Hk2 & Hf2 & Hu2 & _ & Hr); try done. apply wp_ret.
    split; [eauto|]. split; [done|]. split; [by eapply boot_frame_trans|congruence].
  - apply wp_ret. split; [eauto|]. done.
Qed.

(** Memory that may become user memory: usable, at or above the start of the
    kernel image, and in neither of the two reserved ranges. *)
Definition user_memory (b : BootInfo) (regions : list MemoryRegionRaw) (v : N) : Prop :=
  (∃ r, r ∈ regions ∧ in_region r v) ∧ (kernel_image_phys_start b ≤ v)%N ∧
  overlaps_kernel_image b v = false ∧ overlaps_boot_reserved b v = false.

Lemma free_user_memory b regions v :
  free_memory regions (boot_holes b) v → user_memory b regions v.
Proof.
  intros [Hr Hno]. split; [done|]. unfold boot_holes in Hno. rewrite !covered_cons in Hno.
  unfold in_range, overlaps_kernel_image, overlaps_boot_reserved in *. simpl in *.
  rewrite !andb_false_iff, !N.leb_gt, !N.ltb_ge.
  assert (¬ (kernel_image_phys_start b ≤ v ∧ v < kernel_image_phys_end b)%N) by tauto.
  assert (¬ (boot_reserved_phys_start b ≤ v ∧ v < boot_reserved_phys_end b)%N) by tauto.
  assert (¬ (0 ≤ v ∧ v < kernel_image_phys_start b)%N) by tauto. lia.
Qed.

(** A page of user memory, in one region; the code leaves the last byte of the address
    space out. *)
Definition user_page (b : BootInfo) (r : MemoryRegionRaw) (lo : N) : Prop :=
  ∀ v, (lo ≤ v ∧ v < lo + PAGE_SIZE)%N → (v < U64 - 1)%N ∧ user_memory b [r] v.

Definition no_user_page (b : BootInfo) : Prop :=
  ∃ regions, memory_regions (hardware_manifest b) = Some regions ∧
    ∀ r lo, r ∈ regions → ¬ user_page b r lo.

(** What booting from [b] promises of the state. *)
Record booted (b : BootInfo) (k : KernelState) : Prop := {
  bt_kinv : kinv k;
  bt_untyped : ∃ regions, memory_regions (hardware_manifest b) = Some regions ∧
    seeded (user_memory b regions) k;
  bt_count : (1 ≤ untyped_count (root k) ≤ N.of_nat (length (flatten (untyped k))))%N;
  bt_holds : holds_untyped k (root_cap_space (root k));
  bt_thread : ∃ t, tcb k (root_thread (root k)) = Some t ∧ tcb_state t = Runnable ∧
    tcb_cap_space t = root_cap_space (root k) ∧ tcb_addr_space t = root_addr_space (root k);
  bt_sched : pick_next (sched k) = Some (Some (root_thread (root k)));
}.

(** The root thread is the only entity of the scheduler. *)
Lemma boot_schedule :
  let s := (note_ready 0 0 (admit_thread 0 Interactive Weight.MAX_PRIORITY None
              (sched EMPTY_STATE)).2).2 in
  pick_next s = Some (Some 0%N) ∧
  (admit_thread 0 Interactive Weight.MAX_PRIORITY None (sched EMPTY_STATE)).1 = Ok tt ∧
  (note_ready 0 0 (admit_thread 0 Interactive Weight.MAX_PRIORITY None (sched EMPTY_STATE)).2).1 = Ok tt.
Proof. by vm_compute. Qed.

(** The Root Task's spaces and thread, each in slot 0. *)
Definition boot_state (pt : N) : KernelState :=
  (alloc_tcb (E := KernelInitError) 0 0
    (alloc_addr_space (E := KernelInitError) pt
      (alloc_cap_space (E := KernelInitError) EMPTY_STATE).2).2).2.

Lemma boot_objects pt (Q : outcome KernelInitError unit → KernelState → Prop)
    (f : CapSpaceId → PageTableId → ThreadId → B unit) :
  wp (f 0 0 0)%N Q (boot_state pt) →
  wp (root_cs ← alloc_cap_space;
      root_cs ← ok_or root_cs CapacityExhausted;
      root_as ← alloc_addr_space pt;
      root_as ← ok_or root_as CapacityExhausted;
      root_tid ← alloc_tcb root_cs root_as;
      root_tid ← ok_or root_tid CapacityExhausted;
      f root_cs root_as root_tid) Q EMPTY_STATE.
Proof. intros H. exact H. Qed.

Lemma boot_state_spec pt :
  kinv (boot_state pt) ∧ untyped (boot_state pt) = replicate MAX_UNTYPED None ∧
  tcb (boot_state pt) 0 = Some (new_inactive 0 0 0) ∧
  sched (boot_state pt) = sched EMPTY_STATE ∧ is_Some (cap_space (boot_state pt) 0) ∧
  object_exists (boot_state pt) {| or_kind := PageTableK; or_id := 0%N |}.
Proof.
  split; [|split_and!; try done; by eexists].
  pose proof (alloc_cap_space_ok (E := KernelInitError) _ empty_kinv) as (H1 & _ & C1).
  pose proof (alloc_addr_space_ok (E := KernelInitError) pt _ H1) as (H2 & G2 & C2).
  apply (alloc_tcb_ok (E := KernelInitError) 0 0 _ H2); [|exact C2].
  exact (G2 {| or_kind := CapabilitySpaceK; or_id := 0%N |} C1).
Qed.

Lemma validate_ok b :
  validate b = inr tt ↔
  magic b = BOOT_INFO_MAGIC ∧ version b = BOOT_INFO_VERSION ∧
  (kernel_image_phys_start b ≤ kernel_image_phys_end b)%N ∧
  (boot_reserved_phys_start b ≤ boot_reserved_phys_end b)%N ∧
  cnt (memory (hardware_manifest b)) ≠ 0%N ∧
  frequency_hz (timer (hardware_manifest b)) ≠ 0%N.
Proof.
  unfold validate.
  destruct (N.eqb_spec (magic b) BOOT_INFO_MAGIC); simpl; [|naive_solver].
  destruct (N.eqb_spec (version b) BOOT_INFO_VERSION); simpl; [|naive_solver].
  destruct (N.ltb_spec (kernel_image_phys_end b) (kernel_image_phys_start b)); [naive_solver lia|].
  destruct (N.ltb_spec (boot_reserved_phys_end b) (boot_reserved_phys_start b)); [naive_solver lia|].
  destruct (N.eqb_spec (cnt (memory (hardware_manifest b))) 0); [naive_solver|].
  destruct (N.eqb_spec (frequency_hz (timer (hardware_manifest b))) 0); naive_solver.
Qed.

Lemma seeding_start pt safe : seeding (boot_state pt) 0 safe 0 (boot_state pt).
Proof.
  destruct (boot_state_spec pt) as (Hk & Hu & _).
  assert (∀ i, untyped_of (boot_state pt) i = None) as Hno.
  { intros i. unfold untyped_of. rewrite Hu. apply tget_replicate_None. }
  split; [done|apply boot_frame_refl| |lia|done].
  split; intros i *; rewrite Hno; done.
Qed.

(** The state before scheduling the Root Task. *)
Lemma finish_boot b made k pt blk net :
  kinv k → boot_frame (boot_state (initial_page_table_phys b)) k →
  wp (_ ← map_err (λ _, CapacityExhausted)
        (on_sched (admit_thread 0 Interactive Weight.MAX_PRIORITY None));
      _ ← map_err (λ _, CapacityExhausted) (on_sched (note_ready 0 0));
      _ ← modify (update_tcb 0 (λ t, set_tcb_state Runnable (set_tcb_entry 0 t)));
      modify (set_root (mkRoot 0 0 0 pt blk net made)))
     (λ r k', r = Ok tt ∧ kinv k' ∧ untyped k' = untyped k ∧ cap_spaces k' = cap_spaces k ∧
        root k' = mkRoot 0 0 0 pt blk net made ∧
        tcb k' 0 = Some (set_tcb_state Runnable (new_inactive 0 0 0)) ∧
        pick_next (sched k') = Some (Some 0%N)) k.
Proof.
  intros Hk Hf.
  destruct (boot_state_spec (initial_page_table_phys b)) as (_ & _ & Ht & Hs & _).
  destruct boot_schedule as (Hpick & Hadmit & Hready).
  pose proof (bf_sched _ _ Hf) as Hsch. rewrite Hs in Hsch.
  assert (sched_wf (admit_thread 0 Interactive Weight.MAX_PRIORITY None (sched EMPTY_STATE)).2) as Hw1.
  { apply admit_safe, sched_new_wf. }
  assert (sched_wf (note_ready 0 0 (admit_thread 0 Interactive Weight.MAX_PRIORITY None
              (sched EMPTY_STATE)).2).2) as Hw2 by by apply (note_ready_safe None).
  apply wp_bind, wp_map_err, wp_zoom. unfold wp at 1. rewrite Hsch, Hadmit.
  apply wp_bind, wp_map_err, wp_zoom. unfold wp at 1.
  change (sched (set_sched ?s ?k)) with s. rewrite Hready.
  apply wp_bind, wp_modify, wp_modify.
  set (k2 := set_sched _ (set_sched _ k)).
  assert (kinv k2) as Hk2 by by apply kinv_sched, Hw2; apply kinv_sched.
  assert (tcb k2 0 = Some (new_inactive 0 0 0)) as Ht2.
  { unfold tcb. change (tcbs k2) with (tcbs k). by rewrite (bf_tcbs _ _ Hf). }
  split; [done|]. split; [by apply kinv_root, update_tcb_ok|].
  unfold update_tcb. rewrite Ht2. split_and!; try done.
  unfold tcb in *. simpl. by apply (tget_insert_eq _ _ (Some _) _ Ht2).
Qed.

(** ** When nothing is seeded *)

Lemma seed_frags_grow cs frags : ∀ made k,
  wp (seed_frags cs frags made) (λ r _, match r with Ok (_, made') => (made ≤ made')%N | _ => True end) k.
Proof.
  induction frags as [|[fs fe] frags IH]; intros made k; cbn [seed_frags]; [by apply wp_ret|].
  case_match; [by apply IH|]. apply wp_bind. destruct (checked_sub fe fs); [apply wp_ret|done].
  apply wp_bind. unfold wp at 1. destruct (alloc_untyped _ _ k) as [[[uid|]|e|] k1]; simpl; try done; [|by apply wp_ret].
  apply wp_bind. unfold wp at 1. destruct (try_insert _ _ k1) as [[[slot|]|e|] k2]; simpl; try done; [|by apply wp_ret].
  apply wp_bind. unfold checked_add. case_match; simpl; [|done]. apply wp_ret.
  eapply wp_mono; [apply IH|]. intros [[stop made']|e|] k' H'; try done. lia.
Qed.

Lemma seed_regions_grow cs holes regions : ∀ made k,
  wp (seed_regions cs holes regions made) (λ r _, match r with Ok made' => (made ≤ made')%N | _ => True end) k.
Proof.
  induction regions as [|r regions IH]; intros made k; cbn [seed_regions]; [by apply wp_ret|].
  case_match; [by apply IH|]. apply wp_bind. destruct (subtract_holes _ _ _ _) as [[n frags]|]; [apply wp_ret|done].
  apply wp_bind. eapply wp_mono; [apply seed_frags_grow|]. intros [[stop made']|e|] k1 H1; try done.
  destruct stop; [by apply wp_ret|]. eapply wp_mono; [apply IH|]. intros [made2|e|] k' H'; try done. lia.
Qed.

(** The tables of a fresh kernel have room for a first object and its capability. *)
Lemma first_seed pt fs size : ∃ k1 k2 slot,
  alloc_untyped (E := KernelInitError) fs size (boot_state pt) = (Ok (Some 0%N), k1) ∧
  try_insert 0 (object_cap UntypedMemoryK 0) k1 = (Ok (Some slot), k2).
Proof.
  assert ((alloc_untyped (E := KernelInitError) fs size (boot_state pt)).1 = Ok (Some 0%N)) as H1 by by vm_compute.
  set (k1 := (alloc_untyped (E := KernelInitError) fs size (boot_state pt)).2).
  assert ((try_insert 0 (object_cap UntypedMemoryK 0) k1).1 = Ok (Some 0%N)) as H2 by by vm_compute.
  exists k1, (try_insert 0 (object_cap UntypedMemoryK 0) k1).2, 0%N. split.
  - rewrite <- H1. apply surjective_pairing.
  - rewrite <- H2. apply surjective_pairing.
Qed.

Lemma seed_frags_none pt frags :
  wp (seed_frags 0 frags 0)
     (λ r k', match r with
              | Ok (stop, made) => made = 0%N →
                  stop = false ∧ k' = boot_state pt ∧ ∀ f, f ∈ frags → (f.2 < f.1 + PAGE_SIZE)%N
              | _ => True
              end) (boot_state pt).
Proof.
  induction frags as [|[fs fe] frags IH]; cbn [seed_frags].
  { apply wp_ret. intros _. split_and!; try done. by intros f ?%not_elem_of_nil. }
  destruct (N.ltb_spec (saturating_sub fe fs) PAGE_SIZE) as [Hsmall|Hbig].
  { eapply wp_mono; [exact IH|]. intros [[stop made]|e|] k' H'; try done. intros Hz.
    destruct (H' Hz) as (-> & -> & Hall). split_and!; try done.
    intros f [->|Hf]%elem_of_cons; [|by apply Hall]. unfold saturating_sub in Hsmall. simpl. lia. }
  apply wp_bind. destruct (checked_sub fe fs) as [size|]; [apply wp_ret|done].
  destruct (first_seed pt fs size) as (k1 & k2 & slot & H1 & H2).
  apply wp_bind. unfold wp at 1. rewrite H1. cbn [fst snd]. apply wp_bind. unfold wp at 1. rewrite H2. cbn [fst snd].
  apply wp_bind. apply wp_ret. eapply wp_mono; [apply seed_frags_grow|].
  intros [[stop made]|e|] k' H'; try done. intros ->. lia.
Qed.

(** A page of a region that is outside the holes; the last byte of the address space
    does not count. *)
Definition free_page (holes : list Range) (r : MemoryRegionRaw) (lo : N) : Prop :=
  ∀ v, (lo ≤ v ∧ v < lo + PAGE_SIZE)%N → in_region r v ∧ (v < U64 - 1)%N ∧ ¬ covered holes v.

Lemma seed_regions_none pt holes regions :
  length holes < 8 →
  wp (seed_regions 0 holes regions 0)
     (λ r k', match r with
              | Ok made => made = 0%N → ∀ r lo, r ∈ regions → ¬ free_page holes r lo
              | _ => True
              end) (boot_state pt).
Proof.
  intros Hh. induction regions as [|r regions IH]; cbn [seed_regions].
  { apply wp_ret. by intros _ r lo ?%not_elem_of_nil. }
  destruct (negb _ || _) eqn:Hskip.
  { eapply wp_mono; [exact IH|]. intros [made|e|] k' H'; try done.
    intros Hz r' lo [->|Hr]%elem_of_cons; [|by apply H']. intros Hfree.
    unfold free_page, PAGE_SIZE in *. destruct (Hfree lo ltac:(lia)) as ((Hu & Hlo) & _).
    destruct (Hfree (lo + 4095)%N ltac:(lia)) as ((_ & Hhi) & _).
    rewrite bool_decide_true in Hskip by done. simpl in Hskip. apply N.ltb_lt in Hskip. lia. }
  apply wp_bind.
  destruct (subtract_holes_spec (base_addr r)
    (saturating_add U64 (base_addr r) (length_bytes r)) holes (replicate 8 (0%N, 0%N)) Hh eq_refl)
    as (n & out & -> & _ & _ & Hone). apply wp_ret.
  apply wp_bind. eapply wp_mono; [apply (seed_frags_none pt)|].
  intros [[stop made]|e|] k1 H1; try done. destruct (N.eqb_spec made 0) as [->|Hne].
  2: { destruct stop; [by apply wp_ret|]. eapply wp_mono; [apply seed_regions_grow|].
       intros [made'|e|] k' H'; try done. intros ->. lia. }
  destruct (H1 eq_refl) as (-> & -> & Hsmall). eapply wp_mono; [exact IH|].
  intros [made|e|] k' H'; try done. intros Hz r' lo [->|Hr]%elem_of_cons; [|by apply H']. intros Hfree.
  destruct (Hone lo PAGE_SIZE) as (f & Hf & Hlo & Hhi); [done| |].
  - intros v Hv. destruct (Hfree v Hv) as ((_ & Hin) & H64 & Hno). split; [|done]. unfold saturating_add. lia.
  - apply Hsmall in Hf. lia.
Qed.

Lemma user_page_free b r lo : user_page b r lo → free_page (boot_holes b) r lo.
Proof.
  intros H v Hv. destruct (H v Hv) as (H64 & (r' & ->%list_elem_of_singleton & Hin) & Hlow & Hk & Hb).
  split; [done|]. split; [done|].
  unfold boot_holes. rewrite !covered_cons. unfold in_range, overlaps_kernel_image, overlaps_boot_reserved in *.
  simpl. rewrite andb_false_iff, N.leb_gt, N.ltb_ge in Hk, Hb.
  intros [?|[?|[?|?%covered_nil]]]; lia || done.
Qed.

Lemma seed_all b regions :
  memory_regions (hardware_manifest b) = Some regions → (D → regions_apart regions) →
  wp (seed_regions 0 (boot_holes b) regions 0)
     (λ r k', match r with
              | Ok made => seeding (boot_state (initial_page_table_phys b)) 0
                             (free_memory regions (boot_holes b)) made k' ∧
                           (made = 0%N → ∀ r lo, r ∈ regions → ¬ free_page (boot_holes b) r lo)
              | _ => False
              end) (boot_state (initial_page_table_phys b)).
Proof.
  intros Hreg HD.
  assert (length (boot_holes b) < 8) as Hh by (simpl; lia).
  pose proof (seed_regions_none (initial_page_table_phys b) (boot_holes b) regions Hh) as Hnone.
  enough (wp (seed_regions 0 (boot_holes b) regions 0)
     (λ r k', match r with
              | Ok made => seeding (boot_state (initial_page_table_phys b)) 0
                             (free_memory regions (boot_holes b)) made k'
              | _ => False
              end) (boot_state (initial_page_table_phys b))) as H.
  { unfold wp in *. destruct (seed_regions _ _ _ _ _) as [[made|e|] k']; try done. }
  destruct (boot_state_spec (initial_page_table_phys b)) as (Hk & Hu & _ & _ & Hcs & _).
  eapply seed_regions_spec; try done; [apply seeding_start|].
  intros _ i u v r Hi. unfold untyped_of in Hi. rewrite Hu, tget_replicate_None in Hi. done.
Qed.

Lemma populate_spec b :
  manifest_wf (hardware_manifest b) →
  (∀ regions, memory_regions (hardware_manifest b) = Some regions → D → regions_apart regions) →
  wp (populate_from_boot_info b)
     (λ r k', match r with
              | Ok _ => validate b = inr tt ∧ booted b k'
              | Err BadBootInfo => validate b = inl MalformedBootInfo ∧ k' = EMPTY_STATE
              | Err NoUsableMemory => validate b = inr tt ∧ no_user_page b
              | _ => False
              end) EMPTY_STATE.
Proof.
  intros Hm HD. unfold populate_from_boot_info. apply wp_bind.
  destruct (validate b) as [[]|[]] eqn:Hv; [by apply wp_throw|]. apply wp_ret.
  apply boot_objects.
  destruct (boot_state_spec (initial_page_table_phys b)) as (Hk & Hu & Ht & Hs & Hcs & Hpt).
  apply wp_bind. pose proof (live_spec _ _ (mnw_memory _ Hm)) as Hreg.
  fold (memory_regions (hardware_manifest b)) in Hreg. rewrite Hreg. apply wp_ret, wp_bind.
  eapply wp_mono; [by apply seed_all, HD|].
  intros [made|e|] k1 Hs1; try done. destruct Hs1 as [Hs1 Hnone].
  destruct (N.eqb_spec made 0) as [->|Hmade].
  { apply wp_throw. split; [done|]. eexists. split; [exact Hreg|]. intros r lo Hr Hp.
    by apply (Hnone eq_refl r lo Hr), user_page_free. }
  destruct Hs1 as [Hk1 Hf1 Hsd Hle Hholds]. specialize (Hholds Hmade).
  pose proof (bf_spaces _ _ _ Hf1 Hcs) as Hcs1.
  apply wp_bind. eapply wp_mono.
  { apply (try_insert_spec 0 (object_cap PageTableK 0)); [done..|]. by apply (bf_objects _ _ Hf1). }
  intros [pt|e|] k2 (Hk2 & Hf2 & Hu2 & _ & Hr); try done. clear Hr.
  pose proof (bf_spaces _ _ _ Hf2 Hcs1) as Hcs2.
  apply wp_bind. pose proof (live_spec _ _ (mnw_peripherals _ Hm)) as Hdev.
  fold (peripheral_devices (hardware_manifest b)) in Hdev. rewrite Hdev. apply wp_ret, wp_bind.
  eapply wp_mono; [by apply seed_device_spec|].
  intros r3 k3 ((blk & ->) & Hk3 & Hf3 & Hu3).
  pose proof (bf_spaces _ _ _ Hf3 Hcs2) as Hcs3.
  apply wp_bind. eapply wp_mono; [by apply seed_device_spec|].
  intros r4 k4 ((net & ->) & Hk4 & Hf4 & Hu4).
  assert (boot_frame k1 k4) as Hf14 by eauto using boot_frame_trans.
  eapply wp_mono; [apply (finish_boot b); [done|by eapply boot_frame_trans]|].
  intros r k5 (-> & Hk5 & Hu5 & Hc5 & Hroot & Ht5 & Hpick). split; [done|].
  assert (untyped k5 = untyped k1) as Hu51 by congruence.
  split; rewrite ?Hroot; simpl; try done.
  - eexists. split; [exact Hreg|]. destruct Hsd as [S1 S2 S3].
    split; intros *; unfold untyped_of in *; rewrite Hu51; eauto using free_user_memory.
  - rewrite Hu51. lia.
  - destruct Hholds as (id & c & p & Hn & Hkind). exists id, c, p. split; [|done].
    rewrite Hc5. by apply (bf_nodes _ _ Hf14).
  - eexists. split; [exact Ht5|done].
Qed.
End establish.

(** ** Properties *)

(** Subtracting holes: the fragments of a range are non-empty, ascending
    and apart, and together hold exactly the addresses of the range that lie
    in no hole; no index is out of range. *)
Theorem subtract_holes_exact start fin holes :
  length holes < 8 →
  ∃ k out, subtract_holes start fin holes (replicate 8 (0%N, 0%N)) = Some (k, out) ∧
    ascending start (take k out) ∧
    ∀ v, covered (take k out) v ↔ (start ≤ v ∧ v < fin)%N ∧ ¬ covered holes v.
Proof.
  intros Hh. destruct (subtract_holes_spec start fin holes (replicate 8 (0%N, 0%N)) Hh eq_refl)
    as (k & out & H1 & H2 & H3 & _). by exists k, out.
Qed.

Lemma subtract_holes_exact_witness :
  ∃ k out, subtract_holes 0 100 [(40, 60); (50, 70)]%N (replicate 8 (0%N, 0%N)) = Some (k, out) ∧
    ascending 0 (take k out) ∧
    ∀ v, covered (take k out) v ↔ (0 ≤ v ∧ v < 100)%N ∧ ¬ covered [(40, 60); (50, 70)]%N v.
Proof. apply (subtract_holes_exact 0 100 [(40, 60); (50, 70)]%N). simpl. lia. Defined.

Section booted.
Context {BF : Bitflags}.

Lemma populate_kinv b u k :
  manifest_wf (hardware_manifest b) → populate_from_boot_info b EMPTY_STATE = (Ok u, k) →
  kinv k.
Proof.
  intros Hm Hb. pose proof (populate_spec False b Hm (λ _ _ H, False_ind _ H)) as H.
  unfold wp in H. rewrite Hb in H. destruct H as [_ Hk]. apply Hk.
Qed.
End booted.

Section properties.
Context {BF : Bitflags}.

(** C23 Booting from a well-formed manifest (counts within the arrays) never panics.  An
    invalid hand-off is reported as such, and nothing has changed; that there is no
    usable memory is reported only if no usable region has a whole page of user memory -
    at or above the start of the kernel image, outside it and outside the boot-reserved
    range.  Otherwise it succeeds, and then the kernel invariant holds, the Root Task is
    the runnable thread the scheduler picks first and holds a capability to untyped
    memory, and the untyped objects have at least a page each and consist of user memory;
    they do not overlap when the usable regions do not. *)
Theorem boot_correct b :
  manifest_wf (hardware_manifest b) →
  match populate_from_boot_info b EMPTY_STATE with
  | (Ok _, k) =>
      validate b = inr tt ∧
      booted (∀ regions, memory_regions (hardware_manifest b) = Some regions →
                regions_apart regions) b k
  | (Err BadBootInfo, k) => validate b = inl MalformedBootInfo ∧ k = EMPTY_STATE
  | (Err NoUsableMemory, k) => validate b = inr tt ∧ no_user_page b
  | _ => False
  end.
Proof.
  intros Hm.
  pose proof (populate_spec (∀ regions, memory_regions (hardware_manifest b) = Some regions →
    regions_apart regions) b Hm (λ regions Hr HD, HD regions Hr)) as H.
  unfold wp in H. by destruct (populate_from_boot_info b EMPTY_STATE) as [[?|[]|] k].
Qed.
End properties.

(** ** A sample hand-off

    256 MB of memory, from which the kernel image and the boot-reserved range
    are already below the region. *)

Definition sample_manifest : HardwareManifestRaw :=
  set_timer (mkTimer Tsc 1000000000 false)
    (push_memory_region (mkMemoryRegion 0x1000000 0x10000000 Usable false) zeroed).2.

Definition sample_boot : BootInfo :=
  boot_info_new Uefi sample_manifest 0x1000 (0x100000, 0x200000)%N (0x200000, 0x210000)%N 0.

Definition sample_state : KernelState := (populate_from_boot_info sample_boot EMPTY_STATE).2.

Lemma sample_manifest_wf : manifest_wf sample_manifest.
Proof. split; by split; [vm_compute|]. Qed.

Lemma sample_boots : populate_from_boot_info sample_boot EMPTY_STATE = (Ok tt, sample_state).
Proof.
  assert ((populate_from_boot_info sample_boot EMPTY_STATE).1 = Ok tt) as H by by vm_compute.
  unfold sample_state. revert H.
  destruct (populate_from_boot_info sample_boot EMPTY_STATE) as [r k]. cbn [fst snd]. by intros ->.
Qed.

Lemma sample_state_kinv : kinv sample_state.
Proof. exact (populate_kinv sample_boot tt sample_state sample_manifest_wf sample_boots). Qed.

Lemma boot_correct_witness :
  booted (∀ regions, memory_regions sample_manifest = Some regions → regions_apart regions)
    sample_boot sample_state.
Proof.
  pose proof (boot_correct sample_boot sample_manifest_wf) as H.
  rewrite sample_boots in H. destruct H as [_ H]. exact H.
Defined.
