(* ===== verification/Preempt.v ===== *)
(** * Preemption, termination and hand-off

    [kernel/kernel-core/src/preempt.rs] (the timer tick, voluntary yields,
    fault isolation, blocking) and [run.rs] (the cooperative run loop). *)

From S2P Require Import Prelude Capability CapTable Cdt Untyped AddressSpace Ipc Scheduler Manifest.
From S2P Require Import Kernel Syscall KernelInv Boot.

Inductive PreemptStep :=
| Switch (outgoing incoming : ThreadId)
| Continue
| PreemptIdle.

Inductive TerminationOutcome :=
| TermSwitched (incoming : ThreadId)
| TermIdle.

Inductive ScheduleOutcome :=
| Switched (to : ThreadId)
| NotStartable (t : ThreadId)
| SchedIdle.

Section preempt.
Context {E : Type}.

Abbreviation P := (M KernelState E) (only parsing).

(** [let _ = self.sched.op(..);] *)
Definition sched_do (m : M Scheduler SchedError unit) : P unit := ignore (on_sched m).

Definition running_thread : P (option ThreadId) := gets (λ k, running (sched k)).

Definition preempt_tick (now_ns : N) : P PreemptStep :=
  outgoing ← running_thread;
  _ ← on_sched (account now_ns);
  next ← pick;
  match outgoing, next with
  | Some o, Some n =>
      if negb (n =? o)%N then
        _ ← sched_do (Scheduler.dispatch n now_ns); mret (Switch o n)
      else
        _ ← sched_do (Scheduler.dispatch o now_ns); mret Continue
  | Some o, None =>
      _ ← sched_do (note_ready o now_ns);
      _ ← sched_do (Scheduler.dispatch o now_ns);
      mret Continue
  | None, Some n => _ ← sched_do (Scheduler.dispatch n now_ns); mret Continue
  | None, None => mret PreemptIdle
  end.

Definition cooperative_yield (now_ns : N) : P PreemptStep :=
  outgoing ← running_thread;
  _ ← on_sched (account now_ns);
  next ← match outgoing with
         | Some o =>
             _ ← sched_do (note_blocked o);
             n ← pick;
             _ ← sched_do (note_ready o now_ns);
             mret n
         | None => pick
         end;
  match outgoing, next with
  | Some o, Some n =>
      if negb (n =? o)%N then
        _ ← sched_do (Scheduler.dispatch n now_ns); mret (Switch o n)
      else
        _ ← sched_do (Scheduler.dispatch o now_ns); mret Continue
  | Some o, None => _ ← sched_do (Scheduler.dispatch o now_ns); mret Continue
  | None, Some n => _ ← sched_do (Scheduler.dispatch n now_ns); mret Continue
  | None, None => mret PreemptIdle
  end.

(** The two slots whose [user_context] buffers the pointers designate. *)
Definition user_ctx_switch_ptrs (k : KernelState) (outgoing incoming : ThreadId)
    : option (ThreadId * ThreadId) :=
  if (outgoing =? incoming)%N || (N.of_nat MAX_THREADS <=? outgoing)%N
     || (N.of_nat MAX_THREADS <=? incoming)%N then None else
  _ ← tcb k outgoing;
  _ ← tcb k incoming;
  Some (outgoing, incoming).

Definition user_context_bytes (k : KernelState) (tid : ThreadId) : option (list N) :=
  tcb_user_context <$> tcb k tid.

Definition init_user_thread (hal : HalInterface) (tid : ThreadId)
    (entry stack_top root_frame : N) : P unit :=
  _ ← modify (update_tcb tid (λ t,
        set_tcb_state Runnable (set_tcb_entry entry
          (set_tcb_user_context
            (hal_init_user_context hal (tcb_user_context t) entry stack_top root_frame) t))));
  _ ← sched_do (admit_thread tid Interactive Weight.MAX_PRIORITY None);
  sched_do (note_ready tid (hal_now_ns hal)).

(** The part the two ways of terminating share. *)
Definition retire (tid : ThreadId) (now_ns : N) : P unit :=
  cur ← running_thread;
  _ ← (if decide (cur = Some tid) then on_sched (account now_ns) else mret tt);
  _ ← modify (update_tcb tid (set_tcb_state Exited));
  on_sched (Scheduler.remove tid).

Definition terminate_thread (tid : ThreadId) (now_ns : N) : P TerminationOutcome :=
  _ ← retire tid now_ns;
  next ← pick;
  match next with
  | Some incoming =>
      _ ← sched_do (Scheduler.dispatch incoming now_ns); mret (TermSwitched incoming)
  | None => mret TermIdle
  end.

Definition block_thread (tid : ThreadId) (now_ns : N) : P PreemptStep :=
  _ ← on_sched (account now_ns);
  _ ← sched_do (note_blocked tid);
  next ← pick;
  let undo :=
    _ ← sched_do (note_ready tid now_ns);
    _ ← sched_do (Scheduler.dispatch tid now_ns);
    mret Continue in
  match next with
  | Some incoming =>
      if negb (incoming =? tid)%N then
        _ ← sched_do (Scheduler.dispatch incoming now_ns); mret (Switch tid incoming)
      else undo
  | None => undo
  end.

Definition terminate_thread_and_handoff (tid incoming : ThreadId) (now_ns : N) : P unit :=
  _ ← retire tid now_ns;
  sched_do (Scheduler.dispatch incoming now_ns).

Definition yield_to_thread (from to : ThreadId) (now_ns : N) : P PreemptStep :=
  _ ← on_sched (account now_ns);
  _ ← sched_do (note_blocked from);
  _ ← sched_do (Scheduler.dispatch to now_ns);
  mret (Switch from to).

(** ** The run loop *)

Definition set_tcb_context (c : list N) (t : Tcb) : Tcb :=
  mkTcb (tcb_id t) c (tcb_user_context t) (tcb_cap_space t) (tcb_addr_space t)
    (tcb_entry t) (tcb_state t) (pending_msg t) (pending_from t).

(** [hal.context_switch(from.context, to_bytes)] for the thread [from]. *)
Definition switch_context (hal : HalInterface) (from : ThreadId) (to_bytes : list N) : P unit :=
  k ← gets (λ k, k);
  t ← unwrap (tcb k from);
  modify (update_tcb from
    (set_tcb_context (hal_context_switch hal (tcb_context t) to_bytes))).

Definition schedule_step (hal : HalInterface) : P ScheduleOutcome :=
  let now := hal_now_ns hal in
  outgoing ← running_thread;
  _ ← on_sched (account now);
  next ← pick;
  match next with
  | None => mret SchedIdle
  | Some next =>
      k ← gets (λ k, k);
      let startable := match tcb k next with
                       | Some t => bool_decide (tcb_state t = Runnable) && negb (tcb_entry t =? 0)%N
                       | None => false
                       end in
      if negb startable then mret (NotStartable next) else
      _ ← sched_do (Scheduler.dispatch next now);
      k ← gets (λ k, k);
      t ← unwrap (tcb k next);
      _ ← match outgoing with
          | Some prev =>
              if negb (prev =? next)%N then switch_context hal prev (tcb_context t) else mret tt
          | None => mret tt
          end;
      mret (Switched next)
  end.

Definition start_thread (hal : HalInterface) (tid : ThreadId) (entry stack_top : N) : P unit :=
  _ ← modify (update_tcb tid (λ t,
        set_tcb_state Runnable (set_tcb_entry entry
          (set_tcb_context (hal_init_context hal (tcb_context t) entry stack_top) t))));
  _ ← sched_do (admit_thread tid Interactive 20 None);
  sched_do (note_ready tid (hal_now_ns hal)).

Definition yield_to (hal : HalInterface) (from to : ThreadId) : P unit :=
  if (from =? to)%N then mret tt else
  let now := hal_now_ns hal in
  k ← gets (λ k, k);
  _ ← match entity (sched k) from with
      | Some e => if decide (se_state e = Running) then sched_do (note_ready from now) else mret tt
      | None => mret tt
      end;
  _ ← sched_do (Scheduler.dispatch to now);
  k ← gets (λ k, k);
  t ← unwrap (tcb k to);
  switch_context hal from (tcb_context t).
End preempt.

(** ** The invariant is kept *)

Section safety.
Context {BF : Bitflags} {E : Type}.

Abbreviation P := (M KernelState E) (only parsing).

Lemma sched_do_ok x m (k : KernelState) :
  kinv k → (∀ s, sched_wf s → wp m (sched_safe x s) s) →
  wp (sched_do m : P unit) (no_panic kinv) k.
Proof.
  intros Hk Hm. apply wp_no_panic_ignore, wp_zoom. eapply wp_mono; [apply Hm, Hk|].
  intros r s (? & ? & _). split; [done|]. by apply kinv_sched.
Qed.

Lemma dispatch_do_ok t now (k : KernelState) :
  kinv k → wp (sched_do (Scheduler.dispatch t now) : P unit) (no_panic kinv) k.
Proof. intros Hk. apply (sched_do_ok None); [done|]. intros; by apply dispatch_safe. Qed.

Lemma ready_do_ok t now (k : KernelState) :
  kinv k → wp (sched_do (note_ready t now) : P unit) (no_panic kinv) k.
Proof. intros Hk. apply (sched_do_ok None); [done|]. intros; by apply note_ready_safe. Qed.

Lemma blocked_do_ok t (k : KernelState) :
  kinv k → wp (sched_do (note_blocked t) : P unit) (no_panic kinv) k.
Proof. intros Hk. apply (sched_do_ok None); [done|]. intros; by apply note_blocked_safe. Qed.

Lemma admit_do_ok t p (k : KernelState) :
  kinv k → wp (sched_do (admit_thread t Interactive p None) : P unit) (no_panic kinv) k.
Proof. intros Hk. apply (sched_do_ok (Some t)); [done|]. intros; by apply admit_safe. Qed.

Lemma account_do_ok now (k : KernelState) :
  kinv k → wp (on_sched (account now) : P unit) (no_panic kinv) k.
Proof. intros Hk. apply on_sched_ok; [done|]. intros; by apply account_safe. Qed.

Lemma gets_ok {A} (f : KernelState → A) (k : KernelState) :
  kinv k → wp (gets f : P A) (no_panic kinv) k.
Proof. intros. by apply wp_gets. Qed.

Lemma ret_ok {A} (a : A) (k : KernelState) : kinv k → wp (mret a : P A) (no_panic kinv) k.
Proof. intros. by apply wp_ret. Qed.

Lemma retire_ok tid now (k : KernelState) :
  kinv k → wp (retire tid now : P unit) (no_panic kinv) k.
Proof.
  intros Hk. apply wp_no_panic_bind; [by apply gets_ok|]. intros cur k1 Hk1.
  apply wp_no_panic_bind; [case_decide; [by apply account_do_ok|by apply ret_ok]|].
  intros _ k2 Hk2. apply wp_bind, wp_modify. apply on_sched_ok; [by apply update_tcb_ok|].
  intros; by apply remove_safe.
Qed.
End safety.

#[export] Hint Resolve gets_ok ret_ok account_do_ok admit_do_ok blocked_do_ok ready_do_ok
  dispatch_do_ok retire_ok pick_ok update_tcb_ok : simurgh.

(** Walking down a chain of binds whose parts keep the invariant. *)
Ltac keep_inv :=
  repeat (match goal with
    | |- wp (_ ≫= _) _ _ => apply wp_no_panic_bind
    | |- ∀ _ _, _ → wp _ _ _ => intros ? ? ?
    | |- context [match ?x with _ => _ end] => destruct x
    | |- wp _ _ _ => eauto 3 with simurgh; fail
    end; simpl); eauto 3 with simurgh.

Section steps.
Context {BF : Bitflags} {E : Type}.

Abbreviation P := (M KernelState E) (only parsing).

Lemma preempt_tick_ok now (k : KernelState) :
  kinv k → wp (preempt_tick now : P _) (no_panic kinv) k.
Proof. intros Hk. unfold preempt_tick. keep_inv. Qed.

Lemma cooperative_yield_ok now (k : KernelState) :
  kinv k → wp (cooperative_yield now : P _) (no_panic kinv) k.
Proof. intros Hk. unfold cooperative_yield. keep_inv. Qed.

Lemma terminate_thread_ok tid now (k : KernelState) :
  kinv k → wp (terminate_thread tid now : P _) (no_panic kinv) k.
Proof. intros Hk. unfold terminate_thread. keep_inv. Qed.

Lemma block_thread_ok tid now (k : KernelState) :
  kinv k → wp (block_thread tid now : P _) (no_panic kinv) k.
Proof. intros Hk. unfold block_thread. keep_inv. Qed.

Lemma terminate_thread_and_handoff_ok tid incoming now (k : KernelState) :
  kinv k → wp (terminate_thread_and_handoff tid incoming now : P _) (no_panic kinv) k.
Proof. intros Hk. unfold terminate_thread_and_handoff. keep_inv. Qed.

Lemma yield_to_thread_ok from to now (k : KernelState) :
  kinv k → wp (yield_to_thread from to now : P _) (no_panic kinv) k.
Proof. intros Hk. unfold yield_to_thread. keep_inv. Qed.

Lemma init_user_thread_ok hal tid entry stack root (k : KernelState) :
  kinv k → wp (init_user_thread hal tid entry stack root : P _) (no_panic kinv) k.
Proof.
  intros Hk. apply wp_bind, wp_modify. apply wp_no_panic_bind.
  - apply admit_do_ok. by apply update_tcb_ok.
  - intros. by apply ready_do_ok.
Qed.

Lemma start_thread_ok hal tid entry stack (k : KernelState) :
  kinv k → wp (start_thread hal tid entry stack : P _) (no_panic kinv) k.
Proof.
  intros Hk. apply wp_bind, wp_modify. apply wp_no_panic_bind.
  - apply admit_do_ok. by apply update_tcb_ok.
  - intros. by apply ready_do_ok.
Qed.
End steps.

(** ** Effects on one thread *)

(** What the scheduler sees of a thread. *)
Definition run_state (k : KernelState) (t : ThreadId) : option RunState :=
  se_state <$> entity (sched k) t.

(** A scheduler operation on the entity of [t] that exists. *)
Lemma note_ready_run t now k :
  is_Some (entity (sched k) t) →
  ∃ s, on_sched (note_ready t now) k = (Ok tt, set_sched s k) ∧
    (∀ j, se_state <$> entity s j =
       if decide (t = j) then Some Ready else run_state k j) ∧ running s = running (sched k).
Proof.
  intros [e He]. unfold on_sched, zoom, note_ready. rewrite on_entity_eq, He.
  eexists. split; [done|]. split; [|done]. intros j. unfold run_state, entity in *. simpl.
  case_decide; subst; [by rewrite (tget_insert_eq _ _ _ _ He)|by rewrite tget_insert_ne].
Qed.

Lemma note_blocked_run t k :
  is_Some (entity (sched k) t) →
  ∃ s, on_sched (note_blocked t) k = (Ok tt, set_sched s k) ∧
    (∀ j, se_state <$> entity s j =
       if decide (t = j) then Some Blocked else run_state k j).
Proof.
  intros [e He]. unfold on_sched, zoom, note_blocked, mbind, M_bind. rewrite on_entity_eq, He.
  eexists. split; [done|]. intros j.
  assert (∀ s x, entity (set_running x s) j = entity s j) as Hr by done.
  case_decide; rewrite ?Hr; unfold run_state, entity in *; simpl;
    (case_decide; subst; [by rewrite (tget_insert_eq _ _ _ _ He)|by rewrite tget_insert_ne]).
Qed.
(** ** What a tick decides *)

(** [t] is ready and comes before every other ready thread. *)
Definition best_ready (s : Scheduler) (t : ThreadId) : Prop :=
  ∃ b, ready s t b ∧ ∀ t' e, ready s t' e → t' = t ∨ key_lt (keyed s b) (keyed s e) = true.

Lemma account_entities {E} now s t :
  sched_wf s → is_Some (entity s t) → is_Some (entity (account (E := E) now s).2 t).
Proof.
  intros Hs Ht. rewrite account_eq by done. simpl.
  destruct (running s) as [cur|]; simpl; [|done].
  destruct (entity s cur) as [e|] eqn:He; simpl; [|done].
  apply (is_Some_tget_insert _ _ _ (charged now s e) _ He) in Ht.
  destruct (chain_group e) as [gid|]; simpl; [|done]. by destruct (group s gid).
Qed.

Lemma account_ok_eq {E} now s :
  sched_wf s → account (E := E) now s = (Ok tt, (account (E := E) now s).2).
Proof. intros Hs. by rewrite account_eq by done. Qed.

Lemma dispatch_ok_eq t now s :
  is_Some (entity s t) →
  ∃ s', Scheduler.dispatch t now s = (Ok tt, s') ∧ running s' = Some t.
Proof.
  intros [e He]. unfold Scheduler.dispatch, mbind, M_bind. rewrite on_entity_eq, He. simpl.
  eexists. split; [done|done].
Qed.

Lemma note_ready_ok_eq t now s :
  is_Some (entity s t) →
  ∃ s', note_ready t now s = (Ok tt, s') ∧ is_Some (entity s' t).
Proof.
  intros [e He]. unfold note_ready. rewrite on_entity_eq, He. eexists. split; [done|].
  eexists. by apply (entity_set_eq s t e).
Qed.

Section tick.
Context {BF : Bitflags}.

(** The timer tick: it charges the running thread, changes nothing but
    the scheduler, never panics, and hands the CPU to the best ready thread
    of the charged scheduler; it idles only when nothing runs and nothing is
    ready. *)
Theorem preempt_tick_correct now k :
  kinv k → (∀ o, running (sched k) = Some o → is_Some (entity (sched k) o)) →
  let s := (account (E := SchedError) now (sched k)).2 in
  match preempt_tick (E := SchedError) now k with
  | (Ok (Switch o n), k') =>
      running (sched k) = Some o ∧ n ≠ o ∧ best_ready s n ∧
      running (sched k') = Some n ∧ k' = set_sched (sched k') k
  | (Ok Continue, k') =>
      (∃ t, running (sched k') = Some t ∧
        (best_ready s t ∨ running (sched k) = Some t ∧ ∀ t' e, ¬ ready s t' e)) ∧
      k' = set_sched (sched k') k
  | (Ok PreemptIdle, k') =>
      running (sched k) = None ∧ (∀ t' e, ¬ ready s t' e) ∧ k' = set_sched (sched k') k
  | _ => False
  end.
Proof.
  intros Hk Hrun s. pose proof (ki_sched _ Hk) as Hs.
  assert (sched_wf s) as Hs1 by (by apply (account_safe (E := SchedError) None)).
  pose proof (λ t, account_entities (E := SchedError) now (sched k) t Hs) as Hent. fold s in Hent.
  unfold preempt_tick, running_thread, sched_do, pick, on_sched, ignore, zoom, mbind, M_bind.
  simpl. rewrite (account_ok_eq (E := SchedError)) by done. fold s. simpl.
  assert (∀ t, best_ready s t → is_Some (entity s t)) as Hbest.
  { intros t (b & [Hb _] & _). eauto. }
  destruct (pick_next_spec s Hs1) as [[-> Hnone]|(t & b & -> & Hb)]; simpl.
  - destruct (running (sched k)) as [o|] eqn:Ho; simpl; [|done].
    destruct (note_ready_ok_eq o now s) as (s2 & -> & H2); [by apply Hent, Hrun|]. simpl.
    destruct (dispatch_ok_eq o now s2 H2) as (s3 & -> & H3). simpl.
    split; [|done]. exists o. split; [done|]. right. done.
  - assert (best_ready s t) as Ht by (exists b; exact Hb).
    destruct (running (sched k)) as [o|] eqn:Ho; simpl.
    + destruct (N.eqb_spec t o) as [->|Hne]; simpl.
      * destruct (dispatch_ok_eq o now s (Hbest _ Ht)) as (s3 & -> & H3). simpl.
        split; [|done]. exists o. split; [done|]. by left.
      * destruct (dispatch_ok_eq t now s (Hbest _ Ht)) as (s3 & -> & H3). simpl. done.
    + destruct (dispatch_ok_eq t now s (Hbest _ Ht)) as (s3 & -> & H3). simpl.
      split; [|done]. exists t. split; [done|]. by left.
Qed.
End tick.

Lemma preempt_tick_correct_witness :
  ∃ k', preempt_tick (E := SchedError) 5 sample_state = (Ok Continue, k') ∧
        running (sched k') = Some 0%N.
Proof.
  pose proof (preempt_tick_correct 5 sample_state sample_state_kinv) as H.
  destruct (preempt_tick (E := SchedError) 5 sample_state) as [r k'] eqn:E.
  assert (r = Ok Continue ∧ running (sched k') = Some 0%N) as [-> Hrun].
  { change r with ((r, k').1). change k' with ((r, k').2) at 2. rewrite <- E. by vm_compute. }
  exists k'. split; [done|].
  destruct H as [(t & Ht & _) _]; [|exact Hrun].
  intros o Ho. exfalso. assert (running (sched sample_state) = None) as Hn by by vm_compute.
  by rewrite Hn in Ho.
Defined.
