(* ===== verification/Elf.v ===== *)
(** * The ELF loader's parser

    [elf-loader/src/lib.rs]: reading the header of a 64-bit little-endian
    static executable and its loadable segments.  The input is a list of
    bytes; every index and slice that is out of range is a panic, as in Rust.
    [impl Iterator<Item = LoadSegment>] is lazy: the closure [segment_at] runs
    when a consumer asks for the next segment ([collect_segments]). *)

From S2P Require Import Prelude.

Definition ELF_MAGIC : list N := [127; 69; 76; 70]%N.
Definition ELFCLASS64 : N := 2.
Definition ELFDATA2LSB : N := 1.
Definition PT_LOAD : N := 1.
Definition ET_EXEC : N := 2.
Definition EM_X86_64 : N := 62.
Definition EM_AARCH64 : N := 183.
Definition EM_RISCV : N := 243.
Definition PF_X : N := 1.
Definition PF_W : N := 2.
Definition PF_R : N := 4.

Record LoadSegment := mkSegment {
  file_offset : N;
  file_size : N;
  vaddr : N;
  paddr : N;
  mem_size : N;
  flags : N;
}.

#[export] Instance LoadSegment_eq_dec : EqDecision LoadSegment.
Proof. solve_decision. Defined.

Inductive ElfError :=
| TooShort
| BadMagic
| NotClass64
| NotLittleEndian
| NotExecutable
| WrongMachine
| BadProgramHeaderOffset.

#[export] Instance ElfError_eq_dec : EqDecision ElfError.
Proof. solve_decision. Defined.

Record Elf64Header := mkHeader {
  e_entry : N;
  e_phoff : N;
  e_phentsize : N;
  e_phnum : N;
}.

(** ** Reading *)

Section reader.
Context {E : Type}.

Abbreviation R := (outcome E) (only parsing).

(** [data[i]] and [data[a..b]] *)
Definition byte_at (data : list N) (i : N) : R N := or_panic (getN data i).

Definition slice (data : list N) (a b : N) : R (list N) :=
  if (a <=? b)%N && (b <=? N.of_nat (length data))%N
  then Ok (take (N.to_nat (b - a)) (drop (N.to_nat a) data))
  else Panic.

(** An overflow-checked [a + b] on [usize]. *)
Definition plus (a b : N) : R N := or_panic (checked_add U64 a b).

Definition from_le_bytes (bytes : list N) : N := foldr (λ b n, (b + 256 * n)%N) 0%N bytes.

Definition read_u16 (data : list N) (offset : N) : R N :=
  b0 ← byte_at data offset;
  i1 ← plus offset 1; b1 ← byte_at data i1;
  mret (from_le_bytes [b0; b1]).

Definition read_u32 (data : list N) (offset : N) : R N :=
  b0 ← byte_at data offset;
  i1 ← plus offset 1; b1 ← byte_at data i1;
  i2 ← plus offset 2; b2 ← byte_at data i2;
  i3 ← plus offset 3; b3 ← byte_at data i3;
  mret (from_le_bytes [b0; b1; b2; b3]).

Definition read_u64 (data : list N) (offset : N) : R N :=
  last ← plus offset 8;
  bytes ← slice data offset last;
  mret (from_le_bytes bytes).

End reader.

(** ** The header *)

Definition parse (data : list N) (expected_machine : N) : outcome ElfError Elf64Header :=
  if (N.of_nat (length data) <? 64)%N then Err TooShort else
  magic ← slice data 0 4;
  if negb (bool_decide (magic = ELF_MAGIC)) then Err BadMagic else
  class ← byte_at data 4;
  if negb (class =? ELFCLASS64)%N then Err NotClass64 else
  endian ← byte_at data 5;
  if negb (endian =? ELFDATA2LSB)%N then Err NotLittleEndian else
  e_type ← read_u16 data 16;
  e_machine ← read_u16 data 18;
  e_entry ← read_u64 data 24;
  e_phoff ← read_u64 data 32;
  e_phentsize ← read_u16 data 54;
  e_phnum ← read_u16 data 56;
  if negb (e_type =? ET_EXEC)%N then Err NotExecutable else
  if negb (e_machine =? expected_machine)%N then Err WrongMachine else
  mret (mkHeader e_entry e_phoff e_phentsize e_phnum).

(** ** The segments *)

(** The iterator: what the closure captures, and the rest of the range. *)
Record Segments := mkSegments {
  sg_data : list N;
  sg_ph_start : N;
  sg_ph_entry_size : N;
  sg_range : list N;
}.

Section iterator.
Context {E : Type}.

Abbreviation R := (outcome E) (only parsing).

(** The closure of [filter_map]. *)
Definition segment_at (it : Segments) (i : N) : R (option LoadSegment) :=
  let data := sg_data it in
  off ← or_panic (checked_mul U64 i (sg_ph_entry_size it));
  base ← plus (sg_ph_start it) off;
  p_type ← read_u32 data base;
  if negb (p_type =? PT_LOAD)%N then mret None else
  a4 ← plus base 4; p_flags ← read_u32 data a4;
  a8 ← plus base 8; p_offset ← read_u64 data a8;
  a16 ← plus base 16; p_vaddr ← read_u64 data a16;
  a24 ← plus base 24; p_paddr ← read_u64 data a24;
  a32 ← plus base 32; p_filesz ← read_u64 data a32;
  a40 ← plus base 40; p_memsz ← read_u64 data a40;
  mret (Some (mkSegment p_offset p_filesz p_vaddr p_paddr p_memsz p_flags)).

(** Draining the iterator. *)
Fixpoint collect_range (it : Segments) (range : list N) : R (list LoadSegment) :=
  match range with
  | [] => mret []
  | i :: range =>
      seg ← segment_at it i;
      segs ← collect_range it range;
      mret (match seg with Some seg => seg :: segs | None => segs end)
  end.

Definition collect_segments (it : Segments) : R (list LoadSegment) :=
  collect_range it (sg_range it).

End iterator.

Definition parse_and_collect_load_segments (data : list N) (expected_machine : N)
    : outcome ElfError (N * Segments) :=
  header ← parse data expected_machine;
  let ph_start := e_phoff header in
  let ph_entry_size := e_phentsize header in
  let ph_count := e_phnum header in
  table ← or_err (checked_mul U64 ph_entry_size ph_count) BadProgramHeaderOffset;
  ph_table_end ← or_err (checked_add U64 ph_start table) BadProgramHeaderOffset;
  if (N.of_nat (length data) <? ph_table_end)%N then Err BadProgramHeaderOffset else
  mret (e_entry header,
        mkSegments data ph_start ph_entry_size (N.of_nat <$> seq 0 (N.to_nat ph_count))).

(** ** What an ELF file says *)

(** The little-endian number in the [n] bytes at [off]. *)
Definition le (data : list N) (off n : nat) : N := from_le_bytes (take n (drop off data)).

(** The tests a file has to pass, in the order in which they are made. *)
Definition elf_tests (data : list N) (machine : N) : list (ElfError * bool) :=
  [(TooShort, 64 <=? N.of_nat (length data));
   (BadMagic, bool_decide (take 4 data = ELF_MAGIC));
   (NotClass64, le data 4 1 =? ELFCLASS64);
   (NotLittleEndian, le data 5 1 =? ELFDATA2LSB);
   (NotExecutable, le data 16 2 =? ET_EXEC);
   (WrongMachine, le data 18 2 =? machine);
   (BadProgramHeaderOffset,
    le data 32 8 + le data 54 2 * le data 56 2 <=? N.of_nat (length data))]%N.

(** Program header [i], when it is that of a loadable segment. *)
Definition segment_of (data : list N) (i : N) : option LoadSegment :=
  let base := N.to_nat (le data 32 8 + i * le data 54 2) in
  if (le data base 4 =? PT_LOAD)%N
  then Some (mkSegment (le data (base + 8) 8) (le data (base + 32) 8)
               (le data (base + 16) 8) (le data (base + 24) 8)
               (le data (base + 40) 8) (le data (base + 4) 4))
  else None.

Definition load_segments (data : list N) : list LoadSegment :=
  omap (segment_of data) (N.of_nat <$> seq 0 (N.to_nat (le data 56 2))).

(** ** Reading is exact *)

Section reading.
Context {E : Type} (data : list N).

Abbreviation R := (outcome E) (only parsing).

Lemma plus_spec a b : (a + b < U64)%N → plus a b = Ok (a + b)%N :> R _.
Proof. intros H. unfold plus, checked_add. by rewrite (proj2 (N.ltb_lt _ _)). Qed.

Lemma le_byte i n b :
  data !! i = Some b → le data i (S n) = (b + 256 * le data (S i) n)%N.
Proof. intros H. unfold le. by rewrite (drop_S data b i H). Qed.

Lemma byte_at_spec i : i < length data →
  ∃ b, data !! i = Some b ∧ byte_at data (N.of_nat i) = Ok b :> R _.
Proof.
  intros [b Hb]%lookup_lt_is_Some_2. exists b. split; [done|].
  unfold byte_at. by rewrite getN_lookup, Nat2N.id, Hb.
Qed.

Lemma byte_at_le i : i < length data → byte_at data (N.of_nat i) = Ok (le data i 1) :> R _.
Proof.
  intros (b & Hb & ->)%byte_at_spec. rewrite (le_byte _ _ _ Hb). unfold le. simpl. f_equal. lia.
Qed.

Hypothesis Hlen : (N.of_nat (length data) + 64 < U64)%N.

(** The next byte of a little-endian number. *)
Lemma next_byte i k (x : N) (A : Type) (f : N → R A) r :
  i + k < length data → x = N.of_nat k →
  (∀ b, data !! (i + k) = Some b → f b = r) →
  (j ← plus (N.of_nat i) x; b ← byte_at data j; f b) = r.
Proof using Hlen.
  intros Hi -> Hf. rewrite plus_spec by lia. simpl.
  replace (N.of_nat i + N.of_nat k)%N with (N.of_nat (i + k)) by lia.
  destruct (byte_at_spec (i + k) Hi) as (b & Hb & ->). by apply Hf.
Qed.

Lemma read_u16_spec i : i + 2 ≤ length data → read_u16 data (N.of_nat i) = Ok (le data i 2) :> R _.
Proof using Hlen.
  intros Hi. unfold read_u16. destruct (byte_at_spec i) as (b & Hb & ->); [lia|]. simpl.
  apply (next_byte i 1); [lia|done|]. intros b1 Hb1. rewrite Nat.add_1_r in Hb1.
  rewrite (le_byte _ _ _ Hb), (le_byte _ _ _ Hb1). done.
Qed.

Lemma read_u32_spec i : i + 4 ≤ length data → read_u32 data (N.of_nat i) = Ok (le data i 4) :> R _.
Proof using Hlen.
  intros Hi. unfold read_u32. destruct (byte_at_spec i) as (b & Hb & ->); [lia|]. simpl.
  apply (next_byte i 1); [lia|done|]. intros b1 Hb1.
  apply (next_byte i 2); [lia|done|]. intros b2 Hb2.
  apply (next_byte i 3); [lia|done|]. intros b3 Hb3.
  rewrite <- !Nat.add_succ_comm, Nat.add_0_r in *.
  by rewrite (le_byte _ _ _ Hb), (le_byte _ _ _ Hb1), (le_byte _ _ _ Hb2), (le_byte _ _ _ Hb3).
Qed.

Lemma slice_spec i n :
  i + n ≤ length data →
  slice data (N.of_nat i) (N.of_nat i + N.of_nat n) = Ok (take n (drop i data)) :> R _.
Proof.
  intros Hi. unfold slice. rewrite (proj2 (N.leb_le _ _)), (proj2 (N.leb_le _ _)) by lia.
  simpl. rewrite Nat2N.id. do 2 f_equal. lia.
Qed.

Lemma read_u64_spec i : i + 8 ≤ length data → read_u64 data (N.of_nat i) = Ok (le data i 8) :> R _.
Proof using Hlen.
  intros Hi. unfold read_u64. rewrite plus_spec by lia. simpl.
  change 8%N with (N.of_nat 8). by rewrite slice_spec.
Qed.
End reading.

(** ** The parser *)

Lemma parse_spec data machine :
  (N.of_nat (length data) + 64 < U64)%N →
  parse data machine =
    match first_failure (take 6 (elf_tests data machine)) with
    | Some e => Err e
    | None => Ok (mkHeader (le data 24 8) (le data 32 8) (le data 54 2) (le data 56 2))
    end.
Proof.
  intros Hlen. unfold parse. cbn [take elf_tests first_failure].
  destruct (N.ltb_spec (N.of_nat (length data)) 64) as [|H64].
  { by rewrite (proj2 (N.leb_gt _ _)). }
  rewrite (proj2 (N.leb_le _ _)) by done.
  rewrite (slice_spec data Hlen 0 4 ltac:(lia) : slice data 0 4 = Ok (take 4 data)).
  cbn [mbind outcome_bind]. case_bool_decide as Hm; [|done]. cbn [negb].
  rewrite (byte_at_le data 4 ltac:(lia) : byte_at data 4 = _),
    (byte_at_le data 5 ltac:(lia) : byte_at data 5 = _),
    (read_u16_spec data Hlen 16 ltac:(lia) : read_u16 data 16 = _),
    (read_u16_spec data Hlen 18 ltac:(lia) : read_u16 data 18 = _),
    (read_u64_spec data Hlen 24 ltac:(lia) : read_u64 data 24 = _),
    (read_u64_spec data Hlen 32 ltac:(lia) : read_u64 data 32 = _),
    (read_u16_spec data Hlen 54 ltac:(lia) : read_u16 data 54 = _),
    (read_u16_spec data Hlen 56 ltac:(lia) : read_u16 data 56 = _).
  cbn [mbind outcome_bind].
  destruct (le data 4 1 =? ELFCLASS64)%N; cbn [negb mbind outcome_bind]; [|done].
  destruct (le data 5 1 =? ELFDATA2LSB)%N; cbn [negb mbind outcome_bind]; [|done].
  by destruct (le data 16 2 =? ET_EXEC)%N, (le data 18 2 =? machine)%N.
Qed.

(** A program header that lies in the file is read as it is. *)
Lemma segment_at_spec {E} data entry_size count i range :
  (N.of_nat (length data) + 64 < U64)%N →
  le data 54 2 = entry_size → (48 ≤ entry_size)%N → (i < count)%N →
  (le data 32 8 + entry_size * count ≤ N.of_nat (length data))%N →
  segment_at (mkSegments data (le data 32 8) entry_size range) i = Ok (segment_of data i) :> outcome E _.
Proof.
  intros Hlen <- H48 Hi Htab. unfold segment_at. cbn [sg_data sg_ph_start sg_ph_entry_size].
  assert (i * le data 54 2 + le data 54 2 ≤ le data 54 2 * count)%N by nia.
  unfold checked_mul. rewrite (proj2 (N.ltb_lt _ _)) by lia. cbn [or_panic mbind outcome_bind].
  rewrite plus_spec by lia. cbn [mbind outcome_bind]. unfold segment_of.
  remember (le data 32 8 + i * le data 54 2)%N as b eqn:Hb.
  assert (∃ k, b = N.of_nat k) as [k Hk] by (exists (N.to_nat b); lia).
  rewrite Hk in *. clear b Hk. rewrite Nat2N.id.
  rewrite (read_u32_spec data Hlen) by lia. cbn [mbind outcome_bind].
  destruct (le data k 4 =? PT_LOAD)%N; cbn [negb]; [|done].
  rewrite !plus_spec by lia. cbn [mbind outcome_bind].
  replace (N.of_nat k + 4)%N with (N.of_nat (k + 4)) by lia.
  replace (N.of_nat k + 8)%N with (N.of_nat (k + 8)) by lia.
  replace (N.of_nat k + 16)%N with (N.of_nat (k + 16)) by lia.
  replace (N.of_nat k + 24)%N with (N.of_nat (k + 24)) by lia.
  replace (N.of_nat k + 32)%N with (N.of_nat (k + 32)) by lia.
  replace (N.of_nat k + 40)%N with (N.of_nat (k + 40)) by lia.
  rewrite (read_u32_spec data Hlen) by lia. cbn [mbind outcome_bind].
  by rewrite !(read_u64_spec data Hlen) by lia.
Qed.

Lemma collect_range_spec {E} (f : N → option LoadSegment) it range :
  (∀ i, i ∈ range → segment_at it i = Ok (f i) :> outcome E _) →
  collect_range it range = Ok (omap f range) :> outcome E _.
Proof.
  induction range as [|i range IH]; intros Hf; [done|]. simpl.
  rewrite (Hf i) by left. cbn [mbind outcome_bind].
  rewrite IH by (intros; apply Hf; by right). simpl. by destruct (f i).
Qed.

Lemma elf_no_panic data machine :
  (N.of_nat (length data) + 64 < U64)%N → parse_and_collect_load_segments data machine ≠ Panic.
Proof.
  intros Hlen. unfold parse_and_collect_load_segments. rewrite parse_spec by done.
  destruct (first_failure _); [done|]. simpl.
  destruct (checked_mul U64 _ _); simpl; [|done]. destruct (checked_add U64 _ _); simpl; [|done].
  by case_match.
Qed.

Lemma parsed_entry data machine entry it :
  (N.of_nat (length data) + 64 < U64)%N →
  parse_and_collect_load_segments data machine = Ok (entry, it) → entry = le data 24 8.
Proof.
  intros Hlen Hp. unfold parse_and_collect_load_segments in Hp. rewrite parse_spec in Hp by done.
  destruct (first_failure _); [done|]. simpl in Hp.
  destruct (checked_mul U64 _ _); [|done]. simpl in Hp. destruct (checked_add U64 _ _); [|done]. simpl in Hp.
  case_match; [done|]. by injection Hp.
Qed.

(** The iterator reads what the file says. *)
Lemma parsed_segments {E} data machine entry it :
  (N.of_nat (length data) + 64 < U64)%N →
  (le data 56 2 = 0 ∨ 48 ≤ le data 54 2)%N →
  parse_and_collect_load_segments data machine = Ok (entry, it) →
  entry = le data 24 8 ∧ omap (segment_of data) (sg_range it) = load_segments data ∧
  ∀ i, i ∈ sg_range it → segment_at it i = Ok (segment_of data i) :> outcome E _.
Proof.
  intros Hlen H48 Hp. unfold parse_and_collect_load_segments in Hp.
  rewrite parse_spec in Hp by done. destruct (first_failure _); [done|]. simpl in Hp.
  unfold checked_mul, checked_add in Hp.
  destruct (N.ltb_spec (le data 54 2 * le data 56 2) U64); [|done]. simpl in Hp.
  destruct (N.ltb_spec (le data 32 8 + le data 54 2 * le data 56 2) U64); [|done]. simpl in Hp.
  destruct (N.ltb_spec (N.of_nat (length data)) (le data 32 8 + le data 54 2 * le data 56 2));
    [done|]. injection Hp as <- <-. split; [done|]. split; [done|].
  intros i Hi. apply list_elem_of_fmap in Hi as (k & -> & Hk%elem_of_seq).
  apply (segment_at_spec _ _ (le data 56 2)); lia.
Qed.

(** The tests of [elf_tests], in their order. *)
Lemma parse_accepts data machine :
  (N.of_nat (length data) + 64 < U64)%N →
  match parse_and_collect_load_segments data machine with
  | Ok (entry, it) => first_failure (elf_tests data machine) = None
  | Err e => first_failure (elf_tests data machine) = Some e
  | Panic => False
  end.
Proof.
  intros Hlen. unfold parse_and_collect_load_segments. rewrite parse_spec by done.
  assert (first_failure (elf_tests data machine) =
    match first_failure (take 6 (elf_tests data machine)) with
    | Some e => Some e
    | None => first_failure (drop 6 (elf_tests data machine))
    end) as ->.
  { cbn [take drop elf_tests first_failure]. by repeat case_match. }
  destruct (first_failure (take 6 _)); [done|].
  cbn [mbind outcome_bind drop elf_tests first_failure e_phoff e_phentsize e_phnum e_entry].
  unfold checked_mul. destruct (N.ltb_spec (le data 54 2 * le data 56 2) U64);
    cbn [or_err mbind outcome_bind]; [|by rewrite (proj2 (N.leb_gt _ _)) by lia].
  unfold checked_add. destruct (N.ltb_spec (le data 32 8 + le data 54 2 * le data 56 2) U64);
    cbn [or_err mbind outcome_bind]; [|by rewrite (proj2 (N.leb_gt _ _)) by lia].
  destruct (N.ltb_spec (N.of_nat (length data)) (le data 32 8 + le data 54 2 * le data 56 2)).
  { by rewrite (proj2 (N.leb_gt _ _)) by lia. }
  by rewrite (proj2 (N.leb_le _ _)) by done.
Qed.

(** C33 The parser accepts exactly the well-formed files and reports the first
    test a file fails, never panicking; from an accepted file whose program
    headers have room for their fields the iterator yields exactly the loadable
    segments, in order, without a panic. *)
Theorem elf_parse_correct data machine :
  (N.of_nat (length data) + 64 < U64)%N →
  match parse_and_collect_load_segments data machine with
  | Ok (entry, it) =>
      first_failure (elf_tests data machine) = None ∧ entry = le data 24 8 ∧
      ((le data 56 2 = 0 ∨ 48 ≤ le data 54 2)%N → collect_segments it = Ok (load_segments data) :> outcome ElfError _)
  | Err e => first_failure (elf_tests data machine) = Some e
  | Panic => False
  end.
Proof.
  intros Hlen. pose proof (parse_accepts data machine Hlen) as Hp.
  destruct (parse_and_collect_load_segments data machine) as [[entry it]|e|] eqn:E; [|done..].
  split; [done|].
  assert (entry = le data 24 8) as -> by by eapply parsed_entry.
  split; [done|]. intros H48.
  destruct (parsed_segments (E := ElfError) _ _ _ _ Hlen H48 E) as (_ & <- & Hread).
  by apply collect_range_spec.
Qed.

(** The smallest file with one loadable segment: 16 bytes at [0x10000]. *)
Definition sample_elf (entry_size : N) : list N :=
  (ELF_MAGIC ++ [2; 1; 1; 0] ++ replicate 8 0 ++ [2; 0; 243; 0; 1; 0; 0; 0] ++
   [0; 0; 1; 0; 0; 0; 0; 0] ++ [64; 0; 0; 0; 0; 0; 0; 0] ++ replicate 14 0 ++
   [entry_size; 0; 1; 0; 0; 0; 0; 0; 0; 0] ++
   [1; 0; 0; 0; 5; 0; 0; 0] ++ [120; 0; 0; 0; 0; 0; 0; 0] ++ [0; 0; 1; 0; 0; 0; 0; 0] ++
   [0; 0; 1; 0; 0; 0; 0; 0] ++ [4; 0; 0; 0; 0; 0; 0; 0] ++ [16; 0; 0; 0; 0; 0; 0; 0] ++
   [0; 16; 0; 0; 0; 0; 0; 0] ++ [222; 173; 190; 239])%N.

Lemma elf_parse_correct_witness :
  (N.of_nat (length (sample_elf 56)) + 64 < U64)%N ∧
  match parse_and_collect_load_segments (sample_elf 56) EM_RISCV with
  | Ok (entry, it) =>
      first_failure (elf_tests (sample_elf 56) EM_RISCV) = None ∧
      entry = le (sample_elf 56) 24 8 ∧
      ((le (sample_elf 56) 56 2 = 0 ∨ 48 ≤ le (sample_elf 56) 54 2)%N →
       collect_segments it = Ok (load_segments (sample_elf 56)) :> outcome ElfError _)
  | Err e => first_failure (elf_tests (sample_elf 56) EM_RISCV) = Some e
  | Panic => False
  end.
Proof.
  assert (N.of_nat (length (sample_elf 56)) + 64 < U64)%N as H by reflexivity.
  split; [exact H|exact (elf_parse_correct (sample_elf 56) EM_RISCV H)].
Defined.

Example sample_elf_segments :
  (λ '(_, it), collect_segments (E := ElfError) it) <$>
    (match parse_and_collect_load_segments (sample_elf 56) EM_RISCV with
     | Ok r => Some r | _ => None end) =
  Some (Ok [mkSegment 120 4 65536 65536 16 5]).
Proof. vm_compute. reflexivity. Qed.

(** The room for the fields is not tested: a file cut off inside its last
    program header, with the entry size to match, is accepted, and reading its
    segments panics. *)
Lemma short_entries_panic :
  ∃ data machine entry it,
    parse_and_collect_load_segments data machine = Ok (entry, it) ∧
    collect_segments it = Panic :> outcome ElfError _.
Proof.
  exists (take 72 (sample_elf 8)), EM_RISCV, 65536%N.
  eexists. split; [vm_compute; reflexivity|vm_compute; reflexivity].
Qed.
