(* ===== verification/Spawn.v ===== *)
(** * Spawning a process

    [kernel/kernel-arch-glue/src/lib.rs]: [spawn_process], which gives a
    process its page-table root, its stack, an address space, an empty
    capability space and a thread of its own.  The text and stack mappings
    are made by the hardware layer; writes to physical memory are outside the
    kernel state. *)

From S2P Require Import Prelude Capability CapTable Cdt Untyped AddressSpace Ipc Scheduler Manifest.
From S2P Require Import Kernel Syscall KernelInv Boot Preempt.

(** [let x = m?; k(x)] in a function that returns an [Option]. *)
Definition and_then {S E A B} (m : M S E (option A)) (k : A → M S E (option B))
    : M S E (option B) :=
  o ← m; match o with Some a => k a | None => mret None end.

(** [(n + 0xFFF) & !0xFFF] *)
Definition round4k (n : N) : option N :=
  m ← checked_add U64 n 4095; Some (N.land m (u64_not 4095)).

Section spawn.
Context {E : Type}.

Abbreviation P := (M KernelState E) (only parsing).

(** The closure [carve]: page-aligned bytes of the first untyped object. *)
Definition carve (bytes : N) : P (option N) :=
  k ← gets (λ k, k);
  match untyped_of k 0 with
  | None => mret None
  | Some u =>
      match alloc 4096 bytes u with
      | (Ok p, u') => _ ← modify (set_untyped (<[0 := Some u']> (untyped k))); mret (Some p)
      | (Err _, u') => _ ← modify (set_untyped (<[0 := Some u']> (untyped k))); mret None
      | (Panic, _) => panic
      end
  end.

(** The closure [step]; [used] is the variable it captures, [pages] the size
    of the pool. *)
Definition map_step (hal : HalInterface) (pages root_pt pool vaddr paddr len perm used : N)
    : P (bool * N) :=
  off ← unwrap (checked_mul U64 used 4096);
  base ← unwrap (checked_add U64 pool off);
  left ← unwrap (checked_sub pages used);
  let n := hal_map_range hal root_pt vaddr paddr len perm base left in
  if (n =? id_max)%N then mret (false, used)
  else used ← unwrap (checked_add U32 used n); mret (true, used).

(** The three objects of a process. *)
Definition spawn_objects (root_pt : N) : P (option (ThreadId * CapSpaceId)) :=
  and_then (alloc_addr_space root_pt) (λ addr_space,
  and_then alloc_cap_space (λ cap_space,
  and_then (alloc_tcb cap_space addr_space) (λ tid,
  mret (Some (tid, cap_space))))).

(** From the three objects on: the end of every spawn. *)
Definition start_process (hal : HalInterface)
    (root_pt stack_vma stack_len stack_phys entry : N) : P (option (ThreadId * CapSpaceId * N)) :=
  and_then (spawn_objects root_pt) (λ '(tid, cap_space),
  stack_end ← unwrap (checked_add U64 stack_vma stack_len);
  let stack_top := N.land stack_end (u64_not 15) in
  _ ← init_user_thread hal tid entry stack_top root_pt;
  mret (Some (tid, cap_space, stack_phys))).

Definition spawn_process (hal : HalInterface)
    (text_vma text_lma text_len stack_vma stack_len entry_vma : N)
    : P (option (ThreadId * CapSpaceId * N)) :=
  and_then (carve (4096 * 3)) (λ root_pt,
  and_then (carve (4096 * 8)) (λ pool,
  stack_bytes ← unwrap (round4k stack_len);
  and_then (carve stack_bytes) (λ stack_phys,
  text_bytes ← unwrap (round4k text_len);
  '(ok, used) ← map_step hal 8 root_pt pool text_vma text_lma text_bytes
                  (N.lor (N.lor 1 4) 8) 0;
  if negb ok then mret None else
  '(ok, used) ← map_step hal 8 root_pt pool stack_vma stack_phys stack_bytes
                  (N.lor (N.lor 1 2) 8) used;
  if negb ok then mret None else
  start_process hal root_pt stack_vma stack_len stack_phys entry_vma))).
End spawn.

(** ** What spawning does *)

Lemma wp_and_then {S E A B} (m : M S E (option A)) (f : A → M S E (option B)) Q k :
  wp m (λ r k', match r with
                | Ok (Some a) => wp (f a) Q k'
                | Ok None => Q (Ok None) k'
                | Err e => Q (Err e) k'
                | Panic => Q Panic k'
                end) k →
  wp (and_then m f) Q k.
Proof. intros H. apply wp_bind. eapply wp_mono; [exact H|]. by intros [[]|e|] k'. Qed.

Section spec.
Context {BF : Bitflags} {E : Type}.

Abbreviation P := (M KernelState E) (only parsing).

(** [k'] differs from [k] in its untyped objects only. *)
Definition only_untyped (k k' : KernelState) : Prop := k' = set_untyped (untyped k') k.

Lemma only_untyped_trans k1 k2 k3 :
  only_untyped k1 k2 → only_untyped k2 k3 → only_untyped k1 k3.
Proof. unfold only_untyped. intros H1 H2. rewrite H2, H1. done. Qed.

(** Carving changes the first untyped object only. *)
Lemma carve_spec bytes k :
  kinv k →
  wp (carve bytes : P _)
     (λ r k', (∃ o, r = Ok o ∧ ∀ p, o = Some p → (p + bytes < U64)%N) ∧ kinv k' ∧
              only_untyped k k') k.
Proof.
  intros Hk. apply wp_bind, wp_gets.
  destruct (untyped_of k 0) as [u|] eqn:Hu.
  2: { apply wp_ret. split_and!; [by exists None|done|by destruct k]. }
  pose proof (alloc_spec u 4096 bytes (ki_untyped _ Hk _ _ Hu) ltac:(done)) as Hpost.
  assert (∀ u', um_wf u' → kinv (set_untyped (<[0 := Some u']> (untyped k)) k)) as Hset.
  { intros u' Hu'. apply kinv_untyped; [done| | |].
    - rewrite length_insert. apply (ki_sizes _ Hk).
    - intros j. by apply (is_Some_tget_insert _ 0 _ _ u).
    - intros j x [[_ [= <-]]|[_ Hj]]%(tget_insert_Some _ 0); [done|by eapply ki_untyped]. }
  unfold wp in Hpost. destruct (alloc 4096 bytes u) as [[p|e|] u']; [| |done]; simpl in Hpost.
  - apply wp_bind, wp_modify, wp_ret. destruct Hpost as [_ [Hwf Hb Hs _ _ _ Hhi]].
    split_and!; [|by apply Hset|done].
    exists (Some p). split; [done|]. intros ? [= <-]. destruct Hwf. lia.
  - apply wp_bind, wp_modify, wp_ret.
    assert (u' = u) as -> by (destruct e; naive_solver).
    split_and!; [by exists None|by eapply Hset, ki_untyped|done].
Qed.

Lemma map_step_spec hal pages root_pt pool v p len perm used Q k :
  hal_ok hal → (pool + pages * 4096 < U64)%N → (used ≤ pages)%N → (pages < U16)%N →
  (∀ ok used', (used' ≤ pages)%N → Q (Ok (ok, used')) k) →
  wp (map_step hal pages root_pt pool v p len perm used : P _) Q k.
Proof.
  intros Hh Hp Hu Hpg HQ. unfold map_step, checked_mul, checked_add, checked_sub.
  apply wp_bind. rewrite (proj2 (N.ltb_lt (used * 4096) _)) by lia. apply wp_ret, wp_bind.
  rewrite (proj2 (N.ltb_lt (pool + _) _)) by lia. apply wp_ret, wp_bind.
  rewrite (proj2 (N.leb_le _ _)) by done. apply wp_ret. cbv zeta.
  destruct (Hh root_pt v p len perm (pool + used * 4096)%N (pages - used)%N) as [Heq|Hle].
  - rewrite Heq, N.eqb_refl. by apply wp_ret, HQ.
  - case_match; [by apply wp_ret, HQ|]. apply wp_bind.
    rewrite (proj2 (N.ltb_lt (used + _) _)) by lia. apply wp_ret, wp_ret, HQ. lia.
Qed.

(** A new thread [tid] in a new, empty capability space [cs]; the rest of
    the kernel is as it was. *)
Record spawned (k k' : KernelState) (root_pt : N) (tid : ThreadId) (cs : CapSpaceId)
    (t : Tcb) : Prop := {
  sp_fresh_tcb : tcb k tid = None;
  sp_fresh_space : cap_space k cs = None;
  sp_thread : tcb k' tid = Some t;
  sp_own_space : tcb_cap_space t = cs ∧ is_Some (cap_space k' cs);
  sp_addr_space : addr_space k (tcb_addr_space t) = None ∧
    addr_space k' (tcb_addr_space t) = Some (as_new MAPPINGS_PER_SPACE root_pt);
  sp_caps g : node (cap_spaces k') g = node (cap_spaces k) g;
  sp_threads j : j ≠ tid → tcb k' j = tcb k j;
  sp_addr_spaces j : j ≠ tcb_addr_space t → addr_space k' j = addr_space k j;
  sp_ipc : endpoints k' = endpoints k ∧ notifications k' = notifications k;
}.

Lemma spawned_only_untyped k k1 k2 root tid cs t :
  only_untyped k k1 → spawned k1 k2 root tid cs t → spawned k k2 root tid cs t.
Proof. intros Hu. rewrite Hu. by intros []. Qed.

(** Starting the new thread. *)
Lemma spawned_start k k1 s root tid cs t t' :
  spawned k k1 root tid cs t → tcb_cap_space t' = tcb_cap_space t →
  tcb_addr_space t' = tcb_addr_space t →
  spawned k (set_sched s (set_tcbs (<[N.to_nat tid := Some t']> (tcbs k1)) k1)) root tid cs t'.
Proof.
  intros [? ? Ht [Hc ?] Ha ? Hth ? ?] Hcs Has. split; rewrite ?Has, ?Hcs; try done.
  - unfold tcb. simpl. by rewrite (tget_insert_eq _ _ _ _ Ht).
  - intros j Hj. unfold tcb. simpl. rewrite tget_insert_ne by done. by apply Hth.
Qed.

Lemma tget_free {A} (l : list (option A)) i : l !! i = Some None → tget l (N.of_nat i) = None.
Proof. intros Hi. unfold tget. by rewrite getN_lookup, Nat2N.id, Hi. Qed.

(** What an allocation does, exactly. *)
Lemma alloc_in_spec {A} get set (new : N → A) kind k :
  (N.of_nat (length (get k)) < U32)%N →
  wp (alloc_in get set new : P _) (alloc_post kind k) k →
  wp (alloc_in get set new : P _)
     (λ r k', r = Ok None ∧ k' = k ∨
              ∃ i, r = Ok (Some (N.of_nat i)) ∧ get k !! i = Some None ∧ kinv k' ∧
                   k' = set (<[i := Some (new (N.of_nat i))]> (get k)) k) k.
Proof.
  intros Hb. unfold alloc_in, mbind, M_bind, wp, gets. simpl.
  destruct (position is_none (get k)) as [i|] eqn:Hp; simpl; [|by left].
  apply position_free in Hp as [Hi Hlt]. unfold truncate. rewrite N.mod_small by lia.
  intros [Hk _]. right. eauto.
Qed.

Lemma spawn_objects_spec root_pt k :
  kinv k →
  wp (spawn_objects root_pt : P _)
     (λ r k', ∃ o, r = Ok o ∧ kinv k' ∧ sched k' = sched k ∧
        match o with
        | None => tcbs k' = tcbs k
        | Some (tid, cs) =>
            (tid < N.of_nat MAX_THREADS)%N ∧ ∃ t, spawned k k' root_pt tid cs t
        end) k.
Proof.
  intros Hk. apply wp_and_then. eapply wp_mono.
  { apply (alloc_in_spec _ _ _ PageTableK); [|by apply alloc_addr_space_ok].
    by rewrite (sz_addr_spaces _ (ki_sizes _ Hk)). }
  intros r k1 [[-> ->]|(ia & -> & Hia & Hk1 & Hk1eq)]; [by exists None|].
  apply wp_and_then. eapply wp_mono.
  { apply (alloc_in_spec _ _ _ CapabilitySpaceK); [|by apply alloc_cap_space_ok].
    by rewrite (sz_cap_spaces _ (ki_sizes _ Hk1)). }
  intros r k2 [[-> ->]|(ic & -> & Hic & Hk2 & Hk2eq)].
  { exists None. split_and!; [done..| |]; by rewrite Hk1eq. }
  assert (cap_space k2 (N.of_nat ic) = Some (CapTable.new CAP_SLOTS_PER_SPACE (N.of_nat ic)))
    as Hcs by (rewrite Hk2eq; by apply tget_fill).
  assert (addr_space k2 (N.of_nat ia) = Some (as_new MAPPINGS_PER_SPACE root_pt))
    as Has by (rewrite Hk2eq, Hk1eq; by apply tget_fill).
  apply wp_and_then. eapply wp_mono.
  { apply (alloc_in_spec _ _ _ ThreadControlBlockK).
    - by rewrite (sz_tcbs _ (ki_sizes _ Hk2)).
    - by apply alloc_tcb_ok; [|eexists..]. }
  intros r k3 [[-> ->]|(it & -> & Hit & Hk3 & Hk3eq)].
  { exists None. split_and!; [done..| |]; by rewrite Hk2eq, Hk1eq. }
  apply wp_ret. eexists. split; [done|]. split; [done|].
  assert (tcbs k2 = tcbs k) as Ht2 by by rewrite Hk2eq, Hk1eq.
  assert (cap_spaces k1 = cap_spaces k) as Hc1 by by rewrite Hk1eq.
  split; [by rewrite Hk3eq, Hk2eq, Hk1eq|]. split.
  { apply lookup_lt_Some in Hit. rewrite (sz_tcbs _ (ki_sizes _ Hk2)) in Hit. lia. }
  exists (new_inactive (N.of_nat it) (N.of_nat ic) (N.of_nat ia)).
  rewrite Ht2 in Hit. rewrite Hc1 in Hic. split; simpl.
  - by apply tget_free.
  - by apply tget_free.
  - rewrite Hk3eq. unfold tcb. simpl. rewrite Ht2. by apply tget_fill.
  - split; [done|]. rewrite Hk3eq. eexists. exact Hcs.
  - split; [by apply tget_free|]. rewrite Hk3eq. exact Has.
  - intros g. rewrite Hk3eq, Hk2eq. simpl. rewrite Hc1. by apply node_new_space.
  - intros j Hj. rewrite Hk3eq. unfold tcb. simpl. rewrite Ht2.
    rewrite tget_insert_nat by by eapply lookup_lt_Some. by rewrite decide_False.
  - intros j Hj. rewrite Hk3eq, Hk2eq, Hk1eq. unfold addr_space. simpl.
    rewrite tget_insert_nat by by eapply lookup_lt_Some. by rewrite decide_False.
  - by rewrite Hk3eq, Hk2eq, Hk1eq.
Qed.

Lemma admit_run t m p g k :
  (t < N.of_nat (length (entities (sched k))))%N →
  on_sched (admit_thread t m p g) k = (Ok tt, set_sched (set_entities
    (<[N.to_nat t := Some (entity_new t m p g)]> (entities (sched k))) (sched k)) k).
Proof.
  intros Ht. unfold on_sched, zoom, admit_thread, mbind, M_bind, gets. simpl.
  by rewrite (proj2 (N.leb_gt _ _)).
Qed.

Lemma init_user_thread_spec hal tid entry stack root k t :
  kinv k → tcb k tid = Some t →
  wp (init_user_thread hal tid entry stack root : P _)
     (λ r k', r = Ok tt ∧ kinv k' ∧
        (∃ c, k' = set_sched (sched k') (set_tcbs (<[N.to_nat tid :=
           Some (set_tcb_state Runnable (set_tcb_entry entry (set_tcb_user_context c t)))]>
           (tcbs k)) k)) ∧
        ((tid < N.of_nat (length (entities (sched k))))%N →
           se_state <$> entity (sched k') tid = Some Ready)) k.
Proof.
  intros Hk Ht. pose proof (init_user_thread_ok (E := E) hal tid entry stack root k Hk) as Hok.
  set (c := hal_init_user_context hal (tcb_user_context t) entry stack root).
  set (k1 := set_tcbs (<[N.to_nat tid :=
    Some (set_tcb_state Runnable (set_tcb_entry entry (set_tcb_user_context c t)))]> (tcbs k)) k).
  assert (∃ s, init_user_thread hal tid entry stack root k =
      (Ok tt, set_sched s k1) :> outcome E unit * KernelState ∧
    ((tid < N.of_nat (length (entities (sched k))))%N →
       se_state <$> entity s tid = Some Ready)) as (s & Heq & Hst).
  { unfold init_user_thread, mbind, M_bind, modify, update_tcb. rewrite Ht. fold c k1.
    unfold sched_do, ignore. destruct (decide (tid < N.of_nat (length (entities (sched k))))%N).
    - rewrite (admit_run tid _ _ _ k1) by done.
      edestruct note_ready_run as (s & -> & Hst & _); [|exists s; split; [done|]].
      + eexists. unfold entity. simpl. rewrite tget_insert by lia. by rewrite decide_True.
      + intros _. rewrite Hst. by rewrite decide_True.
    - unfold on_sched, zoom, admit_thread, mbind, M_bind, gets. simpl.
      rewrite (proj2 (N.leb_le _ _)) by lia. simpl. unfold note_ready. rewrite on_entity_eq.
      assert (entity (sched k) tid = None) as ->.
      { unfold entity, tget. by rewrite getN_lookup, lookup_ge_None_2 by lia. }
      by exists (sched k). }
  unfold wp in *. rewrite Heq in *. destruct Hok as [_ Hok]. simpl in *.
  split; [done|]. split; [done|]. split; [by exists c|done].
Qed.

Definition spawn_post (entry : N) (k : KernelState)
    (r : outcome E (option (ThreadId * CapSpaceId * N))) (k' : KernelState) : Prop :=
  match r with
  | Ok (Some (tid, cs, _)) =>
      kinv k' ∧ (∃ root_pt t, spawned k k' root_pt tid cs t ∧
        tcb_state t = Runnable ∧ tcb_entry t = entry) ∧
      (∀ cap, node (cap_spaces k') (mkGlobalCapId cs cap) = None) ∧
      (length (entities (sched k)) = MAX_THREADS →
         se_state <$> entity (sched k') tid = Some Ready)
  | Ok None => kinv k' ∧ tcbs k' = tcbs k ∧ sched k' = sched k
  | _ => False
  end.

(** The same, with the page-table root and the stack the process was given. *)
Definition start_post (root_pt stack_phys entry : N) (k : KernelState)
    (r : outcome E (option (ThreadId * CapSpaceId * N))) (k' : KernelState) : Prop :=
  match r with
  | Ok (Some (tid, cs, sp)) =>
      kinv k' ∧ sp = stack_phys ∧ (∃ t, spawned k k' root_pt tid cs t ∧
        tcb_state t = Runnable ∧ tcb_entry t = entry) ∧
      (∀ cap, node (cap_spaces k') (mkGlobalCapId cs cap) = None) ∧
      (length (entities (sched k)) = MAX_THREADS →
         se_state <$> entity (sched k') tid = Some Ready)
  | Ok None => kinv k' ∧ tcbs k' = tcbs k ∧ sched k' = sched k
  | _ => False
  end.

Lemma start_spawn_post root sp entry k r k' :
  start_post root sp entry k r k' → spawn_post entry k r k'.
Proof. destruct r as [[[[]]|]|e|]; naive_solver. Qed.

Lemma spawn_post_none entry k k' : kinv k' → only_untyped k k' → spawn_post entry k (Ok None) k'.
Proof. intros Hk Hu. split; [done|]. by rewrite Hu. Qed.

Lemma start_process_spec hal root_pt stack_vma stack_len stack_phys entry k k1 :
  only_untyped k k1 → kinv k1 →
  (stack_vma + stack_len < U64)%N →
  wp (start_process hal root_pt stack_vma stack_len stack_phys entry : P _)
     (start_post root_pt stack_phys entry k) k1.
Proof.
  intros Hu Hk1 Htop. apply wp_and_then. eapply wp_mono; [by apply spawn_objects_spec|].
  intros r k2 ([[tid cs]|] & -> & Hk2 & Hs2 & Ho).
  2: { split; [done|]. by rewrite Ho, Hs2, Hu. }
  destruct Ho as (Htid & t & Hsp). apply wp_bind. unfold checked_add.
  rewrite (proj2 (N.ltb_lt _ _)) by done. apply wp_ret, wp_bind. eapply wp_mono.
  { apply (init_user_thread_spec _ _ _ _ _ _ _ Hk2 (sp_thread _ _ _ _ _ _ Hsp)). }
  intros r k3 (-> & Hk3 & (c & Hk3eq) & Hready). apply wp_ret.
  assert (spawned k k3 root_pt tid cs
    (set_tcb_state Runnable (set_tcb_entry entry (set_tcb_user_context c t)))) as Hsp3.
  { rewrite Hk3eq. eapply spawned_start; [by eapply spawned_only_untyped|done|done]. }
  split; [done|]. split; [done|]. split; [by eexists|]. split.
  2: { intros Hlen. apply Hready. rewrite Hs2, Hu. simpl. by rewrite Hlen. }
  intros cap. rewrite (sp_caps _ _ _ _ _ _ Hsp3). unfold node. simpl.
  pose proof (sp_fresh_space _ _ _ _ _ _ Hsp3) as Hf. unfold cap_space in Hf. by rewrite Hf.
Qed.

Lemma round4k_eq n : (n + 4095 < U64)%N → ∃ m, round4k n = Some m.
Proof.
  intros Hn. unfold round4k, checked_add. rewrite (proj2 (N.ltb_lt _ _)) by done. by eexists.
Qed.

Lemma spawn_process_spec hal text_vma text_lma text_len stack_vma stack_len entry k :
  kinv k → hal_ok hal →
  (text_len + 4095 < U64)%N → (stack_len + 4095 < U64)%N → (stack_vma + stack_len < U64)%N →
  wp (spawn_process hal text_vma text_lma text_len stack_vma stack_len entry : P _)
     (spawn_post entry k) k.
Proof.
  intros Hk Hh (tb & Htb)%round4k_eq (sb & Hsb)%round4k_eq Htop.
  apply wp_and_then. eapply wp_mono; [by apply carve_spec|].
  intros r k1 ((o & -> & _) & Hk1 & Hu1). destruct o as [root_pt|]; [|by apply spawn_post_none].
  apply wp_and_then. eapply wp_mono; [by apply carve_spec|].
  intros r k2 ((o & -> & Hp) & Hk2 & Hu2).
  pose proof (only_untyped_trans _ _ _ Hu1 Hu2) as Hu.
  destruct o as [pool|]; [|by apply spawn_post_none]. specialize (Hp _ eq_refl).
  apply wp_bind. rewrite Hsb. apply wp_ret, wp_and_then.
  eapply wp_mono; [by apply carve_spec|].
  intros r k3 ((o & -> & _) & Hk3 & Hu3).
  pose proof (only_untyped_trans _ _ _ Hu Hu3) as Hu'.
  destruct o as [stack_phys|]; [|by apply spawn_post_none].
  apply wp_bind. rewrite Htb. apply wp_ret, wp_bind.
  apply map_step_spec; [done|lia|lia|done|]. intros ok used Hused. simpl.
  destruct ok; simpl; [|by apply wp_ret, spawn_post_none].
  apply wp_bind. apply map_step_spec; [done|lia|lia|done|]. intros ok used' _.
  destruct ok; simpl; [|by apply wp_ret, spawn_post_none].
  eapply wp_mono; [by apply start_process_spec|]. intros r k4. apply start_spawn_post.
Qed.
End spec.

Section properties.
Context {BF : Bitflags}.

(** Spawning isolates: it never panics and keeps the kernel invariant;
    when it succeeds the process has a fresh thread, ready to run at its
    entry point, in a fresh address space and in a fresh capability space
    that holds nothing; all other threads, capabilities, address spaces,
    endpoints and notifications are as before; and when it fails no thread
    was made and the scheduler was not touched. *)
Lemma spawn_process_isolates hal text_vma text_lma text_len stack_vma stack_len entry k :
  kinv k → hal_ok hal →
  (text_len + 4095 < U64)%N → (stack_len + 4095 < U64)%N → (stack_vma + stack_len < U64)%N →
  match spawn_process (E := SyscallError) hal text_vma text_lma text_len stack_vma stack_len
          entry k with
  | (Ok (Some (tid, cs, _)), k') =>
      kinv k' ∧ (∃ root_pt t, spawned k k' root_pt tid cs t ∧
        tcb_state t = Runnable ∧ tcb_entry t = entry) ∧
      (∀ cap, node (cap_spaces k') (mkGlobalCapId cs cap) = None) ∧
      (length (entities (sched k)) = MAX_THREADS →
         se_state <$> entity (sched k') tid = Some Ready)
  | (Ok None, k') => kinv k' ∧ tcbs k' = tcbs k ∧ sched k' = sched k
  | _ => False
  end.
Proof.
  intros Hk Hh Htext Hstack Htop.
  cut (wp (spawn_process (E := SyscallError) hal text_vma text_lma text_len stack_vma stack_len
            entry) (spawn_post entry k) k).
  { unfold wp, spawn_post. destruct (spawn_process _ _ _ _ _ _ _ k) as [[[[[tid cs] p]|]|e|] k'];
      done. }
  by apply spawn_process_spec.
Qed.
End properties.

(** ** A sample spawn *)

(** Hardware that maps without using pool frames and accepts every handler. *)
Definition sample_hal : HalInterface := {|
  hal_map_range _ _ _ _ _ _ _ := 0%N;
  hal_register_irq _ _ := true;
  hal_now_ns := 0%N;
  hal_init_context c _ _ := c;
  hal_init_user_context c _ _ _ := c;
  hal_context_switch c _ := c;
|}.

Lemma sample_hal_ok : hal_ok sample_hal.
Proof. intros root v p len bits base n. right. apply N.le_0_l. Qed.

Lemma spawn_process_isolates_witness :
  let r := spawn_process (E := SyscallError) sample_hal 65536 65536 100 131072 8192 65536
             sample_state in
  r.1 = Ok (Some (1, 1, 16822272)%N) ∧ kinv r.2 ∧
  ∀ cap, node (cap_spaces r.2) (mkGlobalCapId 1 cap) = None.
Proof.
  intros r. assert (r.1 = Ok (Some (1, 1, 16822272)%N)) as Hr by by vm_compute.
  pose proof (spawn_process_isolates sample_hal 65536 65536 100 131072 8192 65536 sample_state
    sample_state_kinv sample_hal_ok eq_refl eq_refl eq_refl) as H.
  fold r in H. rewrite (run_pair r _ Hr) in H. destruct H as (Hk & _ & Hc & _).
  split; [exact Hr|]. split; [exact Hk|exact Hc].
Defined.
