(* ===== verification/ElfSpawn.v ===== *)
(** * Loading a process from an ELF image

    [kernel/kernel-arch-glue/src/lib.rs]: [spawn_process_from_elf].  It parses
    the image, carves fresh untyped memory for every loadable segment, copies
    the segment there, asks the hardware layer to map it, and starts a process
    as [spawn_process] does.  The state is the kernel's, the physical memory as
    the loader writes it, and the mappings it asked for; the tables which the
    hardware layer writes lie in the root frames and in the pool. *)

From S2P Require Import Prelude PhysMem Capability CapTable Cdt Untyped AddressSpace Ipc.
From S2P Require Import Scheduler Manifest Kernel Syscall KernelInv Boot Preempt Elf Spawn.

(** An accepted call of [map_range]. *)
Record Mapped := mkMapped {
  mp_root : N;
  mp_vaddr : N;
  mp_paddr : N;
  mp_len : N;
  mp_perm : N;
}.

Record Loader := mkLoader {
  ld_kernel : KernelState;
  ld_mem : N → N;
  ld_maps : list Mapped;
  ld_used : N;
}.

Definition set_ld_kernel (k : KernelState) (l : Loader) : Loader :=
  mkLoader k (ld_mem l) (ld_maps l) (ld_used l).

Definition set_ld_mem (m : N → N) (l : Loader) : Loader :=
  mkLoader (ld_kernel l) m (ld_maps l) (ld_used l).

Definition POOL_PAGES : N := 32.

(** [p_flags] as the permission bits of [map_range]. *)
Definition segment_perm (flags : N) : N :=
  let perm := 8%N in
  let perm := if negb (N.land flags PF_R =? 0)%N then N.lor perm 1 else perm in
  let perm := if negb (N.land flags PF_W =? 0)%N then N.lor perm 2 else perm in
  if negb (N.land flags PF_X =? 0)%N then N.lor perm 4 else perm.

Section load.
Context {E : Type}.

Abbreviation L := (M Loader E) (only parsing).

Definition on_kernel {A} : M KernelState E A → L A := zoom ld_kernel set_ld_kernel.

(** The closure [step]. *)
Definition elf_step (hal : HalInterface) (root_pt pool vaddr paddr len perm : N) : L bool :=
  used ← gets ld_used;
  '(ok, used) ← on_kernel (map_step hal POOL_PAGES root_pt pool vaddr paddr len perm used);
  _ ← modify (λ l, mkLoader (ld_kernel l) (ld_mem l)
                     (if ok : bool then ld_maps l ++ [mkMapped root_pt vaddr paddr len perm]
                      else ld_maps l) used);
  mret ok.

(** The body of the loop; [None]: [return None]. *)
Definition load_segment (hal : HalInterface) (elf_bytes : list N) (root_pt pool : N)
    (seg : LoadSegment) : L (option unit) :=
  let page_off := N.land (vaddr seg) 4095 in
  aligned_vaddr ← unwrap (checked_sub (vaddr seg) page_off);
  size ← unwrap (checked_add U64 (mem_size seg) page_off);
  mem_size4k ← unwrap (round4k size);
  if (mem_size4k =? 0)%N then mret (Some tt) else
  match checked_add U64 (file_offset seg) (file_size seg) with
  | None => mret None
  | Some file_end =>
      if (mem_size seg <? file_size seg)%N || (N.of_nat (length elf_bytes) <? file_end)%N
      then mret None else
      and_then (on_kernel (carve mem_size4k)) (λ seg_phys,
      _ ← modify (λ l, set_ld_mem (write_zeros seg_phys mem_size4k (ld_mem l)) l);
      dst ← unwrap (checked_add U64 seg_phys page_off);
      let bytes := take (N.to_nat (file_size seg)) (drop (N.to_nat (file_offset seg)) elf_bytes) in
      _ ← modify (λ l, set_ld_mem (write_copy dst bytes (ld_mem l)) l);
      ok ← elf_step hal root_pt pool aligned_vaddr seg_phys mem_size4k
             (segment_perm (flags seg));
      if ok : bool then mret (Some tt) else mret None)
  end.

(** A panic of the iterator is one of the loop. *)
Definition lift_read {A} (r : outcome E A) : L A := λ l, (r, l).

(** [for seg in segments] *)
Fixpoint load_segments_from (hal : HalInterface) (elf_bytes : list N) (root_pt pool : N)
    (it : Segments) (range : list N) : L (option unit) :=
  match range with
  | [] => mret (Some tt)
  | i :: range =>
      seg ← lift_read (segment_at it i);
      match seg with
      | None => load_segments_from hal elf_bytes root_pt pool it range
      | Some seg =>
          and_then (load_segment hal elf_bytes root_pt pool seg) (λ _,
          load_segments_from hal elf_bytes root_pt pool it range)
      end
  end.

Definition spawn_process_from_elf (hal : HalInterface) (elf_bytes : list N)
    (expected_machine stack_vma stack_len : N) : L (option (ThreadId * CapSpaceId * N)) :=
  match parse_and_collect_load_segments elf_bytes expected_machine with
  | Panic => panic
  | Err _ => mret None
  | Ok (entry, segments) =>
      and_then (on_kernel (carve (4096 * 3))) (λ root_pt,
      and_then (on_kernel (carve (4096 * POOL_PAGES))) (λ pool,
      stack_bytes ← unwrap (round4k stack_len);
      and_then (on_kernel (carve stack_bytes)) (λ stack_phys,
      _ ← modify (λ l, mkLoader (ld_kernel l)
                         (write_zeros pool (4096 * POOL_PAGES) (ld_mem l)) (ld_maps l) 0);
      and_then (load_segments_from hal elf_bytes root_pt pool segments (sg_range segments))
        (λ _,
      ok ← elf_step hal root_pt pool stack_vma stack_phys stack_bytes (N.lor (N.lor 1 2) 8);
      if negb ok then mret None else
      on_kernel (start_process hal root_pt stack_vma stack_len stack_phys entry)))))
  end.
End load.

(** ** What a loaded image is *)

Definition seg_off (seg : LoadSegment) : N := N.land (vaddr seg) 4095.

(** The bytes a segment needs, in whole pages from the page of its start. *)
Definition seg_size (seg : LoadSegment) : N :=
  ((mem_size seg + seg_off seg + 4095) / 4096 * 4096)%N.

(** Byte [a] of these pages: the file's bytes at the segment's place, and
    zeros around them. *)
Definition image_byte (data : list N) (seg : LoadSegment) (a : N) : N :=
  if (seg_off seg <=? a)%N && (a <? seg_off seg + file_size seg)%N
  then default 0%N (data !! N.to_nat (file_offset seg + (a - seg_off seg)))
  else 0%N.

(** The segment lies in frames between [lo] and [hi], holding its image, and mapped at
    its virtual address with its permissions. *)
Definition loaded (data : list N) (root lo hi : N) (l : Loader) (seg : LoadSegment) : Prop :=
  ∃ phys,
    mkMapped root (vaddr seg - seg_off seg) phys (seg_size seg) (segment_perm (flags seg))
      ∈ ld_maps l ∧
    (lo ≤ phys ∧ phys + seg_size seg ≤ hi)%N ∧
    ∀ a, (a < seg_size seg)%N → ld_mem l (phys + a)%N = image_byte data seg a.

(** The end of what the first untyped object has given away. *)
Definition floor (k : KernelState) : N :=
  match untyped_of k 0 with Some u => (um_base u + um_watermark u)%N | None => 0%N end.

(** No overflow in rounding the segment up to pages. *)
Definition seg_ok (seg : LoadSegment) : Prop := (mem_size seg + seg_off seg + 4095 < U64)%N.

Section spec.
Context {BF : Bitflags} {E : Type}.

Abbreviation L := (M Loader E) (only parsing).

Lemma round4k_value n :
  (n + 4095 < U64)%N → round4k n = Some ((n + 4095) / 4096 * 4096)%N.
Proof.
  intros Hn. unfold round4k, checked_add. rewrite (proj2 (N.ltb_lt _ _)) by done. simpl. f_equal.
  apply (land_not_ones (n + 4095) 12); done.
Qed.

Lemma carve_floor bytes k :
  kinv k →
  wp (carve bytes : M KernelState E _)
     (λ r k', match r with
              | Ok (Some p) => (floor k ≤ p ∧ p + bytes = floor k')%N
              | Ok None => floor k' = floor k
              | _ => False
              end) k.
Proof.
  intros Hk. apply wp_bind, wp_gets. unfold floor.
  destruct (untyped_of k 0) as [u|] eqn:Hu; [|by apply wp_ret; rewrite Hu].
  pose proof (alloc_spec u 4096 bytes (ki_untyped _ Hk _ _ Hu) ltac:(done)) as Hpost.
  assert (∀ u', untyped_of (set_untyped (<[0 := Some u']> (untyped k)) k) 0 = Some u') as Hset.
  { intros u'. unfold untyped_of. simpl. by rewrite (tget_insert_eq _ 0 _ u). }
  unfold wp in Hpost. destruct (alloc 4096 bytes u) as [[p|e|] u']; [| |done]; simpl in Hpost.
  - apply wp_bind, wp_modify, wp_ret. rewrite Hset. destruct Hpost as [_ []]. lia.
  - apply wp_bind, wp_modify, wp_ret. rewrite Hset.
    assert (u' = u) as -> by (destruct e; naive_solver). done.
Qed.

Lemma wp_conj {S A} (m : M S E A) Q1 Q2 s :
  wp m Q1 s → wp m Q2 s → wp m (λ r s', Q1 r s' ∧ Q2 r s') s.
Proof. unfold wp. auto. Qed.

(** Carving inside the loader. *)
Lemma on_kernel_carve bytes l (Q : outcome E (option N) → Loader → Prop) :
  kinv (ld_kernel l) →
  (∀ o k', kinv k' → only_untyped (ld_kernel l) k' →
     (floor (ld_kernel l) ≤ floor k')%N →
     (∀ p, o = Some p →
        (floor (ld_kernel l) ≤ p ∧ p + bytes = floor k' ∧ p + bytes < U64)%N) →
     Q (Ok o) (set_ld_kernel k' l)) →
  wp (on_kernel (carve bytes)) Q l.
Proof.
  intros Hk HQ. apply wp_zoom. eapply wp_mono.
  { apply wp_conj; [by apply carve_spec|by apply carve_floor]. }
  intros r k' [((o & -> & Hp) & Hk' & Hu) Hf]. apply HQ; [done|done|destruct o; lia|].
  intros p ->. specialize (Hp p eq_refl). lia.
Qed.
Lemma elf_step_spec hal root pool v p len perm l (Q : outcome E bool → Loader → Prop) :
  hal_ok hal → (pool + POOL_PAGES * 4096 < U64)%N → (ld_used l ≤ POOL_PAGES)%N →
  (∀ ok used', (used' ≤ POOL_PAGES)%N →
     Q (Ok ok) (mkLoader (ld_kernel l) (ld_mem l)
        (if ok : bool then ld_maps l ++ [mkMapped root v p len perm] else ld_maps l) used')) →
  wp (elf_step hal root pool v p len perm) Q l.
Proof.
  intros Hh Hp Hu HQ. apply wp_bind, wp_gets, wp_bind, wp_zoom.
  apply map_step_spec; [done..|]. intros ok used' Hused. apply wp_bind, wp_modify, wp_ret.
  destruct l. simpl in *. by apply HQ.
Qed.

(** Zeroing a frame and copying a segment into it leaves its image there and
    everything below as it was. *)
Lemma write_image data seg phys n m a :
  (seg_off seg + file_size seg ≤ n)%N →
  (file_offset seg + file_size seg ≤ N.of_nat (length data))%N → (a < n)%N →
  write_copy (phys + seg_off seg)
    (take (N.to_nat (file_size seg)) (drop (N.to_nat (file_offset seg)) data))
    (write_zeros phys n m) (phys + a) = image_byte data seg a.
Proof.
  intros Hn Hf Ha. unfold write_copy, image_byte, write_zeros.
  assert (length (take (N.to_nat (file_size seg)) (drop (N.to_nat (file_offset seg)) data))
          = N.to_nat (file_size seg)) as -> by (rewrite length_take, length_drop; lia).
  rewrite N2Nat.id.
  destruct (N.leb_spec (seg_off seg) a), (N.ltb_spec a (seg_off seg + file_size seg)).
  1: { rewrite (proj2 (N.leb_le (phys + seg_off seg) _)), (proj2 (N.ltb_lt (phys + a) _)) by lia.
       simpl. rewrite getN_lookup, lookup_take_lt, lookup_drop by lia. do 2 f_equal. lia. }
  all: try rewrite (proj2 (N.leb_gt (phys + seg_off seg) _)) by lia;
    try rewrite (proj2 (N.ltb_ge (phys + a) (phys + seg_off seg + _))) by lia;
    rewrite ?andb_false_r; simpl;
    by rewrite (proj2 (N.leb_le phys _)), (proj2 (N.ltb_lt (phys + a) (phys + n))) by lia.
Qed.

Lemma write_below p bytes n m q a :
  (a < p)%N → (p ≤ q)%N → write_copy q bytes (write_zeros p n m) a = m a.
Proof.
  intros Ha Hq. unfold write_copy, write_zeros.
  by rewrite (proj2 (N.leb_gt q a)), (proj2 (N.leb_gt p a)) by lia.
Qed.

(** ** The loop *)

Section loop.
Context (hal : HalInterface) (Hhal : hal_ok hal) (data : list N).
Context (root pool : N) (Hpool : (pool + POOL_PAGES * 4096 < U64)%N) (lo : N) (k0 : KernelState).

(** After the segments [done]. *)
Record loading (done : list LoadSegment) (l : Loader) : Prop := {
  lg_kinv : kinv (ld_kernel l);
  lg_only : only_untyped k0 (ld_kernel l);
  lg_used : (ld_used l ≤ POOL_PAGES)%N;
  lg_done : Forall (λ seg, seg_size seg ≠ 0%N →
                           loaded data root lo (floor (ld_kernel l)) l seg) done;
  lg_floor : (lo ≤ floor (ld_kernel l))%N;
}.

(** Nothing but untyped memory was used up. *)
Definition abandoned (l : Loader) : Prop := kinv (ld_kernel l) ∧ only_untyped k0 (ld_kernel l).

Lemma loading_abandoned done l : loading done l → abandoned l.
Proof. by intros [? ? _ _ _]. Qed.

(** Segments that are loaded stay so while the loader works above them. *)
Lemma loaded_mono seg hi l hi' l' :
  loaded data root lo hi l seg → (hi ≤ hi')%N → (∀ x, x ∈ ld_maps l → x ∈ ld_maps l') →
  (∀ a, (a < hi)%N → ld_mem l' a = ld_mem l a) → loaded data root lo hi' l' seg.
Proof using Type.
  clear Hpool. intros (phys & Hm & (? & ?) & Ha) Hhi Hmaps Hmem. exists phys. split_and!; [by apply Hmaps|lia|lia|].
  intros a Hlt. rewrite Hmem by lia. by apply Ha.
Qed.

Lemma load_segment_spec done seg l :
  loading done l → seg_ok seg →
  wp (load_segment hal data root pool seg : L _)
     (λ r l', r = Ok None ∧ abandoned l' ∨ r = Ok (Some tt) ∧ loading (done ++ [seg]) l') l.
Proof using Hhal Hpool.
  intros Hl Hok. pose proof Hl as [Hk Hu Hused Hdone Hlo]. unfold load_segment. cbv zeta.
  unfold seg_ok in Hok. fold (seg_off seg). apply wp_bind. unfold checked_sub.
  assert (seg_off seg ≤ vaddr seg)%N as Hoff.
  { unfold seg_off. change 4095%N with (N.ones 12). rewrite N.land_ones. by apply N.Div0.mod_le. }
  rewrite (proj2 (N.leb_le _ _)) by done. apply wp_ret, wp_bind.
  unfold checked_add at 1. rewrite (proj2 (N.ltb_lt _ _)) by lia. apply wp_ret, wp_bind.
  rewrite round4k_value by done. apply wp_ret. fold (seg_size seg).
  destruct (N.eqb_spec (seg_size seg) 0) as [H0|H0].
  { apply wp_ret. right. split; [done|]. split; [done..| |done].
    apply Forall_app. split; [done|]. by apply Forall_singleton. }
  unfold checked_add at 1.
  destruct (N.ltb_spec (file_offset seg + file_size seg) U64);
    [|apply wp_ret; left; split; [done|by eapply loading_abandoned]].
  destruct ((mem_size seg <? file_size seg)%N || _) eqn:Hlen;
    [apply wp_ret; left; split; [done|by eapply loading_abandoned]|].
  apply orb_false_elim in Hlen as [Hmem%N.ltb_ge Hfile%N.ltb_ge].
  apply wp_and_then, on_kernel_carve; [done|]. intros [phys|] k' Hk' Hu' Hfl Hp.
  2: { left. split; [done|]. split; [done|]. by eapply only_untyped_trans. }
  specialize (Hp phys eq_refl) as (Hlow & Hhigh & H64).
  assert (seg_off seg + file_size seg ≤ seg_size seg)%N as Hfit.
  { unfold seg_size. pose proof (N.div_mod (mem_size seg + seg_off seg + 4095) 4096).
    pose proof (N.mod_lt (mem_size seg + seg_off seg + 4095) 4096). lia. }
  apply wp_bind, wp_modify, wp_bind. unfold checked_add at 1.
  rewrite (proj2 (N.ltb_lt _ _)) by lia. apply wp_ret, wp_bind, wp_modify, wp_bind.
  apply elf_step_spec; [done..|]. intros ok used' Hused'. simpl.
  destruct ok; apply wp_ret; [right|left]; (split; [done|]).
  2: { split; [done|]. by eapply only_untyped_trans. }
  split; simpl; [done|by eapply only_untyped_trans|done| |lia].
  apply Forall_app. split.
  - eapply Forall_impl; [exact Hdone|]. intros s Hs Hs0. specialize (Hs Hs0).
    eapply loaded_mono; [exact Hs|done| |]; simpl.
    + intros x Hx. apply elem_of_app. by left.
    + intros a Ha. by rewrite (write_below phys) by lia.
  - apply Forall_singleton. intros _. exists phys. split_and!; simpl; [|lia|lia|].
    + apply elem_of_app. right. by apply list_elem_of_singleton.
    + intros a Ha. apply write_image; lia.
Qed.

Lemma load_segments_from_spec it range : ∀ done l,
  loading done l →
  (∀ i, i ∈ range → segment_at it i = Ok (segment_of data i) :> outcome E _) →
  Forall seg_ok (omap (segment_of data) range) →
  wp (load_segments_from hal data root pool it range : L _)
     (λ r l', r = Ok None ∧ abandoned l' ∨
              r = Ok (Some tt) ∧ loading (done ++ omap (segment_of data) range) l') l.
Proof using Hhal Hpool.
  induction range as [|i range IH]; intros done l Hl Hread Hok; simpl.
  { apply wp_ret. right. by rewrite app_nil_r. }
  apply wp_bind. unfold wp at 1, lift_read. rewrite Hread by left. simpl in *.
  assert (∀ j, j ∈ range → segment_at it j = Ok (segment_of data j) :> outcome E _) as Hread'
    by (intros; apply Hread; by right).
  destruct (segment_of data i) as [seg|]; [|by apply IH].
  apply Forall_cons in Hok as [Hseg Hok]. apply wp_and_then.
  eapply wp_mono; [by apply load_segment_spec|].
  intros r l' [[-> Ha]|[-> Hl']]; [by left|].
  eapply wp_mono; [by apply (IH (done ++ [seg]))|]. intros r l2. by rewrite <- app_assoc.
Qed.
End loop.

(** ** The whole spawn *)

Definition elf_spawn_post (data : list N) (stack_vma stack_len : N) (l : Loader)
    (r : outcome E (option (ThreadId * CapSpaceId * N))) (l' : Loader) : Prop :=
  let k := ld_kernel l in
  let k' := ld_kernel l' in
  match r with
  | Ok (Some (tid, cs, stack_phys)) =>
      kinv k' ∧
      (∃ root_pt t, spawned k k' root_pt tid cs t ∧
        tcb_state t = Runnable ∧ tcb_entry t = le data 24 8 ∧
        (floor k ≤ root_pt ∧ root_pt + 4096 * (3 + POOL_PAGES) ≤ stack_phys)%N ∧
        mkMapped root_pt stack_vma stack_phys ((stack_len + 4095) / 4096 * 4096) 11 ∈ ld_maps l' ∧
        ∀ seg, seg ∈ load_segments data → seg_size seg ≠ 0%N →
          ∃ hi, loaded data root_pt (stack_phys + stack_len) hi l' seg) ∧
      (∀ cap, node (cap_spaces k') (mkGlobalCapId cs cap) = None)
  | Ok None => kinv k' ∧ tcbs k' = tcbs k ∧ sched k' = sched k
  | _ => False
  end.

#[local] Arguments elf_spawn_post : simpl never.

Lemma elf_spawn_post_none data sv sl l l' :
  kinv (ld_kernel l') → only_untyped (ld_kernel l) (ld_kernel l') →
  elf_spawn_post data sv sl l (Ok None) l'.
Proof. intros Hk Hu. split; [done|]. by rewrite Hu. Qed.
Lemma spawn_process_from_elf_spec hal data machine stack_vma stack_len l :
  kinv (ld_kernel l) → hal_ok hal →
  (N.of_nat (length data) + 64 < U64)%N →
  (le data 56 2 = 0 ∨ 48 ≤ le data 54 2)%N → Forall seg_ok (load_segments data) →
  (stack_len + 4095 < U64)%N → (stack_vma + stack_len < U64)%N →
  wp (spawn_process_from_elf hal data machine stack_vma stack_len : L _)
     (elf_spawn_post data stack_vma stack_len l) l.
Proof.
  intros Hk Hh Hlen H48 Hok Hsl Htop. unfold spawn_process_from_elf.
  pose proof (elf_no_panic data machine Hlen) as Hparse.
  destruct (parse_and_collect_load_segments data machine) as [[entry it]|e|] eqn:Hp; [|by apply wp_ret|done].
  destruct (parsed_segments (E := E) _ _ _ _ Hlen H48 Hp) as (-> & Hsegs & Hread). clear Hparse.
  apply wp_and_then, on_kernel_carve; [done|].
  intros [root|] k1 Hk1 Hu1 _ Hroot; [|by apply elf_spawn_post_none].
  specialize (Hroot _ eq_refl) as (? & ? & ?).
  apply wp_and_then, on_kernel_carve; [done|]. simpl.
  intros [pool|] k2 Hk2 Hu2 _ Hpool;
    pose proof (only_untyped_trans _ _ _ Hu1 Hu2) as Hu; [|by apply elf_spawn_post_none].
  specialize (Hpool _ eq_refl) as (? & ? & Hpool64).
  apply wp_bind. rewrite round4k_value by done. apply wp_ret.
  apply wp_and_then, on_kernel_carve; [done|]. simpl.
  intros [stack|] k3 Hk3 Hu3 _ Hstack;
    pose proof (only_untyped_trans _ _ _ Hu Hu3) as Hu'; [|by apply elf_spawn_post_none].
  specialize (Hstack _ eq_refl) as (? & ? & ?).
  apply wp_bind, wp_modify. simpl. apply wp_and_then.
  assert (pool + POOL_PAGES * 4096 < U64)%N as Hpool' by (unfold POOL_PAGES in *; lia).
  eapply wp_mono.
  { eapply (load_segments_from_spec hal Hh data root pool Hpool'
      (stack + stack_len) (ld_kernel l) it (sg_range it) []); [|done|by rewrite Hsegs].
    split; simpl; [done|done|done|by apply Forall_nil|].
    pose proof (page_round_up stack_len). lia. }
  intros r l4 [[-> [Hk4 Hu4]]|[-> [Hk4 Hu4 Hused4 Hdone _]]]; [by apply elf_spawn_post_none|].
  rewrite Hsegs in Hdone. apply wp_bind, elf_step_spec; [done..|].
  intros ok used' _. destruct ok; simpl; [|by apply wp_ret, elf_spawn_post_none].
  apply wp_zoom. simpl. eapply wp_mono; [by eapply start_process_spec|].
  intros [[[[tid cs] sp]|]|e|] k5 Hpost; simpl in Hpost; [|done..].
  destruct Hpost as (Hk5 & -> & (t & Hsp & Hst & Hen) & Hnode & _).
  split; [done|]. split; [|done]. exists root, t. split_and!; try done.
  - simpl in *. unfold POOL_PAGES in *. lia.
  - simpl. apply elem_of_app. right. by apply list_elem_of_singleton.
  - intros seg Hseg Hne. rewrite Forall_forall in Hdone. specialize (Hdone _ Hseg Hne).
    exists (floor (ld_kernel l4)). eapply loaded_mono; [exact Hdone|done| |done]. simpl. intros x Hx.
    apply elem_of_app. by left.
Qed.
End spec.

(** The memory size of a segment is not bounds-checked: rounding it up to
    pages overflows when it is within a page of the end of the address space. *)
Lemma huge_segment_panics {E} hal data root pool seg l :
  (U64 ≤ mem_size seg + seg_off seg + 4095)%N →
  load_segment (E := E) hal data root pool seg l = (Panic, l).
Proof.
  intros H. unfold load_segment. fold (seg_off seg). unfold mbind, M_bind, checked_sub at 1.
  assert (seg_off seg ≤ vaddr seg)%N as Hoff.
  { unfold seg_off. change 4095%N with (N.ones 12). rewrite N.land_ones. by apply N.Div0.mod_le. }
  rewrite (proj2 (N.leb_le _ _)) by done. simpl. unfold checked_add at 1.
  destruct (N.ltb_spec (mem_size seg + seg_off seg) U64); simpl; [|done].
  unfold round4k, checked_add at 1. by rewrite (proj2 (N.ltb_ge _ _)).
Qed.

Section properties.
Context {BF : Bitflags}.

(** C28 Loading a process from an image, in a kernel state that satisfies the invariant,
    never panics if the image's program headers have room for their 48 bytes of fields
    and the rounded size of no loadable segment wraps around ([seg_ok]; a segment outside
    of it panics, [huge_segment_panics]), the image and the stack do not reach 2^64, and
    the hardware layer consumes no more frames than it was given.  When it succeeds, the process has a fresh, runnable thread at the image's
    entry point, a fresh address space and an empty capability space, and
    nothing else of the kernel has changed; every loadable segment lies in
    memory that was free before, above the page tables and the stack, holds
    exactly the file's bytes with zeros around them, and was mapped at its
    virtual address with its own permissions.  When it fails no thread was made
    and the scheduler was not touched. *)
Theorem elf_spawn_loads_image hal data machine stack_vma stack_len l :
  kinv (ld_kernel l) → hal_ok hal →
  (N.of_nat (length data) + 64 < U64)%N →
  (le data 56 2 = 0 ∨ 48 ≤ le data 54 2)%N → Forall seg_ok (load_segments data) →
  (stack_len + 4095 < U64)%N → (stack_vma + stack_len < U64)%N →
  let k := ld_kernel l in
  match spawn_process_from_elf (E := SyscallError) hal data machine stack_vma stack_len l with
  | (Ok (Some (tid, cs, stack_phys)), l') =>
      let k' := ld_kernel l' in
      kinv k' ∧
      (∃ root_pt t, spawned k k' root_pt tid cs t ∧
        tcb_state t = Runnable ∧ tcb_entry t = le data 24 8 ∧
        (floor k ≤ root_pt ∧ root_pt + 4096 * (3 + POOL_PAGES) ≤ stack_phys)%N ∧
        mkMapped root_pt stack_vma stack_phys ((stack_len + 4095) / 4096 * 4096) 11 ∈ ld_maps l' ∧
        ∀ seg, seg ∈ load_segments data → seg_size seg ≠ 0%N →
          ∃ hi, loaded data root_pt (stack_phys + stack_len) hi l' seg) ∧
      (∀ cap, node (cap_spaces k') (mkGlobalCapId cs cap) = None)
  | (Ok None, l') =>
      kinv (ld_kernel l') ∧ tcbs (ld_kernel l') = tcbs k ∧ sched (ld_kernel l') = sched k
  | _ => False
  end.
Proof.
  intros Hk Hh Hlen H48 Hok Hsl Htop k.
  pose proof (spawn_process_from_elf_spec (E := SyscallError) hal data machine stack_vma stack_len
    l Hk Hh Hlen H48 Hok Hsl Htop) as H. unfold wp, elf_spawn_post in H.
  by destruct (spawn_process_from_elf _ _ _ _ _ l) as [[[[[tid cs] p]|]|e|] l'].
Qed.
End properties.

(** ** A sample load *)

Definition sample_loader : Loader := mkLoader sample_state (λ _, 255%N) [] 0.

(** The word at the segment's first bytes, and the zeros after it. *)
Lemma elf_spawn_loads_image_witness :
  let r := spawn_process_from_elf (E := SyscallError) sample_hal (sample_elf 56) EM_RISCV
             131072 8192 sample_loader in
  r.1 = Ok (Some (1, 1, 16920576)%N) ∧ kinv (ld_kernel r.2) ∧
  (ld_mem r.2 <$> [16928768; 16928771; 16928772; 16932863; 16932864])%N = [222; 239; 0; 0; 255]%N ∧
  ∃ root_pt t, spawned (ld_kernel sample_loader) (ld_kernel r.2) root_pt 1 1 t.
Proof.
  intros r. assert (r.1 = Ok (Some (1, 1, 16920576)%N)) as Hr by by vm_compute.
  assert (N.of_nat (length (sample_elf 56)) + 64 < U64)%N as Hlen by by vm_compute.
  assert (le (sample_elf 56) 56 2 = 0 ∨ 48 ≤ le (sample_elf 56) 54 2)%N as H48
    by (right; vm_compute; discriminate).
  assert (load_segments (sample_elf 56) = [mkSegment 120 4 65536 65536 16 5]) as Hsegs
    by by vm_compute.
  assert (Forall seg_ok (load_segments (sample_elf 56))) as Hok
    by (rewrite Hsegs; constructor; [by vm_compute|constructor]).
  assert (8192 + 4095 < U64)%N as Hsl by by vm_compute.
  assert (131072 + 8192 < U64)%N as Htop by by vm_compute.
  pose proof (elf_spawn_loads_image sample_hal (sample_elf 56) EM_RISCV 131072 8192 sample_loader
    sample_state_kinv sample_hal_ok Hlen H48 Hok Hsl Htop) as H.
  cbv zeta in H. fold r in H. rewrite (run_pair r _ Hr) in H. cbv zeta in H.
  destruct H as (Hk & (root & t & Hs & _) & _).
  split; [exact Hr|]. split; [exact Hk|]. split; [vm_compute; reflexivity|].
  exists root, t. exact Hs.
Defined.
