(* ===== verification/System.v ===== *)
(** * Properties of the system calls

    What the dispatcher of [Syscall] guarantees as a whole: safety under the
    invariant of [KernelInv], the authority every call needs, revocation of
    granted capabilities across spaces, and the call / reply protocol. *)

From S2P Require Import Prelude Capability CapTable Cdt Untyped AddressSpace Ipc Scheduler Manifest.
From S2P Require Import Kernel Syscall KernelInv Boot Preempt Elf Spawn ElfSpawn.

(** ** Running a call *)

Lemma bind_Ok {S E A B} (m : M S E A) (f : A → M S E B) s b s' :
  (m ≫= f) s = (Ok b, s') → ∃ a s1, m s = (Ok a, s1) ∧ f a s1 = (Ok b, s').
Proof. unfold mbind, M_bind. destruct (m s) as [[a|e|] s1]; naive_solver. Qed.

Lemma ok_or_Ok {S E A} (o : option A) (e : E) (s : S) a s' :
  ok_or o e s = (Ok a, s') → o = Some a ∧ s' = s.
Proof. unfold ok_or, throw, mret, M_ret. destruct o; naive_solver. Qed.

Lemma gets_Ok {S E A} (f : S → A) (s : S) a s' :
  gets (E := E) f s = (Ok a, s') → a = f s ∧ s' = s.
Proof. unfold gets. naive_solver. Qed.

(** The capability in slot [cap] of the caller's space. *)
Definition holds (k : KernelState) (caller : ThreadId) (cap : CapId) (c : Capability) : Prop :=
  ∃ t cs, tcb k caller = Some t ∧ cap_space k (tcb_cap_space t) = Some cs ∧
          CapTable.lookup cs cap = Some c.

Section authority.
Context {BF : Bitflags}.

Lemma lookup_cap_Ok caller cap k c k' :
  lookup_cap caller cap k = (Ok c, k') → k' = k ∧ holds k caller cap c.
Proof.
  intros (cs_id & k1 & H1 & H2)%bind_Ok. rewrite caller_cap_space_eq in H1.
  destruct (tcb k caller) as [t|] eqn:Ht; simplify_eq.
  apply bind_Ok in H2 as (k2 & k3 & [-> ->]%gets_Ok & H2).
  apply bind_Ok in H2 as (cs & k4 & [Hcs ->]%ok_or_Ok & [Hc ->]%ok_or_Ok).
  split; [done|]. by exists t, cs.
Qed.

Lemma resolve_Ok caller cap kind needed k c k' :
  resolve caller cap kind needed k = (Ok c, k') →
  k' = k ∧ holds k caller cap c ∧ or_kind (cap_object c) = kind ∧ allows c needed = true.
Proof.
  intros (c' & k1 & [-> Hc]%lookup_cap_Ok & H)%bind_Ok. revert H.
  case_bool_decide; simpl; [|done]. destruct (allows c' needed) eqn:Ha; simpl; [|done].
  by intros [= <- <-].
Qed.

Lemma cap_kind_of_Ok caller cap k kind k' :
  cap_kind_of caller cap k = (Ok kind, k') →
  k' = k ∧ ∃ c, holds k caller cap c ∧ kind = or_kind (cap_object c).
Proof.
  intros (c & k1 & [-> Hc]%lookup_cap_Ok & H)%bind_Ok. injection H as <- <-. eauto.
Qed.

(** The capability arguments of a call, with the object kind and the rights
    each one needs; [None]: any kind. *)
Definition authority (op : SyscallOp) : list (CapId * option KernelObjectKind * CapabilityRights) :=
  match op with
  | Yield | Reply _ _ => []
  | Send e _ | Call e _ => [(e, Some EndpointK, WRITE)]
  | Recv e => [(e, Some EndpointK, READ)]
  | CapGrant t cap _ => [(t, Some ThreadControlBlockK, WRITE); (cap, None, GRANT)]
  | CapRevoke cap => [(cap, None, REVOKE)]
  | Retype u _ _ => [(u, Some UntypedMemoryK, WRITE)]
  | Map pt fr _ perms => [(pt, Some PageTableK, WRITE); (fr, None, frame_rights perms)]
  | Signal n _ => [(n, Some NotificationK, WRITE)]
  | Wait n | Poll n => [(n, Some NotificationK, READ)]
  | IrqBind m n _ => [(m, Some MmioRegionK, WRITE); (n, Some NotificationK, WRITE)]
  end.

Definition authorized (k : KernelState) (caller : ThreadId)
    (a : CapId * option KernelObjectKind * CapabilityRights) : Prop :=
  let '(cap, kind, needed) := a in
  ∃ c, holds k caller cap c ∧ allows c needed = true ∧
    match kind with Some kd => or_kind (cap_object c) = kd | None => True end.

(** [r] is [Ok] only if every capability in [l] is held in [k]. *)
Lemma resolve_then {A} k caller cap kind needed (f : Capability → K A) l v k' :
  (resolve caller cap kind needed ≫= f) k = (Ok v, k') →
  (∀ c, f c k = (Ok v, k') → Forall (authorized k caller) l) →
  Forall (authorized k caller) ((cap, Some kind, needed) :: l).
Proof.
  intros (c & k1 & (-> & Hh & Hk & Ha)%resolve_Ok & Hf)%bind_Ok Hl.
  constructor; [by exists c|by eapply Hl].
Qed.

Lemma authorized_any k caller cap c kind needed :
  holds k caller cap c → or_kind (cap_object c) = kind → allows c needed = true →
  authorized k caller (cap, None, needed).
Proof. intros. by exists c. Qed.

Lemma dispatch_authorized caller now op hal k v k' :
  dispatch caller now op hal k = (Ok v, k') →
  Forall (authorized k caller) (authority op).
Proof.
  destruct op; simpl; intros Hd;
    try (by (eapply resolve_then; [exact Hd|constructor])); try by constructor.
  - (* CapGrant *)
    eapply resolve_then; [exact Hd|]. intros c Hf.
    apply bind_Ok in Hf as (k1 & k2 & [-> ->]%gets_Ok & Hf).
    apply bind_Ok in Hf as (t & k3 & [_ ->]%ok_or_Ok & Hf).
    apply bind_Ok in Hf as (kd & k4 & [-> _]%cap_kind_of_Ok & Hf).
    apply bind_Ok in Hf as (c' & k5 & (_ & Hh & Hk & Ha)%resolve_Ok & _).
    constructor; [by eapply authorized_any|constructor].
  - (* CapRevoke *)
    apply bind_Ok in Hd as (kd & k1 & [-> _]%cap_kind_of_Ok & Hd).
    apply bind_Ok in Hd as (c & k2 & (_ & Hh & Hk & Ha)%resolve_Ok & _).
    constructor; [by eapply authorized_any|constructor].
  - (* Map *)
    eapply resolve_then; [exact Hd|]. intros c Hf.
    apply bind_Ok in Hf as (fr & k1 & [-> Hh]%lookup_cap_Ok & Hf).
    destruct (allows fr (frame_rights perms)) eqn:Ha; simpl in Hf; [|done].
    constructor; [by eapply authorized_any|constructor].
  - (* IrqBind *)
    eapply resolve_then; [exact Hd|]. intros c Hf.
    apply bind_Ok in Hf as (k1 & k2 & [-> ->]%gets_Ok & Hf).
    apply bind_Ok in Hf as (r & k3 & [_ ->]%ok_or_Ok & Hf).
    eapply resolve_then; [exact Hf|constructor].
Qed.
End authority.

(** ** Running the pieces forwards *)

Section forwards.
Context {BF : Bitflags}.

Lemma lookup_cap_eq k caller cap c :
  holds k caller cap c → lookup_cap caller cap k = (Ok c, k).
Proof.
  intros (t & cs & Ht & Hcs & Hc). unfold lookup_cap, mbind, M_bind.
  rewrite caller_cap_space_eq, Ht. simpl. rewrite Hcs. simpl. by rewrite Hc.
Qed.

Lemma resolve_eq k caller cap c kind needed :
  holds k caller cap c → or_kind (cap_object c) = kind → allows c needed = true →
  resolve caller cap kind needed k = (Ok c, k).
Proof.
  intros Hh Hk Ha. unfold resolve, mbind, M_bind. rewrite (lookup_cap_eq _ _ _ _ Hh).
  rewrite bool_decide_true by done. simpl. by rewrite Ha.
Qed.

Lemma cap_kind_of_eq k caller cap c :
  holds k caller cap c → cap_kind_of caller cap k = (Ok (or_kind (cap_object c)), k).
Proof. intros Hh. unfold cap_kind_of, mbind, M_bind. by rewrite (lookup_cap_eq _ _ _ _ Hh). Qed.

Lemma on_slot_Ok {S E T A} (get : S → list (option T)) set i (e : E) (m : M T E A) s a s' :
  on_slot get set i e m s = (Ok a, s') →
  ∃ t t', tget (get s) i = Some t ∧ m t = (Ok a, t') ∧
          s' = set (<[N.to_nat i := Some t']> (get s)) s.
Proof.
  unfold on_slot. destruct (tget (get s) i) as [t|]; [|done].
  destruct (m t) as [r t'] eqn:Hm. intros [= -> <-]. eauto.
Qed.

Lemma map_err_Ok {S E E' A} (f : E' → E) (m : M S E' A) s a s' :
  map_err f m s = (Ok a, s') → m s = (Ok a, s').
Proof. unfold map_err. destruct (m s) as [[]]; naive_solver. Qed.

Lemma holds_node k caller cap c :
  holds k caller cap c →
  ∃ t p, tcb k caller = Some t ∧
         node (cap_spaces k) (mkGlobalCapId (tcb_cap_space t) cap) = Some (c, p).
Proof.
  intros (t & cs & Ht & Hcs & Hc). exists t. rewrite entry_lookup in Hc.
  destruct (entry cs cap) as [[c' p]|] eqn:He; simplify_eq/=. exists p. split; [done|].
  unfold node. simpl. unfold cap_space in Hcs. by rewrite Hcs.
Qed.

Lemma node_holds k caller cap c t p :
  tcb k caller = Some t →
  node (cap_spaces k) (mkGlobalCapId (tcb_cap_space t) cap) = Some (c, p) →
  holds k caller cap c.
Proof.
  intros Ht Hn. unfold node in Hn. simpl in Hn.
  destruct (tget (cap_spaces k) (tcb_cap_space t)) as [cs|] eqn:Hcs; [|done]. simpl in Hn.
  exists t, cs. split; [done|]. split; [done|]. by rewrite entry_lookup, Hn.
Qed.

(** ** Grant and revoke *)

(** What a successful grant does. *)
Lemma do_cap_grant_Ok caller target cap rights k dst k1 :
  kinv k → do_cap_grant caller target cap rights k = (Ok (Granted dst), k1) →
  ∃ tcap t_dst t_src c p eff,
    holds k caller target tcap ∧ tcb k (or_id (cap_object tcap)) = Some t_dst ∧
    tcb k caller = Some t_src ∧ tcb_cap_space t_src ≠ tcb_cap_space t_dst ∧
    let src := mkGlobalCapId (tcb_cap_space t_src) cap in
    let new := mkGlobalCapId (tcb_cap_space t_dst) dst in
    node (cap_spaces k) src = Some (c, p) ∧ allows c GRANT = true ∧
    is_subset_of rights (cap_rights c) = true ∧
    effective_badge c 0 = Some eff ∧
    node (cap_spaces k) new = None ∧
    k1 = set_cap_spaces (cap_spaces k1) k ∧
    ∀ g, node (cap_spaces k1) g =
           if decide (g = new) then Some (derived_cap c rights eff, Some src)
           else node (cap_spaces k) g.
Proof.
  intros Hk Hg. unfold do_cap_grant in Hg.
  apply bind_Ok in Hg as (tcap & k2 & (-> & Htcap & _)%resolve_Ok & Hg).
  apply bind_Ok in Hg as (k2 & k3 & [-> ->]%gets_Ok & Hg).
  apply bind_Ok in Hg as (t_dst & k4 & [Hdst ->]%ok_or_Ok & Hg).
  apply bind_Ok in Hg as (kd & k5 & [-> (c0 & _ & ->)]%cap_kind_of_Ok & Hg).
  apply bind_Ok in Hg as (c & k6 & (-> & Hc & _ & Ha)%resolve_Ok & Hg).
  apply bind_Ok in Hg as (src_cs & k7 & Hcs & Hg).
  rewrite caller_cap_space_eq in Hcs.
  destruct (tcb k caller) as [t_src|] eqn:Hsrc; [|done]. injection Hcs as <- <-.
  apply bind_Ok in Hg as ([src d] & k8 & [Hpair ->]%ok_or_Ok & Hg).
  rewrite cap_space_pair_spec in Hpair. case_decide as Hne; [done|].
  destruct (cap_space k (tcb_cap_space t_src)) as [s|] eqn:Hs; [|done].
  destruct (cap_space k (tcb_cap_space t_dst)); [|done]. injection Hpair as -> ->.
  apply bind_Ok in Hg as (slot & k9 & (t & t' & Ht & Hm%map_err_Ok & ->)%on_slot_Ok & Hg).
  injection Hg as <- <-.
  pose proof Ht as Hj%tget_Some.
  pose proof (tok_wf _ _ _ (fo_table _ _ (ki_forest _ Hk) _ _ Hj)) as Hwf.
  pose proof (derive_cross_spec src (tcb_cap_space t_src) cap rights 0 t Hwf) as Hpost.
  unfold wp in Hpost. rewrite Hm in Hpost.
  destruct Hpost as (pc & eff & Hpc & Hsub & Heff & Hins).
  destruct (holds_node _ _ _ _ Hc) as (t0 & p & Ht0 & Hn). rewrite Hsrc in Ht0.
  injection Ht0 as <-.
  assert (pc = c) as ->.
  { destruct Hc as (t1 & cs1 & ? & Hcs1 & Hl). by simplify_eq. }
  exists tcap, t_dst, t_src, c, p, eff. cbv zeta. split_and!; try done.
  - unfold node. simpl. rewrite Ht. simpl. apply (ins_fresh _ _ _ _ _ Hins).
  - intros g. cbn [cap_spaces set_cap_spaces]. rewrite (node_inserted _ _ _ _ _ _ _ _ Hj Hins). by rewrite N2Nat.id.
Qed.

(** Revoking a held capability. *)
Lemma do_cap_revoke_run caller cap k c t :
  kinv k → tcb k caller = Some t → holds k caller cap c → allows c REVOKE = true →
  ∃ freed ts, do_cap_revoke caller cap k = (Ok (Revoked freed), set_cap_spaces ts k) ∧
    (1 ≤ freed)%N ∧
    ∀ g, (doomed (cap_spaces k) (mkGlobalCapId (tcb_cap_space t) cap) g → node ts g = None) ∧
         (¬ doomed (cap_spaces k) (mkGlobalCapId (tcb_cap_space t) cap) g →
            node ts g = node (cap_spaces k) g).
Proof.
  intros Hk Ht Hh Ha. destruct (holds_node _ _ _ _ Hh) as (t0 & p & Ht0 & Hn).
  rewrite Ht in Ht0. injection Ht0 as <-.
  destruct (revoke_spec _ _ _ _ (ki_forest _ Hk) Hn)
    as (freed & ts & Hr & _ & _ & Hnode & _ & _ & Hpos & _).
  exists freed, ts. split.
  - unfold do_cap_revoke, mbind, M_bind. rewrite (cap_kind_of_eq _ _ _ _ Hh).
    rewrite (resolve_eq _ _ _ c) by done. rewrite caller_cap_space_eq, Ht.
    unfold zoom, map_err. by rewrite Hr.
  - split; [done|]. intros g. destruct (Hnode g) as [[Heq Hno]|[Heq Hd]].
    + by split.
    + split; [done|]. intros Hno. rewrite Heq. destruct (node (cap_spaces k) g) eqn:E; [|done].
      destruct Hno. by apply Hd.
Qed.
End forwards.

(** ** The call / reply protocol *)

(** What inter-process communication sees of a thread: its state, the message
    delivered to it and the sender of that message. *)
Definition ipc_view (k : KernelState) (t : ThreadId)
    : option (ThreadState * option SmallMessage * option ThreadId) :=
  (λ t, (tcb_state t, pending_msg t, pending_from t)) <$> tcb k t.

Section rendezvous.
Context {BF : Bitflags}.

Lemma tcb_update_tcb i f k j :
  tcb (update_tcb i f k) j = if decide (i = j) then f <$> tcb k i else tcb k j.
Proof.
  unfold update_tcb. destruct (tcb k i) as [t|] eqn:Ht; simpl.
  - unfold tcb. simpl. case_decide as Hd; subst; [by rewrite (tget_insert_eq _ _ _ _ Ht)|].
    by rewrite tget_insert_ne.
  - case_decide; [by subst|done].
Qed.

Lemma sched_update_tcb i f k : sched (update_tcb i f k) = sched k.
Proof. unfold update_tcb. by destruct (tcb k i). Qed.

Lemma endpoints_update_tcb i f k : endpoints (update_tcb i f k) = endpoints k.
Proof. unfold update_tcb. by destruct (tcb k i). Qed.

(** Delivering a message to a blocked receiver. *)
Lemma deliver_run caller eid now k ep r msg :
  endpoint k eid = Some ep → pending_delivery ep = Some (r, msg) →
  is_Some (entity (sched k) r) →
  ∃ ep' s, deliver caller eid now k =
    (Ok tt, set_sched s (update_tcb r (λ t, set_tcb_state Runnable
              (set_tcb_from (Some caller) (set_tcb_msg (Some msg) t)))
              (set_endpoints (<[N.to_nat eid := Some ep']> (endpoints k)) k))) ∧
    (∀ j, se_state <$> entity s j = if decide (r = j) then Some Ready else run_state k j).
Proof.
  intros Hep Hpd Hr. unfold deliver, mbind, M_bind, gets. rewrite Hep.
  unfold on_slot, endpoint in *. rewrite Hep. simpl. rewrite Hpd. simpl.
  set (k1 := set_endpoints _ k). set (k2 := update_tcb _ _ k1).
  destruct (note_ready_run r now k2) as (s & Hs & Hst & _).
  { unfold k2. by rewrite sched_update_tcb. }
  unfold map_err. rewrite Hs. eexists _, s. split; [done|]. intros j. rewrite Hst.
  unfold run_state, k2. by rewrite sched_update_tcb.
Qed.

(** A call to an endpoint on which [r] waits. *)
Lemma do_send_call_run caller ecap msg now k c ep r :
  kinv k → holds k caller ecap c → or_kind (cap_object c) = EndpointK → allows c WRITE = true →
  endpoint k (or_id (cap_object c)) = Some ep → blocked_receiver ep = Some r → msg_wf msg →
  is_Some (entity (sched k) r) → is_Some (entity (sched k) caller) →
  ∃ k1, do_send caller ecap msg true now k = (Ok (Reschedule (Some r)), k1) ∧
    (∀ j, tcb k1 j =
       (if decide (caller = j) then set_tcb_state BlockedOnReply else id) <$>
       ((if decide (r = j) then λ t, set_tcb_state Runnable (set_tcb_from (Some caller)
           (set_tcb_msg (Some msg) t)) else id) <$> tcb k j)) ∧
    ∀ j, run_state k1 j = if decide (caller = j) then Some Blocked
                          else if decide (r = j) then Some Ready else run_state k j.
Proof.
  intros Hk Hh Hkind Ha Hep Hr Hmsg Her Hec. set (eid := or_id (cap_object c)) in *.
  assert (N.of_nat ENDPOINT_QUEUE < U64)%N as Hcap by done.
  destruct (ki_endpoint _ Hk _ _ Hep) as [ch Hch].
  assert (∃ ep', try_send caller msg true ep = (Ok (DeliveredTo r), ep') ∧
            pending_delivery ep' = Some (r, msg)) as (ep' & Hsend & Hpd).
  { destruct (try_send_spec _ Hcap caller msg true _ _ Hch) as (ep' & Heq & Hrep).
    rewrite (blocked_receiver_spec _ _ _ Hch) in Hr. unfold chan_send in *.
    destruct (c_receivers ch) as [|x xs]; simplify_eq/=. exists ep'. split; [done|].
    by rewrite (er_pending _ _ _ Hrep). }
  assert (fast_path_eligible ep msg true = Take r) as Hfast.
  { unfold fast_path_eligible. simpl. rewrite (proj2 (N.ltb_ge _ _)) by apply Hmsg.
    by rewrite Hr. }
  unfold do_send, mbind, M_bind. rewrite (resolve_eq _ _ _ _ _ _ Hh Hkind Ha). unfold gets.
  fold eid. rewrite Hep. cbn [fmap option_fmap option_map]. rewrite Hfast. cbn [andb]. unfold on_slot at 1. unfold endpoint in Hep. rewrite Hep.
  unfold map_err at 1. rewrite Hsend.
  set (k1 := set_endpoints _ k).
  destruct (deliver_run caller eid now k1 ep' r msg) as (ep2 & s & -> & Hst); [|done..|].
  { unfold endpoint, k1. simpl. by rewrite (tget_insert_eq _ _ _ _ Hep). }
  set (k2 := set_sched s _). unfold modify.
  destruct (note_blocked_run caller (update_tcb caller (set_tcb_state BlockedOnReply) k2))
    as (s' & Hs' & Hst').
  { rewrite sched_update_tcb. specialize (Hst caller). unfold k2. simpl.
    apply (fmap_is_Some se_state). rewrite Hst. case_decide; [done|]. by apply fmap_is_Some. }
  unfold map_err. rewrite Hs'. eexists. split; [done|]. split; intros j.
  - change (tcb (set_sched s' ?k) j) with (tcb k j). rewrite tcb_update_tcb.
    change (tcb k2 ?x) with (tcb (update_tcb r (λ t, set_tcb_state Runnable
      (set_tcb_from (Some caller) (set_tcb_msg (Some msg) t)))
      (set_endpoints (<[N.to_nat eid := Some ep2]> (endpoints k1)) k1)) x).
    rewrite !tcb_update_tcb. change (tcb (set_endpoints _ k1) ?x) with (tcb k x).
    destruct (decide (caller = j)) as [<-|]; repeat case_decide; subst; try done;
      by rewrite ?option_fmap_id.
  - unfold run_state at 1. simpl. rewrite Hst'. case_decide; [done|].
    unfold run_state at 1. rewrite sched_update_tcb. simpl. apply Hst.
Qed.
(** A reply to a thread that waits for one. *)
Lemma do_reply_run caller to msg now k t :
  caller ≠ to → tcb k to = Some t → tcb_state t = BlockedOnReply →
  is_Some (entity (sched k) to) → is_Some (entity (sched k) caller) →
  ∃ k1, do_reply caller to msg now k = (Ok (Reschedule (Some to)), k1) ∧
    (∀ j, tcb k1 j = (if decide (to = j)
                      then λ t, set_tcb_state Runnable (set_tcb_msg (Some msg) t)
                      else id) <$> tcb k j) ∧
    ∀ j, run_state k1 j = if decide (caller = j) then Some Ready
                          else if decide (to = j) then Some Ready else run_state k j.
Proof.
  intros Hne Ht Hst Hto Hc. unfold do_reply. rewrite (proj2 (N.eqb_neq _ _)) by done.
  unfold mbind, M_bind, gets, modify. rewrite Ht. rewrite bool_decide_true by done. simpl.
  set (k1 := update_tcb _ _ k). unfold map_err.
  destruct (note_ready_run to now k1) as (s & Hs & Hs1 & _).
  { unfold k1. by rewrite sched_update_tcb. }
  rewrite Hs. assert (∀ j, run_state k1 j = run_state k j) as Hk1.
  { intros j. unfold run_state, k1. by rewrite sched_update_tcb. }
  destruct (note_ready_run caller now (set_sched s k1)) as (s' & Hs' & Hs2 & _).
  { simpl. apply (fmap_is_Some se_state). rewrite Hs1. case_decide; [done|].
    rewrite Hk1. by apply fmap_is_Some. }
  rewrite Hs'. eexists. split; [done|]. split; intros j.
  - change (tcb (set_sched s' _) j) with (tcb k1 j). unfold k1. rewrite tcb_update_tcb.
    case_decide; subst; [done|]. by rewrite option_fmap_id.
  - unfold run_state at 1. simpl. rewrite Hs2. case_decide; [done|].
    unfold run_state at 1. simpl. by rewrite Hs1, Hk1.
Qed.
(** A receive from an endpoint whose first queued sender is [w]. *)
Lemma do_recv_queued_run caller ecap now k c ep w ws :
  kinv k → holds k caller ecap c → or_kind (cap_object c) = EndpointK → allows c READ = true →
  endpoint k (or_id (cap_object c)) = Some ep →
  flatten (senders ep) = w :: ws →
  is_Some (entity (sched k) (w_thread w)) →
  ∃ k1, do_recv caller ecap now k = (Ok (Message (w_thread w) (w_msg w)), k1) ∧
    (∀ j, tcb k1 j = (if decide (w_thread w = j)
                      then λ t, if decide (tcb_state t = BlockedOnReply) then t
                                else set_tcb_state Runnable t
                      else id) <$> tcb k j) ∧
    ∀ j, run_state k1 j = if decide (w_thread w = j) then Some Ready else run_state k j.
Proof.
  intros Hk Hh Hkind Ha Hep Hw Hew. set (eid := or_id (cap_object c)) in *.
  assert (N.of_nat ENDPOINT_QUEUE < U64)%N as Hcap by done.
  destruct (ki_endpoint _ Hk _ _ Hep) as [ch Hch].
  destruct (try_recv_spec _ Hcap caller true _ _ Hch) as (ep' & Heq & _).
  unfold chan_recv in Heq. rewrite <- (senders_spec _ _ _ Hch), Hw in Heq. simpl in Heq.
  unfold do_recv, mbind, M_bind. rewrite (resolve_eq _ _ _ _ _ _ Hh Hkind Ha).
  unfold endpoint in Hep. unfold on_slot. fold eid. rewrite Hep. unfold map_err. rewrite Heq.
  unfold modify, ignore. set (k1 := set_endpoints _ k). set (k2 := update_tcb _ _ k1).
  destruct (note_ready_run (w_thread w) now k2) as (s & Hs & Hst & _).
  { unfold k2. by rewrite sched_update_tcb. }
  rewrite Hs. eexists. split; [done|]. split; intros j.
  - change (tcb (set_sched s k2) j) with (tcb k2 j). unfold k2. rewrite tcb_update_tcb.
    change (tcb k1) with (tcb k). case_decide; subst; [done|]. by rewrite option_fmap_id.
  - unfold run_state at 1. simpl. rewrite Hst. unfold run_state, k2.
    by rewrite sched_update_tcb.
Qed.
End rendezvous.

(** ** Runs of the system *)

(** What can happen to the kernel after it has booted: system calls, the
    installation of the page-table frame pool, spawns (with any contents [mem]
    of the physical memory), and the operations of [Preempt] that traps and the
    root task's drivers invoke. *)
Inductive Event :=
| EvSyscall (caller : ThreadId) (now : N) (op : SyscallOp) (hal : HalInterface)
| EvInstallPool (base len : N)
| EvSpawn (hal : HalInterface)
    (text_vma text_lma text_len stack_vma stack_len entry_vma : N)
| EvSpawnElf (hal : HalInterface) (elf_bytes : list N)
    (machine stack_vma stack_len : N) (mem : N → N)
| EvTick (now : N)
| EvYield (now : N)
| EvTerminate (tid : ThreadId) (now : N)
| EvBlock (tid : ThreadId) (now : N)
| EvHandoff (tid incoming : ThreadId) (now : N)
| EvYieldTo (from to : ThreadId) (now : N)
| EvStart (hal : HalInterface) (tid : ThreadId) (entry stack_top : N)
| EvInitUser (hal : HalInterface) (tid : ThreadId) (entry stack_top root_frame : N).

Section runs.
Context {BF : Bitflags}.

Abbreviation P := (M KernelState SyscallError) (only parsing).

(** The kernel's side of loading a process. *)
Definition spawn_elf_kernel (hal : HalInterface) (elf_bytes : list N)
    (machine stack_vma stack_len : N) (mem : N → N)
    : P (option (ThreadId * CapSpaceId * N)) := λ k,
  let '(r, l) := spawn_process_from_elf hal elf_bytes machine stack_vma stack_len
                   (mkLoader k mem [] 0) in (r, ld_kernel l).

Definition run_event (e : Event) : P unit :=
  match e with
  | EvSyscall caller now op hal => ignore (dispatch caller now op hal)
  | EvInstallPool base len => install_map_pool base len
  | EvSpawn hal text_vma text_lma text_len stack_vma stack_len entry =>
      ignore (spawn_process hal text_vma text_lma text_len stack_vma stack_len entry : P _)
  | EvSpawnElf hal elf_bytes machine stack_vma stack_len mem =>
      ignore (spawn_elf_kernel hal elf_bytes machine stack_vma stack_len mem)
  | EvTick now => ignore (preempt_tick now : P _)
  | EvYield now => ignore (cooperative_yield now : P _)
  | EvTerminate tid now => ignore (terminate_thread tid now : P _)
  | EvBlock tid now => ignore (block_thread tid now : P _)
  | EvHandoff tid incoming now => ignore (terminate_thread_and_handoff tid incoming now : P _)
  | EvYieldTo from to now => ignore (yield_to_thread from to now : P _)
  | EvStart hal tid entry stack => ignore (start_thread hal tid entry stack : P _)
  | EvInitUser hal tid entry stack root =>
      ignore (init_user_thread hal tid entry stack root : P _)
  end.

Definition event_ok (e : Event) : Prop :=
  match e with
  | EvSyscall _ _ op hal => hal_ok hal ∧ op_ok op
  | EvInstallPool base len => (len < U32 ∧ base + len * PAGE_SIZE < U64)%N
  | EvSpawn hal _ _ text_len stack_vma stack_len _ =>
      hal_ok hal ∧ (text_len + 4095 < U64)%N ∧ (stack_len + 4095 < U64)%N ∧
      (stack_vma + stack_len < U64)%N
  | EvSpawnElf hal data _ stack_vma stack_len _ =>
      hal_ok hal ∧ (N.of_nat (length data) + 64 < U64)%N ∧
      (le data 56 2 = 0 ∨ 48 ≤ le data 54 2)%N ∧ Forall seg_ok (load_segments data) ∧
      (stack_len + 4095 < U64)%N ∧ (stack_vma + stack_len < U64)%N
  | _ => True
  end.

Lemma run_event_ok e k :
  event_ok e → kinv k → wp (run_event e) (no_panic kinv) k.
Proof.
  destruct e; simpl; intros He Hk; try apply wp_no_panic_ignore;
    eauto using preempt_tick_ok, cooperative_yield_ok, terminate_thread_ok, block_thread_ok,
      terminate_thread_and_handoff_ok, yield_to_thread_ok, start_thread_ok, init_user_thread_ok.
  - destruct He. by apply dispatch_ok.
  - destruct He. apply wp_modify. split; [done|]. apply kinv_pool; [done|]. split; [apply N.le_0_l|done..].
  - destruct He as (? & ? & ? & ?). eapply wp_mono; [by apply spawn_process_spec|].
    intros r k'. unfold spawn_post. repeat case_match; try done; by intros [? _].
  - destruct He as (? & ? & ? & ? & ? & ?). unfold wp, spawn_elf_kernel.
    pose proof (spawn_process_from_elf_spec (E := SyscallError) hal elf_bytes machine stack_vma
      stack_len (mkLoader k mem [] 0)) as Hp. unfold wp, elf_spawn_post in Hp.
    destruct (spawn_process_from_elf _ _ _ _ _ _) as [[[[[tid cs] p]|]|e|] l]; simpl in *;
      (destruct Hp; [done..|]); done.
Qed.

Lemma run_event_total e k : ∃ r k', run_event e k = (r, k') ∧ (r = Ok tt ∨ r = Panic).
Proof.
  destruct e; simpl; unfold ignore; [|by eauto|..];
    match goal with |- context [match ?m with _ => _ end] => destruct m as [[] ?] end; eauto.
Qed.

Lemma run_events_ok events : ∀ k,
  kinv k → Forall event_ok events →
  ∃ k', for_each events run_event k = (Ok tt, k') ∧ kinv k'.
Proof.
  induction events as [|e events IH]; intros k Hk Hev; [by exists k|].
  apply Forall_cons in Hev as [He Hev].
  destruct (run_event_ok e k He Hk) as [Hok Hk1].
  destruct (run_event_total e k) as (r & k1 & Heq & Hr). rewrite Heq in Hok, Hk1. simpl in *.
  destruct Hr as [-> | ->]; [|done]. destruct (IH k1 Hk1 Hev) as (k2 & H2 & Hk2).
  exists k2. split; [|done]. unfold mbind, M_bind. by rewrite Heq.
Qed.
End runs.

(** ** Properties *)

Section properties.
Context {BF : Bitflags}.

(** C2 No system call breaks the kernel: from a state that satisfies the invariant, a
    call by any thread ends in such a state and does not panic, whatever it returns,
    provided that the page of a [Map] ends below 2^64, the count of a [Retype] is a [u32]
    and the hardware layer consumes no more frames than it was given.  All other
    arguments are arbitrary.  A [Map] of the last page of the address space does panic,
    in a later call ([AddressSpace.map_last_page_panics]). *)
Theorem dispatch_preserves_invariant caller now op hal k :
  kinv k → hal_ok hal → op_ok op →
  let '(r, k') := dispatch caller now op hal k in r ≠ Panic ∧ kinv k'.
Proof.
  intros Hk Hh Ho. pose proof (dispatch_ok caller now op hal k Hk Hh Ho) as H.
  unfold wp, no_panic in H. by destruct (dispatch caller now op hal k).
Qed.


(** C4 Granting is revocable across spaces: a grant gives the target
    thread's space a capability to the same object with a subset of the
    rights; when the granter later revokes the capability it granted from,
    the revocation succeeds and the granted capability is gone, while the
    capabilities not derived from it are untouched. *)
Theorem grant_then_revoke caller target cap rights k dst k1 :
  kinv k → do_cap_grant caller target cap rights k = (Ok (Granted dst), k1) →
  authorized k caller (cap, None, REVOKE) →
  ∃ tcap t t_dst c child p freed k2,
    holds k caller target tcap ∧ tcb k (or_id (cap_object tcap)) = Some t_dst ∧
    tcb k caller = Some t ∧ holds k caller cap c ∧
    let src := mkGlobalCapId (tcb_cap_space t) cap in
    let new := mkGlobalCapId (tcb_cap_space t_dst) dst in
    node (cap_spaces k1) new = Some (child, p) ∧
    cap_object child = cap_object c ∧ is_subset_of (cap_rights child) (cap_rights c) = true ∧
    do_cap_revoke caller cap k1 = (Ok (Revoked freed), k2) ∧
    node (cap_spaces k2) new = None ∧
    ∀ g, ¬ doomed (cap_spaces k1) src g → node (cap_spaces k2) g = node (cap_spaces k1) g.
Proof.
  intros Hk Hg (c & Hh & Ha & _).
  pose proof (do_cap_grant_ok caller target cap rights k Hk) as [_ Hk1].
  rewrite Hg in Hk1. simpl in Hk1.
  destruct (do_cap_grant_Ok _ _ _ _ _ _ _ Hk Hg) as
    (tcap & td & ts & c' & p & eff & Htcap & Htd & Hts & Hne & Hn & _ & Hsub & _ & Hfresh & Hk1eq & Hnodes).
  destruct (holds_node _ _ _ _ Hh) as (t0 & p0 & Ht0 & Hn0).
  assert (t0 = ts) as -> by congruence. assert (c' = c) as -> by congruence.
  assert (tcb k1 caller = Some ts) as Hts1 by (rewrite Hk1eq; exact Hts).
  assert (holds k1 caller cap c) as Hh1.
  { eapply node_holds; [exact Hts1|]. rewrite Hnodes. rewrite decide_False; [exact Hn|].
    intros [= Hsp _]. by destruct Hne. }
  destruct (do_cap_revoke_run caller cap k1 c ts Hk1 Hts1 Hh1 Ha)
    as (freed & tss & Hrev & _ & Hgone).
  exists tcap, ts, td, c, (derived_cap c rights eff), (Some (mkGlobalCapId (tcb_cap_space ts) cap)),
    freed, (set_cap_spaces tss k1).
  cbv zeta. split_and!; try done.
  - rewrite Hnodes. by rewrite decide_True.
  - apply Hgone. right. eapply descends_parent. rewrite Hnodes. by rewrite decide_True.
  - intros g Hd. by apply Hgone.
Qed.

(** C1 The system is safe: from the state that a hand-off with a well-formed manifest
    boots into, every sequence of system calls, timer ticks, process spawns and
    loads, yields, terminations, hand-offs and thread starts, each of which satisfies
    [event_ok], runs without a panic, and the kernel invariant holds at its end (hence,
    for every prefix, after every event).  [event_ok] asks of a [Map] that its page ends
    below 2^64, of counts and the frame pool that they fit their types, of the hardware
    layer that it consumes no more frames than it was given, of a spawn that its sizes
    and its stack do not wrap around, and of an ELF image that its program headers have
    room for their fields and no loadable segment's rounded size wraps around.  Inputs
    outside of these do panic ([AddressSpace.map_last_page_panics],
    [ElfSpawn.huge_segment_panics]). *)
Theorem system_safe b u k events :
  manifest_wf (hardware_manifest b) →
  populate_from_boot_info b EMPTY_STATE = (Ok u, k) →
  Forall event_ok events →
  ∃ k', for_each events run_event k = (Ok tt, k') ∧ kinv k'.
Proof.
  intros Hm Hb Hev. apply run_events_ok; [by eapply populate_kinv|done].
Qed.

(** A receive that finds a queued sender takes its message in arrival
    order, but makes the sender ready even when it had made a call: the
    thread is then both ready for the scheduler and blocked for its reply,
    and stays in that state until a reply comes. *)
Theorem recv_readies_queued_caller caller ecap now hal k c ep w ws t :
  kinv k → holds k caller ecap c → or_kind (cap_object c) = EndpointK → allows c READ = true →
  endpoint k (or_id (cap_object c)) = Some ep →
  flatten (senders ep) = w :: ws →
  is_Some (entity (sched k) (w_thread w)) →
  tcb k (w_thread w) = Some t → tcb_state t = BlockedOnReply →
  ∃ k1, dispatch caller now (Recv ecap) hal k =
          (Ok (Message (w_thread w) (w_msg w)), k1) ∧
        tcb k1 (w_thread w) = Some t ∧ run_state k1 (w_thread w) = Some Ready.
Proof.
  intros Hk Hh Hkind Ha Hep Hw Hew Ht Hst.
  destruct (do_recv_queued_run caller ecap now k c ep w ws) as (k1 & H1 & Ht1 & Hs1); try done.
  exists k1. split; [done|]. rewrite Ht1, Hs1, Ht, !decide_True by done. simpl.
  by rewrite decide_True.
Qed.
End properties.

(** ** Sample runs

    From the booted sample: an endpoint (slot 2), a second thread (slot 3)
    that starts and waits on the endpoint. *)

Definition sample_setup : list Event :=
  [EvSyscall 0 1 (Retype 0 Untyped.Endpoint 1) sample_hal;
   EvSyscall 0 1 (Retype 0 ThreadControlBlock 1) sample_hal;
   EvStart sample_hal 1 4096 8192].

Definition sample_waiting : list Event :=
  sample_setup ++ [EvSyscall 1 2 (Recv 2) sample_hal].

Definition sample_calling : list Event :=
  sample_setup ++ [EvSyscall 0 2 (Call 2 (msg_new 7)) sample_hal].

Definition sample_spawning : list Event :=
  [EvSpawn sample_hal 65536 65536 100 131072 8192 65536].

Definition run_sample (events : list Event) : KernelState :=
  (for_each events run_event sample_state).2.

Lemma run_sample_ok events : Forall event_ok events → kinv (run_sample events).
Proof.
  intros He. destruct (run_events_ok events sample_state sample_state_kinv He) as (k & Hk & Hinv).
  unfold run_sample. rewrite Hk. exact Hinv.
Qed.

Lemma sample_setup_ok : Forall event_ok sample_setup.
Proof.
  repeat (apply Forall_cons; split); try exact I; try by apply Forall_nil.
  all: split; [apply sample_hal_ok|done].
Qed.

Lemma sample_waiting_ok : Forall event_ok sample_waiting.
Proof. apply Forall_app. split; [apply sample_setup_ok|].
  apply Forall_singleton. split; [apply sample_hal_ok|done].
Qed.

Lemma sample_calling_ok : Forall event_ok sample_calling.
Proof. apply Forall_app. split; [apply sample_setup_ok|].
  apply Forall_singleton. split; [apply sample_hal_ok|done].
Qed.

Lemma sample_spawning_ok : Forall event_ok sample_spawning.
Proof. apply Forall_singleton. split; [apply sample_hal_ok|done]. Qed.

Lemma holds_run k caller cap c : (lookup_cap caller cap k).1 = Ok c → holds k caller cap c.
Proof. intros H%run_pair. by apply lookup_cap_Ok in H as [_ ?]. Qed.

Lemma fmap_Some_ex {A B} (f : A → B) o b : f <$> o = Some b → ∃ a, o = Some a ∧ f a = b.
Proof. destruct o; naive_solver. Qed.

Lemma system_safe_witness :
  ∃ k', for_each sample_waiting run_event sample_state = (Ok tt, k') ∧ kinv k'.
Proof.
  exact (system_safe sample_boot tt sample_state sample_waiting sample_manifest_wf sample_boots
    sample_waiting_ok).
Defined.

Lemma dispatch_preserves_invariant_witness :
  let '(r, k') := dispatch 0 1 (Retype 0 Untyped.Endpoint 1) sample_hal sample_state in
  r ≠ Panic ∧ kinv k'.
Proof.
  exact (dispatch_preserves_invariant 0 1 (Retype 0 Untyped.Endpoint 1) sample_hal sample_state
    sample_state_kinv sample_hal_ok eq_refl).
Defined.


Definition sample_pair : KernelState := run_sample sample_waiting.


Definition sample_queued : KernelState := run_sample sample_calling.

Lemma recv_readies_queued_caller_witness :
  ∃ k1, dispatch 1 3 (Recv 2) sample_hal sample_queued =
          (Ok (Message 0 (msg_new 7)), k1) ∧
        tcb_state <$> tcb k1 0 = Some BlockedOnReply ∧ run_state k1 0 = Some Ready.
Proof.
  assert ((λ ep, flatten (senders ep)) <$> endpoint sample_queued 0 =
    Some [mkWaiter 0 (msg_new 7)]) as Hep by by vm_compute.
  apply fmap_Some_ex in Hep as (ep & Hep & Hw).
  assert (tcb_state <$> tcb sample_queued 0 = Some BlockedOnReply) as Ht by by vm_compute.
  apply fmap_Some_ex in Ht as (t & Ht & Hst).
  assert (run_state sample_queued 0 = Some Blocked) as H0 by by vm_compute.
  apply fmap_Some_ex in H0 as (e0 & H0 & _).
  assert ((lookup_cap 1 2 sample_queued).1 = Ok (full {| or_kind := EndpointK; or_id := 0 |}))
    as Hh by by vm_compute.
  destruct (recv_readies_queued_caller 1 2 3 sample_hal sample_queued
    (full {| or_kind := EndpointK; or_id := 0 |}) ep (mkWaiter 0 (msg_new 7)) [] t
    (run_sample_ok _ sample_calling_ok) (holds_run _ _ _ _ Hh) eq_refl eq_refl Hep Hw
    (mk_is_Some _ _ H0) Ht Hst) as (k1 & Hr & Ht1 & Hs).
  exists k1. split; [exact Hr|]. split; [|exact Hs]. cbn [w_thread] in Ht1. rewrite Ht1, <- Hst.
  reflexivity.
Defined.

(** A spawned process (thread 1, space 1), and a capability to its thread in
    the root task's space (slot 2). *)
Definition sample_spawned : KernelState := run_sample sample_spawning.

Definition thread_cap : Capability := full {| or_kind := ThreadControlBlockK; or_id := 1 |}.

Definition sample_granting : KernelState := (insert_cap 0 thread_cap sample_spawned).2.

Lemma sample_granting_ok : kinv sample_granting.
Proof.
  assert (is_Some (tcb_id <$> tcb sample_spawned 1)) as Ht by (vm_compute; eexists; reflexivity).
  apply (insert_cap_ok 0 thread_cap sample_spawned (run_sample_ok _ sample_spawning_ok)).
  exact (proj1 (fmap_is_Some _ _) Ht).
Qed.

Lemma grant_then_revoke_witness :
  ∃ freed k1 k2,
    do_cap_grant 0 2 0 READ sample_granting = (Ok (Granted 0), k1) ∧
    do_cap_revoke 0 0 k1 = (Ok (Revoked freed), k2) ∧
    is_Some (node (cap_spaces k1) (mkGlobalCapId 1 0)) ∧
    node (cap_spaces k2) (mkGlobalCapId 1 0) = None.
Proof.
  assert ((do_cap_grant 0 2 0 READ sample_granting).1 = Ok (Granted 0)) as Hg by by vm_compute.
  apply run_pair in Hg. set (k1 := (do_cap_grant 0 2 0 READ sample_granting).2) in Hg.
  assert ((lookup_cap 0 0 sample_granting).1 = Ok (full {| or_kind := UntypedMemoryK; or_id := 0 |}))
    as H0 by by vm_compute.
  assert ((lookup_cap 0 2 sample_granting).1 = Ok thread_cap) as H2 by by vm_compute.
  assert (tcb_cap_space <$> tcb sample_granting 0 = Some 0%N) as Ht0 by by vm_compute.
  assert (tcb_cap_space <$> tcb sample_granting 1 = Some 1%N) as Ht1 by by vm_compute.
  destruct (grant_then_revoke 0 2 0 READ sample_granting 0 k1 sample_granting_ok Hg)
    as (tc & t & td & c & child & p & freed & k2 & Htc & Htd & Ht & _ & Hn & _ & _ & Hr & Hgone & _).
  { exists (full {| or_kind := UntypedMemoryK; or_id := 0 |}).
    split; [exact (holds_run _ _ _ _ H0)|]. split; [reflexivity|exact I]. }
  apply holds_run in H2. destruct Htc as (t1 & cs1 & Ht1' & Hcs1 & Hl1).
  destruct H2 as (t2 & cs2 & Ht2' & Hcs2 & Hl2).
  assert (tc = thread_cap) as -> by congruence.
  change (or_id (cap_object thread_cap)) with 1%N in Htd. rewrite Htd in Ht1. injection Ht1 as Ht1.
  rewrite Ht1 in Hn, Hgone.
  exists freed, k1, k2. split; [exact Hg|]. split; [exact Hr|]. split; [|exact Hgone].
  exact (mk_is_Some _ _ Hn).
Defined.
