(* ===== verification/Bytes.v ===== *)
(** * Slices

    [&l[a..b]] and [l[a..b].copy_from_slice(src)] on lists, shared by the parts
    that read and write buffers: the file system, the compositor and the network
    stack.  [None] is the panic of a range or a length that does not fit. *)

From S2P Require Import Prelude.

Definition len {A} (l : list A) : N := N.of_nat (length l).

(** [&l[a..b]] *)
Definition sub {A} (l : list A) (a b : N) : option (list A) :=
  if (a <=? b)%N && (b <=? len l)%N
  then Some (take (N.to_nat (b - a)) (drop (N.to_nat a) l)) else None.

(** [l[a..b].copy_from_slice(src)] *)
Definition copy_into {A} (l : list A) (a b : N) (src : list A) : option (list A) :=
  if (a <=? b)%N && (b <=? len l)%N && (len src =? b - a)%N
  then Some (take (N.to_nat a) l ++ src ++ drop (N.to_nat b) l) else None.

Section slices.
Context {A : Type}.
Implicit Types l src : list A.

Lemma sub_Some l a b :
  (a ≤ b ≤ len l)%N → sub l a b = Some (take (N.to_nat (b - a)) (drop (N.to_nat a) l)).
Proof. intros. unfold sub. by rewrite !(proj2 (N.leb_le _ _)) by lia. Qed.

Lemma sub_length l a b s : sub l a b = Some s → len s = (b - a)%N.
Proof.
  unfold sub, len. destruct (N.leb_spec a b), (N.leb_spec b (N.of_nat (length l))); try done.
  intros [= <-]. rewrite length_take, length_drop. lia.
Qed.

Lemma sub_lookup l a b s i :
  sub l a b = Some s → s !! i = if decide (N.of_nat i < b - a)%N then l !! (N.to_nat a + i) else None.
Proof.
  intros Hs. pose proof (sub_length _ _ _ _ Hs) as Hl. unfold sub in Hs.
  destruct (_ && _); [|done]. injection Hs as <-. unfold len in Hl.
  case_decide.
  - rewrite lookup_take_lt by lia. by rewrite lookup_drop.
  - apply lookup_ge_None_2. lia.
Qed.

Lemma sub_prefix l n : (n ≤ len l)%N → sub l 0 n = Some (take (N.to_nat n) l).
Proof. intros. rewrite sub_Some by lia. by rewrite N.sub_0_r. Qed.

Lemma copy_into_Some l a b src :
  (a ≤ b ≤ len l)%N → len src = (b - a)%N →
  copy_into l a b src = Some (take (N.to_nat a) l ++ src ++ drop (N.to_nat b) l).
Proof.
  intros Hab Hs. unfold copy_into.
  by rewrite !(proj2 (N.leb_le _ _)), (proj2 (N.eqb_eq _ _)) by (done || lia).
Qed.

Lemma copy_into_inv l a b src l' :
  copy_into l a b src = Some l' →
  (a ≤ b ≤ len l)%N ∧ len src = (b - a)%N ∧
  l' = take (N.to_nat a) l ++ src ++ drop (N.to_nat b) l.
Proof.
  unfold copy_into. destruct (N.leb_spec a b), (N.leb_spec b (len l)); try done. simpl.
  destruct (N.eqb_spec (len src) (b - a)); [|done]. intros [= <-]. done.
Qed.

Lemma copy_into_length l a b src l' : copy_into l a b src = Some l' → len l' = len l.
Proof.
  intros (Hab & Hs & ->)%copy_into_inv. unfold len in *.
  rewrite !length_app, length_take, length_drop. lia.
Qed.

Lemma copy_into_lookup l a b src l' i :
  copy_into l a b src = Some l' →
  l' !! i = if decide (a ≤ N.of_nat i < b)%N then src !! (i - N.to_nat a) else l !! i.
Proof.
  intros (Hab & Hs & ->)%copy_into_inv. unfold len in *.
  destruct (decide (i < N.to_nat a)).
  - rewrite lookup_app_l by (rewrite length_take; lia).
    rewrite lookup_take_lt by done. rewrite decide_False by lia. done.
  - rewrite lookup_app_r; rewrite length_take; [|lia].
    replace (N.to_nat a `min` length l) with (N.to_nat a) by lia.
    case_decide.
    + rewrite lookup_app_l by lia. done.
    + rewrite lookup_app_r by lia. rewrite lookup_drop. f_equal. lia.
Qed.

(** What was copied is read back. *)
Lemma sub_copy_into l a b src l' : copy_into l a b src = Some l' → sub l' a b = Some src.
Proof.
  intros H. pose proof (copy_into_length _ _ _ _ _ H) as Hlen.
  destruct (copy_into_inv _ _ _ _ _ H) as (Hab & Hs & _).
  rewrite sub_Some by lia. f_equal. apply list_eq. intros i. unfold len in *.
  destruct (decide (i < length src)).
  - rewrite lookup_take_lt by lia. rewrite lookup_drop, (copy_into_lookup _ _ _ _ _ _ H).
    rewrite decide_True by lia. f_equal. lia.
  - rewrite lookup_take_ge by lia. by rewrite lookup_ge_None_2 by lia.
Qed.

Lemma copy_into_Forall (P : A → Prop) l a b src l' :
  copy_into l a b src = Some l' → Forall P l → Forall P src → Forall P l'.
Proof.
  intros (_ & _ & ->)%copy_into_inv Hl Hs.
  repeat apply Forall_app_2; auto using Forall_take, Forall_drop.
Qed.

Lemma sub_Forall (P : A → Prop) l a b s : sub l a b = Some s → Forall P l → Forall P s.
Proof.
  unfold sub. destruct (_ && _); [|done]. intros [= <-] ?. auto using Forall_take, Forall_drop.
Qed.
End slices.

(** Slices of concatenations. *)
Section concat.
Context {A : Type}.
Implicit Types a b c : list A.

Lemma len_app a b : len (a ++ b) = (len a + len b)%N.
Proof. unfold len. rewrite length_app. lia. Qed.

Lemma sub_app a b c i j :
  i = len a → j = (len a + len b)%N → sub (a ++ b ++ c) i j = Some b.
Proof.
  intros -> ->. rewrite sub_Some by (rewrite !len_app; lia). unfold len.
  rewrite Nat2N.id, drop_app_length.
  replace (N.to_nat (N.of_nat (length a) + N.of_nat (length b) - N.of_nat (length a)))
    with (length b) by lia.
  by rewrite take_app_length.
Qed.

Lemma sub_suffix a b i j : i = len a → j = (len a + len b)%N → sub (a ++ b) i j = Some b.
Proof. intros Hi Hj. rewrite <- (app_nil_r b) at 1. by apply sub_app. Qed.

Lemma copy_into_app a b c b' i j :
  i = len a → j = (len a + len b)%N → len b' = len b →
  copy_into (a ++ b ++ c) i j b' = Some (a ++ b' ++ c).
Proof.
  intros -> -> Hl. rewrite copy_into_Some by (rewrite ?len_app; lia). unfold len in *.
  rewrite Nat2N.id, take_app_length. do 2 f_equal.
  replace (N.to_nat (N.of_nat (length a) + N.of_nat (length b))) with (length a + length b) by lia.
  rewrite drop_app_ge by lia. replace (length a + length b - length a) with (length b) by lia.
  by rewrite drop_app_length.
Qed.
End concat.
