(* ===== verification/Registry.v ===== *)
(** * Registries

    A registry is a [Vec] with at most one entry per key, which the services keep
    and search: [upsert] adds or replaces an entry, [retain] removes one, and
    [reduce] picks one.  [reg_map] is the finite map a registry stands for. *)

From stdpp Require Import gmap.
From S2P Require Import Prelude.

(** [iter.reduce(|a, b| if wins(a, b) { b } else { a })] *)
Definition reduce {A} (wins : A → A → bool) (l : list A) : option A :=
  match l with
  | [] => None
  | x :: l => Some (foldl (λ a b, if wins a b then b else a) x l)
  end.

(** [if let Some(p) = v.iter_mut().find(same) { *p = x } else { v.push(x) }] *)
Definition upsert {A} (same : A → bool) (x : A) (v : list A) : list A :=
  match position same v with
  | Some i => <[i := x]> v
  | None => v ++ [x]
  end.

(** ** Reductions *)

Section reduce.
Context {A : Type} (wins : A → A → bool).
Hypothesis wins_asym : ∀ a b, wins a b = true → wins b a = false.
Hypothesis wins_trans : ∀ a b c, wins a b = false → wins b c = false → wins a c = false.

(** The result of a reduction is an element that none beats. *)
Lemma reduce_best l x :
  reduce wins l = Some x → x ∈ l ∧ ∀ y, y ∈ l → wins x y = false.
Proof using wins_asym wins_trans.
  assert (∀ a, wins a a = false) as Hirr.
  { intros a. destruct (wins a a) eqn:E; [|done]. rewrite <- E. by apply wins_asym. }
  destruct l as [|a l]; simpl; [done|]. intros [= <-]. revert a.
  induction l as [|b l IH]; intros a; simpl.
  { split; [left|]. intros y ->%list_elem_of_singleton. apply Hirr. }
  set (c := if wins a b then b else a). destruct (IH c) as [Hc Hbest].
  assert (c ∈ a :: b :: l) as Hin by (unfold c; case_match; set_solver).
  assert (wins c a = false ∧ wins c b = false) as [Hca Hcb].
  { unfold c. destruct (wins a b) eqn:E; auto. }
  split.
  - apply elem_of_cons in Hc as [->|Hc]; [done|]. set_solver.
  - intros y [->|[->|Hy]%elem_of_cons]%elem_of_cons; [| |apply Hbest; set_solver].
    + by eapply wins_trans; [apply Hbest; left|].
    + by eapply wins_trans; [apply Hbest; left|].
Qed.

Lemma reduce_None l : reduce wins l = None ↔ l = [].
Proof using. by destruct l. Qed.
End reduce.

(** ** Registries *)

Section registry.
Context {K A : Type} `{Countable K} (key : A → K).

(** The finite map a registry stands for. *)
Definition reg_map (v : list A) : gmap K A := list_to_map ((λ x, (key x, x)) <$> v).

Lemma reg_map_lookup v k x :
  NoDup (key <$> v) → reg_map v !! k = Some x ↔ x ∈ v ∧ key x = k.
Proof.
  intros Hnd. unfold reg_map. rewrite <- elem_of_list_to_map.
  - rewrite list_elem_of_fmap. naive_solver.
  - by rewrite <- list_fmap_compose.
Qed.

Lemma reg_map_elem v x : NoDup (key <$> v) → x ∈ v → reg_map v !! key x = Some x.
Proof. intros. by apply reg_map_lookup. Qed.

Lemma upsert_spec same x v :
  (∀ y, same y = true ↔ key y = key x) → NoDup (key <$> v) →
  NoDup (key <$> upsert same x v) ∧
  ∀ z, z ∈ upsert same x v ↔ z = x ∨ (z ∈ v ∧ key z ≠ key x).
Proof.
  intros Hsame Hnd. unfold upsert. destruct (position same v) as [i|] eqn:Hp.
  - apply position_Some in Hp as [(y & Hi & Hy%Hsame) _]. split.
    + rewrite list_fmap_insert, list_insert_id; [done|]. by rewrite list_lookup_fmap, Hi, <- Hy.
    + intros z. rewrite !list_elem_of_lookup. split.
      * intros [j Hj]. apply list_lookup_insert_Some in Hj as [(-> & -> & _)|[Hne Hj]]; [by left|].
        right. split; [by exists j|]. intros Hz. apply Hne.
        eapply NoDup_lookup; [exact Hnd| |]; rewrite list_lookup_fmap; [by rewrite Hi|].
        rewrite Hj. simpl. by rewrite Hz, Hy.
      * intros [->|[[j Hj] Hne]].
        { exists i. apply list_lookup_insert_eq. by eapply lookup_lt_Some. }
        exists j. rewrite list_lookup_insert_ne; [done|]. intros ->. naive_solver.
  - rewrite position_None in Hp. split.
    + rewrite fmap_app. apply NoDup_app. split_and!; [done| |apply NoDup_singleton].
      intros k (y & -> & Hy)%list_elem_of_fmap Hk%list_elem_of_singleton.
      apply Hsame in Hk. by rewrite Hp in Hk.
    + intros z. rewrite elem_of_app, list_elem_of_singleton. split; [|naive_solver].
      intros [Hz| ->]; [right|by left]. split; [done|]. intros Hk%Hsame. by rewrite Hp in Hk.
Qed.

Lemma reg_map_upsert same x v :
  (∀ y, same y = true ↔ key y = key x) → NoDup (key <$> v) →
  reg_map (upsert same x v) = <[key x := x]> (reg_map v).
Proof.
  intros Hsame Hnd. destruct (upsert_spec same x v Hsame Hnd) as [Hnd' Hin].
  apply map_eq. intros k. apply option_eq. intros z.
  rewrite reg_map_lookup, lookup_insert_Some, reg_map_lookup, Hin by done. naive_solver.
Qed.

Lemma NoDup_filter_keys (P : A → Prop) `{∀ x, Decision (P x)} v :
  NoDup (key <$> v) → NoDup (key <$> filter P v).
Proof.
  intros Hnd. eapply sublist_NoDup; [exact Hnd|]. apply fmap_sublist, sublist_filter.
Qed.

Lemma reg_map_remove (P : A → Prop) `{∀ x, Decision (P x)} k v :
  (∀ x, P x ↔ key x ≠ k) → NoDup (key <$> v) →
  reg_map (filter P v) = delete k (reg_map v).
Proof.
  intros HP Hnd. apply map_eq. intros j. apply option_eq. intros z.
  rewrite reg_map_lookup, lookup_delete_Some, reg_map_lookup by auto using NoDup_filter_keys.
  rewrite list_elem_of_filter, HP. naive_solver.
Qed.
End registry.

Lemma upsert_Forall {K A} `{Countable K} (key : A → K) (Q : A → Prop) same x v :
  (∀ y, same y = true ↔ key y = key x) → NoDup (key <$> v) →
  Forall Q v → Q x → Forall Q (upsert same x v).
Proof.
  intros Hsame Hnd. rewrite !Forall_forall. intros HQ Hx y Hy.
  apply (upsert_spec key same x v Hsame Hnd) in Hy as [->|[Hy _]]; auto.
Qed.

Lemma filter_Forall {A} (P Q : A → Prop) `{∀ x, Decision (P x)} v :
  Forall Q v → Forall Q (filter P v).
Proof. rewrite !Forall_forall. intros HQ x [_ Hx]%list_elem_of_filter. auto. Qed.

Lemma reg_map_perm {K A} `{Countable K} (key : A → K) v v' :
  NoDup (key <$> v) → v ≡ₚ v' → reg_map key v = reg_map key v'.
Proof.
  intros Hnd Hp. unfold reg_map. apply list_to_map_proper; [|by rewrite Hp].
  by rewrite <- list_fmap_compose.
Qed.

