(* ===== verification/DeviceTree.v ===== *)
(** * Discovery on RISC-V

    [hal-riscv64/src/memory.rs] and [peripheral.rs]: the walk over a flattened
    device tree, the two passes that use it, and the memory map made of the result.
    Memory is a function from addresses to bytes; an access outside the blob is a
    read of whatever is there.  The loop over a string's bytes and the loop over
    tokens have fuel: [out_of_steps] is not an outcome of the code. *)

From Stdlib Require Import Ascii String.
From S2P Require Import Prelude PhysMem Manifest.

(** The code has no errors of its own here: an [Err] says that the fuel was spent. *)
Inductive Diverges := out_of_steps.
Abbreviation R := (outcome Diverges).

Definition bytes_of (s : string) : list N := N_of_ascii <$> list_ascii_of_string s.

(** [a.starts_with(b)] *)
Fixpoint starts_with (p l : list N) : bool :=
  match p, l with
  | [], _ => true
  | x :: p, y :: l => (x =? y)%N && starts_with p l
  | _ :: _, [] => false
  end.

(** [a.windows(p.len()).any(|w| w == p)] for [p] not empty *)
Fixpoint any_window (p l : list N) : bool :=
  match l with
  | [] => false
  | _ :: l' => starts_with p l || any_window p l'
  end.

Definition FDT_MAGIC : N := 3490578157.
Definition FDT_BEGIN_NODE : N := 1.
Definition FDT_END_NODE : N := 2.
Definition FDT_PROP : N := 3.
Definition FDT_NOP : N := 4.
Definition FDT_END : N := 9.

Record FdtHeader := mkHeader {
  magic : N;
  totalsize : N;
  off_dt_struct : N;
  off_dt_strings : N;
  off_mem_rsvmap : N;
  version : N;
  last_comp_version : N;
  boot_cpuid_phys : N;
  size_dt_strings : N;
  size_dt_struct : N;
}.

Record FdtWalker := mkWalker {
  dtb_base : N;
  struct_start : N;
  struct_end : N;
  strings_start : N;
  offset : N;
}.

(** [depth += 1] and [depth -= 1] on [i32]. *)
Definition add_i32 (a b : Z) : option Z :=
  if (-2147483648 <=? a + b)%Z && (a + b <? 2147483648)%Z then Some (a + b)%Z else None.

Section firmware.
Context (mem : N → N).

Definition header_read (dtb_phys : N) : option FdtHeader :=
  let raw i := rd_be mem (dtb_phys + 4 * i) 4 in
  let header := (mkHeader (raw 0) (raw 1) (raw 2) (raw 3) (raw 4) (raw 5) (raw 6) (raw 7) (raw 8) (raw 9))%N in
  if negb (magic header =? FDT_MAGIC)%N then None else Some header.

Definition walker_new (base : N) (header : FdtHeader) : R FdtWalker :=
  e ← or_panic (checked_add U32 (off_dt_struct header) (size_dt_struct header));
  mret (mkWalker base (off_dt_struct header) e (off_dt_strings header) (off_dt_struct header)).

Definition set_offset (o : N) (w : FdtWalker) : FdtWalker :=
  mkWalker (dtb_base w) (struct_start w) (struct_end w) (strings_start w) o.

Definition read_u32_at (w : FdtWalker) (o : N) : R N :=
  a ← or_panic (checked_add U64 (dtb_base w) o);
  mret (rd_be mem a 4).

(** The bytes from [start] to the first zero. *)
Fixpoint cstr (fuel : nat) (start : N) : R (list N) :=
  match fuel with
  | 0 => Err out_of_steps
  | S fuel =>
      if (cell mem start =? 0)%N then mret []
      else l ← cstr fuel (start + 1); mret (cell mem start :: l)
  end.

Definition read_cstr_at (fuel : nat) (w : FdtWalker) (o : N) : R (list N) :=
  a ← or_panic (checked_add U64 (dtb_base w) o);
  cstr fuel a.

Definition align_offset (o : N) : R N :=
  x ← or_panic (checked_add U32 o 3);
  mret (N.ldiff x 3).

(** ** The loop over the structure block

    Both passes have it: [stop] is the additional condition of the second, and the
    handlers are the bodies of the three arms. *)
Section scan.
Context {T : Type} (stop : T → bool) (on_begin : list N → T → R T) (on_end : T → R T).
(** The length, the offset of the name and the offset of the value. *)
Context (on_prop : FdtWalker → N → N → N → T → R T).
Context (fuel : nat).

Definition after_name (o : N) (name : list N) : R N :=
  l ← or_panic (checked_add U32 (truncate U32 (N.of_nat (length name))) 1);
  o ← or_panic (checked_add U32 o l);
  align_offset o.

Fixpoint scan (steps : nat) (w : FdtWalker) (s : T) : R T :=
  match steps with
  | 0 => Err out_of_steps
  | S steps =>
      if (struct_end w <=? offset w)%N || stop s then mret s else
      token ← read_u32_at w (offset w);
      o ← or_panic (checked_add U32 (offset w) 4);
      if (token =? FDT_BEGIN_NODE)%N then
        name ← read_cstr_at fuel w o;
        o ← after_name o name;
        s ← on_begin name s;
        scan steps (set_offset o w) s
      else if (token =? FDT_END_NODE)%N then
        s ← on_end s;
        scan steps (set_offset o w) s
      else if (token =? FDT_PROP)%N then
        len ← read_u32_at w o;
        o4 ← or_panic (checked_add U32 o 4);
        nameoff ← read_u32_at w o4;
        value_offset ← or_panic (checked_add U32 o 8);
        o ← or_panic (checked_add U32 value_offset len);
        o ← align_offset o;
        s ← on_prop w len nameoff value_offset s;
        scan steps (set_offset o w) s
      else if (token =? FDT_NOP)%N then scan steps (set_offset o w) s
      else mret s
  end.
End scan.

(** Two words of a property. *)
Definition read_pair (w : FdtWalker) (o : N) : R N :=
  hi ← read_u32_at w o;
  o ← or_panic (checked_add U32 o 4);
  lo ← read_u32_at w o;
  mret (N.lor (N.shiftl hi 32) lo).

Definition prop_name (fuel : nat) (w : FdtWalker) (nameoff : N) : R (list N) :=
  o ← or_panic (checked_add U32 (strings_start w) nameoff);
  read_cstr_at fuel w o.
End firmware.

Definition is_name (s : string) (name : list N) : bool := bool_decide (name = bytes_of s).

(** ** [memory.rs] *)

Record DtDiscoveryResult := mkDt {
  plic_base : option N;
  iommu_present : bool;
  memory_base : option N;
  memory_size : option N;
}.

Definition dt_default : DtDiscoveryResult := mkDt None false None None.

Definition QEMU_VIRT_DEFAULT_PLIC_BASE : N := 201326592.
Definition QEMU_VIRT_DEFAULT_MEMORY_BASE : N := 2147483648.
Definition QEMU_VIRT_DEFAULT_MEMORY_SIZE : N := 134217728.

Inductive CurrentNode := NoNode | MemoryNode | Plic | PossibleIommu.

Record Walk := mkWalk {
  wk_result : DtDiscoveryResult;
  wk_current : CurrentNode;
  wk_current_depth : Z;
  wk_depth : Z;
}.

Definition dt_begin (name : list N) (s : Walk) : R Walk :=
  depth ← or_panic (add_i32 (wk_depth s) 1);
  mret match wk_current s with
       | NoNode =>
           let node :=
             if starts_with (bytes_of "memory@") name || is_name "memory" name then MemoryNode
             else if starts_with (bytes_of "plic@") name then Plic else PossibleIommu in
           mkWalk (wk_result s) node depth depth
       | _ => mkWalk (wk_result s) (wk_current s) (wk_current_depth s) depth
       end.

Definition dt_end (s : Walk) : R Walk :=
  let '(node, d) := if (wk_depth s =? wk_current_depth s)%Z then (NoNode, (-1)%Z)
                    else (wk_current s, wk_current_depth s) in
  depth ← or_panic (add_i32 (wk_depth s) (-1));
  mret (mkWalk (wk_result s) node d depth).

Definition set_memory_node (base size : N) (r : DtDiscoveryResult) : DtDiscoveryResult :=
  mkDt (plic_base r) (iommu_present r) (Some base) (Some size).
Definition set_plic_base (base : N) (r : DtDiscoveryResult) : DtDiscoveryResult :=
  mkDt (Some base) (iommu_present r) (memory_base r) (memory_size r).
Definition set_iommu_present (r : DtDiscoveryResult) : DtDiscoveryResult :=
  mkDt (plic_base r) true (memory_base r) (memory_size r).
Definition set_result (r : DtDiscoveryResult) (s : Walk) : Walk :=
  mkWalk r (wk_current s) (wk_current_depth s) (wk_depth s).

Definition dt_prop (mem : N → N) (fuel : nat) (w : FdtWalker) (len nameoff value_offset : N) (s : Walk) : R Walk :=
  name ← prop_name mem fuel w nameoff;
  match wk_current s with
  | MemoryNode =>
      if is_name "reg" name && (16 <=? len)%N then
        base ← read_pair mem w value_offset;
        o ← or_panic (checked_add U32 value_offset 8);
        size ← read_pair mem w o;
        mret (set_result (set_memory_node base size (wk_result s)) s)
      else mret s
  | Plic =>
      if is_name "reg" name && (8 <=? len)%N then
        base ← read_pair mem w value_offset;
        mret (set_result (set_plic_base base (wk_result s)) s)
      else mret s
  | PossibleIommu =>
      if is_name "compatible" name then
        a ← or_panic (checked_add U64 (dtb_base w) value_offset);
        let compat := bytes_at mem a len in
        mret (if any_window (bytes_of "iommu") compat then set_result (set_iommu_present (wk_result s)) s else s)
      else mret s
  | NoNode => mret s
  end.

Definition walk_device_tree (mem : N → N) (fuel : nat) (dtb_phys : N) : R DtDiscoveryResult :=
  match header_read mem dtb_phys with
  | None => mret dt_default
  | Some header =>
      w ← walker_new dtb_phys header;
      s ← scan mem (λ _, false) dt_begin dt_end (dt_prop mem fuel) fuel fuel w (mkWalk dt_default NoNode (-1) 0);
      mret (wk_result s)
  end.

(** The firmware's part of the memory, below the kernel. *)
Definition split_reserved_prefix (base size kernel_image_phys_start : N) : option (N * N) * (N * N) :=
  let memory_end := saturating_add U64 base size in
  if (base <? kernel_image_phys_start)%N && (kernel_image_phys_start <? memory_end)%N
  then (Some (base, kernel_image_phys_start), (kernel_image_phys_start, memory_end))
  else (None, (base, memory_end)).

Record Memory := mkMemory {
  regions : list MemoryRegionRaw;
  region_count : N;
  mem_iommu_present : bool;
  mem_plic_base : N;
}.

Definition from_device_tree (mem : N → N) (fuel : nat) (dtb_phys kernel_image_phys_start : N) : R Memory :=
  dt ← walk_device_tree mem fuel dtb_phys;
  let zeros := replicate MAX_MEMORY_REGIONS MemoryRegionRaw_ZERO in
  let base := default QEMU_VIRT_DEFAULT_MEMORY_BASE (memory_base dt) in
  let size := default QEMU_VIRT_DEFAULT_MEMORY_SIZE (memory_size dt) in
  let '(reserved, (usable_base, usable_end)) := split_reserved_prefix base size kernel_image_phys_start in
  '(regions, count) ←
    match reserved with
    | Some (lo, hi) =>
        len ← or_panic (checked_sub hi lo);
        mret (<[0 := mkMemoryRegion lo len Reserved (iommu_present dt)]> zeros, 1)
    | None => mret (zeros, 0)
    end;
  len ← or_panic (checked_sub usable_end usable_base);
  mret (mkMemory (<[count := mkMemoryRegion usable_base len Usable (iommu_present dt)]> regions)
          (N.of_nat count + 1) (iommu_present dt) (default QEMU_VIRT_DEFAULT_PLIC_BASE (plic_base dt))).

(** [&self.regions[..self.region_count]] *)
Definition physical_memory_map (m : Memory) : list MemoryRegionRaw := take (N.to_nat (region_count m)) (regions m).

(** ** [peripheral.rs] *)

Definition MAX_SCAN : nat := MAX_PERIPHERAL_DEVICES.
Definition MAGIC_VALUE : N := 0.
Definition DEVICE_ID : N := 8.
Definition VIRTIO_MMIO_MAGIC : N := 1953655158.

Definition classify_device_id (device_id : N) : option PeripheralKind :=
  match device_id with
  | 0 => None
  | 1 => Some Network
  | 2 => Some Block
  | 3 => Some Console
  | 16 => Some GpuDevice
  | _ => Some UnknownDevice
  end%N.

Section peripheral.
(** The registers of the devices, as the machine answers a volatile read. *)
Context (device : N → N).

Definition probe_virtio_slot (base : N) : R (option PeripheralKind) :=
  a ← or_panic (checked_add U64 base MAGIC_VALUE);
  if negb (device a =? VIRTIO_MMIO_MAGIC)%N then mret None else
  a ← or_panic (checked_add U64 base DEVICE_ID);
  mret (classify_device_id (device a)).

Record Slots := mkSlots {
  in_virtio_node : bool;
  node_depth : Z;
  sl_depth : Z;
  cur_base : option N;
  cur_size : option N;
  cur_irq : option N;
  devices : list PeripheralDeviceRaw;
  sl_count : nat;
}.

Definition slots_full (s : Slots) : bool := MAX_SCAN <=? sl_count s.

Definition slots_begin (name : list N) (s : Slots) : R Slots :=
  depth ← or_panic (add_i32 (sl_depth s) 1);
  mret (if negb (in_virtio_node s) && starts_with (bytes_of "virtio_mmio@") name
        then mkSlots true depth depth None None None (devices s) (sl_count s)
        else mkSlots (in_virtio_node s) (node_depth s) depth (cur_base s) (cur_size s) (cur_irq s)
               (devices s) (sl_count s)).

(** [devices[count] = d; count += 1] *)
Definition add_device (d : PeripheralDeviceRaw) (s : Slots) : R Slots :=
  _ ← or_panic (devices s !! sl_count s);
  mret (mkSlots (in_virtio_node s) (node_depth s) (sl_depth s) (cur_base s) (cur_size s) (cur_irq s)
          (<[sl_count s := d]> (devices s)) (S (sl_count s))).

Definition leave_node (depth : Z) (node : bool) (nd : Z) (s : Slots) : Slots :=
  mkSlots node nd depth (cur_base s) (cur_size s) (cur_irq s) (devices s) (sl_count s).

Definition slots_end (s : Slots) : R Slots :=
  let closes := in_virtio_node s && (sl_depth s =? node_depth s)%Z in
  s ← (if closes then
         match cur_base s, cur_size s with
         | Some base, Some size =>
             kind ← probe_virtio_slot base;
             match kind with
             | Some kind => add_device (peripheral_new kind base size (default 0%N (cur_irq s))) s
             | None => mret s
             end
         | _, _ => mret s
         end
       else mret s);
  depth ← or_panic (add_i32 (sl_depth s) (-1));
  mret (if closes then leave_node depth false (-1) s else leave_node depth (in_virtio_node s) (node_depth s) s).

Definition set_reg (base size : N) (s : Slots) : Slots :=
  mkSlots (in_virtio_node s) (node_depth s) (sl_depth s) (Some base) (Some size) (cur_irq s) (devices s) (sl_count s).
Definition set_irq (line : N) (s : Slots) : Slots :=
  mkSlots (in_virtio_node s) (node_depth s) (sl_depth s) (cur_base s) (cur_size s) (Some line) (devices s) (sl_count s).

Definition slots_prop (mem : N → N) (fuel : nat) (w : FdtWalker) (len nameoff value_offset : N) (s : Slots) : R Slots :=
  if in_virtio_node s then
    name ← prop_name mem fuel w nameoff;
    if is_name "reg" name && (16 <=? len)%N then
      base ← read_pair mem w value_offset;
      o ← or_panic (checked_add U32 value_offset 8);
      size ← read_pair mem w o;
      mret (set_reg base size s)
    else if is_name "interrupts" name && (4 <=? len)%N then
      line ← read_u32_at mem w value_offset;
      mret (set_irq line s)
    else mret s
  else mret s.

Definition no_slots : Slots :=
  mkSlots false (-1) 0 None None None (replicate MAX_SCAN PeripheralDeviceRaw_ZERO) 0.

Definition discover_virtio_mmio_devices (mem : N → N) (fuel : nat) (dtb_phys : N)
    : R (list PeripheralDeviceRaw * nat) :=
  match header_read mem dtb_phys with
  | None => mret (devices no_slots, sl_count no_slots)
  | Some header =>
      w ← walker_new dtb_phys header;
      s ← scan mem slots_full slots_begin slots_end (slots_prop mem fuel) fuel fuel w no_slots;
      mret (devices s, sl_count s)
  end.

(** [d.device_index = i] for the first [device_count] devices. *)
Definition peripheral_discovery (mem : N → N) (fuel : nat) (dtb_phys : N) : R (list PeripheralDeviceRaw * nat) :=
  '(ds, count) ← discover_virtio_mmio_devices mem fuel dtb_phys;
  mret (imap (λ i d, if i <? count then with_peripheral_index (N.of_nat i) d else d) ds, count).
End peripheral.

Definition enumerate_peripheral_devices (p : list PeripheralDeviceRaw * nat) : list PeripheralDeviceRaw :=
  take p.2 p.1.

Definition device_by_index (p : list PeripheralDeviceRaw * nat) (i : N) : option PeripheralDeviceRaw :=
  snd <$> list_find (λ d, pdr_device_index d = i) (enumerate_peripheral_devices p).
