(* ===== verification/Fdt.v ===== *)
(** * Flattened device trees

    The format of the Devicetree Specification (chapter 5), and what the walks of
    [DeviceTree] find in a blob that encodes a tree.  [Item] is the body of a node,
    [encode] its tokens; [Blob] is a tree in memory.  [scan_visits] turns the loop
    over tokens into a recursion over the tree, for any handlers; the theorems on
    the two passes follow by induction on the tree. *)

From Stdlib Require Import String.
From S2P Require Import Prelude PhysMem Manifest DeviceTree.

(** ** Trees *)

Inductive Item :=
| Nop
| Property (name : list N) (nameoff : N) (value : list N)
| Subnode (name : list N) (items : list Item).

Section item_ind.
Context (P : Item → Prop) (Hnop : P Nop) (Hprop : ∀ name o value, P (Property name o value)).
Context (Hnode : ∀ name items, Forall P items → P (Subnode name items)).

Fixpoint item_ind' (i : Item) : P i :=
  match i with
  | Nop => Hnop
  | Property name o value => Hprop name o value
  | Subnode name items =>
      Hnode name items ((fix go l : Forall P l :=
        match l with
        | [] => List.Forall_nil P
        | i :: l => List.Forall_cons P i l (item_ind' i) (go l)
        end) items)
  end.
End item_ind.

(** Padding to a multiple of four bytes. *)
Definition pad4 (l : list N) : list N := l ++ replicate ((4 - length l mod 4) mod 4) 0%N.

Fixpoint encode (i : Item) : list N :=
  match i with
  | Nop => to_be 4 FDT_NOP
  | Property _ nameoff value =>
      to_be 4 FDT_PROP ++ to_be 4 (N.of_nat (length value)) ++ to_be 4 nameoff ++ pad4 value
  | Subnode name items =>
      to_be 4 FDT_BEGIN_NODE ++ pad4 (name ++ [0%N]) ++ flat_map encode items ++ to_be 4 FDT_END_NODE
  end.

(** The iterations of the loop. *)
Fixpoint tokens (i : Item) : nat :=
  match i with
  | Subnode _ items => 2 + foldr (λ i n, tokens i + n) 0 items
  | _ => 1
  end.

Fixpoint height (i : Item) : nat :=
  match i with
  | Subnode _ items => S (foldr (λ i n, height i `max` n) 0 items)
  | _ => 0
  end.

Lemma pad4_length l : length (pad4 l) = 4 * ((length l + 3) / 4).
Proof.
  unfold pad4. rewrite length_app, length_replicate. remember (length l) as n. clear.
  pose proof (Nat.div_mod_eq n 4). pose proof (Nat.mod_upper_bound n 4 ltac:(done)).
  remember (n mod 4) as r. remember (n / 4) as q. subst n. clear Heqr Heqq.
  assert (r = 0 ∨ r = 1 ∨ r = 2 ∨ r = 3) as [->|[->|[->| ->]]] by lia;
    rewrite <- ?Nat.add_assoc, (Nat.mul_comm 4 q), Nat.div_add_l by done; simpl; lia.
Qed.

Lemma encode_length4 i : ∃ k, length (encode i) = 4 * k ∧ tokens i ≤ k.
Proof.
  induction i as [|name o value|name items IH] using item_ind'.
  - by exists 1.
  - exists (3 + (length value + 3) / 4). cbn [encode]. rewrite !length_app, pad4_length, !to_be_length. simpl. lia.
  - assert (∃ k, length (flat_map encode items) = 4 * k ∧ foldr (λ i n, tokens i + n) 0 items ≤ k)
      as (k & Hk & Hs).
    { induction IH as [|i items (k1 & H1 & S1) _ (k2 & H2 & S2)]; [by exists 0|].
      exists (k1 + k2). cbn [flat_map foldr]. rewrite length_app. lia. }
    exists (2 + (length (name ++ [0%N]) + 3) / 4 + k). cbn [encode tokens].
    rewrite !length_app, pad4_length, !to_be_length, Hk, !length_app. simpl. lia.
Qed.

Lemma encode_multiple l : ∃ n, length (flat_map encode l) = 4 * n.
Proof.
  induction l as [|i l [n IH]]; [by exists 0|]. destruct (encode_length4 i) as (k & Hk & _).
  exists (k + n). cbn [flat_map]. rewrite length_app. lia.
Qed.

Lemma aligned_add o k : (o mod 4 = 0)%N → ((o + 4 * k) mod 4 = 0)%N.
Proof. intros Ho. by rewrite N.mul_comm, N.Div0.mod_add. Qed.

(** ** Blobs *)

Definition byte_list (l : list N) : Prop := Forall (λ x, x < 256)%N l.
Definition c_string (l : list N) : Prop := Forall (λ x, 0 < x < 256)%N l.

Section blob.
Context (mem : N → N) (base : N) (header : FdtHeader).

Definition property_ok (name : list N) (nameoff : N) (value : list N) : Prop :=
  byte_list value ∧ c_string name ∧
  (nameoff + N.of_nat (length name) < size_dt_strings header)%N ∧
  holds mem (base + (off_dt_strings header + nameoff)) (name ++ [0%N]).

Fixpoint item_ok (i : Item) : Prop :=
  match i with
  | Nop => True
  | Property name nameoff value => property_ok name nameoff value
  | Subnode name items => c_string name ∧ foldr (λ i P, item_ok i ∧ P) True items
  end.

(** The tree with the items [items] at its root, whose name is empty. *)
Record Blob (items : list Item) : Prop := {
  bl_header : header_read mem base = Some header;
  bl_base : (base + U32 ≤ U64)%N;
  bl_aligned : (off_dt_struct header mod 4 = 0)%N;
  bl_size : size_dt_struct header = N.of_nat (length (encode (Subnode [] items) ++ to_be 4 FDT_END));
  bl_struct : (off_dt_struct header + size_dt_struct header < U32)%N;
  bl_strings : (off_dt_strings header + size_dt_strings header < U32)%N;
  bl_tokens : holds mem (base + off_dt_struct header) (encode (Subnode [] items) ++ to_be 4 FDT_END);
  bl_ok : item_ok (Subnode [] items);
}.

(** ** One token *)

Definition at_offset (o : N) : FdtWalker :=
  mkWalker base (off_dt_struct header) (off_dt_struct header + size_dt_struct header) (off_dt_strings header) o.

Lemma read_word (Hbase : (base + U32 ≤ U64)%N) w o v :
  dtb_base w = base → (o < U32)%N → (v < U32)%N → holds mem (base + o) (to_be 4 v) → read_u32_at mem w o = Ok v.
Proof.
  intros Hw Ho Hv Hh. unfold read_u32_at. rewrite Hw, checked_add_lt by lia. cbn [or_panic mbind outcome_bind].
  by rewrite (rd_be_holds mem (base + o) 4 v).
Qed.

Lemma cstr_string fuel a l : c_string l → holds mem a (l ++ [0%N]) → length l < fuel → cstr mem fuel a = Ok l.
Proof.
  intros Hl. revert a fuel. induction Hl as [|x l Hx Hl IH]; intros a fuel Hh Hf; (destruct fuel as [|fuel]; [simpl in Hf; lia|]);
    cbn [app] in Hh; apply holds_cons in Hh as [Hc Hh]; cbn [cstr]; rewrite Hc.
  - done.
  - rewrite (proj2 (N.eqb_neq _ _)) by lia. rewrite IH; [done|done|]. simpl in Hf. lia.
Qed.

Lemma align_pad o l :
  (o mod 4 = 0)%N → (o + N.of_nat (length l) + 3 < U32)%N →
  align_offset (o + N.of_nat (length l)) = Ok (o + N.of_nat (length (pad4 l)))%N.
Proof.
  clear. intros Ho Hl. unfold align_offset. rewrite checked_add_lt by done. cbn [or_panic mbind outcome_bind].
  rewrite pad4_length. change 3%N with (N.ones 2) at 2. rewrite N.ldiff_ones_r, N.shiftl_mul_pow2, N.shiftr_div_pow2.
  unfold mret, outcome_ret. f_equal. change (2 ^ 2)%N with 4%N.
  rewrite Nat2N.inj_mul, Nat2N.inj_div, Nat2N.inj_add. change (N.of_nat 4) with 4%N. change (N.of_nat 3) with 3%N.
  generalize (N.of_nat (length l)) as n. intros n. pose proof (N.div_mod o 4 ltac:(done)) as E.
  rewrite Ho, N.add_0_r in E. rewrite E. rewrite <- N.add_assoc, (N.mul_comm 4 (o / 4)), N.div_add_l by done. lia.
Qed.
(** ** The loop as a recursion over the tree *)

Section visit.
Context {T : Type} (stop : T → bool) (on_begin : list N → T → R T) (on_end : T → R T).
Context (on_prop : FdtWalker → N → N → N → T → R T).
(** What [on_prop] does, of the name and the value. *)
Context (prop_sem : list N → list N → T → R T).

Fixpoint visit (i : Item) (s : T) : R T :=
  if stop s then mret s else
  match i with
  | Nop => mret s
  | Property name _ value => prop_sem name value s
  | Subnode name items =>
      s ← on_begin name s;
      s ← (fix visits l s := match l with [] => mret s | i :: l => s ← visit i s; visits l s end) items s;
      if stop s then mret s else on_end s
  end.

Fixpoint visits (l : list Item) (s : T) : R T :=
  match l with [] => mret s | i :: l => s ← visit i s; visits l s end.

Lemma visit_node name items s :
  visit (Subnode name items) s =
  if stop s then mret s else s ← on_begin name s; s ← visits items s; if stop s then mret s else on_end s.
Proof.
  assert (∀ s, (fix visits l s := match l with [] => mret s | i :: l => s ← visit i s; visits l s end) items s
               = visits items s) as E by (induction items; intros; simpl; [done|by destruct (visit a s0)]).
  cbn [visit]. destruct (stop s); [done|]. destruct (on_begin name s); simpl; [|done|done]. by rewrite E.
Qed.

Context (fuel : nat).
Abbreviation send := (off_dt_struct header + size_dt_struct header)%N.
Abbreviation scan := (scan mem stop on_begin on_end on_prop fuel).

Hypothesis Hprop : ∀ w name nameoff value o s,
  dtb_base w = base → strings_start w = off_dt_strings header →
  property_ok name nameoff value → holds mem (base + o) value → (o + N.of_nat (length value) < U32)%N →
  on_prop w (N.of_nat (length value)) nameoff o s = prop_sem name value s.
Hypothesis Hbase : (base + U32 ≤ U64)%N.
Hypothesis Hsend : (send < U32)%N.
Hypothesis Hstrings : (off_dt_strings header + size_dt_strings header < U32)%N.
Hypothesis Hfuel : (size_dt_struct header < N.of_nat fuel)%N.

(** What the loop does after [l] tokens from offset [o]. *)
Definition then_scan (n : nat) (o : N) (r : R T) : R T :=
  s ← r; if stop s then mret s else scan (S n) (at_offset o) s.

Lemma scan_stop n o s : stop s = true → scan (S n) (at_offset o) s = mret s.
Proof. intros Hs. cbn [DeviceTree.scan]. by rewrite Hs, orb_true_r. Qed.

Lemma scan_then n o s : then_scan n o (mret s) = scan (S n) (at_offset o) s.
Proof.
  unfold then_scan. cbn [mbind outcome_bind mret outcome_ret]. destruct (stop s) eqn:Hs; [|done].
  by rewrite scan_stop.
Qed.

(** The token at [o]. *)
Lemma scan_head n o s tok :
  stop s = false → (tok < U32)%N → holds mem (base + o) (to_be 4 tok) → (o + 4 ≤ send)%N →
  scan (S n) (at_offset o) s =
  if (tok =? FDT_BEGIN_NODE)%N then
    name ← read_cstr_at mem fuel (at_offset o) (o + 4);
    o' ← after_name (o + 4) name;
    s ← on_begin name s;
    scan n (at_offset o') s
  else if (tok =? FDT_END_NODE)%N then s ← on_end s; scan n (at_offset (o + 4)) s
  else if (tok =? FDT_PROP)%N then
    len ← read_u32_at mem (at_offset o) (o + 4);
    o4 ← or_panic (checked_add U32 (o + 4) 4);
    nameoff ← read_u32_at mem (at_offset o) o4;
    value_offset ← or_panic (checked_add U32 (o + 4) 8);
    o' ← or_panic (checked_add U32 value_offset len);
    o' ← align_offset o';
    s ← on_prop (at_offset o) len nameoff value_offset s;
    scan n (at_offset o') s
  else if (tok =? FDT_NOP)%N then scan n (at_offset (o + 4)) s
  else mret s.
Proof using Hbase Hsend Hstrings Hfuel.
  intros Hs Ht Hh Ho. cbn [DeviceTree.scan at_offset struct_end offset].
  rewrite Hs, (proj2 (N.leb_gt _ _)) by lia. cbn [orb].
  rewrite (read_word Hbase (at_offset o) o tok) by (done || lia). cbn [mbind outcome_bind].
  rewrite checked_add_lt by lia. done.
Qed.

Lemma scan_nop n o s :
  stop s = false → holds mem (base + o) (encode Nop) → (o + 4 ≤ send)%N →
  scan (S n) (at_offset o) s = scan n (at_offset (o + 4)) s.
Proof using Hbase Hsend Hstrings Hfuel. intros Hs Hh Ho. by rewrite (scan_head n o s FDT_NOP). Qed.

Lemma scan_property n o s name nameoff value :
  stop s = false → property_ok name nameoff value → holds mem (base + o) (encode (Property name nameoff value)) →
  (o mod 4 = 0)%N → (o + N.of_nat (length (encode (Property name nameoff value))) + 4 ≤ send)%N →
  scan (S n) (at_offset o) s =
  s ← prop_sem name value s; scan n (at_offset (o + N.of_nat (length (encode (Property name nameoff value))))) s.
Proof using Hbase Hsend Hprop Hstrings Hfuel.
  cbn [encode]. intros Hs Hok Hh Ho Hend. rewrite !length_app, !to_be_length in *.
  assert (length value ≤ length (pad4 value)) as Hvl by (unfold pad4; rewrite length_app; lia).
  apply holds_app in Hh as [H1 [H2 [H3 H4]%holds_app]%holds_app]. rewrite !to_be_length, <- !N.add_assoc in *.
  change (N.of_nat 4) with 4%N in *. change (4 + 4)%N with 8%N in *.
  assert (nameoff < U32)%N as Hn by (destruct Hok as (_ & _ & Hlt & _); lia).
  rewrite (scan_head n o s FDT_PROP) by (done || lia). cbn [N.eqb Pos.eqb FDT_PROP FDT_BEGIN_NODE FDT_END_NODE].
  rewrite (read_word Hbase (at_offset o) (o + 4) (N.of_nat (length value))) by (done || lia). cbn [mbind outcome_bind].
  rewrite (checked_add_lt _ (o + 4) 4) by lia. cbn [or_panic mbind outcome_bind].
  rewrite (read_word Hbase (at_offset o) (o + 4 + 4) nameoff) by (rewrite <- ?N.add_assoc; done || lia).
  cbn [mbind outcome_bind]. rewrite (checked_add_lt _ (o + 4) 8) by lia. cbn [or_panic mbind outcome_bind].
  rewrite (checked_add_lt _ (o + 4 + 8)) by lia. cbn [or_panic mbind outcome_bind].
  rewrite align_pad; [|replace (o + 4 + 8)%N with (o + 4 * 3)%N by lia; by apply aligned_add|lia].
  cbn [mbind outcome_bind].
  rewrite Hprop with (name := name) (value := value);
    [|done|done|done| |lia].
  - destruct (prop_sem name value s); [|done|done]. cbn [mbind outcome_bind]. do 2 f_equal. lia.
  - unfold pad4 in H4. apply holds_app in H4 as [H4 _]. by rewrite <- N.add_assoc.
Qed.
Lemma scan_begin n o s name :
  stop s = false → c_string name → holds mem (base + o) (to_be 4 FDT_BEGIN_NODE ++ pad4 (name ++ [0%N])) →
  (o mod 4 = 0)%N → (off_dt_struct header ≤ o)%N → (o + 4 + N.of_nat (length (pad4 (name ++ [0%N]))) + 4 ≤ send)%N →
  scan (S n) (at_offset o) s =
  s ← on_begin name s; scan n (at_offset (o + 4 + N.of_nat (length (pad4 (name ++ [0%N]))))) s.
Proof using Hbase Hsend Hstrings Hfuel.
  intros Hs Hn Hh Ho Hlo Hend. apply holds_app in Hh as [H1 H2]. rewrite to_be_length, <- N.add_assoc in H2.
  change (N.of_nat 4) with 4%N in H2.
  assert (length name + 1 ≤ length (pad4 (name ++ [0%N]))) as Hl by (unfold pad4; rewrite !length_app; simpl; lia).
  rewrite (scan_head n o s FDT_BEGIN_NODE) by (done || lia). cbn [N.eqb Pos.eqb FDT_BEGIN_NODE].
  unfold read_cstr_at. cbn [at_offset dtb_base]. rewrite checked_add_lt by lia. cbn [or_panic mbind outcome_bind].
  unfold pad4 in H2. apply holds_app in H2 as [H2 _].
  rewrite (cstr_string fuel (base + (o + 4)) name) by (done || lia). cbn [mbind outcome_bind].
  unfold after_name, truncate. rewrite N.mod_small by lia.
  rewrite (checked_add_lt _ (N.of_nat (length name)) 1) by lia. cbn [or_panic mbind outcome_bind].
  rewrite checked_add_lt by lia. cbn [or_panic mbind outcome_bind].
  replace (o + 4 + (N.of_nat (length name) + 1))%N with (o + 4 + N.of_nat (length (name ++ [0%N])))%N
    by (rewrite length_app; simpl; lia).
  rewrite align_pad; [|by apply (aligned_add o 1)|rewrite length_app; simpl; lia]. done.
Qed.

Lemma scan_end n o s :
  stop s = false → holds mem (base + o) (to_be 4 FDT_END_NODE) → (o + 4 ≤ send)%N →
  scan (S n) (at_offset o) s = s ← on_end s; scan n (at_offset (o + 4)) s.
Proof using Hbase Hsend Hstrings Hfuel.
  intros Hs Hh Ho. rewrite (scan_head n o s FDT_END_NODE) by (done || lia). done.
Qed.

(** [l] is at offset [o] of the blob, with another token after it. *)
Record placed (o : N) (l : list N) : Prop := {
  pl_holds : holds mem (base + o) l;
  pl_aligned : (o mod 4 = 0)%N;
  pl_low : (off_dt_struct header ≤ o)%N;
  pl_high : (o + N.of_nat (length l) + 4 ≤ send)%N;
}.

Lemma placed_app o l k :
  (∃ n, length l = 4 * n) → placed o (l ++ k) →
  placed o l ∧ placed (o + N.of_nat (length l)) k.
Proof using Hbase Hsend Hstrings Hfuel.
  intros [n Hn] [Hh Ha Hlo Hhi]. rewrite length_app in Hhi. apply holds_app in Hh as [Hl Hk].
  split; [by split; [..|lia]|]. split; [by rewrite N.add_assoc| |lia|lia].
  rewrite Hn, Nat2N.inj_mul. by apply aligned_add.
Qed.

Lemma scan_visits_with l :
  Forall (λ i, ∀ n o s, item_ok i → placed o (encode i) →
                scan (tokens i + S n) (at_offset o) s = then_scan n (o + N.of_nat (length (encode i))) (visit i s)) l →
  ∀ n o s, foldr (λ i P, item_ok i ∧ P) True l → placed o (flat_map encode l) →
  scan (foldr (λ i n, tokens i + n) 0 l + S n) (at_offset o) s =
  then_scan n (o + N.of_nat (length (flat_map encode l))) (visits l s).
Proof using Hbase Hsend Hstrings Hfuel.
  induction 1 as [|i l Hi _ IH]; intros n o s Hok Hp.
  - cbn [foldr flat_map length visits]. rewrite scan_then. by rewrite N.add_0_r.
  - destruct Hok as [Hok1 Hok2]. cbn [foldr flat_map visits]. destruct (encode_length4 i) as (k & Hk & _).
    destruct (encode_multiple l) as [k' Hk'].
    destruct (placed_app o (encode i) (flat_map encode l) (ex_intro _ k Hk) Hp) as [H1 H2].
    rewrite <- Nat.add_assoc, Nat.add_succ_r.
    rewrite (Hi _ o s Hok1 H1). unfold then_scan at 1. destruct (visit i s) as [s1| |]; [|done|done].
    cbn [mbind outcome_bind]. rewrite length_app, Nat2N.inj_add, N.add_assoc.
    destruct (stop s1) eqn:Hs1.
    + assert (∀ l, visits l s1 = mret s1) as -> by
        (clear -Hs1; induction l as [|[]]; cbn [visits visit]; rewrite ?Hs1; done).
      unfold then_scan. cbn [mbind outcome_bind mret outcome_ret]. by rewrite Hs1.
    + rewrite <- Nat.add_succ_r. by apply IH.
Qed.

Lemma scan_visit i : ∀ n o s, item_ok i → placed o (encode i) →
  scan (tokens i + S n) (at_offset o) s = then_scan n (o + N.of_nat (length (encode i))) (visit i s).
Proof using Hbase Hsend Hstrings Hfuel Hprop.
  induction i as [|name nameoff value|name items IH] using item_ind'; intros n o s Hok Hp;
    destruct (stop s) eqn:Hs;
    try (rewrite Nat.add_succ_r, scan_stop by done; unfold then_scan; cbn [visit]; rewrite Hs;
         cbn [mbind outcome_bind mret outcome_ret]; by rewrite Hs); destruct Hp as [Hh Ha Hlo Hhi].
  - cbn [tokens Nat.add visit]. rewrite Hs, scan_then, scan_nop; [done|done|done|]. simpl in Hhi. simpl. lia.
  - cbn [tokens Nat.add visit]. rewrite Hs, (scan_property _ _ _ name nameoff value) by done. unfold then_scan.
    destruct (prop_sem name value s) as [s1| |]; [|done|done]. cbn [mbind outcome_bind].
    destruct (stop s1) eqn:Hs1; [by apply scan_stop|done].
  - cbn [tokens]. rewrite visit_node, Hs. destruct Hok as [Hname Hok].
    cbn [encode] in Hh, Hhi. rewrite app_assoc in Hh. rewrite !length_app, !to_be_length in Hhi.
    apply holds_app in Hh as [Hb Hh]. rewrite length_app, to_be_length, Nat2N.inj_add in Hh.
    cbn [Nat.add]. rewrite (scan_begin _ o s name) by (done || lia).
    destruct (on_begin name s) as [s1| |]; [|done|done]. cbn [mbind outcome_bind].
    set (o1 := (o + 4 + N.of_nat (length (pad4 (name ++ [0%N]))))%N) in *.
    replace (base + o + (N.of_nat 4 + N.of_nat (length (pad4 (name ++ [0%N])))))%N with (base + o1)%N in Hh by (subst o1; lia).
    destruct (encode_multiple items) as [k Hk]. pose proof (pad4_length (name ++ [0%N])) as Hpad.
    assert (placed o1 (flat_map encode items ++ to_be 4 FDT_END_NODE)) as Hp1.
    { split; [done| |subst o1; lia|rewrite length_app, to_be_length; subst o1; lia].
      subst o1. rewrite Hpad, Nat2N.inj_mul, <- N.add_assoc. change 4%N with (4 * 1)%N at 1.
      change (N.of_nat 4) with 4%N. rewrite <- N.mul_add_distr_l. by apply aligned_add. }
    destruct (placed_app o1 _ _ (ex_intro _ k Hk) Hp1) as [Hp2 Hp3].
    replace (S (foldr (λ i n, tokens i + n) 0 items + S n)) with (foldr (λ i n, tokens i + n) 0 items + S (S n)) by lia.
    rewrite (scan_visits_with items IH _ _ _ Hok Hp2). unfold then_scan.
    destruct (visits items s1) as [s2| |]; [|done|done]. cbn [mbind outcome_bind].
    destruct (stop s2) eqn:Hs2; [cbn [mbind outcome_bind mret outcome_ret]; by rewrite Hs2|].
    destruct Hp3 as [Hh3 _ _ Hhi3]. rewrite scan_end by (done || (simpl in Hhi3; lia)).
    destruct (on_end s2) as [s3| |]; [|done|done]. cbn [mbind outcome_bind].
    replace (o + N.of_nat (length (encode (Subnode name items))))%N
      with (o1 + N.of_nat (length (flat_map encode items)) + 4)%N
      by (subst o1; cbn [encode]; rewrite !length_app, !to_be_length; lia).
    destruct (stop s3) eqn:Hs3; [by apply scan_stop|done].
Qed.
End visit.

(** ** A pass over a blob *)

Section pass.
Context (items : list Item) (HB : Blob items) (fuel : nat).
Hypothesis Hfuel : (size_dt_struct header + size_dt_strings header < N.of_nat fuel)%N.

Lemma scan_blob {T} stop on_begin on_end on_prop prop_sem (s : T) :
  (∀ w name nameoff value o s,
     dtb_base w = base → strings_start w = off_dt_strings header →
     property_ok name nameoff value → holds mem (base + o) value → (o + N.of_nat (length value) < U32)%N →
     on_prop w (N.of_nat (length value)) nameoff o s = prop_sem name value s) →
  (w ← walker_new base header; scan mem stop on_begin on_end on_prop fuel fuel w s) =
  visit stop on_begin on_end prop_sem (Subnode [] items) s.
Proof using HB Hfuel.
  intros Hprop. destruct HB as [_ Hbase Hal Hsize Hs Hstr Htok Hok]. unfold walker_new.
  rewrite checked_add_lt by done. cbn [or_panic mbind outcome_bind mret outcome_ret].
  change (mkWalker _ _ _ _ _) with (at_offset (off_dt_struct header)).
  destruct (encode_length4 (Subnode [] items)) as (k & Hk & Ht).
  rewrite length_app, to_be_length in Hsize. apply holds_app in Htok as [Htok Hend].
  assert (∃ n, fuel = tokens (Subnode [] items) + S n) as [n En] by (exists (fuel - tokens (Subnode [] items) - 1); lia).
  assert (∀ f, f = fuel → scan mem stop on_begin on_end on_prop f fuel (at_offset (off_dt_struct header)) s =
    then_scan stop on_begin on_end on_prop f n (off_dt_struct header + N.of_nat (length (encode (Subnode [] items))))
      (visit stop on_begin on_end prop_sem (Subnode [] items) s)) as E.
  { intros f Ef. rewrite En. apply scan_visit; try done; [lia|]. split; [done..|lia]. }
  rewrite (E fuel eq_refl). unfold then_scan. destruct (visit _ _ _ _ _ _) as [s'| |]; [|done|done].
  cbn [mbind outcome_bind mret outcome_ret]. destruct (stop s') eqn:Hs'; [done|].
  rewrite (scan_head stop on_begin on_end on_prop fuel) with (tok := FDT_END);
    [done|done|done|lia|lia|done|done|by rewrite N.add_assoc|lia].
Qed.

Lemma prop_name_ok w name nameoff value :
  dtb_base w = base → strings_start w = off_dt_strings header → property_ok name nameoff value →
  prop_name mem fuel w nameoff = Ok name.
Proof using HB Hfuel.
  intros Hw Hst (_ & Hn & Hlt & Hh). destruct HB as [_ Hbase _ _ _ Hstr _ _]. unfold prop_name, read_cstr_at.
  rewrite Hst, checked_add_lt by lia. cbn [or_panic mbind outcome_bind]. rewrite Hw, checked_add_lt by lia.
  cbn [or_panic mbind outcome_bind]. apply cstr_string; [done|done|lia].
Qed.

(** The big-endian number in four bytes of a value, and in eight. *)
Definition word (value : list N) (k : nat) : N := be_value (take 4 (drop k value)).
Definition double (value : list N) (k : nat) : N := N.lor (N.shiftl (word value k) 32) (word value (k + 4)).

Lemma read_value w o value k :
  dtb_base w = base → holds mem (base + o) value → (o + N.of_nat (length value) < U32)%N → k + 4 ≤ length value →
  read_u32_at mem w (o + N.of_nat k) = Ok (word value k).
Proof using HB Hfuel.
  intros Hw Hh Ho Hk. destruct HB as [_ Hbase _ _ _ _ _ _]. unfold read_u32_at.
  rewrite Hw, checked_add_lt by lia. cbn [or_panic mbind outcome_bind mret outcome_ret]. f_equal.
  rewrite N.add_assoc. apply (holds_sub _ _ _ k 4) in Hh. apply rd_be_value in Hh.
  rewrite length_take, length_drop in Hh. replace (4 `min` (length value - k)) with 4 in Hh by lia. exact Hh.
Qed.

Lemma read_double w o value k :
  dtb_base w = base → holds mem (base + o) value → (o + N.of_nat (length value) < U32)%N → k + 8 ≤ length value →
  read_pair mem w (o + N.of_nat k) = Ok (double value k).
Proof using HB Hfuel.
  intros Hw Hh Ho Hk. unfold read_pair. rewrite (read_value w o value k) by (done || lia).
  cbn [mbind outcome_bind]. rewrite checked_add_lt by lia. cbn [or_panic mbind outcome_bind].
  replace (o + N.of_nat k + 4)%N with (o + N.of_nat (k + 4))%N by lia.
  by rewrite (read_value w o value (k + 4)) by (done || lia).
Qed.

Lemma read_double0 w o value :
  dtb_base w = base → holds mem (base + o) value → (o + N.of_nat (length value) < U32)%N → 8 ≤ length value →
  read_pair mem w o = Ok (double value 0).
Proof using HB Hfuel.
  intros Hw Hh Ho Hk. rewrite <- (read_double w o value 0) by done. by rewrite N.add_0_r.
Qed.

(** *** The walk of [memory.rs] *)

Definition dt_prop_sem (name value : list N) (s : Walk) : R Walk :=
  mret match wk_current s with
       | MemoryNode =>
           if is_name "reg" name && (16 <=? N.of_nat (length value))%N
           then set_result (set_memory_node (double value 0) (double value 8) (wk_result s)) s else s
       | Plic =>
           if is_name "reg" name && (8 <=? N.of_nat (length value))%N
           then set_result (set_plic_base (double value 0) (wk_result s)) s else s
       | PossibleIommu =>
           if is_name "compatible" name && any_window (bytes_of "iommu") value
           then set_result (set_iommu_present (wk_result s)) s else s
       | NoNode => s
       end.

Lemma dt_prop_value w name nameoff value o s :
  dtb_base w = base → strings_start w = off_dt_strings header →
  property_ok name nameoff value → holds mem (base + o) value → (o + N.of_nat (length value) < U32)%N →
  dt_prop mem fuel w (N.of_nat (length value)) nameoff o s = dt_prop_sem name value s.
Proof using HB Hfuel.
  intros Hw Hst Hok Hh Ho. unfold dt_prop, dt_prop_sem. rewrite (prop_name_ok w name nameoff value) by done.
  cbn [mbind outcome_bind]. destruct (wk_current s); [done| | |].
  - destruct (is_name "reg" name && (16 <=? N.of_nat (length value))%N) eqn:Hc; [|done].
    apply andb_prop in Hc as [_ Hc%N.leb_le].
    rewrite (read_double0 w o value) by (done || lia). cbn [mbind outcome_bind].
    rewrite checked_add_lt by lia. cbn [or_panic mbind outcome_bind].
    change 8%N with (N.of_nat 8). by rewrite (read_double w o value 8) by (done || lia).
  - destruct (is_name "reg" name && (8 <=? N.of_nat (length value))%N) eqn:Hc; [|done].
    apply andb_prop in Hc as [_ Hc%N.leb_le].
    by rewrite (read_double0 w o value) by (done || lia).
  - destruct (is_name "compatible" name); [|done]. destruct HB as [_ Hbase _ _ _ _ _ _].
    rewrite Hw, checked_add_lt by lia. cbn [or_panic mbind outcome_bind andb]. by rewrite holds_bytes_at.
Qed.
(** *** The pass of [peripheral.rs] *)

Definition slots_prop_sem (name value : list N) (s : Slots) : R Slots :=
  mret (if in_virtio_node s then
          if is_name "reg" name && (16 <=? N.of_nat (length value))%N then set_reg (double value 0) (double value 8) s
          else if is_name "interrupts" name && (4 <=? N.of_nat (length value))%N then set_irq (word value 0) s
          else s
        else s).

Lemma slots_prop_value w name nameoff value o s :
  dtb_base w = base → strings_start w = off_dt_strings header →
  property_ok name nameoff value → holds mem (base + o) value → (o + N.of_nat (length value) < U32)%N →
  slots_prop mem fuel w (N.of_nat (length value)) nameoff o s = slots_prop_sem name value s.
Proof using HB Hfuel.
  intros Hw Hst Hok Hh Ho. unfold slots_prop, slots_prop_sem. destruct (in_virtio_node s); [|done].
  rewrite (prop_name_ok w name nameoff value) by done. cbn [mbind outcome_bind].
  destruct (is_name "reg" name && _) eqn:Hc; [|destruct (is_name "interrupts" name && _) eqn:Hi; [|done]].
  - apply andb_prop in Hc as [_ Hc%N.leb_le].
    rewrite (read_double0 w o value) by (done || lia). cbn [mbind outcome_bind].
    rewrite checked_add_lt by lia. cbn [or_panic mbind outcome_bind].
    change 8%N with (N.of_nat 8). by rewrite (read_double w o value 8) by (done || lia).
  - apply andb_prop in Hi as [_ Hi%N.leb_le]. pose proof (read_value w o value 0 Hw Hh Ho ltac:(lia)) as E.
    rewrite N.add_0_r in E. by rewrite E.
Qed.
End pass.
End blob.
