(* ===== verification/Discovery.v ===== *)
(** * What RISC-V discovers in a device tree

    The results of the two passes of [DeviceTree] over any tree, and the memory map
    that the kernel is booted with. *)

From Stdlib Require Import String.
From S2P Require Import Prelude PhysMem Manifest DeviceTree Fdt.

(** ** The walk of [memory.rs] *)

(** A [compatible] property somewhere below contains [iommu]. *)
Fixpoint has_iommu (i : Item) : bool :=
  match i with
  | Nop => false
  | Property name _ value => is_name "compatible" name && any_window (bytes_of "iommu") value
  | Subnode _ items => existsb has_iommu items
  end.

Abbreviation dt_visit := (visit (λ _, false) dt_begin dt_end dt_prop_sem).
Abbreviation dt_visits := (visits (λ _, false) dt_begin dt_end dt_prop_sem).

(** The walk below a node that it took for a possible IOMMU. *)
Definition below (found : bool) (d : Z) : Walk :=
  mkWalk (mkDt None found None None) PossibleIommu 1 d.

Lemma add_i32_ok a b : (-2147483648 ≤ a + b < 2147483648)%Z → add_i32 a b = Some (a + b)%Z.
Proof.
  intros [H1 H2]. unfold add_i32. by rewrite (proj2 (Z.leb_le _ _)), (proj2 (Z.ltb_lt _ _)).
Qed.

Lemma dt_begin_below name found d :
  (-2147483648 ≤ d + 1 < 2147483648)%Z → dt_begin name (below found d) = Ok (below found (d + 1)).
Proof. intros Hd. unfold dt_begin. cbn [below wk_depth]. by rewrite add_i32_ok. Qed.

Lemma dt_end_below found d :
  d ≠ 1%Z → (-2147483648 ≤ d - 1 < 2147483648)%Z → dt_end (below found d) = Ok (below found (d - 1)).
Proof.
  intros Hd Hb. unfold dt_end. cbn [below wk_depth wk_current_depth].
  rewrite (proj2 (Z.eqb_neq _ _)) by done. by rewrite add_i32_ok.
Qed.

Definition heights (items : list Item) : nat := foldr (λ i n, height i `max` n)%nat 0 items.

Lemma dt_visits_with items found d :
  Forall (λ i, ∀ found d, (1 ≤ d)%Z → (d + Z.of_nat (height i) < 2147483648)%Z →
                 dt_visit i (below found d) = Ok (below (found || has_iommu i) d)) items →
  (1 ≤ d)%Z → (d + Z.of_nat (heights items) < 2147483648)%Z →
  dt_visits items (below found d) = Ok (below (found || existsb has_iommu items) d).
Proof.
  intros IH Hd. revert found. induction IH as [|i items Hi _ IH]; intros found Hh;
    unfold heights in *; cbn [visits existsb foldr] in *.
  - by rewrite orb_false_r.
  - rewrite Hi by lia. cbn [mbind outcome_bind]. rewrite IH by lia. by rewrite orb_assoc.
Qed.

Lemma dt_visit_below i found d :
  (1 ≤ d)%Z → (d + Z.of_nat (height i) < 2147483648)%Z →
  dt_visit i (below found d) = Ok (below (found || has_iommu i) d).
Proof.
  revert found d. induction i as [|name o value|name items IH] using item_ind'; intros found d Hd Hh.
  - cbn. by rewrite orb_false_r.
  - cbn [visit has_iommu]. unfold dt_prop_sem. cbn [below wk_current wk_result].
    destruct (_ && _); by destruct found.
  - rewrite visit_node. cbn [height] in Hh. fold (heights items) in Hh.
    rewrite dt_begin_below by lia. cbn [mbind outcome_bind].
    rewrite (dt_visits_with items found (d + 1) IH) by lia. cbn [mbind outcome_bind has_iommu].
    rewrite dt_end_below by lia. do 2 f_equal. lia.
Qed.

Lemma height_tokens i : (height i ≤ tokens i)%nat.
Proof.
  induction i as [| |name items' IH] using item_ind'; cbn [height tokens]; [lia|lia|].
  induction IH; cbn [foldr]; lia.
Qed.

Section tree.
Context (mem : N → N) (base : N) (header : FdtHeader) (items : list Item) (fuel : nat).
Context (HB : Blob mem base header items).
Context (Hfuel : (size_dt_struct header + size_dt_strings header < N.of_nat fuel)%N).

Lemma height_bound : (Z.of_nat (height (Subnode [] items)) + 1 < 2147483648)%Z.
Proof using HB Hfuel.
  destruct HB as [_ _ _ Hs Hlt _ _ _]. rewrite length_app in Hs.
  destruct (encode_length4 (Subnode [] items)) as (k & Hk & Ht).
  pose proof (height_tokens (Subnode [] items)). lia.
Qed.

Lemma walk_result :
  walk_device_tree mem fuel base = Ok (mkDt None (existsb has_iommu items) None None).
Proof using HB Hfuel.
  pose proof height_bound as Hh. unfold walk_device_tree. rewrite (bl_header _ _ _ _ HB).
  rewrite <- outcome_bind_assoc.
  rewrite (scan_blob mem base header items HB fuel Hfuel (λ _, false) dt_begin dt_end (dt_prop mem fuel)
    dt_prop_sem _ (dt_prop_value mem base header items HB fuel Hfuel)).
  rewrite visit_node. change (dt_begin [] (mkWalk dt_default NoNode (-1) 0)) with (Ok (below false 1) : R Walk).
  cbn [mbind outcome_bind].
  rewrite (dt_visits_with items false 1); [done|by apply Forall_true, dt_visit_below|done|]. simpl in Hh. unfold heights. lia.
Qed.
End tree.

(** ** The pass of [peripheral.rs] *)

(** The properties below an item, in order. *)
Fixpoint properties (i : Item) : list (list N * list N) :=
  match i with
  | Nop => []
  | Property name _ value => [(name, value)]
  | Subnode _ items => flat_map properties items
  end.

(** The outermost nodes of virtio slots. *)
Fixpoint virtio_nodes (i : Item) : list (list Item) :=
  match i with
  | Subnode name items =>
      if starts_with (bytes_of "virtio_mmio@") name then [items] else flat_map virtio_nodes items
  | _ => []
  end.

(** Base, size and interrupt: the last of each wins. *)
Definition Regs : Type := option (N * N) * option N.

Definition note_prop (c : Regs) (p : list N * list N) : Regs :=
  let '(name, value) := p in
  if is_name "reg" name && (16 <=? N.of_nat (length value))%N then (Some (double value 0, double value 8), c.2)
  else if is_name "interrupts" name && (4 <=? N.of_nat (length value))%N then (c.1, Some (word value 0))
  else c.

Definition slot_regs (items : list Item) : Regs := foldl note_prop (None, None) (flat_map properties items).

Section slots.
Context (device : N → N).

(** The device in a slot. *)
Definition device_at (items : list Item) : option PeripheralDeviceRaw :=
  '(base, size) ← (slot_regs items).1;
  kind ← (if (device base =? VIRTIO_MMIO_MAGIC)%N then classify_device_id (device (base + DEVICE_ID)) else None);
  Some (peripheral_new kind base size (default 0%N (slot_regs items).2)).

Definition addressable_slot (items : list Item) : Prop :=
  match (slot_regs items).1 with Some (base, _) => (base + DEVICE_ID < U64)%N | None => True end.

Abbreviation sl_visit := (visit slots_full slots_begin (slots_end device) slots_prop_sem).
Abbreviation sl_visits := (visits slots_full slots_begin (slots_end device) slots_prop_sem).

Definition table (f : list PeripheralDeviceRaw) : list PeripheralDeviceRaw :=
  f ++ replicate (MAX_SCAN - length f) PeripheralDeviceRaw_ZERO.

(** *** Inside a slot's node *)

Definition inside (f : list PeripheralDeviceRaw) (nd d : Z) (c : Regs) : Slots :=
  mkSlots true nd d (fst <$> c.1) (snd <$> c.1) c.2 (table f) (length f).

Lemma inside_open f nd d c : (length f < MAX_SCAN)%nat → slots_full (inside f nd d c) = false.
Proof using. intros Hf. apply Nat.leb_gt. exact Hf. Qed.

Lemma slots_begin_inside name f nd d c :
  (-2147483648 ≤ d + 1 < 2147483648)%Z → slots_begin name (inside f nd d c) = Ok (inside f nd (d + 1) c).
Proof using. intros Hd. unfold slots_begin. cbn [inside sl_depth]. by rewrite add_i32_ok. Qed.

Lemma slots_end_below f nd d c :
  d ≠ nd → (-2147483648 ≤ d - 1 < 2147483648)%Z → slots_end device (inside f nd d c) = Ok (inside f nd (d - 1) c).
Proof using.
  intros Hd Hb. unfold slots_end. cbn [inside sl_depth node_depth in_virtio_node].
  rewrite (proj2 (Z.eqb_neq _ _)) by done. cbn [andb mbind outcome_bind mret outcome_ret sl_depth].
  by rewrite add_i32_ok.
Qed.

Lemma inside_visits_with items f nd d c :
  Forall (λ i, ∀ d c, (nd ≤ d)%Z → (0 ≤ d)%Z → (d + Z.of_nat (height i) < 2147483648)%Z →
                 sl_visit i (inside f nd d c) = Ok (inside f nd d (foldl note_prop c (properties i)))) items →
  (nd ≤ d)%Z → (0 ≤ d)%Z → (d + Z.of_nat (heights items) < 2147483648)%Z →
  sl_visits items (inside f nd d c) = Ok (inside f nd d (foldl note_prop c (flat_map properties items))).
Proof using.
  intros IH Hd H0. revert c. induction IH as [|i items Hi _ IH]; intros c Hh; [done|].
  unfold heights in *. cbn [visits flat_map foldr] in *. rewrite Hi by lia. cbn [mbind outcome_bind].
  rewrite IH by lia. by rewrite foldl_app.
Qed.

Lemma inside_visit i f nd d c :
  (length f < MAX_SCAN)%nat → (nd ≤ d)%Z → (0 ≤ d)%Z → (d + Z.of_nat (height i) < 2147483648)%Z →
  sl_visit i (inside f nd d c) = Ok (inside f nd d (foldl note_prop c (properties i))).
Proof using.
  intros Hf. revert d c. induction i as [|name o value|name items IH] using item_ind'; intros d c Hd H0 Hh.
  - cbn [visit]. by rewrite inside_open.
  - cbn [visit properties foldl note_prop]. rewrite inside_open by done. unfold slots_prop_sem.
    cbn [inside in_virtio_node]. repeat case_match; done.
  - rewrite visit_node, inside_open by done. cbn [height] in Hh. fold (heights items) in Hh.
    rewrite slots_begin_inside by lia. cbn [mbind outcome_bind].
    rewrite (inside_visits_with items f nd (d + 1) c IH) by lia. cbn [mbind outcome_bind].
    rewrite inside_open by done. rewrite slots_end_below by lia. cbn [properties]. do 2 f_equal. lia.
Qed.

(** *** Outside *)

Record outside (f : list PeripheralDeviceRaw) (d : Z) (s : Slots) : Prop := {
  os_node : in_virtio_node s = false;
  os_devices : devices s = table f;
  os_count : sl_count s = length f;
  os_len : (length f ≤ MAX_SCAN)%nat;
  os_depth : (length f < MAX_SCAN)%nat → sl_depth s = d;
}.

Lemma outside_full f d s : outside f d s → slots_full s = (MAX_SCAN <=? length f)%nat.
Proof using. intros Ho. unfold slots_full. by rewrite (os_count _ _ _ Ho). Qed.

Definition found (f : list PeripheralDeviceRaw) (nodes : list (list Item)) : list PeripheralDeviceRaw :=
  take MAX_SCAN (f ++ omap device_at nodes).

Lemma found_app f l k : found (found f l) k = found f (l ++ k).
Proof using.
  unfold found. rewrite omap_app, app_assoc. generalize (f ++ omap device_at l) as g. intros g.
  destruct (le_lt_dec MAX_SCAN (length g)) as [Hg|Hg].
  - rewrite !take_app_le; [|done|rewrite length_take; lia]. by rewrite take_take, Nat.min_id.
  - by rewrite (take_ge g) by lia.
Qed.

Lemma found_nil f : (length f ≤ MAX_SCAN)%nat → found f [] = f.
Proof using. intros Hf. unfold found. cbn. rewrite app_nil_r. by apply take_ge. Qed.

Lemma table_next f x :
  (length f < MAX_SCAN)%nat →
  is_Some (table f !! length f) ∧ <[length f := x]> (table f) = table (f ++ [x]).
Proof using.
  intros Hf. unfold table. rewrite length_app. cbn [length].
  replace (MAX_SCAN - length f)%nat with (S (MAX_SCAN - (length f + 1))) by lia. cbn [replicate]. split.
  - rewrite lookup_app_r by done. rewrite Nat.sub_diag. by eexists.
  - rewrite insert_app_r_alt, Nat.sub_diag by done. cbn. by rewrite <- app_assoc.
Qed.

Lemma closed f d c d' :
  (length f < MAX_SCAN)%nat → d' = (d - 1)%Z →
  outside (take MAX_SCAN (f ++ [])) (d - 1) (leave_node d' false (-1) (inside f d d c)).
Proof using. intros Hf ->. rewrite app_nil_r, take_ge by lia. split; try done. lia. Qed.

(** The end of a slot's node. *)
Lemma slots_end_inside f d c items :
  c = slot_regs items → (length f < MAX_SCAN)%nat → addressable_slot items → (0 < d < 2147483648)%Z →
  ∃ s', slots_end device (inside f d d c) = Ok s' ∧ outside (found f [items]) (d - 1) s'.
Proof using.
  intros Hc Hf Ha Hd. unfold slots_end. cbn [inside sl_depth node_depth in_virtio_node]. rewrite Z.eqb_refl.
  cbn [andb inside cur_base cur_size]. unfold found, addressable_slot in *. cbn [omap list_omap].
  unfold device_at. rewrite <- Hc in *. destruct c.1 as [[base size]|] eqn:Hb; cbn [fmap option_fmap option_map fst snd] in *.
  2:{ cbn [mbind outcome_bind mret outcome_ret option_bind sl_depth inside]. rewrite add_i32_ok by lia.
      cbn [or_panic mbind outcome_bind]. eexists. split; [reflexivity|]. apply closed; cbn; lia. }
  unfold probe_virtio_slot, MAGIC_VALUE, DEVICE_ID in *. rewrite !checked_add_lt by lia.
  cbn [or_panic mbind outcome_bind option_bind].
  rewrite N.add_0_r. destruct (device base =? VIRTIO_MMIO_MAGIC)%N; cbn [negb mbind outcome_bind mret outcome_ret option_bind].
  1: destruct (classify_device_id (device (base + 8))) as [kind|]; cbn [option_bind mbind outcome_bind].
  - unfold add_device. cbn [inside devices sl_count cur_irq sl_depth].
    destruct (table_next f (peripheral_new kind base size (default 0%N c.2)) Hf) as [[x Hx] Hi].
    rewrite Hx. cbn [or_panic mbind outcome_bind mret outcome_ret sl_depth]. rewrite add_i32_ok by lia.
    cbn [or_panic mbind outcome_bind]. eexists. split; [reflexivity|].
    rewrite take_ge by (rewrite length_app; simpl; lia).
    split; cbn; [done|exact Hi|rewrite length_app; simpl; lia|rewrite length_app; simpl; lia|done].
  - cbn [mbind outcome_bind mret outcome_ret inside sl_depth]. rewrite add_i32_ok by lia. eexists. split; [reflexivity|]. apply closed; cbn; lia.
  - cbn [mbind outcome_bind mret outcome_ret inside sl_depth]. rewrite add_i32_ok by lia. eexists. split; [reflexivity|]. apply closed; cbn; lia.
Qed.

Definition addressable_slots (nodes : list (list Item)) : Prop := Forall addressable_slot nodes.

Lemma slots_begin_outside f d name s :
  outside f d s → (length f < MAX_SCAN)%nat → (0 ≤ d)%Z → (d + 1 < 2147483648)%Z →
  slots_begin name s =
  Ok (if starts_with (bytes_of "virtio_mmio@") name then inside f (d + 1) (d + 1) (None, None)
      else mkSlots false (node_depth s) (d + 1) (cur_base s) (cur_size s) (cur_irq s) (table f) (length f)).
Proof using.
  intros [Hn Hd Hc _ Hs] Hf H0 Hb. unfold slots_begin. rewrite (Hs Hf), Hn, Hd, Hc.
  rewrite add_i32_ok by lia. cbn [or_panic mbind outcome_bind mret outcome_ret negb andb]. by destruct (starts_with _ _).
Qed.

Lemma outside_visits_with items f d s :
  Forall (λ i, ∀ f d s, outside f d s → (0 ≤ d)%Z → (d + Z.of_nat (height i) < 2147483648)%Z →
     (length f < MAX_SCAN)%nat → addressable_slots (virtio_nodes i) →
     ∃ s', sl_visit i s = Ok s' ∧ outside (found f (virtio_nodes i)) d s') items →
  outside f d s → (0 ≤ d)%Z → (d + Z.of_nat (heights items) < 2147483648)%Z →
  addressable_slots (flat_map virtio_nodes items) →
  ∃ s', sl_visits items s = Ok s' ∧ outside (found f (flat_map virtio_nodes items)) d s'.
Proof using.
  intros IH. revert f s. induction IH as [|i items Hi _ IH]; intros f s Hs H0 Hh Ha; cbn [visits flat_map].
  - exists s. split; [done|]. rewrite found_nil; [done|apply Hs].
  - unfold heights, addressable_slots in *. cbn [foldr flat_map] in *. apply Forall_app in Ha as [Ha1 Ha2].
    destruct (le_lt_dec MAX_SCAN (length f)) as [Hfull|Hf].
    + assert (slots_full s = true) as Hstop by (rewrite (outside_full _ _ _ Hs); by apply Nat.leb_le).
      assert (sl_visit i s = Ok s) as -> by (destruct i; cbn [visit]; by rewrite Hstop).
      cbn [mbind outcome_bind]. destruct (IH f s Hs H0 ltac:(lia) Ha2) as (s' & -> & Hs'). exists s'. split; [done|].
      pose proof (os_len _ _ _ Hs). unfold found in *. by rewrite !take_app_le in * by lia.
    + destruct (Hi f d s Hs H0 ltac:(lia) Hf Ha1) as (s1 & -> & Hs1). cbn [mbind outcome_bind].
      destruct (IH _ s1 Hs1 H0 ltac:(lia) Ha2) as (s' & -> & Hs'). exists s'. split; [done|]. by rewrite found_app in Hs'.
Qed.

Lemma outside_visit i f d s :
  outside f d s → (0 ≤ d)%Z → (d + Z.of_nat (height i) < 2147483648)%Z → (length f < MAX_SCAN)%nat →
  addressable_slots (virtio_nodes i) →
  ∃ s', sl_visit i s = Ok s' ∧ outside (found f (virtio_nodes i)) d s'.
Proof using.
  revert f d s. induction i as [|name o value|name items IH] using item_ind'; intros f d s Hs H0 Hh Hf Ha.
  - exists s. cbn [visit virtio_nodes]. rewrite found_nil by lia. split; [by destruct (slots_full s)|done].
  - exists s. cbn [visit virtio_nodes]. rewrite found_nil by lia. split; [|done].
    unfold slots_prop_sem. rewrite (os_node _ _ _ Hs). by destruct (slots_full s).
  - rewrite visit_node, (outside_full _ _ _ Hs), (proj2 (Nat.leb_gt _ _)) by done. cbn [height] in Hh.
    fold (heights items) in Hh. rewrite (slots_begin_outside f d) by (done || lia). cbn [mbind outcome_bind virtio_nodes] in *.
    destruct (starts_with _ name).
    + rewrite (inside_visits_with items f (d + 1) (d + 1)); [|by apply Forall_true; eauto using inside_visit|lia..].
      cbn [mbind outcome_bind]. rewrite inside_open by done. apply (Forall_singleton addressable_slot) in Ha.
      fold (slot_regs items).
      destruct (slots_end_inside f (d + 1) (slot_regs items) items eq_refl Hf Ha) as (s' & -> & Hs'); [lia|].
      exists s'. split; [done|]. by replace (d + 1 - 1)%Z with d in Hs' by lia.
    + destruct (outside_visits_with items f (d + 1) (mkSlots false (node_depth s) (d + 1) (cur_base s) (cur_size s)
        (cur_irq s) (table f) (length f)) IH) as (s1 & -> & Hs1); [by split; [..|lia|]|lia|lia|done|].
      cbn [mbind outcome_bind]. destruct (slots_full s1) eqn:Hfull.
      * exists s1. split; [done|]. rewrite (outside_full _ _ _ Hs1) in Hfull. apply Nat.leb_le in Hfull.
        destruct Hs1 as [? ? ? ? _]. split; try done. lia.
      * rewrite (outside_full _ _ _ Hs1) in Hfull. apply Nat.leb_gt in Hfull.
        destruct Hs1 as [Hn Hd Hc Hl Hs1]. specialize (Hs1 Hfull).
        unfold slots_end. rewrite Hn. cbn [andb mbind outcome_bind mret outcome_ret]. rewrite Hs1, add_i32_ok by lia.
        cbn [or_panic mbind outcome_bind]. eexists. split; [reflexivity|].
        split; cbn; try done. lia.
Qed.
End slots.

(** ** Any bytes at all *)

Section ends.
Context (mem : N → N) (fuel : nat).
Hypothesis Hzero : ∀ a, ∃ n, (n < fuel)%nat ∧ cell mem (a + N.of_nat n) = 0%N.

Abbreviation ends r := (r ≠ Err out_of_steps).

Lemma ends_bind {A B} (r : R A) (k : A → R B) : ends r → (∀ a, r = Ok a → ends (k a)) → ends (r ≫= k).
Proof using.
  intros H1 H2. destruct r as [a|e|]; cbn; [by apply H2| |done]. by destruct e.
Qed.

Lemma ends_or_panic {A} (o : option A) : ends (or_panic o : R A).
Proof using. by destruct o. Qed.

Lemma ends_cstr a : ends (cstr mem fuel a).
Proof using Hzero.
  destruct (Hzero a) as (n & Hn & Hz). clear Hzero. revert fuel a Hn Hz.
  induction n as [|n IH]; intros f a Hn Hz; (destruct f as [|f]; [lia|]); cbn [cstr].
  - rewrite N.add_0_r in Hz. by rewrite Hz.
  - destruct (cell mem a =? 0)%N; [done|]. apply ends_bind; [|done]. apply IH; [lia|]. rewrite <- Hz. f_equal. lia.
Qed.

Lemma ends_word w o : ends (read_u32_at mem w o).
Proof using. apply ends_bind; [apply ends_or_panic|done]. Qed.

Lemma ends_string w o : ends (read_cstr_at mem fuel w o).
Proof using Hzero. apply ends_bind; [apply ends_or_panic|]. intros a _. apply ends_cstr. Qed.

Lemma ends_pair w o : ends (read_pair mem w o).
Proof using.
  apply ends_bind; [apply ends_word|intros hi _]. apply ends_bind; [apply ends_or_panic|intros o' _].
  apply ends_bind; [apply ends_word|done].
Qed.

Lemma ends_name w o : ends (prop_name mem fuel w o).
Proof using Hzero. apply ends_bind; [apply ends_or_panic|]. intros a _. apply ends_string. Qed.

Lemma checked_add_Some w a b c : checked_add w a b = Some c → c = (a + b)%N.
Proof using. unfold checked_add. by destruct (_ <? _)%N; [intros [= <-]|]. Qed.

Lemma ends_sum (w a b : N) {B} (k : N → R B) : ends (k (a + b)%N) → ends (or_panic (checked_add w a b) ≫= k).
Proof using.
  intros Hk. apply ends_bind; [apply ends_or_panic|]. intros c Hc.
  destruct (checked_add w a b) eqn:E; [|done]. injection Hc as <-. by apply checked_add_Some in E as ->.
Qed.

Lemma ends_align o {B} (k : N → R B) : (∀ o', (o ≤ o')%N → ends (k o')) → ends (align_offset o ≫= k).
Proof using.
  intros Hk. unfold align_offset. rewrite outcome_bind_assoc. apply ends_sum.
  cbn [mbind outcome_bind mret outcome_ret]. apply Hk.
  change 3%N with (N.ones 2) at 2. rewrite N.ldiff_ones_r, N.shiftl_mul_pow2, N.shiftr_div_pow2. change (2 ^ 2)%N with 4%N.
  pose proof (N.div_mod (o + 3) 4 ltac:(done)). pose proof (N.mod_lt (o + 3) 4 ltac:(done)). lia.
Qed.

(** Every token moves the loop on by four bytes. *)
Lemma scan_ends {T} stop on_begin on_end on_prop :
  (∀ name (s : T), ends (on_begin name s)) → (∀ s : T, ends (on_end s)) →
  (∀ w l n v (s : T), ends (on_prop w l n v s)) →
  ∀ steps w s, (struct_end w ≤ offset w + 4 * N.of_nat steps)%N →
  ends (scan mem stop on_begin on_end on_prop fuel (S steps) w s).
Proof using Hzero.
  intros Hb He Hp steps. induction steps as [|steps IH]; intros w s Hs.
  - cbn [scan]. by rewrite (proj2 (N.leb_le _ _)) by lia.
  - remember (S steps) as n eqn:En. cbn [scan]. destruct (_ || _) eqn:Hstop; [done|]. apply orb_false_elim in Hstop as [Hlt%N.leb_gt _].
    apply ends_bind; [apply ends_word|intros token _]. apply ends_sum.
    assert (∀ o s, (offset w + 4 ≤ o)%N → ends (scan mem stop on_begin on_end on_prop fuel n (set_offset o w) s)) as Hgo
      by (intros o s' Ho; subst n; apply IH; cbn; lia).
    destruct (token =? FDT_BEGIN_NODE)%N.
    { apply ends_bind; [apply ends_string|intros name _]. unfold after_name. rewrite outcome_bind_assoc.
      apply ends_sum. rewrite outcome_bind_assoc. apply ends_sum. apply ends_align. intros o Ho.
      apply ends_bind; [apply Hb|intros s' _]. apply Hgo. lia. }
    destruct (token =? FDT_END_NODE)%N; [apply ends_bind; [apply He|intros s' _; by apply Hgo]|].
    destruct (token =? FDT_PROP)%N.
    { apply ends_bind; [apply ends_word|intros len _]. apply ends_sum. apply ends_bind; [apply ends_word|intros nameoff _].
      apply ends_sum. apply ends_sum. apply ends_align. intros o Ho.
      apply ends_bind; [apply Hp|intros s' _]. apply Hgo. lia. }
    destruct (token =? FDT_NOP)%N; [by apply Hgo|done].
Qed.
End ends.

(** ** The theorems *)

Section theorems.
Context (mem : N → N) (base : N) (header : FdtHeader) (items : list Item) (fuel : nat).

(** Discovery of memory on RISC-V: the walk ends without a panic for every
    device tree, and no memory or interrupt-controller node changes what it
    reports: these are below the root, which the walk takes for a possible IOMMU
    and does not leave.  The memory map is the default one of 128 MiB, split where the
    kernel image begins; the only thing it takes from the tree is whether some
    [compatible] property contains [iommu]. *)
Theorem memory_map_of_tree kernel_start :
  Blob mem base header items → (size_dt_struct header + size_dt_strings header < N.of_nat fuel)%N →
  let iommu := existsb has_iommu items in
  let region lo hi kind := mkMemoryRegion lo (hi - lo) kind iommu in
  let lo := QEMU_VIRT_DEFAULT_MEMORY_BASE in
  let hi := (lo + QEMU_VIRT_DEFAULT_MEMORY_SIZE)%N in
  ∃ m, from_device_tree mem fuel base kernel_start = Ok m ∧
    mem_iommu_present m = iommu ∧ mem_plic_base m = QEMU_VIRT_DEFAULT_PLIC_BASE ∧
    physical_memory_map m =
      if decide (lo < kernel_start < hi)%N
      then [region lo kernel_start Reserved; region kernel_start hi Usable] else [region lo hi Usable].
Proof.
  intros HB Hfuel iommu region lo hi. unfold from_device_tree. rewrite (walk_result mem base header items fuel HB Hfuel).
  cbn [mbind outcome_bind memory_base memory_size plic_base iommu_present default].
  unfold split_reserved_prefix. change (saturating_add U64 _ _) with hi. fold lo. case_decide as Hk.
  - rewrite (proj2 (N.ltb_lt _ _)), (proj2 (N.ltb_lt _ _)) by lia. cbn [andb]. unfold checked_sub.
    rewrite !(proj2 (N.leb_le _ _)) by lia. cbn [or_panic mbind outcome_bind mret outcome_ret].
    eexists. split; [reflexivity|]. split_and!; [done..|]. reflexivity.
  - replace ((lo <? kernel_start) && (kernel_start <? hi))%N with false
      by (symmetry; apply andb_false_iff; rewrite !N.ltb_ge; lia).
    eexists. split; [reflexivity|]. split_and!; done.
Qed.

(** C25 Discovery of devices on RISC-V: for every device tree the pass reports
    exactly the populated virtio slots among the outermost [virtio_mmio@] nodes, in
    the order of the tree, at most [MAX_SCAN] of them, each with the base, size and
    interrupt of its node, numbered from 0. *)
Theorem virtio_slots_of_tree (device : N → N) :
  Blob mem base header items → (size_dt_struct header + size_dt_strings header < N.of_nat fuel)%N →
  addressable_slots (flat_map virtio_nodes items) →
  ∃ p, peripheral_discovery device mem fuel base = Ok p ∧
    enumerate_peripheral_devices p =
      imap (λ i d, with_peripheral_index (N.of_nat i) d)
        (take MAX_SCAN (omap (device_at device) (flat_map virtio_nodes items))).
Proof.
  intros HB Hfuel Ha. pose proof (height_bound mem base header items fuel HB Hfuel) as Hh.
  destruct (outside_visit device (Subnode [] items) [] 0 no_slots) as (s & Hs & Ho);
    [split; [done..|unfold MAX_SCAN, MAX_PERIPHERAL_DEVICES; cbn; lia|done]|done|lia|unfold MAX_SCAN, MAX_PERIPHERAL_DEVICES; cbn; lia|done|].
  unfold peripheral_discovery, discover_virtio_mmio_devices. rewrite (bl_header _ _ _ _ HB), <- outcome_bind_assoc.
  rewrite (scan_blob mem base header items HB fuel Hfuel slots_full slots_begin (slots_end device)
    (slots_prop mem fuel) slots_prop_sem _ (slots_prop_value mem base header items HB fuel Hfuel)), Hs.
  eexists. split; [reflexivity|]. destruct Ho as [_ Hd Hc Hl _]. rewrite Hd, Hc.
  unfold enumerate_peripheral_devices, table. cbn [fst snd]. unfold found in *. cbn [app virtio_nodes] in *.
  change (starts_with (bytes_of "virtio_mmio@") []) with false in *. cbv iota in *.
  remember (take MAX_SCAN (omap (device_at device) (flat_map virtio_nodes items))) as l.
  rewrite imap_app, take_app_le by (rewrite length_imap; lia). rewrite take_ge by (rewrite length_imap; lia).
  apply imap_ext. intros i d Hi. apply lookup_lt_Some in Hi. by rewrite (proj2 (Nat.ltb_lt _ _)).
Qed.

(** C27 Discovery on RISC-V ends whatever the bytes at the blob's address are: a
    pass makes at most one round of its loop for every four bytes of the structure
    block that the header declares, if its fuel is more than that and no string of the memory is longer. *)
Theorem discovery_ends (device : N → N) :
  (∀ a, ∃ n, n < fuel ∧ cell mem (a + N.of_nat n) = 0%N) →
  (∀ h, header_read mem base = Some h → (size_dt_struct h + 4 ≤ 4 * N.of_nat fuel)%N) →
  walk_device_tree mem fuel base ≠ Err out_of_steps ∧
  discover_virtio_mmio_devices device mem fuel base ≠ Err out_of_steps.
Proof.
  intros Hz Hsize. unfold walk_device_tree, discover_virtio_mmio_devices.
  destruct (header_read mem base) as [h|] eqn:Hh; [|done]. specialize (Hsize h eq_refl).
  assert (∀ (A : Type) (k : FdtWalker → R A),
    (∀ w, (struct_end w + 4 ≤ offset w + 4 * N.of_nat fuel)%N → k w ≠ Err out_of_steps) →
    (walker_new base h ≫= k) ≠ Err out_of_steps) as Hnew.
  { intros A k Hk. unfold walker_new. rewrite outcome_bind_assoc. apply ends_sum. apply Hk. cbn. lia. }
  assert (∃ n, fuel = S n) as [n ->] by (exists (pred fuel); lia).
  split; apply Hnew; intros w Hw; (apply ends_bind; [|done]); (apply scan_ends; [done|..|lia]); clear Hw.
  - intros name s. by apply ends_bind; [apply ends_or_panic|].
  - intros s. unfold dt_end. destruct (if (_ =? _)%Z then _ else _). by apply ends_bind; [apply ends_or_panic|].
  - intros w1 len nameoff v s. apply ends_bind; [by apply ends_name|intros name _]. destruct (wk_current s); [done|..].
    + destruct (_ && _); [|done]. apply ends_bind; [apply ends_pair|intros b _]. apply ends_sum.
      by apply ends_bind; [apply ends_pair|].
    + destruct (_ && _); [|done]. by apply ends_bind; [apply ends_pair|].
    + destruct (is_name _ _); [|done]. by apply ends_sum.
  - intros name s. by apply ends_bind; [apply ends_or_panic|].
  - intros s. unfold slots_end. apply ends_bind; [|intros s' _; by apply ends_bind; [apply ends_or_panic|]].
    destruct (_ && _); [|done]. destruct (cur_base s) as [b|], (cur_size s) as [sz|]; try done.
    apply ends_bind.
    + unfold probe_virtio_slot. apply ends_sum. destruct (negb _); [done|]. by apply ends_sum.
    + intros [kind|] _; [|done]. by apply ends_bind; [apply ends_or_panic|].
  - intros w1 len nameoff v s. unfold slots_prop. destruct (in_virtio_node s); [|done].
    apply ends_bind; [by apply ends_name|intros name _].
    destruct (is_name "reg" name && _); [|destruct (is_name "interrupts" name && _); [|done]].
    + apply ends_bind; [apply ends_pair|intros b _]. apply ends_sum. by apply ends_bind; [apply ends_pair|].
    + by apply ends_bind; [apply ends_word|].
Qed.
End theorems.

(** ** A tree

    A machine with 256 MiB of memory, an interrupt controller, a network card in the
    first slot and a disk in the second. *)

Definition strings0 : list N :=
  bytes_of "compatible" ++ [0%N] ++ bytes_of "reg" ++ [0%N] ++ bytes_of "interrupts" ++ [0%N].

Definition p_compatible (v : string) : Item := Property (bytes_of "compatible") 0 (bytes_of v ++ [0%N]).
Definition p_reg (base size : N) : Item := Property (bytes_of "reg") 11 (to_be 8 base ++ to_be 8 size).
Definition p_interrupts (line : N) : Item := Property (bytes_of "interrupts") 15 (to_be 4 line).

Definition slot (name : string) (base line : N) : Item :=
  Subnode (bytes_of name) [p_interrupts line; p_reg base 4096; p_compatible "virtio,mmio"].

Definition tree0 : list Item :=
  [p_compatible "riscv-virtio";
   Subnode (bytes_of "memory@80000000") [p_reg 2147483648 268435456];
   Nop;
   Subnode (bytes_of "soc")
     [Subnode (bytes_of "plic@c000000") [p_compatible "riscv,plic0"; p_reg 201326592 6291456];
      slot "virtio_mmio@10001000" 268439552 1; slot "virtio_mmio@10002000" 268443648 2;
      slot "virtio_mmio@10003000" 268447744 3]].

Definition struct0 : list N := encode (Subnode [] tree0) ++ to_be 4 FDT_END.

Definition header0 : FdtHeader :=
  mkHeader FDT_MAGIC (56 + N.of_nat (length struct0 + length strings0)) 56 (56 + N.of_nat (length struct0)) 40 17 16 0
    (N.of_nat (length strings0)) (N.of_nat (length struct0)).

Definition blob0 : list N :=
  flat_map (to_be 4) [magic header0; totalsize header0; off_dt_struct header0; off_dt_strings header0;
    off_mem_rsvmap header0; version header0; last_comp_version header0; boot_cpuid_phys header0;
    size_dt_strings header0; size_dt_struct header0] ++ replicate 16 0%N ++ struct0 ++ strings0.

Definition dtb0 : N := 2281701376.
Definition mem0 (a : N) : N := if (a <? dtb0)%N then 0%N else default 0%N (blob0 !! N.to_nat (a - dtb0)).

(** Slot 1 has a network card, slot 2 a disk, slot 3 nothing. *)
Definition devices0 (a : N) : N :=
  if (a mod 4096 =? 0)%N then VIRTIO_MMIO_MAGIC
  else if (a =? 268439560)%N then 1%N else if (a =? 268443656)%N then 2%N else 0%N.

Lemma c_string_b l : forallb (λ x, (0 <? x)%N && (x <? 256)%N) l = true → c_string l.
Proof.
  rewrite forallb_forall. intros Hl. apply Forall_forall. intros x Hx. apply list_elem_of_In, Hl in Hx.
  apply andb_prop in Hx as [?%N.ltb_lt ?%N.ltb_lt]. lia.
Qed.

Lemma byte_list_b l : forallb (λ x, x <? 256)%N l = true → byte_list l.
Proof.
  rewrite forallb_forall. intros Hl. apply Forall_forall. intros x Hx. apply list_elem_of_In, Hl in Hx.
  by apply N.ltb_lt.
Qed.

Lemma blob0_ok : Blob mem0 dtb0 header0 tree0.
Proof.
  split.
  - vm_compute. reflexivity.
  - vm_compute. discriminate.
  - vm_compute. reflexivity.
  - vm_compute. reflexivity.
  - vm_compute. reflexivity.
  - vm_compute. reflexivity.
  - apply bytes_at_holds. vm_compute. reflexivity.
  - cbn [item_ok foldr tree0 slot p_compatible p_reg p_interrupts].
    unfold property_ok. repeat match goal with |- _ ∧ _ => split end; try exact I;
      match goal with
      | |- c_string _ => apply c_string_b
      | |- byte_list _ => apply byte_list_b
      | |- holds _ _ _ => apply bytes_at_holds
      | |- _ => idtac
      end; vm_compute; reflexivity.
Qed.

Lemma memory_map_of_tree_witness :
  ∃ m, from_device_tree mem0 1000 dtb0 2149580800 = Ok m ∧
    mem_iommu_present m = false ∧ mem_plic_base m = QEMU_VIRT_DEFAULT_PLIC_BASE ∧
    physical_memory_map m = [mkMemoryRegion 2147483648 2097152 Reserved false;
                             mkMemoryRegion 2149580800 132120576 Usable false].
Proof.
  destruct (memory_map_of_tree mem0 dtb0 header0 tree0 1000 2149580800 blob0_ok) as (m & Hm & Hi & Hp & Hmap);
    [vm_compute; reflexivity|].
  exists m. split; [exact Hm|]. rewrite Hi, Hp, Hmap. split_and!; vm_compute; reflexivity.
Defined.

Lemma virtio_slots_of_tree_witness :
  ∃ p, peripheral_discovery devices0 mem0 1000 dtb0 = Ok p ∧
    enumerate_peripheral_devices p =
      [mkPeripheral Network 268439552 4096 1 0 0; mkPeripheral Block 268443648 4096 2 1 0].
Proof.
  destruct (virtio_slots_of_tree mem0 dtb0 header0 tree0 1000 devices0 blob0_ok) as (p & Hp & Hd);
    [vm_compute; reflexivity|by repeat constructor|].
  exists p. split; [exact Hp|]. rewrite Hd. vm_compute. reflexivity.
Defined.

(** Memory where only the header of a blob is left: the structure block is zeros. *)
Definition torn (a : N) : N := if (a <? dtb0 + 40)%N then mem0 a else 0%N.

Lemma discovery_ends_witness :
  walk_device_tree torn 1000 dtb0 ≠ Err out_of_steps ∧
  discover_virtio_mmio_devices devices0 torn 1000 dtb0 ≠ Err out_of_steps.
Proof.
  apply (discovery_ends torn dtb0 1000 devices0).
  - intros a. destruct (N.lt_ge_cases a dtb0) as [Ha|Ha].
    + exists 0%nat. split; [lia|]. unfold cell, torn, mem0. rewrite N.add_0_r.
      rewrite (proj2 (N.ltb_lt a (dtb0 + 40))), (proj2 (N.ltb_lt a dtb0)) by lia. done.
    + exists 40%nat. split; [lia|]. unfold cell, torn. by rewrite (proj2 (N.ltb_ge _ _)) by lia.
  - intros h Hh. assert (Some h = Some header0) as [= ->] by (rewrite <- Hh; vm_compute; reflexivity).
    vm_compute. discriminate.
Defined.
