(* ===== verification/Uefi.v ===== *)
(** * Discovery under UEFI

    [hal-x86_64/src/memory.rs] and [hal-arm64/src/memory.rs]: the memory map that
    the boot loader hands over, and the tables of the firmware (ACPI).  The parser of
    the map is the same in both files.  Loops whose length the input decides have
    that length as fuel; [Handoff.descriptors_enough] and [madt_enough] say that it is
    enough. *)

From Stdlib Require Import String.
From S2P Require Import Prelude PhysMem Manifest DeviceTree.

(** These functions have no errors: [Ok] or a panic. *)
Abbreviation P := (outcome Empty_set).

Inductive UefiMemoryType :=
| ReservedMemoryType | LoaderCode | LoaderData | BootServicesCode | BootServicesData
| RuntimeServicesCode | RuntimeServicesData | ConventionalMemory | UnusableMemory
| AcpiReclaimMemory | AcpiMemoryNvs | MemoryMappedIo | MemoryMappedIoPortSpace | PalCode | PersistentMemory.

Definition from_u32 (value : N) : option UefiMemoryType :=
  match value with
  | 0 => Some ReservedMemoryType
  | 1 => Some LoaderCode
  | 2 => Some LoaderData
  | 3 => Some BootServicesCode
  | 4 => Some BootServicesData
  | 5 => Some RuntimeServicesCode
  | 6 => Some RuntimeServicesData
  | 7 => Some ConventionalMemory
  | 8 => Some UnusableMemory
  | 9 => Some AcpiReclaimMemory
  | 10 => Some AcpiMemoryNvs
  | 11 => Some MemoryMappedIo
  | 12 => Some MemoryMappedIoPortSpace
  | 13 => Some PalCode
  | 14 => Some PersistentMemory
  | _ => None
  end%N.

Definition classify_uefi_type (ty : N) : MemoryRegionKind :=
  match from_u32 ty with
  | Some ConventionalMemory | Some BootServicesCode | Some BootServicesData
  | Some LoaderCode | Some LoaderData => Usable
  | Some AcpiReclaimMemory => AcpiReclaimable
  | Some AcpiMemoryNvs => AcpiNvs
  | Some MemoryMappedIo | Some MemoryMappedIoPortSpace => Mmio
  | Some RuntimeServicesCode | Some RuntimeServicesData | Some ReservedMemoryType
  | Some UnusableMemory | Some PalCode | None => Reserved
  | Some PersistentMemory => Reserved
  end.

Record UefiMemoryDescriptor := mkDescriptor {
  ud_ty : N;
  physical_start : N;
  virtual_start : N;
  number_of_pages : N;
  attribute : N;
}.

(** [size_of::<UefiMemoryDescriptor>()] *)
Definition DESCRIPTOR_BYTES : N := 40.

Record UefiMemoryMapHeader := mkMapHeader { map_size : N; descriptor_size : N }.
Definition MAP_HEADER_BYTES : N := 16.

Section firmware.
Context (mem : N → N).

Definition read_map_header (a : N) : UefiMemoryMapHeader := mkMapHeader (rd mem a 8) (rd mem (a + 8) 8).

Definition read_descriptor (a : N) : UefiMemoryDescriptor :=
  mkDescriptor (rd mem a 4) (rd mem (a + 8) 8) (rd mem (a + 16) 8) (rd mem (a + 24) 8) (rd mem (a + 32) 8).

Record DescriptorIter := mkIter { current : N; remaining_bytes : N; it_descriptor_size : N }.

Definition next_descriptor (it : DescriptorIter) : option (UefiMemoryDescriptor * DescriptorIter) :=
  if (remaining_bytes it <? it_descriptor_size it)%N || (it_descriptor_size it <? DESCRIPTOR_BYTES)%N then None
  else Some (read_descriptor (current it),
             mkIter (current it + it_descriptor_size it) (remaining_bytes it - it_descriptor_size it)
               (it_descriptor_size it)).

(** The iterator to its end. *)
Fixpoint descriptors_from (fuel : nat) (it : DescriptorIter) : list UefiMemoryDescriptor :=
  match fuel with
  | 0 => []
  | S fuel => match next_descriptor it with
              | None => []
              | Some (d, it) => d :: descriptors_from fuel it
              end
  end.

Definition descriptors (it : DescriptorIter) : list UefiMemoryDescriptor :=
  descriptors_from (N.to_nat (remaining_bytes it / DESCRIPTOR_BYTES)) it.

Record MapRegions := mkMapRegions { mr_regions : list MemoryRegionRaw; mr_count : nat; mr_dropped : N }.

Definition add_descriptor (st : MapRegions) (d : UefiMemoryDescriptor) : P MapRegions :=
  if MAX_MEMORY_REGIONS <=? mr_count st then
    n ← or_panic (checked_add U64 (mr_dropped st) 1);
    mret (mkMapRegions (mr_regions st) (mr_count st) n)
  else
    len ← or_panic (checked_mul U64 (number_of_pages d) 4096);
    let r := mkMemoryRegion (physical_start d) len (classify_uefi_type (ud_ty d)) false in
    mret (mkMapRegions (<[mr_count st := r]> (mr_regions st)) (S (mr_count st)) (mr_dropped st)).

Fixpoint add_descriptors (st : MapRegions) (ds : list UefiMemoryDescriptor) : P MapRegions :=
  match ds with [] => mret st | d :: ds => st ← add_descriptor st d; add_descriptors st ds end.

Definition no_regions : MapRegions := mkMapRegions (replicate MAX_MEMORY_REGIONS MemoryRegionRaw_ZERO) 0 0.

Definition locate_acpi_rsdp (map_addr : N) (header : UefiMemoryMapHeader) : P N :=
  trailer ← or_panic (checked_add U64 MAP_HEADER_BYTES (map_size header));
  mret (rd mem (map_addr + trailer) 8).

(** ** ACPI tables *)

(** [size_of::<AcpiSdtHeader>()] *)
Definition SDT_HEADER_BYTES : N := 36.
Definition sdt_signature (a : N) : list N := bytes_at mem a 4.
Definition sdt_length (a : N) : N := rd mem (a + 4) 4.

Definition has_signature (a : N) (s : string) : bool := bool_decide (sdt_signature a = bytes_of s).

(** The tables that an XSDT lists: their count, and the address of the entries. *)
Definition xsdt_entries (rsdp_phys : N) : P (option (nat * N)) :=
  if (rsdp_phys =? 0)%N then mret None else
  let xsdt_addr := rd mem (rsdp_phys + 24) 8 in
  if (xsdt_addr =? 0)%N then mret None else
  body ← or_panic (checked_sub (sdt_length xsdt_addr) SDT_HEADER_BYTES);
  entries ← or_panic (checked_add U64 xsdt_addr SDT_HEADER_BYTES);
  mret (Some (N.to_nat (body / 8), entries)).

Definition table_at (entries : N) (i : nat) : N := rd mem (entries + 8 * N.of_nat i) 8.

Fixpoint dmar_among (entries : N) (i count : nat) : bool :=
  match count with
  | 0 => false
  | S count => has_signature (table_at entries i) "DMAR" || dmar_among entries (S i) count
  end.

Definition acpi_dmar_present (rsdp_phys : N) : P bool :=
  e ← xsdt_entries rsdp_phys;
  mret match e with Some (count, entries) => dmar_among entries 0 count | None => false end.

(** [size_of::<McfgAllocation>()] *)
Definition MCFG_ALLOCATION_BYTES : N := 16.

(** The allocation in an MCFG table. *)
Definition mcfg_base (table : N) : P (option N) :=
  a ← or_panic (checked_add U64 table SDT_HEADER_BYTES);
  first_entry ← or_panic (checked_add U64 a 8);
  table_end ← or_panic (checked_add U64 table (sdt_length table));
  entry_end ← or_panic (checked_add U64 first_entry MCFG_ALLOCATION_BYTES);
  mret (if (table_end <? entry_end)%N then None else Some (rd mem first_entry 8)).

Fixpoint mcfg_among (entries : N) (i count : nat) : P (option N) :=
  match count with
  | 0 => mret None
  | S count =>
      if has_signature (table_at entries i) "MCFG" then mcfg_base (table_at entries i)
      else mcfg_among entries (S i) count
  end.

Definition acpi_mcfg_ecam_base (rsdp_phys : N) : P (option N) :=
  e ← xsdt_entries rsdp_phys;
  match e with Some (count, entries) => mcfg_among entries 0 count | None => mret None end.

Definition MADT_GIC_DISTRIBUTOR_TYPE : N := 12.

Fixpoint gicd_from (fuel : nat) (madt length offset : N) : P (option N) :=
  match fuel with
  | 0 => mret None
  | S fuel =>
      if (offset <? length)%N then
        a ← or_panic (checked_add U64 madt offset);
        a1 ← or_panic (checked_add U64 a 1);
        let entry_type := cell mem a in
        let entry_length := cell mem a1 in
        if (entry_type =? MADT_GIC_DISTRIBUTOR_TYPE)%N then mret (Some (rd mem (a + 8) 8))
        else if (entry_length =? 0)%N then mret None
        else offset ← or_panic (checked_add U32 offset entry_length); gicd_from fuel madt length offset
      else mret None
  end.

Definition find_gicd_in_madt (madt length : N) : P (option N) :=
  gicd_from (N.to_nat length) madt length (SDT_HEADER_BYTES + 8).

Record AcpiDiscoveryResult := mkAcpi { ac_gicd_base : option N; smmu_present : bool }.

Fixpoint acpi_among (r : AcpiDiscoveryResult) (entries : N) (i count : nat) : P AcpiDiscoveryResult :=
  match count with
  | 0 => mret r
  | S count =>
      let table := table_at entries i in
      r ← (if has_signature table "APIC" then
             g ← find_gicd_in_madt table (sdt_length table); mret (mkAcpi g (smmu_present r))
           else mret (if has_signature table "IORT" then mkAcpi (ac_gicd_base r) true else r));
      acpi_among r entries (S i) count
  end.

Definition acpi_discover (rsdp_phys : N) : P AcpiDiscoveryResult :=
  e ← xsdt_entries rsdp_phys;
  match e with
  | Some (count, entries) => acpi_among (mkAcpi None false) entries 0 count
  | None => mret (mkAcpi None false)
  end.

(** ** The memory of a machine *)

Definition set_behind_iommu (r : MemoryRegionRaw) : MemoryRegionRaw :=
  mkMemoryRegion (base_addr r) (length_bytes r) (mrr_kind r) true.

(** [for region in regions.iter_mut().take(count)] *)
Definition mark_behind_iommu (present : bool) (count : nat) (l : list MemoryRegionRaw) : list MemoryRegionRaw :=
  if present then (set_behind_iommu <$> take count l) ++ drop count l else l.

Record UefiMemory := mkUefiMemory {
  um_regions : list MemoryRegionRaw;
  um_region_count : nat;
  um_dropped_region_count : N;
  um_iommu_present : bool;
}.

(** The part that the two files share: header, regions and the address of the RSDP. *)
Definition parse_map (map_addr : N) : P (MapRegions * N) :=
  let header := read_map_header map_addr in
  let iter := mkIter (map_addr + MAP_HEADER_BYTES) (map_size header) (descriptor_size header) in
  st ← add_descriptors no_regions (descriptors iter);
  rsdp ← locate_acpi_rsdp map_addr header;
  mret (st, rsdp).

Definition made_memory (st : MapRegions) (iommu : bool) : UefiMemory :=
  mkUefiMemory (mark_behind_iommu iommu (mr_count st) (mr_regions st)) (mr_count st) (mr_dropped st) iommu.

(** x86_64: with the address of the RSDP. *)
Definition from_uefi_memory_map_x86 (map_addr : N) : P (UefiMemory * N) :=
  '(st, rsdp) ← parse_map map_addr;
  iommu ← acpi_dmar_present rsdp;
  mret (made_memory st iommu, rsdp).

Definition QEMU_VIRT_DEFAULT_GICD_BASE : N := 134217728.

(** arm64: with the base of the interrupt distributor. *)
Definition from_uefi_memory_map_arm64 (map_addr : N) : P (UefiMemory * N) :=
  '(st, rsdp) ← parse_map map_addr;
  acpi ← acpi_discover rsdp;
  mret (made_memory st (smmu_present acpi), default QEMU_VIRT_DEFAULT_GICD_BASE (ac_gicd_base acpi)).
End firmware.

Definition uefi_memory_map (m : UefiMemory) : list MemoryRegionRaw := take (um_region_count m) (um_regions m).

(** Every entry that is passed over has a length: as much fuel as there are bytes left
    is enough. *)
Lemma madt_enough mem madt length offset fuel more :
  N.to_nat length ≤ N.to_nat offset + fuel →
  gicd_from mem (fuel + more) madt length offset = gicd_from mem fuel madt length offset.
Proof.
  revert offset. induction fuel as [|fuel IH]; intros offset Hf; simpl.
  - destruct more; [done|]. simpl. by rewrite (proj2 (N.ltb_ge _ _)) by lia.
  - destruct (offset <? length)%N; [|done].
    destruct (checked_add U64 madt offset) as [a|]; simpl; [|done].
    destruct (checked_add U64 a 1) as [a1|]; simpl; [|done].
    destruct (cell mem a =? MADT_GIC_DISTRIBUTOR_TYPE)%N; [done|].
    destruct (N.eqb_spec (cell mem a1) 0); [done|].
    unfold checked_add. destruct (_ <? U32)%N; simpl; [|done]. apply IH. lia.
Qed.
