(* ===== verification/Service.v ===== *)
(** * Services behind a shared message page

    Every service process of [subsystems/] has the same loop: receive, read the
    request from the shared message page, decode it, handle it, encode the
    response, write it to the page, reply.  Here it is written once, for any
    [Service]: a state, the two types of its protocol, its [handle_request] and
    the response to a message that does not decode.  [ServiceSpec] is what a
    service promises about its handler; the theorems of this file are proved from
    it, and each service of the following files is an instance.

    The page is 56 bytes: the label and six words, the same on both sides
    ([read_shared_message] of the services, [read_shared_fs_message] and its
    siblings in [kernel-arch-glue/src/lib.rs]).  The switch between the two
    processes is the [Call]/[Reply] of [System]. *)

From S2P Require Import Prelude Capability Ipc Protocol.

(** ** The shared page *)

Record Page := mkPage { pg_label : N; pg_words : list N }.

(** The array holds words of 64 bits. *)
Record page_wf (p : Page) : Prop := {
  pg_length : length (pg_words p) = MSG_MAX_WORDS;
  pg_u64 : Forall (λ x, u64 x) (pg_words p);
}.

Definition read_shared_message (p : Page) : SmallMessage :=
  match from_words (pg_label p) (pg_words p) with
  | inr m => m
  | inl _ => msg_new (pg_label p)
  end.

(** [None]: [msg.words()] out of range. *)
Definition write_shared_message (msg : SmallMessage) : option Page :=
  w ← words msg;
  Some (mkPage (msg_label msg) ((λ i, default 0%N (w !! i)) <$> seq 0 MSG_MAX_WORDS)).

(** ** Services

    Bulk data travels in a shared region next to the page; [sv_put] is the
    client's write to it before a call and [sv_get] what the client finds there
    afterwards.  A service without such a region has [unit] for [sv_data]. *)

Record Service := mkService {
  sv_state : Type;
  sv_data : Type;
  sv_req : Proto;
  sv_resp : Proto;
  sv_data_ok : sv_data → Prop;
  sv_put : sv_data → sv_state → sv_state;
  sv_get : sv_state → sv_data;
  sv_handle : payload sv_req → M sv_state Empty_set (payload sv_resp);
  sv_error : payload sv_resp;
}.

Section service.
Context {FB : FlagBits}.

(** One round of the loop of [subsystem_main]. *)
Definition serve (S : Service) : M (sv_state S * Page) Empty_set unit :=
  req_msg ← gets (λ s, read_shared_message s.2);
  resp ← match decode (sv_req S) req_msg with
         | Ok req => zoom fst (λ t s, (t, s.2)) (sv_handle S req)
         | Err _ => mret (sv_error S)
         | Panic => panic
         end;
  p ← unwrap (encode (sv_resp S) resp ≫= write_shared_message);
  modify (λ s, (s.1, p)).

(** The client's half: the [*_call] functions of the kernel glue write the
    request, the [*_result] functions decode what is on the page afterwards. *)
Definition send (S : Service) (req : payload (sv_req S))
    : M (sv_state S * Page) Empty_set unit :=
  p ← unwrap (encode (sv_req S) req ≫= write_shared_message);
  modify (λ s, (s.1, p)).

Definition result (S : Service) (p : Page) : outcome DecodeError (payload (sv_resp S)) :=
  decode (sv_resp S) (read_shared_message p).

Abbreviation Request S := (sv_data S * payload (sv_req S))%type.
Abbreviation Response S := (payload (sv_resp S) * sv_data S)%type.

Definition call (S : Service) (q : Request S)
    : M (sv_state S * Page) Empty_set (outcome DecodeError (payload (sv_resp S)) * sv_data S) :=
  _ ← modify (λ s, (sv_put S q.1 s.1, s.2));
  _ ← send S q.2;
  _ ← serve S;
  gets (λ s, (result S s.2, sv_get S s.1)).

(** The same without messages. *)
Definition handle (S : Service) (q : Request S) : M (sv_state S) Empty_set (Response S) :=
  _ ← modify (sv_put S q.1);
  resp ← sv_handle S q.2;
  gets (λ s, (resp, sv_get S s)).

Fixpoint sequence {St A B} (f : A → M St Empty_set B) (l : list A) : M St Empty_set (list B) :=
  match l with
  | [] => mret []
  | x :: l => y ← f x; ys ← sequence f l; mret (y :: ys)
  end.

Definition calls (S : Service) := sequence (call S).
Definition handle_all (S : Service) := sequence (handle S).

Definition request_ok (S : Service) (q : Request S) : Prop :=
  sv_data_ok S q.1 ∧ in_range (sv_req S) q.2.

(** The client decoded the response. *)
Definition decoded {S : Service} (r : Response S)
    : outcome DecodeError (payload (sv_resp S)) * sv_data S := (Ok r.1, r.2).
End service.

(** What a service promises: its handler keeps the invariant and answers within
    the range of the protocol, unless it panics. *)
Class ServiceSpec (S : Service) (I : sv_state S → Prop) : Prop := {
  sv_handle_ok req s : in_range (sv_req S) req → I s →
    wp (sv_handle S req) (λ r s', match r with
                                  | Ok resp => in_range (sv_resp S) resp ∧ I s'
                                  | _ => True
                                  end) s;
  sv_put_ok d s : sv_data_ok S d → I s → I (sv_put S d s);
  sv_error_ok : in_range (sv_resp S) (sv_error S);
}.

(** ** The page carries messages *)

Lemma pad_words (w : list N) n :
  length w ≤ n →
  ((λ i, default 0%N (w !! i)) <$> seq 0 n) = w ++ replicate (n - length w) 0%N.
Proof.
  intros Hn. apply list_eq. intros i. rewrite list_lookup_fmap.
  destruct (decide (i < n)) as [Hi|Hi].
  - rewrite lookup_seq_lt by done. simpl. destruct (decide (i < length w)) as [Hw|Hw].
    + destruct (lookup_lt_is_Some_2 w i Hw) as [x Hx]. rewrite lookup_app_l, Hx by done. done.
    + rewrite lookup_app_r, lookup_ge_None_2 by lia. simpl.
      symmetry. apply lookup_replicate_2. lia.
  - rewrite lookup_seq_ge, lookup_ge_None_2 by (rewrite ?length_app, ?length_replicate; lia). done.
Qed.

Lemma read_shared_wf p : page_wf p →
  let m := read_shared_message p in
  msg_wf m ∧ msg_label m = pg_label p ∧ words m = Some (pg_words p) ∧
  Forall (λ x, u64 x) (msg_words m).
Proof.
  intros [Hl Hu]. unfold read_shared_message.
  destruct (from_words_spec (pg_label p) (pg_words p)) as (m & Hm & ? & ? & ?); [lia|].
  rewrite Hm. split_and!; try done.
  unfold from_words in Hm. rewrite Hl in Hm. simpl in Hm. injection Hm as <-.
  simpl. by rewrite app_nil_r.
Qed.

Section codec.
Context {FB : FlagBits} {FBS : FlagBitsSpec FB}.

(** Encoding into the page and decoding from it. *)
Lemma page_roundtrip p (r : payload p) :
  in_range p r →
  ∃ pg, (encode p r ≫= write_shared_message) = Some pg ∧ page_wf pg ∧
        decode p (read_shared_message pg) = Ok r.
Proof.
  intros Hr. destruct (encode_packs p r Hr) as (op & ws & n & -> & Hop & Hn & Hws & Hdec).
  destruct (pack_opens (proto_ns p) op ws n Hop Hn) as (m & -> & Hm & Hl & Hw & _).
  assert (length (take n ws) ≤ MSG_MAX_WORDS) as Hlen by (rewrite length_take; lia).
  unfold write_shared_message. simpl. rewrite Hw. simpl. eexists. split; [done|].
  change (default 0%N (take n ws !! 0) :: _) with
    ((λ i, default 0%N (take n ws !! i)) <$> seq 0 MSG_MAX_WORDS).
  rewrite pad_words by done. rewrite Hl.
  match goal with |- page_wf ?q ∧ _ => assert (page_wf q) as Hp end.
  { split; simpl.
    - rewrite length_app, length_replicate. lia.
    - apply Forall_app. split; [by apply Forall_take|]. by apply Forall_replicate. }
  split; [done|]. eapply Hdec.
  destruct (read_shared_wf _ Hp) as (_ & Hlab & Hwords & _). simpl in Hlab, Hwords.
  unfold open_msg. rewrite Hlab, Hwords.
  destruct (label_fields (proto_ns p) op Hop) as (-> & -> & _).
  by rewrite decide_True.
Qed.

(** Whatever is on the page, decoding it does not panic, and a request it holds
    is in range. *)
Lemma page_decode p pg : page_wf pg →
  match decode p (read_shared_message pg) with
  | Ok r => in_range p r
  | Err _ => True
  | Panic => False
  end.
Proof.
  intros Hp. destruct (read_shared_wf _ Hp) as (_ & _ & Hw & _). destruct Hp as [_ Hu].
  destruct (decode_open p) as (body & -> & Hb). specialize (Hb (label_parts (msg_label
    (read_shared_message pg))).2 _ Hu). revert Hb. unfold body_post.
  destruct (open_msg_cases (proto_ns p) _ _ Hw) as [[_ ->]|[_ [[_ ->]|[_ ->]]]]; [done..|].
  simpl. destruct (body _ _) as [|[]|]; simpl; naive_solver.
Qed.
End codec.

(** ** The contract of the loop *)

Section contract.
Context {FB : FlagBits} {FBS : FlagBitsSpec FB} (S : Service) (I : sv_state S → Prop).
Context {SS : ServiceSpec S I}.

Lemma serve_after_decode s p req :
  decode (sv_req S) (read_shared_message p) = Ok req → in_range (sv_req S) req → I s →
  match sv_handle S req s with
  | (Ok resp, s') => ∃ p', serve S (s, p) = (Ok tt, (s', p')) ∧ I s' ∧ page_wf p' ∧
      result S p' = Ok resp ∧ in_range (sv_resp S) resp
  | (_, s') => serve S (s, p) = (Panic, (s', p))
  end.
Proof using FBS SS.
  intros Hd Hr Hs. pose proof (sv_handle_ok req s Hr Hs) as H. unfold wp in H.
  unfold serve. rewrite run_bind. cbn [gets snd]. rewrite Hd, run_bind. unfold zoom.
  cbn [fst snd].
  destruct (sv_handle S req s) as [[resp|[]|] s']; [|done]. cbn [fst snd] in *.
  destruct H as [Hresp HI]. destruct (page_roundtrip _ _ Hresp) as (p' & Hp & Hp' & Hdec).
  exists p'. by rewrite run_bind, Hp.
Qed.

(** Serving a page with anything on it keeps the invariant; it answers with a
    value the client decodes, or panics where the handler does. *)
Lemma serve_any s p :
  page_wf p → I s →
  wp (serve S) (λ r s',
    match r with
    | Ok _ => I s'.1 ∧ page_wf s'.2 ∧
        ∃ resp, result S s'.2 = Ok resp ∧ in_range (sv_resp S) resp
    | _ => ∃ req, decode (sv_req S) (read_shared_message p) = Ok req ∧
        (sv_handle S req s).1 = Panic
    end) (s, p).
Proof using FBS SS.
  intros Hp Hs. unfold wp. pose proof (page_decode (sv_req S) p Hp) as Hd.
  destruct (decode (sv_req S) (read_shared_message p)) as [req|e|] eqn:E; [|clear Hd|done].
  - pose proof (serve_after_decode s p req E Hd Hs) as H.
    destruct (sv_handle S req s) as [[resp|[]|] s'] eqn:Eh; [|].
    + destruct H as (p' & -> & HI & Hp' & Hres & Hr). simpl. eauto.
    + rewrite H. simpl. exists req. by rewrite Eh.
  - destruct (page_roundtrip _ _ sv_error_ok) as (p' & Hp1 & Hp2 & Hp3).
    unfold serve. rewrite run_bind. cbn [gets snd]. rewrite E, run_bind. cbn [mret M_ret].
    rewrite run_bind, Hp1. simpl.
    split_and!; [done|done|]. exists (sv_error S). split; [done|apply sv_error_ok].
Qed.

(** One call is one run of the handler. *)
Lemma call_handle s p q :
  request_ok S q → I s →
  match handle S q s with
  | (Ok r, s') => ∃ p', call S q (s, p) = (Ok (decoded r), (s', p')) ∧ I s'
  | (_, s') => ∃ p', call S q (s, p) = (Panic, (s', p'))
  end.
Proof using FBS SS.
  intros [Hd Hr] Hs. destruct q as [d req]. simpl in Hd, Hr.
  pose proof (sv_put_ok d s Hd Hs) as Hs1.
  destruct (page_roundtrip _ _ Hr) as (p1 & Hp1 & _ & Hdec).
  pose proof (serve_after_decode (sv_put S d s) p1 req Hdec Hr Hs1) as H.
  unfold call, handle, send. rewrite !run_bind. cbn [unwrap mret M_ret modify fst snd].
  rewrite Hp1, !run_bind. cbn [unwrap mret M_ret modify fst snd]. rewrite run_bind.
  destruct (sv_handle S req (sv_put S d s)) as [[resp|[]|] s'].
  - destruct H as (p' & -> & HI & _ & Hres & _). unfold gets. cbn [fst snd].
    exists p'. by rewrite Hres.
  - rewrite H. by exists p1.
Qed.

(** A run of calls is a run of the handler. *)
Lemma calls_outcome qs s p :
  Forall (request_ok S) qs → I s →
  match handle_all S qs s with
  | (Ok rs, s') => ∃ p', calls S qs (s, p) = (Ok (decoded <$> rs), (s', p')) ∧ I s'
  | (_, s') => ∃ p', calls S qs (s, p) = (Panic, (s', p'))
  end.
Proof using FBS SS.
  unfold calls, handle_all. intros Hr. revert s p.
  induction Hr as [|q qs Hq _ IH]; intros s p Hs; simpl.
  { by exists p. }
  pose proof (call_handle s p q Hq Hs) as Hc. rewrite !run_bind.
  destruct (handle S q s) as [[r|[]|] s'].
  - destruct Hc as (p1 & -> & HI). specialize (IH s' p1 HI).
    rewrite !run_bind. destruct (sequence (handle S) qs s') as [[rs|[]|] s2].
    + destruct IH as (p' & -> & ?). by exists p'.
    + destruct IH as (p' & ->). by exists p'.
  - destruct Hc as (p1 & ->). by exists p1.
Qed.
End contract.

(** ** Services that implement a specification

    [step a q r a'] is an abstract service and [R] relates the states of the
    service to its states; [Implements] says that every run of the handler that
    returns is a step of it.  A client then sees runs of the abstract service. *)

Class Implements (S : Service) {A} (R : sv_state S → A → Prop)
    (step : A → sv_data S * payload (sv_req S) → payload (sv_resp S) * sv_data S → A → Prop)
    : Prop :=
  sv_refines q r s s' a : request_ok S q → R s a → handle S q s = (Ok r, s') →
    ∃ a', step a q r a' ∧ R s' a'.

Inductive spec_run {A Q R} (step : A → Q → R → A → Prop) : A → list Q → list R → A → Prop :=
| spec_nil a : spec_run step a [] [] a
| spec_cons a q r a' qs rs a'' :
    step a q r a' → spec_run step a' qs rs a'' → spec_run step a (q :: qs) (r :: rs) a''.

Lemma handle_all_simulate S {A} (R : sv_state S → A → Prop) step
    {SI : Implements S R step} qs s a rs s' :
  Forall (request_ok S) qs → R s a → handle_all S qs s = (Ok rs, s') →
  ∃ a', spec_run step a qs rs a' ∧ R s' a'.
Proof.
  unfold handle_all. intros Hq. revert s a rs.
  induction Hq as [|q qs Hq _ IH]; intros s a rs HR; simpl.
  { intros [= <- <-]. exists a. split; [constructor|done]. }
  rewrite run_bind. destruct (handle S q s) as [[r|[]|] s1] eqn:Eh; [|done].
  rewrite run_bind. destruct (sequence (handle S) qs s1) as [[rs1|[]|] s2] eqn:Es; [|done].
  intros [= <- <-]. destruct (sv_refines q r s s1 a Hq HR Eh) as (a1 & Hst & HR1).
  destruct (IH s1 a1 rs1 HR1 Es) as (a2 & Hrun & HR2).
  exists a2. split; [|done]. by eapply spec_cons.
Qed.

Lemma calls_simulate {FB : FlagBits} {FBS : FlagBitsSpec FB} S I {SS : ServiceSpec S I}
    {A} (R : sv_state S → A → Prop) step {SI : Implements S R step} qs s a p rs s' p' :
  Forall (request_ok S) qs → I s → R s a →
  calls S qs (s, p) = (Ok rs, (s', p')) →
  ∃ rs' a', rs = decoded <$> rs' ∧ spec_run step a qs rs' a' ∧ R s' a' ∧ I s'.
Proof.
  intros Hq Hs HR Hc. pose proof (calls_outcome S I qs s p Hq Hs) as H.
  destruct (handle_all S qs s) as [[rs1|[]|] s1] eqn:Eh.
  - destruct H as (p1 & H & HI). rewrite Hc in H. injection H as -> -> ->.
    destruct (handle_all_simulate S R step qs s a rs1 s1 Hq HR Eh) as (a1 & ? & ?).
    by exists rs1, a1.
  - destruct H as (p1 & H). by rewrite Hc in H.
Qed.

(** A run that stops does so at a request on which the handler panics. *)
Lemma handle_all_stops S qs s s' :
  handle_all S qs s = (Panic, s') →
  ∃ before q after rs s1, qs = before ++ q :: after ∧
    handle_all S before s = (Ok rs, s1) ∧ handle S q s1 = (Panic, s').
Proof.
  unfold handle_all. revert s. induction qs as [|q qs IH]; intros s; simpl; [done|]. run.
  destruct (handle S q s) as [[r|[]|] s1] eqn:Eh; [|intros [= <-]; by exists [], q, qs, [], s]. run.
  destruct (sequence (handle S) qs s1) as [[rs1|[]|] s2] eqn:Es; [done|]. intros [= <-].
  destruct (IH s1 Es) as (before & q' & after & rs & s3 & -> & Hb & Hq).
  exists (q :: before), q', after, (r :: rs), s3. split_and!; [done| |done].
  simpl. run. rewrite Eh. run. by rewrite Hb.
Qed.

(** The simulation, with what is known of a run that stops. *)
Lemma calls_simulate_total {FB : FlagBits} {FBS : FlagBitsSpec FB} S I {SS : ServiceSpec S I}
    {A} (R : sv_state S → A → Prop) step {SI : Implements S R step} qs s a p :
  Forall (request_ok S) qs → I s → R s a →
  match calls S qs (s, p) with
  | (Ok rs, (s', _)) => ∃ rs' a', rs = decoded <$> rs' ∧ spec_run step a qs rs' a' ∧ R s' a'
  | (_, (s', _)) => ∃ before q after rs' s1 a1, qs = before ++ q :: after ∧
      spec_run step a before rs' a1 ∧ I s1 ∧ R s1 a1 ∧ handle S q s1 = (Panic, s')
  end.
Proof.
  intros Hq Hs HR. pose proof (calls_outcome S I qs s p Hq Hs) as H.
  destruct (handle_all S qs s) as [[rs1|[]|] s1] eqn:Eh; destruct H as (p1 & H).
  - destruct H as [-> _]. destruct (handle_all_simulate S R step qs s a rs1 s1 Hq HR Eh) as (a1 & ? & ?).
    by exists rs1, a1.
  - rewrite H. destruct (handle_all_stops S qs s s1 Eh) as (before & q & after & rs & s2 & -> & Hb & Hp).
    apply Forall_app in Hq as [Hq _].
    destruct (handle_all_simulate S R step before s a rs s2 Hq HR Hb) as (a2 & ? & ?).
    pose proof (calls_outcome S I before s p Hq Hs) as Ho. rewrite Hb in Ho. destruct Ho as (? & _ & ?).
    by exists before, q, after, rs, s2, a2.
Qed.

(** A bound on the number of requests below which a service answers. *)
Lemma handle_all_returns S (J : nat → sv_state S → Prop) n :
  (∀ k q s, k < n → request_ok S q → J k s → ∃ r s', handle S q s = (Ok r, s') ∧ J (1 + k) s') →
  ∀ qs k s, k + length qs ≤ n → Forall (request_ok S) qs → J k s →
  ∃ rs s', handle_all S qs s = (Ok rs, s').
Proof.
  intros Hstep. unfold handle_all. induction qs as [|q qs IH]; intros k s Hk Hq HJ; simpl; [eauto|].
  apply Forall_cons in Hq as [Hq Hqs]. simpl in Hk.
  destruct (Hstep k q s) as (r & s1 & Hr & HJ1); [lia|done|done|].
  destruct (IH (1 + k) s1) as (rs & s2 & H); [lia|done|done|].
  run. rewrite Hr. run. rewrite H. run. eauto.
Qed.

(** A functional specification, panics included. *)
Class ImplementsExactly (S : Service) {A} (R : sv_state S → A → Prop)
    (spec : sv_data S * payload (sv_req S) →
            M A Empty_set (payload (sv_resp S) * sv_data S)) : Prop :=
  sv_exact q s a : request_ok S q → R s a →
    (handle S q s).1 = (spec q a).1 ∧
    ((spec q a).1 ≠ Panic → R (handle S q s).2 (spec q a).2).

Lemma handle_all_exact S {A} (R : sv_state S → A → Prop) spec
    {SI : ImplementsExactly S R spec} qs s a :
  Forall (request_ok S) qs → R s a →
  (handle_all S qs s).1 = (sequence spec qs a).1 ∧
  ((sequence spec qs a).1 ≠ Panic → R (handle_all S qs s).2 (sequence spec qs a).2).
Proof.
  unfold handle_all. intros Hq. revert s a. induction Hq as [|q qs Hq _ IH]; intros s a HR; simpl.
  { by split. }
  destruct (sv_exact q s a Hq HR) as [Heq HR1]. run.
  destruct (handle S q s) as [r s1], (spec q a) as [r' a1]. simpl in *. subst r'.
  destruct r as [r|[]|]; [|by split].
  destruct (IH s1 a1 (HR1 ltac:(done))) as [Heq2 HR2]. run.
  destruct (sequence (handle S) qs s1) as [rs s2], (sequence spec qs a1) as [rs' a2].
  simpl in *. subst rs'. destruct rs as [rs|[]|]; split; try done. intros _. by apply HR2.
Qed.

(** C11 Refinement: a client that sends its requests as messages over the shared
    page, one after the other, gets exactly the responses, and leaves exactly
    the service state, that handling the requests in place would give; a panic
    of the handler is the only way in which a call does not return.  Whatever
    else the page holds, a round of the loop keeps the invariant and leaves a
    response which the client decodes, unless the handler panics on a request
    that the page encodes. *)
Theorem calls_refine {FB : FlagBits} {FBS : FlagBitsSpec FB} S I {SS : ServiceSpec S I} s :
  I s →
  (∀ qs p, Forall (request_ok S) qs →
    match handle_all S qs s with
    | (Ok rs, s') => ∃ p', calls S qs (s, p) = (Ok (decoded <$> rs), (s', p')) ∧ I s'
    | (_, s') => ∃ p', calls S qs (s, p) = (Panic, (s', p'))
    end) ∧
  (∀ p, page_wf p →
    let '(r, (s', p')) := serve S (s, p) in
    match r with
    | Ok _ => I s' ∧ page_wf p' ∧ ∃ resp, result S p' = Ok resp ∧ in_range (sv_resp S) resp
    | _ => ∃ req, decode (sv_req S) (read_shared_message p) = Ok req ∧
        (sv_handle S req s).1 = Panic
    end).
Proof.
  intros Hs. split; [intros; by apply calls_outcome|].
  intros p Hp. pose proof (serve_any S I s p Hp Hs) as H. unfold wp in H.
  by destruct (serve S (s, p)) as [[] []].
Qed.
