(* ===== verification/MmService.v ===== *)
(** * The memory service

    [mm-service/src/lib.rs]: which process to reclaim from under memory pressure,
    which region to swap out, which compute pool serves an allocation, each from
    a registry the clients fill; [subsystem_entry.rs]: the requests of
    [ipc_protocol::mm] served from the three registries.

    A registry is a [Vec] with at most one entry per key; [reg_map] is the finite
    map it stands for.  The decisions are shown to be optimal for a total order on
    the entries, so they do not depend on the order of registration. *)

From stdpp Require Import gmap.
From Stdlib Require Import ZifyBool.
From S2P Require Import Prelude Registry Capability Ipc Protocol Manifest Service.

(** ** Memory pressure *)

Inductive ReclaimClass := Protected | Normal | Sacrificial.

Record ProcMemInfo := mkProcMemInfo {
  thread : N;
  resident_bytes : N;
  class : ReclaimClass;
}.

#[export] Instance ReclaimClass_eq_dec : EqDecision ReclaimClass.
Proof. solve_decision. Defined.

(** [b] replaces [a] in [best_by_footprint]. *)
Definition footprint_wins (a b : ProcMemInfo) : bool :=
  (resident_bytes a <? resident_bytes b)%N
  || (resident_bytes b =? resident_bytes a)%N && (thread b <? thread a)%N.

Definition best_by_footprint : list ProcMemInfo → option ProcMemInfo := reduce footprint_wins.

(** The loop over the classes. *)
Fixpoint first_of_classes (procs : list ProcMemInfo) (classes : list ReclaimClass) : option N :=
  match classes with
  | [] => None
  | c :: classes =>
      match best_by_footprint (filter (λ p, class p = c) procs) with
      | Some p => Some (thread p)
      | None => first_of_classes procs classes
      end
  end.

Definition choose_oom_victim (procs : list ProcMemInfo) : option N :=
  first_of_classes procs [Sacrificial; Normal; Protected].

(** [sum()]; [None]: the sum does not fit a [u64]. *)
Definition total_resident (procs : list ProcMemInfo) : option N :=
  foldl (λ acc p, acc ≫= λ n, checked_add U64 n (resident_bytes p)) (Some 0%N) procs.

Definition mem_upsert (info : ProcMemInfo) : list ProcMemInfo → list ProcMemInfo :=
  upsert (λ p, thread p =? thread info)%N info.

Definition mem_remove (t : N) (procs : list ProcMemInfo) : list ProcMemInfo :=
  filter (λ p, thread p ≠ t) procs.

(** ** Swap *)

Record SwapRegion := mkSwapRegion {
  sr_thread : N;
  region_id : N;
  bytes : N;
  last_touched_ns : N;
}.

(** [<] on pairs *)
Definition key_ltb (a b : N * N) : bool :=
  (a.1 <? b.1)%N || (a.1 =? b.1)%N && (a.2 <? b.2)%N.

Definition swap_key (r : SwapRegion) : N * N := (sr_thread r, region_id r).

Definition swap_wins (a b : SwapRegion) : bool :=
  (last_touched_ns b <? last_touched_ns a)%N
  || (last_touched_ns b =? last_touched_ns a)%N && (bytes a <? bytes b)%N
  || (last_touched_ns b =? last_touched_ns a)%N && (bytes b =? bytes a)%N
     && key_ltb (swap_key b) (swap_key a).

Definition choose_swap_victim (regions : list SwapRegion) : option (N * N) :=
  swap_key <$> reduce swap_wins regions.

Definition swap_upsert (region : SwapRegion) : list SwapRegion → list SwapRegion :=
  upsert (λ r, (sr_thread r =? sr_thread region) && (region_id r =? region_id region))%N region.

Definition swap_remove (t i : N) (regions : list SwapRegion) : list SwapRegion :=
  filter (λ r, ¬ (sr_thread r = t ∧ region_id r = i)) regions.

(** ** Compute pools *)

Record ComputePool := mkComputePool {
  pool_id : N;
  kind : Manifest.ComputeKind;
  capacity_bytes : N;
  used_bytes : N;
}.

#[export] Instance ComputeKind_eq_dec : EqDecision Manifest.ComputeKind.
Proof. solve_decision. Defined.

Definition free_bytes (p : ComputePool) : N := saturating_sub (capacity_bytes p) (used_bytes p).

Definition pool_wins (a b : ComputePool) : bool :=
  (free_bytes a <? free_bytes b)%N
  || (free_bytes b =? free_bytes a)%N && (pool_id b <? pool_id a)%N.

Definition best_fit (pools : list ComputePool) (n : N) : option ComputePool :=
  reduce pool_wins (filter (λ p, n ≤ free_bytes p)%N pools).

Definition choose_compute_pool (pools : list ComputePool) (n : N)
    (preferred_kind : option Manifest.ComputeKind) : option N :=
  let any := pool_id <$> best_fit pools n in
  match preferred_kind with
  | Some k =>
      match best_fit (filter (λ p, kind p = k) pools) n with
      | Some p => Some (pool_id p)
      | None => any
      end
  | None => any
  end.

Definition pool_upsert (pool : ComputePool) : list ComputePool → list ComputePool :=
  upsert (λ p, pool_id p =? pool_id pool)%N pool.

(** ** Requests ([subsystem_entry.rs]) *)

Record State := mkState {
  mem : list ProcMemInfo;
  swap : list SwapRegion;
  pools : list ComputePool;
}.

Definition state_new : State := mkState [] [] [].

Definition set_mem f s := mkState (f (mem s)) (swap s) (pools s).
Definition set_swap f s := mkState (mem s) (f (swap s)) (pools s).
Definition set_pools f s := mkState (mem s) (swap s) (f (pools s)).

Definition from_wire_class (c : MmP.ReclaimClass) : ReclaimClass :=
  match c with
  | MmP.Protected => Protected
  | MmP.Normal => Normal
  | MmP.Sacrificial => Sacrificial
  end.

Definition from_wire_kind (k : MmP.ComputeKind) : Manifest.ComputeKind :=
  match k with
  | MmP.Cpu => Manifest.Cpu
  | MmP.Gpu => Manifest.Gpu
  | MmP.Npu => Manifest.Npu
  | MmP.Tpu => Manifest.Tpu
  | MmP.Fpga => Manifest.Fpga
  end.

Definition U32_MAX : N := U32 - 1.

Definition handle_request (req : MmP.MmRequest) : M State Empty_set MmP.MmResponse :=
  match req with
  | MmP.Register t n c =>
      _ ← modify (set_mem (mem_upsert (mkProcMemInfo t n (from_wire_class c))));
      mret MmP.Registered
  | MmP.Unregister t =>
      _ ← modify (set_mem (mem_remove t)); mret MmP.Unregistered
  | MmP.QueryVictim =>
      v ← gets (λ s, choose_oom_victim (mem s)); mret (MmP.Victim (default U32_MAX v))
  | MmP.QueryTotalResident =>
      o ← gets (λ s, total_resident (mem s)); n ← unwrap o; mret (MmP.TotalResident n)
  | MmP.RegisterSwapRegion t i n l =>
      _ ← modify (set_swap (swap_upsert (mkSwapRegion t i n l))); mret MmP.SwapRegionRegistered
  | MmP.UnregisterSwapRegion t i =>
      _ ← modify (set_swap (swap_remove t i)); mret MmP.SwapRegionUnregistered
  | MmP.QuerySwapVictim =>
      v ← gets (λ s, choose_swap_victim (swap s));
      mret match v with
           | Some (t, i) => MmP.SwapVictim t i
           | None => MmP.SwapVictim U32_MAX U32_MAX
           end
  | MmP.RegisterComputePool i k c u =>
      _ ← modify (set_pools (pool_upsert (mkComputePool i (from_wire_kind k) c u)));
      mret MmP.ComputePoolRegistered
  | MmP.QueryComputePool n k =>
      v ← gets (λ s, choose_compute_pool (pools s) n (from_wire_kind <$> k));
      mret (MmP.ComputePoolChosen (default U32_MAX v))
  end.

Definition MmService : Service := {|
  sv_state := State;
  sv_data := unit;
  sv_req := MmReq;
  sv_resp := MmResp;
  sv_data_ok _ := True;
  sv_put _ s := s;
  sv_get _ := tt;
  sv_handle := handle_request;
  sv_error := MmP.Error MmP.Unsupported;
|}.

(** ** What the service promises

    The abstract service keeps three finite maps; every decision is the best
    entry for an order. *)

(** [v] is the best of the entries that satisfy [P], none if there is none. *)
Definition is_best {K A} `{Countable K} (prefers : A → A → Prop) (P : A → Prop)
    (m : gmap K A) (v : option A) : Prop :=
  match v with
  | None => ∀ k x, m !! k = Some x → ¬ P x
  | Some x => P x ∧ (∃ k, m !! k = Some x) ∧ ∀ k y, m !! k = Some y → P y → prefers x y
  end.

Definition class_rank (c : ReclaimClass) : N :=
  match c with Protected => 0 | Normal => 1 | Sacrificial => 2 end.

(** Sacrificial before normal before protected processes; then the larger
    footprint; then the lower thread. *)
Definition oom_prefers (p q : ProcMemInfo) : Prop :=
  (class_rank (class q) < class_rank (class p) ∨
   class_rank (class q) = class_rank (class p) ∧
   (resident_bytes q < resident_bytes p ∨
    resident_bytes q = resident_bytes p ∧ thread p ≤ thread q))%N.

(** The least recently touched; then the larger; then the lower key. *)
Definition swap_prefers (p q : SwapRegion) : Prop :=
  (last_touched_ns p < last_touched_ns q ∨
   last_touched_ns p = last_touched_ns q ∧
   (bytes q < bytes p ∨
    bytes q = bytes p ∧
    (sr_thread p < sr_thread q ∨ sr_thread p = sr_thread q ∧ region_id p ≤ region_id q)))%N.

(** The most free space; then the lower identifier. *)
Definition pool_prefers (p q : ComputePool) : Prop :=
  (free_bytes q < free_bytes p ∨ free_bytes q = free_bytes p ∧ pool_id p ≤ pool_id q)%N.

Definition pool_fits (n : N) (p : ComputePool) : Prop := (n ≤ free_bytes p)%N.

#[export] Instance pool_fits_dec n p : Decision (pool_fits n p).
Proof. unfold pool_fits. apply _. Defined.

Record MmSpec := mkMmSpec {
  m_mem : gmap N ProcMemInfo;
  m_swap : gmap (N * N) SwapRegion;
  m_pools : gmap N ComputePool;
}.

Definition total_of (m : gmap N ProcMemInfo) : N :=
  foldr (λ p acc, resident_bytes p + acc)%N 0%N (map_to_list m).*2.

Inductive mm_step : MmSpec → MmP.MmRequest → MmP.MmResponse → MmSpec → Prop :=
| step_register a t n c :
    mm_step a (MmP.Register t n c) MmP.Registered
      (mkMmSpec (<[t := mkProcMemInfo t n (from_wire_class c)]> (m_mem a)) (m_swap a) (m_pools a))
| step_unregister a t :
    mm_step a (MmP.Unregister t) MmP.Unregistered
      (mkMmSpec (delete t (m_mem a)) (m_swap a) (m_pools a))
| step_victim a v :
    is_best oom_prefers (λ _, True) (m_mem a) v →
    mm_step a MmP.QueryVictim (MmP.Victim (default U32_MAX (thread <$> v))) a
| step_total a :
    mm_step a MmP.QueryTotalResident (MmP.TotalResident (total_of (m_mem a))) a
| step_swap_register a t i n l :
    mm_step a (MmP.RegisterSwapRegion t i n l) MmP.SwapRegionRegistered
      (mkMmSpec (m_mem a) (<[(t, i) := mkSwapRegion t i n l]> (m_swap a)) (m_pools a))
| step_swap_unregister a t i :
    mm_step a (MmP.UnregisterSwapRegion t i) MmP.SwapRegionUnregistered
      (mkMmSpec (m_mem a) (delete (t, i) (m_swap a)) (m_pools a))
| step_swap_victim a v :
    is_best swap_prefers (λ _, True) (m_swap a) v →
    mm_step a MmP.QuerySwapVictim
      (let '(t, i) := default (U32_MAX, U32_MAX) (swap_key <$> v) in MmP.SwapVictim t i) a
| step_pool_register a i k c u :
    mm_step a (MmP.RegisterComputePool i k c u) MmP.ComputePoolRegistered
      (mkMmSpec (m_mem a) (m_swap a)
        (<[i := mkComputePool i (from_wire_kind k) c u]> (m_pools a)))
| step_pool_preferred a n k p :
    is_best pool_prefers (λ p, kind p = from_wire_kind k ∧ pool_fits n p) (m_pools a) (Some p) →
    mm_step a (MmP.QueryComputePool n (Some k)) (MmP.ComputePoolChosen (pool_id p)) a
| step_pool_any a n k v :
    (∀ k', k = Some k' →
      is_best pool_prefers (λ p, kind p = from_wire_kind k' ∧ pool_fits n p) (m_pools a) None) →
    is_best pool_prefers (pool_fits n) (m_pools a) v →
    mm_step a (MmP.QueryComputePool n k)
      (MmP.ComputePoolChosen (default U32_MAX (pool_id <$> v))) a.

(** The invariant of the registries, and the maps they stand for. *)
Record mm_inv (s : State) : Prop := {
  mi_mem : NoDup (thread <$> mem s);
  mi_swap : NoDup (swap_key <$> swap s);
  mi_pools : NoDup (pool_id <$> pools s);
  mi_threads : Forall (λ p, u32 (thread p)) (mem s);
  mi_regions : Forall (λ r, u32 (sr_thread r) ∧ u32 (region_id r)) (swap s);
  mi_ids : Forall (λ p, u32 (pool_id p)) (pools s);
}.

Definition mm_abs (s : State) : MmSpec :=
  mkMmSpec (reg_map thread (mem s)) (reg_map swap_key (swap s)) (reg_map pool_id (pools s)).

(** ** The decisions are optimal *)

Lemma footprint_order :
  (∀ a b, footprint_wins a b = true → footprint_wins b a = false) ∧
  (∀ a b c, footprint_wins a b = false → footprint_wins b c = false →
    footprint_wins a c = false) ∧
  (∀ a b, class a = class b → footprint_wins a b = false → oom_prefers a b).
Proof.
  unfold footprint_wins, oom_prefers. split_and!; try (intros; lia).
  intros a b H1 H2. rewrite H1. right. lia.
Qed.

Lemma swap_order :
  (∀ a b, swap_wins a b = true → swap_wins b a = false) ∧
  (∀ a b c, swap_wins a b = false → swap_wins b c = false → swap_wins a c = false) ∧
  (∀ a b, swap_wins a b = false → swap_prefers a b).
Proof. unfold swap_wins, swap_prefers, key_ltb, swap_key. simpl. split_and!; intros; lia. Qed.

Lemma pool_order :
  (∀ a b, pool_wins a b = true → pool_wins b a = false) ∧
  (∀ a b c, pool_wins a b = false → pool_wins b c = false → pool_wins a c = false) ∧
  (∀ a b, pool_wins a b = false → pool_prefers a b).
Proof. unfold pool_wins, pool_prefers. split_and!; intros; lia. Qed.

Lemma reduce_is_best {K A} `{Countable K} (key : A → K) wins (prefers : A → A → Prop)
    (P : A → Prop) `{∀ x, Decision (P x)} v :
  (∀ a b, wins a b = true → wins b a = false) →
  (∀ a b c, wins a b = false → wins b c = false → wins a c = false) →
  (∀ a b, P a → P b → wins a b = false → prefers a b) →
  NoDup (key <$> v) →
  is_best prefers P (reg_map key v) (reduce wins (filter P v)).
Proof.
  intros Hasym Htrans Hpref Hnd. destruct (reduce wins (filter P v)) as [x|] eqn:E; simpl.
  - destruct (reduce_best wins Hasym Htrans _ _ E) as [[HP Hx]%list_elem_of_filter Hb].
    split_and!; [done|exists (key x); by apply reg_map_elem|].
    intros k y [Hy _]%reg_map_lookup HPy; [|done]. apply Hpref; [done..|].
    apply Hb. by apply list_elem_of_filter.
  - apply reduce_None in E. intros k x [Hx _]%reg_map_lookup HP; [|done].
    assert (x ∈ filter P v) as Hf by by apply list_elem_of_filter.
    rewrite E in Hf. by apply not_elem_of_nil in Hf.
Qed.

Lemma choose_oom_victim_best v :
  NoDup (thread <$> v) →
  ∃ p, choose_oom_victim v = thread <$> p ∧
       is_best oom_prefers (λ _, True) (reg_map thread v) p.
Proof.
  intros Hnd. destruct footprint_order as (Hasym & Htrans & Hpref).
  assert (∀ c, is_best oom_prefers (λ p, class p = c) (reg_map thread v)
    (reduce footprint_wins (filter (λ p, class p = c) v))) as Hbest.
  { intros c. apply reduce_is_best; try done. intros a b Ha Hb.
    apply Hpref. by rewrite Ha, Hb. }
  pose proof (Hbest Sacrificial) as HS. pose proof (Hbest Normal) as HN.
  pose proof (Hbest Protected) as HP. clear Hbest.
  unfold choose_oom_victim. simpl. unfold best_by_footprint.
  destruct (reduce _ (filter (λ p, class p = Sacrificial) v)) as [p|].
  { exists (Some p). destruct HS as (Hc & Hp & Hb). split; [done|]. do 2 (split; [done|]).
    intros k y Hy _. destruct (class y) eqn:Hy2; [..|by eapply Hb];
      left; rewrite Hc, Hy2; simpl; lia. }
  destruct (reduce _ (filter (λ p, class p = Normal) v)) as [p|].
  { exists (Some p). destruct HN as (Hc & Hp & Hb). split; [done|]. do 2 (split; [done|]).
    intros k y Hy _. destruct (class y) eqn:Hy2; [|by eapply Hb|by edestruct HS].
    left; rewrite Hc, Hy2; simpl; lia. }
  destruct (reduce _ (filter (λ p, class p = Protected) v)) as [p|].
  { exists (Some p). destruct HP as (Hc & Hp & Hb). split; [done|]. do 2 (split; [done|]).
    intros k y Hy _. destruct (class y) eqn:Hy2; [by eapply Hb|by edestruct HN|by edestruct HS]. }
  exists None. split; [done|]. intros k y Hy _.
  destruct (class y) eqn:Hy2; [by edestruct HP|by edestruct HN|by edestruct HS].
Qed.

Lemma choose_swap_victim_best v :
  NoDup (swap_key <$> v) →
  ∃ p, choose_swap_victim v = swap_key <$> p ∧
       is_best swap_prefers (λ _, True) (reg_map swap_key v) p.
Proof.
  intros Hnd. destruct swap_order as (Hasym & Htrans & Hpref).
  exists (reduce swap_wins v). split; [done|].
  replace v with (filter (λ _ : SwapRegion, True) v) at 2; [by apply reduce_is_best; auto|].
  clear. induction v as [|x v IH]; [done|]. by rewrite filter_cons_True, IH.
Qed.

Lemma best_fit_best v n (P : ComputePool → Prop) `{∀ x, Decision (P x)} :
  NoDup (pool_id <$> v) →
  is_best pool_prefers (λ p, P p ∧ pool_fits n p) (reg_map pool_id v) (best_fit (filter P v) n).
Proof.
  intros Hnd. destruct pool_order as (Hasym & Htrans & Hpref). unfold best_fit.
  rewrite list_filter_filter.
  rewrite (list_filter_iff _ (λ p, P p ∧ pool_fits n p)) by (unfold pool_fits; naive_solver).
  apply reduce_is_best; auto.
Qed.

Lemma choose_compute_pool_step a v n k :
  NoDup (pool_id <$> v) → m_pools a = reg_map pool_id v →
  mm_step a (MmP.QueryComputePool n k)
    (MmP.ComputePoolChosen (default U32_MAX (choose_compute_pool v n (from_wire_kind <$> k)))) a.
Proof.
  intros Hnd Ha.
  assert (is_best pool_prefers (pool_fits n) (m_pools a) (best_fit v n)) as Hany.
  { rewrite Ha. unfold best_fit. destruct pool_order as (Hasym & Htrans & Hpref).
    rewrite (list_filter_iff _ (pool_fits n)) by done. apply reduce_is_best; auto. }
  destruct k as [k|]; simpl.
  - pose proof (best_fit_best v n (λ p, kind p = from_wire_kind k) Hnd) as Hk. rewrite <- Ha in Hk.
    unfold choose_compute_pool.
    destruct (best_fit (filter _ v) n) as [p|]; simpl; [by apply step_pool_preferred|].
    apply step_pool_any; [|done]. by intros k' [= <-].
  - by apply step_pool_any.
Qed.

(** The sum does not depend on the order. *)
Lemma total_resident_spec v :
  NoDup (thread <$> v) →
  let n := total_of (reg_map thread v) in
  total_resident v = if decide (n < U64)%N then Some n else None.
Proof.
  intros Hnd n.
  assert (n = foldr (λ p acc, resident_bytes p + acc)%N 0%N v) as ->.
  { unfold n, total_of, reg_map. apply foldr_permutation; [apply _|solve_proper|lia|].
    rewrite map_to_list_to_map by by rewrite <- list_fmap_compose.
    rewrite <- list_fmap_compose. by rewrite list_fmap_id. }
  clear. unfold total_resident.
  assert (∀ m, (m < U64)%N → foldl (λ acc p, acc ≫= λ n, checked_add U64 n (resident_bytes p)) (Some m) v
    = let t := (m + foldr (λ p acc, resident_bytes p + acc) 0 v)%N in
      if decide (t < U64)%N then Some t else None) as H; [|apply (H 0%N); lia].
  induction v as [|p v IH]; intros m Hm; cbn zeta; simpl.
  { rewrite N.add_0_r, decide_True by done. done. }
  unfold checked_add at 2. destruct (N.ltb_spec (m + resident_bytes p) U64).
  - rewrite IH by done. cbn zeta. by rewrite N.add_assoc.
  - rewrite decide_False by lia. clear. by induction v.
Qed.

(** ** The service implements it *)

Lemma best_elem {K A} `{Countable K} (key : A → K) prefers P v x :
  NoDup (key <$> v) → is_best prefers P (reg_map key v) (Some x) → x ∈ v.
Proof. intros Hnd (_ & [k [Hx _]%reg_map_lookup] & _); done. Qed.

(** What a request to change a registry does. *)
Lemma handle_mem_spec s (Hs : mm_inv s) :
  (∀ x, u32 (thread x) →
    mm_inv (set_mem (mem_upsert x) s) ∧
    m_mem (mm_abs (set_mem (mem_upsert x) s)) = <[thread x := x]> (m_mem (mm_abs s))) ∧
  (∀ t, mm_inv (set_mem (mem_remove t) s) ∧
    m_mem (mm_abs (set_mem (mem_remove t) s)) = delete t (m_mem (mm_abs s))).
Proof.
  destruct Hs. split.
  - intros x Hx. assert (∀ y, (thread y =? thread x)%N = true ↔ thread y = thread x) as Hsame
      by (intros; apply N.eqb_eq).
    split; [split; simpl; try done|by apply reg_map_upsert].
    + by apply upsert_spec.
    + by eapply (upsert_Forall thread).
  - intros t. split; [split; simpl; try done|by apply reg_map_remove].
    + by apply NoDup_filter_keys.
    + by apply filter_Forall.
Qed.

Lemma handle_swap_spec s (Hs : mm_inv s) :
  (∀ x, u32 (sr_thread x) → u32 (region_id x) →
    mm_inv (set_swap (swap_upsert x) s) ∧
    m_swap (mm_abs (set_swap (swap_upsert x) s)) = <[swap_key x := x]> (m_swap (mm_abs s))) ∧
  (∀ t i, mm_inv (set_swap (swap_remove t i) s) ∧
    m_swap (mm_abs (set_swap (swap_remove t i) s)) = delete (t, i) (m_swap (mm_abs s))).
Proof.
  destruct Hs. split.
  - intros x Ht Hi.
    assert (∀ y, (sr_thread y =? sr_thread x)%N && (region_id y =? region_id x)%N = true ↔
      swap_key y = swap_key x) as Hsame.
    { intros y. unfold swap_key. rewrite andb_true_iff, !N.eqb_eq.
      split; [by intros [-> ->]|by intros [=]]. }
    split; [split; simpl; try done|by apply reg_map_upsert].
    + by apply upsert_spec.
    + by eapply (upsert_Forall swap_key).
  - intros t i. split; [split; simpl; try done|].
    + by apply NoDup_filter_keys.
    + by apply filter_Forall.
    + apply reg_map_remove; [|done]. intros x. unfold swap_key.
      split; intros H1 H2; apply H1; [by simplify_eq|by destruct H2 as [-> ->]].
Qed.

Lemma handle_pool_spec s x (Hs : mm_inv s) :
  u32 (pool_id x) →
  mm_inv (set_pools (pool_upsert x) s) ∧
  m_pools (mm_abs (set_pools (pool_upsert x) s)) = <[pool_id x := x]> (m_pools (mm_abs s)).
Proof.
  intros Hx. destruct Hs. assert (∀ y, (pool_id y =? pool_id x)%N = true ↔ pool_id y = pool_id x)
    as Hsame by (intros; apply N.eqb_eq).
  split; [split; simpl; try done|by apply reg_map_upsert].
  - by apply upsert_spec.
  - by eapply (upsert_Forall pool_id).
Qed.

(** The identifiers a query returns fit the response. *)
Lemma choose_compute_pool_u32 s n k :
  mm_inv s → u32 (default U32_MAX (choose_compute_pool (pools s) n k)).
Proof.
  intros Hs. destruct (choose_compute_pool _ _ _) as [i|] eqn:E; [|done].
  pose proof (mi_ids s Hs) as Hids. rewrite Forall_forall in Hids.
  assert (∃ p, p ∈ pools s ∧ pool_id p = i) as (p & Hp & <-); [|by apply Hids].
  destruct pool_order as (Hasym & Htrans & _).
  assert (∀ v p, best_fit v n = Some p → p ∈ v) as Hin.
  { intros v p [Hp%list_elem_of_filter _]%reduce_best; [|done..]. by destruct Hp. }
  revert E. unfold choose_compute_pool.
  destruct k as [k|]; [destruct (best_fit (filter _ _) n) as [p|] eqn:Ep|].
  - intros [= <-]. exists p. split; [|done].
    apply Hin, list_elem_of_filter in Ep. by destruct Ep.
  - intros (p & Hp%Hin & ->)%fmap_Some. eauto.
  - intros (p & Hp%Hin & ->)%fmap_Some. eauto.
Qed.

Lemma handle_refines req s :
  mm_inv s → in_range MmReq req →
  match handle_request req s with
  | (Ok resp, s') => mm_inv s' ∧ in_range MmResp resp ∧ mm_step (mm_abs s) req resp (mm_abs s')
  | (Panic, _) => req = MmP.QueryTotalResident ∧ (U64 ≤ total_of (m_mem (mm_abs s)))%N
  | (Err _, _) => False
  end.
Proof.
  intros Hs Hr. destruct req; simpl in Hr; unfold handle_request;
    rewrite run_bind; unfold gets, modify; cbv beta iota; rewrite ?run_bind; unfold mret, M_ret.
  - destruct Hr. destruct (handle_mem_spec s Hs) as [H1 _].
    destruct (H1 (mkProcMemInfo thread0 resident_bytes0 (from_wire_class class0))) as [Hi Hm]; [done|].
    split_and!; [done..|]. unfold mm_abs at 2. cbn in Hm |- *. rewrite Hm. constructor.
  - destruct (handle_mem_spec s Hs) as [_ H2]. destruct (H2 thread0) as [Hi Hm].
    split_and!; [done..|]. unfold mm_abs at 2. cbn in Hm |- *. rewrite Hm. constructor.
  - destruct (choose_oom_victim_best (mem s) (mi_mem s Hs)) as (v & -> & Hv).
    split_and!; [done| |by constructor].
    destruct v as [p|]; [|done]. simpl. apply best_elem in Hv; [|apply Hs].
    pose proof (mi_threads s Hs) as Ht. by rewrite Forall_forall in Ht; apply Ht.
  - pose proof (total_resident_spec (mem s) (mi_mem s Hs)) as Ht. cbn zeta in Ht.
    rewrite Ht. destruct (decide _) as [Hlt|Hge]; simpl.
    + split_and!; [done..|constructor].
    + split; [done|lia].
  - destruct Hr as (? & ? & ? & ?). destruct (handle_swap_spec s Hs) as [H1' _].
    destruct (H1' (mkSwapRegion thread0 region_id0 bytes0 last_touched_ns0)) as [Hi Hm]; [done..|].
    split_and!; [done..|]. unfold mm_abs at 2. cbn in Hm |- *. rewrite Hm. constructor.
  - destruct (handle_swap_spec s Hs) as [_ H2]. destruct (H2 thread0 region_id0) as [Hi Hm].
    split_and!; [done..|]. unfold mm_abs at 2. cbn in Hm |- *. rewrite Hm. constructor.
  - destruct (choose_swap_victim_best (swap s) (mi_swap s Hs)) as (v & -> & Hv).
    pose proof (step_swap_victim (mm_abs s) v Hv) as Hst. destruct v as [p|]; [|done].
    apply best_elem in Hv; [|apply Hs]. pose proof (mi_regions s Hs) as Ht.
    rewrite Forall_forall in Ht. simpl in *. split; [done|]. split; [|done]. by apply Ht.
  - destruct Hr as (? & ? & ?).
    destruct (handle_pool_spec s (mkComputePool pool_id0 (from_wire_kind kind0) capacity_bytes0
      used_bytes0) Hs) as [Hi Hm]; [done..|].
    split_and!; [done..|]. unfold mm_abs at 2. cbn in Hm |- *. rewrite Hm. constructor.
  - split_and!; [done|by apply choose_compute_pool_u32|].
    by apply choose_compute_pool_step; [apply Hs|].
Qed.

#[export] Instance mm_service_spec : ServiceSpec MmService mm_inv.
Proof.
  split; [|done..]. intros req s Hr Hs. pose proof (handle_refines req s Hs Hr) as H.
  unfold wp. simpl in *. destruct (handle_request req s) as [[] ?]; naive_solver.
Qed.

Definition mm_rel (s : State) (a : MmSpec) : Prop := mm_inv s ∧ a = mm_abs s.

#[export] Instance mm_service_implements :
  Implements MmService mm_rel (λ a q r a', mm_step a q.2 r.1 a').
Proof.
  intros [[] req] r s s' a [_ Hr] [Hs ->] Hh. simpl in Hr.
  pose proof (handle_refines req s Hs Hr) as H. unfold handle in Hh. rewrite run_bind in Hh.
  cbn [modify MmService sv_put sv_handle fst snd] in Hh. rewrite run_bind in Hh.
  destruct (handle_request req s) as [[resp|[]|] s1]; [|done].
  injection Hh as <- <-. destruct H as (Hi & _ & Hst). by exists (mm_abs s1).
Qed.

Lemma mm_inv_new : mm_inv state_new.
Proof. split; simpl; by constructor. Qed.

(** ** The answers do not depend on the order of registration *)

Lemma is_best_unique {K A} `{Countable K} (key : A → K) (prefers : A → A → Prop) P
    (m : gmap K A) v v' :
  (∀ k x, m !! k = Some x → key x = k) →
  (∀ x y, prefers x y → prefers y x → key x = key y) →
  is_best prefers P m v → is_best prefers P m v' → v = v'.
Proof.
  intros Hkey Hanti. destruct v as [x|], v' as [y|]; simpl; [|naive_solver..].
  intros (HPx & [k Hx] & Hbx) (HPy & [k' Hy] & Hby). f_equal.
  assert (key x = key y) as Heq by (apply Hanti; eauto).
  assert (k = k') as -> by (rewrite <- (Hkey _ _ Hx), <- (Hkey _ _ Hy); done). congruence.
Qed.

Lemma choose_pool_unique m n k :
  (∀ i x, m !! i = Some x → pool_id x = i) →
  ∀ v v', NoDup (pool_id <$> v) → NoDup (pool_id <$> v') →
    reg_map pool_id v = m → reg_map pool_id v' = m →
  choose_compute_pool v n k = choose_compute_pool v' n k.
Proof.
  intros Hkey v v' Hnd Hnd' Hm Hm'.
  assert (∀ (P : ComputePool → Prop) `{∀ x, Decision (P x)},
    best_fit (filter P v) n = best_fit (filter P v') n) as Hu.
  { intros P ?. pose proof (best_fit_best v n P Hnd) as H1.
    pose proof (best_fit_best v' n P Hnd') as H2. rewrite Hm in H1. rewrite Hm' in H2.
    eapply (is_best_unique pool_id); [done| |done|done]. unfold pool_prefers. lia. }
  assert (∀ v, best_fit (filter (λ _, True) v) n = best_fit v n) as Hall.
  { intros w. f_equal. clear. induction w as [|x w IH]; [done|]. by rewrite filter_cons_True, IH. }
  pose proof (Hu (λ _, True) _) as Ha. rewrite !Hall in Ha.
  unfold choose_compute_pool. destruct k; by rewrite ?Hu, Ha.
Qed.

(** The decisions are functions of the registered entries alone: two
    registries with the same entries, registered in any order, choose the same
    OOM victim, the same region to swap out and the same compute pool. *)
Lemma mm_decisions_order_independent s s' n k :
  mm_inv s → mem s ≡ₚ mem s' → swap s ≡ₚ swap s' → pools s ≡ₚ pools s' →
  choose_oom_victim (mem s) = choose_oom_victim (mem s') ∧
  choose_swap_victim (swap s) = choose_swap_victim (swap s') ∧
  choose_compute_pool (pools s) n k = choose_compute_pool (pools s') n k.
Proof.
  intros [Hm Hs Hp _ _ _] Em Es Ep.
  assert (NoDup (thread <$> mem s')) as Hm' by by rewrite <- Em.
  assert (NoDup (swap_key <$> swap s')) as Hs' by by rewrite <- Es.
  assert (NoDup (pool_id <$> pools s')) as Hp' by by rewrite <- Ep.
  split_and!.
  - destruct (choose_oom_victim_best _ Hm) as (v & -> & Hv).
    destruct (choose_oom_victim_best _ Hm') as (v' & -> & Hv'). f_equal.
    rewrite <- (reg_map_perm thread _ _ Hm Em) in Hv'.
    eapply (is_best_unique thread); [| |done|done].
    + intros i x [_ ?]%reg_map_lookup; done.
    + unfold oom_prefers. lia.
  - destruct (choose_swap_victim_best _ Hs) as (v & -> & Hv).
    destruct (choose_swap_victim_best _ Hs') as (v' & -> & Hv'). f_equal.
    rewrite <- (reg_map_perm swap_key _ _ Hs Es) in Hv'.
    eapply (is_best_unique swap_key); [| |done|done].
    + intros i x [_ ?]%reg_map_lookup; done.
    + unfold swap_prefers, swap_key. intros x y ??. f_equal; lia.
  - eapply (choose_pool_unique (reg_map pool_id (pools s))); try done.
    + intros i x [_ ?]%reg_map_lookup; done.
    + symmetry. by apply reg_map_perm.
Qed.

(** ** The service over messages *)

Lemma requests_ok reqs :
  Forall (in_range MmReq) reqs → Forall (request_ok MmService) (pair () <$> reqs).
Proof. intros H. apply Forall_fmap. eapply Forall_impl; [exact H|]. by split. Qed.

(** The only request that stops the service: the total of the registered
    footprints does not fit a [u64]. *)
Lemma mm_handle_panics req s :
  mm_inv s → in_range MmReq req →
  (handle_request req s).1 = Panic ↔
    req = MmP.QueryTotalResident ∧ (U64 ≤ total_of (reg_map thread (mem s)))%N.
Proof.
  intros Hs Hr. split.
  - pose proof (handle_refines req s Hs Hr) as H. by destruct (handle_request req s) as [[] ?].
  - intros [-> Hge]. pose proof (total_resident_spec (mem s) (mi_mem s Hs)) as Ht. cbn zeta in Ht.
    rewrite decide_False in Ht by lia. unfold handle_request. rewrite run_bind. unfold gets.
    cbv beta iota. by rewrite run_bind, Ht.
Qed.

Lemma mm_run a (reqs : list MmP.MmRequest) (rs : list (MmP.MmResponse * ())) a' :
  spec_run (λ a q r a', mm_step a q.2 r.1 a') a (pair () <$> reqs) rs a' → spec_run mm_step a reqs (fst <$> rs) a'.
Proof.
  remember (pair () <$> reqs) as qs eqn:Eq. intros H. revert reqs Eq.
  induction H as [|a q r a1 qs rs a2 Hst _ IH]; intros [|req reqs] [=]; subst; simpl.
  - constructor.
  - eapply spec_cons; [exact Hst|auto].
Qed.

Lemma mm_split (reqs : list MmP.MmRequest) before (q : () * MmP.MmRequest) after :
  pair () <$> reqs = before ++ q :: after →
  ∃ before' req after', reqs = before' ++ req :: after' ∧ before = pair () <$> before' ∧ q = ((), req).
Proof.
  intros (before' & l & -> & Hl & ->)%fmap_app_inv. destruct l as [|req after']; [done|].
  injection Hl as -> ->. by exists before', req, after'.
Qed.

(** C34 Refinement: whatever sequence of requests a client sends to a fresh
    memory service over the shared page, the responses it decodes are those of a
    run of the abstract service: three finite maps, the victim of a memory
    shortage is a sacrificial process if there is one, then a normal one, and the
    largest of them; the region to swap out is the least recently touched; the
    pool of an allocation has room for it, is of the preferred kind if one of
    them has room, and has the most space left.  The service answers every
    request, except the query of a total that does not fit a [u64]. *)
Theorem mm_service_correct {FB : FlagBits} {FBS : FlagBitsSpec FB} reqs p :
  Forall (in_range MmReq) reqs →
  match calls MmService (pair () <$> reqs) (state_new, p) with
  | (Ok rs, (s', _)) => ∃ resps, rs = (λ r, (Ok r, ())) <$> resps ∧
      spec_run mm_step (mkMmSpec ∅ ∅ ∅) reqs resps (mm_abs s')
  | _ => ∃ before after resps a,
      reqs = before ++ MmP.QueryTotalResident :: after ∧
      spec_run mm_step (mkMmSpec ∅ ∅ ∅) before resps a ∧ (U64 ≤ total_of (m_mem a))%N
  end.
Proof.
  intros Hr. apply requests_ok in Hr as Hq.
  pose proof (calls_simulate_total MmService mm_inv mm_rel
    (λ a q r a', mm_step a q.2 r.1 a') _ _ _ p Hq mm_inv_new
    (conj mm_inv_new eq_refl)) as H. change (mm_abs state_new) with (mkMmSpec ∅ ∅ ∅) in H.
  cbn [MmService sv_state sv_data sv_req sv_resp] in H |- *.
  destruct (calls MmService (pair () <$> reqs) (state_new, p)) as [[rs|[]|] [s' p']].
  - destruct H as (rs' & a' & -> & Hrun & [_ ->]). exists (fst <$> rs'). split.
    + rewrite <- list_fmap_compose. apply list_fmap_ext. by intros _ [? []] _.
    + by apply mm_run.
  - destruct H as (before & q & after & rs' & s1 & a1 & E & Hrun & Hi & [_ ->] & Hp).
    destruct (mm_split _ _ _ _ E) as (before' & req & after' & -> & -> & ->).
    apply mm_run in Hrun. apply Forall_app in Hr as [_ Hr]. apply Forall_cons in Hr as [Hr _].
    destruct (proj1 (mm_handle_panics req s1 Hi Hr)) as [-> Ht].
    { revert Hp. unfold handle. cbn [MmService sv_put sv_handle sv_get snd]. run.
      destruct (handle_request req s1) as [[]]; done. }
    by exists before', after', (fst <$> rs'), (mm_abs s1).
Qed.

(** ** Runs *)

Definition sample_requests : list MmP.MmRequest :=
  [ MmP.Register 7 1000 MmP.Normal; MmP.Register 8 100 MmP.Sacrificial;
    MmP.Register 9 5000 MmP.Protected; MmP.QueryVictim; MmP.QueryTotalResident;
    MmP.Unregister 8; MmP.QueryVictim;
    MmP.RegisterSwapRegion 7 1 4096 50; MmP.RegisterSwapRegion 9 1 8192 50; MmP.QuerySwapVictim;
    MmP.RegisterComputePool 1 MmP.Cpu 100 90; MmP.RegisterComputePool 2 MmP.Gpu 100 95;
    MmP.QueryComputePool 5 (Some MmP.Gpu); MmP.QueryComputePool 6 (Some MmP.Gpu);
    MmP.QueryComputePool 11 None ].

Definition blank_page : Page := mkPage 0 [0; 0; 0; 0; 0; 0]%N.

Lemma sample_requests_in_range : Forall (in_range MmReq) sample_requests.
Proof. unfold sample_requests. repeat constructor. Qed.

(** What the client decodes in the sample run. *)
Example sample_responses :
  (calls MmService (pair () <$> sample_requests) (state_new, blank_page)).1 =
  Ok ((λ r, (Ok r, ())) <$> [ MmP.Registered; MmP.Registered; MmP.Registered; MmP.Victim 8;
               MmP.TotalResident 6100; MmP.Unregistered; MmP.Victim 7;
               MmP.SwapRegionRegistered; MmP.SwapRegionRegistered; MmP.SwapVictim 9 1;
               MmP.ComputePoolRegistered; MmP.ComputePoolRegistered;
               MmP.ComputePoolChosen 2; MmP.ComputePoolChosen 1;
               MmP.ComputePoolChosen U32_MAX ]).
Proof. vm_compute. reflexivity. Qed.

Lemma sample_run :
  ∃ rs s' p', calls MmService (pair () <$> sample_requests) (state_new, blank_page) = (Ok rs, (s', p')).
Proof. eexists _, _, _. vm_compute. reflexivity. Qed.

Lemma mm_service_correct_witness :
  Forall (in_range MmReq) sample_requests ∧
  ∃ rs s' p', calls MmService (pair () <$> sample_requests) (state_new, blank_page) = (Ok rs, (s', p')) ∧
  ∃ resps, rs = (λ r, (Ok r, ())) <$> resps ∧
    spec_run mm_step (mkMmSpec ∅ ∅ ∅) sample_requests resps (mm_abs s').
Proof.
  split; [exact sample_requests_in_range|].
  pose proof (mm_service_correct sample_requests blank_page sample_requests_in_range) as H.
  destruct sample_run as (rs & s' & p' & E).
  match type of H with context [calls ?S ?qs ?x] => change (calls S qs x = (Ok rs, (s', p'))) in E end.
  rewrite E in H. exists rs, s', p'. by split.
Defined.

Definition sample_state : State :=
  mkState [mkProcMemInfo 7 1000 Normal; mkProcMemInfo 8 100 Sacrificial] []
    [mkComputePool 1 Manifest.Cpu 100 90; mkComputePool 2 Manifest.Gpu 100 90].

Definition sample_state' : State :=
  mkState (reverse (mem sample_state)) [] (reverse (pools sample_state)).

Lemma mm_decisions_order_independent_witness :
  choose_oom_victim (mem sample_state) = choose_oom_victim (mem sample_state') ∧
  choose_swap_victim (swap sample_state) = choose_swap_victim (swap sample_state') ∧
  choose_compute_pool (pools sample_state) 5 None =
  choose_compute_pool (pools sample_state') 5 None.
Proof.
  apply (mm_decisions_order_independent sample_state sample_state' 5 None).
  - split; try (apply (bool_decide_unpack _); by vm_compute); repeat constructor.
  - symmetry. apply reverse_Permutation.
  - done.
  - symmetry. apply reverse_Permutation.
Defined.

(** Two registrations stop the service: the sum of the footprints is computed
    with an unchecked [u64] addition, so a client that registers two processes of
    [u64::MAX] bytes and asks for the total makes the service panic. *)
Theorem total_resident_panics {FB : FlagBits} {FBS : FlagBitsSpec FB} p :
  ∃ s', calls MmService (pair () <$>
    [ MmP.Register 1 (U64 - 1) MmP.Normal; MmP.Register 2 (U64 - 1) MmP.Normal;
      MmP.QueryTotalResident ]) (state_new, p) = (Panic, s').
Proof.
  assert (Forall (in_range MmReq) [ MmP.Register 1 (U64 - 1) MmP.Normal;
    MmP.Register 2 (U64 - 1) MmP.Normal; MmP.QueryTotalResident ]) as Hr%requests_ok by (repeat constructor).
  pose proof (calls_outcome MmService mm_inv _ _ p Hr mm_inv_new) as H.
  match type of H with context [handle_all ?S ?r ?s] =>
    let v := eval vm_compute in (handle_all S r s) in change (handle_all S r s) with v in H end.
  destruct H as (p' & H). by eexists.
Qed.

Lemma calls_refine_witness :
  mm_inv state_new ∧
  match handle_all MmService (pair () <$> sample_requests) state_new with
  | (Ok resps, s') => ∃ p', calls MmService (pair () <$> sample_requests) (state_new, blank_page) =
      (Ok (decoded <$> resps), (s', p')) ∧ mm_inv s'
  | (_, s') => ∃ p', calls MmService (pair () <$> sample_requests) (state_new, blank_page) = (Panic, (s', p'))
  end.
Proof.
  split; [exact mm_inv_new|].
  exact (proj1 (calls_refine MmService mm_inv state_new mm_inv_new) _ blank_page
           (requests_ok _ sample_requests_in_range)).
Defined.
