(* ===== verification/FsNative.v ===== *)
(** * The native file system

    [vfs-service/fs-native/src/lib.rs]: [MemFs], files in memory behind numbered
    handles; [subsystem_entry.rs]: the requests of [ipc_protocol::fs] served from
    it, with the bytes of reads and writes in a shared data page.

    The abstract file system [AFs] has no file numbers: a path names a content
    and a handle is open on a path.  [fs_rel] relates the two. *)

From stdpp Require Import gmap strings.
From S2P Require Import Prelude Bytes Capability Ipc Protocol Service.

(** ** The file system ([lib.rs]) *)

Inductive FsError := NotFound | BadHandle | TooLarge | Denied.

Definition MAX_FILE_BYTES : N := 1024 * 1024.

Record OpenFile := mkOpenFile { file_id : N; can_write : bool }.

Record MemFs := mkMemFs {
  index : gmap string N;
  files : gmap N (list N);
  opened : gmap N OpenFile;
  next_file_id : N;
  next_handle : N;
}.

Definition memfs_new : MemFs := mkMemFs ∅ ∅ ∅ 0 0.

Definition set_index f s := mkMemFs (f (index s)) (files s) (opened s) (next_file_id s) (next_handle s).
Definition set_files f s := mkMemFs (index s) (f (files s)) (opened s) (next_file_id s) (next_handle s).
Definition set_opened f s := mkMemFs (index s) (files s) (f (opened s)) (next_file_id s) (next_handle s).
Definition set_next_file_id n s := mkMemFs (index s) (files s) (opened s) n (next_handle s).
Definition set_next_handle n s := mkMemFs (index s) (files s) (opened s) (next_file_id s) n.

Definition create (path : string) : M MemFs FsError N :=
  found ← gets (λ s, index s !! path);
  match found with
  | Some id => _ ← modify (set_files <[id := []]>); mret id
  | None =>
      id ← gets next_file_id;
      n ← unwrap (checked_add U32 id 1);
      _ ← modify (set_next_file_id n);
      _ ← modify (set_index <[path := id]>);
      _ ← modify (set_files <[id := []]>);
      mret id
  end.

Definition open (path : string) (write : bool) (creat : bool) : M MemFs FsError N :=
  found ← gets (λ s, index s !! path);
  id ← match found with
       | Some id => mret id
       | None => if creat then create path else throw NotFound
       end;
  h ← gets next_handle;
  n ← unwrap (checked_add U32 h 1);
  _ ← modify (set_next_handle n);
  _ ← modify (set_opened <[h := mkOpenFile id write]>);
  mret h.

(** The bytes read and the caller's buffer afterwards. *)
Definition read (handle offset : N) (buf : list N) : M MemFs FsError (N * list N) :=
  o ← gets (λ s, opened s !! handle); file ← ok_or o BadHandle;
  d ← gets (λ s, files s !! file_id file); data ← ok_or d BadHandle;
  let start := N.min offset (len data) in
  let n := N.min (len buf) (len data - start) in
  src ← unwrap (sub data start (start + n));
  buf ← unwrap (copy_into buf 0 n src);
  mret (n, buf).

(** [data.resize(n, 0)], for a longer [n] *)
Definition resize (data : list N) (n : N) : list N :=
  data ++ replicate (N.to_nat (n - len data)) 0%N.

Definition write (handle offset : N) (src : list N) : M MemFs FsError N :=
  o ← gets (λ s, opened s !! handle); file ← ok_or o BadHandle;
  if negb (can_write file) then throw Denied else
  d ← gets (λ s, files s !! file_id file); data ← ok_or d BadHandle;
  last ← unwrap (checked_add U64 offset (len src));
  if (MAX_FILE_BYTES <? last)%N then throw TooLarge else
  let data := if (len data <? last)%N then resize data last else data in
  data ← unwrap (copy_into data offset last src);
  _ ← modify (set_files <[file_id file := data]>);
  mret (len src).

Definition size (handle : N) : M MemFs FsError N :=
  o ← gets (λ s, opened s !! handle); file ← ok_or o BadHandle;
  d ← gets (λ s, files s !! file_id file);
  mret (from_option len 0%N d).

Definition close (handle : N) : M MemFs FsError unit :=
  o ← gets (λ s, opened s !! handle);
  _ ← modify (set_opened (delete handle));
  _ ← ok_or o BadHandle;
  mret tt.

(** ** The service ([subsystem_entry.rs]) *)

Definition FS_DATA_LEN : N := 4096.

Record FsState := mkFsState { memfs : MemFs; data_page : list N }.

Definition set_memfs f s := mkFsState f (data_page s).
Definition set_data_page d s := mkFsState (memfs s) d.

Definition resolve_path (id : N) : option string :=
  if (id =? 0)%N then Some "/greeting" else None.

Definition error_code (e : FsError) : FsP.FsErrorCode :=
  match e with
  | NotFound => FsP.NotFound
  | BadHandle => FsP.BadHandle
  | TooLarge => FsP.Io
  | Denied => FsP.Denied
  end.

(** [match m { Ok(x) => k(x), Err(e) => FsResponse::Error { code: error_code(e) } }] *)
Definition respond {A} (m : M MemFs FsError A) (k : A → M FsState Empty_set FsP.FsResponse)
    : M FsState Empty_set FsP.FsResponse := λ s,
  match m (memfs s) with
  | (Ok a, f) => k a (set_memfs f s)
  | (Err e, f) => (Ok (FsP.Error (error_code e)), set_memfs f s)
  | (Panic, f) => (Panic, set_memfs f s)
  end.

Section handler.
Context {FB : FlagBits}.

Definition handle_request (req : FsP.FsRequest) : M FsState Empty_set FsP.FsResponse :=
  match req with
  | FsP.Open path flags =>
      match resolve_path path with
      | Some p =>
          respond (open p (fl_contains flags FLAG_WRITE) (fl_contains flags FLAG_CREATE))
            (λ h, mret (FsP.Opened h))
      | None => mret (FsP.Error FsP.BadPath)
      end
  | FsP.Stat path =>
      match resolve_path path with
      | Some p =>
          respond (open p false false) (λ h,
            n ← zoom memfs set_memfs (λ s, match size h s with
                                           | (Ok n, s) => (Ok n, s)
                                           | (Err _, s) => (Ok 0%N, s)
                                           | (Panic, s) => (Panic, s)
                                           end);
            _ ← zoom memfs set_memfs (ignore (close h));
            mret (FsP.StatDone n false))
      | None => mret (FsP.Error FsP.BadPath)
      end
  | FsP.Close handle => respond (close handle) (λ _, mret FsP.Closed)
  | FsP.Read handle offset n _ =>
      if (FS_DATA_LEN <? n)%N then mret (FsP.Error FsP.BadSharedRegion) else
      page ← gets data_page;
      buf ← unwrap (sub page 0 n);
      respond (read handle offset buf) (λ '(bytes, buf),
        page ← unwrap (copy_into page 0 n buf);
        _ ← modify (set_data_page page);
        mret (FsP.ReadDone (truncate U32 bytes)))
  | FsP.Write handle offset n _ =>
      if (FS_DATA_LEN <? n)%N then mret (FsP.Error FsP.BadSharedRegion) else
      page ← gets data_page;
      buf ← unwrap (sub page 0 n);
      respond (write handle offset buf) (λ bytes, mret (FsP.Written (truncate U32 bytes)))
  end.

Definition FsService : Service := {|
  sv_state := FsState;
  sv_data := list N;
  sv_req := FsReq;
  sv_resp := FsResp;
  sv_data_ok d := len d = FS_DATA_LEN ∧ Forall (λ b, (b < U8)%N) d;
  sv_put := set_data_page;
  sv_get := data_page;
  sv_handle := handle_request;
  sv_error := FsP.Error FsP.Unsupported;
|}.
End handler.

(** [b"hello from fs-native"] *)
Definition greeting : list N :=
  [104; 101; 108; 108; 111; 32; 102; 114; 111; 109; 32; 102; 115; 45; 110; 97; 116; 105; 118; 101]%N.

(** The preparation in [subsystem_main]; its result is ignored. *)
Definition seed : M MemFs FsError unit :=
  _ ← create "/greeting";
  ignore (E' := FsError) (
    h ← open "/greeting" true false;
    _ ← ignore (E' := FsError) (write h 0 greeting);
    ignore (E' := FsError) (close h)).

Definition fs_boot (page : list N) : FsState := mkFsState (seed memfs_new).2 page.

(** ** The abstract file system *)

Record AFs := mkAFs {
  a_files : gmap string (list N);
  a_opened : gmap N (string * bool);
  a_next : N;
}.

Abbreviation byte b := (b < U8)%N (only parsing).

(** What is well-formed about [MemFs]: every name has its own file, every file a
    name and at most [MAX_FILE_BYTES] bytes, every handle that was given is below
    [next_handle] and open on a file. *)
Record memfs_wf (s : MemFs) : Prop := {
  mf_index p i : index s !! p = Some i → (i < next_file_id s)%N ∧ is_Some (files s !! i);
  mf_inj p q i : index s !! p = Some i → index s !! q = Some i → p = q;
  mf_files i d : files s !! i = Some d →
    (∃ p, index s !! p = Some i) ∧ (len d ≤ MAX_FILE_BYTES)%N ∧ Forall (λ b, byte b) d;
  mf_opened h f : opened s !! h = Some f →
    (h < next_handle s)%N ∧ ∃ p, index s !! p = Some (file_id f);
  mf_next_file : u32 (next_file_id s);
  mf_next_handle : u32 (next_handle s);
}.

Record fs_rel (s : MemFs) (a : AFs) : Prop := {
  fr_wf : memfs_wf s;
  fr_files p : a_files a !! p = (i ← index s !! p; files s !! i);
  fr_opened h f : opened s !! h = Some f →
    ∃ p, index s !! p = Some (file_id f) ∧ a_opened a !! h = Some (p, can_write f);
  fr_closed h : opened s !! h = None → a_opened a !! h = None;
  fr_next : a_next a = next_handle s;
}.

Definition a_set_file (p : string) (d : list N) (a : AFs) : AFs :=
  mkAFs (<[p := d]> (a_files a)) (a_opened a) (a_next a).

Definition a_open (p : string) (w : bool) (a : AFs) : AFs :=
  mkAFs (match a_files a !! p with Some _ => a_files a | None => <[p := []]> (a_files a) end)
    (<[a_next a := (p, w)]> (a_opened a)) (a_next a + 1).

Definition a_close (h : N) (a : AFs) : AFs :=
  mkAFs (a_files a) (delete h (a_opened a)) (a_next a).

(** The content after writing [src] at [off]: zeros fill a gap. *)
Definition overlay (data : list N) (off : nat) (src : list N) : list N :=
  take off (data ++ replicate (off - length data) 0%N) ++ src ++ drop (off + length src) data.

(** ** Updates of the representation *)

Lemma fs_rel_lookup s a p i d :
  fs_rel s a → index s !! p = Some i → files s !! i = Some d → a_files a !! p = Some d.
Proof. intros Hr Hi Hd. rewrite (fr_files s a Hr), Hi. done. Qed.

Lemma rel_set_file s a p i d :
  fs_rel s a → index s !! p = Some i → (len d ≤ MAX_FILE_BYTES)%N → Forall (λ b, byte b) d →
  fs_rel (set_files <[i := d]> s) (a_set_file p d a).
Proof.
  intros [Hwf Hf Ho Hc Hn] Hi Hl Hd. split; simpl; try done.
  - destruct Hwf. split; simpl; try done.
    + intros q j Hq. destruct (mf_index0 q j Hq). split; [done|].
      destruct (decide (i = j)) as [->|]; [by rewrite lookup_insert_eq|].
      by rewrite lookup_insert_ne.
    + intros j e [[<- <-]|[_ He]]%lookup_insert_Some; [eauto|]. by apply mf_files0.
  - intros q. destruct (decide (p = q)) as [->|Hne].
    + rewrite lookup_insert_eq, Hi. simpl. by rewrite lookup_insert_eq.
    + rewrite lookup_insert_ne, Hf by done. destruct (index s !! q) as [j|] eqn:Hj; [|done].
      simpl. rewrite lookup_insert_ne; [done|]. intros ->.
      by apply Hne, (mf_inj s Hwf p q j).
Qed.

Lemma rel_new_file s a p :
  fs_rel s a → index s !! p = None → (next_file_id s + 1 < U32)%N →
  let id := next_file_id s in
  fs_rel (set_files <[id := []]> (set_index <[p := id]> (set_next_file_id (id + 1) s)))
    (a_set_file p [] a).
Proof.
  intros [Hwf Hf Ho Hc Hn] Hi Hlt id.
  assert (∀ q j, index s !! q = Some j → p ≠ q ∧ id ≠ j ∧ (j < id)%N) as Hne.
  { intros q j Hq. destruct (mf_index s Hwf q j Hq). split_and!; [congruence|unfold id; lia|done]. }
  split; simpl; try done.
  - destruct Hwf. split; simpl; try done.
    + intros q j [[<- <-]|[_ Hq]]%lookup_insert_Some.
      * split; [unfold id; lia|]. by rewrite lookup_insert_eq.
      * destruct (Hne q j Hq) as (_ & Hj & ?). split; [lia|].
        rewrite lookup_insert_ne by done. by apply (mf_index0 q j).
    + intros q r j [[<- <-]|[? Hq]]%lookup_insert_Some [[<- Hj]|[? Hr]]%lookup_insert_Some; try done.
      * by apply Hne in Hr as (_ & ? & _).
      * subst. by apply Hne in Hq as (_ & ? & _).
      * by eapply mf_inj0.
    + intros j d [[<- <-]|[Hj Hd]]%lookup_insert_Some.
      * split_and!; [exists p; by rewrite lookup_insert_eq|unfold len, MAX_FILE_BYTES; simpl; lia|done].
      * destruct (mf_files0 j d Hd) as ([q Hq] & ? & ?). split_and!; [|done..].
        exists q. rewrite lookup_insert_ne; [done|]. by apply (Hne q j).
    + intros h f Hh. destruct (mf_opened0 h f Hh) as (? & q & Hq). split; [done|].
      exists q. rewrite lookup_insert_ne; [done|]. by eapply Hne.
  - intros q. destruct (decide (p = q)) as [->|Hq].
    + rewrite !lookup_insert_eq. simpl. by rewrite lookup_insert_eq.
    + rewrite !lookup_insert_ne, Hf by done. destruct (index s !! q) as [j|] eqn:Hj; [|done].
      simpl. rewrite lookup_insert_ne; [done|]. by eapply Hne.
  - intros h f Hh. destruct (Ho h f Hh) as (q & Hq & ?). exists q. split; [|done].
    rewrite lookup_insert_ne; [done|]. by eapply Hne.
Qed.

Lemma rel_open s a p i w :
  fs_rel s a → index s !! p = Some i → (next_handle s + 1 < U32)%N →
  fs_rel (set_opened <[next_handle s := mkOpenFile i w]> (set_next_handle (next_handle s + 1) s))
    (a_open p w a).
Proof.
  intros [Hwf Hf Ho Hc Hn] Hi Hlt.
  assert (is_Some (a_files a !! p)) as [d Hd].
  { rewrite Hf, Hi. simpl. by apply (mf_index s Hwf p i). }
  split; simpl; rewrite ?Hd, ?Hn; try done.
  - destruct Hwf. split; simpl; try done.
    intros h f [[<- <-]|[_ Hh]]%lookup_insert_Some; simpl; [split; [lia|by exists p]|].
    destruct (mf_opened0 h f Hh). split; [lia|done].
  - intros h f [[<- <-]|[Hne Hh]]%lookup_insert_Some; simpl.
    + exists p. by rewrite lookup_insert_eq.
    + destruct (Ho h f Hh) as (q & ? & ?). exists q. by rewrite lookup_insert_ne.
  - intros h [Hh Hne]%lookup_insert_None. rewrite lookup_insert_ne by done. by apply Hc.
Qed.

Lemma rel_close s a h : fs_rel s a → fs_rel (set_opened (delete h) s) (a_close h a).
Proof.
  intros [Hwf Hf Ho Hc Hn]. split; simpl; try done.
  - destruct Hwf. split; simpl; try done.
    intros k f [_ Hk]%lookup_delete_Some. by apply mf_opened0.
  - intros k f [Hne Hk]%lookup_delete_Some. destruct (Ho k f Hk) as (q & ? & ?).
    exists q. by rewrite lookup_delete_ne.
  - intros k [->|Hk]%lookup_delete_None; [by rewrite lookup_delete_eq|].
    apply lookup_delete_None. right. by apply Hc.
Qed.

(** ** The operations refine the abstract ones *)

Lemma files_dom s a p : fs_rel s a → a_files a !! p = None ↔ index s !! p = None.
Proof.
  intros Hr. rewrite (fr_files s a Hr). destruct (index s !! p) as [i|] eqn:Hi; [|done].
  destruct (mf_index s (fr_wf s a Hr) p i Hi) as [_ [d Hd]]. simpl. by rewrite Hd.
Qed.

Lemma create_refines s a p :
  fs_rel s a →
  match create p s with
  | (Ok id, s') => index s' !! p = Some id ∧ next_handle s' = next_handle s ∧
      fs_rel s' (a_set_file p [] a)
  | (Panic, _) => a_files a !! p = None ∧ (U32 ≤ next_file_id s + 1)%N
  | (Err _, _) => False
  end.
Proof.
  intros Hr. unfold create. run.
  destruct (index s !! p) as [i|] eqn:Hi.
  - run. split_and!; [done..|]. apply rel_set_file; [done..| |done].
    unfold len, MAX_FILE_BYTES. simpl. lia.
  - run. destruct (N.ltb_spec (next_file_id s + 1) U32) as [Hlt|Hge].
    + rewrite checked_add_lt by done. run. split_and!; [|done|by apply rel_new_file].
      apply lookup_insert_eq.
    + rewrite checked_add_ge by done. split; [by eapply files_dom|done].
Qed.

Lemma open_refines s a p w c :
  fs_rel s a →
  match open p w c s with
  | (Ok h, s') => h = a_next a ∧ (h + 1 < U32)%N ∧ (a_files a !! p = None → c = true) ∧
      fs_rel s' (a_open p w a)
  | (Err e, s') => e = NotFound ∧ s' = s ∧ c = false ∧ a_files a !! p = None
  | (Panic, _) => (U32 ≤ a_next a + 1)%N ∨
      (U32 ≤ next_file_id s + 1)%N ∧ a_files a !! p = None ∧ c = true
  end.
Proof.
  intros Hr. pose proof (fr_next s a Hr) as Hn. unfold open. run.
  (* the second half: a handle on the file [i] *)
  assert (∀ s1 a1 i, fs_rel s1 a1 → index s1 !! p = Some i → next_handle s1 = next_handle s →
    match (h ← gets next_handle; n ← unwrap (checked_add U32 h 1);
           _ ← modify (set_next_handle n); _ ← modify (set_opened <[h := mkOpenFile i w]>); mret h
           : M MemFs FsError N) s1 with
    | (Ok h, s') => h = a_next a ∧ (h + 1 < U32)%N ∧ fs_rel s' (a_open p w a1)
    | (Panic, _) => (U32 ≤ a_next a + 1)%N
    | (Err _, _) => False
    end) as Hopen.
  { intros s1 a1 i Hr1 Hi Hh. run. destruct (N.ltb_spec (next_handle s1 + 1) U32) as [Hlt|Hge].
    - rewrite checked_add_lt by done. run. rewrite Hn, Hh in *.
      split_and!; [done..|]. rewrite <- Hh. apply rel_open; [done..|congruence].
    - rewrite checked_add_ge by done. run. by rewrite Hn, <- Hh. }
  destruct (index s !! p) as [i|] eqn:Hi.
  - assert (a_files a !! p ≠ None) as Hex by (rewrite files_dom by done; congruence).
    specialize (Hopen s a i Hr Hi eq_refl). cbn [mret M_ret].
    destruct ((gets next_handle ≫= _) s) as [[h|e|] s']; naive_solver.
  - assert (a_files a !! p = None) as Hex by by eapply files_dom.
    destruct c; [|done].
    pose proof (create_refines s a p Hr) as Hc.
    destruct (create p s) as [[i|e|] s1]; [|done|naive_solver].
    destruct Hc as (Hi1 & Hh1 & Hr1). specialize (Hopen s1 _ i Hr1 Hi1 Hh1).
    assert (a_open p w (a_set_file p [] a) = a_open p w a) as Heq.
    { unfold a_open, a_set_file. simpl. by rewrite lookup_insert_eq, Hex. }
    rewrite Heq in Hopen. destruct ((gets next_handle ≫= _) s1) as [[h|e|] s']; naive_solver.
Qed.

(** Handles: the abstract handle and the file behind it. *)
Lemma handle_cases s a h :
  fs_rel s a →
  (opened s !! h = None ∧ a_opened a !! h = None) ∨
  (∃ f p d, opened s !! h = Some f ∧ a_opened a !! h = Some (p, can_write f) ∧
    index s !! p = Some (file_id f) ∧ files s !! file_id f = Some d ∧ a_files a !! p = Some d ∧
    (len d ≤ MAX_FILE_BYTES)%N ∧ Forall (λ b, byte b) d).
Proof.
  intros Hr. destruct (opened s !! h) as [f|] eqn:Hh; [right|left; split; [done|by eapply fr_closed]].
  destruct (fr_opened s a Hr h f Hh) as (p & Hp & Ha).
  destruct (mf_index s (fr_wf s a Hr) p _ Hp) as [_ [d Hd]].
  destruct (mf_files s (fr_wf s a Hr) _ d Hd) as (_ & ? & ?).
  exists f, p, d. split_and!; try done. by eapply fs_rel_lookup.
Qed.

(** The read: at most [len buf] bytes from [off]. *)
Definition a_read (d : list N) (off n : N) : list N := take (N.to_nat n) (drop (N.to_nat off) d).

Lemma read_refines s a h off buf :
  fs_rel s a →
  read h off buf s =
    (match a_opened a !! h with
     | None => Err BadHandle
     | Some (p, _) =>
         let bs := a_read (default [] (a_files a !! p)) off (len buf) in
         Ok (len bs, bs ++ drop (length bs) buf)
     end, s).
Proof.
  intros Hr. unfold read. run.
  destruct (handle_cases s a h Hr) as [[-> ->]|(f & p & d & -> & -> & Hi & Hd & -> & Hl & _)];
    [done|].
  run. rewrite Hd. run. cbv zeta.
  set (start := N.min off (len d)). set (n := N.min (len buf) (len d - start)).
  assert (a_read d off (len buf) = take (N.to_nat n) (drop (N.to_nat start) d)) as Hrd.
  { unfold a_read, n, start, len. destruct (decide (N.to_nat off ≤ length d)).
    - replace (N.to_nat (N.min off (N.of_nat (length d)))) with (N.to_nat off) by lia.
      destruct (decide (length buf ≤ length d - N.to_nat off)).
      + f_equal. lia.
      + rewrite !take_ge by (rewrite length_drop; lia). done.
    - rewrite !drop_ge by lia. by rewrite !take_nil. }
  assert (len (a_read d off (len buf)) = n) as Hn.
  { rewrite Hrd. unfold len. rewrite length_take, length_drop. unfold n, start, len. lia. }
  rewrite sub_Some by (unfold n, start; lia). run.
  replace (start + n - start)%N with n by lia. rewrite <- Hrd.
  rewrite copy_into_Some by (unfold n in *; lia). run.
  change (default [] (Some d)) with d.
  replace (length (a_read d off (len buf))) with (N.to_nat n); [by rewrite Hn|].
  rewrite <- Hn. unfold len at 1. by rewrite Nat2N.id.
Qed.

Lemma overlay_run d off src :
  (off + len src < U64)%N → (off + len src ≤ MAX_FILE_BYTES)%N →
  let d1 := if (len d <? off + len src)%N then resize d (off + len src) else d in
  copy_into d1 off (off + len src) src = Some (overlay d (N.to_nat off) src) ∧
  len (overlay d (N.to_nat off) src) = N.max (len d) (off + len src).
Proof.
  intros _ _ d1. unfold overlay, resize in *.
  assert (length d1 = N.to_nat (N.max (len d) (off + len src))) as Hl.
  { unfold d1, len. destruct (N.ltb_spec (N.of_nat (length d)) (off + N.of_nat (length src))).
    - unfold resize. rewrite length_app, length_replicate. unfold len. lia.
    - lia. }
  rewrite copy_into_Some by (unfold len in *; lia). split.
  - f_equal. f_equal; [|f_equal].
    + unfold d1, resize, len.
      destruct (N.ltb_spec (N.of_nat (length d)) (off + N.of_nat (length src))).
      * destruct (decide (N.to_nat off ≤ length d)).
        { rewrite !take_app_le by lia. done. }
        rewrite !take_app_ge by lia. f_equal. rewrite !take_replicate. f_equal. lia.
      * rewrite take_app_le by lia. done.
    + unfold d1, resize, len.
      destruct (N.ltb_spec (N.of_nat (length d)) (off + N.of_nat (length src))).
      * rewrite !drop_ge; [done|lia|rewrite length_app, length_replicate; lia].
      * f_equal. lia.
  - unfold len in *. rewrite !length_app, length_take, length_app, length_replicate, length_drop. lia.
Qed.

Lemma overlay_Forall d off src :
  Forall (λ b, byte b) d → Forall (λ b, byte b) src → Forall (λ b, byte b) (overlay d off src).
Proof.
  intros. unfold overlay. repeat apply Forall_app_2; auto using Forall_drop.
  apply Forall_take, Forall_app_2; [done|]. by apply Forall_replicate.
Qed.

Lemma write_refines s a h off src :
  fs_rel s a → Forall (λ b, byte b) src →
  match write h off src s with
  | (Ok n, s') => n = len src ∧ ∃ p d, a_opened a !! h = Some (p, true) ∧
      a_files a !! p = Some d ∧ (off + len src < U64)%N ∧ (off + len src ≤ MAX_FILE_BYTES)%N ∧
      fs_rel s' (a_set_file p (overlay d (N.to_nat off) src) a)
  | (Err e, s') => s' = s ∧
      match a_opened a !! h with
      | None => e = BadHandle
      | Some (_, false) => e = Denied
      | Some (_, true) => e = TooLarge ∧ (MAX_FILE_BYTES < off + len src < U64)%N
      end
  | (Panic, _) => ∃ p, a_opened a !! h = Some (p, true) ∧ (U64 ≤ off + len src)%N
  end.
Proof.
  intros Hr Hsrc. unfold write. run.
  destruct (handle_cases s a h Hr) as [[-> ->]|(f & p & d & -> & -> & Hi & Hd & Ha & Hl & Hb)];
    [done|].
  run. destruct (can_write f) eqn:Hw; [|done]. cbn [negb]. run. rewrite Hd. run.
  destruct (N.ltb_spec (off + len src) U64) as [Hlt|Hge];
    [rewrite checked_add_lt by done|rewrite checked_add_ge by done; run; eauto].
  run. destruct (N.ltb_spec MAX_FILE_BYTES (off + len src)) as [Hbig|Hfit]; [done|].
  cbv zeta. destruct (overlay_run d off src Hlt Hfit) as [Hrun Hlen]. rewrite Hrun. run.
  split; [done|]. exists p, d. split_and!; try done. apply rel_set_file; [done..| |].
  - rewrite Hlen. lia.
  - by apply overlay_Forall.
Qed.

Lemma size_refines s a h f p :
  fs_rel s a → opened s !! h = Some f → a_opened a !! h = Some (p, can_write f) →
  size h s = (Ok (len (default [] (a_files a !! p))), s).
Proof.
  intros Hr Hf Ha. unfold size. run. rewrite Hf. run.
  destruct (handle_cases s a h Hr) as [[? _]|(f' & q & d & Hf' & Ha' & _ & Hd & Hq & _)]; [congruence|].
  assert (f' = f) as -> by congruence. assert (q = p) as -> by congruence.
  by rewrite Hd, Hq.
Qed.

Lemma close_refines s a h :
  fs_rel s a →
  match close h s with
  | (Ok _, s') => is_Some (a_opened a !! h) ∧ fs_rel s' (a_close h a)
  | (Err e, s') => e = BadHandle ∧ a_opened a !! h = None ∧ fs_rel s' a
  | (Panic, _) => False
  end.
Proof.
  intros Hr. unfold close. run. pose proof (rel_close s a h Hr) as Hc.
  destruct (handle_cases s a h Hr) as [[Ho Ha]|(f & p & d & Ho & Ha & _)]; rewrite Ho; run.
  - split_and!; [done..|]. unfold a_close in Hc. by rewrite delete_id in Hc by done; destruct a.
  - split; [by rewrite Ha|done].
Qed.

(** ** The service refines the abstract service *)

(** What the service does, on paths and contents: a functional specification. *)
Definition fs_spec (q : list N * FsP.FsRequest) : M AFs Empty_set (FsP.FsResponse * list N) := λ a,
  let '(d, req) := q in
  let fail code := (Ok (FsP.Error code, d), a) in
  match req with
  | FsP.Open path flags =>
      match resolve_path path with
      | None => fail FsP.BadPath
      | Some p =>
          if (U32 <=? a_next a + 1)%N then (Panic, a)
          else (Ok (FsP.Opened (a_next a), d), a_open p (N.testbit flags 1) a)
      end
  | FsP.Stat path =>
      match resolve_path path with
      | None => fail FsP.BadPath
      | Some p =>
          if (U32 <=? a_next a + 1)%N then (Panic, a)
          else (Ok (FsP.StatDone (len (default [] (a_files a !! p))) false, d),
                mkAFs (a_files a) (a_opened a) (a_next a + 1))
      end
  | FsP.Close h =>
      match a_opened a !! h with
      | None => fail FsP.BadHandle
      | Some _ => (Ok (FsP.Closed, d), a_close h a)
      end
  | FsP.Read h off n _ =>
      if (FS_DATA_LEN <? n)%N then fail FsP.BadSharedRegion else
      match a_opened a !! h with
      | None => fail FsP.BadHandle
      | Some (p, _) =>
          let bs := a_read (default [] (a_files a !! p)) off n in
          (Ok (FsP.ReadDone (len bs), bs ++ drop (length bs) d), a)
      end
  | FsP.Write h off n _ =>
      if (FS_DATA_LEN <? n)%N then fail FsP.BadSharedRegion else
      match a_opened a !! h with
      | None => fail FsP.BadHandle
      | Some (_, false) => fail FsP.Denied
      | Some (p, true) =>
          if (U64 <=? off + n)%N then (Panic, a) else
          if (MAX_FILE_BYTES <? off + n)%N then fail FsP.Io else
          let c := overlay (default [] (a_files a !! p)) (N.to_nat off) (take (N.to_nat n) d) in
          (Ok (FsP.Written n, d), a_set_file p c a)
      end
  end.

Definition data_ok (d : list N) : Prop := len d = FS_DATA_LEN ∧ Forall (λ b, byte b) d.

(** The file of the service exists from boot on. *)
Record srv_rel (s : FsState) (a : AFs) : Prop := {
  sr_rel : fs_rel (memfs s) a;
  sr_file : is_Some (a_files a !! "/greeting");
  sr_data : data_ok (data_page s);
}.

Section service.
Context {FB : FlagBits} {FBS : FlagBitsSpec FB}.

(** Running a request of the service against the specification. *)
Definition agrees (d : list N) (req : FsP.FsRequest) : Prop :=
  ∀ s a, srv_rel (mkFsState s d) a → in_range FsReq req →
  match handle_request req (mkFsState s d), fs_spec (d, req) a with
  | (Ok resp, s'), (r', a') =>
      r' = Ok (resp, data_page s') ∧ in_range FsResp resp ∧ srv_rel s' a'
  | (Err _, _), _ => False
  | (Panic, _), (r', _) => r' = Panic
  end.

Lemma resolve_path_Some id p : resolve_path id = Some p → p = "/greeting".
Proof. unfold resolve_path. by destruct (id =? 0)%N; intros [= <-]. Qed.

Lemma open_agrees d path flags : agrees d (FsP.Open path flags).
Proof using FBS.
  intros s a [Hr Hg Hd] _. simpl in Hr. unfold handle_request, fs_spec.
  destruct (resolve_path path) as [p|] eqn:Hp; [apply resolve_path_Some in Hp as ->|done].
  unfold respond. cbn [memfs].
  pose proof (open_refines s a "/greeting" (fl_contains flags FLAG_WRITE)
    (fl_contains flags FLAG_CREATE) Hr) as H.
  assert (fl_contains flags FLAG_WRITE = N.testbit flags 1) as Hw.
  { rewrite fl_contains_spec. unfold FLAG_WRITE. apply eq_true_iff_eq. rewrite N.eqb_eq. split.
    - intros Hl. assert (N.testbit (N.land flags 2) 1 = true) as Hb by by rewrite Hl.
      by rewrite N.land_spec, andb_true_r in Hb.
    - intros Hb. apply N.bits_inj. intros i. rewrite N.land_spec.
      destruct (N.eqb_spec i 1) as [->|]; [by rewrite Hb|].
      assert (N.testbit 2 i = false) as -> by (destruct i as [|[]]; done). apply andb_false_r. }
  rewrite Hw in *. destruct Hg as [c Hc].
  destruct (open _ _ _ s) as [[h|e|] s'].
  - destruct H as (-> & Hlt & _ & Hr'). rewrite (proj2 (N.leb_gt _ _)) by done.
    split_and!; [done|simpl; lia|]. split; simpl; [done| |done]. rewrite Hc. by eexists.
  - destruct H as (_ & _ & _ & ?). congruence.
  - destruct H as [Hge|(_ & ? & _)]; [|congruence]. by rewrite (proj2 (N.leb_le _ _)).
Qed.

Lemma stat_agrees d path : agrees d (FsP.Stat path).
Proof using FBS.
  intros s a [Hr Hg Hd] _. simpl in Hr. unfold handle_request, fs_spec.
  destruct (resolve_path path) as [p|] eqn:Hp; [apply resolve_path_Some in Hp as ->|done].
  unfold respond. cbn [memfs]. pose proof (open_refines s a "/greeting" false false Hr) as H.
  destruct Hg as [c Hc]. destruct (open _ _ _ s) as [[h|e|] s'].
  - destruct H as (-> & Hlt & _ & Hr'). rewrite (proj2 (N.leb_gt _ _)) by done.
    set (a1 := a_open "/greeting" false a) in *.
    assert (a_opened a1 !! a_next a = Some ("/greeting", false)) as Ha1 by apply lookup_insert_eq.
    destruct (handle_cases s' a1 (a_next a) Hr')
      as [[_ ?]|(f & q & e & Hf & Hq & Hi & He & Hqe & Hle & _)]; [congruence|].
    assert (q = "/greeting" ∧ can_write f = false) as [-> Hcw] by by simplify_eq.
    assert (a_files a1 = a_files a) as Hfiles by by unfold a1, a_open; simpl; rewrite Hc.
    run. unfold zoom. cbn [memfs set_memfs].
    rewrite (size_refines s' a1 (a_next a) f "/greeting" Hr' Hf) by by rewrite Hq.
    pose proof (close_refines s' a1 (a_next a) Hr') as Hcl.
    rewrite Hqe. change (default [] (Some e)) with e.
    assert (default [] (a_files a !! "/greeting") = e) as -> by by rewrite <- Hfiles, Hqe.
    run. unfold zoom, ignore. cbn [memfs set_memfs].
    destruct (close (a_next a) s') as [[[]|er|] s2]; [|by destruct Hcl as (_ & ? & _); congruence|done].
    destruct Hcl as [_ Hr2]. split_and!; [done|simpl; unfold MAX_FILE_BYTES in *; lia|].
    assert (a_close (a_next a) a1 = mkAFs (a_files a) (a_opened a) (a_next a + 1)) as Heq.
    { unfold a_close. rewrite Hfiles. f_equal. unfold a1, a_open. simpl.
      rewrite delete_insert_id; [done|]. apply (fr_closed s a Hr).
      destruct (opened s !! a_next a) as [g|] eqn:Hg; [|done].
      destruct (mf_opened s (fr_wf s a Hr) _ _ Hg) as [Hlt2 _].
      rewrite (fr_next s a Hr) in Hlt2. lia. }
    rewrite Heq in Hr2. split; simpl; [done| |done]. by rewrite Hc; eexists.
  - destruct H as (_ & _ & _ & ?). congruence.
  - destruct H as [Hge|(_ & ? & _)]; [|congruence]. by rewrite (proj2 (N.leb_le _ _)).
Qed.

Lemma close_agrees d h : agrees d (FsP.Close h).
Proof using FBS.
  intros s a [Hr Hg Hd] _. simpl in Hr. unfold handle_request, fs_spec, respond. cbn [memfs].
  pose proof (close_refines s a h Hr) as H. destruct (close h s) as [[[]|e|] s']; [| |done].
  - destruct H as [[x ->] Hr']. split_and!; [done..|by split].
  - destruct H as (-> & -> & Hr'). split_and!; [done..|by split].
Qed.

Lemma read_agrees d h off n c : agrees d (FsP.Read h off n c).
Proof using FBS.
  intros s a [Hr Hg [Hl Hb]] Hrange. simpl in Hr, Hl, Hb. unfold handle_request, fs_spec.
  destruct (N.ltb_spec FS_DATA_LEN n) as [|Hn]; [split_and!; try done; by split|].
  run. cbn [data_page]. rewrite sub_prefix by lia. run. unfold respond. cbn [memfs].
  rewrite (read_refines s a h off _ Hr).
  assert (len (take (N.to_nat n) d) = n) as Hbuf.
  { unfold len in *. rewrite length_take. lia. }
  destruct (handle_cases s a h Hr) as [[_ ->]|(f & p & e & _ & -> & _ & _ & -> & _ & Hbe)].
  { split_and!; [done..|by split]. }
  change (default [] (Some e)) with e. rewrite Hbuf. cbv zeta.
  set (bs := a_read e off n).
  assert (length bs ≤ N.to_nat n) as Hbs by (unfold bs, a_read; rewrite length_take; lia).
  assert (Forall (λ b, byte b) bs) as Hbb by (by apply Forall_take, Forall_drop).
  unfold FS_DATA_LEN, len in *. run. rewrite copy_into_Some; unfold len.
  2: lia. 2: rewrite length_app, length_drop, length_take; lia.
  assert (take (N.to_nat 0) d ++ (bs ++ drop (length bs) (take (N.to_nat n) d)) ++
    drop (N.to_nat n) d = bs ++ drop (length bs) d) as Hpage.
  { simpl. rewrite <- (app_assoc bs). f_equal. rewrite <- drop_app_le by (rewrite length_take; lia).
    by rewrite take_drop. }
  rewrite Hpage. run.
  assert (data_ok (bs ++ drop (length bs) d)) as Hdata.
  { split; [unfold len; rewrite length_app, length_drop; unfold FS_DATA_LEN; lia|].
    apply Forall_app_2; [done|by apply Forall_drop]. }
  rewrite truncate_small by lia. split_and!; [done|simpl; lia|]. by split.
Qed.

Lemma write_agrees d h off n c : agrees d (FsP.Write h off n c).
Proof using FBS.
  intros s a [Hr Hg [Hl Hb]] Hrange. simpl in Hr, Hl, Hb. unfold handle_request, fs_spec.
  destruct (N.ltb_spec FS_DATA_LEN n) as [|Hn]; [split_and!; try done; by split|].
  run. cbn [data_page]. rewrite sub_prefix by lia. run. unfold respond. cbn [memfs].
  assert (len (take (N.to_nat n) d) = n) as Hbuf.
  { unfold len in *. rewrite length_take. lia. }
  pose proof (write_refines s a h off (take (N.to_nat n) d) Hr (Forall_take _ _ _ Hb)) as H.
  rewrite Hbuf in H. destruct (write h off _ s) as [[m|e|] s'].
  - destruct H as (-> & p & e & -> & -> & Hlt & Hfit & Hr').
    rewrite (proj2 (N.leb_gt _ _)), (proj2 (N.ltb_ge _ _)) by done. run.
    unfold FS_DATA_LEN in *. rewrite truncate_small by lia.
    split_and!; [done|simpl; lia|]. split; simpl; [done| |done].
    destruct (decide (p = "/greeting")) as [->|]; [by rewrite lookup_insert_eq|].
    by rewrite lookup_insert_ne.
  - destruct H as [-> H]. destruct (a_opened a !! h) as [[p []]|].
    + destruct H as (-> & Hbig & Hlt). rewrite (proj2 (N.leb_gt _ _)), (proj2 (N.ltb_lt _ _)) by done.
      split_and!; [done..|by split].
    + subst e. split_and!; [done..|by split].
    + subst e. split_and!; [done..|by split].
  - destruct H as (p & -> & Hge). by rewrite (proj2 (N.leb_le _ _)).
Qed.

Lemma request_agrees d req : agrees d req.
Proof using FBS.
  destruct req; [apply open_agrees|apply read_agrees|apply write_agrees|apply stat_agrees
                |apply close_agrees].
Qed.
End service.

(** ** The service as an instance *)

Definition srv_inv (s : FsState) : Prop := ∃ a, srv_rel s a.

Section instance.
Context {FB : FlagBits} {FBS : FlagBitsSpec FB}.

#[export] Instance fs_service_spec : ServiceSpec FsService srv_inv.
Proof using FBS.
  split.
  - intros req [s d] Hr [a Ha]. simpl in req, Hr. pose proof (request_agrees d req s a Ha Hr) as H.
    unfold wp. simpl. destruct (handle_request req _) as [[resp|e|] s'], (fs_spec (d, req) a) as [r' a'];
      simpl; [|done..]. destruct H as (_ & ? & ?). split; [done|by exists a'].
  - intros d [s d0] Hd [a [Hr Hg _]]. by exists a.
  - done.
Qed.

#[export] Instance fs_service_exact : ImplementsExactly FsService srv_rel fs_spec.
Proof using FBS.
  intros [d req] [s d0] a [Hd Hreq] [Hr Hg _]. simpl in d, req, Hd, Hreq.
  assert (srv_rel (mkFsState s d) a) as Ha by done.
  pose proof (request_agrees d req s a Ha Hreq) as H. unfold handle.
  cbn [FsService sv_put sv_handle sv_get]. run. cbn [fst snd].
  change (set_data_page d (mkFsState s d0)) with (mkFsState s d).
  change (fs_spec _ a) with (fs_spec (@pair (list N) FsP.FsRequest d req) a).
  destruct (handle_request req (mkFsState s d)) as [[resp|[]|] s'], (fs_spec (d, req) a) as [r' a'].
  - destruct H as (-> & _ & Hr'). run. done.
  - subst r'. done.
Qed.
End instance.

(** ** Booting *)

Definition a_boot : AFs := mkAFs {[ "/greeting" := greeting ]} ∅ 1.

Lemma memfs_new_rel : fs_rel memfs_new (mkAFs ∅ ∅ 0).
Proof. by split; [split|..]. Qed.

Lemma seed_rel : fs_rel (seed memfs_new).2 a_boot.
Proof.
  pose proof (rel_new_file _ _ "/greeting" memfs_new_rel eq_refl eq_refl) as H1.
  pose proof (rel_open _ _ "/greeting" 0 true H1 eq_refl eq_refl) as H2.
  assert (Forall (λ b, byte b) greeting) as Hb by by repeat constructor.
  pose proof (rel_set_file _ _ "/greeting" 0 greeting H2 eq_refl ltac:(by vm_compute) Hb) as H3.
  exact (rel_close _ _ 0 H3).
Qed.

Lemma fs_boot_rel d : data_ok d → srv_rel (fs_boot d) a_boot.
Proof. intros Hd. split; [exact seed_rel|by eexists|done]. Qed.

(** ** The theorems *)

(** C17 Refinement: for every sequence of requests and data pages that a client
    sends to the booted file service over shared memory, the responses it
    decodes and the data it finds are exactly those of the abstract file system
    [fs_spec], in which a path names a content, a handle is open on a path, a
    read returns the bytes from the offset up to the end of the file and a write
    overlays them; the service stops exactly when [fs_spec] does: when the handle
    numbers are used up, and when the offset of a write plus its length does not
    fit 64 bits. *)
Theorem fs_service_correct {FB : FlagBits} {FBS : FlagBitsSpec FB} qs d p :
  Forall (request_ok FsService) qs → data_ok d →
  match sequence fs_spec qs a_boot with
  | (Ok rs, a') => ∃ s' p', calls FsService qs (fs_boot d, p) =
        (Ok (fmap (M := list) (decoded (S := FsService)) rs), (s', p')) ∧
      fs_rel (memfs s') a'
  | (_, _) => (calls FsService qs (fs_boot d, p)).1 = Panic
  end.
Proof.
  intros Hq Hd. pose proof (fs_boot_rel d Hd) as HR.
  pose proof (calls_outcome FsService srv_inv qs (fs_boot d) p Hq (ex_intro _ _ HR)) as H.
  assert ((handle_all FsService qs (fs_boot d)).1 = (sequence fs_spec qs a_boot).1 ∧
    ((sequence fs_spec qs a_boot).1 ≠ Panic →
     srv_rel (handle_all FsService qs (fs_boot d)).2 (sequence fs_spec qs a_boot).2))
    as [Heq HR'] by exact (handle_all_exact FsService srv_rel fs_spec qs _ _ Hq HR).
  destruct (handle_all FsService qs (fs_boot d)) as [r s'].
  destruct (sequence fs_spec qs a_boot) as [r' a']. simpl in *. subst r'.
  destruct r as [rs|[]|]; destruct H as (p' & H).
  - destruct H as [-> _]. exists s', p'. split; [done|]. by apply HR'.
  - by rewrite H.
Qed.

(** *** The operations of [MemFs] on their own *)

Inductive FsOp :=
| OpCreate (path : string)
| OpOpen (path : string) (write create : bool)
| OpRead (handle offset : N) (buf : list N)
| OpWrite (handle offset : N) (src : list N)
| OpSize (handle : N)
| OpClose (handle : N).

Definition fs_op (o : FsOp) : M MemFs FsError unit :=
  match o with
  | OpCreate p => ignore (E' := FsError) (create p)
  | OpOpen p w c => ignore (E' := FsError) (open p w c)
  | OpRead h off buf => ignore (E' := FsError) (read h off buf)
  | OpWrite h off src => ignore (E' := FsError) (write h off src)
  | OpSize h => ignore (E' := FsError) (size h)
  | OpClose h => ignore (E' := FsError) (close h)
  end.

Definition fs_op_ok (o : FsOp) : Prop :=
  match o with OpWrite _ _ src => Forall (λ b, byte b) src | _ => True end.

Lemma fs_op_rel o s a :
  fs_rel s a → fs_op_ok o →
  wp (fs_op o) (λ r s', r = Panic ∨ ∃ a', fs_rel s' a') s.
Proof.
  intros Hr Ho. destruct o as [p|p w c|h off buf|h off src|h|h]; simpl; apply wp_ignore; unfold wp.
  - pose proof (create_refines s a p Hr) as H.
    destruct (create p s) as [[] ?]; simpl; naive_solver.
  - pose proof (open_refines s a p w c Hr) as H.
    destruct (open p w c s) as [[] ?]; simpl; naive_solver.
  - rewrite (read_refines s a h off buf Hr). simpl. destruct (a_opened a !! h) as [[]|]; eauto.
  - pose proof (write_refines s a h off src Hr Ho) as H.
    destruct (write h off src s) as [[] ?]; simpl; naive_solver.
  - unfold size. run. destruct (opened s !! h); simpl; eauto.
  - pose proof (close_refines s a h Hr) as H.
    destruct (close h s) as [[] ?]; simpl; naive_solver.
Qed.

(** C40 Well-formedness: whatever operations are applied to a new file system, in
    any order and with any arguments, it stays well formed: no two names share a
    file, no name and no handle dangles, no file is larger than the limit, and
    handles and file numbers are never reused. *)
Theorem memfs_always_wf ops :
  Forall fs_op_ok ops →
  wp (for_each ops fs_op) (λ r s, r = Panic ∨ memfs_wf s) memfs_new.
Proof.
  intros Hops. assert (∀ s, (∃ a, fs_rel s a) →
    wp (for_each ops fs_op) (λ r s', r = Panic ∨ ∃ a', fs_rel s' a') s) as H.
  { induction Hops as [|o ops Ho _ IH]; intros s [a Hr]; simpl; [apply wp_ret; eauto|].
    apply wp_bind. eapply wp_mono; [by apply (fs_op_rel o s a)|].
    intros [u|e|] s' [H|Hr']; try done; [by apply IH|by right|by left|by left]. }
  eapply wp_mono; [apply (H memfs_new)|].
  - exists (mkAFs ∅ ∅ 0). apply memfs_new_rel.
  - intros r s [|[a Hr]]; [by left|right; apply Hr].
Qed.

(** *** Writes are read back *)

Lemma overlay_lookup d off src i :
  overlay d off src !! i =
    if decide (off ≤ i < off + length src) then src !! (i - off)
    else if decide (i < length d) then d !! i
    else if decide (i < off) then Some 0%N else None.
Proof.
  unfold overlay. set (pre := take off (d ++ replicate (off - length d) 0%N)).
  assert (length pre = off) as Hpre.
  { unfold pre. rewrite length_take, length_app, length_replicate. lia. }
  destruct (decide (i < off)).
  - rewrite lookup_app_l by lia. rewrite decide_False by lia. unfold pre.
    rewrite lookup_take_lt by done. case_decide.
    + by rewrite lookup_app_l.
    + rewrite lookup_app_r by lia. rewrite lookup_replicate_2 by lia. done.
  - rewrite lookup_app_r by lia. rewrite Hpre. case_decide.
    + by rewrite lookup_app_l by lia.
    + rewrite lookup_app_r by lia. rewrite lookup_drop. replace (off + length src + (i - off - length src)) with i by lia.
      case_decide; [done|].
      apply lookup_ge_None_2. lia.
Qed.

Lemma write_Ok s h off src n s' :
  write h off src s = (Ok n, s') →
  ∃ f d, opened s !! h = Some f ∧ can_write f = true ∧ files s !! file_id f = Some d ∧
    n = len src ∧ (off + len src ≤ MAX_FILE_BYTES)%N ∧
    s' = set_files <[file_id f := overlay d (N.to_nat off) src]> s.
Proof.
  unfold write. run. destruct (opened s !! h) as [f|] eqn:Ho; [|done]. run.
  destruct (can_write f) eqn:Hw; [|done]. cbn [negb]. run.
  destruct (files s !! file_id f) as [d|] eqn:Hd; [|done]. run.
  destruct (N.ltb_spec (off + len src) U64);
    [rewrite checked_add_lt by done|by rewrite checked_add_ge by done].
  run. destruct (N.ltb_spec MAX_FILE_BYTES (off + len src)); [done|]. cbv zeta.
  destruct (overlay_run d off src) as [-> _]; [done..|]. run.
  intros [= <- <-]. by exists f, d.
Qed.

(** Round trip: a write that succeeds overlays its bytes on the file and
    changes nothing else: the file ends where it did, or at the end of the write
    if that is further, with zeros in a gap between; every handle that is open on
    the same file then reads the written bytes back at that offset. *)
Lemma write_then_read s h off src n s' :
  write h off src s = (Ok n, s') →
  ∃ f d d', opened s !! h = Some f ∧ files s !! file_id f = Some d ∧
    s' = set_files <[file_id f := d']> s ∧ n = len src ∧
    len d' = N.max (len d) (off + len src) ∧
    (∀ i, d' !! i = if decide (N.to_nat off ≤ i < N.to_nat off + length src)
                    then src !! (i - N.to_nat off)
                    else if decide (i < length d) then d !! i
                    else if decide (i < N.to_nat off) then Some 0%N else None) ∧
    ∀ h' f' buf, opened s !! h' = Some f' → file_id f' = file_id f → length buf = length src →
      read h' off buf s' = (Ok (len src, src), s').
Proof.
  intros (f & d & Ho & _ & Hd & -> & Hfit & ->)%write_Ok.
  destruct (overlay_run d off src) as [_ Hlen]; [unfold MAX_FILE_BYTES in *; lia|done|].
  exists f, d, (overlay d (N.to_nat off) src). split_and!; try done; [intros; apply overlay_lookup|].
  intros h' f' buf Ho' Hf Hbuf. unfold read. run. cbn [opened set_files]. rewrite Ho'. run.
  cbn [files set_files]. rewrite Hf, lookup_insert_eq. run. cbv zeta.
  assert (len buf = len src) as -> by (unfold len; lia).
  replace (N.min off (len (overlay d (N.to_nat off) src))) with off by lia.
  replace (N.min (len src) (len (overlay d (N.to_nat off) src) - off)) with (len src) by lia.
  rewrite sub_Some by lia.
  assert (take (N.to_nat (off + len src - off)) (drop (N.to_nat off)
    (overlay d (N.to_nat off) src)) = src) as ->.
  { apply list_eq. intros i. unfold len. destruct (decide (i < length src)).
    - rewrite lookup_take_lt, lookup_drop, overlay_lookup, decide_True by lia. f_equal. lia.
    - rewrite !lookup_ge_None_2 by (rewrite ?length_take; lia). done. }
  run. rewrite copy_into_Some by (unfold len in *; lia). run. simpl.
  by rewrite drop_ge, app_nil_r by (unfold len; lia).
Qed.

(** ** Runs and boundary cases *)

(** A data page that starts with the given bytes. *)
Definition page_with (bs : list N) : list N := bs ++ replicate (4096 - length bs) 0%N.

Lemma page_with_ok bs : length bs ≤ 4096 → Forall (λ b, byte b) bs → data_ok (page_with bs).
Proof.
  intros Hl Hb. split.
  - unfold len, page_with. rewrite length_app, length_replicate. unfold FS_DATA_LEN. lia.
  - apply Forall_app_2; [done|]. by apply Forall_replicate.
Qed.

(** Open for writing, write ["hey"] at 6, read 9 bytes from 0, ask for the size,
    close, read again. *)
Definition sample_calls : list (list N * FsP.FsRequest) :=
  [ (page_with [], FsP.Open 0 2); (page_with [104; 101; 121]%N, FsP.Write 1 6 3 0);
    (page_with [], FsP.Read 1 0 9 0); (page_with [], FsP.Stat 0);
    (page_with [], FsP.Close 1); (page_with [], FsP.Read 1 0 9 0) ].

Lemma sample_calls_ok : Forall (request_ok FsService) sample_calls.
Proof. repeat (constructor; [split; [apply page_with_ok; simpl; [lia|by repeat constructor]|done]|]). constructor. Qed.

Example sample_calls_run :
  (λ rs : list (FsP.FsResponse * list N), (λ r, (r.1, take 9 r.2)) <$> rs) <$>
    (match (sequence fs_spec sample_calls a_boot).1 with Ok rs => Some rs | _ => None end) =
  Some [ (FsP.Opened 1, replicate 9 0%N);
         (FsP.Written 3, [104; 101; 121; 0; 0; 0; 0; 0; 0]%N);
         (FsP.ReadDone 9, [104; 101; 108; 108; 111; 32; 104; 101; 121]%N);
         (FsP.StatDone 20 false, replicate 9 0%N);
         (FsP.Closed, replicate 9 0%N);
         (FsP.Error FsP.BadHandle, replicate 9 0%N) ].
Proof. vm_compute. reflexivity. Qed.

Lemma fs_service_correct_witness :
  Forall (request_ok FsService) sample_calls ∧ data_ok (page_with []) ∧
  match sequence fs_spec sample_calls a_boot with
  | (Ok rs, a') => ∃ s' p', calls FsService sample_calls (fs_boot (page_with []), mkPage 0 []) =
        (Ok (fmap (M := list) (decoded (S := FsService)) rs), (s', p')) ∧
      fs_rel (memfs s') a'
  | (_, _) => (calls FsService sample_calls (fs_boot (page_with []), mkPage 0 [])).1 = Panic
  end.
Proof.
  assert (data_ok (page_with [])) as Hd by (apply page_with_ok; simpl; [lia|constructor]).
  split; [exact sample_calls_ok|]. split; [exact Hd|].
  exact (fs_service_correct sample_calls (page_with []) (mkPage 0 []) sample_calls_ok Hd).
Defined.

Definition sample_ops : list FsOp :=
  [ OpCreate "/a"; OpOpen "/b" true true; OpWrite 0 2 [1; 2]%N; OpOpen "/a" false false;
    OpWrite 1 0 [3]%N; OpClose 0; OpRead 0 0 [0]%N; OpSize 1 ].

Lemma memfs_always_wf_witness :
  Forall fs_op_ok sample_ops ∧
  wp (for_each sample_ops fs_op) (λ r s, r = Panic ∨ memfs_wf s) memfs_new.
Proof.
  assert (Forall fs_op_ok sample_ops) as H by (repeat constructor).
  split; [exact H|exact (memfs_always_wf sample_ops H)].
Defined.

Definition sample_memfs : MemFs := (open "/x" true true memfs_new).2.

Lemma write_then_read_witness :
  let s := sample_memfs in let src := [7; 8]%N in
  ∃ s', write 0 3 src s = (Ok 2%N, s') ∧
  ∃ f d d', opened s !! 0%N = Some f ∧ files s !! file_id f = Some d ∧
    s' = set_files <[file_id f := d']> s ∧ 2%N = len src ∧
    len d' = N.max (len d) (3 + len src) ∧
    (∀ i, d' !! i = if decide (N.to_nat 3 ≤ i < N.to_nat 3 + length src)
                    then src !! (i - N.to_nat 3)
                    else if decide (i < length d) then d !! i
                    else if decide (i < N.to_nat 3) then Some 0%N else None) ∧
    ∀ h' f' buf, opened s !! h' = Some f' → file_id f' = file_id f → length buf = length src →
      read h' 3 buf s' = (Ok (len src, src), s').
Proof.
  intros s src. eexists. split; [vm_compute; reflexivity|].
  apply (write_then_read s 0 3 src 2). vm_compute. reflexivity.
Defined.

(** A client can stop the service: the end of a write is computed with an
    unchecked addition of the offset, which the client chooses, to the length.
    Opening the file for writing and writing one byte at the last offset makes
    the service panic before it compares the end with the size limit. *)
Theorem write_offset_overflow_panics {FB : FlagBits} {FBS : FlagBitsSpec FB} d p cap :
  data_ok d → u32 cap →
  (calls FsService [ (d, FsP.Open 0 FLAG_WRITE); (d, FsP.Write 1 (U64 - 1) 1 cap) ]
    (fs_boot d, p)).1 = Panic.
Proof.
  intros Hd Hcap. pose proof (fs_boot_rel d Hd) as HR.
  set (qs := [ (d, FsP.Open 0 FLAG_WRITE); (d, FsP.Write 1 (U64 - 1) 1 cap) ]).
  assert (Forall (request_ok FsService) qs) as Hq.
  { repeat constructor; simpl; try done; apply Hd. }
  pose proof (calls_outcome FsService srv_inv qs (fs_boot d) p Hq (ex_intro _ _ HR)) as H.
  assert ((handle_all FsService qs (fs_boot d)).1 = (sequence fs_spec qs a_boot).1) as Heq
    by exact (proj1 (handle_all_exact FsService srv_rel fs_spec qs _ _ Hq HR)).
  assert ((sequence fs_spec qs a_boot).1 = Panic) as Hp by reflexivity.
  rewrite Hp in Heq. destruct (handle_all FsService qs (fs_boot d)) as [r s']. simpl in Heq.
  subst r. destruct H as (p' & H). exact (f_equal fst H).
Qed.

Lemma write_offset_overflow_panics_witness :
  data_ok (page_with []) ∧
  (calls FsService [ (page_with [], FsP.Open 0 FLAG_WRITE);
                     (page_with [], FsP.Write 1 (U64 - 1) 1 0) ]
    (fs_boot (page_with []), mkPage 0 [])).1 = Panic.
Proof.
  assert (data_ok (page_with [])) as Hd by (apply page_with_ok; simpl; [lia|constructor]).
  split; [exact Hd|]. apply (write_offset_overflow_panics (page_with []) (mkPage 0 []) 0 Hd).
  reflexivity.
Defined.

(** The flags other than [WRITE] and [CREATE] have no effect: a file opened with
    [TRUNCATE] keeps its content, and with [APPEND] is written where the client
    says. *)
Lemma open_ignores_flags {FB : FlagBits} {FBS : FlagBitsSpec FB} id f g s :
  N.land f 6 = N.land g 6 → handle_request (FsP.Open id f) s = handle_request (FsP.Open id g) s.
Proof.
  intros H. unfold handle_request. rewrite !fl_contains_spec.
  assert (∀ b, N.land 6 b = b → N.land f b = N.land g b) as Hb.
  { intros b <-. by rewrite !N.land_assoc, H. }
  by rewrite (Hb FLAG_WRITE), (Hb FLAG_CREATE).
Qed.
