(* ===== verification/Compositor.v ===== *)
(** * The compositor

    [compositor/src/lib.rs]: the table of surfaces; [subsystem_entry.rs]: the
    requests of [ipc_protocol::display] served from it.  A client commits a frame
    that it wrote to a shared buffer; the compositor copies it to a second region,
    from which the client can see that the frame was really read.

    The abstract compositor knows which surfaces were ever created and which are
    alive; surface numbers are any numbers that were not used before. *)

From stdpp Require Import gmap.
From S2P Require Import Prelude Bytes Capability Ipc Protocol Service.

(** ** The surface table ([lib.rs]) *)

Inductive CompositorError := BadSurface.

Record SurfaceState := mkSurface { width : N; height : N; commit_count : N }.

Definition surface_default : SurfaceState := mkSurface 0 0 0.

Record Compositor := mkCompositor {
  surfaces : gmap N SurfaceState;
  next_surface_id : N;
}.

Definition compositor_new : Compositor := mkCompositor ∅ 0.

Definition set_surfaces f c := mkCompositor (f (surfaces c)) (next_surface_id c).
Definition set_next_surface_id n c := mkCompositor (surfaces c) n.

Definition create_surface : M Compositor CompositorError N :=
  id ← gets next_surface_id;
  n ← unwrap (checked_add U32 id 1);
  _ ← modify (set_next_surface_id n);
  _ ← modify (set_surfaces <[id := surface_default]>);
  mret id.

Definition commit_buffer (surface w h : N) : M Compositor CompositorError unit :=
  o ← gets (λ c, surfaces c !! surface); s ← ok_or o BadSurface;
  _ ← modify (set_surfaces <[surface := mkSurface w h (commit_count s)]>);
  n ← unwrap (checked_add U32 (commit_count s) 1);
  modify (set_surfaces <[surface := mkSurface w h n]>).

Definition destroy_surface (surface : N) : M Compositor CompositorError unit :=
  o ← gets (λ c, surfaces c !! surface);
  _ ← modify (set_surfaces (delete surface));
  _ ← ok_or o BadSurface; mret tt.

(** ** The service ([subsystem_entry.rs]) *)

Definition FRAME_MAX : N := 4096.

(** The surface table, the shared frame buffer and the confirm region, a page
    each. *)
Record CompState := mkCompState { comp : Compositor; frame : list N; confirm : list N }.

Definition set_comp c s := mkCompState c (frame s) (confirm s).
Definition set_frame d s := mkCompState (comp s) d (confirm s).
Definition set_confirm d s := mkCompState (comp s) (frame s) d.

Definition saturating_mul (w a b : N) : N := N.min (a * b) (w - 1).

(** [copy_nonoverlapping] of the first bytes. *)
Definition copy_frame_to_confirm (n : N) : M CompState Empty_set unit :=
  f ← gets frame; c ← gets confirm;
  src ← unwrap (sub f 0 n); c ← unwrap (copy_into c 0 n src);
  modify (set_confirm c).

(** [match m { Ok(x) => k(x), Err(_) => DisplayResponse::Error { code } }] *)
Definition respond {A} (m : M Compositor CompositorError A) (code : DisplayP.DisplayErrorCode)
    (k : A → M CompState Empty_set DisplayP.DisplayResponse)
    : M CompState Empty_set DisplayP.DisplayResponse := λ s,
  match m (comp s) with
  | (Ok a, c) => k a (set_comp c s)
  | (Err _, c) => (Ok (DisplayP.Error code), set_comp c s)
  | (Panic, c) => (Panic, set_comp c s)
  end.

Definition handle_request (req : DisplayP.DisplayRequest)
    : M CompState Empty_set DisplayP.DisplayResponse :=
  match req with
  | DisplayP.CreateSurface =>
      respond create_surface DisplayP.BadSurface (λ id, mret (DisplayP.SurfaceCreated id))
  | DisplayP.CommitBuffer surface _ w h =>
      let n := saturating_mul U32 (saturating_mul U32 w h) 4 in
      if (FRAME_MAX <? n)%N then mret (DisplayP.Error DisplayP.BadBuffer) else
      respond (commit_buffer surface w h) DisplayP.BadSurface
        (λ _, _ ← copy_frame_to_confirm n; mret DisplayP.Committed)
  | DisplayP.DestroySurface surface =>
      respond (destroy_surface surface) DisplayP.BadSurface (λ _, mret DisplayP.Destroyed)
  | DisplayP.SubscribeInput | DisplayP.QueryOutputs =>
      mret (DisplayP.Error DisplayP.Unsupported)
  end.

(** The client writes the frame buffer and can read both regions; the second
    component of what it writes is not used. *)
Definition CompositorService : Service := {|
  sv_state := CompState;
  sv_data := list N * list N;
  sv_req := DisplayReq;
  sv_resp := DisplayResp;
  sv_data_ok d := len d.1 = FRAME_MAX;
  sv_put d := set_frame d.1;
  sv_get s := (frame s, confirm s);
  sv_handle := handle_request;
  sv_error := DisplayP.Error DisplayP.Unsupported;
|}.

(** ** The abstract compositor *)

Record CompSpec := mkCompSpec {
  c_created : gset N;
  c_live : gset N;
  c_confirm : list N;
}.

Inductive comp_step : CompSpec → (list N * list N) * DisplayP.DisplayRequest →
    DisplayP.DisplayResponse * (list N * list N) → CompSpec → Prop :=
| cs_create a f x i :
    i ∉ c_created a →
    comp_step a ((f, x), DisplayP.CreateSurface) (DisplayP.SurfaceCreated i, (f, c_confirm a))
      (mkCompSpec ({[i]} ∪ c_created a) ({[i]} ∪ c_live a) (c_confirm a))
| cs_commit a f x i b w h :
    i ∈ c_live a → (w * h * 4 ≤ FRAME_MAX)%N →
    let n := N.to_nat (w * h * 4) in
    let shown := take n f ++ drop n (c_confirm a) in
    comp_step a ((f, x), DisplayP.CommitBuffer i b w h) (DisplayP.Committed, (f, shown))
      (mkCompSpec (c_created a) (c_live a) shown)
| cs_commit_large a f x i b w h :
    (FRAME_MAX < w * h * 4)%N →
    comp_step a ((f, x), DisplayP.CommitBuffer i b w h)
      (DisplayP.Error DisplayP.BadBuffer, (f, c_confirm a)) a
| cs_commit_dead a f x i b w h :
    i ∉ c_live a → (w * h * 4 ≤ FRAME_MAX)%N →
    comp_step a ((f, x), DisplayP.CommitBuffer i b w h)
      (DisplayP.Error DisplayP.BadSurface, (f, c_confirm a)) a
| cs_destroy a f x i :
    i ∈ c_live a →
    comp_step a ((f, x), DisplayP.DestroySurface i) (DisplayP.Destroyed, (f, c_confirm a))
      (mkCompSpec (c_created a) (c_live a ∖ {[i]}) (c_confirm a))
| cs_destroy_dead a f x i :
    i ∉ c_live a →
    comp_step a ((f, x), DisplayP.DestroySurface i)
      (DisplayP.Error DisplayP.BadSurface, (f, c_confirm a)) a
| cs_unsupported a f x q :
    q = DisplayP.SubscribeInput ∨ q = DisplayP.QueryOutputs →
    comp_step a ((f, x), q) (DisplayP.Error DisplayP.Unsupported, (f, c_confirm a)) a.

Record comp_rel (s : CompState) (a : CompSpec) : Prop := {
  cr_live : dom (surfaces (comp s)) = c_live a;
  cr_created i : i ∈ c_created a → (i < next_surface_id (comp s))%N;
  cr_sub : c_live a ⊆ c_created a;
  cr_next : u32 (next_surface_id (comp s));
  cr_frame : len (frame s) = FRAME_MAX;
  cr_confirm : c_confirm a = confirm s;
  cr_len : len (confirm s) = FRAME_MAX;
}.

(** The requests on which the service stops. *)
Definition exhausted (c : Compositor) (req : DisplayP.DisplayRequest) : Prop :=
  match req with
  | DisplayP.CreateSurface => (U32 ≤ next_surface_id c + 1)%N
  | DisplayP.CommitBuffer i _ w h =>
      (w * h * 4 ≤ FRAME_MAX)%N ∧
      ∃ s, surfaces c !! i = Some s ∧ (U32 ≤ commit_count s + 1)%N
  | _ => False
  end.

(** ** The service refines it *)

(** The saturating product is exact where it is used. *)
Lemma frame_size w h :
  let n := saturating_mul U32 (saturating_mul U32 w h) 4 in
  ((FRAME_MAX < n)%N ↔ (FRAME_MAX < w * h * 4)%N) ∧
  ((n ≤ FRAME_MAX)%N → n = (w * h * 4)%N).
Proof. unfold saturating_mul, FRAME_MAX. cbn zeta. lia. Qed.

Lemma copy_frame_run s n :
  (n ≤ FRAME_MAX)%N → len (frame s) = FRAME_MAX → len (confirm s) = FRAME_MAX →
  copy_frame_to_confirm n s =
    (Ok tt, set_confirm (take (N.to_nat n) (frame s) ++ drop (N.to_nat n) (confirm s)) s).
Proof.
  intros Hn Hf Hc. unfold copy_frame_to_confirm. run. rewrite sub_prefix by lia. run.
  rewrite copy_into_Some; [done|lia|]. unfold len in *. rewrite length_take. lia.
Qed.

Lemma surface_live s a i : comp_rel s a → is_Some (surfaces (comp s) !! i) ↔ i ∈ c_live a.
Proof. intros Hr. by rewrite <- elem_of_dom, (cr_live s a Hr). Qed.

Lemma handle_step s a f x req :
  comp_rel s a → in_range DisplayReq req → len f = FRAME_MAX →
  match handle_request req (set_frame f s) with
  | (Ok resp, s') => in_range DisplayResp resp ∧
      ∃ a', comp_step a ((f, x), req) (resp, (frame s', confirm s')) a' ∧ comp_rel s' a'
  | (Err _, _) => False
  | (Panic, _) => exhausted (comp s) req
  end.
Proof.
  intros Hr Hreq Hf. pose proof (cr_confirm s a Hr) as Hc. pose proof (cr_len s a Hr) as Hl.
  destruct req as [|i b w h|i| |]; simpl in Hreq.
  - unfold handle_request, respond, create_surface. cbn [comp set_frame]. run.
    destruct (N.ltb_spec (next_surface_id (comp s) + 1) U32) as [Hlt|Hge];
      [rewrite checked_add_lt by done|by rewrite checked_add_ge by done]. run.
    set (i := next_surface_id (comp s)) in *. split; [simpl; lia|].
    exists (mkCompSpec ({[i]} ∪ c_created a) ({[i]} ∪ c_live a) (c_confirm a)). simpl. split.
    + rewrite <- Hc. apply cs_create. intros Hi%(cr_created s a Hr). unfold i in Hi. lia.
    + destruct Hr. split; simpl; try done.
      * by rewrite dom_insert_L, cr_live0.
      * intros j [->%elem_of_singleton|Hj%cr_created0]%elem_of_union; unfold i in *; lia.
      * set_solver.
  - unfold handle_request. destruct (frame_size w h) as [Hbig Hsmall]. cbn zeta in *.
    destruct (N.ltb_spec FRAME_MAX (saturating_mul U32 (saturating_mul U32 w h) 4)) as [Hb|Hs].
    { split; [done|]. exists a. split; [simpl; rewrite <- Hc; by apply cs_commit_large, Hbig|].
      by destruct Hr. }
    pose proof (Hsmall Hs) as Hn. rewrite Hn in *. clear Hsmall Hbig. unfold respond, commit_buffer. cbn [comp set_frame]. run.
    pose proof (surface_live s a i Hr) as Hi.
    destruct (surfaces (comp s) !! i) as [sf|] eqn:Hsf; run.
    + destruct (N.ltb_spec (commit_count sf + 1) U32) as [Hlt|Hge];
        [rewrite checked_add_lt by done|rewrite checked_add_ge by done; run; split; [done|by exists sf]]. run.
      unfold set_comp, set_frame. cbn [frame confirm comp].
      rewrite copy_frame_run by done. split; [done|]. cbn [frame confirm set_confirm].
      rewrite <- Hc. eexists. split; [apply cs_commit; [apply Hi; by eexists|done]|].
      destruct Hr. split; simpl; try done.
      * rewrite !dom_insert_L, <- cr_live0. apply elem_of_dom_2 in Hsf. set_solver.
      * rewrite cr_confirm0. unfold len, FRAME_MAX in *.
        rewrite length_app, length_take, length_drop. lia.
    + split; [done|]. exists a. split; [|by destruct Hr].
      simpl. rewrite <- Hc. apply cs_commit_dead; [|done]. rewrite <- Hi. by intros [].
  - unfold handle_request, respond, destroy_surface. cbn [comp set_frame]. run.
    pose proof (surface_live s a i Hr) as Hi.
    destruct (surfaces (comp s) !! i) as [sf|] eqn:Hsf; run; (split; [done|]).
    + eexists. simpl. rewrite <- Hc. split; [apply cs_destroy, Hi; by eexists|].
      destruct Hr. split; simpl; try done.
      * by rewrite dom_delete_L, cr_live0.
      * set_solver.
    + exists a. simpl. rewrite <- Hc. split; [apply cs_destroy_dead; rewrite <- Hi; by intros []|].
      destruct Hr. split; simpl; try done. by rewrite delete_id.
  - split; [done|]. exists a. simpl. rewrite <- Hc. split; [apply cs_unsupported; by left|].
    by destruct Hr.
  - split; [done|]. exists a. simpl. rewrite <- Hc. split; [apply cs_unsupported; by right|].
    by destruct Hr.
Qed.

Definition comp_inv (s : CompState) : Prop := ∃ a, comp_rel s a.

#[export] Instance comp_service_spec : ServiceSpec CompositorService comp_inv.
Proof.
  split.
  - intros req s Hreq [a Hr]. pose proof (handle_step s a (frame s) [] req Hr Hreq (cr_frame s a Hr)) as H.
    replace (set_frame (frame s) s) with s in H by by destruct s.
    unfold wp. simpl. destruct (handle_request req s) as [[resp|e|] s']; simpl; [|done..].
    destruct H as (? & a' & _ & ?). split; [done|by exists a'].
  - intros d s Hd [a Hr]. exists a. by destruct Hr.
  - done.
Qed.

#[export] Instance comp_service_implements : Implements CompositorService comp_rel comp_step.
Proof.
  intros [[f x] req] r s s' a [Hd Hreq] Hr. simpl in f, x, req, Hd, Hreq.
  pose proof (handle_step s a f x req Hr Hreq Hd) as H. unfold handle.
  cbn [CompositorService sv_put sv_handle sv_get]. run. cbn [fst snd].
  destruct (handle_request req (set_frame f s)) as [[resp|[]|] s1]; [|done].
  destruct H as (_ & a' & Hst & Hr'). intros [= <- <-]. by exists a'.
Qed.

Definition comp_boot (f c : list N) : CompState := mkCompState compositor_new f c.

Lemma comp_boot_rel f c :
  len f = FRAME_MAX → len c = FRAME_MAX → comp_rel (comp_boot f c) (mkCompSpec ∅ ∅ c).
Proof. intros. split; simpl; try done; set_solver. Qed.

(** No counter of the surface table is above [k]. *)
Definition counts (k : N) (c : Compositor) : Prop :=
  (next_surface_id c ≤ k)%N ∧ map_Forall (λ _ s, (commit_count s ≤ k)%N) (surfaces c).

Lemma handle_counts req s k :
  counts k (comp s) → (k + 1 < U32)%N →
  match handle_request req s with
  | (Ok _, s') => counts (k + 1) (comp s')
  | _ => True
  end.
Proof.
  intros [Hn Hs] Hk. assert (counts (k + 1) (comp s)) as Hs1.
  { split; [lia|]. eapply map_Forall_impl; [exact Hs|]. simpl. lia. }
  destruct req as [|i b w h|i| |]; try done; unfold handle_request.
  - unfold respond, create_surface. run. rewrite checked_add_lt by lia. run. simpl. split; simpl; [lia|].
    apply map_Forall_insert_2; [simpl; lia|by apply Hs1].
  - destruct (FRAME_MAX <? _)%N; [done|]. unfold respond, commit_buffer. run.
    destruct (surfaces (comp s) !! i) as [sf|] eqn:Hsf; run; [|done].
    apply Hs in Hsf as Hc. simpl in Hc. rewrite checked_add_lt by lia. run.
    unfold copy_frame_to_confirm. run. destruct (sub _ _ _); run; [|done].
    destruct (copy_into _ _ _ _); run; [|done]. split; simpl; [lia|].
    apply map_Forall_insert_2; [simpl; lia|]. apply map_Forall_insert_2; [simpl; lia|by apply Hs1].
  - unfold respond, destroy_surface. run. destruct (surfaces (comp s) !! i); run; (split; [simpl; lia|]);
      apply map_Forall_delete, Hs1.
Qed.

Lemma counts_not_exhausted req s k :
  counts k (comp s) → (k + 1 < U32)%N → ¬ exhausted (comp s) req.
Proof.
  intros [Hn Hs] Hk. destruct req as [|i b w h|i| |]; simpl; try tauto; [lia|].
  intros [_ (sf & Hsf & Hge)]. apply Hs in Hsf. simpl in Hsf. lia.
Qed.

(** Below [2^32] requests every one is answered. *)
Lemma compositor_returns qs s a :
  Forall (request_ok CompositorService) qs → comp_rel s a → counts 0 (comp s) →
  (N.of_nat (length qs) < U32)%N → ∃ rs s', handle_all CompositorService qs s = (Ok rs, s').
Proof.
  intros Hq Hr Hc Hlen.
  eapply (handle_all_returns CompositorService
    (λ k s, counts (N.of_nat k) (comp s) ∧ ∃ a, comp_rel s a) (length qs) _ qs 0 s);
    [lia|done|by eauto].
  Unshelve. clear s a Hr Hc Hq. intros k [[f x] req] s Hk [Hd Hreq] [Hc [a Hr]].
  simpl in f, x, req, Hd, Hreq. unfold handle.
  cbn [CompositorService sv_put sv_handle sv_get fst snd]. run.
  pose proof (handle_step s a f x req Hr Hreq Hd) as H.
  pose proof (handle_counts req (set_frame f s) (N.of_nat k) Hc ltac:(lia)) as Hc'.
  destruct (handle_request req (set_frame f s)) as [[resp|e|] s1]; [|done|].
  - destruct H as (_ & a' & _ & Hr'). run. eexists _, _. split; [reflexivity|].
    replace (N.of_nat (1 + k)) with (N.of_nat k + 1)%N by lia. split; [done|by exists a'].
  - exfalso. eapply (counts_not_exhausted req s); [exact Hc|lia|done].
Qed.

(** C35 Refinement: whatever a client sends to a fresh compositor over the shared
    page, in fewer than [2^32] requests, each is answered, and the responses that
    it decodes are those of a run of the abstract one: every surface it gets is
    new, a commit succeeds exactly on a live surface with a frame that fits the
    buffer and then shows exactly the bytes of the frame that the client wrote,
    and a destroyed surface is refused from then on. *)
Theorem compositor_correct {FB : FlagBits} {FBS : FlagBitsSpec FB} qs f c p :
  Forall (request_ok CompositorService) qs → len f = FRAME_MAX → len c = FRAME_MAX →
  (N.of_nat (length qs) < U32)%N →
  ∃ rs a' s' p',
    calls CompositorService qs (comp_boot f c, p) = (Ok (decoded (S := CompositorService) <$> rs), (s', p')) ∧
    spec_run comp_step (mkCompSpec ∅ ∅ c) qs rs a' ∧ comp_rel s' a'.
Proof.
  intros Hq Hf Hc Hlen. pose proof (comp_boot_rel f c Hf Hc) as Hr.
  destruct (compositor_returns qs _ _ Hq Hr) as (rs & s' & Hall); [by split|done|].
  destruct (handle_all_simulate CompositorService comp_rel comp_step qs _ _ rs s' Hq Hr Hall)
    as (a' & Hrun & Hr').
  pose proof (calls_outcome CompositorService comp_inv qs _ p Hq (ex_intro _ _ Hr)) as Ho.
  rewrite Hall in Ho. destruct Ho as (p' & Hcalls & _). by exists rs, a', s', p'.
Qed.

(** A surface that was destroyed is never alive again: surface numbers are not
    reused. *)
Lemma destroyed_stays_dead a qs rs a' i :
  spec_run comp_step a qs rs a' → i ∈ c_created a → i ∉ c_live a → i ∉ c_live a'.
Proof.
  induction 1 as [|a q r a1 qs rs a2 Hst _ IH]; [done|]. intros Hc Hl. apply IH.
  - destruct Hst; simpl; set_solver.
  - destruct Hst; simpl; set_solver.
Qed.

(** ** A run *)

Definition frame_of (b : N) : list N := replicate 4096 b.

Definition sample_calls : list ((list N * list N) * DisplayP.DisplayRequest) :=
  [ ((frame_of 1, []), DisplayP.CreateSurface); ((frame_of 2, []), DisplayP.CommitBuffer 0 0 4 4);
    ((frame_of 3, []), DisplayP.CommitBuffer 0 0 65536 65536);
    ((frame_of 4, []), DisplayP.DestroySurface 0); ((frame_of 5, []), DisplayP.CommitBuffer 0 0 1 1);
    ((frame_of 6, []), DisplayP.CreateSurface); ((frame_of 7, []), DisplayP.QueryOutputs) ].

Lemma comp_calls_ok : Forall (request_ok CompositorService) sample_calls.
Proof. repeat (constructor; [split; [by vm_compute|done]|]). constructor. Qed.

Example comp_responses :
  match (calls CompositorService sample_calls
           (comp_boot (frame_of 0) (frame_of 0), mkPage 0 [])).1 with
  | Ok rs => (λ r : _ * (list N * list N), (r.1, take 1 r.2.2, take 1 (drop 64 r.2.2))) <$> rs
  | _ => []
  end =
  [ (Ok (DisplayP.SurfaceCreated 0), [0], [0]); (Ok DisplayP.Committed, [2], [0]);
    (Ok (DisplayP.Error DisplayP.BadBuffer), [2], [0]); (Ok DisplayP.Destroyed, [2], [0]);
    (Ok (DisplayP.Error DisplayP.BadSurface), [2], [0]);
    (Ok (DisplayP.SurfaceCreated 1), [2], [0]);
    (Ok (DisplayP.Error DisplayP.Unsupported), [2], [0]) ]%N.
Proof. vm_compute. reflexivity. Qed.

Lemma compositor_correct_witness :
  let f := frame_of 0 in
  ∃ rs a' s' p',
    calls CompositorService sample_calls (comp_boot f f, mkPage 0 []) =
      (Ok (decoded (S := CompositorService) <$> rs), (s', p')) ∧
    spec_run comp_step (mkCompSpec ∅ ∅ f) sample_calls rs a' ∧ comp_rel s' a'.
Proof.
  intros f. apply (compositor_correct sample_calls f f (mkPage 0 []) comp_calls_ok);
    by vm_compute.
Defined.
