(* ===== verification/RootTask.v ===== *)
(** * The boot plan of the root task

    [root-task/src/lib.rs]: [plan_boot] divides the usable memory between the root
    task, the services it starts and a rest that is handed out later. *)

From S2P Require Import Prelude Untyped.

Inductive Service := DeviceManager | VfsService | BlockDriver | SecurityBrokerIntermediary.

Definition BOOT_ORDER : list Service :=
  [DeviceManager; VfsService; BlockDriver; SecurityBrokerIntermediary].

Definition memory_budget_bytes (s : Service) : N :=
  match s with
  | DeviceManager => 4 * 1024 * 1024
  | VfsService => 8 * 1024 * 1024
  | BlockDriver => 2 * 1024 * 1024
  | SecurityBrokerIntermediary => 2 * 1024 * 1024
  end.

Record MemoryGrant := mkGrant { service : Service; g_bytes : N }.

Record BootPlan := mkPlan {
  grants : list MemoryGrant;
  root_reserve_bytes : N;
  free_bytes : N;
}.

Inductive PlanError := InsufficientMemory.

Definition PAGE_SIZE : N := 4096.

(** [(v + align - 1) & !(align - 1)], left to right. *)
Definition round_up (v align : N) : outcome PlanError N :=
  a ← or_panic (checked_add U64 v align);
  b ← or_panic (checked_sub a 1);
  c ← or_panic (checked_sub align 1);
  mret (N.land b (u64_not c)).

(** The loop over the services: the total committed and the grants so far. *)
Fixpoint commit_services (services : list Service) (committed : N) (grants : list MemoryGrant)
    : outcome PlanError (N * list MemoryGrant) :=
  match services with
  | [] => mret (committed, grants)
  | svc :: services =>
      bytes ← round_up (memory_budget_bytes svc) PAGE_SIZE;
      commit_services services (saturating_add U64 committed bytes)
        (grants ++ [mkGrant svc bytes])
  end.

Definition plan_boot (total_usable_bytes : N) : outcome PlanError BootPlan :=
  r ← round_up (total_usable_bytes / 16) PAGE_SIZE;
  let root_reserve := N.max r (4 * 1024 * 1024) in
  '(committed, grants) ← commit_services BOOT_ORDER root_reserve [];
  if (total_usable_bytes <? committed)%N then Err InsufficientMemory else
  free ← or_panic (checked_sub total_usable_bytes committed);
  mret (mkPlan grants root_reserve free).

(** ** Correctness *)

(** Rounding up to a power of two, and the panic when the sum overflows. *)
Lemma round_up_spec v k :
  (k < 64)%N →
  match round_up v (2 ^ k) with
  | Ok x => (v + 2 ^ k < U64 ∧ v ≤ x < v + 2 ^ k ∧ x mod 2 ^ k = 0)%N
  | Err _ => False
  | Panic => (U64 ≤ v + 2 ^ k)%N
  end.
Proof.
  intros Hk. assert (2 ^ k ≠ 0)%N as Hne by (apply N.pow_nonzero; done).
  unfold round_up. destruct (N.ltb_spec (v + 2 ^ k) U64) as [Hlt|Hge];
    [rewrite checked_add_lt by done|by rewrite checked_add_ge by done].
  simpl. unfold checked_sub. rewrite !(proj2 (N.leb_le _ _)) by lia. simpl.
  rewrite land_not_ones by lia. split; [done|].
  destruct (align_up_spec v (2 ^ k) ((v + 2 ^ k - 1) / 2 ^ k * 2 ^ k) Hne) as (? & ? & ?); [|done].
  by replace (v + (2 ^ k - 1))%N with (v + 2 ^ k - 1)%N by lia.
Qed.

Definition total_granted (gs : list MemoryGrant) : N :=
  foldr (λ g n, (g_bytes g + n)%N) 0%N gs.

(** The services always get their budgets, in boot order: 16 MiB in all. *)
Lemma commit_services_run c :
  (c + 16777216 < U64)%N →
  commit_services BOOT_ORDER c [] =
    Ok ((c + 16777216)%N, (λ s, mkGrant s (memory_budget_bytes s)) <$> BOOT_ORDER).
Proof.
  intros Hc. unfold commit_services, BOOT_ORDER.
  change (round_up (memory_budget_bytes DeviceManager) PAGE_SIZE) with
    (Ok 4194304%N : outcome PlanError N).
  change (round_up (memory_budget_bytes VfsService) PAGE_SIZE) with
    (Ok 8388608%N : outcome PlanError N).
  change (round_up (memory_budget_bytes BlockDriver) PAGE_SIZE) with
    (Ok 2097152%N : outcome PlanError N).
  change (round_up (memory_budget_bytes SecurityBrokerIntermediary) PAGE_SIZE) with
    (Ok 2097152%N : outcome PlanError N).
  cbn [mbind outcome_bind app]. unfold saturating_add.
  rewrite !N.min_l by lia.
  cbv [mret outcome_ret]. do 2 f_equal. lia.
Qed.

(** The boot plan never over-commits memory: for every amount of memory it
    returns, without a panic, either a plan in which the reserve of the root task
    (at least a sixteenth, at least 4 MiB, whole pages), the page-aligned budgets
    of all services in boot order and the free rest add up to exactly that
    amount, or an error, which is the case exactly below 20 MiB. *)
Theorem plan_boot_correct total :
  (total < U64)%N →
  match plan_boot total with
  | Ok p =>
      (20971520 ≤ total ∧
       root_reserve_bytes p + total_granted (grants p) + free_bytes p = total ∧
       total / 16 ≤ root_reserve_bytes p ∧ 4194304 ≤ root_reserve_bytes p ∧
       root_reserve_bytes p mod PAGE_SIZE = 0)%N ∧
      service <$> grants p = BOOT_ORDER ∧
      Forall (λ g, (g_bytes g mod PAGE_SIZE = 0 ∧ memory_budget_bytes (service g) ≤ g_bytes g)%N)
        (grants p)
  | Err InsufficientMemory => (total < 20971520)%N
  | Panic => False
  end.
Proof.
  intros Ht. unfold plan_boot.
  assert (16 * (total / 16) ≤ total < 16 * (total / 16) + 16)%N as Hdiv.
  { pose proof (N.div_mod total 16 ltac:(done)) as H1.
    pose proof (N.mod_lt total 16 ltac:(done)) as H2. revert H1 H2.
    generalize (total / 16)%N (total mod 16)%N. lia. }
  pose proof (round_up_spec (total / 16) 12) as Hr. change (2 ^ 12)%N with PAGE_SIZE in Hr.
  unfold PAGE_SIZE in *. destruct (round_up (total / 16) 4096) as [r|[]|]; [|lia..].
  destruct Hr as (_ & Hr & Hmod); [done|]. cbn [mbind outcome_bind]. cbv zeta.
  set (reserve := N.max r (4 * 1024 * 1024)).
  assert (reserve = N.max r 4194304) as Hres by done.
  rewrite commit_services_run by lia. cbn [mbind outcome_bind].
  destruct (N.ltb_spec total (reserve + 16777216)) as [Hlt|Hge]; [lia|].
  unfold checked_sub. rewrite (proj2 (N.leb_le _ _)) by done. simpl.
  split_and!; [lia..| |done|].
  - rewrite Hres. destruct (N.max_spec r 4194304) as [[_ ->]|[_ ->]]; [done|done].
  - repeat (constructor; [split; [reflexivity|apply N.le_refl]|]). constructor.
Qed.

Lemma plan_boot_correct_witness :
  (134217728 < U64)%N ∧
  match plan_boot 134217728 with
  | Ok p =>
      (20971520 ≤ 134217728 ∧
       root_reserve_bytes p + total_granted (grants p) + free_bytes p = 134217728 ∧
       134217728 / 16 ≤ root_reserve_bytes p ∧ 4194304 ≤ root_reserve_bytes p ∧
       root_reserve_bytes p mod PAGE_SIZE = 0)%N ∧
      service <$> grants p = BOOT_ORDER ∧
      Forall (λ g, (g_bytes g mod PAGE_SIZE = 0 ∧ memory_budget_bytes (service g) ≤ g_bytes g)%N)
        (grants p)
  | Err InsufficientMemory => (134217728 < 20971520)%N
  | Panic => False
  end.
Proof. split; [done|]. apply (plan_boot_correct 134217728). done. Defined.

Example plan_boot_128M :
  plan_boot 134217728 =
  Ok (mkPlan [mkGrant DeviceManager 4194304; mkGrant VfsService 8388608;
              mkGrant BlockDriver 2097152; mkGrant SecurityBrokerIntermediary 2097152]
        8388608 109051904).
Proof. vm_compute. reflexivity. Qed.
