(* ===== verification/DeviceManager.v ===== *)
(** * The device manager

    [device-manager/src/lib.rs]: the restart policy of a supervised driver
    ([Supervised]) and the log of requests that were in flight when it crashed
    ([RequestLog]); [subsystem_entry.rs]: the loop that drives the policy. *)

From stdpp Require Import gmap sorting.
From S2P Require Import Prelude.

Definition MAX_RESTARTS_IN_WINDOW : N := 5.
Definition FAILURE_WINDOW_NS : N := 60000000000.

(** ** The restart policy *)

Inductive DriverState := Starting | Running | Restarting | Failed.

#[export] Instance DriverState_eq_dec : EqDecision DriverState.
Proof. solve_decision. Defined.

Record Supervised := mkSupervised {
  state : DriverState;
  restarts_in_window : N;
  window_start_ns : N;
  lifetime_restarts : N;
}.

Definition supervised_new : Supervised := mkSupervised Starting 0 0 0.

Definition set_state st s := mkSupervised st (restarts_in_window s) (window_start_ns s) (lifetime_restarts s).
Definition set_restarts n s := mkSupervised (state s) n (window_start_ns s) (lifetime_restarts s).
Definition set_window t s := mkSupervised (state s) (restarts_in_window s) t (lifetime_restarts s).
Definition set_lifetime n s := mkSupervised (state s) (restarts_in_window s) (window_start_ns s) n.

Section policy.
Context {E : Type}.

Definition on_probe_ok : M Supervised E unit := modify (set_state Running).

Definition on_crash (now_ns : N) : M Supervised E DriverState :=
  l ← gets lifetime_restarts; l ← unwrap (checked_add U64 l 1); _ ← modify (set_lifetime l);
  start ← gets window_start_ns;
  _ ← (if (start =? 0)%N || (FAILURE_WINDOW_NS <? saturating_sub now_ns start)%N
       then _ ← modify (set_window now_ns); modify (set_restarts 0)
       else mret tt);
  n ← gets restarts_in_window; n ← unwrap (checked_add U32 n 1); _ ← modify (set_restarts n);
  _ ← modify (set_state (if (MAX_RESTARTS_IN_WINDOW <? n)%N then Failed else Restarting));
  gets state.

Definition on_respawn : M Supervised E unit :=
  st ← gets state;
  if decide (st = Restarting) then modify (set_state Starting) else mret tt.
End policy.

(** ** The log of requests in flight *)

Definition MAX_IN_FLIGHT_REQUESTS : N := 256.

Inductive RequestLogError := Full.

(** An entry holds the [request_id]. *)
Record RequestLog := mkLog { entries : list (option N); log_len : N }.

Definition log_new : RequestLog := mkLog (replicate (N.to_nat MAX_IN_FLIGHT_REQUESTS) None) 0.

Definition log_is_empty (l : RequestLog) : bool := (log_len l =? 0)%N.

Definition set_entry (i : nat) (e : option N) (l : RequestLog) : RequestLog :=
  mkLog (<[i := e]> (entries l)) (log_len l).

Definition set_log_len (n : N) (l : RequestLog) : RequestLog := mkLog (entries l) n.

Definition is_request (id : N) (e : option N) : bool :=
  match e with Some r => (r =? id)%N | None => false end.

Definition try_insert (id : N) : M RequestLog RequestLogError unit :=
  es ← gets entries;
  if existsb (λ r, (r =? id)%N) (flatten es) then mret tt else
  n ← gets log_len;
  if (MAX_IN_FLIGHT_REQUESTS <=? n)%N then throw Full else
  i ← unwrap (position is_none es);
  _ ← modify (set_entry i (Some id));
  n ← unwrap (checked_add U64 n 1);
  modify (set_log_len n).

Definition ack (id : N) : M RequestLog RequestLogError unit :=
  es ← gets entries;
  match position (is_request id) es with
  | Some i =>
      _ ← modify (set_entry i None);
      n ← gets log_len; n ← unwrap (checked_sub n 1); modify (set_log_len n)
  | None => mret tt
  end.

Definition in_flight (l : RequestLog) : list N := flatten (entries l).

(** ** The process ([subsystem_entry.rs]) *)

(** What the process does that the kernel sees: reports, waiting for the driver's
    death, asking for a new driver. *)
Inductive DmEvent :=
| Report (st : DriverState) (restarts : N)
| WaitCrash
| RespawnDriver.

Definition Dm := (Supervised * list DmEvent)%type.

Definition on_sv {A} (m : M Supervised Empty_set A) : M Dm Empty_set A :=
  zoom fst (λ s d, (s, d.2)) m.

Definition emit (e : DmEvent) : M Dm Empty_set unit := modify (λ d, (d.1, d.2 ++ [e])).

Definition report (st : DriverState) : M Dm Empty_set unit :=
  n ← gets (λ d, restarts_in_window d.1); emit (Report st n).

(** The loop; [None]: the fuel did not suffice. *)
Fixpoint crash_loop (fuel : nat) (now_ns : N) : M Dm Empty_set (option unit) :=
  match fuel with
  | 0 => mret None
  | S fuel =>
      _ ← emit WaitCrash;
      st ← on_sv (on_crash now_ns);
      _ ← report st;
      if decide (st = Failed) then mret (Some tt) else
      _ ← on_sv on_respawn;
      _ ← emit RespawnDriver;
      now_ns ← unwrap (checked_add U64 now_ns 1000);
      crash_loop fuel now_ns
  end.

Definition subsystem_main (fuel : nat) : M Dm Empty_set (option unit) :=
  st ← gets (λ d, state d.1); _ ← report st;
  _ ← on_sv on_probe_ok;
  st ← gets (λ d, state d.1); _ ← report st;
  crash_loop fuel 1000.

(** Termination: the process parks the driver: it reports [Starting] and
    [Running], waits for each death, asks for a new driver after each of the first
    five and stops with the report [Failed] after the sixth, however much fuel
    beyond six rounds the loop is given. *)
Lemma subsystem_main_parks fuel :
  6 ≤ fuel →
  subsystem_main fuel (supervised_new, []) =
    (Ok (Some tt),
     (mkSupervised Failed 6 1000 6,
      [Report Starting 0; Report Running 0] ++
      mjoin ((λ n, [WaitCrash; Report Restarting n; RespawnDriver]) <$> [1; 2; 3; 4; 5]%N) ++
      [WaitCrash; Report Failed 6])).
Proof. intros Hf. do 6 (destruct fuel as [|fuel]; [lia|]). reflexivity. Qed.

Lemma subsystem_main_parks_witness :
  6 ≤ 8 ∧
  subsystem_main 8 (supervised_new, []) =
    (Ok (Some tt),
     (mkSupervised Failed 6 1000 6,
      [Report Starting 0; Report Running 0] ++
      mjoin ((λ n, [WaitCrash; Report Restarting n; RespawnDriver]) <$> [1; 2; 3; 4; 5]%N) ++
      [WaitCrash; Report Failed 6])).
Proof. split; [lia|]. apply (subsystem_main_parks 8). lia. Defined.

(** ** The log is a bounded set *)

Lemma flatten_set_Some {A} (l : list (option A)) i x :
  l !! i = Some None → flatten (<[i := Some x]> l) ≡ₚ x :: flatten l.
Proof.
  revert i. induction l as [|o l IH]; intros [|i] Hi; simpl in *; try done.
  - by injection Hi as ->.
  - destruct o as [y|]; rewrite (IH i Hi); [apply Permutation_swap|done].
Qed.

Lemma flatten_set_None {A} (l : list (option A)) i x :
  l !! i = Some (Some x) → flatten l ≡ₚ x :: flatten (<[i := None]> l).
Proof.
  revert i. induction l as [|o l IH]; intros [|i] Hi; simpl in *; try done.
  - by injection Hi as ->.
  - destruct o as [y|]; rewrite (IH i Hi); [apply Permutation_swap|done].
Qed.

Lemma flatten_full {A} (l : list (option A)) :
  position is_none l = None → length (flatten l) = length l.
Proof.
  induction l as [|[x|] l IH]; simpl; [done| |done].
  destruct (position is_none l); [done|]. intros _. by rewrite IH.
Qed.

Record log_wf (l : RequestLog) : Prop := {
  lw_length : length (entries l) = N.to_nat MAX_IN_FLIGHT_REQUESTS;
  lw_nodup : NoDup (in_flight l);
  lw_len : log_len l = N.of_nat (length (in_flight l));
}.

Definition log_set (l : RequestLog) : gset N := list_to_set (in_flight l).

Inductive LogOp := Insert (id : N) | Ack (id : N).

Definition log_op (o : LogOp) : M RequestLog RequestLogError unit :=
  match o with Insert id => try_insert id | Ack id => ack id end.

(** A set of at most 256 requests. *)
Definition set_op (o : LogOp) : M (gset N) RequestLogError unit := λ X,
  match o with
  | Insert id =>
      if decide (id ∈ X) then (Ok tt, X) else
      if decide (N.to_nat MAX_IN_FLIGHT_REQUESTS ≤ size X) then (Err Full, X)
      else (Ok tt, {[id]} ∪ X)
  | Ack id => (Ok tt, X ∖ {[id]})
  end.

Lemma log_set_size l : log_wf l → N.of_nat (size (log_set l)) = log_len l.
Proof.
  intros [_ Hnd ->]. unfold log_set. by rewrite size_list_to_set.
Qed.

Lemma log_op_refines o l :
  log_wf l →
  (log_op o l).1 = (set_op o (log_set l)).1 ∧ log_wf (log_op o l).2 ∧
  log_set (log_op o l).2 = (set_op o (log_set l)).2.
Proof.
  intros Hl. pose proof (log_set_size l Hl) as Hsize. destruct Hl as [Hlen Hnd Hn].
  assert (length (in_flight l) ≤ 256) as Hcap.
  { unfold in_flight. pose proof (flatten_length_le (entries l)). unfold MAX_IN_FLIGHT_REQUESTS in *. lia. }
  destruct o as [id|id]; simpl.
  - unfold try_insert. run.
    assert (existsb (λ r, (r =? id)%N) (flatten (entries l)) = bool_decide (id ∈ log_set l)) as ->.
    { apply eq_true_iff_eq. rewrite existsb_exists, bool_decide_eq_true.
      unfold log_set, in_flight. rewrite elem_of_list_to_set. setoid_rewrite <- list_elem_of_In.
      split; [intros (x & ? & ->%N.eqb_eq); done|intros; exists id; by rewrite N.eqb_refl]. }
    case_bool_decide as Hid.
    { run. rewrite decide_True by done. by split_and!. }
    run. rewrite decide_False by done. unfold MAX_IN_FLIGHT_REQUESTS in *.
    destruct (N.leb_spec 256 (log_len l)) as [Hf|Hf].
    { rewrite decide_True by lia. run. by split_and!. }
    rewrite decide_False by lia. destruct (position is_none (entries l)) as [i|] eqn:Hp.
    + apply position_free in Hp as [Hi _]. run. rewrite checked_add_lt by lia. run.
      pose proof (flatten_set_Some (entries l) i id Hi) as Hperm. split_and!; [done| |].
      * split; unfold in_flight; simpl; [by rewrite length_insert| |].
        -- rewrite Hperm. constructor; [|done]. intros H. apply Hid.
           unfold log_set. by apply elem_of_list_to_set.
        -- rewrite (Permutation_length Hperm). simpl. unfold in_flight in *. lia.
      * unfold log_set, in_flight. simpl. rewrite Hperm. done.
    + apply flatten_full in Hp. unfold in_flight in *. lia.
  - unfold ack. run. destruct (position (is_request id) (entries l)) as [i|] eqn:Hp.
    + apply position_Some in Hp as [([r|] & Hi & Hr) _]; [|done].
      simpl in Hr. apply N.eqb_eq in Hr as ->.
      pose proof (flatten_set_None (entries l) i id Hi) as Hperm.
      assert (length (in_flight l) = S (length (flatten (<[i := None]> (entries l))))) as Hlen2.
      { unfold in_flight. by rewrite (Permutation_length Hperm). }
      run. unfold checked_sub. rewrite (proj2 (N.leb_le _ _)) by (simpl; lia). run.
      unfold in_flight in Hnd. rewrite Hperm in Hnd. apply NoDup_cons in Hnd as [Hnot Hnd].
      split_and!; [done| |].
      * split; unfold in_flight; simpl; [by rewrite length_insert|done|]. unfold in_flight in *. lia.
      * unfold log_set, in_flight. simpl. rewrite Hperm. simpl.
        assert (id ∉ (list_to_set (flatten (<[i:=None]> (entries l))) : gset N))
          by by rewrite elem_of_list_to_set. set_solver.
    + rewrite position_None in Hp. split_and!; [done..|]. unfold log_set, in_flight.
      assert (id ∉ flatten (entries l)) as Hnot.
      { intros H%flatten_elem. apply Hp in H. simpl in H. by rewrite N.eqb_refl in H. }
      simpl. apply set_eq. intros x. rewrite elem_of_difference, elem_of_list_to_set, elem_of_singleton.
      split; [intros Hx; split; [done|by intros ->]|by intros []].
Qed.

(** The outcomes of a sequence of operations and the last state. *)
Fixpoint outcomes {S} (f : LogOp → M S RequestLogError unit) (ops : list LogOp) (s : S)
    : list (outcome RequestLogError unit) * S :=
  match ops with
  | [] => ([], s)
  | o :: ops => let '(r, s) := f o s in let '(rs, s) := outcomes f ops s in (r :: rs, s)
  end.

(** Refinement: any sequence of insertions and acknowledgements on a new log
    has the outcomes it has on a set of at most 256 requests: an insertion of a
    request that is in flight changes nothing, of a new one into a full log is
    refused, and an acknowledgement of an unknown request has no effect; nothing
    panics, and what is replayed after a crash are the elements of the set, each
    once. *)
Theorem request_log_refines_set ops :
  let '(rs, l) := outcomes log_op ops log_new in
  let '(rs', X) := outcomes set_op ops ∅ in
  rs = rs' ∧ in_flight l ≡ₚ elements X ∧ log_len l = N.of_nat (size X) ∧ size X ≤ 256.
Proof.
  assert (∀ l, log_wf l →
    let '(rs, l') := outcomes log_op ops l in
    let '(rs', X) := outcomes set_op ops (log_set l) in
    rs = rs' ∧ log_wf l' ∧ log_set l' = X) as H.
  { induction ops as [|o ops IH]; intros l Hl; simpl; [done|].
    destruct (log_op_refines o l Hl) as (Hr & Hl' & HX).
    destruct (log_op o l) as [r l1], (set_op o (log_set l)) as [r' X1]. simpl in *. subst r' X1.
    specialize (IH l1 Hl'). destruct (outcomes log_op ops l1), (outcomes set_op ops (log_set l1)).
    naive_solver. }
  assert (log_wf log_new) as Hnew.
  { split; [done| |done]. by vm_compute; constructor. }
  specialize (H log_new Hnew). change (log_set log_new) with (∅ : gset N) in H.
  destruct (outcomes log_op ops log_new) as [rs l], (outcomes set_op ops ∅) as [rs' X].
  destruct H as (-> & Hl & <-). split_and!; [done| |by rewrite log_set_size|].
  - unfold log_set. symmetry. apply elements_list_to_set, Hl.
  - unfold log_set. rewrite size_list_to_set by apply Hl. unfold in_flight.
    pose proof (flatten_length_le (entries l)). rewrite (lw_length l Hl) in H.
    unfold MAX_IN_FLIGHT_REQUESTS in H. lia.
Qed.

(** ** How many restarts an interval can see *)

Fixpoint crash_all (ts : list N) : M Supervised Empty_set (list DriverState) :=
  match ts with
  | [] => mret []
  | t :: ts => st ← on_crash t; sts ← crash_all ts; mret (st :: sts)
  end.

(** A crash with the window it falls into and its number in that window. *)
Record Crash := mkCrash { c_time : N; c_window : N; c_count : N }.

Definition next_crash (t w k : N) : Crash :=
  if (w =? 0)%N || (FAILURE_WINDOW_NS <? t - w)%N then mkCrash t t 1 else mkCrash t w (k + 1).

Fixpoint crash_trace (ts : list N) (w k : N) : list Crash :=
  match ts with
  | [] => []
  | t :: ts => let c := next_crash t w k in c :: crash_trace ts (c_window c) (c_count c)
  end.

Definition crash_state (c : Crash) : DriverState :=
  if (MAX_RESTARTS_IN_WINDOW <? c_count c)%N then Failed else Restarting.

Lemma on_crash_run t s :
  (lifetime_restarts s + 1 < U64)%N → (restarts_in_window s + 1 < U32)%N →
  let c := next_crash t (window_start_ns s) (restarts_in_window s) in
  on_crash (E := Empty_set) t s =
    (Ok (crash_state c),
     mkSupervised (crash_state c) (c_count c) (c_window c) (lifetime_restarts s + 1)).
Proof.
  intros Hl Hn. unfold on_crash, next_crash, saturating_sub. run. rewrite checked_add_lt by done. run.
  cbn [set_lifetime window_start_ns]. destruct ((_ =? 0)%N || _); run.
  - by rewrite checked_add_lt by done.
  - cbn [set_lifetime restarts_in_window]. by rewrite checked_add_lt by done.
Qed.

Lemma crash_all_run ts s :
  (lifetime_restarts s + N.of_nat (length ts) < U32)%N →
  (restarts_in_window s ≤ lifetime_restarts s)%N →
  (crash_all ts s).1 =
    Ok (crash_state <$> crash_trace ts (window_start_ns s) (restarts_in_window s)).
Proof.
  revert s. induction ts as [|t ts IH]; intros s Hl Hk; simpl in *; [done|].
  run. rewrite on_crash_run by lia.
  set (c := next_crash t (window_start_ns s) (restarts_in_window s)).
  set (s1 := mkSupervised _ _ _ _). specialize (IH s1). run.
  destruct (crash_all ts s1) as [r s2] eqn:E. simpl in IH.
  assert (c_count c ≤ lifetime_restarts s + 1)%N.
  { unfold c, next_crash. destruct (_ || _); simpl; lia. }
  rewrite IH by lia. done.
Qed.

(** The order of the crashes of a trace. *)
Definition crash_lt (a b : Crash) : Prop :=
  (c_time a ≤ c_time b)%N ∧
  ((c_window a = c_window b ∧ c_count a < c_count b)%N ∨
   (c_window a + FAILURE_WINDOW_NS < c_window b ∧ c_time a ≤ c_window b)%N).

Definition crash_wf (c : Crash) : Prop :=
  (c_window c ≤ c_time c ∧ 1 ≤ c_count c ∧ (c_count c = 1 → c_window c = c_time c))%N.

(** A clock that does not go back. *)
Fixpoint clock (now : N) (ts : list N) : Prop :=
  match ts with
  | [] => True
  | t :: ts => (now ≤ t)%N ∧ clock t ts
  end.

Lemma crash_lt_trans a b c : crash_wf b → crash_lt a b → crash_lt b c → crash_lt a c.
Proof. unfold crash_wf, crash_lt. lia. Qed.

Lemma next_crash_lt c t :
  crash_wf c → (0 < c_window c)%N → (c_time c ≤ t)%N →
  let c' := next_crash t (c_window c) (c_count c) in
  crash_wf c' ∧ (0 < c_window c')%N ∧ c_time c' = t ∧ crash_lt c c'.
Proof.
  unfold crash_wf, crash_lt, next_crash. intros Hc Hw Ht.
  destruct (N.eqb_spec (c_window c) 0); [lia|]. simpl.
  destruct (N.ltb_spec FAILURE_WINDOW_NS (t - c_window c)); simpl; lia.
Qed.

Lemma trace_sorted ts c :
  crash_wf c → (0 < c_window c)%N → clock (c_time c) ts →
  let tr := crash_trace ts (c_window c) (c_count c) in
  Forall crash_wf tr ∧ Forall (crash_lt c) tr ∧ StronglySorted crash_lt tr.
Proof.
  revert c. induction ts as [|t ts IH]; intros c Hc Hw Hclock; simpl.
  { by repeat constructor. }
  destruct Hclock as [Ht Hclock].
  destruct (next_crash_lt c t Hc Hw Ht) as (Hc1 & Hw1 & Ht1 & Hlt).
  set (c1 := next_crash t (c_window c) (c_count c)) in *. rewrite <- Ht1 in Hclock.
  destruct (IH c1 Hc1 Hw1 Hclock) as (Hwf & Hfst & Hss). split_and!.
  - by constructor.
  - constructor; [done|]. eapply Forall_impl; [exact Hfst|].
    intros c2. by apply crash_lt_trans.
  - by constructor.
Qed.

(** Which of the at most two windows of an interval, and the place in it. *)
Definition place (lo : N) (c : Crash) : bool * N := (bool_decide (lo ≤ c_window c)%N, c_count c).

Definition places : list (bool * N) :=
  (pair true <$> [1; 2; 3; 4; 5]%N) ++ (pair false <$> [2; 3; 4; 5]%N).

Lemma restarts_in_interval lo tr :
  Forall crash_wf tr → StronglySorted crash_lt tr →
  Forall (λ c, (lo ≤ c_time c ≤ lo + FAILURE_WINDOW_NS ∧ c_count c ≤ 5)%N) tr →
  length tr ≤ 9.
Proof.
  intros Hwf Hss Hin. rewrite <- (length_fmap (place lo)).
  change 9 with (length places). apply submseteq_length, NoDup_submseteq.
  - induction Hss as [|c tr Hss IH Hlt]; [constructor|].
    apply Forall_cons in Hwf as [_ Hwf], Hin as [Hc Hin]. simpl. constructor; [|by apply IH].
    rewrite list_elem_of_fmap. intros (d & Heq & Hd).
    rewrite Forall_forall in Hlt, Hin, Hwf.
    specialize (Hlt d Hd). specialize (Hin d Hd). specialize (Hwf d Hd).
    unfold place in Heq. injection Heq as Hb Hk. unfold crash_lt, crash_wf in *.
    revert Hb. repeat case_bool_decide; intros; try done; lia.
  - intros [b k] (c & [= -> ->] & Hc)%list_elem_of_fmap. rewrite Forall_forall in Hin, Hwf.
    specialize (Hin c Hc). specialize (Hwf c Hc). unfold crash_wf in Hwf.
    unfold places. apply elem_of_app. rewrite !list_elem_of_fmap.
    destruct (decide (lo ≤ c_window c)%N).
    + left. exists (c_count c). rewrite bool_decide_true by done. split; [done|].
      rewrite !elem_of_cons, elem_of_nil. lia.
    + right. exists (c_count c). rewrite bool_decide_false by done. split; [done|].
      rewrite !elem_of_cons, elem_of_nil. lia.
Qed.

(** The restarts that a sequence of crashes leads to between two times. *)
Definition restarts_between (lo hi : N) (ts : list N) (sts : list DriverState) : list (N * DriverState) :=
  filter (λ c, (lo ≤ c.1)%N ∧ (c.1 ≤ hi)%N ∧ c.2 = Restarting) (zip ts sts).

Lemma zip_trace ts w k : c_time <$> crash_trace ts w k = ts.
Proof.
  revert w k. induction ts as [|t ts IH]; intros w k; simpl; [done|]. rewrite IH. f_equal.
  unfold next_crash. by destruct (_ || _).
Qed.

Lemma restarts_between_trace lo hi tr :
  restarts_between lo hi (c_time <$> tr) (crash_state <$> tr) =
  (λ c, (c_time c, crash_state c)) <$>
    filter (λ c, (lo ≤ c_time c)%N ∧ (c_time c ≤ hi)%N ∧ (c_count c ≤ 5)%N) tr.
Proof.
  induction tr as [|c tr IH]; [done|]. unfold restarts_between in *. rewrite !fmap_cons.
  cbn [zip zip_with]. rewrite !filter_cons. cbn [fst snd]. rewrite IH.
  assert (crash_state c = Restarting ↔ (c_count c ≤ 5)%N) as Heq.
  { unfold crash_state, MAX_RESTARTS_IN_WINDOW.
    destruct (N.ltb_spec 5 (c_count c)); split; try done; lia. }
  repeat case_decide; naive_solver.
Qed.

(** C39 Bounds: with a clock that starts after 0 and does not go back, the policy
    never panics (below [2^32] crashes), and in any interval of the length of the
    failure window it restarts a driver at most nine times: twice the documented
    five, less one, since an interval can meet two windows. *)
Theorem restarts_bounded ts lo :
  clock 1 ts → (N.of_nat (length ts) < U32)%N →
  ∃ sts, (crash_all ts supervised_new).1 = Ok sts ∧
    length (restarts_between lo (lo + FAILURE_WINDOW_NS) ts sts) ≤ 9.
Proof.
  intros Hclock Hlen. eexists. split; [apply crash_all_run; simpl; lia|]. simpl.
  destruct ts as [|t ts]; [simpl; lia|]. destruct Hclock as [Ht Hclock].
  set (c := mkCrash t t 1).
  assert (crash_trace (t :: ts) 0 0 = c :: crash_trace ts t 1) as Etr by done.
  destruct (trace_sorted ts c) as (Hwf & Hfst & Hss); [by unfold crash_wf; simpl; lia|simpl; lia|done|].
  simpl in Hwf, Hfst, Hss.
  set (tr := crash_trace (t :: ts) 0 0) in *.
  assert (Forall crash_wf tr ∧ StronglySorted crash_lt tr) as [Hwf' Hss'].
  { rewrite Etr. by split; constructor. }
  rewrite <- (zip_trace (t :: ts) 0 0) at 1. fold tr. rewrite restarts_between_trace.
  rewrite length_fmap. apply (restarts_in_interval lo).
  - rewrite Forall_forall in Hwf' |- *. intros x [_ Hx]%list_elem_of_filter. auto.
  - clear -Hss'. induction Hss' as [|x tr _ IH Hx]; [constructor|]. rewrite filter_cons.
    case_decide; [|done]. constructor; [done|]. rewrite Forall_forall in Hx |- *.
    intros y [_ Hy]%list_elem_of_filter. auto.
  - apply Forall_forall. intros x [(? & ? & ?) _]%list_elem_of_filter. lia.
Qed.

(** Nine restarts within a minute do occur. *)
Definition sample_crashes : list N :=
  let W := FAILURE_WINDOW_NS in
  [1; W; W; W; W; W + 2; W + 2; W + 2; W + 2; W + 2; W + 2]%N.

Example nine_restarts :
  match (crash_all sample_crashes supervised_new).1 with
  | Ok sts => length (restarts_between FAILURE_WINDOW_NS (FAILURE_WINDOW_NS * 2) sample_crashes sts)
  | _ => 0
  end = 9.
Proof. vm_compute. reflexivity. Qed.

Lemma restarts_bounded_witness :
  clock 1 sample_crashes ∧ (N.of_nat (length sample_crashes) < U32)%N ∧
  ∃ sts, (crash_all sample_crashes supervised_new).1 = Ok sts ∧
    length (restarts_between FAILURE_WINDOW_NS (FAILURE_WINDOW_NS + FAILURE_WINDOW_NS)
              sample_crashes sts) ≤ 9.
Proof.
  assert (clock 1 sample_crashes) as H by (simpl; repeat split; done).
  split; [exact H|]. split; [reflexivity|].
  apply (restarts_bounded sample_crashes FAILURE_WINDOW_NS H). reflexivity.
Defined.

(** At time 0 the window never starts: its start is stored as 0, which stands for
    no window, so the count starts again at every crash. *)
Example time_zero_never_fails :
  (crash_all (replicate 20 0%N) supervised_new).1 = Ok (replicate 20 Restarting).
Proof. vm_compute. reflexivity. Qed.

(** A late answer to a probe revives a parked driver. *)
Example probe_revives_failed :
  (crash_all (replicate 6 1%N) ≫= λ _, on_probe_ok ≫= λ _, gets state) supervised_new =
  (Ok Running, mkSupervised Running 6 1 6).
Proof. vm_compute. reflexivity. Qed.
