(* ===== verification/VfsRouter.v ===== *)
(** * The router of the virtual file system

    [vfs-router/src/lib.rs]: the mount table and the resolution of a path to the
    backend that serves it.  Paths are the bytes of UTF-8 strings; the router only
    looks at ['/'], which is one byte.  A loop that keeps the longest prefix seen
    so far is shown to give the same as walking up from the path to the root and
    taking the first mount point. *)

From stdpp Require Import gmap.
From S2P Require Import Prelude Registry.

Definition SLASH : N := 47.

Abbreviation Path := (list N) (only parsing).

Definition ROOT : Path := [SLASH].

Record Mount := mkMount { prefix : Path; backend : N }.

Inductive MountError := AlreadyMounted | BadPrefix.

(** [trim_end_matches('/')] *)
Fixpoint trim_end (p : Path) : Path :=
  match p with
  | [] => []
  | c :: p => match trim_end p with
              | [] => if (c =? SLASH)%N then [] else [c]
              | q => c :: q
              end
  end.

Definition normalize (p : Path) : Path :=
  let trimmed := trim_end p in
  match trimmed with [] => ROOT | _ => trimmed end.

(** [p.starts_with(q)] *)
Definition starts_with (p q : Path) : bool := bool_decide (take (length q) p = q).

Definition path_under (path prefix : Path) : bool :=
  if bool_decide (prefix = ROOT) then true else
  if bool_decide (path = prefix) then true else
  starts_with path prefix && bool_decide (path !! length prefix = Some SLASH).

Definition mount (p : Path) (b : N) : M (list Mount) MountError unit :=
  if bool_decide (p = []) || negb (starts_with p [SLASH]) then throw BadPrefix else
  let norm := normalize p in
  mounts ← gets (λ m, m);
  if existsb (λ m, bool_decide (prefix m = norm)) mounts then throw AlreadyMounted else
  modify (λ mounts, mounts ++ [mkMount norm b]).

Definition unmount (p : Path) : M (list Mount) MountError bool :=
  let norm := normalize p in
  before ← gets length;
  _ ← modify (filter (λ m, prefix m ≠ norm));
  after ← gets length;
  mret (negb (after =? before)).

(** The loop of [resolve]: the best mount so far and the length of its prefix. *)
Fixpoint resolve_loop (norm : Path) (mounts : list Mount) (best : option (Mount * nat))
    : option (Mount * nat) :=
  match mounts with
  | [] => best
  | m :: mounts =>
      resolve_loop norm mounts
        (if path_under norm (prefix m) then
           if match best with Some (_, l) => l <? length (prefix m) | None => true end
           then Some (m, length (prefix m)) else best
         else best)
  end.

Definition resolve (path : Path) (mounts : list Mount) : option N :=
  let norm := normalize path in
  (λ b, backend b.1) <$> resolve_loop norm mounts None.

(** ** The reference: walk up to the first mount point *)

(** The first [n] bytes of [p] end a component. *)
Definition boundary (p : Path) (n : nat) : bool :=
  bool_decide (n = length p) || bool_decide (p !! n = Some SLASH).

(** The mount point nearest to the first [n] bytes of [p], the root last. *)
Fixpoint walk_up (m : gmap Path N) (p : Path) (n : nat) : option N :=
  match n with
  | 0 => m !! ROOT
  | S n' =>
      if boundary p n then
        match m !! take n p with
        | Some b => Some b
        | None => walk_up m p n'
        end
      else walk_up m p n'
  end.

Definition nearest_mount (m : gmap Path N) (p : Path) : option N := walk_up m p (length p).

(** ** Paths *)

Lemma trim_end_spec p :
  ∃ n, p = trim_end p ++ replicate n SLASH.
Proof.
  induction p as [|c p [n IH]]; simpl; [by exists 0|].
  destruct (trim_end p) as [|d q].
  - destruct (N.eqb_spec c SLASH) as [->|].
    + exists (S n). simpl. by rewrite IH at 1.
    + exists n. simpl. by rewrite IH at 1.
  - exists n. simpl. by rewrite IH at 1.
Qed.

Lemma trim_end_idem p : trim_end (trim_end p) = trim_end p.
Proof.
  induction p as [|c p IH]; simpl; [done|]. destruct (trim_end p) as [|d q] eqn:E.
  - destruct (N.eqb_spec c SLASH) as [->|Hc]; simpl; [done|].
    by rewrite (proj2 (N.eqb_neq _ _)).
  - simpl in IH |- *. by rewrite IH.
Qed.

Lemma normalize_not_nil p : normalize p ≠ [].
Proof. unfold normalize. by destruct (trim_end p). Qed.

Lemma normalize_idem p : normalize (normalize p) = normalize p.
Proof.
  unfold normalize at 2 3. destruct (trim_end p) as [|c q] eqn:E; [done|].
  unfold normalize. rewrite <- E, trim_end_idem, E. done.
Qed.

(** An absolute path stays absolute. *)
Lemma normalize_absolute p : p !! 0 = Some SLASH → normalize p !! 0 = Some SLASH.
Proof.
  intros Hp. unfold normalize. destruct (trim_end_spec p) as [n Hn].
  destruct (trim_end p) as [|c q]; [done|]. rewrite Hn in Hp. done.
Qed.

Lemma starts_with_slash p : starts_with p [SLASH] = true ↔ p !! 0 = Some SLASH.
Proof. unfold starts_with. rewrite bool_decide_eq_true. destruct p as [|c p]; simpl; naive_solver. Qed.

(** [path_under] is the root, or a prefix that ends a component. *)
Lemma path_under_spec p q :
  path_under p q = true ↔ q = ROOT ∨ (q = take (length q) p ∧ boundary p (length q) = true).
Proof.
  unfold path_under, starts_with, boundary. case_bool_decide as Hr; [naive_solver|].
  case_bool_decide as He.
  { split; [intros _; right|done]. subst q. by rewrite take_ge, bool_decide_true. }
  rewrite andb_true_iff, orb_true_iff, !bool_decide_eq_true. split; [naive_solver|].
  intros [|[Hq Hb]]; [done|]. split; [done|]. destruct Hb as [Hb|]; [|done].
  rewrite Hb, take_ge in Hq by done. done.
Qed.

(** ** The loop finds the longest prefix *)

Lemma resolve_loop_spec norm mounts best :
  (∀ m l, best = Some (m, l) → l = length (prefix m)) →
  match resolve_loop norm mounts best with
  | Some (m, l) => l = length (prefix m) ∧
      (best = Some (m, l) ∨ m ∈ mounts ∧ path_under norm (prefix m) = true) ∧
      (∀ m' l', best = Some (m', l') → l' ≤ l) ∧
      ∀ m', m' ∈ mounts → path_under norm (prefix m') = true → length (prefix m') ≤ l
  | None => best = None ∧ ∀ m', m' ∈ mounts → path_under norm (prefix m') = false
  end.
Proof.
  revert best. induction mounts as [|m mounts IH]; intros best Hb; simpl.
  { destruct best as [[m l]|].
    - split_and!; [by apply Hb|by left|naive_solver|intros ? []%not_elem_of_nil].
    - split; [done|intros ? []%not_elem_of_nil]. }
  set (best' := if path_under norm (prefix m) then _ else best).
  assert (∀ m' l', best' = Some (m', l') → l' = length (prefix m')) as Hb'.
  { unfold best'. intros m' l'. destruct (path_under norm (prefix m)); [|auto].
    destruct best as [[m0 l0]|]; [|by intros [= <- <-]].
    destruct (Nat.ltb_spec l0 (length (prefix m))); [by intros [= <- <-]|auto]. }
  specialize (IH best' Hb'). destruct (resolve_loop norm mounts best') as [[r l]|].
  - destruct IH as (Hl & Hin & Hold & Hall). split; [done|].
    assert ((∀ m' l', best = Some (m', l') → l' ≤ l) ∧
      (path_under norm (prefix m) = true → length (prefix m) ≤ l)) as [H1 H2].
    { unfold best' in *. destruct (path_under norm (prefix m)); [|split; [done|done]].
      destruct best as [[m0 l0]|]; [|split; [done|intros _; by eapply Hold]].
      destruct (Nat.ltb_spec l0 (length (prefix m))) as [Hlt|Hge].
      - specialize (Hold _ _ eq_refl). split; [intros ? ? [= <- <-]; lia|lia].
      - specialize (Hold _ _ eq_refl). split; [intros ? ? [= <- <-]; lia|lia]. }
    split_and!; [|done|].
    + destruct Hin as [Hin|[? ?]]; [|right; split; [by right|done]].
      unfold best' in Hin. destruct (path_under norm (prefix m)) eqn:Hm; [|by left].
      destruct best as [[m0 l0]|]; [destruct (l0 <? length (prefix m)); [|by left]|];
        injection Hin as <- <-; right; (split; [left|done]).
    + intros m' [->|Hm']%elem_of_cons; [done|]. by apply Hall.
  - destruct IH as [Hn Hall]. unfold best' in Hn.
    destruct (path_under norm (prefix m)) eqn:Hm.
    + destruct best as [[m0 l0]|]; [by destruct (l0 <? length (prefix m))|done].
    + split; [done|]. intros m' [->|Hm']%elem_of_cons; [done|]. by apply Hall.
Qed.

(** ** The walk finds the longest mount point *)

Lemma walk_up_spec m p n :
  m !! [] = None → n ≤ length p →
  match walk_up m p n with
  | Some b => ∃ q, m !! q = Some b ∧
      (q = ROOT ∨ (q = take (length q) p ∧ length q ≤ n ∧ boundary p (length q) = true)) ∧
      ∀ c, is_Some (m !! c) → c = take (length c) p → length c ≤ n →
        boundary p (length c) = true → length c ≤ length q
  | None => m !! ROOT = None ∧
      ∀ c, is_Some (m !! c) → c = take (length c) p → length c ≤ n →
        boundary p (length c) = false
  end.
Proof.
  intros Hnil. induction n as [|n IH]; intros Hn; simpl.
  - assert (∀ c, is_Some (m !! c) → length c ≤ 0 → False) as Hempty.
    { intros [|? ?] [? Hc] Hl; simpl in *; [congruence|lia]. }
    destruct (m !! ROOT) as [b|] eqn:Hr.
    + exists ROOT. split_and!; [done|by left|]. intros c Hc _ Hl. by destruct (Hempty c Hc Hl).
    + split; [done|]. intros c Hc _ Hl. by destruct (Hempty c Hc Hl).
  - assert (length (take (S n) p) = S n) as Hlen by (rewrite length_take; lia).
    specialize (IH ltac:(lia)).
    assert (∀ c, c = take (length c) p → length c ≤ S n → length c ≤ n ∨ c = take (S n) p) as Hcase.
    { intros c Hc Hl. destruct (decide (length c ≤ n)); [by left|right].
      by replace (S n) with (length c) by lia. }
    destruct (boundary p (S n)) eqn:Hb.
    + destruct (m !! take (S n) p) as [b|] eqn:Hm.
      { exists (take (S n) p). rewrite Hlen. split_and!; [done| |done].
        right. split_and!; [done|done|done]. }
      destruct (walk_up m p n) as [b|].
      * destruct IH as (q & Hq & Hin & Hmax). exists q. split_and!; [done|naive_solver lia|].
        intros c Hc Htk Hl Hbc. destruct (Hcase c Htk Hl) as [|Heq]; [by apply Hmax|].
        rewrite Heq, Hm in Hc. by destruct Hc.
      * destruct IH as [Hr Hall]. split; [done|]. intros c Hc Htk Hl.
        destruct (Hcase c Htk Hl) as [|Heq]; [by apply Hall|]. rewrite Heq, Hm in Hc. by destruct Hc.
    + destruct (walk_up m p n) as [b|].
      * destruct IH as (q & Hq & Hin & Hmax). exists q. split_and!; [done|naive_solver lia|].
        intros c Hc Htk Hl Hbc. destruct (Hcase c Htk Hl) as [|Heq]; [by apply Hmax|].
        rewrite Heq, Hlen in Hbc. congruence.
      * destruct IH as [Hr Hall]. split; [done|]. intros c Hc Htk Hl.
        destruct (Hcase c Htk Hl) as [|Heq]; [by apply Hall|]. by rewrite Heq, Hlen.
Qed.

(** ** The table refines a map *)

Record table_wf (t : list Mount) : Prop := {
  tw_nodup : NoDup (prefix <$> t);
  tw_absolute : Forall (λ m, prefix m !! 0 = Some SLASH) t;
}.

Definition table_map (t : list Mount) : gmap Path N := backend <$> reg_map prefix t.

Lemma table_map_Some t p b :
  table_wf t → table_map t !! p = Some b ↔ mkMount p b ∈ t.
Proof.
  intros [Hnd _]. unfold table_map. rewrite lookup_fmap_Some.
  setoid_rewrite reg_map_lookup; [|done]. split.
  - intros ([q c] & <- & Hin & <-). done.
  - intros Hin. by exists (mkMount p b).
Qed.

Lemma table_map_nil t : table_wf t → table_map t !! [] = None.
Proof.
  intros Ht. apply eq_None_not_Some. intros [b Hb].
  apply table_map_Some in Hb; [|done]. destruct Ht as [_ Ha].
  rewrite Forall_forall in Ha. by specialize (Ha _ Hb).
Qed.

(** The optimised loop is the walk to the nearest mount point. *)
Lemma resolve_nearest t path :
  table_wf t → resolve path t = nearest_mount (table_map t) (normalize path).
Proof.
  intros Ht. unfold resolve, nearest_mount. set (p := normalize path).
  pose proof (resolve_loop_spec p t None ltac:(done)) as Hloop.
  pose proof (walk_up_spec (table_map t) p (length p) (table_map_nil t Ht) ltac:(done)) as Hwalk.
  assert (∀ m, m ∈ t → table_map t !! prefix m = Some (backend m)) as Hmap.
  { intros [q b] Hm. by apply table_map_Some. }
  destruct (resolve_loop p t None) as [[m l]|]; simpl.
  - destruct Hloop as (-> & [?|[Hm Hu]] & _ & Hmax); [done|].
    destruct (walk_up (table_map t) p (length p)) as [b|].
    + destruct Hwalk as (q & Hq & Hin & Hfar). f_equal.
      assert (path_under p q = true) as Huq by (apply path_under_spec; naive_solver).
      apply table_map_Some in Hq as Hqt; [|done].
      pose proof (Hmax _ Hqt Huq) as Hle. simpl in Hle.
      assert (q = prefix m) as ->.
      { apply path_under_spec in Hu as [Hroot|[Htk Hb]].
        - (* the best mount is the root: everything under [p] is as short *)
          rewrite Hroot in Hle |- *. simpl in Hle.
          pose proof (tw_absolute t Ht) as Ha. rewrite Forall_forall in Ha.
          specialize (Ha _ Hqt). simpl in Ha. destruct q as [|c [|]]; simpl in *; [done| |lia].
          by injection Ha as ->.
        - pose proof (f_equal length Htk) as Hlen. rewrite length_take in Hlen.
          assert (length (prefix m) ≤ length q) as Hge.
          { apply Hfar; [rewrite Hmap by done; by eexists|done|lia|done]. }
          destruct Hin as [->|(Hqk & _ & _)].
          + pose proof (tw_absolute t Ht) as Ha. rewrite Forall_forall in Ha.
            specialize (Ha _ Hm). destruct (prefix m) as [|c [|]]; simpl in *; [done| |lia].
            by injection Ha as ->.
          + rewrite Hqk, Htk. f_equal. lia. }
      rewrite Hmap in Hq by done. congruence.
    + destruct Hwalk as [Hr Hnone]. apply path_under_spec in Hu as [Hroot|[Htk Hb]].
      * rewrite <- Hroot, Hmap in Hr by done. done.
      * rewrite Hnone in Hb; [done| |done|].
        -- rewrite Hmap by done. by eexists.
        -- rewrite Htk, length_take. lia.
  - destruct Hloop as [_ Hnone]. destruct (walk_up (table_map t) p (length p)) as [b|]; [|done].
    destruct Hwalk as (q & Hq & Hin & _). apply table_map_Some in Hq; [|done].
    specialize (Hnone _ Hq). simpl in Hnone.
    assert (path_under p q = true) by (apply path_under_spec; naive_solver). congruence.
Qed.

(** The operations on a table and on a map. *)
Inductive RouterOp := Mnt (p : Path) (b : N) | Umnt (p : Path) | Rslv (p : Path).

Inductive RouterResult :=
| RMounted | RRefused (e : MountError) | RUnmounted (found : bool) | RResolved (b : option N).

Definition table_op (o : RouterOp) (t : list Mount) : option RouterResult * list Mount :=
  match o with
  | Mnt p b =>
      match mount p b t with
      | (Ok _, t) => (Some RMounted, t)
      | (Err e, t) => (Some (RRefused e), t)
      | (Panic, t) => (None, t)
      end
  | Umnt p =>
      match unmount p t with
      | (Ok found, t) => (Some (RUnmounted found), t)
      | (_, t) => (None, t)
      end
  | Rslv p => (Some (RResolved (resolve p t)), t)
  end.

Definition map_op (o : RouterOp) (m : gmap Path N) : option RouterResult * gmap Path N :=
  match o with
  | Mnt p b =>
      if decide (p !! 0 = Some SLASH) then
        match m !! normalize p with
        | Some _ => (Some (RRefused AlreadyMounted), m)
        | None => (Some RMounted, <[normalize p := b]> m)
        end
      else (Some (RRefused BadPrefix), m)
  | Umnt p => (Some (RUnmounted (bool_decide (is_Some (m !! normalize p)))), delete (normalize p) m)
  | Rslv p => (Some (RResolved (nearest_mount m (normalize p))), m)
  end.

Lemma table_remove p t :
  table_wf t →
  let t' := filter (λ m, prefix m ≠ p) t in
  table_wf t' ∧ table_map t' = delete p (table_map t).
Proof.
  intros [Hnd Ha]. split.
  - split; [by apply NoDup_filter_keys|by apply filter_Forall].
  - unfold table_map. rewrite (reg_map_remove prefix _ p) by done. apply fmap_delete.
Qed.

Lemma length_filter_prefix p (t : list Mount) :
  length (filter (λ m, prefix m ≠ p) t) = length t ↔ p ∉ (prefix <$> t).
Proof.
  induction t as [|m t IH]; [split; [intros _ H; by apply not_elem_of_nil in H|done]|].
  rewrite filter_cons, fmap_cons, elem_of_cons.
  pose proof (length_filter (λ m, prefix m ≠ p) t) as Hle.
  case_decide as Hd; simpl.
  - rewrite Nat.succ_inj_wd, IH. naive_solver.
  - split; [lia|]. intros H. destruct (decide (prefix m = p)); [|by destruct Hd].
    exfalso. apply H. by left.
Qed.

Lemma table_op_refines o t :
  table_wf t →
  (table_op o t).1 = (map_op o (table_map t)).1 ∧ table_wf (table_op o t).2 ∧
  table_map (table_op o t).2 = (map_op o (table_map t)).2.
Proof.
  intros Ht. destruct o as [p b|p|p]; simpl.
  - unfold mount. destruct (starts_with p [SLASH]) eqn:Hs.
    + apply starts_with_slash in Hs. rewrite decide_True by done.
      rewrite bool_decide_false by by intros ->. simpl. run.
      assert (existsb (λ m, bool_decide (prefix m = normalize p)) t =
        bool_decide (is_Some (table_map t !! normalize p))) as ->.
      { apply eq_true_iff_eq. rewrite existsb_exists, bool_decide_eq_true. split.
        - intros ([q c] & Hin%list_elem_of_In & Hq%bool_decide_eq_true). simpl in Hq. subst q.
          exists c. by apply table_map_Some.
        - intros [c Hc%table_map_Some]; [|done]. exists (mkMount (normalize p) c).
          rewrite <- list_elem_of_In. split; [done|by apply bool_decide_eq_true]. }
      case_bool_decide as Hd.
      * destruct Hd as [c Hc]. rewrite Hc. by run.
      * rewrite (proj2 (eq_None_not_Some _) Hd). run.
        assert (∀ m, m ∈ t → prefix m ≠ normalize p) as Hnew.
        { intros [q c] Hm Heq. simpl in Heq. subst q. apply Hd. exists c. by apply table_map_Some. }
        assert (table_wf (t ++ [mkMount (normalize p) b])) as Hwf.
        { destruct Ht as [Hnd Ha]. split.
          - rewrite fmap_app. apply NoDup_app. split_and!; [done| |apply NoDup_singleton].
            intros k (m & -> & Hm)%list_elem_of_fmap Hk%list_elem_of_singleton. by apply (Hnew m).
          - apply Forall_app_2; [done|]. constructor; [|done]. by apply normalize_absolute. }
        split_and!; [done..|]. simpl. apply map_eq. intros k. apply option_eq. intros c.
        rewrite (table_map_Some (t ++ _)) by done.
        rewrite elem_of_app, list_elem_of_singleton, lookup_insert_Some.
        rewrite (table_map_Some t) by done. split.
        -- intros [Hm|[= -> ->]]; [right|by left]. split; [|done]. intros <-. by apply (Hnew _ Hm).
        -- intros [[<- <-]|[_ Hm]]; [by right|by left].
    + rewrite orb_true_r. simpl. rewrite decide_False; [done|].
      rewrite <- starts_with_slash. congruence.
  - unfold unmount. run. destruct (table_remove (normalize p) t Ht) as [Hwf Hmap].
    split_and!; [|done|done]. do 3 f_equal.
    apply eq_true_iff_eq. rewrite negb_true_iff, bool_decide_eq_true, Nat.eqb_neq.
    rewrite length_filter_prefix. rewrite list_elem_of_fmap. split.
    + intros H. destruct (table_map t !! normalize p) as [c|] eqn:E; [by eexists|].
      exfalso. apply H. intros (m & Hm & Hin). rewrite eq_None_not_Some in E. apply E.
      exists (backend m). apply table_map_Some; [done|]. rewrite Hm. by destruct m.
    + intros [c Hc%table_map_Some] Hno; [|done]. apply Hno. by exists (mkMount (normalize p) c).
  - split_and!; [|done..]. by rewrite resolve_nearest.
Qed.

Fixpoint run_ops {T} (f : RouterOp → T → option RouterResult * T) (ops : list RouterOp) (t : T)
    : list (option RouterResult) * T :=
  match ops with
  | [] => ([], t)
  | o :: ops => let '(r, t) := f o t in let '(rs, t) := run_ops f ops t in (r :: rs, t)
  end.

(** C36 Equivalence: any sequence of mounts, unmounts and resolutions on an empty
    table answers as a finite map from normalized paths does: a mount is refused
    exactly for a relative path or an occupied mount point, and a path resolves,
    by a loop over all mounts that keeps the longest matching prefix, to the
    mount point that walking up from the path one component at a time to the
    root finds first, or to nothing.  No operation panics. *)
Theorem router_refines_map ops :
  let '(rs, t) := run_ops table_op ops [] in
  let '(rs', m) := run_ops map_op ops ∅ in
  rs = rs' ∧ Forall is_Some rs ∧ table_map t = m.
Proof.
  assert (∀ t, table_wf t →
    let '(rs, t') := run_ops table_op ops t in
    let '(rs', m) := run_ops map_op ops (table_map t) in
    rs = rs' ∧ Forall is_Some rs ∧ table_map t' = m) as H.
  { induction ops as [|o ops IH]; intros t Ht; simpl; [done|].
    destruct (table_op_refines o t Ht) as (Hr & Ht' & Hm).
    assert (is_Some (map_op o (table_map t)).1) as Hsome.
    { destruct o; simpl; repeat case_match; simpl; by eexists. }
    destruct (table_op o t) as [r t1], (map_op o (table_map t)) as [r' m1]. simpl in *. subst r' m1.
    specialize (IH t1 Ht'). destruct (run_ops table_op ops t1), (run_ops map_op ops (table_map t1)).
    destruct IH as (-> & ? & ?). split_and!; [done|by constructor|done]. }
  apply (H []). split; by constructor.
Qed.

(** A prefix matches only whole components: [/data] serves [/data/x] and not
    [/database]; a trailing slash makes no difference, and the root serves the
    rest, also a relative path. *)
Example resolve_sample :
  let b (s : list N) := s in
  let data := b [47; 100; 97; 116; 97]%N in
  (run_ops table_op
    [ Mnt data 1; Rslv (data ++ [47; 120]%N); Rslv (data ++ [98]%N); Mnt [47]%N 0;
      Rslv (data ++ [98]%N); Mnt (data ++ [47]%N) 2; Rslv (data ++ [47; 47]%N); Rslv [120]%N;
      Umnt data; Rslv data; Umnt data; Mnt [120]%N 3 ] []).1 =
  Some <$> [ RMounted; RResolved (Some 1%N); RResolved None; RMounted; RResolved (Some 0%N);
             RRefused AlreadyMounted; RResolved (Some 1%N); RResolved (Some 0%N);
             RUnmounted true; RResolved (Some 0%N); RUnmounted false; RRefused BadPrefix ].
Proof. vm_compute. reflexivity. Qed.
