(* ===== verification/Netstack.v ===== *)
(** * The packets of the network stack

    [netstack/src/lib.rs]: the parsers and builders of the ICMP echo exchange and
    of the ARP request before it, with the Internet checksum.  A frame is a list
    of bytes; every index and slice that is out of range is a panic.  [None] of
    the parsers is [Err tt].

    The process that drives them ([subsystem_entry.rs]) talks to a device and is
    not part of this file. *)

From S2P Require Import Prelude Bytes.

Definition ETHERTYPE_IPV4 : N := 2048.
Definition IP_PROTO_ICMP : N := 1.
Definition ICMP_ECHO_REQUEST : N := 8.
Definition ICMP_ECHO_REPLY : N := 0.

Record EchoRequest := mkEchoRequest {
  src_mac : list N;
  dst_mac : list N;
  src_ip : list N;
  dst_ip : list N;
  ident : N;
  seq : N;
  payload : list N;
}.

(** [x.to_be_bytes()] of a [u16] *)
Definition to_be_bytes (x : N) : list N := [(x / 256)%N; (x mod 256)%N].

(** [u16::from_be_bytes([a, b])] *)
Definition from_be_bytes (a b : N) : N := (256 * a + b)%N.

Abbreviation R := (outcome unit) (only parsing).

Definition be16 (b : list N) (i : N) : R N :=
  x ← or_err (getN b i) tt;
  y ← or_err (getN b (i + 1)) tt;
  mret (from_be_bytes x y).

(** ** The checksum *)

(** The loop over the words and the odd byte; [None]: the [u32] overflows. *)
Fixpoint sum_words (data : list N) (sum : N) : option N :=
  match data with
  | a :: b :: data => sum ← checked_add U32 sum (from_be_bytes a b); sum_words data sum
  | [a] => checked_add U32 sum (N.shiftl a 8)
  | [] => Some sum
  end.

(** [while sum >> 16 != 0 { sum = (sum & 0xFFFF) + (sum >> 16) }]; [None]: the fuel
    does not suffice, which [fold_carries_spec] excludes. *)
Fixpoint fold_carries (fuel : nat) (sum : N) : option N :=
  if (N.shiftr sum 16 =? 0)%N then Some sum else
  match fuel with
  | 0 => None
  | S fuel => fold_carries fuel (N.land sum 65535 + N.shiftr sum 16)
  end.

(** [!(sum as u16)] *)
Definition not_u16 (x : N) : N := N.lnot (truncate U16 x) 16.

Definition checksum (data : list N) : R N :=
  sum ← or_panic (sum_words data 0);
  sum ← or_panic (fold_carries 2 sum);
  mret (not_u16 sum).

(** ** Echo requests and replies *)

Definition byte_at (b : list N) (i : N) : R N := or_panic (getN b i).
Definition slice (b : list N) (i j : N) : R (list N) := or_panic (sub b i j).

Definition guard (c : bool) : R unit := if c then mret tt else Err tt.

(** What both parsers test after the length and before the ICMP section: the IP
    packet and the ICMP section in it. *)
Definition parse_headers (frame : list N) : R (list N * list N) :=
  ty ← be16 frame 12;
  _ ← guard (ty =? ETHERTYPE_IPV4)%N;
  ip ← slice frame 14 (len frame);
  b0 ← byte_at ip 0;
  let ihl := (N.land b0 15 * 4)%N in
  _ ← guard (negb ((ihl <? 20) || (len ip <? ihl))%N);
  proto ← byte_at ip 9;
  _ ← guard (proto =? IP_PROTO_ICMP)%N;
  icmp ← slice ip ihl (len ip);
  mret (ip, icmp).

(** [icmp.len() < 8 || icmp[0] != ty] *)
Definition check_icmp (icmp : list N) (ty : N) : R unit :=
  _ ← guard (8 <=? len icmp)%N;
  b ← byte_at icmp 0;
  guard (b =? ty)%N.

Definition parse_echo_request (frame : list N) : R EchoRequest :=
  _ ← guard (42 <=? len frame)%N;
  dst_mac ← slice frame 0 6;
  src_mac ← slice frame 6 12;
  '(ip, icmp) ← parse_headers frame;
  src_ip ← slice ip 12 16;
  dst_ip ← slice ip 16 20;
  _ ← check_icmp icmp ICMP_ECHO_REQUEST;
  ident ← be16 icmp 4;
  seq ← be16 icmp 6;
  payload ← slice icmp 8 (len icmp);
  mret (mkEchoRequest src_mac dst_mac src_ip dst_ip ident seq payload).

(** The part the two builders share: the frame up to the payload with the two
    checksums filled in. *)
Definition build_echo (src_mac dst_mac src_ip dst_ip : list N) (ty ident seq : N)
    (payload : list N) : R (list N) :=
  let icmp_len := (8 + len payload)%N in
  let ip_total := (20 + icmp_len)%N in
  let f := dst_mac ++ src_mac ++ to_be_bytes ETHERTYPE_IPV4 in
  let ip_start := len f in
  let f := f ++ [69; 0]%N ++ to_be_bytes (truncate U16 ip_total) ++ to_be_bytes 0
             ++ to_be_bytes 16384 ++ [64; IP_PROTO_ICMP]%N ++ to_be_bytes 0
             ++ src_ip ++ dst_ip in
  header ← slice f ip_start (ip_start + 20);
  ip_csum ← checksum header;
  f ← or_panic (copy_into f (ip_start + 10) (ip_start + 12) (to_be_bytes ip_csum));
  let icmp_start := len f in
  let f := f ++ [ty; 0]%N ++ to_be_bytes 0 ++ to_be_bytes ident ++ to_be_bytes seq ++ payload in
  icmp ← slice f icmp_start (len f);
  icmp_csum ← checksum icmp;
  or_panic (copy_into f (icmp_start + 2) (icmp_start + 4) (to_be_bytes icmp_csum)).

Definition build_echo_reply (req : EchoRequest) : R (list N) :=
  build_echo (dst_mac req) (src_mac req) (dst_ip req) (src_ip req) ICMP_ECHO_REPLY
    (ident req) (seq req) (payload req).

Definition build_echo_request (src_mac dst_mac src_ip dst_ip : list N) (ident seq : N)
    (payload : list N) : R (list N) :=
  build_echo src_mac dst_mac src_ip dst_ip ICMP_ECHO_REQUEST ident seq payload.

Record EchoReply := mkEchoReply {
  er_src_ip : list N;
  er_ident : N;
  er_seq : N;
  er_payload : list N;
}.

Definition parse_echo_reply (frame : list N) : R EchoReply :=
  _ ← guard (42 <=? len frame)%N;
  '(ip, icmp) ← parse_headers frame;
  src_ip ← slice ip 12 16;
  _ ← check_icmp icmp ICMP_ECHO_REPLY;
  ident ← be16 icmp 4;
  seq ← be16 icmp 6;
  payload ← slice icmp 8 (len icmp);
  mret (mkEchoReply src_ip ident seq payload).

(** ** ARP *)

Definition ETHERTYPE_ARP : N := 2054.
Definition ARP_HTYPE_ETHERNET : N := 1.
Definition ARP_OP_REQUEST : N := 1.
Definition ARP_OP_REPLY : N := 2.
Definition MAC_BROADCAST : list N := replicate 6 255%N.

Definition build_arp_request (sender_mac sender_ip target_ip : list N) : list N :=
  MAC_BROADCAST ++ sender_mac ++ to_be_bytes ETHERTYPE_ARP
  ++ to_be_bytes ARP_HTYPE_ETHERNET ++ to_be_bytes ETHERTYPE_IPV4 ++ [6; 4]%N
  ++ to_be_bytes ARP_OP_REQUEST ++ sender_mac ++ sender_ip ++ replicate 6 0%N ++ target_ip.

Definition parse_arp_reply (frame expected_sender_ip : list N) : R (list N) :=
  _ ← guard (42 <=? len frame)%N;
  ty ← be16 frame 12; _ ← guard (ty =? ETHERTYPE_ARP)%N;
  arp ← slice frame 14 (len frame);
  htype ← be16 arp 0; _ ← guard (htype =? ARP_HTYPE_ETHERNET)%N;
  ptype ← be16 arp 2; _ ← guard (ptype =? ETHERTYPE_IPV4)%N;
  hlen ← byte_at arp 4; _ ← guard (hlen =? 6)%N;
  plen ← byte_at arp 5; _ ← guard (plen =? 4)%N;
  op ← be16 arp 6; _ ← guard (op =? ARP_OP_REPLY)%N;
  sender ← slice arp 14 18; _ ← guard (bool_decide (sender = expected_sender_ip));
  slice arp 8 14.

(** ** The checksum is the Internet checksum *)

Abbreviation byte b := (b < U8)%N (only parsing).

(** The sum of the words, unbounded. *)
Fixpoint words_sum (data : list N) : N :=
  match data with
  | a :: b :: data => from_be_bytes a b + words_sum data
  | [a] => a * 256
  | [] => 0
  end%N.

(** Induction by words. *)
Lemma words_ind (P : list N → Prop) :
  P [] → (∀ a, P [a]) → (∀ a b l, P l → P (a :: b :: l)) → ∀ l, P l.
Proof.
  intros H0 H1 H2 l. enough (P l ∧ ∀ a, P (a :: l)) as [? _] by done.
  induction l as [|b l [IH1 IH2]]; auto.
Qed.

Lemma sum_words_spec data s :
  (s < U32)%N →
  sum_words data s = if decide (s + words_sum data < U32)%N then Some (s + words_sum data)%N else None.
Proof.
  revert s. induction data as [|a|a b data IH] using words_ind; intros s Hs.
  - simpl. by rewrite N.add_0_r, decide_True.
  - simpl. unfold checked_add. rewrite N.shiftl_mul_pow2. change (2 ^ 8)%N with 256%N.
    destruct (N.ltb_spec (s + a * 256) U32); case_decide; done || lia.
  - simpl. unfold checked_add. destruct (N.ltb_spec (s + from_be_bytes a b) U32); simpl.
    + rewrite IH by done. by rewrite N.add_assoc.
    + rewrite decide_False by lia. done.
Qed.

(** The one's complement sum: the sum modulo 65535, with 65535 for the multiples
    other than zero. *)
Definition ones_sum (s : N) : N := if (s =? 0)%N then 0%N else ((s - 1) mod 65535 + 1)%N.

Lemma ones_sum_small s : (s < U16)%N → ones_sum s = s.
Proof.
  intros Hs. unfold ones_sum. destruct (N.eqb_spec s 0); [done|].
  rewrite N.mod_small by lia. lia.
Qed.

Lemma ones_sum_le s : (ones_sum s < U16)%N.
Proof.
  unfold ones_sum. destruct (s =? 0)%N; [done|].
  pose proof (N.mod_lt (s - 1) 65535 ltac:(done)). lia.
Qed.

Lemma ones_sum_step s q r : s = (65536 * q + r)%N → ones_sum (r + q) = ones_sum s.
Proof.
  intros ->. unfold ones_sum.
  destruct (N.eqb_spec (r + q) 0), (N.eqb_spec (65536 * q + r) 0); try lia.
  replace (65536 * q + r - 1)%N with (r + q - 1 + q * 65535)%N by lia.
  by rewrite N.Div0.mod_add.
Qed.

Lemma carry_parts s :
  ∃ q r, (s = 65536 * q + r ∧ r < 65536 ∧ N.shiftr s 16 = q ∧ N.land s 65535 = r)%N.
Proof.
  exists (s / 65536)%N, (s mod 65536)%N. split_and!.
  - apply N.div_mod. done.
  - by apply N.mod_lt.
  - by rewrite N.shiftr_div_pow2.
  - change 65535%N with (N.ones 16). by rewrite N.land_ones.
Qed.

(** Two rounds suffice for every [u32]. *)
Lemma fold_carries_spec s : (s < U32)%N → fold_carries 2 s = Some (ones_sum s).
Proof.
  intros Hs. simpl.
  destruct (carry_parts s) as (q & r & Hq & Hr & -> & ->).
  destruct (N.eqb_spec q 0) as [->|Hq0]; [rewrite ones_sum_small by lia; done|].
  rewrite <- (ones_sum_step s q r Hq).
  destruct (carry_parts (r + q)) as (q' & r' & Hq' & Hr' & -> & ->).
  destruct (N.eqb_spec q' 0) as [->|Hq0']; [by rewrite ones_sum_small by lia|].
  rewrite <- (ones_sum_step (r + q) q' r' Hq').
  assert (r' + q' < 65536)%N by lia.
  destruct (carry_parts (r' + q')) as (q2 & r2 & Hq2 & Hr2 & -> & _).
  rewrite (proj2 (N.eqb_eq _ _)) by lia. by rewrite ones_sum_small.
Qed.

Lemma checksum_spec data :
  checksum data =
    if decide (words_sum data < U32)%N then Ok (65535 - ones_sum (words_sum data))%N else Panic.
Proof.
  unfold checksum. rewrite sum_words_spec by done. rewrite N.add_0_l.
  case_decide as Hs; [|done]. cbn [or_panic mbind outcome_bind]. rewrite fold_carries_spec by done. simpl.
  unfold mret, outcome_ret. f_equal. pose proof (ones_sum_le (words_sum data)) as Hl.
  unfold not_u16, truncate. rewrite N.mod_small by done.
  destruct (decide (ones_sum (words_sum data) = 0)%N) as [->|Hne]; [done|].
  rewrite N.lnot_sub_low; [done|]. apply N.log2_lt_pow2; [lia|done].
Qed.

Lemma words_sum_app pre data :
  Nat.Even (length pre) → words_sum (pre ++ data) = (words_sum pre + words_sum data)%N.
Proof.
  induction pre as [|a|a b pre IH] using words_ind; intros He.
  - done.
  - destruct He as [k Hk]. simpl in Hk. lia.
  - simpl. rewrite IH; [lia|]. destruct He as [k Hk]. exists (k - 1). simpl in Hk. lia.
Qed.

Lemma words_sum_bound data :
  Forall (λ b, byte b) data → (2 * words_sum data ≤ 65535 * (len data + 1))%N.
Proof.
  unfold len. induction data as [|a|a b data IH] using words_ind; intros Hb.
  - simpl. lia.
  - apply Forall_cons in Hb as [? _]. simpl. lia.
  - apply Forall_cons in Hb as [? Hb]. apply Forall_cons in Hb as [? Hb].
    specialize (IH Hb). simpl. unfold from_be_bytes. lia.
Qed.

Lemma be_bytes_inv x : (x < U16)%N → from_be_bytes (x / 256) (x mod 256) = x.
Proof. intros. unfold from_be_bytes. symmetry. by apply N.div_mod. Qed.

Lemma to_be_bytes_byte x : (x < U16)%N → Forall (λ b, byte b) (to_be_bytes x).
Proof.
  intros. repeat constructor.
  - apply N.Div0.div_lt_upper_bound. lia.
  - by apply N.mod_lt.
Qed.

Lemma words_sum_be x data : (x < U16)%N → words_sum (to_be_bytes x ++ data) = (x + words_sum data)%N.
Proof. intros. simpl. by rewrite be_bytes_inv. Qed.

Lemma checksum_placed pre post :
  Forall (λ b, byte b) (pre ++ post) → Nat.Even (length pre) → (len (pre ++ post) ≤ 131070)%N →
  ∃ c, checksum (pre ++ to_be_bytes 0 ++ post) = Ok c ∧ (c < U16)%N ∧
    c = (65535 - ones_sum (words_sum pre + words_sum post))%N ∧
    checksum (pre ++ to_be_bytes c ++ post) = Ok 0%N.
Proof.
  intros Hb He Hl. apply Forall_app in Hb as [Hb1 Hb2].
  pose proof (words_sum_bound pre Hb1) as H1. pose proof (words_sum_bound post Hb2) as H2.
  unfold len in *. rewrite length_app in Hl.
  set (s := (words_sum pre + words_sum post)%N).
  assert (words_sum pre + 65535 + words_sum post < U32)%N as Hfit.
  { destruct He as [k Hk].
    assert (2 * words_sum pre ≤ 65535 * N.of_nat (length pre))%N.
    { clear -Hb1 Hk. revert k Hk. induction pre as [|a|a b pre IH] using words_ind; intros k Hk.
      - simpl. lia.
      - simpl in Hk. lia.
      - apply Forall_cons in Hb1 as [? Hb]. apply Forall_cons in Hb as [? Hb].
        specialize (IH Hb (k - 1) ltac:(simpl in Hk; lia)). simpl. unfold from_be_bytes. lia. }
    lia. }
  exists (65535 - ones_sum s)%N. pose proof (ones_sum_le s) as Hs.
  split_and!; [|lia|done|].
  - rewrite checksum_spec, words_sum_app, words_sum_be by done. rewrite N.add_0_l.
    fold s. rewrite decide_True by (unfold s; lia). done.
  - rewrite checksum_spec, words_sum_app, words_sum_be by (done || lia).
    rewrite decide_True by lia. f_equal.
    assert (ones_sum (words_sum pre + (65535 - ones_sum s + words_sum post)) = 65535)%N as ->; [|done].
    replace (words_sum pre + (65535 - ones_sum s + words_sum post))%N
      with (s + (65535 - ones_sum s))%N by (unfold s; lia).
    clearbody s. clear -Hs. revert Hs. unfold ones_sum. destruct (N.eqb_spec s 0) as [->|Hne]; [done|]. intros Hs.
    pose proof (N.div_mod (s - 1) 65535 ltac:(done)) as Hd.
    pose proof (N.mod_lt (s - 1) 65535 ltac:(done)) as Hm.
    revert Hd Hm Hs. generalize ((s - 1) / 65535)%N ((s - 1) mod 65535)%N. intros q r Hd Hr Hs.
    destruct (N.eqb_spec (s + (65535 - (r + 1))) 0); [lia|].
    replace (s + (65535 - (r + 1)) - 1)%N with (65534 + q * 65535)%N by lia.
    by rewrite N.Div0.mod_add.
Qed.

(** The checksum is the Internet checksum: over at most 128 KiB it is
    computed without an overflow, as the complement of the one's complement sum
    of the 16-bit words, an odd byte counting as the high half of a word; and
    with it in place of a zero field at an even offset the whole adds up to all
    ones, so that the receiver computes zero. *)
Lemma checksum_correct pre post :
  Forall (λ b, byte b) (pre ++ post) → Nat.Even (length pre) → (len (pre ++ post) ≤ 131070)%N →
  ∃ c, checksum (pre ++ to_be_bytes 0 ++ post) = Ok c ∧ (c < U16)%N ∧
    c = (65535 - ones_sum (words_sum pre + words_sum post))%N ∧
    checksum (pre ++ to_be_bytes c ++ post) = Ok 0%N.
Proof. apply checksum_placed. Qed.

(** ** The frames that the builders make *)

(** The IPv4 header without options, with a checksum [c]. *)
Definition ip_header (src dst : list N) (payload_len c : N) : list N :=
  [69; 0]%N ++ to_be_bytes (truncate U16 (20 + (8 + payload_len))) ++ to_be_bytes 0
  ++ to_be_bytes 16384 ++ [64; IP_PROTO_ICMP]%N ++ to_be_bytes c ++ src ++ dst.

Definition icmp_section (ty c ident seq : N) (payload : list N) : list N :=
  [ty; 0]%N ++ to_be_bytes c ++ to_be_bytes ident ++ to_be_bytes seq ++ payload.

Definition ethernet (dst src : list N) (ty : N) : list N := dst ++ src ++ to_be_bytes ty.

Record echo_args_ok (smac dmac sip dip : list N) (ident seq : N) (pl : list N) : Prop := {
  ea_smac : length smac = 6;
  ea_dmac : length dmac = 6;
  ea_sip : length sip = 4 ∧ Forall (λ b, byte b) sip;
  ea_dip : length dip = 4 ∧ Forall (λ b, byte b) dip;
  ea_ident : (ident < U16)%N;
  ea_seq : (seq < U16)%N;
  ea_payload : Forall (λ b, byte b) pl ∧ (len pl ≤ 131000)%N;
}.

Lemma build_echo_run smac dmac sip dip ty ident seq pl :
  echo_args_ok smac dmac sip dip ident seq pl → byte ty →
  ∃ c1 c2, (c1 < U16 ∧ c2 < U16)%N ∧
    build_echo smac dmac sip dip ty ident seq pl =
      Ok (ethernet dmac smac ETHERTYPE_IPV4 ++ ip_header sip dip (len pl) c1 ++
          icmp_section ty c2 ident seq pl) ∧
    checksum (ip_header sip dip (len pl) c1) = Ok 0%N ∧
    checksum (icmp_section ty c2 ident seq pl) = Ok 0%N.
Proof.
  intros [Hsm Hdm [Hsi Hsib] [Hdi Hdib] Hid Hsq [Hpl Hlen]] Hty.
  set (tot := truncate U16 (20 + (8 + len pl))).
  assert (tot < U16)%N as Htot by (by apply N.mod_lt).
  (* the two checksums *)
  destruct (checksum_placed ([69; 0]%N ++ to_be_bytes tot ++ to_be_bytes 0 ++ to_be_bytes 16384
    ++ [64; IP_PROTO_ICMP]%N) (sip ++ dip)) as (c1 & Hc1 & Hlt1 & _ & Hv1).
  { repeat apply Forall_app_2; try done; try (by apply to_be_bytes_byte); by repeat constructor. }
  { by exists 5. }
  { unfold len. rewrite !length_app, Hsi, Hdi. simpl. lia. }
  destruct (checksum_placed [ty; 0]%N (to_be_bytes ident ++ to_be_bytes seq ++ pl))
    as (c2 & Hc2 & Hlt2 & _ & Hv2).
  { repeat apply Forall_app_2; try done; try (by apply to_be_bytes_byte); by repeat constructor. }
  { by exists 1. }
  { unfold len in *. rewrite !length_app. simpl. lia. }
  exists c1, c2. split; [done|].
  assert (ip_header sip dip (len pl) c1 = ([69; 0]%N ++ to_be_bytes tot ++ to_be_bytes 0 ++
    to_be_bytes 16384 ++ [64; IP_PROTO_ICMP]%N) ++ to_be_bytes c1 ++ sip ++ dip) as Hh1
    by done.
  assert (icmp_section ty c2 ident seq pl = [ty; 0]%N ++ to_be_bytes c2 ++ to_be_bytes ident ++
    to_be_bytes seq ++ pl) as Hi2 by done.
  split_and!; [|by rewrite Hh1|by rewrite Hi2].
  unfold build_echo, slice. cbv zeta. fold (ethernet dmac smac ETHERTYPE_IPV4). fold tot.
  assert (len (ethernet dmac smac ETHERTYPE_IPV4) = 14%N) as He.
  { unfold ethernet, len. rewrite !length_app, Hdm, Hsm. done. }
  set (eth := ethernet dmac smac ETHERTYPE_IPV4) in *. rewrite He.
  set (hdr0 := [69; 0]%N ++ to_be_bytes tot ++ to_be_bytes 0 ++ to_be_bytes 16384 ++
    [64; IP_PROTO_ICMP]%N ++ to_be_bytes 0 ++ sip ++ dip).
  assert (len hdr0 = 20%N) as Hl0 by (unfold hdr0, len; rewrite !length_app, Hsi, Hdi; done).
  rewrite (sub_suffix eth hdr0) by (rewrite ?Hl0; lia). cbn [or_panic mbind outcome_bind].
  change (checksum hdr0) with (checksum (([69; 0]%N ++ to_be_bytes tot ++ to_be_bytes 0 ++
    to_be_bytes 16384 ++ [64; IP_PROTO_ICMP]%N) ++ to_be_bytes 0 ++ sip ++ dip)).
  rewrite Hc1. cbn [mbind outcome_bind].
  set (pre := [69; 0]%N ++ to_be_bytes tot ++ to_be_bytes 0 ++ to_be_bytes 16384 ++
    [64; IP_PROTO_ICMP]%N).
  assert (eth ++ hdr0 = (eth ++ pre) ++ to_be_bytes 0 ++ sip ++ dip) as ->
    by (rewrite <- app_assoc; done).
  rewrite (copy_into_app (eth ++ pre)) by (rewrite ?len_app, ?He; done).
  cbn [or_panic mbind outcome_bind].
  assert ((eth ++ pre) ++ to_be_bytes c1 ++ sip ++ dip = eth ++ ip_header sip dip (len pl) c1) as ->
    by (rewrite <- app_assoc; done).
  set (hdr := ip_header sip dip (len pl) c1).
  assert (len (eth ++ hdr) = 34%N) as Hl1.
  { rewrite len_app, He. unfold hdr, ip_header, len. rewrite !length_app, Hsi, Hdi. done. }
  rewrite Hl1. set (icmp0 := [ty; 0]%N ++ to_be_bytes 0 ++ to_be_bytes ident ++ to_be_bytes seq ++ pl).
  rewrite (sub_suffix (eth ++ hdr) icmp0) by (rewrite ?len_app in *; lia).
  cbn [or_panic mbind outcome_bind]. unfold icmp0. rewrite Hc2. cbn [mbind outcome_bind].
  rewrite (app_assoc (eth ++ hdr) [ty; 0]%N).
  rewrite (copy_into_app ((eth ++ hdr) ++ [ty; 0]%N)).
  - cbn [or_panic]. rewrite <- !app_assoc. done.
  - rewrite len_app, Hl1. done.
  - rewrite len_app, Hl1. done.
  - done.
Qed.

(** ** The grammar of echo frames *)

(** An Ethernet frame with an IPv4 packet with an ICMP section of type [ty]; the
    IP header may have options, and nothing is said of the fields that the
    parsers skip. *)
Definition echo_frame (ty : N) (frame dmac smac sip dip : list N) (ident seq : N)
    (pl : list N) : Prop :=
  ∃ h0 a b opts code k0 k1,
    frame = ethernet dmac smac ETHERTYPE_IPV4 ++
            ([h0] ++ a ++ [IP_PROTO_ICMP] ++ b ++ sip ++ dip) ++ opts ++
            [ty; code; k0; k1] ++ to_be_bytes ident ++ to_be_bytes seq ++ pl ∧
    length dmac = 6 ∧ length smac = 6 ∧ length a = 8 ∧ length b = 2 ∧
    length sip = 4 ∧ length dip = 4 ∧ (20 + len opts = N.land h0 15 * 4)%N ∧
    (ident < U16)%N ∧ (seq < U16)%N.

Lemma be16_app pre a b post i :
  i = len pre → be16 (pre ++ [a; b] ++ post) i = Ok (from_be_bytes a b).
Proof.
  intros ->. unfold be16. rewrite !getN_lookup. unfold len.
  replace (N.to_nat (N.of_nat (length pre) + 1)) with (length pre + 1) by lia.
  rewrite Nat2N.id, (lookup_app_r pre _ (length pre)), (lookup_app_r pre _ (length pre + 1)) by lia.
  replace (length pre - length pre) with 0 by lia. replace (length pre + 1 - length pre) with 1 by lia.
  done.
Qed.

Lemma byte_at_app pre x post i : i = len pre → byte_at (pre ++ [x] ++ post) i = Ok x.
Proof.
  intros ->. unfold byte_at. rewrite getN_lookup. unfold len.
  rewrite Nat2N.id, lookup_app_r by lia. by replace (length pre - length pre) with 0 by lia.
Qed.

(** The pieces of a frame of at least 42 bytes. *)
Lemma frame_split (frame : list N) :
  42 ≤ length frame →
  ∃ dmac smac t0 t1 h0 a p b sip dip rest,
    frame = (dmac ++ smac ++ [t0; t1]) ++ ([h0] ++ a ++ [p] ++ b ++ sip ++ dip) ++ rest ∧
    length dmac = 6 ∧ length smac = 6 ∧ length a = 8 ∧ length b = 2 ∧ length sip = 4 ∧
    length dip = 4 ∧ 8 ≤ length rest.
Proof.
  intros Hl. exists (take 6 frame), (take 6 (drop 6 frame)).
  destruct (drop 12 frame) as [|t0 [|t1 [|h0 ip]]] eqn:E;
    try (apply (f_equal (@length N)) in E; rewrite length_drop in E; simpl in E; lia).
  assert (length frame = 15 + length ip) as Hf.
  { apply (f_equal (@length N)) in E. rewrite length_drop in E. simpl in E. lia. }
  exists t0, t1, h0, (take 8 ip).
  destruct (drop 8 ip) as [|p r] eqn:E2;
    [apply (f_equal (@length N)) in E2; rewrite length_drop in E2; simpl in E2; lia|].
  assert (length ip = 9 + length r) as Hi.
  { apply (f_equal (@length N)) in E2. rewrite length_drop in E2. simpl in E2. lia. }
  exists p, (take 2 r), (take 4 (drop 2 r)), (take 4 (drop 6 r)), (drop 10 r).
  assert (frame = take 6 frame ++ take 6 (drop 6 frame) ++ drop 12 frame) as Hfr.
  { rewrite <- (take_drop 6 frame) at 1. f_equal.
    rewrite <- (take_drop 6 (drop 6 frame)) at 1. by rewrite drop_drop. }
  assert (r = take 2 r ++ take 4 (drop 2 r) ++ take 4 (drop 6 r) ++ drop 10 r) as Hr.
  { rewrite <- (take_drop 2 r) at 1. f_equal. rewrite <- (take_drop 4 (drop 2 r)) at 1. f_equal.
    rewrite drop_drop. rewrite <- (take_drop 4 (drop _ r)) at 1. by rewrite drop_drop. }
  split_and!; rewrite ?length_take, ?length_drop; try lia.
  rewrite Hfr at 1. rewrite E. rewrite <- (take_drop 8 ip) at 1. rewrite E2, Hr at 1.
  by rewrite <- !app_assoc.
Qed.

Section split.
Context (dmac smac : list N) (t0 t1 h0 : N) (a : list N) (p : N) (b sip dip rest : list N).
Hypothesis Hdmac : length dmac = 6.
Hypothesis Hsmac : length smac = 6.
Hypothesis Ha : length a = 8.
Hypothesis Hb : length b = 2.
Hypothesis Hsip : length sip = 4.
Hypothesis Hdip : length dip = 4.

Let hdr := [h0] ++ a ++ [p] ++ b ++ sip ++ dip.
Let frame := (dmac ++ smac ++ [t0; t1]) ++ hdr ++ rest.
Let ihl := (N.land h0 15 * 4)%N.

Lemma hdr_len : len hdr = 20%N.
Proof using Ha Hb Hsip Hdip. unfold hdr, len. rewrite !length_app, Ha, Hb, Hsip, Hdip. done. Qed.

Lemma parse_headers_eq :
  parse_headers frame =
    if decide (from_be_bytes t0 t1 = ETHERTYPE_IPV4 ∧ (20 ≤ ihl ≤ 20 + len rest)%N ∧
               p = IP_PROTO_ICMP)
    then Ok (hdr ++ rest, drop (N.to_nat (ihl - 20)) rest) else Err tt.
Proof using Ha Hb Hsip Hdip Hdmac Hsmac.
  pose proof hdr_len as Hh. unfold parse_headers.
  assert (len (dmac ++ smac) = 12%N) as H12 by (unfold len; rewrite length_app, Hdmac, Hsmac; done).
  assert (frame = (dmac ++ smac) ++ [t0; t1] ++ hdr ++ rest) as Hf
    by (unfold frame; by rewrite <- !app_assoc).
  rewrite Hf at 1. rewrite be16_app by done. cbn [mbind outcome_bind].
  destruct (N.eqb_spec (from_be_bytes t0 t1) ETHERTYPE_IPV4) as [Ht|Ht]; cbn [guard mbind outcome_bind];
    [|rewrite decide_False by tauto; done].
  cbv [mret outcome_ret]. cbn [mbind outcome_bind]. unfold slice, frame.
  rewrite (sub_suffix (dmac ++ smac ++ [t0; t1]) (hdr ++ rest));
    [|unfold len; rewrite !length_app, Hdmac, Hsmac; done|by rewrite len_app].
  cbn [or_panic mbind outcome_bind].
  assert (byte_at (hdr ++ rest) 0 = Ok h0) as ->
    by (apply (byte_at_app [] h0 ((a ++ [p] ++ b ++ sip ++ dip) ++ rest)); done).
  cbn [mbind outcome_bind]. fold ihl. rewrite len_app, Hh.
  destruct (N.ltb_spec ihl 20) as [Hlo|Hlo]; cbn [orb negb guard mbind outcome_bind];
    [rewrite decide_False by lia; done|].
  destruct (N.ltb_spec (20 + len rest) ihl) as [Hhi|Hhi]; cbn [orb negb guard mbind outcome_bind];
    [rewrite decide_False by lia; done|].
  cbv [mret outcome_ret]. cbn [mbind outcome_bind].
  assert (hdr ++ rest = ([h0] ++ a) ++ [p] ++ (b ++ sip ++ dip) ++ rest) as Hp
    by (unfold hdr; rewrite <- !app_assoc; done).
  rewrite Hp at 1. rewrite byte_at_app by (unfold len; rewrite length_app, Ha; done).
  cbn [mbind outcome_bind].
  destruct (N.eqb_spec p IP_PROTO_ICMP) as [Hpe|Hpe]; cbn [guard mbind outcome_bind];
    [|rewrite decide_False by tauto; done].
  rewrite decide_True by done. cbv [mret outcome_ret]. cbn [mbind outcome_bind].
  rewrite sub_Some by (rewrite len_app, Hh; lia). cbn [or_panic mbind outcome_bind].
  do 2 f_equal. unfold len in *.
  rewrite drop_app_ge by lia. rewrite take_ge by (rewrite length_drop; lia). f_equal. lia.
Qed.

Lemma ip_sip : slice (hdr ++ rest) 12 16 = Ok sip.
Proof using Ha Hb Hsip.
  unfold slice, hdr.
  assert (([h0] ++ a ++ [p] ++ b ++ sip ++ dip) ++ rest = ([h0] ++ a ++ [p] ++ b) ++ sip ++ dip ++ rest)
    as -> by by rewrite <- !app_assoc.
  rewrite sub_app; [done|unfold len; rewrite !length_app, Ha, Hb; done|].
  unfold len. rewrite !length_app, Ha, Hb, Hsip. done.
Qed.

Lemma ip_dip : slice (hdr ++ rest) 16 20 = Ok dip.
Proof using Ha Hb Hsip Hdip.
  unfold slice, hdr.
  assert (([h0] ++ a ++ [p] ++ b ++ sip ++ dip) ++ rest = ([h0] ++ a ++ [p] ++ b ++ sip) ++ dip ++ rest)
    as -> by by rewrite <- !app_assoc.
  rewrite sub_app; [done|unfold len; rewrite !length_app, Ha, Hb, Hsip; done|].
  unfold len. rewrite !length_app, Ha, Hb, Hsip, Hdip. done.
Qed.

Lemma frame_macs : slice frame 0 6 = Ok dmac ∧ slice frame 6 12 = Ok smac.
Proof using Hdmac Hsmac.
  unfold slice, frame. split.
  - rewrite <- (app_assoc dmac). change (dmac ++ (smac ++ [t0; t1]) ++ hdr ++ rest) with
      ([] ++ dmac ++ (smac ++ [t0; t1]) ++ hdr ++ rest).
    rewrite sub_app; [done|done|]. unfold len. by rewrite Hdmac.
  - rewrite <- !app_assoc, sub_app; [done| |]; unfold len; rewrite ?Hdmac, ?Hsmac; done.
Qed.
End split.

(** The ICMP section. *)
Lemma icmp_cases icmp ty :
  (check_icmp icmp ty = Err tt ∧
   ∀ code k0 k1 i0 i1 s0 s1 pl, icmp ≠ [ty; code; k0; k1; i0; i1; s0; s1] ++ pl) ∨
  ∃ code k0 k1 i0 i1 s0 s1 pl,
    icmp = [ty; code; k0; k1; i0; i1; s0; s1] ++ pl ∧ check_icmp icmp ty = Ok tt ∧
    be16 icmp 4 = Ok (from_be_bytes i0 i1) ∧ be16 icmp 6 = Ok (from_be_bytes s0 s1) ∧
    slice icmp 8 (len icmp) = Ok pl.
Proof.
  unfold check_icmp. destruct (N.leb_spec 8 (len icmp)) as [Hl|Hl].
  - destruct icmp as [|t [|code [|k0 [|k1 [|i0 [|i1 [|s0 [|s1 pl]]]]]]]];
      try (unfold len in Hl; simpl in Hl; lia).
    cbn [guard mbind outcome_bind]. cbv [mret outcome_ret]. cbn [mbind outcome_bind].
    change (byte_at (t :: code :: k0 :: k1 :: i0 :: i1 :: s0 :: s1 :: pl) 0) with
      (byte_at ([] ++ [t] ++ code :: k0 :: k1 :: i0 :: i1 :: s0 :: s1 :: pl) 0).
    rewrite byte_at_app by done. cbn [mbind outcome_bind].
    destruct (N.eqb_spec t ty) as [->|Hne]; [right|left; split; [done|]];
      [|intros * Heq; by injection Heq].
    exists code, k0, k1, i0, i1, s0, s1, pl. split_and!; [done|done| | |].
    + apply (be16_app [ty; code; k0; k1] i0 i1 (s0 :: s1 :: pl)). done.
    + apply (be16_app [ty; code; k0; k1; i0; i1] s0 s1 pl). done.
    + unfold slice. by rewrite (sub_suffix [ty; code; k0; k1; i0; i1; s0; s1] pl)
        by (unfold len; simpl; lia).
  - left. split; [done|]. intros. intros ->. unfold len in Hl. simpl in Hl. lia.
Qed.

(** What the parsers read in a frame. *)
Definition reads (ty : N) (frame dmac smac sip dip : list N) (ident seq : N) (pl : list N) : Prop :=
  ∃ ip icmp, (42 ≤ len frame)%N ∧
    slice frame 0 6 = Ok dmac ∧ slice frame 6 12 = Ok smac ∧ parse_headers frame = Ok (ip, icmp) ∧
    slice ip 12 16 = Ok sip ∧ slice ip 16 20 = Ok dip ∧ check_icmp icmp ty = Ok tt ∧
    be16 icmp 4 = Ok ident ∧ be16 icmp 6 = Ok seq ∧ slice icmp 8 (len icmp) = Ok pl.

Lemma echo_frame_reads ty frame dmac smac sip dip ident seq pl :
  echo_frame ty frame dmac smac sip dip ident seq pl →
  reads ty frame dmac smac sip dip ident seq pl.
Proof.
  intros (h0 & a & b & opts & code & k0 & k1 & -> & Hd & Hs & Ha & Hb & Hsi & Hdi & Hihl & Hi & Hq).
  set (icmp := [ty; code; k0; k1] ++ to_be_bytes ident ++ to_be_bytes seq ++ pl).
  set (hdr := [h0] ++ a ++ [IP_PROTO_ICMP] ++ b ++ sip ++ dip).
  change (ethernet dmac smac ETHERTYPE_IPV4) with (dmac ++ smac ++ [8; 0]%N).
  pose proof (parse_headers_eq dmac smac 8 0 h0 a IP_PROTO_ICMP b sip dip (opts ++ icmp)
    Hd Hs Ha Hb Hsi Hdi) as Hp.
  rewrite decide_True in Hp by (split_and!; [done|lia|rewrite len_app; lia|done]).
  fold hdr in Hp. exists (hdr ++ opts ++ icmp), icmp.
  replace (drop _ (opts ++ icmp)) with icmp in Hp.
  2: { replace (N.to_nat _) with (length opts) by (unfold len in *; lia). by rewrite drop_app_length. }
  assert (len hdr = 20%N) as Hh by by apply hdr_len.
  destruct (icmp_cases icmp ty) as [[_ Hno]|(code' & k0' & k1' & i0 & i1 & s0 & s1 & pl' & E & Hc & E4 & E6 & E8)].
  { exfalso. eapply (Hno code k0 k1 _ _ _ _ pl). reflexivity. }
  unfold icmp in E. simpl in E. injection E as <- <- <- <- <- <- <- <-.
  rewrite be_bytes_inv in E4, E6 by done.
  destruct (frame_macs dmac smac 8 0 h0 a IP_PROTO_ICMP b sip dip (opts ++ icmp) Hd Hs) as [H06 H612].
  split_and!; try done.
  - unfold icmp. rewrite !len_app, Hh. unfold len. rewrite Hd, Hs. simpl. lia.
  - apply (ip_sip h0 a IP_PROTO_ICMP b sip dip); done.
  - apply (ip_dip h0 a IP_PROTO_ICMP b sip dip); done.
Qed.

Lemma be_bytes_unique a b : byte a → byte b → to_be_bytes (from_be_bytes a b) = [a; b].
Proof.
  intros. unfold to_be_bytes, from_be_bytes. rewrite N.mul_comm. f_equal; [|f_equal].
  - rewrite N.div_add_l by done. rewrite N.div_small by done. lia.
  - rewrite N.add_comm, N.Div0.mod_add. by apply N.mod_small.
Qed.

Lemma from_be_bytes_lt a b : byte a → byte b → (from_be_bytes a b < U16)%N.
Proof. unfold from_be_bytes. lia. Qed.

(** Nothing that a parser does with a frame of 42 bytes or more panics, and if it
    reads something then the frame is one of the grammar. *)
Lemma frame_cases ty frame :
  Forall (λ b, byte b) frame → (42 ≤ len frame)%N →
  (∃ dmac smac sip dip ident seq pl,
     echo_frame ty frame dmac smac sip dip ident seq pl) ∨
  (∃ dmac smac, slice frame 0 6 = Ok dmac ∧ slice frame 6 12 = Ok smac) ∧
  (parse_headers frame = Err tt ∨
   ∃ ip icmp sip dip, parse_headers frame = Ok (ip, icmp) ∧ slice ip 12 16 = Ok sip ∧
     slice ip 16 20 = Ok dip ∧ check_icmp icmp ty = Err tt).
Proof.
  intros Hby Hl.
  destruct (frame_split frame) as (dmac & smac & t0 & t1 & h0 & a & p & b & sip & dip & rest & E &
    Hd & Hs & Ha & Hb & Hsi & Hdi & Hr); [unfold len in Hl; lia|].
  pose proof (parse_headers_eq dmac smac t0 t1 h0 a p b sip dip rest Hd Hs Ha Hb Hsi Hdi) as Hp.
  pose proof (ip_sip h0 a p b sip dip rest Ha Hb Hsi) as H12.
  pose proof (ip_dip h0 a p b sip dip rest Ha Hb Hsi Hdi) as H16.
  destruct (frame_macs dmac smac t0 t1 h0 a p b sip dip rest Hd Hs) as [H0 H6].
  rewrite <- E in *. case_decide as Hc; [|right; eauto 10].
  destruct Hc as (Ht & Hihl & ->).
  destruct (icmp_cases (drop (N.to_nat (N.land h0 15 * 4 - 20)) rest) ty) as
    [[He _]|(code & k0 & k1 & i0 & i1 & s0 & s1 & pl & Ei & _)]; [right; eauto 15|left].
  assert (Forall (λ b, byte b) rest) as Hrb.
  { rewrite E in Hby. by apply Forall_app in Hby as [_ [_ ?]%Forall_app]. }
  assert (byte t0 ∧ byte t1) as [Ht0 Ht1].
  { rewrite E in Hby. apply Forall_app in Hby as [Hby _]. apply Forall_app in Hby as [_ Hby].
    apply Forall_app in Hby as [_ Hby]. apply Forall_cons in Hby as [? Hby]. by apply Forall_cons in Hby as [? _]. }
  apply (Forall_drop _ (N.to_nat (N.land h0 15 * 4 - 20))) in Hrb. rewrite Ei in Hrb.
  apply Forall_app in Hrb as [Hib _]. repeat (apply Forall_cons in Hib as [? Hib]).
  exists dmac, smac, sip, dip, (from_be_bytes i0 i1), (from_be_bytes s0 s1), pl,
    h0, a, b, (take (N.to_nat (N.land h0 15 * 4 - 20)) rest), code, k0, k1.
  split_and!; try done; auto using from_be_bytes_lt.
  - rewrite !be_bytes_unique by done. unfold ethernet.
    rewrite <- Ht, be_bytes_unique by done. rewrite E at 1. do 2 f_equal.
    rewrite <- (take_drop (N.to_nat (N.land h0 15 * 4 - 20)) rest) at 1. f_equal. done.
  - unfold len in *. rewrite length_take. lia.
Qed.

(** A parser that continues with [k] on what it reads. *)
Definition request_of (dmac smac sip dip : list N) (ident seq : N) (pl : list N) : EchoRequest :=
  mkEchoRequest smac dmac sip dip ident seq pl.

Lemma parse_echo_request_reads frame dmac smac sip dip ident seq pl :
  reads ICMP_ECHO_REQUEST frame dmac smac sip dip ident seq pl →
  parse_echo_request frame = Ok (request_of dmac smac sip dip ident seq pl).
Proof.
  intros (ip & icmp & Hl & H0 & H6 & Hp & H12 & H16 & Hc & H4 & H6' & H8).
  unfold parse_echo_request. rewrite (proj2 (N.leb_le _ _) Hl). cbn [guard mbind outcome_bind].
  rewrite H0, H6, Hp. cbn [mbind outcome_bind mret outcome_ret].
  rewrite H12, H16, Hc, H4, H6', H8. done.
Qed.

Lemma parse_echo_reply_reads frame dmac smac sip dip ident seq pl :
  reads ICMP_ECHO_REPLY frame dmac smac sip dip ident seq pl →
  parse_echo_reply frame = Ok (mkEchoReply sip ident seq pl).
Proof.
  intros (ip & icmp & Hl & H0 & H6 & Hp & H12 & H16 & Hc & H4 & H6' & H8).
  unfold parse_echo_reply. rewrite (proj2 (N.leb_le _ _) Hl). cbn [guard mbind outcome_bind].
  rewrite Hp. cbn [mbind outcome_bind mret outcome_ret].
  rewrite H12, Hc, H4, H6', H8. done.
Qed.

Lemma parse_echo_cases frame :
  Forall (λ b, byte b) frame →
  ((∃ dmac smac sip dip ident seq pl,
      echo_frame ICMP_ECHO_REQUEST frame dmac smac sip dip ident seq pl) ∨
   parse_echo_request frame = Err tt) ∧
  ((∃ dmac smac sip dip ident seq pl,
      echo_frame ICMP_ECHO_REPLY frame dmac smac sip dip ident seq pl) ∨
   parse_echo_reply frame = Err tt).
Proof.
  intros Hby. unfold parse_echo_request, parse_echo_reply.
  destruct (N.leb_spec 42 (len frame)) as [Hl|Hl]; [|by split; right].
  cbn [guard mbind outcome_bind mret outcome_ret]. split.
  - destruct (frame_cases ICMP_ECHO_REQUEST frame Hby Hl) as
      [?|[(dmac & smac & -> & ->) [->|(ip & icmp & sip & dip & -> & H12 & H16 & Hc)]]]; [by left| |];
      right; [done|].
    cbn [mbind outcome_bind mret outcome_ret]. by rewrite H12, H16, Hc.
  - destruct (frame_cases ICMP_ECHO_REPLY frame Hby Hl) as
      [?|[_ [->|(ip & icmp & sip & dip & -> & H12 & H16 & Hc)]]]; [by left| |]; right; [done|].
    cbn [mbind outcome_bind mret outcome_ret]. by rewrite H12, Hc.
Qed.

(** The echo parsers are total and exact: on a frame of any bytes they do not
    panic, and they accept exactly the Ethernet frames that carry an IPv4 packet
    (with options or without) with an ICMP section of their type, and return the
    addresses, the identifier, the sequence number and the payload that are in it;
    what they accept is determined by the frame. *)
Theorem echo_parsers_exact frame :
  Forall (λ b, byte b) frame →
  parse_echo_request frame ≠ Panic ∧ parse_echo_reply frame ≠ Panic ∧
  (∀ r, parse_echo_request frame = Ok r ↔
    echo_frame ICMP_ECHO_REQUEST frame (dst_mac r) (src_mac r) (src_ip r) (dst_ip r)
      (ident r) (seq r) (payload r)) ∧
  (∀ r, parse_echo_reply frame = Ok r ↔
    ∃ dmac smac dip, echo_frame ICMP_ECHO_REPLY frame dmac smac (er_src_ip r) dip
      (er_ident r) (er_seq r) (er_payload r)).
Proof.
  intros Hby. destruct (parse_echo_cases frame Hby) as [Hq Hp].
  assert (∀ dmac smac sip dip ident seq pl,
    echo_frame ICMP_ECHO_REQUEST frame dmac smac sip dip ident seq pl →
    parse_echo_request frame = Ok (request_of dmac smac sip dip ident seq pl)) as Hq'.
  { intros. by apply parse_echo_request_reads, echo_frame_reads. }
  assert (∀ dmac smac sip dip ident seq pl,
    echo_frame ICMP_ECHO_REPLY frame dmac smac sip dip ident seq pl →
    parse_echo_reply frame = Ok (mkEchoReply sip ident seq pl)) as Hp'.
  { intros. by eapply parse_echo_reply_reads, echo_frame_reads. }
  split_and!.
  - destruct Hq as [(?&?&?&?&?&?&?&->%Hq')|Hq]; congruence.
  - destruct Hp as [(?&?&?&?&?&?&?&->%Hp')|Hp]; congruence.
  - intros r. split; [|intros H%Hq'; rewrite H; by destruct r].
    destruct Hq as [(?&?&?&?&?&?&?&H)|Hq]; [|congruence].
    rewrite (Hq' _ _ _ _ _ _ _ H). by intros [= <-].
  - intros r. split; [|intros (?&?&?&H%Hp'); rewrite H; by destruct r].
    destruct Hp as [(?&?&?&?&?&?&?&H)|Hp]; [|congruence].
    rewrite (Hp' _ _ _ _ _ _ _ H). intros [= <-]. eauto.
Qed.

(** What a builder makes is in the grammar, with no options. *)
Lemma built_echo_frame ty smac dmac sip dip c1 c2 ident seq pl :
  echo_args_ok smac dmac sip dip ident seq pl →
  echo_frame ty (ethernet dmac smac ETHERTYPE_IPV4 ++ ip_header sip dip (len pl) c1 ++
    icmp_section ty c2 ident seq pl) dmac smac sip dip ident seq pl.
Proof.
  intros [? ? [? _] [? _] ? ? _].
  exists 69%N, ([0]%N ++ to_be_bytes (truncate U16 (20 + (8 + len pl))) ++ to_be_bytes 0
    ++ to_be_bytes 16384 ++ [64]%N), (to_be_bytes c1), [], 0%N, (c2 / 256)%N, (c2 mod 256)%N.
  split_and!; done.
Qed.

(** ** The packet on the wire *)

(** The bytes of a section in 16-bit words, the first of a pair being the high one. *)
Fixpoint weighed (high : bool) (l : list N) : N :=
  match l with
  | [] => 0
  | b :: l => (if high then 256 * b else b) + weighed (negb high) l
  end.

(** The rule of RFC 1071, with which receivers check a section: its one's complement
    sum is all ones, which is a positive multiple of 65535. *)
Definition sums_to_ones (l : list N) : Prop := (0 < weighed true l ∧ weighed true l mod 65535 = 0)%N.

(** An ICMP echo packet of type [ty] from [smac], [sip] to [dmac], [dip]: Ethernet, IPv4
    without options and fragments, a total length of 16 bits, the checksums [c1 c0] and
    [k1 k0]. *)
Definition echo_packet (ty : N) (dmac smac sip dip : list N) (ident seq : N) (pl f : list N) : Prop :=
  ∃ t1 t0 c1 c0 k1 k0,
    let ip := [69; 0; t1; t0; 0; 0; 64; 0; 64; 1; c1; c0]%N ++ sip ++ dip in
    let icmp := [ty; 0; k1; k0; ident / 256; ident mod 256; seq / 256; seq mod 256]%N ++ pl in
    f = dmac ++ smac ++ [8; 0]%N ++ ip ++ icmp ∧
    (256 * t1 + t0 = (28 + len pl) mod 65536)%N ∧ sums_to_ones ip ∧ sums_to_ones icmp ∧
    Forall (λ b, byte b) [t1; t0; c1; c0; k1; k0].

Lemma weighed_words l : weighed true l = words_sum l.
Proof.
  induction l as [|a|a b l IH] using words_ind; [done|simpl; lia|]. simpl in *. rewrite IH.
  unfold from_be_bytes. lia.
Qed.

Lemma checksum_zero_sums l : checksum l = Ok 0%N → sums_to_ones l.
Proof.
  rewrite checksum_spec. case_decide; [|done]. intros [= Hz]. unfold sums_to_ones. rewrite weighed_words.
  revert Hz. generalize (words_sum l). intros s Hz. pose proof (ones_sum_le s) as Hle.
  assert (ones_sum s = 65535%N) as Ho by lia. unfold ones_sum in Ho.
  destruct (N.eqb_spec s 0) as [|Hs]; [lia|].
  pose proof (N.div_mod (s - 1) 65535 ltac:(done)) as Hd.
  split; [lia|]. apply N.Div0.mod_divides. exists ((s - 1) / 65535 + 1)%N. lia.
Qed.

Lemma build_echo_packet smac dmac sip dip ty ident seq pl :
  echo_args_ok smac dmac sip dip ident seq pl → byte ty →
  ∃ f, build_echo smac dmac sip dip ty ident seq pl = Ok f ∧
    echo_packet ty dmac smac sip dip ident seq pl f ∧ echo_frame ty f dmac smac sip dip ident seq pl.
Proof.
  intros H Hty. destruct (build_echo_run _ _ _ _ ty _ _ _ H Hty) as (c1 & c2 & [Hc1 Hc2] & -> & Hv1 & Hv2).
  eexists. split; [done|]. split; [|by apply built_echo_frame].
  set (t := truncate U16 (20 + (8 + len pl))). assert (t < U16)%N as Ht by by apply N.mod_lt.
  exists (t / 256)%N, (t mod 256)%N, (c1 / 256)%N, (c1 mod 256)%N, (c2 / 256)%N, (c2 mod 256)%N.
  split_and!; [|rewrite <- N.div_mod by done|by apply checksum_zero_sums..|].
  - unfold ethernet, ip_header. by rewrite <- !app_assoc.
  - unfold t, truncate. f_equal. lia.
  - pose proof (to_be_bytes_byte _ Ht). pose proof (to_be_bytes_byte _ Hc1). pose proof (to_be_bytes_byte _ Hc2).
    by apply (Forall_app_2 _ (to_be_bytes t) (to_be_bytes c1 ++ to_be_bytes c2)); [|apply Forall_app_2].
Qed.

(** C37 A ping makes its round: the request that is built is the ICMP echo request with
    the given addresses, identifier, sequence number and payload; the peer's parser
    reads them from it; the reply that is built from what was read is the echo reply with
    the hardware and the IP addresses swapped; and the sender's parser finds in it its
    own identifier, sequence number and payload and the address that it pinged.  In both
    frames every header field is as the protocols say - EtherType, version, total length
    (cut off to 16 bits), protocol, type - and the IP header and the ICMP section each
    sum to all ones (RFC 1071, stated without the program's checksum), so that a
    receiver that verifies the checksums takes them.  The payload may have up to
    131,000 bytes. *)
Theorem ping_round_trip smac dmac sip dip ident seq pl :
  echo_args_ok smac dmac sip dip ident seq pl →
  ∃ f g,
    let req := mkEchoRequest smac dmac sip dip ident seq pl in
    build_echo_request smac dmac sip dip ident seq pl = Ok f ∧
    echo_packet 8 dmac smac sip dip ident seq pl f ∧
    parse_echo_request f = Ok req ∧
    build_echo_reply req = Ok g ∧
    echo_packet 0 smac dmac dip sip ident seq pl g ∧
    parse_echo_reply g = Ok (mkEchoReply dip ident seq pl).
Proof.
  intros H. assert (echo_args_ok dmac smac dip sip ident seq pl) as H' by (by destruct H).
  destruct (build_echo_packet _ _ _ _ ICMP_ECHO_REQUEST _ _ _ H) as (f & Hf & Hpf & Hrf); [done|].
  destruct (build_echo_packet _ _ _ _ ICMP_ECHO_REPLY _ _ _ H') as (g & Hg & Hpg & Hrg); [done|].
  exists f, g. split_and!; try done.
  - by apply (parse_echo_request_reads _ dmac smac sip dip), echo_frame_reads.
  - by apply (parse_echo_reply_reads _ smac dmac dip sip), echo_frame_reads.
Qed.

(** ** ARP *)

(** The ARP packets for Ethernet and IPv4 with operation [op]; padding may follow. *)
Definition arp_frame (op : N) (frame eth_dst eth_src sha spa tha tpa pad : list N) : Prop :=
  frame = ethernet eth_dst eth_src ETHERTYPE_ARP ++
    (to_be_bytes ARP_HTYPE_ETHERNET ++ to_be_bytes ETHERTYPE_IPV4 ++ [6; 4]%N ++ to_be_bytes op ++
     sha ++ spa ++ tha ++ tpa) ++ pad ∧
  length eth_dst = 6 ∧ length eth_src = 6 ∧ length sha = 6 ∧ length spa = 4 ∧
  length tha = 6 ∧ length tpa = 4.

Lemma split_at {A} n (l : list A) : n ≤ length l → ∃ a b, l = a ++ b ∧ length a = n ∧ length b = length l - n.
Proof.
  intros. exists (take n l), (drop n l). rewrite take_drop, length_take, length_drop. split_and!; lia || done.
Qed.

Lemma arp_split (frame : list N) :
  42 ≤ length frame →
  ∃ d s t0 t1 h0 h1 p0 p1 hl pl o0 o1 sha spa tha tpa pad,
    frame = (d ++ s) ++ [t0; t1] ++ [h0; h1; p0; p1; hl; pl; o0; o1] ++ sha ++ spa ++ tha ++ tpa ++ pad ∧
    length d = 6 ∧ length s = 6 ∧ length sha = 6 ∧ length spa = 4 ∧ length tha = 6 ∧ length tpa = 4.
Proof.
  intros Hl.
  destruct (split_at 6 frame) as (d & f1 & -> & Hd & H1); [lia|].
  destruct (split_at 6 f1) as (s & f2 & -> & Hs & H2); [lia|].
  destruct f2 as [|t0 [|t1 [|h0 [|h1 [|p0 [|p1 [|hl [|pl [|o0 [|o1 f3]]]]]]]]]]; simpl in *; try lia.
  destruct (split_at 6 f3) as (sha & f4 & -> & Hsha & H4); [lia|].
  destruct (split_at 4 f4) as (spa & f5 & -> & Hspa & H5); [lia|].
  destruct (split_at 6 f5) as (tha & f6 & -> & Htha & H6); [lia|].
  destruct (split_at 4 f6) as (tpa & pad & -> & Htpa & H7); [lia|].
  exists d, s, t0, t1, h0, h1, p0, p1, hl, pl, o0, o1, sha, spa, tha, tpa, pad.
  split_and!; try done. by rewrite <- app_assoc.
Qed.

(** One test of a field of the parser. *)
Ltac test_field :=
  match goal with |- context [guard (?a =? ?b)%N] =>
    destruct (N.eqb_spec a b); cbn [guard mbind outcome_bind mret outcome_ret];
    [|by rewrite decide_False by tauto]
  end.

(** The parser on a frame split in its fields. *)
Lemma parse_arp_eq d s t0 t1 h0 h1 p0 p1 hl pl o0 o1 sha spa rest want :
  length d = 6 → length s = 6 → length sha = 6 → length spa = 4 → 10 ≤ length rest →
  parse_arp_reply ((d ++ s) ++ [t0; t1] ++ [h0; h1; p0; p1; hl; pl; o0; o1] ++ sha ++ spa ++ rest) want =
    if decide (from_be_bytes t0 t1 = ETHERTYPE_ARP ∧ from_be_bytes h0 h1 = ARP_HTYPE_ETHERNET ∧
               from_be_bytes p0 p1 = ETHERTYPE_IPV4 ∧ hl = 6%N ∧ pl = 4%N ∧
               from_be_bytes o0 o1 = ARP_OP_REPLY ∧ spa = want)
    then Ok sha else Err tt.
Proof.
  intros Hd Hs Hsha Hspa Hr.
  assert (len (d ++ s) = 12%N) as H12 by (unfold len; rewrite length_app, Hd, Hs; done).
  unfold parse_arp_reply. rewrite (proj2 (N.leb_le _ _)); cycle 1.
  { unfold len in *. rewrite !length_app in *. simpl. lia. }
  cbn [guard mbind outcome_bind mret outcome_ret].
  rewrite (be16_app (d ++ s) t0 t1) by done. cbn [mbind outcome_bind].
  set (arp := [h0; h1; p0; p1; hl; pl; o0; o1] ++ sha ++ spa ++ rest).
  assert (slice ((d ++ s) ++ [t0; t1] ++ arp) 14 (len ((d ++ s) ++ [t0; t1] ++ arp)) = Ok arp) as ->.
  { unfold slice. rewrite (app_assoc (d ++ s)). 
    by rewrite sub_suffix by (unfold len; rewrite ?length_app; simpl; lia). }
  cbn [mbind outcome_bind]. assert (be16 arp 0 = Ok (from_be_bytes h0 h1)) as ->
    by (apply (be16_app [] h0 h1 ([p0; p1; hl; pl; o0; o1] ++ sha ++ spa ++ rest)); done).
  cbn [mbind outcome_bind]. assert (be16 arp 2 = Ok (from_be_bytes p0 p1)) as ->
    by (apply (be16_app [h0; h1] p0 p1 ([hl; pl; o0; o1] ++ sha ++ spa ++ rest)); done).
  cbn [mbind outcome_bind]. assert (byte_at arp 4 = Ok hl) as ->
    by (apply (byte_at_app [h0; h1; p0; p1] hl ([pl; o0; o1] ++ sha ++ spa ++ rest)); done).
  cbn [mbind outcome_bind]. assert (byte_at arp 5 = Ok pl) as ->
    by (apply (byte_at_app [h0; h1; p0; p1; hl] pl ([o0; o1] ++ sha ++ spa ++ rest)); done).
  cbn [mbind outcome_bind]. assert (be16 arp 6 = Ok (from_be_bytes o0 o1)) as ->
    by (apply (be16_app [h0; h1; p0; p1; hl; pl] o0 o1 (sha ++ spa ++ rest)); done).
  cbn [mbind outcome_bind]. assert (slice arp 14 18 = Ok spa) as ->.
  { unfold slice, arp. rewrite app_assoc. unfold len in *.
    rewrite sub_app; [done| |]; unfold len; rewrite length_app, Hsha; [done|]. by rewrite Hspa. }
  cbn [mbind outcome_bind]. assert (slice arp 8 14 = Ok sha) as ->.
  { unfold slice, arp. rewrite sub_app; [done|done|]. unfold len. by rewrite Hsha. }
  cbn [mbind outcome_bind].
  do 6 test_field.
  case_bool_decide; cbn [guard mbind outcome_bind mret outcome_ret].
  - by rewrite decide_True by done.
  - by rewrite decide_False by tauto.
Qed.

(** The ARP parser is total and exact: on a frame of any bytes it does not
    panic, and it returns a hardware address exactly for the Ethernet ARP replies
    for IPv4 in which the protocol address that was asked for is the sender's;
    and the request that is sent is the broadcast ARP request with the sender's own
    addresses, of 42 bytes, which the parser itself does not take for a reply. *)
Theorem arp_exact frame want smac sip tip :
  Forall (λ b, byte b) frame → length smac = 6 → length sip = 4 → length tip = 4 →
  parse_arp_reply frame want ≠ Panic ∧
  (∀ mac, parse_arp_reply frame want = Ok mac ↔
    ∃ d s tha tpa pad, arp_frame ARP_OP_REPLY frame d s mac want tha tpa pad) ∧
  arp_frame ARP_OP_REQUEST (build_arp_request smac sip tip) MAC_BROADCAST smac smac sip
    (replicate 6 0%N) tip [] ∧
  len (build_arp_request smac sip tip) = 42%N ∧
  parse_arp_reply (build_arp_request smac sip tip) want = Err tt.
Proof.
  intros Hby Hsm Hsi Hti.
  assert (parse_arp_reply frame want ≠ Panic ∧
    (∀ mac, parse_arp_reply frame want = Ok mac →
      ∃ d s tha tpa pad, arp_frame ARP_OP_REPLY frame d s mac want tha tpa pad)) as [Hnp Hin].
  { destruct (decide (42 ≤ length frame)) as [Hl|Hl]; cycle 1.
    { unfold parse_arp_reply. rewrite (proj2 (N.leb_gt _ _)) by (unfold len; lia). done. }
    destruct (arp_split frame Hl) as (d & s & t0 & t1 & h0 & h1 & p0 & p1 & hl & pl & o0 & o1 & sha &
      spa & tha & tpa & pad & -> & Hd & Hs & Hsha & Hspa & Htha & Htpa).
    rewrite parse_arp_eq; try done; [|rewrite !length_app; lia]. case_decide as Hc; [|done].
    split; [done|]. intros mac [= <-]. destruct Hc as (Ht & Hh & Hp & -> & -> & Ho & ->).
    exists d, s, tha, tpa, pad. split_and!; try done. unfold ethernet.
    apply Forall_app in Hby as [_ Hby]. apply Forall_app in Hby as [Hb2 Hby].
    apply Forall_app in Hby as [Hb8 _].
    repeat match goal with H : Forall _ (_ :: _) |- _ => apply Forall_cons in H as [? H] end.
    rewrite <- Ht, <- Hh, <- Hp, <- Ho, !be_bytes_unique by done. by rewrite <- !app_assoc. }
  assert (parse_arp_reply (build_arp_request smac sip tip) want = Err tt) as Hreq.
  { change (build_arp_request smac sip tip) with ((MAC_BROADCAST ++ smac) ++ [8; 6]%N ++
      [0; 1; 8; 0; 6; 4; 0; 1]%N ++ smac ++ sip ++ replicate 6 0%N ++ tip).
    rewrite parse_arp_eq; [|done..|rewrite length_app; simpl; lia].
    by rewrite decide_False by (intros (_ & _ & _ & _ & _ & [=] & _)). }
  split_and!; try done.
  - intros mac. split; [auto|].
    intros (d & s & tha & tpa & pad & -> & Hd & Hs & Hsha & Hspa & Htha & Htpa).
    assert (ethernet d s ETHERTYPE_ARP ++ (to_be_bytes ARP_HTYPE_ETHERNET ++
      to_be_bytes ETHERTYPE_IPV4 ++ [6; 4]%N ++ to_be_bytes ARP_OP_REPLY ++ mac ++ want ++ tha ++
      tpa) ++ pad = (d ++ s) ++ [8; 6]%N ++ [0; 1; 8; 0; 6; 4; 0; 2]%N ++ mac ++ want ++
      tha ++ tpa ++ pad) as ->.
    { unfold ethernet. rewrite <- !app_assoc. done. }
    rewrite parse_arp_eq; try done; [|rewrite !length_app; lia]. by rewrite decide_True by done.
  - unfold arp_frame, ethernet. rewrite app_nil_r. split_and!; try done. by rewrite <- !app_assoc.
  - unfold build_arp_request, len. rewrite !length_app, Hsm, Hsi, Hti. done.
Qed.

(** ** Concrete frames *)

Definition sample_mac : list N := [82; 84; 0; 18; 52; 86]%N.
Definition sample_gateway_mac : list N := [82; 85; 10; 0; 2; 2]%N.
Definition sample_ip : list N := [10; 0; 2; 15]%N.
Definition sample_gateway : list N := [10; 0; 2; 2]%N.
Definition sample_payload : list N := [112; 105; 110; 103]%N.
Definition sample_arp_reply : list N :=
  sample_mac ++ sample_gateway_mac ++ [8; 6; 0; 1; 8; 0; 6; 4; 0; 2]%N ++
  sample_gateway_mac ++ sample_gateway ++ sample_mac ++ sample_ip.

Lemma sample_echo_args :
  echo_args_ok sample_mac sample_gateway_mac sample_ip sample_gateway 4660 1 sample_payload.
Proof. constructor; try split; (done || (repeat constructor)). Qed.

Lemma checksum_correct_witness : ∃ c,
  checksum ([69; 0]%N ++ to_be_bytes 0 ++ sample_payload ++ [7]%N) = Ok c ∧
  checksum ([69; 0]%N ++ to_be_bytes c ++ sample_payload ++ [7]%N) = Ok 0%N.
Proof.
  destruct (checksum_correct [69; 0]%N (sample_payload ++ [7]%N)) as (c & ? & _ & _ & ?).
  - repeat constructor.
  - by exists 1.
  - done.
  - by exists c.
Defined.

(** The frames, byte by byte. *)
Lemma ping_round_trip_witness :
  (∃ f g,
    let req := mkEchoRequest sample_mac sample_gateway_mac sample_ip sample_gateway 4660 1 sample_payload in
    build_echo_request sample_mac sample_gateway_mac sample_ip sample_gateway 4660 1 sample_payload = Ok f ∧
    echo_packet 8 sample_gateway_mac sample_mac sample_ip sample_gateway 4660 1 sample_payload f ∧
    parse_echo_request f = Ok req ∧
    build_echo_reply req = Ok g ∧
    echo_packet 0 sample_mac sample_gateway_mac sample_gateway sample_ip 4660 1 sample_payload g ∧
    parse_echo_reply g = Ok (mkEchoReply sample_gateway 4660 1 sample_payload)) ∧
  build_echo_reply (mkEchoRequest sample_mac sample_gateway_mac sample_ip sample_gateway 4660 1 sample_payload) =
    Ok (sample_mac ++ sample_gateway_mac ++
        [8; 0; 69; 0; 0; 32; 0; 0; 64; 0; 64; 1; 34; 205; 10; 0; 2; 2; 10; 0; 2; 15;
         0; 0; 14; 250; 18; 52; 0; 1; 112; 105; 110; 103])%N.
Proof.
  split; [exact (ping_round_trip _ _ _ _ _ _ _ sample_echo_args)|by vm_compute].
Defined.

Lemma echo_parsers_exact_witness :
  parse_echo_request sample_arp_reply ≠ Panic ∧ parse_echo_request sample_arp_reply = Err tt.
Proof.
  split; [|by vm_compute].
  apply (echo_parsers_exact sample_arp_reply). repeat constructor.
Defined.

Lemma arp_exact_witness : ∃ d s tha tpa pad,
  arp_frame ARP_OP_REPLY sample_arp_reply d s sample_gateway_mac sample_gateway tha tpa pad.
Proof.
  apply (arp_exact sample_arp_reply sample_gateway sample_mac sample_ip sample_gateway);
    [repeat constructor|done..].
Defined.

(** The IP total length is not read: bytes after the packet, such as the padding
    of a short Ethernet frame, count as payload. *)
Lemma padding_is_payload :
  ∃ f pad r, pad ≠ [] ∧
    build_echo_request sample_mac sample_gateway_mac sample_ip sample_gateway 4660 1 sample_payload
      = Ok f ∧
    parse_echo_request (f ++ pad) = Ok r ∧ payload r = sample_payload ++ pad.
Proof. eexists _, (replicate 14 0%N), _. split_and!; [done|by vm_compute..]. Qed.
