(* ===== verification/PageTable.v ===== *)
(** * Page-table walks

    [map_range] of the three hardware layers ([hal-riscv64], [hal-x86_64] and
    [hal-arm64], [src/cpu.rs]): the same walk over three levels of tables, with
    different formats of the entries.  The walk is written once over a
    [PteFormat]; [Sv39], [X86Paging] and [Arm64Paging] have the three formats, as
    the sources write them, and show that each meets [FormatSpec], from which the
    theorems of this file follow.

    [Hardware] says what the memory management unit reads in a table: it is the
    documented behaviour of the machine, not code of the repository. *)

From stdpp Require Import gmap.
From S2P Require Import Prelude.

(** ** Physical memory, as 64-bit cells *)

Abbreviation Mem := (gmap N N) (only parsing).

(** A cell that was never written holds 0. *)
Definition rd (m : Mem) (a : N) : N := default 0%N (m !! a).

(** ** Formats

    [e_top] is the table the descent starts at, from [root_frame]; [None]: its
    address overflows. *)

Record PteFormat := mkFormat {
  e_top : N → option N;
  e_valid : N → bool;
  e_block : N → bool;
  e_addr : N → N;
  e_table : N → N;
  e_leaf : N → N → N;
}.

(** [(va >> 30) & 0x1FF], [(va >> 21) & 0x1FF], [(va >> 12) & 0x1FF] *)
Definition vpn (shift va : N) : N := N.land (N.shiftr va shift) 511.

(** [(table as *mut u64).add(i)] *)
Definition slot (table i : N) : N := (table + 8 * i)%N.

Definition U32_MAX : N := 4294967295.

Section map_range.
Context (F : PteFormat).

(** Reading the entry of one level, or building the next table from the pool. *)
Definition descend (s pool_base pool_len used : N) : M Mem unit (N * N) :=
  e ← gets (λ m, rd m s);
  if negb (e_valid F e) then
    if (pool_len <=? used)%N then throw tt else
    o ← unwrap (checked_mul U64 used 4096);
    t ← unwrap (checked_add U64 pool_base o);
    used ← unwrap (checked_add U64 used 1);
    _ ← modify <[s := e_table F t]>;
    mret (t, used)
  else if e_block F e then throw tt
  else mret (e_addr F e, used).

(** One round of the loop. *)
Definition map_page (root vaddr paddr perm_bits pool_base pool_len p used : N) : M Mem unit N :=
  o ← unwrap (checked_mul U64 p 4096);
  va ← unwrap (checked_add U64 vaddr o);
  pa ← unwrap (checked_add U64 paddr o);
  '(l1, used) ← descend (slot root (vpn 30 va)) pool_base pool_len used;
  '(l0, used) ← descend (slot l1 (vpn 21 va)) pool_base pool_len used;
  _ ← modify <[slot l0 (vpn 12 va) := e_leaf F perm_bits pa]>;
  mret used.

(** [for p in 0..pages]: [n] rounds are left. *)
Fixpoint map_pages (root vaddr paddr perm_bits pool_base pool_len : N) (n : nat) (p used : N)
    : M Mem unit N :=
  match n with
  | 0 => mret used
  | S n =>
      used ← map_page root vaddr paddr perm_bits pool_base pool_len p used;
      map_pages root vaddr paddr perm_bits pool_base pool_len n (p + 1) used
  end.

(** [return u32::MAX] inside the loop is [Err tt]; [used as u32]. *)
Definition or_max (m : M Mem unit N) : M Mem Empty_set N := λ s,
  match m s with
  | (Ok used, s) => (Ok (truncate U32 used), s)
  | (Err _, s) => (Ok U32_MAX, s)
  | (Panic, s) => (Panic, s)
  end.

Definition map_range (root_frame vaddr paddr length perm_bits pool_base pool_len : N)
    : M Mem Empty_set N :=
  if (root_frame =? 0)%N || (length =? 0)%N
     || negb (N.land (N.lor (N.lor vaddr paddr) length) 4095 =? 0)%N
  then mret U32_MAX
  else
    top ← unwrap (e_top F root_frame);
    or_max (map_pages top vaddr paddr perm_bits pool_base pool_len
              (N.to_nat (length / 4096)) 0 0).
End map_range.

(** ** The hardware *)

Record Rights := mkRights { r_read : bool; r_write : bool; r_user : bool; r_exec_user : bool }.

Record Hardware := mkHardware {
  hw_block : N → bool;
  hw_page : N → bool;
  hw_rights : N → Rights;
}.

Definition GIB : N := 1073741824.
Definition MIB2 : N := 2097152.
Definition PAGE : N := 4096.

(** The table at a path of indices from the root. *)
Definition step_table (F : PteFormat) (m : Mem) (t : option N) (i : N) : option N :=
  t ← t;
  let e := rd m (slot t i) in
  if e_valid F e && negb (e_block F e) then Some (e_addr F e) else None.

Definition table_at (F : PteFormat) (m : Mem) (root : N) (path : list N) : option N :=
  foldl (step_table F m) (Some root) path.

Definition entry_at (F : PteFormat) (m : Mem) (root : N) (path : list N) (i : N) : option N :=
  (λ t, rd m (slot t i)) <$> table_at F m root path.

(** A leaf of [size] bytes: the physical address of [va] and the leaf. *)
Definition leaf_at (F : PteFormat) (ok : N → bool) (size va : N) (e : N) : option (N * N) :=
  if ok e && (e_addr F e mod size =? 0)%N then Some ((e_addr F e + va mod size)%N, e) else None.

(** The translation of a virtual address. *)
Definition walk (F : PteFormat) (H : Hardware) (m : Mem) (root va : N) : option (N * N) :=
  e2 ← entry_at F m root [] (vpn 30 va);
  if negb (e_valid F e2) then None
  else if e_block F e2 then leaf_at F (hw_block H) GIB va e2 else
  e1 ← entry_at F m root [vpn 30 va] (vpn 21 va);
  if negb (e_valid F e1) then None
  else if e_block F e1 then leaf_at F (hw_block H) MIB2 va e1 else
  e0 ← entry_at F m root [vpn 30 va; vpn 21 va] (vpn 12 va);
  if e_valid F e0 then leaf_at F (hw_page H) PAGE va e0 else None.

(** What a format and its hardware promise: entries are read back as written, for
    page-aligned addresses below [limit]. *)
Class FormatSpec (F : PteFormat) (H : Hardware) (limit : N) (perm_ok : N → Prop)
    (rights : N → Rights) : Prop := {
  fs_limit : (limit ≤ U64)%N;
  fs_zero : e_valid F 0 = false;
  fs_table t : (t mod 4096 = 0)%N → (t < limit)%N →
    e_valid F (e_table F t) = true ∧ e_block F (e_table F t) = false ∧
    e_addr F (e_table F t) = t;
  fs_leaf perm pa : (pa mod 4096 = 0)%N → (pa < limit)%N → perm_ok perm →
    e_valid F (e_leaf F perm pa) = true ∧ e_addr F (e_leaf F perm pa) = pa ∧
    hw_page H (e_leaf F perm pa) = true ∧ hw_rights H (e_leaf F perm pa) = rights perm;
}.

(** ** Indices *)

Definition idx (i : N) : Prop := (i < 512)%N.

Lemma vpn_eq shift va : vpn shift va = (va / 2 ^ shift mod 512)%N.
Proof. unfold vpn. change 511%N with (N.ones 9). by rewrite N.land_ones, N.shiftr_div_pow2. Qed.

Lemma vpn_idx shift va : idx (vpn shift va).
Proof. rewrite vpn_eq. by apply N.mod_lt. Qed.

(** The three indices determine the page, below 512 GiB. *)
Lemma vpn_page va va' :
  (va < 2 ^ 39)%N → (va' < 2 ^ 39)%N →
  vpn 30 va = vpn 30 va' → vpn 21 va = vpn 21 va' → vpn 12 va = vpn 12 va' →
  (va / 4096 = va' / 4096)%N.
Proof.
  assert (∀ x, (x < 2 ^ 39)%N → (x / 4096 = vpn 30 x * 262144 + vpn 21 x * 512 + vpn 12 x)%N) as Hd.
  { intros x Hx. rewrite !vpn_eq.
    change (2 ^ 30)%N with (4096 * 512 * 512)%N. change (2 ^ 21)%N with (4096 * 512)%N.
    change (2 ^ 12)%N with 4096%N. rewrite <- !N.Div0.div_div.
    assert (x / 4096 < 2 ^ 27)%N as Hb.
    { apply N.Div0.div_lt_upper_bound. by change (4096 * 2 ^ 27)%N with (2 ^ 39)%N. }
    revert Hb. generalize (x / 4096)%N. intros y Hy.
    pose proof (N.div_mod y 512 ltac:(done)) as H1. pose proof (N.div_mod (y / 512) 512 ltac:(done)) as H2.
    rewrite (N.mod_small (y / 512 / 512)).
    2: { apply N.Div0.div_lt_upper_bound, N.Div0.div_lt_upper_bound. exact Hy. }
    revert H1 H2. generalize (y / 512 / 512)%N (y / 512 mod 512)%N (y mod 512)%N (y / 512)%N. lia. }
  intros H1 H2 E2 E1 E0. rewrite (Hd va), (Hd va') by done. by rewrite E2, E1, E0.
Qed.

(** Slots of aligned tables. *)
Lemma slot_inj f g i j :
  (f mod 4096 = 0)%N → (g mod 4096 = 0)%N → idx i → idx j → slot f i = slot g j → f = g ∧ i = j.
Proof.
  unfold slot, idx. intros Hf Hg Hi Hj He.
  pose proof (N.div_mod f 4096 ltac:(done)) as H1. pose proof (N.div_mod g 4096 ltac:(done)) as H2.
  revert H1 H2. generalize (f / 4096)%N (g / 4096)%N. lia.
Qed.

(** ** The tree of tables *)

Definition path_ok (p : list N) : Prop := length p ≤ 2 ∧ Forall idx p.

Lemma path_ok_app p i : path_ok (p ++ [i]) ↔ length p ≤ 1 ∧ Forall idx p ∧ idx i.
Proof.
  unfold path_ok. rewrite length_app, Forall_app, Forall_singleton. simpl.
  split; intros [? ?]; split_and!; try lia; tauto.
Qed.

Section tree.
Context (F : PteFormat) (H : Hardware) (limit : N) (perm_ok : N → Prop) (rights : N → Rights).
Context {FS : FormatSpec F H limit perm_ok rights}.
Context (root : N).

Abbreviation table m p := (table_at F m root p).
Abbreviation entry m p i := (entry_at F m root p i).

(** No two paths lead to the same table; tables are aligned. *)
Record pt_wf (m : Mem) : Prop := {
  pw_inj p q f : path_ok p → path_ok q → table m p = Some f → table m q = Some f → p = q;
  pw_ok p f : path_ok p → table m p = Some f → (f mod 4096 = 0 ∧ f < limit)%N;
}.

(** A frame that can become a table. *)
Record fresh (m : Mem) (t : N) : Prop := {
  fr_aligned : (t mod 4096 = 0)%N;
  fr_limit : (t < limit)%N;
  fr_unused p : path_ok p → table m p ≠ Some t;
  fr_zero i : idx i → rd m (slot t i) = 0%N;
}.

Definition pool_fresh (m : Mem) (base u n : N) : Prop :=
  ∀ k, (u ≤ k < n)%N → fresh m (base + k * 4096).

Lemma table_snoc m p i : table m (p ++ [i]) = step_table F m (table m p) i.
Proof. unfold table_at. by rewrite foldl_app. Qed.

Lemma rd_insert m a e b : rd (<[a := e]> m) b = if decide (a = b) then e else rd m b.
Proof. unfold rd. case_decide; subst; by rewrite ?lookup_insert_eq, ?lookup_insert_ne. Qed.

(** Writing a slot of a table changes only the entry of that path and index. *)
Lemma rd_write m p q f g i j e :
  pt_wf m → path_ok p → path_ok q → table m p = Some f → table m q = Some g → idx i → idx j →
  rd (<[slot f i := e]> m) (slot g j) = if decide (p = q ∧ i = j) then e else rd m (slot g j).
Proof.
  intros Hwf Hp Hq Hf Hg Hi Hj. rewrite rd_insert.
  destruct (pw_ok m Hwf p f Hp Hf) as [? _], (pw_ok m Hwf q g Hq Hg) as [? _].
  case_decide as Hs; case_decide as Hd; try done.
  - destruct (slot_inj f g i j) as [-> ->]; try done. destruct Hd. split; [|done].
    by eapply pw_inj.
  - destruct Hd as [-> ->]. rewrite Hf in Hg. by injection Hg as ->.
Qed.

Lemma entry_table m p i : entry m p i = (λ t, rd m (slot t i)) <$> table m p.
Proof. done. Qed.

Section leaf_write.
Context (m : Mem) (p : list N) (f i e : N).
Hypothesis Hwf : pt_wf m.
Hypothesis Hp : path_ok p.
Hypothesis Hlen : length p = 2.
Hypothesis Hf : table m p = Some f.
Hypothesis Hi : idx i.

Let m' := <[slot f i := e]> m.

Lemma leaf_tables q : path_ok q → table m' q = table m q.
Proof using Hwf Hp Hlen Hf Hi.
  induction q as [|j q IH] using rev_ind; intros Hq; [done|].
  apply path_ok_app in Hq as (Hl & Hq & Hj). assert (path_ok q) as Hqo by (split; [lia|done]).
  rewrite !table_snoc, IH by done. destruct (table m q) as [g|] eqn:Hg; [|done]. simpl.
  unfold m'. rewrite (rd_write m p q f g i j e) by done. rewrite decide_False; [done|].
  intros [-> _]. lia.
Qed.

Lemma leaf_entry q j :
  path_ok q → idx j →
  entry m' q j = if decide (q = p ∧ j = i) then Some e else entry m q j.
Proof using Hwf Hp Hlen Hf Hi.
  intros Hq Hj. rewrite !entry_table, leaf_tables by done.
  destruct (table m q) as [g|] eqn:Hg; simpl.
  - unfold m'. rewrite (rd_write m p q f g i j e) by done.
    case_decide as H1; case_decide as H2; try done; [destruct H2|destruct H1]; by destruct H1 || destruct H2.
  - rewrite decide_False; [done|]. intros [-> _]. congruence.
Qed.
End leaf_write.

Section link.
Context (m : Mem) (p : list N) (f i t : N).
Hypothesis Hwf : pt_wf m.
Hypothesis Hp : path_ok p.
Hypothesis Hlen : length p ≤ 1.
Hypothesis Hf : table m p = Some f.
Hypothesis Hi : idx i.
Hypothesis Hempty : e_valid F (rd m (slot f i)) = false.
Hypothesis Ht : fresh m t.

Let m' := <[slot f i := e_table F t]> m.

Lemma link_fresh_slot j : idx j → rd m' (slot t j) = 0%N.
Proof using Hwf Hp Hf Hi Hempty Ht.
  intros Hj. unfold m'. rewrite rd_insert, decide_False; [by apply Ht|].
  intros Hs. destruct (pw_ok m Hwf p f Hp Hf) as [? _].
  destruct (slot_inj f t i j) as [-> _]; try done; [apply Ht|]. by apply (fr_unused m t Ht p).
Qed.

Lemma link_tables q :
  path_ok q → table m' q = if decide (q = p ++ [i]) then Some t else table m q.
Proof using Hwf Hp Hlen Hf Hi Hempty Ht FS.
  induction q as [|j q IH] using rev_ind; intros Hq.
  { rewrite decide_False; [done|]. by destruct p. }
  apply path_ok_app in Hq as (Hl & Hq & Hj). assert (path_ok q) as Hqo by (split; [lia|done]).
  rewrite !table_snoc, IH by done. destruct (fs_table (FormatSpec := FS) t) as (Hv & Hb & Ha); [apply Ht..|].
  case_decide as Hqp.
  - simpl. rewrite link_fresh_slot by done. rewrite (fs_zero (FormatSpec := FS)). simpl.
    rewrite decide_False.
    2: { intros Hc%(f_equal (@length N)). subst q. rewrite !length_app in Hc. simpl in Hc. lia. }
    subst q. rewrite table_snoc, Hf. simpl. by rewrite Hempty.
  - destruct (table m q) as [g|] eqn:Hg; simpl.
    + unfold m'. rewrite (rd_write m p q f g i j) by done. case_decide as Hd.
      * destruct Hd as [-> ->]. rewrite decide_True by done. by rewrite Hv, Hb, Ha.
      * rewrite decide_False; [done|]. intros [-> ->]%app_inj_tail. tauto.
    + rewrite decide_False; [done|]. intros [-> ->]%app_inj_tail. congruence.
Qed.

Lemma link_entry q j :
  path_ok q → idx j →
  entry m' q j =
    if decide (q = p ∧ j = i) then Some (e_table F t)
    else if decide (q = p ++ [i]) then Some 0%N else entry m q j.
Proof using Hwf Hp Hlen Hf Hi Hempty Ht FS.
  intros Hq Hj. rewrite !entry_table, link_tables by done.
  destruct (decide (q = p ++ [i])) as [->|Hn].
  - simpl. rewrite link_fresh_slot by done. rewrite decide_False; [done|].
    intros [Hc _]. apply (f_equal (@length N)) in Hc. rewrite length_app in Hc. simpl in Hc. lia.
  - destruct (table m q) as [g|] eqn:Hg; simpl.
    + unfold m'. rewrite (rd_write m p q f g i j) by done.
      case_decide as H1; case_decide as H2; try done; [destruct H2|destruct H1]; by destruct H1 || destruct H2.
    + rewrite decide_False; [done|]. intros [-> _]. congruence.
Qed.
End link.

(** ** Translations *)

(** A large leaf stands where a table is needed. *)
Definition blocked (m : Mem) (va : N) : Prop :=
  (∃ e, entry m [] (vpn 30 va) = Some e ∧ e_valid F e = true ∧ e_block F e = true) ∨
  (∃ e, entry m [vpn 30 va] (vpn 21 va) = Some e ∧ e_valid F e = true ∧ e_block F e = true).

Lemma paths_ok va : path_ok [vpn 30 va] ∧ path_ok [vpn 30 va; vpn 21 va].
Proof. split; (split; [simpl; lia|]); repeat constructor; apply vpn_idx. Qed.

Lemma root_ok : path_ok [].
Proof. by split; [simpl; lia|]. Qed.

(** The entry that leads to a table. *)
Lemma table_entry m p i g :
  table m (p ++ [i]) = Some g →
  ∃ e, entry m p i = Some e ∧ e_valid F e = true ∧ e_block F e = false ∧ g = e_addr F e.
Proof.
  rewrite table_snoc, entry_table. destruct (table m p) as [f|]; [|done]. simpl.
  destruct (e_valid F _) eqn:Hv, (e_block F _) eqn:Hb; try done. intros [= <-]. by eexists.
Qed.

Lemma entry_Some m p i e :
  entry m p i = Some e → e_valid F e = true → e_block F e = false →
  table m (p ++ [i]) = Some (e_addr F e).
Proof.
  rewrite table_snoc, entry_table. destruct (table m p) as [f|]; [|done]. simpl.
  intros [= ->] Hv Hb. by rewrite Hv, Hb.
Qed.

(** A leaf at the end of a path of tables translates its page, and only it. *)
Lemma walk_leaf m va f e va' :
  pt_wf m → table m [vpn 30 va; vpn 21 va] = Some f →
  walk F H (<[slot f (vpn 12 va) := e]> m) root va' =
    if decide (vpn 30 va' = vpn 30 va ∧ vpn 21 va' = vpn 21 va ∧ vpn 12 va' = vpn 12 va)
    then if e_valid F e then leaf_at F (hw_page H) PAGE va' e else None
    else walk F H m root va'.
Proof.
  intros Hwf Hf. destruct (paths_ok va) as [_ Hp2]. destruct (paths_ok va') as [Hq1 Hq2].
  assert (∀ q j, path_ok q → idx j → entry (<[slot f (vpn 12 va) := e]> m) q j =
    if decide (q = [vpn 30 va; vpn 21 va] ∧ j = vpn 12 va) then Some e else entry m q j) as He.
  { intros. apply leaf_entry; auto using vpn_idx. }
  unfold walk. rewrite !He by auto using vpn_idx, root_ok.
  rewrite (decide_False (P := [] = _ ∧ _)) by (by intros [? _]).
  rewrite (decide_False (P := [vpn 30 va'] = _ ∧ _)) by (by intros [? _]).
  case_decide as H1; case_decide as H2.
  - destruct H2 as (E2 & E1 & _). rewrite E2, E1.
    destruct (table_entry m [vpn 30 va] (vpn 21 va) f Hf) as (e1 & He1 & Hv1 & Hb1 & _).
    pose proof He1 as Ht. rewrite entry_table in Ht.
    destruct (table m [vpn 30 va]) as [g|] eqn:Hg; [|done].
    destruct (table_entry m [] (vpn 30 va) g Hg) as (e2 & He2 & Hv2 & Hb2 & _).
    rewrite He2. simpl. rewrite Hv2, Hb2. simpl. rewrite He1. simpl. by rewrite Hv1, Hb1.
  - destruct H1 as [[= E2 E1] E0]. by destruct H2.
  - destruct H2 as (E2 & E1 & E0). destruct H1. by rewrite E2, E1.
  - done.
Qed.

Lemma blocked_leaf m va f e va' :
  pt_wf m → table m [vpn 30 va; vpn 21 va] = Some f →
  blocked (<[slot f (vpn 12 va) := e]> m) va' ↔ blocked m va'.
Proof.
  intros Hwf Hf. destruct (paths_ok va) as [_ Hp2]. destruct (paths_ok va') as [Hq1 _].
  unfold blocked. rewrite !(leaf_entry m [vpn 30 va; vpn 21 va]) by auto using vpn_idx, root_ok.
  rewrite !decide_False by (by intros [? _]). done.
Qed.

Section link_walk.
Context (m : Mem) (p : list N) (f i t : N).
Hypothesis Hwf : pt_wf m.
Hypothesis Hp : path_ok p.
Hypothesis Hlen : length p ≤ 1.
Hypothesis Hf : table m p = Some f.
Hypothesis Hi : idx i.
Hypothesis Hempty : e_valid F (rd m (slot f i)) = false.
Hypothesis Ht : fresh m t.

Let m' := <[slot f i := e_table F t]> m.

Lemma walk_link va : walk F H m' root va = walk F H m root va.
Proof using Hwf Hp Hlen Hf Hi Hempty Ht FS.
  destruct (paths_ok va) as [Hq1 Hq2].
  destruct (fs_table (FormatSpec := FS) t) as (Hv & Hb & Ha); [apply Ht..|].
  unfold walk.
  assert (∀ q j, path_ok q → idx j → entry m' q j =
    if decide (q = p ∧ j = i) then Some (e_table F t)
    else if decide (q = p ++ [i]) then Some 0%N else entry m q j) as He by by apply link_entry.
  assert (∀ j, entry m p j = Some (rd m (slot f j))) as Hm by (intros; by rewrite entry_table, Hf).
  rewrite (He []) by auto using vpn_idx, root_ok.
  destruct (decide ([] = p ∧ vpn 30 va = i)) as [[Ep Ei]|H0].
  { assert (entry m [] (vpn 30 va) = Some (rd m (slot f i))) as -> by (rewrite Ep, Ei; apply Hm).
    simpl. rewrite Hv, Hb, Hempty. simpl. rewrite (He [vpn 30 va]) by auto using vpn_idx.
    rewrite decide_False by (rewrite <- Ep; by intros [? _]).
    rewrite decide_True by (by rewrite <- Ep, Ei). simpl. by rewrite (fs_zero (FormatSpec := FS)). }
  rewrite (decide_False (P := [] = p ++ [i])) by (by destruct p).
  destruct (entry m [] (vpn 30 va)) as [e2|]; [simpl|done].
  destruct (e_valid F e2); [simpl|done]. destruct (e_block F e2); [done|].
  rewrite (He [vpn 30 va]) by auto using vpn_idx.
  destruct (decide ([vpn 30 va] = p ∧ vpn 21 va = i)) as [[Ep Ei]|H1].
  { assert (entry m [vpn 30 va] (vpn 21 va) = Some (rd m (slot f i))) as -> by (rewrite Ep, Ei; apply Hm).
    simpl. rewrite Hv, Hb, Hempty. simpl.
    rewrite (He [vpn 30 va; vpn 21 va]) by auto using vpn_idx.
    rewrite decide_False by (rewrite <- Ep; by intros [? _]).
    rewrite decide_True by (by rewrite <- Ep, Ei). simpl. by rewrite (fs_zero (FormatSpec := FS)). }
  rewrite (decide_False (P := [vpn 30 va] = p ++ [i])).
  2: { intros Hc. by apply (app_inj_tail [] p) in Hc. }
  destruct (entry m [vpn 30 va] (vpn 21 va)) as [e1|]; [simpl|done].
  destruct (e_valid F e1); [simpl|done]. destruct (e_block F e1); [done|].
  rewrite (He [vpn 30 va; vpn 21 va]) by auto using vpn_idx.
  rewrite decide_False. 2: { intros [<- _]. simpl in Hlen. lia. }
  rewrite decide_False; [done|]. intros Hc. by apply (app_inj_tail [vpn 30 va] p) in Hc.
Qed.

Lemma blocked_link va : blocked m' va ↔ blocked m va.
Proof using Hwf Hp Hlen Hf Hi Hempty Ht FS.
  destruct (paths_ok va) as [Hq1 Hq2].
  destruct (fs_table (FormatSpec := FS) t) as (Hv & Hb & Ha); [apply Ht..|].
  assert (∀ q j, path_ok q → idx j →
    (∃ e, entry m' q j = Some e ∧ e_valid F e = true ∧ e_block F e = true) ↔
    (∃ e, entry m q j = Some e ∧ e_valid F e = true ∧ e_block F e = true)) as Hiff.
  { intros q j Hq Hj. unfold m'. rewrite (link_entry m p f i t) by done. case_decide as Hd.
    - destruct Hd as [-> ->]. rewrite entry_table, Hf. simpl. naive_solver congruence.
    - case_decide as Hd'; [|done]. split.
      + intros (e & [= <-] & Hve & _). by rewrite (fs_zero (FormatSpec := FS)) in Hve.
      + intros (e & He & _). subst q. exfalso. rewrite entry_table, table_snoc, Hf in He.
        simpl in He. by rewrite Hempty in He. }
  unfold blocked. by rewrite !Hiff by auto using vpn_idx, root_ok.
Qed.
End link_walk.

(** ** The operations *)

Context (base n : N).

(** [m'] extends the tables of [m] by the pool frames from [u] to [u']. *)
Record extends (m : Mem) (u : N) (m' : Mem) (u' : N) : Prop := {
  ex_wf : pt_wf m';
  ex_pool : pool_fresh m' base u' n;
  ex_le : (u ≤ u')%N ∧ ((u ≤ n)%N → (u' ≤ n)%N);
  ex_blocked va : blocked m' va ↔ blocked m va;
  ex_grow p f : path_ok p → table m p = Some f → table m' p = Some f;
  ex_new p f : path_ok p → table m' p = Some f →
    table m p = Some f ∨ ∃ k, (u ≤ k < u')%N ∧ f = (base + k * 4096)%N;
  ex_frame a : (∀ p f i, path_ok p → table m' p = Some f → idx i → a ≠ slot f i) →
    m' !! a = m !! a;
}.

Lemma extends_refl m u : pt_wf m → pool_fresh m base u n → extends m u m u.
Proof. intros. split; try done; first [lia|by left|tauto]. Qed.

Lemma extends_trans m u m1 u1 m2 u2 :
  extends m u m1 u1 → extends m1 u1 m2 u2 → extends m u m2 u2.
Proof.
  intros [? ? Hle1 Hb1 Hg1 Hn1 Hf1] [? ? Hle2 Hb2 Hg2 Hn2 Hf2]. split; auto.
  - lia.
  - intros va. by rewrite Hb2.
  - intros p f Hp Ht2. destruct (Hn2 p f Hp Ht2) as [Ht|(k & Hk & ->)]; [|right; exists k; split; [lia|done]].
    destruct (Hn1 p f Hp Ht) as [?|(k & Hk & ->)]; [by left|]. right. exists k. split; [lia|done].
  - intros a Ha. rewrite Hf2 by done. apply Hf1. intros p f i Hp Hf Hi. eapply Ha; eauto.
Qed.

(** Linking the next frame of the pool. *)
Lemma extends_link m p f i u :
  pt_wf m → path_ok p → length p ≤ 1 → table m p = Some f → idx i →
  e_valid F (rd m (slot f i)) = false → pool_fresh m base u n → (u < n)%N →
  extends m u (<[slot f i := e_table F (base + u * 4096)]> m) (u + 1).
Proof.
  intros Hwf Hp Hlen Hf Hi He Hpool Hu. set (t := (base + u * 4096)%N).
  assert (fresh m t) as Ht by (apply Hpool; lia).
  set (m' := <[slot f i := e_table F t]> m).
  assert (∀ q, path_ok q → table m' q = if decide (q = p ++ [i]) then Some t else table m q) as Htab
    by (intros; by apply link_tables).
  destruct (pw_ok m Hwf p f Hp Hf) as [Hfa _]. split.
  - split.
    + intros q q' g Hq Hq'. rewrite !Htab by done.
      repeat case_decide; subst; try done; [| |by apply (pw_inj m Hwf)].
      * intros [= <-] Hg. by apply (fr_unused m t Ht) in Hg.
      * intros Hg [= <-]. by apply (fr_unused m t Ht) in Hg.
    + intros q g Hq. rewrite Htab by done. case_decide; [intros [= <-]; split; apply Ht|].
      by apply (pw_ok m Hwf).
  - intros k Hk. assert (fresh m (base + k * 4096)) as Hk' by (apply Hpool; lia).
    split; [apply Hk'..| |].
    + intros q Hq. rewrite Htab by done. case_decide; [|by apply Hk']. unfold t. intros [=]. lia.
    + intros j Hj. unfold m'. rewrite rd_insert, decide_False; [by apply Hk'|]. intros Hs.
      destruct (slot_inj f (base + k * 4096) i j) as [-> _]; try done; [apply Hk'|].
      by apply (fr_unused m _ Hk' p).
  - lia.
  - intros va. by apply blocked_link with p.
  - intros q g Hq Hg. rewrite Htab by done. rewrite decide_False; [done|]. intros ->.
    rewrite table_snoc, Hf in Hg. simpl in Hg. by rewrite He in Hg.
  - intros q g Hq. rewrite Htab by done. case_decide; [|by left]. intros [= <-]. right.
    exists u. split; [lia|done].
  - intros a Ha. unfold m'. rewrite lookup_insert_ne; [done|]. intros <-.
    apply (Ha p f i); try done. rewrite Htab by done. rewrite decide_False; [done|].
    intros Hc. apply (f_equal (@length N)) in Hc. rewrite length_app in Hc. simpl in Hc. lia.
Qed.

(** Writing the leaf. *)
Lemma extends_leaf m va f e u :
  pt_wf m → pool_fresh m base u n → table m [vpn 30 va; vpn 21 va] = Some f →
  extends m u (<[slot f (vpn 12 va) := e]> m) u.
Proof.
  intros Hwf Hpool Hf. destruct (paths_ok va) as [_ Hp].
  assert (∀ q, path_ok q → table (<[slot f (vpn 12 va) := e]> m) q = table m q) as Htab.
  { intros q Hq. apply (leaf_tables m [vpn 30 va; vpn 21 va]); auto using vpn_idx. }
  destruct (pw_ok m Hwf _ f Hp Hf) as [Hfa _]. split.
  - split.
    + intros q q' g Hq Hq'. rewrite !Htab by done. by apply (pw_inj m Hwf).
    + intros q g Hq. rewrite Htab by done. by apply (pw_ok m Hwf).
  - intros k Hk. specialize (Hpool k Hk). destruct Hpool as [Ha Hl Hun Hz]. split; try done.
    + intros q Hq. rewrite Htab by done. auto.
    + intros j Hj. rewrite rd_insert, decide_False; [auto|]. intros Hs.
      destruct (slot_inj f (base + k * 4096) (vpn 12 va) j) as [-> _]; auto using vpn_idx.
      by eapply Hun.
  - lia.
  - intros va'. by apply blocked_leaf.
  - intros q g Hq. by rewrite Htab.
  - intros q g Hq. rewrite Htab by done. by left.
  - intros a Ha. rewrite lookup_insert_ne; [done|]. intros <-.
    eapply Ha; [exact Hp|by rewrite Htab|apply vpn_idx|done].
Qed.

Definition large_leaf (m : Mem) (p : list N) (i : N) : Prop :=
  ∃ e, entry m p i = Some e ∧ e_valid F e = true ∧ e_block F e = true.

Lemma descend_spec m p f i u :
  pt_wf m → path_ok p → length p ≤ 1 → table m p = Some f → idx i → pool_fresh m base u n →
  match descend F (slot f i) base n u m with
  | (Ok (t, u'), m') => extends m u m' u' ∧ (u' ≤ u + 1)%N ∧
      (∀ va, walk F H m' root va = walk F H m root va) ∧ table m' (p ++ [i]) = Some t
  | (Err _, m') => m' = m ∧ (large_leaf m p i ∨ (n ≤ u)%N)
  | (Panic, _) => False
  end.
Proof.
  intros Hwf Hp Hlen Hf Hi Hpool. unfold descend. run.
  assert (entry m p i = Some (rd m (slot f i))) as Hent by by rewrite entry_table, Hf.
  destruct (e_valid F (rd m (slot f i))) eqn:Hv; simpl.
  - destruct (e_block F (rd m (slot f i))) eqn:Hb; simpl.
    + split; [done|]. left. by eexists.
    + split_and!; [by apply extends_refl|lia|done|]. by apply entry_Some.
  - destruct (N.leb_spec n u) as [Hn|Hu]; [by split; [|right]|].
    assert (fresh m (base + u * 4096)) as Ht by (apply Hpool; lia).
    pose proof (fr_limit m _ Ht) as Hlim. pose proof (fs_limit (FormatSpec := FS)) as HU.
    unfold checked_mul. rewrite (proj2 (N.ltb_lt _ _)) by lia. run.
    rewrite checked_add_lt by lia. run. rewrite checked_add_lt by lia. run.
    split_and!; [by apply extends_link with p|lia| |].
    + intros va. by apply walk_link with p.
    + rewrite (link_tables m p) by (try done; apply path_ok_app; by destruct Hp). by rewrite decide_True.
Qed.

Definition same_page (va va' : N) : Prop :=
  vpn 30 va' = vpn 30 va ∧ vpn 21 va' = vpn 21 va ∧ vpn 12 va' = vpn 12 va.

#[export] Instance same_page_dec va va' : Decision (same_page va va').
Proof. unfold same_page. apply _. Defined.

Lemma map_page_spec m vaddr paddr perm p u :
  pt_wf m → pool_fresh m base u n → perm_ok perm →
  let va := (vaddr + p * 4096)%N in let pa := (paddr + p * 4096)%N in
  (va < U64)%N → (pa mod 4096 = 0)%N → (pa < limit)%N →
  match map_page F root vaddr paddr perm base n p u m with
  | (Ok u', m') => extends m u m' u' ∧ (u' ≤ u + 2)%N ∧
      ∀ va', walk F H m' root va' =
        if decide (same_page va va') then Some ((pa + va' mod 4096)%N, e_leaf F perm pa)
        else walk F H m root va'
  | (Err _, m') => ∃ u', extends m u m' u' ∧ (blocked m va ∨ (n ≤ u + 1)%N) ∧
      ∀ va', walk F H m' root va' = walk F H m root va'
  | (Panic, _) => False
  end.
Proof.
  intros Hwf Hpool Hperm va pa Hva Hpa Hlim. pose proof (fs_limit (FormatSpec := FS)) as HU.
  destruct (paths_ok va) as [Hp1 Hp2]. unfold map_page.
  assert (checked_mul U64 p 4096 = Some (p * 4096)%N) as ->.
  { unfold checked_mul. by rewrite (proj2 (N.ltb_lt _ _)) by lia. }
  run. rewrite checked_add_lt by (fold va; lia). run. rewrite checked_add_lt by (fold pa; lia). run.
  fold va pa.
  pose proof (descend_spec m [] root (vpn 30 va) u Hwf root_ok ltac:(simpl; lia) eq_refl
    (vpn_idx _ _) Hpool) as H1.
  destruct (descend F (slot root (vpn 30 va)) base n u m) as [[[l1 u1]|e|] m1] eqn:E1; [|run|done].
  2: { destruct H1 as [-> Hc]. exists u. split_and!; [by apply extends_refl| |done].
       destruct Hc as [Hc|Hc]; [left; by left|right; lia]. }
  destruct H1 as (Hx1 & Hu1 & Hw1 & Ht1). run. simpl in Ht1.
  pose proof (descend_spec m1 [vpn 30 va] l1 (vpn 21 va) u1 (ex_wf _ _ _ _ Hx1) Hp1 ltac:(simpl; lia)
    Ht1 (vpn_idx _ _) (ex_pool _ _ _ _ Hx1)) as H2.
  destruct (descend F (slot l1 (vpn 21 va)) base n u1 m1) as [[[l0 u2]|e|] m2] eqn:E2; [|run|done].
  2: { destruct H2 as [-> Hc]. exists u1. split_and!; [done| |done].
       destruct Hc as [Hc|Hc]; [left; apply (ex_blocked _ _ _ _ Hx1); by right|right; lia]. }
  destruct H2 as (Hx2 & Hu2 & Hw2 & Ht2). run. simpl in Ht2.
  pose proof (ex_wf _ _ _ _ Hx2) as Hwf2. split_and!.
  - eapply extends_trans; [exact Hx1|]. eapply extends_trans; [exact Hx2|].
    apply extends_leaf; [done|by apply Hx2|done].
  - lia.
  - intros va'. rewrite (walk_leaf m2 va l0) by done. rewrite Hw2, Hw1.
    destruct (fs_leaf (FormatSpec := FS) perm pa Hpa Hlim Hperm) as (Hv & Ha & Hpg & _).
    case_decide as Hd; case_decide as Hd'; try done.
    rewrite Hv. unfold leaf_at, PAGE. rewrite Hpg, Ha, Hpa. done.
Qed.

(** The pages of a range, below 512 GiB. *)
Lemma same_page_range vaddr p va' :
  (vaddr mod 4096 = 0)%N → (vaddr + p * 4096 < 2 ^ 39)%N → (va' < 2 ^ 39)%N →
  same_page (vaddr + p * 4096) va' ↔
    (vaddr + p * 4096 ≤ va' < vaddr + p * 4096 + 4096)%N.
Proof.
  intros Ha Hva Hva'. set (va := (vaddr + p * 4096)%N) in *.
  assert (va' / 4096 = va / 4096 ↔ va ≤ va' < va + 4096)%N as Hr.
  { pose proof (N.div_mod va' 4096 ltac:(done)) as H1. pose proof (N.mod_lt va' 4096 ltac:(done)) as H2.
    pose proof (N.div_mod va 4096 ltac:(done)) as H3.
    assert (va mod 4096 = 0)%N as H4 by (unfold va; by rewrite N.Div0.mod_add).
    revert H1 H2 H3 H4. generalize (va' / 4096)%N (va' mod 4096)%N (va / 4096)%N (va mod 4096)%N.
    clear. intros. lia. }
  rewrite <- Hr. unfold same_page. split.
  - intros (E2 & E1 & E0). by apply vpn_page.
  - intros He. rewrite !vpn_eq.
    change (2 ^ 30)%N with (4096 * 262144)%N. change (2 ^ 21)%N with (4096 * 512)%N.
    change (2 ^ 12)%N with 4096%N. by rewrite <- !N.Div0.div_div, He.
Qed.

Lemma page_offset vaddr p va' :
  (vaddr mod 4096 = 0)%N → (vaddr + p * 4096 ≤ va' < vaddr + p * 4096 + 4096)%N →
  ((va' - vaddr) / 4096 = p ∧ va' - vaddr = p * 4096 + va' mod 4096)%N.
Proof.
  intros Ha Hr. pose proof (N.div_mod vaddr 4096 ltac:(done)) as H1. rewrite Ha in H1.
  assert (va' = va' mod 4096 + (vaddr / 4096 + p) * 4096)%N as Hv.
  { pose proof (N.div_mod va' 4096 ltac:(done)) as H2. pose proof (N.mod_lt va' 4096 ltac:(done)) as H3.
    revert H1 H2 H3 Hr. generalize (va' / 4096)%N (va' mod 4096)%N (vaddr / 4096)%N. clear. intros. lia. }
  assert (va' - vaddr = va' mod 4096 + p * 4096)%N as Hd.
  { revert Hv H1. generalize (va' mod 4096)%N (vaddr / 4096)%N. clear. intros. lia. }
  rewrite Hd, N.div_add, N.div_small by (done || by apply N.mod_lt). lia.
Qed.

(** Where a range maps an address, and with which leaf. *)
Definition mapped (vaddr paddr perm va : N) : N * N :=
  ((paddr + (va - vaddr))%N, e_leaf F perm (paddr + (va - vaddr) / 4096 * 4096)).

Lemma map_pages_spec vaddr paddr perm k p u m :
  pt_wf m → pool_fresh m base u n → perm_ok perm →
  (vaddr mod 4096 = 0)%N → (paddr mod 4096 = 0)%N →
  (vaddr + (p + N.of_nat k) * 4096 ≤ 2 ^ 39)%N → (paddr + (p + N.of_nat k) * 4096 ≤ limit)%N →
  let inside va := (vaddr + p * 4096 ≤ va < vaddr + (p + N.of_nat k) * 4096)%N in
  match map_pages F root vaddr paddr perm base n k p u m with
  | (Ok u', m') => extends m u m' u' ∧ (u' ≤ u + 2 * N.of_nat k)%N ∧
      ∀ va, (va < 2 ^ 39)%N → walk F H m' root va =
        if decide (inside va) then Some (mapped vaddr paddr perm va) else walk F H m root va
  | (Err _, m') => ∃ u', extends m u m' u' ∧
      ((∃ va, inside va ∧ blocked m va) ∨ (n < u + 2 * N.of_nat k)%N) ∧
      ∀ va, (va < 2 ^ 39)%N → ¬ inside va → walk F H m' root va = walk F H m root va
  | (Panic, _) => False
  end.
Proof.
  intros Hwf Hpool Hperm Hva Hpa. revert p u m Hwf Hpool.
  induction k as [|k IH]; intros p u m Hwf Hpool Hv Hl inside; simpl.
  { split_and!; [by apply extends_refl|lia|]. intros va _. rewrite decide_False; [done|].
    unfold inside. lia. }
  run. assert (2 ^ 39 < U64)%N as H39 by done.
  pose proof (map_page_spec m vaddr paddr perm p u Hwf Hpool Hperm) as Hpage. cbn zeta in Hpage.
  specialize (Hpage ltac:(lia) ltac:(by rewrite N.Div0.mod_add) ltac:(lia)).
  assert (∀ va, inside va ↔ (vaddr + p * 4096 ≤ va < vaddr + p * 4096 + 4096)%N ∨
    (vaddr + (p + 1) * 4096 ≤ va < vaddr + (p + 1 + N.of_nat k) * 4096)%N) as Hin
    by (unfold inside; lia).
  destruct (map_page F root vaddr paddr perm base n p u m) as [[u1|e|] m1]; [run|run|done].
  2: { destruct Hpage as (u1 & Hx & Hc & Hw). exists u1. split_and!; [done| |by intros; apply Hw].
       destruct Hc as [Hb|Hc]; [left; exists (vaddr + p * 4096)%N; split; [apply Hin; left; lia|done]|right; lia]. }
  destruct Hpage as (Hx & Hu & Hw).
  specialize (IH (p + 1)%N u1 m1 (ex_wf _ _ _ _ Hx) (ex_pool _ _ _ _ Hx) ltac:(lia) ltac:(lia)).
  cbn zeta in IH.
  destruct (map_pages F root vaddr paddr perm base n k (p + 1) u1 m1) as [[u2|e|] m2]; [| |done].
  - destruct IH as (Hx2 & Hu2 & Hw2). split_and!; [by eapply extends_trans|lia|].
    intros va Hva39. rewrite Hw2, Hw by done.
    assert (same_page (vaddr + p * 4096) va ↔ (vaddr + p * 4096 ≤ va < vaddr + p * 4096 + 4096)%N) as Hs
      by (apply same_page_range; lia || done).
    destruct (decide (vaddr + (p + 1) * 4096 ≤ va < _)%N) as [Hr|Hr].
    { rewrite decide_True; [done|]. apply Hin. by right. }
    case_decide as Hd.
    + rewrite decide_True by (apply Hin; left; by apply Hs). apply Hs in Hd.
      destruct (page_offset vaddr p va Hva Hd) as [E1 E2]. unfold mapped. rewrite E1, E2.
      do 2 f_equal. lia.
    + rewrite decide_False; [done|]. rewrite Hin. intros [?|?]; [|done]. by apply Hd, Hs.
  - destruct IH as (u2 & Hx2 & Hc & Hw2). exists u2. split_and!; [by eapply extends_trans| |].
    + destruct Hc as [(va & Hr & Hb)|Hc]; [left|right; lia]. exists va. split; [apply Hin; by right|].
      by apply (ex_blocked _ _ _ _ Hx).
    + intros va Hva39 Hn. rewrite Hin in Hn. rewrite Hw2, Hw by tauto.
      rewrite decide_False; [done|]. rewrite same_page_range by (lia || done). tauto.
Qed.

(** [root] is the table at which the descent from [root_frame] starts. *)
Context (root_frame : N).
Hypothesis Htop : e_top F root_frame = Some root.

Definition bad_args (vaddr paddr length : N) : Prop :=
  root_frame = 0%N ∨ length = 0%N ∨
  (vaddr mod 4096 ≠ 0 ∨ paddr mod 4096 ≠ 0 ∨ length mod 4096 ≠ 0)%N.

Lemma aligned_test vaddr paddr length :
  N.land (N.lor (N.lor vaddr paddr) length) 4095 = 0%N ↔
    (vaddr mod 4096 = 0 ∧ paddr mod 4096 = 0 ∧ length mod 4096 = 0)%N.
Proof.
  rewrite !N.land_lor_distr_l, !N.lor_eq_0_iff. change 4095%N with (N.ones 12).
  rewrite !N.land_ones. change (2 ^ 12)%N with 4096%N. tauto.
Qed.

(** What [map_range] does, from tables that form a tree and a pool of zeroed
    frames outside of it. *)
Definition map_post (m : Mem) (vaddr paddr length perm r : N) (m' : Mem) : Prop :=
  let inside va := (vaddr ≤ va < vaddr + length)%N in
  ∃ u, extends m 0 m' u ∧ (u ≤ n)%N ∧
    (r = U32_MAX ∧
     (bad_args vaddr paddr length ∨ (∃ va, inside va ∧ blocked m va) ∨ (n < 2 * (length / 4096))%N) ∧
     (∀ va, (va < 2 ^ 39)%N → ¬ inside va → walk F H m' root va = walk F H m root va) ∨
     r = u ∧ ¬ bad_args vaddr paddr length ∧
     ∀ va, (va < 2 ^ 39)%N → walk F H m' root va =
       if decide (inside va) then Some (mapped vaddr paddr perm va) else walk F H m root va).

Lemma map_range_spec m vaddr paddr length perm :
  pt_wf m → pool_fresh m base 0 n → perm_ok perm →
  (vaddr + length ≤ 2 ^ 39)%N → (paddr + length ≤ limit)%N → (n < U32_MAX)%N →
  match map_range F root_frame vaddr paddr length perm base n m with
  | (Ok r, m') => map_post m vaddr paddr length perm r m'
  | _ => False
  end.
Proof.
  intros Hwf Hpool Hperm Hv Hp Hn. unfold map_range.
  destruct ((root_frame =? 0)%N || (length =? 0)%N || _) eqn:Hbad.
  { exists 0%N. split_and!; [by apply extends_refl|lia|]. left. split_and!; [done| |done]. left.
    rewrite !orb_true_iff, !N.eqb_eq, negb_true_iff, N.eqb_neq, aligned_test in Hbad.
    unfold bad_args. destruct Hbad as [[?|?]|Hb]; [by left|by right; left|right; right].
    destruct (decide (vaddr mod 4096 = 0)%N), (decide (paddr mod 4096 = 0)%N); tauto. }
  rewrite !orb_false_iff, !N.eqb_neq, negb_false_iff, N.eqb_eq, aligned_test in Hbad.
  destruct Hbad as [[Hr0 Hl0] (Ha & Hb & Hc)]. rewrite Htop. run. unfold or_max.
  assert (length = length / 4096 * 4096)%N as Hlen.
  { pose proof (N.div_mod length 4096 ltac:(done)) as Hd. rewrite Hc in Hd.
    revert Hd. generalize (length / 4096)%N. clear. lia. }
  set (k := N.to_nat (length / 4096)).
  assert (N.of_nat k = length / 4096)%N as Hk by (unfold k; lia).
  pose proof (map_pages_spec vaddr paddr perm k 0 0 m Hwf Hpool Hperm Ha Hb) as Hm.
  rewrite Hk in Hm. cbn zeta in Hm. rewrite !N.add_0_l, N.mul_0_l, N.add_0_r in Hm.
  rewrite <- Hlen in Hm. specialize (Hm Hv Hp).
  destruct (map_pages F root vaddr paddr perm base n k 0 0 m) as [[u|e|] m']; [| |done].
  - destruct Hm as (Hx & _ & Hw). destruct (ex_le _ _ _ _ Hx) as [_ Hle].
    exists u. split_and!; [done|lia|]. right. split_and!; [|unfold bad_args; tauto|done].
    unfold truncate. apply N.mod_small. unfold U32_MAX in Hn. lia.
  - destruct Hm as (u & Hx & Hcause & Hw). destruct (ex_le _ _ _ _ Hx) as [_ Hle].
    exists u. split_and!; [done|lia|]. left. split_and!; [done| |done]. right.
    destruct Hcause as [?|?]; [by left|right; lia].
Qed.
End tree.

(** Mapping a range: on page tables that form a tree, with a pool of zeroed
    frames outside of it, [map_range] does not panic and the tables stay a tree
    that grows by frames of the pool only; no other memory is written.  When it
    returns a number, that is the number of pool frames used, every address of
    the range translates to the requested physical address with a leaf of the
    requested rights, and every other address translates as before.  It fails
    only for bad arguments, a large leaf in the way, or a pool of fewer than two
    frames a page, and then addresses outside the range translate as before. *)
Theorem map_range_correct F H limit perm_ok rights {FS : FormatSpec F H limit perm_ok rights}
    root_frame root base n m vaddr paddr length perm :
  e_top F root_frame = Some root → pt_wf F limit root m → pool_fresh F limit root m base 0 n → perm_ok perm →
  (vaddr + length ≤ 2 ^ 39)%N → (paddr + length ≤ limit)%N → (n < U32_MAX)%N →
  match map_range F root_frame vaddr paddr length perm base n m with
  | (Ok r, m') =>
      map_post F H limit root base n root_frame m vaddr paddr length perm r m' ∧
      ∀ va, (vaddr ≤ va < vaddr + length)%N → r ≠ U32_MAX →
        hw_rights H (mapped F vaddr paddr perm va).2 = rights perm
  | _ => False
  end.
Proof.
  intros Htop Hwf Hpool Hperm Hv Hp Hn.
  pose proof (map_range_spec F H limit perm_ok rights root base n root_frame Htop m vaddr paddr
    length perm Hwf Hpool Hperm Hv Hp Hn) as Hm.
  destruct (map_range F root_frame vaddr paddr length perm base n m) as [[r|e|] m']; [|done..].
  split; [done|]. intros va Hva Hr. destruct Hm as (u & _ & _ & [(? & _)|(_ & Hok & _)]); [done|].
  apply (fs_leaf (FormatSpec := FS)); [| |done].
  - assert (paddr mod 4096 = 0)%N as Hpa.
    { destruct (decide (paddr mod 4096 = 0)%N); [done|]. destruct Hok. right. right. tauto. }
    by rewrite N.Div0.mod_add.
  - pose proof (N.Div0.mul_div_le (va - vaddr) 4096) as Hle. revert Hle.
    generalize ((va - vaddr) / 4096)%N. intros. lia.
Qed.

(** Addresses that differ by 512 GiB have the same indices: the walk, and so
    [map_range], does not distinguish them. *)
Lemma vpn_wrap shift va : (shift ≤ 30)%N → vpn shift (va + 2 ^ 39) = vpn shift va.
Proof.
  intros Hs. rewrite !vpn_eq. replace (2 ^ 39)%N with (2 ^ (30 - shift) * 512 * 2 ^ shift)%N.
  2: { change 512%N with (2 ^ 9)%N. rewrite <- !N.pow_add_r. f_equal. lia. }
  rewrite N.div_add by (apply N.pow_nonzero; done). by rewrite N.Div0.mod_add.
Qed.

Lemma map_range_aliases F root vaddr paddr length perm base n m :
  (vaddr + 2 ^ 39 + length ≤ U64)%N → (vaddr mod 4096 = 0)%N →
  map_range F root (vaddr + 2 ^ 39) paddr length perm base n m =
  map_range F root vaddr paddr length perm base n m.
Proof.
  intros Hv Ha. unfold map_range.
  assert ((N.land (N.lor (N.lor (vaddr + 2 ^ 39) paddr) length) 4095 =? 0)%N =
          (N.land (N.lor (N.lor vaddr paddr) length) 4095 =? 0)%N) as ->.
  { apply eq_bool_prop_intro. rewrite !Is_true_true, !N.eqb_eq, !aligned_test.
    change (2 ^ 39)%N with (134217728 * 4096)%N. by rewrite N.Div0.mod_add. }
  destruct (_ || _); [done|]. rewrite !run_bind. destruct (unwrap (e_top F root) m) as [[top|e|] m1]; try done.
  assert (N.of_nat (N.to_nat (length / 4096)) * 4096 ≤ length)%N as Hk.
  { rewrite N2Nat.id, N.mul_comm. apply N.Div0.mul_div_le. }
  enough (∀ k p u m, (p * 4096 + N.of_nat k * 4096 ≤ length)%N →
    map_pages F top (vaddr + 2 ^ 39) paddr perm base n k p u m =
    map_pages F top vaddr paddr perm base n k p u m) as E by (unfold or_max; by rewrite E).
  clear m m1 Hk. induction k as [|k IH]; intros p u m Hk; [done|]. cbn [map_pages]. rewrite !run_bind.
  assert (map_page F top (vaddr + 2 ^ 39) paddr perm base n p u m =
          map_page F top vaddr paddr perm base n p u m) as ->.
  { assert (2 ^ 39 = 549755813888)%N as H39 by done. rewrite H39 in *.
    unfold map_page. unfold checked_mul. rewrite (proj2 (N.ltb_lt _ _)) by lia. run.
    rewrite (checked_add_lt U64 (vaddr + _)), (checked_add_lt U64 vaddr) by lia. run.
    destruct (checked_add U64 paddr (p * 4096)) as [pa|]; run; [|done].
    replace (vaddr + 549755813888 + p * 4096)%N with (vaddr + p * 4096 + 2 ^ 39)%N by lia.
    by rewrite !vpn_wrap by lia. }
  destruct (map_page F top vaddr paddr perm base n p u m) as [[u1|e|] m2]; [|done..]. apply IH. lia.
Qed.
