(* ===== verification/PageMachine.v ===== *)
(** * Address spaces of a machine

    What the kernel does to make an address space: [map_ram_identity] builds the
    first table, with the low gigabytes of memory mapped to themselves, and
    [map_range] adds the pages of a process.  [Machine] is the interface of a
    hardware layer; [Sv39], [X86Paging] and [Arm64Paging] are the three. *)

From stdpp Require Import gmap.
From S2P Require Import Prelude PageTable.

(** ** Initialising a table *)

Definition indices (n : nat) : list N := N.of_nat <$> seq 0 n.

(** A loop that writes the first [n] entries of a table. *)
Definition write_entries (table : N) (n : nat) (e : N → N) (m : gmap N N) : gmap N N :=
  foldl (λ m i, <[slot table i := e i]> m) m (indices n).

Lemma write_entries_S table n e m :
  write_entries table (S n) e m = <[slot table (N.of_nat n) := e (N.of_nat n)]> (write_entries table n e m).
Proof. unfold write_entries, indices. by rewrite seq_S, fmap_app, foldl_app. Qed.

Lemma write_entries_at table n e m i :
  (i < N.of_nat n)%N → rd (write_entries table n e m) (slot table i) = e i.
Proof.
  induction n as [|n IH]; [lia|]. intros Hi. rewrite write_entries_S, rd_insert. case_decide as Hs.
  - unfold slot in Hs. f_equal. lia.
  - apply IH. destruct (decide (i = N.of_nat n)) as [->|]; [done|lia].
Qed.

(** The other cells are as before. *)
Lemma write_entries_not table n e m a :
  (∀ i, (i < N.of_nat n)%N → a ≠ slot table i) → rd (write_entries table n e m) a = rd m a.
Proof.
  induction n as [|n IH]; [done|]. intros Ha. rewrite write_entries_S, rd_insert, decide_False.
  - apply IH. intros i Hi. apply Ha. lia.
  - intros Hc. symmetry in Hc. revert Hc. apply Ha. lia.
Qed.

Lemma write_entries_past table n e m i :
  (N.of_nat n ≤ i)%N → rd (write_entries table n e m) (slot table i) = rd m (slot table i).
Proof. intros Hi. apply write_entries_not. intros j Hj. unfold slot. lia. Qed.

(** Another aligned frame is not written. *)
Lemma write_entries_other table n e m t i :
  (table mod 4096 = 0)%N → (t mod 4096 = 0)%N → t ≠ table → n ≤ 512 → idx i →
  rd (write_entries table n e m) (slot t i) = rd m (slot t i).
Proof.
  intros Ha Ht Hne Hn Hi. apply write_entries_not. intros j Hj Hs. apply Hne.
  eapply slot_inj in Hs; [by destruct Hs|done|done|done|unfold idx; lia].
Qed.

(** ** Masks *)

Definition bit (e c : N) : bool := negb (N.land e c =? 0)%N.

(** [if perm_bits & b != 0 { x } else { 0 }] *)
Definition when (c : bool) (x : N) : N := if c then x else 0%N.

Lemma land_masked a mask l c :
  N.land mask c = 0%N → N.land (N.lor (N.land a mask) l) c = N.land l c.
Proof. intros Hc. by rewrite N.land_lor_distr_l, <- N.land_assoc, Hc, N.land_0_r, N.lor_0_l. Qed.

Lemma mask_masked a mask l :
  N.land l mask = 0%N → N.land (N.lor (N.land a mask) l) mask = N.land a mask.
Proof. intros Hl. by rewrite N.land_lor_distr_l, Hl, N.lor_0_r, <- N.land_assoc, N.land_diag. Qed.

Lemma bit_masked a mask l c :
  N.land mask c = 0%N → bit (N.lor (N.land a mask) l) c = bit l c.
Proof. intros Hc. unfold bit. by rewrite land_masked. Qed.

Lemma gib_aligned gib : (gib * GIB mod 4096 = 0)%N.
Proof.
  unfold GIB. replace (gib * 1073741824)%N with (gib * 262144 * 4096)%N by lia. by rewrite N.Div0.mod_mul.
Qed.

(** An aligned address is not changed by the mask of its bits. *)
Lemma land_aligned a k w :
  (a mod 2 ^ k = 0)%N → (a < 2 ^ (k + w))%N → N.land a (N.shiftl (N.ones w) k) = a.
Proof.
  intros Ha Hl. assert (a = N.shiftl (a / 2 ^ k) k) as E.
  { rewrite N.shiftl_mul_pow2. pose proof (N.div_mod a (2 ^ k) ltac:(by apply N.pow_nonzero)). lia. }
  rewrite E at 1. rewrite <- N.shiftl_land, N.land_ones, N.mod_small; [done|].
  apply N.Div0.div_lt_upper_bound. by rewrite <- N.pow_add_r.
Qed.

(** ** Machines *)

(** [mc_frames] frames from [root_frame] hold the first tables, [mc_root] is the
    one in which the walk starts; [mc_reserved] are the addresses that
    [map_ram_identity] maps besides memory. *)
Record Machine := mkMachine {
  mc_format : PteFormat;
  mc_hardware : Hardware;
  mc_limit : N;
  mc_perm_ok : N → Prop;
  mc_rights : N → Rights;
  mc_frames : N;
  mc_root : N → N;
  mc_init : N → N → bool → gmap N N → gmap N N;
  mc_reserved : N → N → Prop;
}.

Section identity.
Context (F : PteFormat) (H : Hardware) (limit : N) (perm_ok : N → Prop) (rights : N → Rights).
Context {FS : FormatSpec F H limit perm_ok rights}.
Context (root : N) (g : N) (user : bool) (ext : option (N * N)) (m : gmap N N).

Definition identity_leaf (e addr : N) : Prop :=
  e_valid F e = true ∧ e_block F e = true ∧ hw_block H e = true ∧ e_addr F e = addr ∧
  hw_rights H e = mkRights true true user user.

(** The root maps the first [g] gigabytes to themselves; at one more index there
    can be a table, of large leaves that user code cannot reach. *)
Record identity_tables : Prop := {
  it_root : (root mod 4096 = 0)%N ∧ (root < limit)%N;
  it_ram i : (i < g)%N → idx i → identity_leaf (rd m (slot root i)) (i * GIB);
  it_rest i : (g ≤ i)%N → idx i →
    let e := rd m (slot root i) in
    e_valid F e = false ∨
    ∃ t, ext = Some (i, t) ∧ e_valid F e = true ∧ e_block F e = false ∧ e_addr F e = t;
  it_ext i t : ext = Some (i, t) → (g ≤ i)%N ∧ (t mod 4096 = 0 ∧ t < limit ∧ t ≠ root)%N ∧
    ∀ j, idx j → let e := rd m (slot t j) in
      e_valid F e = false ∨
      (e_valid F e = true ∧ e_block F e = true ∧ r_user (hw_rights H e) = false);
}.
Hypothesis IT : identity_tables.

Abbreviation table p := (table_at F m root p).
Abbreviation entry p i := (entry_at F m root p i).

Lemma identity_table1 i f : idx i → table [i] = Some f → ext = Some (i, f).
Proof using IT FS.
  intros Hi. change [i] with ([] ++ [i]). rewrite table_snoc. simpl.
  destruct (N.lt_ge_cases i g) as [Hg|Hg].
  - destruct (it_ram IT i Hg Hi) as (-> & -> & _). done.
  - destruct (it_rest IT i Hg Hi) as [->|(t & -> & -> & -> & ->)]; [done|]. by intros [= <-].
Qed.

Lemma identity_table2 i j : idx i → idx j → table [i; j] = None.
Proof using IT FS.
  intros Hi Hj. change [i; j] with ([i] ++ [j]). rewrite table_snoc.
  destruct (table [i]) as [t|] eqn:Ht; [|done]. apply identity_table1 in Ht; [|done]. simpl.
  destruct (it_ext IT i t Ht) as (_ & _ & Hent). destruct (Hent j Hj) as [->|(-> & -> & _)]; done.
Qed.

Lemma identity_path p f :
  path_ok p → table p = Some f → p = [] ∧ f = root ∨ ∃ i, p = [i] ∧ idx i ∧ ext = Some (i, f).
Proof using IT FS.
  intros [Hl Hp] Hf. destruct p as [|i [|j [|k p]]]; [|right|exfalso|simpl in Hl; lia].
  - left. by injection Hf as ->.
  - apply Forall_cons in Hp as [Hi _]. exists i. auto using identity_table1.
  - apply Forall_cons in Hp as [Hi Hj]. apply Forall_cons in Hj as [Hj _].
    by rewrite identity_table2 in Hf.
Qed.

Lemma identity_wf : pt_wf F limit root m.
Proof using IT FS.
  split.
  - intros p q f Hp Hq Hpf Hqf.
    destruct (identity_path p f Hp Hpf) as [[-> ->]|(i & -> & Hi & Ei)],
      (identity_path q _ Hq Hqf) as [[-> E]|(j & -> & Hj & Ej)]; try done.
    + by destruct (it_ext IT j root Ej) as (_ & (_ & _ & ?) & _).
    + subst f. by destruct (it_ext IT i root Ei) as (_ & (_ & _ & ?) & _).
    + congruence.
  - intros p f Hp Hf. destruct (identity_path p f Hp Hf) as [[-> ->]|(i & -> & Hi & Ei)].
    + by apply it_root.
    + destruct (it_ext IT i f Ei) as (_ & (? & ? & _) & _). done.
Qed.

Lemma identity_fresh t :
  (t mod 4096 = 0)%N → (t < limit)%N → t ≠ root → (∀ i, ext ≠ Some (i, t)) →
  (∀ i, idx i → rd m (slot t i) = 0%N) → fresh F limit root m t.
Proof using IT FS.
  intros Ha Hl Hne Hx Hz. split; try done. intros p Hp Ht.
  destruct (identity_path p t Hp Ht) as [[_ ->]|(i & _ & _ & ?)]; [done|]. by eapply Hx.
Qed.

(** The address is in the gigabyte of the extra table. *)
Definition in_ext (va : N) : Prop := ∃ t, ext = Some (vpn 30 va, t).

Lemma vpn_gib va : (va < 2 ^ 39)%N → vpn 30 va = (va / GIB)%N.
Proof using.
  intros Hva. rewrite vpn_eq. change (2 ^ 30)%N with GIB. apply N.mod_small.
  by apply N.Div0.div_lt_upper_bound.
Qed.

Lemma gib_lt va : (va / GIB < g ↔ va < g * GIB)%N.
Proof using.
  pose proof (N.div_mod va GIB ltac:(done)) as H1. pose proof (N.mod_lt va GIB ltac:(done)) as H2.
  revert H1 H2. generalize (va / GIB)%N (va mod GIB)%N. unfold GIB. clear. intros. nia.
Qed.

Lemma entry_root i : entry [] i = Some (rd m (slot root i)).
Proof using. done. Qed.

(** Memory is mapped to itself. *)
Lemma identity_walk_ram va :
  (va < 2 ^ 39)%N → (va < g * GIB)%N →
  ∃ e, walk F H m root va = Some (va, e) ∧ hw_rights H e = mkRights true true user user.
Proof using IT FS.
  intros Hva Hg. pose proof (vpn_gib va Hva) as Hv. apply gib_lt in Hg. rewrite <- Hv in Hg.
  destruct (it_ram IT (vpn 30 va) Hg (vpn_idx _ _)) as (Hva' & Hb & Hp & Ha & Hr).
  unfold walk. rewrite entry_root. simpl. rewrite Hva', Hb. simpl. unfold leaf_at.
  rewrite Hp, Ha, N.Div0.mod_mul. simpl. eexists. split; [|exact Hr]. do 2 f_equal.
  rewrite Hv, N.mul_comm. symmetry. by apply N.div_mod.
Qed.

Lemma identity_walk_rest va :
  (va < 2 ^ 39)%N → (g * GIB ≤ va)%N →
  walk F H m root va = None ∨
  in_ext va ∧ ∃ pa e, walk F H m root va = Some (pa, e) ∧ r_user (hw_rights H e) = false.
Proof using IT FS.
  intros Hva Hg. pose proof (vpn_gib va Hva) as Hv.
  assert (g ≤ vpn 30 va)%N as Hgv by (rewrite Hv; pose proof (gib_lt va); lia).
  unfold walk. rewrite entry_root. simpl.
  destruct (it_rest IT (vpn 30 va) Hgv (vpn_idx _ _)) as [->|(t & Hx & Hval & Hb & Ha)]; [by left|].
  rewrite Hval, Hb. simpl.
  assert (table [vpn 30 va] = Some t) as Ht.
  { change [vpn 30 va] with ([] ++ [vpn 30 va]). rewrite table_snoc. simpl. by rewrite Hval, Hb, Ha. }
  assert (entry [vpn 30 va] (vpn 21 va) = Some (rd m (slot t (vpn 21 va)))) as ->
    by (by rewrite entry_table, Ht).
  simpl. destruct (it_ext IT _ t Hx) as (_ & _ & Hent).
  destruct (Hent (vpn 21 va) (vpn_idx _ _)) as [->|(-> & -> & Hu)]; [by left|]. simpl.
  unfold leaf_at. destruct (_ && _); [|by left]. right. split; [by exists t|]. eauto.
Qed.

Lemma identity_blocked va :
  (va < 2 ^ 39)%N → (g * GIB ≤ va)%N → ¬ in_ext va → ¬ blocked F root m va.
Proof using IT FS.
  intros Hva Hg Hx. pose proof (vpn_gib va Hva) as Hv.
  assert (g ≤ vpn 30 va)%N as Hgv by (rewrite Hv; pose proof (gib_lt va); lia).
  intros [(e & He & Hval & Hb)|(e & He & Hval & Hb)].
  - rewrite entry_root in He. injection He as <-.
    destruct (it_rest IT (vpn 30 va) Hgv (vpn_idx _ _)) as [?|(t & _ & _ & ? & _)]; congruence.
  - rewrite entry_table in He. destruct (table [vpn 30 va]) as [t|] eqn:Ht; [|done].
    apply Hx. exists t. apply identity_table1; auto using vpn_idx.
Qed.
End identity.

(** What a hardware layer promises. *)
Class MachineSpec (M : Machine) : Prop := {
  ms_format :: FormatSpec (mc_format M) (mc_hardware M) (mc_limit M) (mc_perm_ok M) (mc_rights M);
  ms_top f : (f + mc_frames M * 4096 ≤ mc_limit M)%N → e_top (mc_format M) f = Some (mc_root M f);
  ms_init f g user m :
    (f mod 4096 = 0)%N → (f + mc_frames M * 4096 ≤ mc_limit M)%N → (g ≤ 512)%N →
    ∃ ext,
      identity_tables (mc_format M) (mc_hardware M) (mc_limit M) (mc_root M f) g user ext
        (mc_init M f g user m) ∧
      (f ≤ mc_root M f < f + mc_frames M * 4096)%N ∧
      (∀ i t, ext = Some (i, t) → (f ≤ t < f + mc_frames M * 4096)%N) ∧
      (∀ va, (va < 2 ^ 39)%N → (g * GIB ≤ va)%N → ¬ mc_reserved M g va →
        ¬ blocked (mc_format M) (mc_root M f) (mc_init M f g user m) va) ∧
      (∀ t i, (t mod 4096 = 0)%N → ¬ (f ≤ t < f + mc_frames M * 4096)%N → idx i →
        rd (mc_init M f g user m) (slot t i) = rd m (slot t i));
}.

(** A pool of [n] zeroed frames. *)
Definition zeroed_pool (limit base n : N) (m : gmap N N) : Prop :=
  (base mod 4096 = 0)%N ∧ (base + n * 4096 ≤ limit)%N ∧
  ∀ k i, (k < n)%N → idx i → rd m (slot (base + k * 4096) i) = 0%N.

(** The first tables form a tree, and a pool beside them is fresh. *)
Lemma init_tables M {MS : MachineSpec M} f g user base n m :
  (f mod 4096 = 0)%N → (f + mc_frames M * 4096 ≤ mc_limit M)%N → (g ≤ 512)%N →
  zeroed_pool (mc_limit M) base n m →
  (f + mc_frames M * 4096 ≤ base ∨ base + n * 4096 ≤ f)%N →
  pt_wf (mc_format M) (mc_limit M) (mc_root M f) (mc_init M f g user m) ∧
  pool_fresh (mc_format M) (mc_limit M) (mc_root M f) (mc_init M f g user m) base 0 n.
Proof.
  intros Hfa Hfl Hg (Hba & Hbl & Hbz) Hdis.
  destruct (ms_init f g user m Hfa Hfl Hg) as (ext & IT & Hroot & Hext & _ & Hother).
  pose proof (ms_format (MachineSpec := MS)) as FS.
  split; [eapply identity_wf; [exact FS|exact IT]|].
  intros k [_ Hk]. assert (¬ (f ≤ base + k * 4096 < f + mc_frames M * 4096)%N) as Hout by lia.
  eapply identity_fresh; [exact FS|exact IT| | | | |].
  - by rewrite N.Div0.mod_add.
  - lia.
  - intros E. rewrite E in Hout. done.
  - intros i E. by apply Hext in E.
  - intros i Hi. rewrite Hother; [auto| |done|done]. by rewrite N.Div0.mod_add.
Qed.

(** The address space that a machine makes of a range of pages. *)
Definition makes_space (M : Machine) (f g : N) (user : bool) (vaddr paddr length perm base n : N)
    (m : gmap N N) : Prop :=
  ∃ r m', map_range (mc_format M) f vaddr paddr length perm base n (mc_init M f g user m) = (Ok r, m') ∧
    (r ≤ n)%N ∧
    ∀ va, (va < 2 ^ 39)%N →
      match walk (mc_format M) (mc_hardware M) m' (mc_root M f) va with
      | Some (pa, e) =>
          (va < g * GIB ∧ pa = va)%N ∧ hw_rights (mc_hardware M) e = mkRights true true user user ∨
          (vaddr ≤ va < vaddr + length ∧ pa = paddr + (va - vaddr))%N ∧
            hw_rights (mc_hardware M) e = mc_rights M perm ∨
          (g * GIB ≤ va ∧ ¬ (vaddr ≤ va < vaddr + length))%N ∧ r_user (hw_rights (mc_hardware M) e) = false
      | None => (g * GIB ≤ va)%N ∧ ¬ (vaddr ≤ va < vaddr + length)%N
      end.

(** C29 An address space made by a hardware layer contains what was asked for and
    nothing else: after [map_ram_identity] and [map_range] of a page-aligned
    range above memory, with two zeroed pool frames for each page, the call
    succeeds; every address of the low gigabytes translates to itself, every address
    of the range to the requested frame with exactly the requested rights, and no
    address outside of both can be reached by user code, whatever the memory held
    before.  The range lies outside what the machine reserves ([mc_reserved]), and the
    rights are ones it can express ([mc_perm_ok]). *)
Theorem address_space_correct M {MS : MachineSpec M} f g user vaddr paddr length perm base n m :
  (f ≠ 0 ∧ f mod 4096 = 0 ∧ f + mc_frames M * 4096 ≤ mc_limit M ∧ g ≤ 512)%N →
  zeroed_pool (mc_limit M) base n m →
  (f + mc_frames M * 4096 ≤ base ∨ base + n * 4096 ≤ f)%N →
  (vaddr mod 4096 = 0 ∧ paddr mod 4096 = 0 ∧ length mod 4096 = 0 ∧ length ≠ 0)%N →
  (g * GIB ≤ vaddr ∧ vaddr + length ≤ 2 ^ 39 ∧ paddr + length ≤ mc_limit M)%N →
  (∀ va, (vaddr ≤ va < vaddr + length)%N → ¬ mc_reserved M g va) →
  (2 * (length / 4096) ≤ n < U32_MAX)%N → mc_perm_ok M perm →
  makes_space M f g user vaddr paddr length perm base n m.
Proof.
  intros (Hf0 & Hfa & Hfl & Hg) Hpool Hdis (Hva & Hpa & Hla & Hl0) (Hgv & Hv39 & Hpl) Hres Hn Hperm.
  destruct (init_tables M f g user base n m Hfa Hfl Hg Hpool Hdis) as [Hwf Hfresh].
  destruct (ms_init f g user m Hfa Hfl Hg) as (ext & IT & _ & _ & Hblk & _).
  set (m1 := mc_init M f g user m) in *. pose proof (ms_format (MachineSpec := MS)) as FS.
  pose proof (map_range_spec _ _ _ _ _ (mc_root M f) base n f (ms_top f Hfl) m1 vaddr paddr length perm
    Hwf Hfresh Hperm Hv39 Hpl ltac:(lia)) as Hm.
  unfold makes_space. fold m1.
  destruct (map_range (mc_format M) f vaddr paddr length perm base n m1) as [[r|e|] m']; [|done..].
  destruct Hm as (u & _ & Hu & Hcase).
  assert (∃ Hr : r = u, ∀ va, (va < 2 ^ 39)%N → walk (mc_format M) (mc_hardware M) m' (mc_root M f) va =
    if decide (vaddr ≤ va < vaddr + length)%N then Some (mapped (mc_format M) vaddr paddr perm va)
    else walk (mc_format M) (mc_hardware M) m1 (mc_root M f) va) as (-> & Hw).
  { destruct Hcase as [(_ & Hcause & _)|(-> & _ & Hw)]; [exfalso|by exists eq_refl].
    destruct Hcause as [Hb|[(va & Hin & Hb)|Hlt]]; [|eapply Hblk; [| |by apply Hres|exact Hb]; lia|lia].
    unfold bad_args in Hb. tauto. }
  exists u, m'. split_and!; [done|done|]. intros va Hva39. rewrite Hw by done.
  case_decide as Hin.
  - unfold mapped. right. left. split; [by split|].
    apply (fs_leaf (FormatSpec := ms_format)); [| |done].
    + by rewrite N.Div0.mod_add.
    + pose proof (N.Div0.mul_div_le (va - vaddr) 4096) as Hle. revert Hle.
      generalize ((va - vaddr) / 4096)%N. intros. lia.
  - destruct (N.lt_ge_cases va (g * GIB)) as [Hram|Hrest].
    + edestruct identity_walk_ram as (e & -> & He); [exact FS|exact IT|done|done|]. by left.
    + edestruct identity_walk_rest as [->|(_ & pa & e & -> & He)];
        [exact FS|exact IT|done|done|done|right; right; split; [by split|done]].
Qed.
