(* ===== verification/Sv39.v ===== *)
(** * RISC-V Sv39

    The module [riscv_sv39] of [hal-riscv64/src/cpu.rs] and its
    [map_ram_identity]: the bits of an entry, the flags of a leaf, the first table
    of an address space; an instance of [FormatSpec] and [MachineSpec]. *)

From stdpp Require Import gmap.
From S2P Require Import Prelude PageTable PageMachine.

Definition V : N := 1.
Definition R : N := 2.
Definition W : N := 4.
Definition X : N := 8.
Definition U : N := 16.
Definition A : N := 64.
Definition D : N := 128.

Definition leaf_flags (perm_bits : N) : N :=
  N.lor (N.lor (N.lor (N.lor (N.lor (N.lor V A) D)
    (when (bit perm_bits 1) R)) (when (bit perm_bits 2) W))
    (when (bit perm_bits 4) X)) (when (bit perm_bits 8) U).

Definition format : PteFormat := {|
  e_top root_frame := Some root_frame;
  e_valid e := bit e V;
  e_block e := bit e (N.lor (N.lor R W) X);
  e_addr e := N.shiftl (N.land (N.shiftr e 10) (N.shiftl 1 44 - 1)) 12;
  e_table t := N.lor (N.shiftl (N.shiftr t 12) 10) V;
  e_leaf perm_bits pa := N.lor (N.shiftl (N.shiftr pa 12) 10) (leaf_flags perm_bits);
|}.

Definition map_range := PageTable.map_range format.

Definition map_ram_identity (root_frame bytes_gib : N) (user_accessible : bool) (m : gmap N N)
    : gmap N N :=
  let m := write_entries root_frame 512 (λ _, 0%N) m in
  let flags := N.lor (N.lor (N.lor (N.lor (N.lor (N.lor V R) W) X) A) D) (when user_accessible U) in
  write_entries root_frame (N.to_nat (N.min bytes_gib 512)) (λ gib, N.lor (N.shiftl gib 28) flags) m.

(** A leaf with [W] and without [R] is reserved. *)
Definition hardware : Hardware := {|
  hw_block e := bit e R || bit e X && negb (bit e W);
  hw_page e := bit e R || bit e X && negb (bit e W);
  hw_rights e := mkRights (bit e R) (bit e W) (bit e U) (bit e X && bit e U);
|}.

Definition LIMIT : N := 72057594037927936.

Definition perm_ok (perm : N) : Prop := bit perm 1 || bit perm 4 && negb (bit perm 2) = true.

Definition rights (perm : N) : Rights :=
  mkRights (bit perm 1) (bit perm 2) (bit perm 8) (bit perm 4 && bit perm 8).

(** An entry is a page number above ten flags. *)
Lemma entry_flags x l c :
  (c < 1024)%N → N.land (N.lor (N.shiftl x 10) l) c = N.land l c.
Proof.
  intros Hc. rewrite N.land_lor_distr_l.
  assert (N.land (N.shiftl x 10) c = 0)%N as ->; [|done].
  apply N.bits_inj. intros j. rewrite N.land_spec, N.bits_0.
  destruct (N.ltb_spec j 10); [by rewrite N.shiftl_spec_low|].
  rewrite (N.bits_above_log2 c); [apply andb_false_r|].
  destruct (decide (c = 0)%N) as [->|]; [simpl; lia|]. apply N.log2_lt_pow2; [lia|].
  eapply N.lt_le_trans; [exact Hc|]. change 1024%N with (2 ^ 10)%N. apply N.pow_le_mono_r; lia.
Qed.

Lemma entry_addr pa l :
  (pa mod 4096 = 0)%N → (pa < LIMIT)%N → (l < 1024)%N →
  e_addr format (N.lor (N.shiftl (N.shiftr pa 12) 10) l) = pa.
Proof.
  intros Ha Hl Hlow. cbn [e_addr format]. rewrite N.shiftr_lor, N.shiftr_shiftl_l, N.sub_diag, N.shiftl_0_r by done.
  rewrite (N.shiftr_eq_0 l), N.lor_0_r.
  2: { destruct (decide (l = 0)%N) as [->|]; [done|]. apply N.log2_lt_pow2; [lia|done]. }
  change (N.shiftl 1 44 - 1)%N with (N.ones 44). rewrite N.land_ones, N.mod_small.
  - rewrite N.shiftl_mul_pow2, N.shiftr_div_pow2. change (2 ^ 12)%N with 4096%N.
    pose proof (N.div_mod pa 4096 ltac:(done)) as Hd. rewrite Ha in Hd.
    revert Hd. generalize (pa / 4096)%N. clear. lia.
  - rewrite N.shiftr_div_pow2. apply N.Div0.div_lt_upper_bound. exact Hl.
Qed.

#[export] Instance format_spec : FormatSpec format hardware LIMIT perm_ok rights.
Proof.
  split.
  - done.
  - done.
  - intros t Ha Hl. split_and!.
    + simpl. unfold bit. by rewrite entry_flags.
    + simpl. unfold bit. by rewrite entry_flags.
    + by apply entry_addr.
  - intros perm pa Ha Hl Hp. unfold perm_ok in Hp.
    assert (leaf_flags perm < 1024)%N as Hf.
    { unfold leaf_flags, when. by destruct (bit perm 1), (bit perm 2), (bit perm 4), (bit perm 8). }
    split_and!; [|by apply entry_addr| |].
    + simpl. unfold bit at 1. rewrite entry_flags by done. unfold leaf_flags, when.
      by destruct (bit perm 1), (bit perm 2), (bit perm 4), (bit perm 8).
    + cbn [hw_page hardware format e_leaf]. unfold bit. rewrite !entry_flags by done.
      fold (bit (leaf_flags perm) R) (bit (leaf_flags perm) X) (bit (leaf_flags perm) W).
      unfold leaf_flags, when.
      by destruct (bit perm 1), (bit perm 2), (bit perm 4), (bit perm 8).
    + cbn [hw_rights hardware format e_leaf]. unfold rights. unfold bit at 1 2 3 4 5.
      rewrite !entry_flags by done. unfold leaf_flags, when.
      by destruct (bit perm 1), (bit perm 2), (bit perm 4), (bit perm 8).
Qed.

Definition machine : Machine := {|
  mc_format := format;
  mc_hardware := hardware;
  mc_limit := LIMIT;
  mc_perm_ok := perm_ok;
  mc_rights := rights;
  mc_frames := 1;
  mc_root f := f;
  mc_init := map_ram_identity;
  mc_reserved _ _ := False;
|}.

Lemma sv39_ram_entry gib user :
  idx gib →
  let flags := N.lor (N.lor (N.lor (N.lor (N.lor (N.lor V R) W) X) A) D) (when user U) in
  identity_leaf format hardware user (N.lor (N.shiftl gib 28) flags) (gib * GIB).
Proof.
  intros Hi flags. assert (N.shiftl gib 28 = N.shiftl (N.shiftr (gib * GIB) 12) 10) as ->.
  { rewrite !N.shiftl_mul_pow2, N.shiftr_div_pow2.
    replace (gib * GIB)%N with (gib * 2 ^ 18 * 2 ^ 12)%N by (unfold GIB; lia).
    rewrite N.div_mul by done. change (2 ^ 28)%N with (2 ^ 18 * 2 ^ 10)%N. lia. }
  assert (flags < 1024)%N as Hf by (unfold flags; by destruct user).
  unfold identity_leaf. cbn [e_valid e_block hw_block hw_rights format hardware].
  unfold bit. rewrite !entry_flags by done. split_and!; try (unfold flags; by destruct user).
  apply entry_addr; [apply gib_aligned|unfold idx in Hi; unfold GIB, LIMIT; lia|done].
Qed.

#[export] Instance machine_spec : MachineSpec machine.
Proof.
  split; [exact format_spec|done|].
  intros f g user m Hfa Hfl Hg. cbn [mc_init mc_format mc_hardware mc_limit mc_root mc_frames machine] in *.
  exists None. unfold map_ram_identity. cbv zeta. rewrite N.min_l by done.
  set (flags := N.lor _ (when user U)). set (m0 := write_entries f 512 _ m).
  set (m1 := write_entries f (N.to_nat g) _ m0).
  assert (identity_tables format hardware LIMIT f g user None m1) as IT.
  { split; [split; [done|unfold LIMIT in *; lia]| | |done].
    - intros i Hig Hi. unfold m1. rewrite write_entries_at by lia. by apply sv39_ram_entry.
    - intros i Hig Hi. left. unfold m1. rewrite write_entries_past by lia.
      unfold m0. rewrite write_entries_at by (unfold idx in Hi; lia). done. }
  split_and!; [done|lia|lia|done| |].
  - intros va Hva Hgv _. eapply identity_blocked; [exact format_spec|exact IT|done|done|]. by intros [t ?].
  - intros t i Ht Hout Hi. unfold m1, m0. rewrite !write_entries_other; try done; lia.
Qed.
