(* ===== verification/X86Paging.v ===== *)
(** * x86-64

    The module [x86_64_paging] of [hal-x86_64/src/cpu.rs].  The walk starts in the
    frame after [root_frame], the page-directory-pointer table; the first entry of
    the frame at [root_frame] leads to it.  [map_ram_identity] also maps the
    interrupt controller, for the kernel only. *)

From stdpp Require Import gmap.
From S2P Require Import Prelude PageTable PageMachine.

Definition PRESENT : N := 1.
Definition WRITABLE : N := 2.
Definition USER : N := 4.
Definition HUGE_PAGE : N := 128.
Definition NO_EXECUTE : N := 9223372036854775808.
Definition PHYS_MASK : N := 4503599627366400.

Definition leaf_flags (perm_bits : N) : N :=
  let leaf := PRESENT in
  let leaf := if bit perm_bits 2 then N.lor leaf WRITABLE else leaf in
  let leaf := if bit perm_bits 8 then N.lor leaf USER else leaf in
  if bit perm_bits 4 then leaf else N.lor leaf NO_EXECUTE.

Definition format : PteFormat := {|
  e_top root_frame := checked_add U64 root_frame 4096;
  e_valid e := bit e PRESENT;
  e_block e := bit e HUGE_PAGE;
  e_addr e := N.land e PHYS_MASK;
  e_table t := N.lor (N.lor (N.lor t PRESENT) WRITABLE) USER;
  e_leaf perm_bits pa := N.lor (N.land pa PHYS_MASK) (leaf_flags perm_bits);
|}.

Definition map_range := PageTable.map_range format.

(** [xapic_base] is what [xapic_mmio_base_masked] reads from the machine. *)
Definition map_ram_identity (xapic_base root_frame bytes_gib : N) (user_accessible : bool)
    (m : gmap N N) : gmap N N :=
  let pml4 := root_frame in
  let pdpt := (root_frame + 4096)%N in
  let xapic_pd := (root_frame + 8192)%N in
  let m := foldl (λ m i, <[slot xapic_pd i := 0%N]> (<[slot pdpt i := 0%N]> (<[slot pml4 i := 0%N]> m)))
             m (indices 512) in
  let pml4_flags := N.lor (N.lor PRESENT WRITABLE) USER in
  let leaf_flags := N.lor (N.lor PRESENT WRITABLE) HUGE_PAGE in
  let leaf_flags := if user_accessible then N.lor leaf_flags USER else leaf_flags in
  let m := <[slot pml4 0 := N.lor (root_frame + 4096) pml4_flags]> m in
  let m := write_entries pdpt (N.to_nat (N.min bytes_gib 512))
             (λ gib, N.lor (N.shiftl gib 30) leaf_flags) m in
  let xapic_gib := N.shiftr xapic_base 30 in
  if (bytes_gib <=? xapic_gib)%N && (xapic_gib <? 512)%N then
    let xapic_pd_index := N.land (N.shiftr xapic_base 21) 511 in
    let xapic_leaf_pa := N.land xapic_base (N.lnot 2097151 64) in
    let m := <[slot xapic_pd xapic_pd_index :=
                 N.lor (N.lor (N.lor xapic_leaf_pa PRESENT) WRITABLE) HUGE_PAGE]> m in
    <[slot pdpt xapic_gib := N.lor (N.lor (N.lor (root_frame + 8192) PRESENT) WRITABLE) USER]> m
  else m.

(** All leaves can be read; the tables above grant everything. *)
Definition hardware : Hardware := {|
  hw_block _ := true;
  hw_page _ := true;
  hw_rights e := mkRights true (bit e WRITABLE) (bit e USER) (bit e USER && negb (bit e NO_EXECUTE));
|}.

Definition LIMIT : N := 4503599627370496.

Definition rights (perm : N) : Rights :=
  mkRights true (bit perm 2) (bit perm 8) (bit perm 4 && bit perm 8).

Lemma x86_masked t :
  (t mod 4096 = 0)%N → (t < LIMIT)%N → N.land t PHYS_MASK = t.
Proof. intros Ha Hl. by apply (land_aligned t 12 40). Qed.

Lemma lor_assoc4 a b c d : N.lor (N.lor (N.lor a b) c) d = N.lor a (N.lor (N.lor b c) d).
Proof. by rewrite <- !N.lor_assoc. Qed.

#[export] Instance format_spec : FormatSpec format hardware LIMIT (λ _, True) rights.
Proof.
  split; [done|done| |].
  - intros t Ha Hl. cbn [e_valid e_block e_addr e_table format]. rewrite lor_assoc4.
    rewrite <- (x86_masked t Ha Hl) at 1 2 3. rewrite !bit_masked by done.
    rewrite mask_masked by done. rewrite x86_masked by done. done.
  - intros perm pa Ha Hl _. cbn [e_valid e_addr e_leaf format hardware hw_page hw_rights].
    rewrite !bit_masked by done. rewrite mask_masked.
    2: { unfold leaf_flags. by destruct (bit perm 2), (bit perm 8), (bit perm 4). }
    rewrite x86_masked by done. unfold rights, leaf_flags.
    by destruct (bit perm 2), (bit perm 8), (bit perm 4).
Qed.

Lemma zero_tables_at f n m k i :
  (k < 3)%N → (i < N.of_nat n)%N →
  rd (foldl (λ m i, <[slot (f + 8192) i := 0%N]> (<[slot (f + 4096) i := 0%N]> (<[slot f i := 0%N]> m)))
        m (indices n)) (slot (f + k * 4096) i) = 0%N.
Proof.
  intros Hk. unfold indices. induction n as [|n IH]; [lia|]. intros Hi.
  rewrite seq_S, fmap_app, foldl_app. simpl. rewrite !rd_insert. repeat case_decide; try done.
  apply IH. destruct (decide (i = N.of_nat n)) as [->|]; [|lia]. exfalso.
  assert (k = 0 ∨ k = 1 ∨ k = 2)%N as [->|[->| ->]] by lia; unfold slot in *; lia.
Qed.

Lemma zero_tables_not f n m a :
  (∀ k i, (k < 3)%N → (i < N.of_nat n)%N → a ≠ slot (f + k * 4096) i) →
  rd (foldl (λ m i, <[slot (f + 8192) i := 0%N]> (<[slot (f + 4096) i := 0%N]> (<[slot f i := 0%N]> m)))
        m (indices n)) a = rd m a.
Proof.
  unfold indices. induction n as [|n IH]; intros Ha; [done|].
  rewrite seq_S, fmap_app, foldl_app. simpl. rewrite !rd_insert, !decide_False.
  - apply IH. intros k i Hk Hi. apply Ha; lia.
  - intros E. apply (Ha 0 (N.of_nat n))%N; [lia|lia|]. rewrite <- E. f_equal. lia.
  - intros E. apply (Ha 1 (N.of_nat n))%N; [lia|lia|]. rewrite <- E. f_equal.
  - intros E. apply (Ha 2 (N.of_nat n))%N; [lia|lia|]. rewrite <- E. f_equal.
Qed.

Definition xapic_gib (xapic_base : N) : N := N.shiftr xapic_base 30.
Definition xapic_index (xapic_base : N) : N := N.land (N.shiftr xapic_base 21) 511.

Definition machine (xapic_base : N) : Machine := {|
  mc_format := format;
  mc_hardware := hardware;
  mc_limit := LIMIT;
  mc_perm_ok _ := True;
  mc_rights := rights;
  mc_frames := 3;
  mc_root f := (f + 4096)%N;
  mc_init := map_ram_identity xapic_base;
  mc_reserved g va := vpn 30 va = xapic_gib xapic_base ∧ vpn 21 va = xapic_index xapic_base;
|}.

Lemma x86_ram_entry gib user :
  idx gib →
  let flags := N.lor (N.lor PRESENT WRITABLE) HUGE_PAGE in
  identity_leaf format hardware user
    (N.lor (N.shiftl gib 30) (if user then N.lor flags USER else flags)) (gib * GIB).
Proof.
  intros Hi flags. rewrite N.shiftl_mul_pow2. change (2 ^ 30)%N with GIB.
  assert (N.land (gib * GIB) PHYS_MASK = gib * GIB)%N as E.
  { apply x86_masked; [apply gib_aligned|unfold idx in Hi; unfold GIB, LIMIT; lia]. }
  rewrite <- E at 1. unfold identity_leaf. cbn [e_valid e_block e_addr hw_block hw_rights format hardware].
  rewrite !bit_masked by done. rewrite mask_masked by (unfold flags; by destruct user). rewrite E.
  unfold flags. by destruct user.
Qed.

(** The flags of the leaf over the interrupt controller, whatever its address. *)
Lemma xapic_entry base :
  let e := N.lor (N.lor (N.lor (N.land base (N.lnot 2097151 64)) PRESENT) WRITABLE) HUGE_PAGE in
  e_valid format e = true ∧ e_block format e = true ∧ r_user (hw_rights hardware e) = false.
Proof.
  intros e. cbn [e_valid e_block hw_rights hardware format r_user]. unfold e.
  rewrite lor_assoc4. unfold bit. rewrite !land_masked by done. done.
Qed.

Lemma pdpt_entry f :
  (f mod 4096 = 0)%N → (f < LIMIT)%N →
  let e := N.lor (N.lor (N.lor f PRESENT) WRITABLE) USER in
  e_valid format e = true ∧ e_block format e = false ∧ e_addr format e = f.
Proof. intros Ha Hl. apply (fs_table (FormatSpec := format_spec)); done. Qed.

(** ** The first tables *)

Section first_tables.
Context (f g : N) (user : bool) (m : gmap N N).
Hypothesis Hf : (f mod 4096 = 0)%N.
Hypothesis Hl : (f + 3 * 4096 ≤ LIMIT)%N.
Hypothesis Hg : (g ≤ 512)%N.

Lemma frame_aligned k : ((f + k * 4096) mod 4096 = 0)%N.
Proof using All. by rewrite N.Div0.mod_add. Qed.

Lemma frame_slot k k' i j :
  k ≠ k' → idx i → idx j → slot (f + k * 4096) i ≠ slot (f + k' * 4096) j.
Proof using All.
  intros Hk Hi Hj E. apply slot_inj in E as [E _]; auto using frame_aligned. lia.
Qed.

Lemma outside_slot t k i j :
  (t mod 4096 = 0)%N → ¬ (f ≤ t < f + 3 * 4096)%N → (k < 3)%N → idx i → idx j →
  slot t i ≠ slot (f + k * 4096) j.
Proof using All.
  intros Ht Hout Hk Hi Hj E. apply slot_inj in E as [E _]; auto using frame_aligned. lia.
Qed.

(** The tables without the interrupt controller: [k] counts the frames. *)
Record ram_tables (m2 : gmap N N) : Prop := {
  rt_ram i : (i < g)%N → idx i →
    identity_leaf format hardware user (rd m2 (slot (f + 1 * 4096) i)) (i * GIB);
  rt_rest i : (g ≤ i)%N → idx i → rd m2 (slot (f + 1 * 4096) i) = 0%N;
  rt_extra i : idx i → rd m2 (slot (f + 2 * 4096) i) = 0%N;
  rt_other t i : (t mod 4096 = 0)%N → ¬ (f ≤ t < f + 3 * 4096)%N → idx i →
    rd m2 (slot t i) = rd m (slot t i);
}.

Lemma ram_tables_made e e0 :
  (∀ i, idx i → identity_leaf format hardware user (e i) (i * GIB)) →
  ram_tables (write_entries (f + 1 * 4096) (N.to_nat g) e (<[slot f 0 := e0]>
    (foldl (λ m i, <[slot (f + 8192) i := 0%N]> (<[slot (f + 4096) i := 0%N]> (<[slot f i := 0%N]> m)))
       m (indices 512)))).
Proof using All.
  intros He. assert (idx 0) as H0 by done. pose proof (frame_aligned 1) as Ha1.
  pose proof (frame_aligned 2) as Ha2.
  set (m1 := <[slot f 0 := e0]> _).
  assert (∀ k i, (0 < k < 3)%N → idx i → rd m1 (slot (f + k * 4096) i) = 0%N) as Hz.
  { intros k i Hk Hi. unfold m1. rewrite rd_insert, decide_False.
    - apply zero_tables_at; [lia|done].
    - intros E. apply (frame_slot 0 k 0 i); [lia|done|done|]. by rewrite N.mul_0_l, N.add_0_r. }
  split.
  - intros i Hi Hii. rewrite write_entries_at by lia. auto.
  - intros i Hi Hii. rewrite write_entries_past by lia. by apply (Hz 1%N).
  - intros i Hi. rewrite write_entries_other by (done || lia). by apply (Hz 2%N).
  - intros t i Ht Hout Hi. rewrite write_entries_other by (done || lia).
    unfold m1. rewrite rd_insert, decide_False.
    + apply zero_tables_not. intros k j Hk Hj. by apply outside_slot.
    + intros E. apply (outside_slot t 0 i 0); try done. by rewrite N.mul_0_l, N.add_0_r.
Qed.

Lemma ram_identity m2 :
  ram_tables m2 → identity_tables format hardware LIMIT (f + 1 * 4096) g user None m2.
Proof using All.
  intros RT. split; [split; [apply frame_aligned|unfold LIMIT in *; lia]|apply RT| |done].
  intros i Hi Hii. left. by rewrite (rt_rest _ RT).
Qed.

(** The interrupt controller: a leaf in the third table, and an entry that leads
    to that table. *)
Context (xg xi leaf : N).
Hypothesis Hxi : idx xi.
Hypothesis Hgx : (g ≤ xg < 512)%N.
Hypothesis Hleaf :
  e_valid format leaf = true ∧ e_block format leaf = true ∧ r_user (hw_rights hardware leaf) = false.

Definition with_xapic (m2 : gmap N N) : gmap N N :=
  <[slot (f + 1 * 4096) xg := N.lor (N.lor (N.lor (f + 2 * 4096) PRESENT) WRITABLE) USER]>
    (<[slot (f + 2 * 4096) xi := leaf]> m2).

Lemma xapic_pdpt m2 i :
  idx i → i ≠ xg → rd (with_xapic m2) (slot (f + 1 * 4096) i) = rd m2 (slot (f + 1 * 4096) i).
Proof using All.
  intros Hi Hn. unfold with_xapic.
  rewrite !rd_insert, !decide_False; [done|by apply frame_slot|unfold slot; lia].
Qed.

Lemma xapic_table m2 j :
  ram_tables m2 → idx j →
  rd (with_xapic m2) (slot (f + 2 * 4096) j) = if decide (xi = j) then leaf else 0%N.
Proof using All.
  intros RT Hj. unfold with_xapic. rewrite !rd_insert, decide_False by (apply frame_slot; unfold idx in *; lia).
  case_decide as E.
  - rewrite decide_True; [done|unfold slot in E; lia].
  - rewrite decide_False by (intros ->; done). by apply RT.
Qed.

Lemma xapic_identity m2 :
  ram_tables m2 →
  identity_tables format hardware LIMIT (f + 1 * 4096) g user (Some (xg, (f + 2 * 4096)%N)) (with_xapic m2).
Proof using All.
  intros RT. assert (f + 1 * 4096 < LIMIT ∧ f + 2 * 4096 < LIMIT)%N as [Hl1 Hl2] by (unfold LIMIT in *; lia).
  pose proof (pdpt_entry (f + 2 * 4096) (frame_aligned 2) Hl2) as Hp. cbv zeta in Hp.
  split.
  - by split; [apply frame_aligned|].
  - intros i Hi Hii. rewrite xapic_pdpt by (done || lia). by apply RT.
  - intros i Hi Hii. cbv zeta. destruct (decide (i = xg)) as [->|Hn].
    + right. exists (f + 2 * 4096)%N. unfold with_xapic. rewrite rd_insert, decide_True by done. tauto.
    + left. by rewrite xapic_pdpt, (rt_rest _ RT) by done.
  - intros i t [= <- <-]. split_and!; [lia|apply frame_aligned|done|lia|]. intros j Hj. cbv zeta.
    rewrite xapic_table by done. case_decide; [by right|by left].
Qed.

Lemma xapic_blocked m2 va :
  ram_tables m2 → (va < 2 ^ 39)%N → (g * GIB ≤ va)%N → ¬ (vpn 30 va = xg ∧ vpn 21 va = xi) →
  ¬ blocked format (f + 1 * 4096) (with_xapic m2) va.
Proof using All.
  intros RT Hva Hgv Hres Hb. pose proof (xapic_identity m2 RT) as IT.
  destruct (decide (vpn 30 va = xg)) as [E|Hn].
  - destruct Hb as [(e & He & Hval & Hbl)|(e & He & Hval & Hbl)].
    + rewrite entry_root in He. injection He as <-.
      edestruct (it_rest _ _ _ _ _ _ _ _ IT (vpn 30 va)) as [?|(t & _ & _ & ? & _)];
        [lia|apply vpn_idx|congruence..].
    + rewrite entry_table in He.
      destruct (table_at format _ (f + 1 * 4096) [vpn 30 va]) as [t|] eqn:Ht; [|done].
      eapply identity_table1 in Ht; [|exact format_spec|exact IT|apply vpn_idx]. injection Ht as _ <-.
      injection He as <-. rewrite xapic_table in Hval by (done || apply vpn_idx).
      case_decide; [by apply Hres|done].
  - eapply identity_blocked; [exact format_spec|exact IT|done|done| |done]. intros [t [=]]. congruence.
Qed.

Lemma xapic_other m2 t i :
  ram_tables m2 → (t mod 4096 = 0)%N → ¬ (f ≤ t < f + 3 * 4096)%N → idx i →
  rd (with_xapic m2) (slot t i) = rd m (slot t i).
Proof using All.
  intros RT Ht Hout Hi. unfold with_xapic.
  rewrite !rd_insert, !decide_False; [by apply RT| |];
    intros E; symmetry in E; revert E; apply outside_slot; try done; unfold idx in *; lia.
Qed.
End first_tables.

Definition xapic_leaf (xapic_base : N) : N :=
  N.lor (N.lor (N.lor (N.land xapic_base (N.lnot 2097151 64)) PRESENT) WRITABLE) HUGE_PAGE.

Lemma map_ram_identity_tables xapic_base f g user m :
  (f mod 4096 = 0)%N → (f + 3 * 4096 ≤ LIMIT)%N → (g ≤ 512)%N →
  ∃ m2, ram_tables f g user m m2 ∧
    map_ram_identity xapic_base f g user m =
      if (g <=? xapic_gib xapic_base)%N && (xapic_gib xapic_base <? 512)%N
      then with_xapic f (xapic_gib xapic_base) (xapic_index xapic_base) (xapic_leaf xapic_base) m2
      else m2.
Proof.
  intros Hf Hl Hg. unfold map_ram_identity. cbv zeta. rewrite N.min_l by done.
  eexists. split; [|reflexivity]. apply ram_tables_made; [done..|]. intros i Hi. by apply x86_ram_entry.
Qed.

#[export] Instance machine_spec xapic_base : MachineSpec (machine xapic_base).
Proof.
  split; [exact format_spec| |].
  { intros f Hf. cbn [mc_frames mc_limit mc_format mc_root machine] in *. unfold LIMIT in *.
    cbn [e_top format]. apply checked_add_lt. lia. }
  intros f g user m Hfa Hfl Hg.
  cbn [mc_init mc_format mc_hardware mc_limit mc_root mc_frames mc_reserved machine] in *.
  destruct (map_ram_identity_tables xapic_base f g user m Hfa Hfl Hg) as (m2 & RT & ->).
  change (f + 4096)%N with (f + 1 * 4096)%N.
  destruct (_ && _) eqn:Hx.
  - apply andb_prop in Hx as [Hgx Hxl]. apply N.leb_le in Hgx. apply N.ltb_lt in Hxl.
    pose proof (vpn_idx 21 xapic_base) as Hxi. pose proof (xapic_entry xapic_base) as Hleaf.
    exists (Some (xapic_gib xapic_base, (f + 2 * 4096)%N)). split_and!; [|lia|lia| | |].
    + by apply (xapic_identity f g user m).
    + intros i t [= <- <-]. lia.
    + intros va ???. by apply (xapic_blocked f g user m).
    + intros t i ???. by apply (xapic_other f g user m).
  - pose proof (ram_identity f g user m Hfa Hfl Hg m2 RT) as IT.
    exists None. split_and!; [done|lia|lia|done| |apply RT].
    intros va Hva Hgv _. eapply identity_blocked; [exact format_spec|exact IT|done|done|]. by intros [t ?].
Qed.
