(* ===== verification/Arm64Paging.v ===== *)
(** * AArch64

    The module [aarch64_paging] of [hal-arm64/src/cpu.rs]. *)

From stdpp Require Import gmap.
From S2P Require Import Prelude PageTable PageMachine.

Definition VALID : N := 1.
Definition TABLE_OR_PAGE : N := 2.
Definition ATTR_NORMAL : N := 0.
Definition AP_USER : N := 64.
Definition AP_RO : N := 128.
Definition SH_INNER : N := 768.
Definition AF : N := 1024.
Definition PXN : N := 9007199254740992.
Definition UXN : N := 18014398509481984.
Definition ADDR_MASK : N := 281474976706560.

Definition leaf_flags (perm_bits : N) : N :=
  let leaf := N.lor (N.lor (N.lor (N.lor VALID TABLE_OR_PAGE) ATTR_NORMAL) SH_INNER) AF in
  let leaf := if bit perm_bits 8 then N.lor leaf AP_USER else leaf in
  let leaf := if bit perm_bits 2 then leaf else N.lor leaf AP_RO in
  if negb (bit perm_bits 4) then N.lor leaf (N.lor UXN PXN)
  else if bit perm_bits 8 then N.lor leaf PXN
  else N.lor leaf UXN.

Definition format : PteFormat := {|
  e_top root_frame := Some root_frame;
  e_valid e := bit e VALID;
  e_block e := negb (bit e TABLE_OR_PAGE);
  e_addr e := N.land e ADDR_MASK;
  e_table t := N.lor (N.lor (N.land t ADDR_MASK) VALID) TABLE_OR_PAGE;
  e_leaf perm_bits pa := N.lor (N.land pa ADDR_MASK) (leaf_flags perm_bits);
|}.

Definition map_range := PageTable.map_range format.

Definition map_ram_identity (root_frame bytes_gib : N) (user_accessible : bool) (m : gmap N N)
    : gmap N N :=
  let m := write_entries root_frame 512 (λ _, 0%N) m in
  let leaf := N.lor (N.lor (N.lor VALID ATTR_NORMAL) SH_INNER) AF in
  let leaf := if user_accessible then N.lor leaf AP_USER else leaf in
  write_entries root_frame (N.to_nat (N.min bytes_gib 512))
    (λ gib, N.lor (N.land (N.shiftl gib 30) ADDR_MASK) leaf) m.

(** At the last level an entry with bit 1 clear is reserved. *)
Definition hardware : Hardware := {|
  hw_block _ := true;
  hw_page e := bit e TABLE_OR_PAGE;
  hw_rights e :=
    mkRights true (negb (bit e AP_RO)) (bit e AP_USER) (bit e AP_USER && negb (bit e UXN));
|}.

Definition LIMIT : N := 281474976710656.

Definition rights (perm : N) : Rights :=
  mkRights true (bit perm 2) (bit perm 8) (bit perm 4 && bit perm 8).

Lemma arm_masked t : (t mod 4096 = 0)%N → (t < LIMIT)%N → N.land t ADDR_MASK = t.
Proof. intros Ha Hl. by apply (land_aligned t 12 36). Qed.

#[export] Instance format_spec : FormatSpec format hardware LIMIT (λ _, True) rights.
Proof.
  split; [done|done| |].
  - intros t Ha Hl. cbn [e_valid e_block e_addr e_table format]. rewrite <- N.lor_assoc.
    rewrite !bit_masked, mask_masked, arm_masked by done. done.
  - intros perm pa Ha Hl _. cbn [e_valid e_addr e_leaf format hardware hw_page hw_rights].
    rewrite !bit_masked by done. rewrite mask_masked.
    2: { unfold leaf_flags. by destruct (bit perm 2), (bit perm 8), (bit perm 4). }
    rewrite arm_masked by done. unfold rights, leaf_flags.
    by destruct (bit perm 2), (bit perm 8), (bit perm 4).
Qed.

Definition machine : Machine := {|
  mc_format := format;
  mc_hardware := hardware;
  mc_limit := LIMIT;
  mc_perm_ok _ := True;
  mc_rights := rights;
  mc_frames := 1;
  mc_root f := f;
  mc_init := map_ram_identity;
  mc_reserved _ _ := False;
|}.

Lemma arm_ram_entry gib user :
  idx gib →
  let leaf := N.lor (N.lor (N.lor VALID ATTR_NORMAL) SH_INNER) AF in
  identity_leaf format hardware user
    (N.lor (N.land (N.shiftl gib 30) ADDR_MASK) (if user then N.lor leaf AP_USER else leaf)) (gib * GIB).
Proof.
  intros Hi leaf. rewrite N.shiftl_mul_pow2. change (2 ^ 30)%N with GIB.
  assert (N.land (gib * GIB) ADDR_MASK = gib * GIB)%N as E.
  { apply arm_masked; [apply gib_aligned|unfold idx in Hi; unfold GIB, LIMIT; lia]. }
  unfold identity_leaf. cbn [e_valid e_block e_addr hw_block hw_rights format hardware].
  rewrite !bit_masked by done. rewrite mask_masked by (unfold leaf; by destruct user). rewrite E.
  unfold leaf. by destruct user.
Qed.

#[export] Instance machine_spec : MachineSpec machine.
Proof.
  split; [exact format_spec|done|].
  intros f g user m Hfa Hfl Hg. cbn [mc_init mc_format mc_hardware mc_limit mc_root mc_frames machine] in *.
  exists None. unfold map_ram_identity. cbv zeta. rewrite N.min_l by done.
  set (m0 := write_entries f 512 _ m). set (m1 := write_entries f (N.to_nat g) _ m0).
  assert (identity_tables format hardware LIMIT f g user None m1) as IT.
  { split; [split; [done|unfold LIMIT in *; lia]| | |done].
    - intros i Hig Hi. unfold m1. rewrite write_entries_at by lia. by apply arm_ram_entry.
    - intros i Hig Hi. left. unfold m1. rewrite write_entries_past by lia.
      unfold m0. rewrite write_entries_at by (unfold idx in Hi; lia). done. }
  split_and!; [done|lia|lia|done| |].
  - intros va Hva Hgv _. eapply identity_blocked; [exact format_spec|exact IT|done|done|]. by intros [t ?].
  - intros t i Ht Hout Hi. unfold m1, m0. rewrite !write_entries_other; try done; lia.
Qed.
