(* ===== verification/PageRuns.v ===== *)
(** * Concrete page tables

    The theorems of [PageTable] and [PageMachine] at concrete tables of the three
    machines, and a run in which the pool of table frames is used up. *)

From stdpp Require Import gmap.
From S2P Require Import Prelude Capability Untyped AddressSpace Kernel Syscall.
From S2P Require Import PageTable PageMachine Sv39 X86Paging Arm64Paging.

(** ** Concrete tables *)

(** Root at 64 KiB, a pool of frames at 2 MiB, one gigabyte of memory. *)
Definition sample_root : N := 65536.
Definition sample_pool : N := 2097152.

Lemma sample_space M {MS : MachineSpec M} perm :
  mc_perm_ok M perm → (4294967296 ≤ mc_limit M)%N → (mc_frames M ≤ 3)%N →
  (∀ va, (3221225472 ≤ va < 3221225472 + 8192)%N → ¬ mc_reserved M 1 va) →
  (sample_root ≠ 0 ∧ sample_root mod 4096 = 0 ∧ sample_root + mc_frames M * 4096 ≤ mc_limit M ∧
   1 ≤ 512)%N ∧
  zeroed_pool (mc_limit M) sample_pool 4 ∅ ∧
  (sample_root + mc_frames M * 4096 ≤ sample_pool ∨ sample_pool + 4 * 4096 ≤ sample_root)%N ∧
  (3221225472 mod 4096 = 0 ∧ 8388608 mod 4096 = 0 ∧ 8192 mod 4096 = 0 ∧ 8192 ≠ 0)%N ∧
  (1 * GIB ≤ 3221225472 ∧ 3221225472 + 8192 ≤ 2 ^ 39 ∧ 8388608 + 8192 ≤ mc_limit M)%N ∧
  (2 * (8192 / 4096) ≤ 4 < U32_MAX)%N.
Proof.
  unfold sample_root, sample_pool. intros. split_and!; try done; try lia.
  split_and!; [done|lia|]. intros. unfold rd. by rewrite lookup_empty.
Qed.

Lemma address_space_correct_witness :
  makes_space Sv39.machine sample_root 1 false 3221225472 8388608 8192 11 sample_pool 4 ∅ ∧
  makes_space Arm64Paging.machine sample_root 1 false 3221225472 8388608 8192 11 sample_pool 4 ∅ ∧
  makes_space (X86Paging.machine 4276092928) sample_root 1 false 3221225472 8388608 8192 11 sample_pool 4 ∅.
Proof.
  split_and!.
  - assert (∀ va, (3221225472 ≤ va < 3221225472 + 8192)%N → ¬ mc_reserved Sv39.machine 1 va) as Hres
      by by intros ? _ [].
    destruct (sample_space Sv39.machine 11) as (? & ? & ? & ? & ? & ?); try done.
    apply (address_space_correct Sv39.machine sample_root 1 false 3221225472 8388608 8192 11 sample_pool 4 ∅); done.
  - assert (∀ va, (3221225472 ≤ va < 3221225472 + 8192)%N → ¬ mc_reserved Arm64Paging.machine 1 va) as Hres
      by by intros ? _ [].
    destruct (sample_space Arm64Paging.machine 11) as (? & ? & ? & ? & ? & ?); try done.
    apply (address_space_correct Arm64Paging.machine sample_root 1 false 3221225472 8388608 8192 11 sample_pool 4 ∅); done.
  - assert (∀ va, (3221225472 ≤ va < 3221225472 + 8192)%N →
      ¬ mc_reserved (X86Paging.machine 4276092928) 1 va) as Hres.
    { intros va Hva [_ Hi]. cbn [mc_reserved X86Paging.machine] in Hi.
      assert (va / 2097152 = 1536)%N as Hd by (symmetry; apply (N.div_unique _ _ _ (va - 3221225472)); lia).
      rewrite vpn_eq in Hi. change (2 ^ 21)%N with 2097152%N in Hi. by rewrite Hd in Hi. }
    destruct (sample_space (X86Paging.machine 4276092928) 11) as (? & ? & ? & ? & ? & ?); try done.
    apply (address_space_correct (X86Paging.machine 4276092928) sample_root 1 false 3221225472 8388608 8192
             11 sample_pool 4 ∅); done.
Defined.

Lemma map_range_correct_witness :
  let m := Sv39.map_ram_identity sample_root 1 false ∅ in
  let '(r, m') := Sv39.map_range sample_root 3221225472 8388608 8192 11 sample_pool 4 m in
  r = Ok 2%N ∧ walk Sv39.format Sv39.hardware m' sample_root 3221229672 =
    Some (8392808%N, e_leaf Sv39.format 11 8392704).
Proof.
  assert (zeroed_pool Sv39.LIMIT sample_pool 4 ∅) as Hz.
  { split_and!; [done..|]. intros. unfold rd. by rewrite lookup_empty. }
  destruct (init_tables Sv39.machine sample_root 1 false sample_pool 4 ∅) as [Hwf Hfresh];
    [done..|by left|].
  cbn [mc_format mc_limit mc_root mc_init Sv39.machine] in Hwf, Hfresh. cbv zeta.
  set (m := Sv39.map_ram_identity sample_root 1 false ∅) in *.
  pose proof (map_range_correct Sv39.format Sv39.hardware Sv39.LIMIT Sv39.perm_ok Sv39.rights
    sample_root sample_root sample_pool 4 m 3221225472 8388608 8192 11 eq_refl Hwf Hfresh) as H.
  specialize (H ltac:(done) ltac:(done) ltac:(done) ltac:(done)). unfold Sv39.map_range.
  destruct (PageTable.map_range Sv39.format sample_root 3221225472 8388608 8192 11 sample_pool 4 m)
    as [r m'] eqn:E.
  apply (f_equal fst) in E. vm_compute in E. subst r. split; [done|].
  destruct H as [(u & _ & _ & [(Hc & _)|(_ & _ & Hw)]) _]; [by vm_compute in Hc|].
  rewrite Hw by done. by vm_compute.
Defined.

(** ** What happens when the pool runs out

    [do_map] of the kernel passes the pool that is left and moves it only when
    [map_range] returns a number: the frame that a failed call has linked is
    still the first of the pool. *)
Definition map_twice (m : gmap N N) (va pa : N) : outcome Empty_set (N * N) * gmap N N :=
  (r1 ← Sv39.map_range sample_root va pa 4096 11 sample_pool 1;
   r2 ← Sv39.map_range sample_root (va + 4096) pa 4096 11 sample_pool 1;
   mret (r1, r2)) m.

(** Addresses in the gigabyte of the sample. *)
Lemma sample_vpn off :
  (off < MIB2)%N →
  vpn 30 (3221225472 + MIB2 + off) = 3%N ∧ vpn 21 (3221225472 + MIB2 + off) = 1%N ∧
  ((3221225472 + MIB2 + off) mod MIB2 = off)%N.
Proof.
  unfold MIB2. intros Hoff. rewrite !vpn_eq. split_and!.
  - assert ((3221225472 + 2097152 + off) / 2 ^ 30 = 3)%N as ->; [|done].
    symmetry. apply (N.div_unique _ _ _ (2097152 + off)%N); lia.
  - assert ((3221225472 + 2097152 + off) / 2 ^ 21 = 1537)%N as ->; [|done].
    symmetry. apply (N.div_unique _ _ _ off); lia.
  - symmetry. apply (N.mod_unique _ _ 1537); lia.
Qed.

Definition leak_run : outcome Empty_set (N * N) * gmap N N :=
  map_twice (Sv39.map_ram_identity sample_root 1 false ∅) 3221225472 8388608.

Lemma leak_entries :
  leak_run.1 = Ok (U32_MAX, 1%N) ∧
  rd leak_run.2 (slot sample_root 3) = e_table Sv39.format sample_pool ∧
  rd leak_run.2 (slot sample_pool 1) = e_leaf Sv39.format 11 8388608.
Proof. by vm_compute. Qed.

(** A failed [Map] can expose memory: with one frame left in the pool, a
    request for a page in an empty gigabyte fails after it has linked the frame;
    the same frame is used again by the next request, which succeeds, so that it
    is a table of two levels at once and the page that was mapped counts as a
    large leaf: two megabytes of physical memory from that page on, of which the
    process was granted 4 KiB, can be read and written by user code. *)
Theorem failed_map_exposes_memory off :
  (off < MIB2)%N →
  leak_run.1 = Ok (U32_MAX, 1%N) ∧
  ∃ e, walk Sv39.format Sv39.hardware leak_run.2 sample_root (3221225472 + MIB2 + off) =
         Some ((8388608 + off)%N, e) ∧
       hw_rights Sv39.hardware e = mkRights true true true false.
Proof.
  intros Hoff. destruct leak_entries as (Hr & Htab & Hleaf). split; [exact Hr|].
  clear Hr. revert Htab Hleaf. generalize (leak_run.2). intros m Htab Hleaf.
  destruct (sample_vpn off Hoff) as (H30 & H21 & Hmod).
  destruct (fs_table (FormatSpec := Sv39.format_spec) sample_pool) as (Hv & Hb & Ha); [done..|].
  exists (e_leaf Sv39.format 11 8388608). split; [|done]. unfold walk. rewrite H30, H21.
  assert (entry_at Sv39.format m sample_root [] 3 = Some (e_table Sv39.format sample_pool)) as ->
    by (unfold entry_at; simpl; by rewrite Htab).
  assert (table_at Sv39.format m sample_root [3%N] = Some sample_pool) as Ht.
  { change [3%N] with ([] ++ [3%N]). rewrite table_snoc. cbn [step_table table_at foldl mbind option_bind].
    by rewrite Htab, Hv, Hb, Ha. }
  assert (entry_at Sv39.format m sample_root [3%N] 1 = Some (e_leaf Sv39.format 11 8388608)) as ->
    by (by rewrite entry_table, Ht; simpl; rewrite Hleaf).
  cbn [mbind option_bind]. rewrite Hv, Hb.
  change (e_valid Sv39.format (e_leaf Sv39.format 11 8388608)) with true.
  change (e_block Sv39.format (e_leaf Sv39.format 11 8388608)) with true. cbn [negb].
  unfold leaf_at. rewrite Hmod. reflexivity.
Qed.

Lemma failed_map_exposes_memory_witness :
  ∃ e, walk Sv39.format Sv39.hardware leak_run.2 sample_root (3221225472 + MIB2 + 12345) =
         Some ((8388608 + 12345)%N, e) ∧ r_user (hw_rights Sv39.hardware e) = true.
Proof.
  destruct (failed_map_exposes_memory 12345 ltac:(done)) as (_ & e & -> & Hr).
  exists e. by rewrite Hr.
Defined.

(** In the kernel: a failed [map_range] leaves the pool as it was. *)
Lemma failed_map_keeps_pool hal as_id root vaddr paddr perms k b n :
  map_pool_remaining k = Some (b, n) →
  hal_map_range hal root vaddr paddr Untyped.PAGE_SIZE (perm_bits perms) b n = id_max →
  let '(r, k') := map_hardware hal as_id root vaddr paddr perms k in
  (∀ x, r ≠ Ok x) ∧ pool k' = pool k.
Proof.
  intros Hp Hm. unfold map_hardware. run. rewrite Hp. run. rewrite Hm. cbn [N.eqb].
  rewrite N.eqb_refl. run. unfold ignore, on_slot, zoom. run.
  destruct (tget (addr_spaces k) as_id) as [s|]; run; [|done].
  by destruct (map_err ErrMm (unmap vaddr) s) as [[] ?].
Qed.
