(* ===== verification/IdentityMap.v ===== *)
(** * The boot-time page tables

    [hal-x86_64], [hal-arm64] and [hal-riscv64], [src/memory.rs]: [map_page] and
    [setup_identity_mapping], which the hardware layer uses before the kernel runs.
    Unlike the tables of [PageTable] these lie in a static pool of sixteen frames and
    have only 4 KiB leaves.  The walk is written once over a [BootFormat]; [BootX86],
    [BootArm64] and [BootRiscv] have the three formats.

    [BootHardware] says what the machine reads in an entry: it is documented
    behaviour, not code of the repository. *)

From stdpp Require Import gmap.
From S2P Require Import Prelude Untyped Manifest PageTable PageMachine.

Definition PAGE_SIZE : N := 4096.
Definition TABLE_POOL_SIZE : N := 16.

Record MapPermissions := mkPermissions {
  readable : bool;
  writable : bool;
  executable : bool;
  device_uncached : bool;
}.

Definition KERNEL_CODE : MapPermissions := mkPermissions true false true false.
Definition KERNEL_DATA : MapPermissions := mkPermissions true true false false.
Definition KERNEL_RODATA : MapPermissions := mkPermissions true false false false.
Definition DEVICE_MMIO : MapPermissions := mkPermissions true true false true.

(** [HalError], as far as these functions return it. *)
Inductive BootMapError := InvalidMemoryRegion.

(** [PhysAddr::align_down] and [align_up]; [None]: overflow. *)
Definition align_down (a align : N) : option N :=
  m ← checked_sub align 1; Some (N.land a (u64_not m)).

Definition align_up (a align : N) : option N :=
  s ← checked_add U64 a align;
  s ← checked_sub s 1;
  m ← checked_sub align 1;
  Some (N.land s (u64_not m)).

(** The memory that holds the tables, and [TABLE_POOL_NEXT]. *)
Record BootTables := mkBootTables { bt_mem : gmap N N; bt_next : N }.

Definition write_entry (a e : N) (b : BootTables) : BootTables :=
  mkBootTables (<[a := e]> (bt_mem b)) (bt_next b).

Record BootFormat := mkBootFormat {
  bf_present : N → bool;
  bf_table : N → N;
  bf_next : N → N;
  bf_leaf : N → N → N;
  bf_flags : MapPermissions → N;
  (** The shifts of the indices above the last level. *)
  bf_shifts : list N;
}.

(** The two static objects: the top-level table and the pool. *)
Record Statics := mkStatics { st_root : N; st_pool : N }.

Section map.
Context (F : BootFormat) (st : Statics).

Abbreviation B := (M BootTables BootMapError) (only parsing).

Definition alloc_table : B N :=
  next ← gets bt_next;
  if (TABLE_POOL_SIZE <=? next)%N then throw InvalidMemoryRegion else
  _ ← modify (λ b, mkBootTables (bt_mem b) (next + 1));
  mret (st_pool st + PAGE_SIZE * next)%N.

(** The indices above the last level. *)
Definition indices (virt : N) : list N := (λ s, vpn s virt) <$> bf_shifts F.

(** [for level in 0..n] *)
Fixpoint walk_down (table_ptr : N) (path : list N) : B N :=
  match path with
  | [] => mret table_ptr
  | i :: path =>
      entry ← gets (λ b, rd (bt_mem b) (slot table_ptr i));
      entry ← (if bf_present F entry then mret entry else
               new_table ← alloc_table;
               _ ← modify (write_entry (slot table_ptr i) (bf_table F new_table));
               mret (bf_table F new_table));
      walk_down (bf_next F entry) path
  end.

Definition map_page (virt phys flags : N) : B unit :=
  table_ptr ← walk_down (st_root st) (indices virt);
  modify (write_entry (slot table_ptr (vpn 12 virt)) (bf_leaf F phys flags)).

(** [while addr < end]: [n] rounds at most. *)
Fixpoint map_while (n : nat) (addr end_ flags : N) : B unit :=
  match n with
  | 0 => mret tt
  | S n =>
      if (addr <? end_)%N then
        _ ← map_page addr addr flags;
        addr ← unwrap (checked_add U64 addr PAGE_SIZE);
        map_while n addr end_ flags
      else mret tt
  end.

Definition setup_identity_mapping (region : MemoryRegionRaw) (perms : MapPermissions) : B N :=
  if (length_bytes region =? 0)%N then throw InvalidMemoryRegion else
  let flags := bf_flags F perms in
  start ← unwrap (align_down (base_addr region) PAGE_SIZE);
  last ← unwrap (checked_add U64 (base_addr region) (length_bytes region));
  end_ ← unwrap (align_up last PAGE_SIZE);
  _ ← map_while (N.to_nat ((end_ - start) / PAGE_SIZE)) start end_ flags;
  mret start.
End map.

(** ** The hardware *)

Record BootHardware := mkBootHardware {
  bh_table : N → option N;
  bh_leaf : N → option (N * MapPermissions);
}.

Fixpoint hw_walk (H : BootHardware) (m : gmap N N) (t : N) (path : list N) (last : N) : option N :=
  match path with
  | [] => Some (rd m (slot t last))
  | i :: path => t ← bh_table H (rd m (slot t i)); hw_walk H m t path last
  end.

(** The physical address and the rights of a virtual address. *)
Definition translate (F : BootFormat) (H : BootHardware) (st : Statics) (b : BootTables) (va : N)
    : option (N * MapPermissions) :=
  '(pa, p) ← hw_walk H (bt_mem b) (st_root st) (indices F va) (vpn 12 va) ≫= bh_leaf H;
  Some ((pa + va mod 4096)%N, p).

(** What a format and its hardware promise, for aligned addresses below [limit];
    [seen p] are the rights that the hardware grants where [p] was asked for.  The
    indices determine the page below [top]. *)
Class BootFormatSpec (F : BootFormat) (H : BootHardware) (limit top : N)
    (seen : MapPermissions → MapPermissions) : Prop := {
  bs_limit : (top ≤ limit ∧ limit ≤ U64)%N;
  bs_zero : bf_present F 0 = false ∧ bh_table H 0 = None ∧ bh_leaf H 0 = None;
  bs_table t : (t mod 4096 = 0)%N → (t < limit)%N →
    bf_present F (bf_table F t) = true ∧ bf_next F (bf_table F t) = t ∧
    bh_table H (bf_table F t) = Some t;
  bs_leaf p pa : (pa mod 4096 = 0)%N → (pa < limit)%N →
    bh_leaf H (bf_leaf F pa (bf_flags F p)) = Some (pa, seen p);
  bs_shifts : Forall (λ s, 12 ≤ s)%N (bf_shifts F);
  bs_pages va va' : (va < top)%N → (va' < top)%N →
    indices F va = indices F va' → vpn 12 va = vpn 12 va' → (va / 4096 = va' / 4096)%N;
}.

Record statics_ok (limit : N) (st : Statics) : Prop := {
  so_root : (st_root st mod 4096 = 0 ∧ st_root st < limit)%N;
  so_pool : (st_pool st mod 4096 = 0 ∧ st_pool st + TABLE_POOL_SIZE * 4096 ≤ limit)%N;
  so_disjoint : (st_root st + 4096 ≤ st_pool st ∨ st_pool st + TABLE_POOL_SIZE * 4096 ≤ st_root st)%N;
}.

(** ** What the tables stand for

    [P] has the pool index of the table at each path of indices, [L] the last-level
    entry at each full path. *)

Section rep.
Context (F : BootFormat) (H : BootHardware) (limit top : N) (seen : MapPermissions → MapPermissions).
Context {BS : BootFormatSpec F H limit top seen}.
Context (st : Statics) (Hst : statics_ok limit st).

Abbreviation Paths := (gmap (list N) N) (only parsing).

Definition pool_frame (k : N) : N := (st_pool st + PAGE_SIZE * k)%N.

Definition frame (P : Paths) (p : list N) : option N :=
  match p with [] => Some (st_root st) | _ => pool_frame <$> P !! p end.

Definition depth : nat := length (bf_shifts F).

Definition stands (P L : Paths) (q : list N) : N :=
  if decide (length q ≤ depth) then from_option (bf_table F ∘ pool_frame) 0%N (P !! q)
  else default 0%N (L !! q).

Record rep (P L : Paths) (b : BootTables) : Prop := {
  rp_next : (bt_next b ≤ TABLE_POOL_SIZE)%N;
  rp_bound p k : P !! p = Some k → (k < bt_next b)%N;
  rp_inj p q k : P !! p = Some k → P !! q = Some k → p = q;
  rp_root : P !! [] = None;
  rp_parent p i : is_Some (P !! (p ++ [i])) → length p < depth ∧ is_Some (frame P p);
  rp_leaf q e : L !! q = Some e → ∃ p i, q = p ++ [i] ∧ length p = depth ∧ is_Some (frame P p);
  rp_slot p f i : frame P p = Some f → idx i → rd (bt_mem b) (slot f i) = stands P L (p ++ [i]);
  rp_free k i : (bt_next b ≤ k < TABLE_POOL_SIZE)%N → idx i → rd (bt_mem b) (slot (pool_frame k) i) = 0%N;
}.

Definition boot_ok (b : BootTables) : Prop := ∃ P L, rep P L b.

Lemma pool_frame_ok k :
  (k < TABLE_POOL_SIZE)%N → (pool_frame k mod 4096 = 0 ∧ pool_frame k < limit ∧ pool_frame k ≠ st_root st)%N.
Proof using Hst.
  intros Hk. destruct Hst as [? [Ha Hl] Hd]. unfold pool_frame, PAGE_SIZE. split_and!; [|unfold TABLE_POOL_SIZE in *; lia..].
  by rewrite N.mul_comm, N.Div0.mod_add.
Qed.

Lemma pool_frame_inj k l : pool_frame k = pool_frame l → k = l.
Proof using Type. unfold pool_frame, PAGE_SIZE. lia. Qed.

Lemma frame_Some P p k : P !! [] = None → P !! p = Some k → frame P p = Some (pool_frame k).
Proof using Type. intros Hr Hp. destruct p; [congruence|]. simpl. by rewrite Hp. Qed.

Lemma frame_inv P p f :
  frame P p = Some f → p = [] ∧ f = st_root st ∨ p ≠ [] ∧ ∃ k, P !! p = Some k ∧ f = pool_frame k.
Proof using Type. destruct p as [|i p]; simpl; [intros [= <-]; by left|]. intros (k & Hk & ->)%fmap_Some. right. eauto. Qed.

Section facts.
Context (P L : Paths) (b : BootTables) (Hrep : rep P L b).

Lemma frame_ok p f : frame P p = Some f → (f mod 4096 = 0 ∧ f < limit)%N.
Proof using Hst Hrep.
  intros [[-> ->]|(_ & k & Hk & ->)]%frame_inv; [apply Hst|].
  apply (rp_bound _ _ _ Hrep) in Hk. pose proof (rp_next _ _ _ Hrep). destruct (pool_frame_ok k); [lia|tauto].
Qed.

Lemma frame_inj p q f : frame P p = Some f → frame P q = Some f → p = q.
Proof using Hst Hrep.
  pose proof (rp_next _ _ _ Hrep) as Hn.
  intros [[-> ->]|(_ & k & Hk & ->)]%frame_inv [[-> Hf]|(_ & l & Hl & Hf)]%frame_inv; [done| | |].
  - pose proof (rp_bound _ _ _ Hrep _ _ Hl). destruct (pool_frame_ok l) as (_ & _ & ?); [lia|congruence].
  - pose proof (rp_bound _ _ _ Hrep _ _ Hk). destruct (pool_frame_ok k) as (_ & _ & ?); [lia|congruence].
  - apply pool_frame_inj in Hf as <-. by eapply rp_inj.
Qed.

(** What is below a missing table is missing. *)
Lemma frame_prefix p q : is_Some (frame P (p ++ q)) → is_Some (frame P p).
Proof using Hrep.
  induction q as [|i q IH] using rev_ind; [by rewrite app_nil_r|]. rewrite app_assoc. intros [f Hf].
  apply IH. apply frame_inv in Hf as [[Hn _]|(_ & k & Hk & _)]; [by destruct (p ++ q)|].
  apply (rp_parent _ _ _ Hrep (p ++ q) i). by exists k.
Qed.

Lemma leaf_None p : frame P p = None → ∀ i, L !! (p ++ [i]) = None.
Proof using Hrep.
  intros Hp i. destruct (L !! (p ++ [i])) as [e|] eqn:Hl; [|done].
  apply (rp_leaf _ _ _ Hrep) in Hl as (p' & i' & [-> ->]%app_inj_tail & _ & [f Hf]). congruence.
Qed.

Lemma child_None p i : frame P p = None → P !! (p ++ [i]) = None.
Proof using Hrep.
  intros Hp. destruct (P !! (p ++ [i])) as [k|] eqn:Hk; [|done].
  destruct (rp_parent _ _ _ Hrep p i ltac:(by eexists)) as [_ [f Hf]]. congruence.
Qed.

(** The hardware finds the entry of [L]. *)
Lemma hw_walk_rep p t path last :
  frame P p = Some t → length p + length path = depth → Forall idx path → idx last →
  hw_walk H (bt_mem b) t path last ≫= bh_leaf H = L !! (p ++ path ++ [last]) ≫= bh_leaf H.
Proof using Hrep Hst BS.
  destruct (bs_zero (BootFormatSpec := BS)) as (_ & Hz1 & Hz2).
  revert p t. induction path as [|i path IH]; intros p t Hp Hlen Hidx Hlast; cbn [hw_walk app].
  - rewrite (rp_slot _ _ _ Hrep p t last) by done. unfold stands. cbn [length] in Hlen.
    rewrite decide_False by (rewrite length_app; simpl; lia). simpl. by destruct (L !! _).
  - apply Forall_cons in Hidx as [Hi Hidx]. cbn [length] in Hlen.
    rewrite (rp_slot _ _ _ Hrep p t i) by done. unfold stands.
    rewrite decide_True by (rewrite length_app; simpl; lia).
    destruct (P !! (p ++ [i])) as [k|] eqn:Hk; cbn [from_option compose].
    + pose proof (frame_Some P _ _ (rp_root _ _ _ Hrep) Hk) as Hf.
      destruct (frame_ok _ _ Hf) as [Ha Hl]. destruct (bs_table (BootFormatSpec := BS) _ Ha Hl) as (_ & _ & ->).
      cbn [mbind option_bind]. rewrite (IH (p ++ [i])) by (done || (rewrite length_app; simpl; lia)).
      by rewrite <- app_assoc.
    + rewrite Hz1. cbn [mbind option_bind].
      replace (p ++ i :: path ++ [last]) with ((p ++ [i] ++ path) ++ [last]) by (by rewrite <- !app_assoc).
      rewrite leaf_None; [done|]. destruct (frame P (p ++ [i] ++ path)) eqn:Hf; [|done].
      rewrite app_assoc in Hf. destruct (frame_prefix (p ++ [i]) path ltac:(by eexists)) as [f Hf'].
      apply frame_inv in Hf' as [[Hn _]|(_ & k & ? & _)]; [by destruct p|congruence].
Qed.
End facts.

(** ** The operations *)

Lemma slot_frames P L b p q f g i j :
  rep P L b → frame P p = Some f → frame P q = Some g → idx i → idx j → slot f i = slot g j → p = q ∧ i = j.
Proof using Hst.
  intros Hrep Hf Hg Hi Hj Hs. destruct (slot_inj f g i j) as [<- <-]; try done.
  - by apply (frame_ok P L b Hrep p).
  - by apply (frame_ok P L b Hrep q).
  - split; [|done]. by eapply (frame_inj P L b Hrep).
Qed.

(** A slot of a table is not one of a frame that is still unused. *)
Lemma slot_unused P L b p f i k j :
  rep P L b → frame P p = Some f → idx i → idx j → (bt_next b ≤ k < TABLE_POOL_SIZE)%N →
  slot f i ≠ slot (pool_frame k) j.
Proof using Hst.
  intros Hrep Hf Hi Hj Hk Hs. destruct (pool_frame_ok k) as (Ha & _ & Hr); [lia|].
  destruct (slot_inj f (pool_frame k) i j) as [-> _]; try done; [by apply (frame_ok P L b Hrep p)|].
  apply frame_inv in Hf as [[-> Hf]|(_ & l & Hl & Hf)]; [by rewrite Hf in Hr|].
  apply pool_frame_inj in Hf as <-. apply (rp_bound _ _ _ Hrep) in Hl. lia.
Qed.

Lemma frame_insert P q k p :
  q ≠ [] → frame (<[q := k]> P) p = if decide (p = q) then Some (pool_frame k) else frame P p.
Proof using Type.
  intros Hq. destruct p as [|i p]; simpl.
  { rewrite decide_False; [done|]. by intros <-. }
  case_decide as Hd; [subst; by rewrite lookup_insert_eq|]. by rewrite lookup_insert_ne.
Qed.

(** Linking the next table of the pool. *)
Lemma rep_link P L b p t i :
  rep P L b → frame P p = Some t → length p < depth → idx i → P !! (p ++ [i]) = None →
  (bt_next b < TABLE_POOL_SIZE)%N →
  rep (<[p ++ [i] := bt_next b]> P) L
    (mkBootTables (<[slot t i := bf_table F (pool_frame (bt_next b))]> (bt_mem b)) (bt_next b + 1)).
Proof using Hst.
  intros Hrep Hp Hlen Hi Hnew Hk. set (k := bt_next b). set (n := p ++ [i]).
  assert (n ≠ []) as Hn by by destruct p.
  assert (∀ q, frame (<[n := k]> P) q = if decide (q = n) then Some (pool_frame k) else frame P q) as Hfr
    by (intros; by apply frame_insert).
  assert (frame P n = None) as Hfn.
  { destruct (frame P n) eqn:E; [|done]. apply frame_inv in E as [[? _]|(_ & l & Hl & _)]; [done|]. unfold n in Hl. congruence. }
  split; cbn [bt_mem bt_next].
  - lia.
  - intros q l. destruct (decide (q = n)) as [->|]; [rewrite lookup_insert_eq; intros [= <-]; lia|].
    rewrite lookup_insert_ne by done. intros Hl%(rp_bound _ _ _ Hrep). lia.
  - intros q q' l. destruct (decide (q = n)) as [->|], (decide (q' = n)) as [->|]; try done;
      rewrite ?lookup_insert_eq, ?lookup_insert_ne by done.
    + intros [= <-] Hl%(rp_bound _ _ _ Hrep). lia.
    + intros Hl%(rp_bound _ _ _ Hrep) [= <-]. lia.
    + apply (rp_inj _ _ _ Hrep).
  - rewrite lookup_insert_ne by done. apply Hrep.
  - intros q j. destruct (decide (q ++ [j] = n)) as [[-> ->]%app_inj_tail|Hne].
    + intros _. split; [done|]. rewrite Hfr. case_decide; [by eexists|by rewrite Hp].
    + rewrite lookup_insert_ne by done. intros [Hl Hq]%(rp_parent _ _ _ Hrep). split; [done|].
      rewrite Hfr. by case_decide.
  - intros q e (q' & j & -> & Hl & Hq)%(rp_leaf _ _ _ Hrep). exists q', j. split_and!; [done..|].
    rewrite Hfr. by case_decide.
  - intros q f j Hq Hj. rewrite Hfr in Hq. rewrite rd_insert. case_decide as Hd.
    + injection Hq as <-. subst q. rewrite decide_False by (by apply (slot_unused P L b p)).
      rewrite (rp_free _ _ _ Hrep) by (done || lia). unfold stands.
      rewrite lookup_insert_ne.
      2: { intros E%(f_equal (@length N)). rewrite length_app in E. simpl in E. lia. }
      rewrite (child_None P L b Hrep n j), (leaf_None P L b Hrep n) by done. by case_decide.
    + assert (stands (<[n := k]> P) L (q ++ [j]) = if decide (q ++ [j] = n)
        then bf_table F (pool_frame k) else stands P L (q ++ [j])) as ->.
      { unfold stands. destruct (decide (q ++ [j] = n)) as [->|Hne].
        - rewrite lookup_insert_eq. rewrite decide_True; [done|].
          unfold n. rewrite length_app. simpl. lia.
        - by rewrite lookup_insert_ne. }
      rewrite <- (rp_slot _ _ _ Hrep q f j) by done. case_decide as Hs; case_decide as Hs'; try done.
      * destruct Hs'. unfold n. by destruct (slot_frames P L b p q t f i j Hrep Hp Hq Hi Hj Hs) as [-> ->].
      * apply app_inj_tail in Hs' as [-> ->]. congruence.
  - intros l j Hl Hj. rewrite rd_insert, decide_False; [apply (rp_free _ _ _ Hrep); [lia|done]|].
    apply (slot_unused P L b p); done || lia.
Qed.

(** Writing an entry of the last level. *)
Lemma rep_leaf P L b p t i e :
  rep P L b → frame P p = Some t → length p = depth → idx i →
  rep P (<[p ++ [i] := e]> L) (write_entry (slot t i) e b).
Proof using Hst.
  intros Hrep Hp Hlen Hi. split; cbn [bt_mem bt_next write_entry]; try apply Hrep.
  - intros q e'. destruct (decide (q = p ++ [i])) as [->|].
    + intros _. exists p, i. split_and!; [done..|by rewrite Hp].
    + rewrite lookup_insert_ne by done. apply Hrep.
  - intros q f j Hq Hj. rewrite rd_insert.
    assert (stands P (<[p ++ [i] := e]> L) (q ++ [j]) = if decide (q ++ [j] = p ++ [i])
      then e else stands P L (q ++ [j])) as ->.
    { unfold stands. destruct (decide (q ++ [j] = p ++ [i])) as [->|Hne].
      - rewrite lookup_insert_eq. rewrite decide_False; [done|]. rewrite length_app. simpl. lia.
      - by rewrite lookup_insert_ne. }
    rewrite <- (rp_slot _ _ _ Hrep q f j) by done. case_decide as Hs; case_decide as Hs'; try done.
    + destruct Hs'. by destruct (slot_frames P L b p q t f i j Hrep Hp Hq Hi Hj Hs) as [-> ->].
    + apply app_inj_tail in Hs' as [-> ->]. congruence.
  - intros l j Hl Hj. rewrite rd_insert, decide_False; [by apply (rp_free _ _ _ Hrep)|].
    by apply (slot_unused P L b p).
Qed.

(** [n] tables were wanted: they were there, or the pool is used up. *)
Definition used_up (b : BootTables) (n : N) (b' : BootTables) : Prop :=
  bt_next b' = TABLE_POOL_SIZE ∧ (TABLE_POOL_SIZE < bt_next b + n)%N.

Lemma walk_down_spec P L b p t path :
  rep P L b → frame P p = Some t → length p + length path = depth → Forall idx path →
  match walk_down F st t path b with
  | (Ok t', b') => ∃ P', rep P' L b' ∧ frame P' (p ++ path) = Some t' ∧
      (bt_next b ≤ bt_next b' ≤ bt_next b + N.of_nat (length path))%N
  | (Err _, b') => ∃ P', rep P' L b' ∧ used_up b (N.of_nat (length path)) b'
  | (Panic, _) => False
  end.
Proof using Hst BS.
  revert P b p t. induction path as [|i path IH]; intros P b p t Hrep Hp Hlen Hidx.
  { exists P. rewrite app_nil_r. split_and!; [done..|simpl; lia|simpl; lia]. }
  apply Forall_cons in Hidx as [Hi Hidx]. cbn [length] in Hlen |- *.
  cbn [walk_down]. run. rewrite (rp_slot _ _ _ Hrep p t i) by done. unfold stands.
  rewrite decide_True by (rewrite length_app; simpl; lia).
  destruct (P !! (p ++ [i])) as [k|] eqn:Hk; cbn [from_option compose].
  - pose proof (frame_Some P _ _ (rp_root _ _ _ Hrep) Hk) as Hf.
    destruct (frame_ok P L b Hrep _ _ Hf) as [Ha Hl].
    destruct (bs_table (BootFormatSpec := BS) _ Ha Hl) as (-> & Hnx & _). run. rewrite Hnx.
    specialize (IH P b (p ++ [i]) _ Hrep Hf ltac:(rewrite length_app; simpl; lia) Hidx).
    destruct (walk_down F st _ path b) as [[t'|e|] b']; [| |done].
    + destruct IH as (P' & ? & Hf' & ?). exists P'. rewrite <- app_assoc in Hf'. split_and!; [done..|lia|lia].
    + destruct IH as (P' & ? & ? & ?). exists P'. split; [done|]. split; [done|lia].
  - destruct (bs_zero (BootFormatSpec := BS)) as (-> & _). unfold alloc_table. run.
    destruct (N.leb_spec TABLE_POOL_SIZE (bt_next b)) as [Hfull|Hfree]; run.
    { pose proof (rp_next _ _ _ Hrep). exists P. split; [done|]. split; lia. }
    pose proof (rep_link P L b p t i Hrep Hp ltac:(lia) Hi Hk Hfree) as Hrep'.
    fold (pool_frame (bt_next b)). destruct (pool_frame_ok (bt_next b) Hfree) as (Ha & Hl & _).
    destruct (bs_table (BootFormatSpec := BS) _ Ha Hl) as (_ & -> & _). unfold write_entry. cbn [bt_mem bt_next].
    assert (frame (<[p ++ [i] := bt_next b]> P) (p ++ [i]) = Some (pool_frame (bt_next b))) as Hf.
    { rewrite frame_insert by (by destruct p). by rewrite decide_True. }
    specialize (IH _ _ (p ++ [i]) _ Hrep' Hf ltac:(rewrite length_app; simpl; lia) Hidx).
    cbn [bt_next] in IH. destruct (walk_down F st _ path _) as [[t'|e|] b']; [| |done].
    + destruct IH as (P' & ? & Hf' & ?). exists P'. rewrite <- app_assoc in Hf'. split_and!; [done..|lia|lia].
    + destruct IH as (P' & ? & ? & Hc). cbn [bt_next] in Hc. exists P'. split; [done|]. split; [done|lia].
Qed.

Definition full_path (va : N) : list N := indices F va ++ [vpn 12 va].

Lemma indices_ok va : Forall idx (indices F va) ∧ length (indices F va) = depth.
Proof using Type.
  unfold indices, depth. split; [|by rewrite length_fmap]. apply Forall_fmap, Forall_true. intros. apply vpn_idx.
Qed.

Lemma boot_map_page_spec P L b virt phys flags :
  rep P L b →
  match map_page F st virt phys flags b with
  | (Ok _, b') => ∃ P', rep P' (<[full_path virt := bf_leaf F phys flags]> L) b' ∧
      (bt_next b ≤ bt_next b' ≤ bt_next b + N.of_nat depth)%N
  | (Err _, b') => ∃ P', rep P' L b' ∧ used_up b (N.of_nat depth) b'
  | (Panic, _) => False
  end.
Proof using Hst BS.
  intros Hrep. unfold map_page. run. destruct (indices_ok virt) as [Hidx Hlen].
  pose proof (walk_down_spec P L b [] (st_root st) (indices F virt) Hrep eq_refl Hlen Hidx) as Hw.
  rewrite Hlen in Hw.
  destruct (walk_down F st _ _ b) as [[t|e|] b1]; [|done|done]. run.
  destruct Hw as (P' & Hrep' & Hf & Hn). exists P'. split; [|done].
  apply (rep_leaf P' L b1 (indices F virt) t); [done..|apply vpn_idx].
Qed.

(** ** Pages *)

Lemma vpn_same_page s va va' : (12 ≤ s)%N → (va / 4096 = va' / 4096)%N → vpn s va = vpn s va'.
Proof using Type.
  intros Hs He. rewrite !vpn_eq. replace s with (12 + (s - 12))%N by lia. rewrite N.pow_add_r.
  change (2 ^ 12)%N with 4096%N. by rewrite <- !N.Div0.div_div, He.
Qed.

Lemma full_path_page va va' :
  (va < top)%N → (va' < top)%N → full_path va = full_path va' ↔ (va / 4096 = va' / 4096)%N.
Proof using BS.
  intros Hva Hva'. unfold full_path. split.
  - intros [Hi Hl]%app_inj_tail. by apply (bs_pages (BootFormatSpec := BS)).
  - intros He. f_equal.
    + apply list_fmap_ext. intros k x Hx. apply vpn_same_page; [|done].
      by apply (Forall_lookup_1 _ _ _ _ (bs_shifts (BootFormatSpec := BS)) Hx).
    + f_equal. by apply vpn_same_page.
Qed.

Lemma page_of addr va :
  (addr mod 4096 = 0)%N → (va / 4096 = addr / 4096)%N ↔ (addr ≤ va < addr + 4096)%N.
Proof using Type.
  intros Ha. pose proof (N.div_mod addr 4096 ltac:(done)) as H1. pose proof (N.div_mod va 4096 ltac:(done)) as H2.
  pose proof (N.mod_lt va 4096 ltac:(done)) as H3. rewrite Ha in H1. revert H1 H2 H3.
  generalize (va / 4096)%N (va mod 4096)%N (addr / 4096)%N. lia.
Qed.

(** ** The loop *)

Section loop.
Context (perms : MapPermissions).

Definition page_leaf (va : N) : N := bf_leaf F (va / 4096 * 4096) (bf_flags F perms).

Abbreviation inside lo hi va := (lo ≤ va < hi)%N.

Lemma map_while_spec n P L b addr end_ :
  rep P L b → (addr mod 4096 = 0)%N → (end_ = addr + 4096 * N.of_nat n)%N → (end_ ≤ top)%N → (end_ < U64)%N →
  match map_while F st n addr end_ (bf_flags F perms) b with
  | (Ok _, b') => ∃ P' L', rep P' L' b' ∧
      (∀ va, (va < top)%N → L' !! full_path va =
        if decide (inside addr end_ va) then Some (page_leaf va) else L !! full_path va)
  | (Err _, b') => ∃ P' L', rep P' L' b' ∧ used_up b (N.of_nat (depth * n)) b' ∧
      (∀ va, (va < top)%N → L' !! full_path va = L !! full_path va ∨
        inside addr end_ va ∧ L' !! full_path va = Some (page_leaf va))
  | (Panic, _) => False
  end.
Proof using Hst BS.
  revert P L b addr. induction n as [|n IH]; intros P L b addr Hrep Ha He Htop HU; cbn [map_while].
  { exists P, L. split; [done|]. intros va _. by rewrite decide_False by lia. }
  rewrite (proj2 (N.ltb_lt _ _)) by lia. run.
  pose proof (boot_map_page_spec P L b addr addr (bf_flags F perms) Hrep) as Hpg.
  destruct (map_page F st addr addr _ b) as [[u|e|] b1]; [| |done].
  2: { destruct Hpg as (P' & Hrep' & Hn & Hu). exists P', L. split_and!; [done| |by intros; left].
       split; [done|]. rewrite Nat.mul_succ_r. lia. }
  destruct Hpg as (P1 & Hrep1 & Hn1). rewrite checked_add_lt by (unfold PAGE_SIZE; lia). run.
  set (L1 := <[full_path addr := _]> L) in *.
  assert (∀ va, (va < top)%N → L1 !! full_path va =
    if decide (inside addr (addr + 4096) va) then Some (page_leaf va) else L !! full_path va) as HL1.
  { intros va Hva. unfold L1. pose proof (page_of addr va Ha) as Hpo.
    pose proof (full_path_page va addr Hva ltac:(lia)) as Hfp. case_decide as Hd.
    - apply Hpo in Hd. pose proof Hd as Hpath. apply Hfp in Hpath. rewrite Hpath, lookup_insert_eq. unfold page_leaf.
      rewrite Hd. pose proof (N.div_mod addr 4096 ltac:(done)) as H1. do 2 f_equal. lia.
    - rewrite lookup_insert_ne; [done|]. intros Hc. symmetry in Hc. tauto. }
  assert ((addr + PAGE_SIZE) mod 4096 = 0)%N as Ha' by by rewrite N.Div0.add_mod, Ha.
  specialize (IH P1 L1 b1 (addr + PAGE_SIZE)%N Hrep1 Ha' ltac:(unfold PAGE_SIZE; lia) Htop HU).
  destruct (map_while F st n _ _ _ b1) as [[[]|e|] b']; [| |done].
  - destruct IH as (P' & L' & Hrep' & HL'). exists P', L'. split; [done|]. intros va Hva.
    rewrite HL', HL1 by done. unfold PAGE_SIZE. repeat case_decide; done || lia.
  - destruct IH as (P' & L' & Hrep' & [Hn Hu] & HL'). exists P', L'. split_and!; [done| |].
    + split; [done|]. rewrite Nat.mul_succ_r. lia.
    + intros va Hva. specialize (HL' va Hva). rewrite HL1 in HL' by done. unfold PAGE_SIZE in HL'.
      case_decide; [|destruct HL' as [?|[? ?]]; [by left|right; split; [lia|done]]].
      right. split; [lia|]. by destruct HL' as [?|[? ?]].
Qed.

(** ** Translations *)

Lemma translate_rep P L b va :
  rep P L b → translate F H st b va =
    '(pa, p) ← L !! full_path va ≫= bh_leaf H; Some ((pa + va mod 4096)%N, p).
Proof using Hst BS.
  intros Hrep. unfold translate. destruct (indices_ok va) as [Hidx Hlen].
  by rewrite (hw_walk_rep P L b Hrep [] (st_root st) (indices F va) (vpn 12 va) eq_refl Hlen Hidx (vpn_idx _ _)).
Qed.

Lemma translate_same P L b P' L' b' va :
  rep P L b → rep P' L' b' → L' !! full_path va = L !! full_path va →
  translate F H st b' va = translate F H st b va.
Proof using Hst BS. intros Hrep Hrep' E. by rewrite (translate_rep P L b), (translate_rep P' L' b'), E. Qed.

Lemma translate_page P L b va :
  rep P L b → (va < top)%N → L !! full_path va = Some (page_leaf va) →
  translate F H st b va = Some (va, seen perms).
Proof using Hst BS.
  intros Hrep Hva E. destruct (bs_limit (BootFormatSpec := BS)) as [Htl _].
  rewrite (translate_rep P L b), E by done. simpl. unfold page_leaf.
  assert (va / 4096 * 4096 + va mod 4096 = va)%N as Hd.
  { pose proof (N.div_mod va 4096 ltac:(done)). lia. }
  rewrite (bs_leaf (BootFormatSpec := BS)); [simpl; by rewrite Hd|by rewrite N.Div0.mod_mul|].
  revert Hd. generalize (va / 4096)%N (va mod 4096)%N. clear -Hva Htl. lia.
Qed.
End loop.

(** ** The operation *)

(** The pages of a region. *)
Definition region_start (r : MemoryRegionRaw) : N := (base_addr r / 4096 * 4096)%N.
Definition region_end (r : MemoryRegionRaw) : N := ((base_addr r + length_bytes r + 4095) / 4096 * 4096)%N.

Lemma setup_equation (b : BootTables) (r : MemoryRegionRaw) (perms : MapPermissions) :
  (base_addr r + length_bytes r + 4096 < U64)%N → length_bytes r ≠ 0%N →
  setup_identity_mapping F st r perms b =
    (_ ← map_while F st (N.to_nat ((region_end r - region_start r) / 4096)) (region_start r)
           (region_end r) (bf_flags F perms);
     mret (region_start r)) b.
Proof using Type.
  intros Hu Hl. unfold setup_identity_mapping, region_start, region_end. rewrite (proj2 (N.eqb_neq _ _)) by done.
  unfold align_down, align_up, PAGE_SIZE, checked_sub.
  change (N.land (base_addr r) (u64_not (4096 - 1))) with (N.land (base_addr r) (u64_not (2 ^ 12 - 1))).
  rewrite (proj2 (N.leb_le 1 4096)) by done. simpl mbind.
  change (4096 - 1)%N with (2 ^ 12 - 1)%N. rewrite land_not_ones by (done || lia). run.
  rewrite checked_add_lt by lia. run. rewrite checked_add_lt by lia. simpl mbind.
  rewrite (proj2 (N.leb_le _ _)) by lia. simpl mbind.
  replace (base_addr r + length_bytes r + 4096 - 1)%N with (base_addr r + length_bytes r + 4095)%N by lia.
  change (2 ^ 12 - 1)%N with (2 ^ 12 - 1)%N. rewrite land_not_ones by (done || lia). by run.
Qed.

(** What the call does to every translation. *)
Definition maps_region (r : MemoryRegionRaw) (perms : MapPermissions) (b : BootTables)
    (res : outcome BootMapError N) (b' : BootTables) : Prop :=
  let inside va := (region_start r ≤ va < region_end r)%N in
  match res with
  | Ok v => v = region_start r ∧ length_bytes r ≠ 0%N ∧ boot_ok b' ∧
      ∀ va, (va < top)%N → translate F H st b' va =
        if decide (inside va) then Some (va, seen perms) else translate F H st b va
  | Err _ =>
      length_bytes r = 0%N ∧ b' = b ∨
      (bt_next b' = TABLE_POOL_SIZE ∧
       TABLE_POOL_SIZE < bt_next b + N.of_nat depth * ((region_end r - region_start r) / 4096))%N ∧
      boot_ok b' ∧
      ∀ va, (va < top)%N → translate F H st b' va = translate F H st b va ∨
        inside va ∧ translate F H st b' va = Some (va, seen perms)
  | Panic => False
  end.

(** What a call does, for any format. *)
Lemma setup_identity_mapping_spec b r perms :
  boot_ok b → (base_addr r + length_bytes r + 4096 < U64)%N → (region_end r ≤ top)%N →
  let '(res, b') := setup_identity_mapping F st r perms b in maps_region r perms b res b'.
Proof using Hst BS.
  intros (P & L & Hrep) Hu Htop. destruct (decide (length_bytes r = 0%N)) as [Hz|Hz].
  { unfold setup_identity_mapping. rewrite Hz. simpl. by left. }
  rewrite setup_equation by done. run.
  set (lo := region_start r) in *. set (hi := region_end r) in *.
  assert (lo ≤ hi)%N as Hle.
  { unfold lo, hi, region_start, region_end. apply N.mul_le_mono_r, N.Div0.div_le_mono. lia. }
  assert (hi = lo + 4096 * N.of_nat (N.to_nat ((hi - lo) / 4096)))%N as Hhi.
  { rewrite N2Nat.id. assert (hi - lo = ((base_addr r + length_bytes r + 4095) / 4096 - base_addr r / 4096) * 4096)%N as ->.
    { unfold hi, lo, region_end, region_start. by rewrite N.mul_sub_distr_r. }
    rewrite N.div_mul by done. unfold hi, lo, region_end, region_start in *. lia. }
  assert (hi < U64)%N as HU.
  { unfold hi, region_end. pose proof (N.Div0.mul_div_le (base_addr r + length_bytes r + 4095) 4096). lia. }
  pose proof (map_while_spec perms (N.to_nat ((hi - lo) / 4096)) P L b lo hi Hrep
    ltac:(by unfold lo, region_start; rewrite N.Div0.mod_mul) Hhi Htop HU) as Hm.
  destruct (map_while _ _ _ _ _ _ b) as [[u|e|] b']; [| |done].
  - destruct Hm as (P' & L' & Hrep' & HL). split_and!; [done..|by exists P', L'|]. intros va Hva.
    specialize (HL va Hva). fold lo hi. destruct (decide (lo ≤ va < hi)%N) as [Hd|Hd].
    + by apply (translate_page perms P' L').
    + by apply (translate_same P L b P' L').
  - destruct Hm as (P' & L' & Hrep' & [Hn Hc] & HL). right. split; [|split; [by exists P', L'|]].
    + split; [done|]. rewrite Nat2N.inj_mul, N2Nat.id in Hc. exact Hc.
    + intros va Hva. destruct (HL va Hva) as [E|[Hd E]]; [left; by apply (translate_same P L b P' L')|right].
      split; [done|]. by apply (translate_page perms P' L').
Qed.

(** The tables before the first call: all zero. *)
Lemma boot_ok_start m :
  (∀ i, idx i → rd m (slot (st_root st) i) = 0%N) →
  (∀ k i, (k < TABLE_POOL_SIZE)%N → idx i → rd m (slot (pool_frame k) i) = 0%N) →
  boot_ok (mkBootTables m 0).
Proof using Type.
  intros Hr Hp. exists ∅, ∅. split; cbn [bt_mem bt_next]; try done.
  - intros p i [k Hk]. by rewrite lookup_empty in Hk.
  - intros p f i [[-> ->]|(_ & k & Hk & _)]%frame_inv Hi; [|by rewrite lookup_empty in Hk].
    rewrite Hr by done. unfold stands. rewrite !lookup_empty. by case_decide.
  - intros k i Hk Hi. apply Hp; [lia|done].
Qed.
End rep.

(** ** Indices *)

Lemma pages_of_indices3 va va' :
  (va < 2 ^ 39)%N → (va' < 2 ^ 39)%N →
  (λ s, vpn s va) <$> [30; 21]%N = (λ s, vpn s va') <$> [30; 21]%N → vpn 12 va = vpn 12 va' →
  (va / 4096 = va' / 4096)%N.
Proof. intros Hva Hva' [= E2 E1] E0. by apply vpn_page. Qed.

Lemma pages_of_indices4 va va' :
  (va < 2 ^ 48)%N → (va' < 2 ^ 48)%N →
  (λ s, vpn s va) <$> [39; 30; 21]%N = (λ s, vpn s va') <$> [39; 30; 21]%N → vpn 12 va = vpn 12 va' →
  (va / 4096 = va' / 4096)%N.
Proof.
  assert (∀ x, (x < 2 ^ 48)%N → (x / 4096 = vpn 39 x * 134217728 + x mod 2 ^ 39 / 4096)%N) as Hd.
  { intros x Hx. rewrite vpn_eq, (N.mod_small (x / 2 ^ 39)).
    2: { by apply N.Div0.div_lt_upper_bound. }
    pose proof (N.div_mod x (2 ^ 39) ltac:(done)) as H1.
    assert (x = x mod 2 ^ 39 + (x / 2 ^ 39 * 134217728) * 4096)%N as H2 by (change (2 ^ 39)%N with (134217728 * 4096)%N in *; lia).
    rewrite H2 at 1. rewrite N.div_add by done. lia. }
  assert (∀ s x, (s + 9 ≤ 39)%N → vpn s (x mod 2 ^ 39) = vpn s x) as Hl.
  { intros s x Hs. unfold vpn. change 511%N with (N.ones 9). apply N.bits_inj. intros j.
    rewrite !N.land_spec, !N.shiftr_spec by lia. destruct (N.ltb_spec j 9) as [Hj|Hj].
    - rewrite N.mod_pow2_bits_low by lia. done.
    - by rewrite N.ones_spec_high, !andb_false_r by lia. }
  intros Hva Hva' [= E3 E2 E1] E0. rewrite (Hd va), (Hd va') by done. rewrite E3. f_equal.
  apply vpn_page; try (by apply N.mod_lt); by rewrite !Hl by lia.
Qed.
