(* ===== verification/BootX86.v ===== *)
(** * Boot-time page tables: x86-64

    The entries of [hal-x86_64/src/memory.rs], as an instance of [BootFormatSpec] for
    the hardware as it is documented: the tables above a leaf grant everything.
    The rights are those with [EFER.NXE] set. *)

From stdpp Require Import gmap.
From S2P Require Import Prelude Manifest PageTable PageMachine IdentityMap.

Definition PRESENT : N := 1.
Definition WRITABLE : N := 2.
Definition USER_ACCESSIBLE : N := 4.
Definition WRITE_THROUGH : N := 8.
Definition CACHE_DISABLE : N := 16.
Definition NO_EXECUTE : N := 9223372036854775808.
Definition ADDR_MASK : N := 4503599627366400.

Definition permissions_to_flags (p : MapPermissions) : N :=
  let flags := 0%N in
  let flags := if writable p then N.lor flags WRITABLE else flags in
  let flags := if negb (executable p) then N.lor flags NO_EXECUTE else flags in
  if device_uncached p then N.lor flags (N.lor CACHE_DISABLE WRITE_THROUGH) else flags.

Definition format : BootFormat := {|
  bf_present e := bit e PRESENT;
  bf_table t := N.lor (N.lor (N.lor t PRESENT) WRITABLE) USER_ACCESSIBLE;
  bf_next e := N.land e ADDR_MASK;
  bf_leaf phys flags := N.lor (N.lor (N.land phys ADDR_MASK) flags) PRESENT;
  bf_flags := permissions_to_flags;
  bf_shifts := [39; 30; 21]%N;
|}.

Definition map_page := IdentityMap.map_page format.
Definition setup_identity_mapping := IdentityMap.setup_identity_mapping format.

(** ** The hardware *)

Definition hardware : BootHardware := {|
  bh_table e := if bit e PRESENT && negb (bit e 128) then Some (N.land e ADDR_MASK) else None;
  bh_leaf e :=
    if bit e PRESENT then
      Some (N.land e ADDR_MASK,
            mkPermissions true (bit e WRITABLE) (negb (bit e NO_EXECUTE)) (bit e CACHE_DISABLE))
    else None;
|}.

Definition LIMIT : N := 4503599627370496.

Definition seen (p : MapPermissions) : MapPermissions :=
  mkPermissions true (writable p) (executable p) (device_uncached p).

Lemma boot_x86_masked t : (t mod 4096 = 0)%N → (t < LIMIT)%N → N.land t ADDR_MASK = t.
Proof. intros Ha Hl. by apply (land_aligned t 12 40). Qed.

#[export] Instance spec : BootFormatSpec format hardware LIMIT (2 ^ 48) seen.
Proof.
  split; [done|done| | |by repeat constructor|apply pages_of_indices4].
  - intros t Ha Hl. assert (bf_table format t = N.lor (N.land t ADDR_MASK) 7) as ->.
    { rewrite boot_x86_masked by done. cbn [bf_table format]. by rewrite <- !N.lor_assoc. }
    cbn [bf_present bf_next bh_table format hardware].
    rewrite !bit_masked, !mask_masked, boot_x86_masked by done. done.
  - intros p pa Ha Hl. cbn [bf_leaf bf_flags bh_leaf format hardware]. rewrite <- N.lor_assoc.
    rewrite !bit_masked by done. rewrite mask_masked.
    2: { unfold permissions_to_flags. by destruct p as [? [] [] []]. }
    rewrite boot_x86_masked by done. by destruct p as [? [] [] []].
Qed.
