(* ===== verification/BootArm64.v ===== *)
(** * Boot-time page tables: AArch64

    The entries of [hal-arm64/src/memory.rs], as an instance of [BootFormatSpec] for
    the hardware as it is documented: the tables above a leaf grant everything.
    Nothing sets the read-only bit. *)

From stdpp Require Import gmap.
From S2P Require Import Prelude Manifest PageTable PageMachine IdentityMap.

Definition VALID : N := 1.
Definition TABLE_OR_PAGE : N := 2.
Definition ATTR_NORMAL : N := 0.
Definition ATTR_DEVICE : N := 4.
Definition AP_RW_EL1 : N := 0.
Definition SHAREABILITY_INNER : N := 768.
Definition ACCESS_FLAG : N := 1024.
Definition PXN : N := 9007199254740992.
Definition UXN : N := 18014398509481984.
Definition ADDR_MASK : N := 281474976706560.

Definition permissions_to_flags (p : MapPermissions) : N :=
  let flags := SHAREABILITY_INNER in
  let flags := N.lor flags (if device_uncached p then ATTR_DEVICE else ATTR_NORMAL) in
  let flags := if writable p then N.lor flags AP_RW_EL1 else flags in
  if negb (executable p) then N.lor flags (N.lor PXN UXN) else flags.

Definition format : BootFormat := {|
  bf_present e := bit e VALID;
  bf_table t := N.lor (N.lor t VALID) TABLE_OR_PAGE;
  bf_next e := N.land e ADDR_MASK;
  bf_leaf phys flags :=
    N.lor (N.lor (N.lor (N.lor (N.land phys ADDR_MASK) flags) VALID) TABLE_OR_PAGE) ACCESS_FLAG;
  bf_flags := permissions_to_flags;
  bf_shifts := [39; 30; 21]%N;
|}.

Definition map_page := IdentityMap.map_page format.
Definition setup_identity_mapping := IdentityMap.setup_identity_mapping format.

(** ** The hardware *)

Definition hardware : BootHardware := {|
  bh_table e := if bit e VALID && bit e TABLE_OR_PAGE then Some (N.land e ADDR_MASK) else None;
  bh_leaf e :=
    if bit e VALID && bit e TABLE_OR_PAGE && bit e ACCESS_FLAG then
      Some (N.land e ADDR_MASK,
            mkPermissions true (negb (bit e 128)) (negb (bit e PXN)) (N.land e 28 =? 4)%N)
    else None;
|}.

Definition LIMIT : N := 281474976710656.

(** What the hardware grants for what was asked: everything is writable, since [AP_RW_EL1]
    is 0 and nothing sets the read-only bit, although [memory.rs:445] says that the default is
    read-only. *)
Definition seen (p : MapPermissions) : MapPermissions :=
  mkPermissions true true (executable p) (device_uncached p).

Lemma arm64_masked t : (t mod 4096 = 0)%N → (t < LIMIT)%N → N.land t ADDR_MASK = t.
Proof. intros Ha Hl. by apply (land_aligned t 12 36). Qed.

#[export] Instance spec : BootFormatSpec format hardware LIMIT (2 ^ 48) seen.
Proof.
  split; [done|done| | |by repeat constructor|apply pages_of_indices4].
  - intros t Ha Hl. assert (bf_table format t = N.lor (N.land t ADDR_MASK) 3) as ->.
    { rewrite arm64_masked by done. cbn [bf_table format]. by rewrite <- !N.lor_assoc. }
    cbn [bf_present bf_next bh_table format hardware].
    rewrite !bit_masked, !mask_masked, arm64_masked by done. done.
  - intros p pa Ha Hl. cbn [bf_leaf bf_flags bh_leaf format hardware]. rewrite <- !N.lor_assoc.
    rewrite !bit_masked, (land_masked _ _ _ 28) by done. rewrite mask_masked.
    2: { unfold permissions_to_flags. by destruct p as [? [] [] []]. }
    rewrite arm64_masked by done. by destruct p as [? [] [] []].
Qed.

(** Read-only regions are mapped writable. *)
Lemma rodata_is_writable : writable (seen KERNEL_RODATA) = true ∧ writable (seen KERNEL_CODE) = true.
Proof. done. Qed.
