(* ===== verification/BootRiscv.v ===== *)
(** * Boot-time page tables: RISC-V Sv39

    The entries of [hal-riscv64/src/memory.rs], as an instance of [BootFormatSpec] for
    the hardware as it is documented: the tables above a leaf grant everything.
    Cacheability is not in an entry. *)

From stdpp Require Import gmap.
From S2P Require Import Prelude Manifest PageTable PageMachine Sv39 IdentityMap.

Definition VALID : N := 1.
Definition READ : N := 2.
Definition WRITE : N := 4.
Definition EXECUTE : N := 8.
Definition ACCESSED : N := 64.
Definition DIRTY : N := 128.
Definition PPN_MASK : N := 17592186044415.

Definition permissions_to_flags (p : MapPermissions) : N :=
  let flags := READ in
  let flags := if writable p then N.lor flags WRITE else flags in
  if executable p then N.lor flags EXECUTE else flags.

(** [x << 10] and [x << 12] of a [u64] drop the high bits. *)
Definition shl (x s : N) : N := truncate U64 (N.shiftl x s).

Definition format : BootFormat := {|
  bf_present e := bit e VALID;
  bf_table t := N.lor (shl (N.shiftr t 12) 10) VALID;
  bf_next e := shl (N.land (N.shiftr e 10) PPN_MASK) 12;
  bf_leaf phys flags :=
    N.lor (N.lor (N.lor (N.lor (shl (N.shiftr phys 12) 10) flags) VALID) ACCESSED) DIRTY;
  bf_flags := permissions_to_flags;
  bf_shifts := [30; 21]%N;
|}.

(** The value that [activate_page_tables] puts into [satp], and what
    [current_page_table_phys] makes of it. *)
Definition satp_value (root_addr : N) : N := N.lor (shl 8 60) (N.shiftr root_addr 12).
Definition current_page_table_phys (satp : N) : N := shl (N.land satp PPN_MASK) 12.

Definition map_page := IdentityMap.map_page format.
Definition setup_identity_mapping := IdentityMap.setup_identity_mapping format.

(** ** The hardware *)

Definition hardware : BootHardware := {|
  bh_table e :=
    if bit e VALID && negb (bit e READ || bit e WRITE || bit e EXECUTE)
    then Some (N.land (N.shiftr e 10) PPN_MASK * 4096)%N else None;
  bh_leaf e :=
    if bit e VALID && (bit e READ || bit e EXECUTE) && bit e ACCESSED then
      Some ((N.land (N.shiftr e 10) PPN_MASK * 4096)%N,
            mkPermissions (bit e READ) (bit e WRITE && bit e DIRTY) (bit e EXECUTE) false)
    else None;
|}.

(** Cacheability is not in the entry. *)
Definition seen (p : MapPermissions) : MapPermissions :=
  mkPermissions true (writable p) (executable p) false.

Lemma shl_entry pa :
  (pa < Sv39.LIMIT)%N → shl (N.shiftr pa 12) 10 = N.shiftl (N.shiftr pa 12) 10.
Proof.
  intros Hl. unfold shl, truncate. apply N.mod_small. rewrite N.shiftl_mul_pow2, N.shiftr_div_pow2.
  assert (pa / 2 ^ 12 < 2 ^ 44)%N by (by apply N.Div0.div_lt_upper_bound).
  change (2 ^ 10)%N with 1024%N. change (2 ^ 44)%N with 17592186044416%N in *. lia.
Qed.

Lemma entry_ppn pa l :
  (pa mod 4096 = 0)%N → (pa < Sv39.LIMIT)%N → (l < 1024)%N →
  (N.land (N.shiftr (N.lor (N.shiftl (N.shiftr pa 12) 10) l) 10) PPN_MASK * 4096 = pa)%N.
Proof.
  intros Ha Hl Hf. pose proof (entry_addr pa l Ha Hl Hf) as E. cbn [e_addr Sv39.format] in E.
  rewrite <- E at 2. by rewrite (N.shiftl_mul_pow2 _ 12).
Qed.

Lemma shl_ppn x : shl (N.land x PPN_MASK) 12 = (N.land x PPN_MASK * 4096)%N.
Proof.
  unfold shl, truncate. rewrite N.shiftl_mul_pow2. apply N.mod_small.
  change PPN_MASK with (N.ones 44). rewrite N.land_ones.
  pose proof (N.mod_lt x (2 ^ 44) ltac:(done)). change (2 ^ 44)%N with 17592186044416%N in *.
  change (2 ^ 12)%N with 4096%N. lia.
Qed.

#[export] Instance spec : BootFormatSpec format hardware Sv39.LIMIT (2 ^ 39) seen.
Proof.
  split; [done|done| | |by repeat constructor|apply pages_of_indices3].
  - intros t Ha Hl. cbn [bf_present bf_table bf_next bh_table format hardware].
    rewrite shl_ppn, !shl_entry by done. unfold bit. rewrite !entry_flags by done. cbn [N.land].
    by rewrite !entry_ppn by done.
  - intros p pa Ha Hl. cbn [bf_leaf bf_flags bh_leaf format hardware]. rewrite <- !N.lor_assoc.
    rewrite shl_entry by done. set (l := N.lor (permissions_to_flags p) _).
    assert (l < 1024)%N as Hf by (unfold l; by destruct p as [? [] [] []]).
    rewrite entry_ppn by done. unfold bit. rewrite !entry_flags by done. unfold l.
    by destruct p as [? [] [] []].
Qed.

(** [current_page_table_phys] reads back what [activate_page_tables] has set. *)
Lemma satp_roundtrip root :
  (root mod 4096 = 0)%N → (root < Sv39.LIMIT)%N → current_page_table_phys (satp_value root) = root.
Proof.
  intros Ha Hl. unfold current_page_table_phys, satp_value. rewrite shl_ppn.
  rewrite N.land_lor_distr_l. change (N.land (shl 8 60) PPN_MASK) with 0%N. rewrite N.lor_0_l.
  change PPN_MASK with (N.ones 44). rewrite N.land_ones, N.shiftr_div_pow2. change (2 ^ 12)%N with 4096%N.
  rewrite N.mod_small.
  - pose proof (N.div_mod root 4096 ltac:(done)) as Hd. rewrite Ha in Hd. lia.
  - by apply N.Div0.div_lt_upper_bound.
Qed.
