(* ===== verification/BootMaps.v ===== *)
(** * The boot-time page tables of the three machines

    What [setup_identity_mapping] does on each machine, with the rights that the hardware
    then grants written out; and concrete tables. *)

From stdpp Require Import gmap.
From S2P Require Import Prelude Manifest PageTable PageMachine Sv39 IdentityMap BootX86 BootArm64 BootRiscv.

(** A region that the identity map can take in: its end leaves room for the rounding, and
    the pages are ones that the indices can name. *)
Definition region_ok (top : N) (r : MemoryRegionRaw) : Prop :=
  (base_addr r + length_bytes r + 4096 < U64 ∧ region_end r ≤ top)%N.

(** C30 [setup_identity_mapping] on the three machines, for a region that ends at least a
    page before the end of the address space and below the end of what the page tables
    can map: it does not panic.  When it succeeds, every page of the region translates to
    itself and no other translation has changed.  On x86-64 the page can be written,
    executed or is uncached exactly if that was asked for; on RISC-V likewise, except
    that an entry of Sv39 has no cacheability.  On AArch64 execution and cacheability are
    as asked for, but every page can be written, also where only reading was asked for:
    the code never sets the read-only bit.  It fails on an empty region, which changes
    nothing, or when the sixteen frames of the pool are used up, which cannot happen while
    there are enough for every page to need its own tables; pages that were mapped before
    that stay mapped, and nothing outside the region is touched. *)
Theorem identity_map_correct st b r perms :
  (statics_ok BootX86.LIMIT st → boot_ok BootX86.format st b → region_ok (2 ^ 48) r →
    let '(res, b') := BootX86.setup_identity_mapping st r perms b in
    maps_region BootX86.format BootX86.hardware (2 ^ 48)
      (λ p, mkPermissions true (writable p) (executable p) (device_uncached p)) st r perms b res b') ∧
  (statics_ok Sv39.LIMIT st → boot_ok BootRiscv.format st b → region_ok (2 ^ 39) r →
    let '(res, b') := BootRiscv.setup_identity_mapping st r perms b in
    maps_region BootRiscv.format BootRiscv.hardware (2 ^ 39)
      (λ p, mkPermissions true (writable p) (executable p) false) st r perms b res b') ∧
  (statics_ok BootArm64.LIMIT st → boot_ok BootArm64.format st b → region_ok (2 ^ 48) r →
    let '(res, b') := BootArm64.setup_identity_mapping st r perms b in
    maps_region BootArm64.format BootArm64.hardware (2 ^ 48)
      (λ p, mkPermissions true true (executable p) (device_uncached p)) st r perms b res b').
Proof.
  split; [|split]; intros Hst Hb [Hu Ht].
  - exact (setup_identity_mapping_spec _ _ _ _ BootX86.seen st Hst b r perms Hb Hu Ht).
  - exact (setup_identity_mapping_spec _ _ _ _ BootRiscv.seen st Hst b r perms Hb Hu Ht).
  - exact (setup_identity_mapping_spec _ _ _ _ BootArm64.seen st Hst b r perms Hb Hu Ht).
Qed.

(** ** Concrete tables *)

Definition sample_statics : Statics := mkStatics 1048576 2097152.
Definition no_tables : BootTables := mkBootTables ∅ 0.
Definition sample_region : MemoryRegionRaw := mkMemoryRegion 4276092944 8 Mmio false.

Lemma no_tables_ok F : boot_ok F sample_statics no_tables.
Proof. apply (boot_ok_start F); intros; unfold rd; by rewrite lookup_empty. Qed.

Lemma sample_statics_ok limit : (4294967296 ≤ limit)%N → statics_ok limit sample_statics.
Proof.
  intros Hl. split; cbn [st_root st_pool sample_statics].
  - split; [done|]. eapply N.lt_le_trans; [|exact Hl]. done.
  - split; [done|]. eapply N.le_trans; [|exact Hl]. done.
  - by left.
Qed.

Lemma sample_region_ok : region_ok (2 ^ 48) sample_region ∧ region_ok (2 ^ 39) sample_region.
Proof. split; (split; [by vm_compute|by vm_compute]). Qed.

(** A register of the interrupt controller, on each machine. *)
Lemma identity_map_correct_witness :
  let r := BootX86.setup_identity_mapping sample_statics sample_region DEVICE_MMIO no_tables in
  maps_region BootX86.format BootX86.hardware (2 ^ 48)
    (λ p, mkPermissions true (writable p) (executable p) (device_uncached p)) sample_statics sample_region DEVICE_MMIO
    no_tables r.1 r.2 ∧
  r.1 = Ok 4276092928%N ∧ bt_next r.2 = 3%N ∧
  translate BootX86.format BootX86.hardware sample_statics r.2 4276092960 =
    Some (4276092960%N, mkPermissions true true false true) ∧
  (let r := BootRiscv.setup_identity_mapping sample_statics sample_region KERNEL_CODE no_tables in
   maps_region BootRiscv.format BootRiscv.hardware (2 ^ 39)
     (λ p, mkPermissions true (writable p) (executable p) false) sample_statics sample_region KERNEL_CODE
     no_tables r.1 r.2) ∧
  (let r := BootArm64.setup_identity_mapping sample_statics sample_region KERNEL_RODATA no_tables in
   maps_region BootArm64.format BootArm64.hardware (2 ^ 48)
     (λ p, mkPermissions true true (executable p) (device_uncached p)) sample_statics sample_region KERNEL_RODATA
     no_tables r.1 r.2).
Proof.
  destruct sample_region_ok as [H48 H39].
  split_and!; [| by vm_compute | by vm_compute | by vm_compute | |].
  - pose proof (proj1 (identity_map_correct sample_statics no_tables sample_region DEVICE_MMIO)
      (sample_statics_ok BootX86.LIMIT ltac:(done)) (no_tables_ok _) H48) as H.
    destruct (BootX86.setup_identity_mapping _ _ _ _). exact H.
  - pose proof (proj1 (proj2 (identity_map_correct sample_statics no_tables sample_region KERNEL_CODE))
      (sample_statics_ok Sv39.LIMIT ltac:(done)) (no_tables_ok _) H39) as H.
    destruct (BootRiscv.setup_identity_mapping _ _ _ _). exact H.
  - pose proof (proj2 (proj2 (identity_map_correct sample_statics no_tables sample_region KERNEL_RODATA))
      (sample_statics_ok BootArm64.LIMIT ltac:(done)) (no_tables_ok _) H48) as H.
    destruct (BootArm64.setup_identity_mapping _ _ _ _). exact H.
Defined.
