(* ===== verification/Direct.v ===== *)
(** * Direct hardware access

    [hal-direct/src/lib.rs] and [ed25519.rs], with [direct.rs] of the three hardware
    layers: operations on the hardware that need a signed token.  The signature
    scheme ([ed25519_dalek]) is a parameter; so are the timer and the counters that
    an operation reads.  The state is that of the boot-time page tables. *)

From S2P Require Import Prelude PhysMem Manifest BootX86 BootMaps IdentityMap.

(** ** Tokens *)

Definition MAX_SIGNATURE_BYTES : nat := 64.

Inductive CapabilityScope :=
| MmioRegion (phys_base size : N)
| PerformanceCounter (counter_id : N)
| ThreadAffinity (core_id : N)
| ScopeNumaPolicy.

#[export] Instance CapabilityScope_eq_dec : EqDecision CapabilityScope.
Proof. solve_decision. Defined.

Record CapabilityToken := mkToken {
  subject_id : N;
  scope : CapabilityScope;
  expires_at_ns : N;
  signature : list N;
  signature_len : N;
}.

(** The constructors of [HalError] that these functions return; [MemoryError] has
    those of [setup_identity_mapping]. *)
Inductive HalError := InvalidCapabilityToken | MemoryError (e : BootMapError).

Definition new (subject : N) (s : CapabilityScope) (expires : N) : CapabilityToken :=
  mkToken subject s expires (replicate MAX_SIGNATURE_BYTES 0%N) 0.

(** [assert!] on the length; [signature_len as u8]. *)
Definition with_signature (t : CapabilityToken) (sig : list N) : outcome HalError CapabilityToken :=
  if MAX_SIGNATURE_BYTES <? length sig then Panic else
  Ok (mkToken (subject_id t) (scope t) (expires_at_ns t) (list_inserts 0 sig (signature t))
        (truncate U8 (N.of_nat (length sig)))).

Definition signature_bytes (t : CapabilityToken) : outcome HalError (list N) :=
  let n := N.to_nat (signature_len t) in
  if n <=? length (signature t) then Ok (take n (signature t)) else Panic.

Definition covers (t : CapabilityToken) (requested : CapabilityScope) : bool :=
  bool_decide (scope t = requested).

Definition is_expired (t : CapabilityToken) (now_ns : N) : bool := (expires_at_ns t <=? now_ns)%N.

(** [trait TokenVerifier] *)
Class TokenVerifier (V : Type) := verify_signature : V → CapabilityToken → outcome HalError unit.

Definition verify_token `{TokenVerifier V} (verifier : V) (token : CapabilityToken)
    (required_scope : CapabilityScope) (now_ns : N) : outcome HalError unit :=
  if negb (covers token required_scope) then Err InvalidCapabilityToken else
  if is_expired token now_ns then Err InvalidCapabilityToken else
  verify_signature verifier token.

(** ** The signed message *)

(** b"SimurghHalDirect" *)
Definition DOMAIN_TAG : list N :=
  [83; 105; 109; 117; 114; 103; 104; 72; 97; 108; 68; 105; 114; 101; 99; 116]%N.

Definition ENCODED_LEN : nat := 16 + 8 + 1 + 16 + 8.

(** The buffer [out] and the position [pos]. *)
Definition put_scope (s : CapabilityScope) (pos : nat) (out : list N) : list N * nat :=
  match s with
  | MmioRegion phys_base size =>
      let out := <[pos := 0%N]> out in
      let pos := pos + 1 in
      let out := list_inserts pos (to_le 8 phys_base) out in
      (list_inserts (pos + 8) (to_le 8 size) out, pos + 16)
  | PerformanceCounter counter_id =>
      let out := <[pos := 1%N]> out in
      let pos := pos + 1 in
      (list_inserts pos (to_le 4 counter_id) out, pos + 16)
  | ThreadAffinity core_id =>
      let out := <[pos := 2%N]> out in
      let pos := pos + 1 in
      (list_inserts pos (to_le 4 core_id) out, pos + 16)
  | ScopeNumaPolicy => (<[pos := 3%N]> out, pos + (1 + 16))
  end.

Definition encode_signed_fields (token : CapabilityToken) : list N :=
  let out := replicate ENCODED_LEN 0%N in
  let out := list_inserts 0 DOMAIN_TAG out in
  let pos := 16 in
  let out := list_inserts pos (to_le 8 (subject_id token)) out in
  let pos := pos + 8 in
  let '(out, pos) := put_scope (scope token) pos out in
  list_inserts pos (to_le 8 (expires_at_ns token)) out.

(** ** Ed25519 *)

Section ed25519.
Context {VerifyingKey : Type}.
Context (from_bytes : list N → option VerifyingKey).
Context (verify_strict : VerifyingKey → list N → list N → bool).

Definition from_public_key_bytes (bytes : list N) : outcome HalError VerifyingKey :=
  or_err (from_bytes bytes) InvalidCapabilityToken.

(** [Signature::BYTE_SIZE] *)
Definition BYTE_SIZE : N := 64.

Definition ed25519_verify_signature (key : VerifyingKey) (token : CapabilityToken) : outcome HalError unit :=
  if negb (signature_len token =? BYTE_SIZE)%N then Err InvalidCapabilityToken else
  sig ← signature_bytes token;
  if verify_strict key (encode_signed_fields token) sig then mret tt else Err InvalidCapabilityToken.
End ed25519.

(** ** The operations *)

Inductive NumaPolicy := Local | Interleaved | Preferred (node : N) | Strict (node : N).

(** The performance counters of the three machines, from what their instructions
    read. *)
Definition x86_counter (rdpmc : N → N * N) (counter : N) : option N :=
  let '(low, high) := rdpmc counter in Some (N.lor (N.shiftl high 32) low).

Definition arm64_counter (pmxevcntr : N → N) (counter : N) : option N := Some (pmxevcntr counter).

Definition riscv_counter (cycle instret : N) (counter : N) : option N :=
  match counter with
  | 0 => Some cycle
  | 2 => Some instret
  | _ => None
  end%N.

Section access.
Context `{TokenVerifier V}.

Record DirectAccess := mkAccess {
  verifier : V;
  iommu_present : bool;
  now_ns : N;
  counters : N → option N;
}.

Context (F : BootFormat) (st : Statics) (d : DirectAccess).

Abbreviation D := (M BootTables HalError) (only parsing).

Definition verified (token : CapabilityToken) (s : CapabilityScope) : D unit := λ b,
  (verify_token (verifier d) token s (now_ns d), b).

Definition map_mmio_region (token : CapabilityToken) (phys size : N) : D N :=
  _ ← verified token (MmioRegion phys size);
  map_err MemoryError
    (setup_identity_mapping F st (mkMemoryRegion phys size Mmio (iommu_present d)) DEVICE_MMIO).

Definition read_performance_counter (token : CapabilityToken) (counter : N) : D N :=
  _ ← verified token (PerformanceCounter counter);
  ok_or (counters d counter) InvalidCapabilityToken.

(** [core_id as u32] *)
Definition pin_thread_to_core (token : CapabilityToken) (core_id : N) : D unit :=
  verified token (ThreadAffinity (truncate U32 core_id)).

Definition set_numa_policy (token : CapabilityToken) (policy : NumaPolicy) : D unit :=
  verified token ScopeNumaPolicy.
End access.

(** ** Encodings *)

Definition u32 (n : N) : Prop := (n < U32)%N.
Definition u64 (n : N) : Prop := (n < U64)%N.

Definition scope_ok (s : CapabilityScope) : Prop :=
  match s with
  | MmioRegion phys_base size => u64 phys_base ∧ u64 size
  | PerformanceCounter i | ThreadAffinity i => u32 i
  | ScopeNumaPolicy => True
  end.

Record token_ok (t : CapabilityToken) : Prop := {
  tk_subject : u64 (subject_id t);
  tk_scope : scope_ok (scope t);
  tk_expires : u64 (expires_at_ns t);
  tk_signature : length (signature t) = MAX_SIGNATURE_BYTES;
}.

(** The scope as the message has it: a tag and sixteen bytes. *)
Definition scope_bytes (s : CapabilityScope) : list N :=
  match s with
  | MmioRegion phys_base size => 0%N :: to_le 8 phys_base ++ to_le 8 size
  | PerformanceCounter i => 1%N :: to_le 4 i ++ replicate 12 0%N
  | ThreadAffinity i => 2%N :: to_le 4 i ++ replicate 12 0%N
  | ScopeNumaPolicy => 3%N :: replicate 16 0%N
  end.

Lemma encode_fields t :
  encode_signed_fields t =
    DOMAIN_TAG ++ to_le 8 (subject_id t) ++ scope_bytes (scope t) ++ to_le 8 (expires_at_ns t).
Proof. destruct t as [su [| | |] ex sig n]; reflexivity. Qed.

Lemma encode_length t : length (encode_signed_fields t) = ENCODED_LEN.
Proof. by destruct t as [su [| | |] ex sig n]. Qed.

Lemma scope_bytes_length s : length (scope_bytes s) = 17.
Proof. by destruct s. Qed.

Lemma to_le_app_inj n v w k l :
  (v < 256 ^ N.of_nat n)%N → (w < 256 ^ N.of_nat n)%N → to_le n v ++ k = to_le n w ++ l → v = w ∧ k = l.
Proof.
  intros Hv Hw [He ->]%app_inj_1; [|by rewrite !to_le_length]. split; [by apply (to_le_inj n)|done].
Qed.

Lemma scope_bytes_inj s s' : scope_ok s → scope_ok s' → scope_bytes s = scope_bytes s' → s = s'.
Proof.
  destruct s as [a z|i|i|], s' as [a' z'|i'|i'|]; cbn [scope_ok scope_bytes]; intros Hs Hs' E;
    try discriminate E; try done; apply (f_equal tail) in E; cbn [tail] in E.
  - destruct Hs as [Ha Hz], Hs' as [Ha' Hz']. apply (to_le_app_inj 8) in E as [-> E]; [|done..].
    f_equal. by apply (to_le_inj 8).
  - f_equal. by apply (to_le_app_inj 4) in E as [-> _].
  - f_equal. by apply (to_le_app_inj 4) in E as [-> _].
Qed.

(** The signed message determines every field that it covers. *)
Lemma encode_inj t t' :
  token_ok t → token_ok t' → encode_signed_fields t = encode_signed_fields t' →
  subject_id t = subject_id t' ∧ scope t = scope t' ∧ expires_at_ns t = expires_at_ns t'.
Proof.
  intros [Hu Hs He _] [Hu' Hs' He' _]. rewrite !encode_fields. intros E%app_inv_head.
  apply (to_le_app_inj 8) in E as [Eu E]; [|done..].
  apply app_inj_1 in E as [Es Ee]; [|by rewrite !scope_bytes_length].
  split_and!; [done|by apply scope_bytes_inj|by apply (to_le_inj 8)].
Qed.

(** ** The gate *)

Inductive Request :=
| MapMmio (phys size : N)
| ReadCounter (counter : N)
| PinThread (core_id : N)
| SetPolicy (policy : NumaPolicy).

Definition required_scope (r : Request) : CapabilityScope :=
  match r with
  | MapMmio phys size => MmioRegion phys size
  | ReadCounter counter => PerformanceCounter counter
  | PinThread core_id => ThreadAffinity (truncate U32 core_id)
  | SetPolicy _ => ScopeNumaPolicy
  end.

Section gate.
Context {VerifyingKey : Type} (verify_strict : VerifyingKey → list N → list N → bool).

#[local] Instance ed25519 : TokenVerifier VerifyingKey := ed25519_verify_signature verify_strict.

Context (F : BootFormat) (st : Statics) (d : DirectAccess (V := VerifyingKey)).

Abbreviation D := (M BootTables HalError) (only parsing).

Definition perform (t : CapabilityToken) (r : Request) : D (option N) :=
  match r with
  | MapMmio phys size => v ← map_mmio_region F st d t phys size; mret (Some v)
  | ReadCounter counter => v ← read_performance_counter d t counter; mret (Some v)
  | PinThread core_id => _ ← pin_thread_to_core d t core_id; mret None
  | SetPolicy policy => _ ← set_numa_policy d t policy; mret None
  end.

(** What is done behind the gate. *)
Definition action (r : Request) : D (option N) :=
  match r with
  | MapMmio phys size =>
      v ← map_err MemoryError
            (setup_identity_mapping F st (mkMemoryRegion phys size Mmio (iommu_present d)) DEVICE_MMIO);
      mret (Some v)
  | ReadCounter counter => v ← ok_or (counters d counter) InvalidCapabilityToken; mret (Some v)
  | PinThread _ | SetPolicy _ => mret None
  end.

(** A token that the checks accept. *)
Definition authorised (t : CapabilityToken) (s : CapabilityScope) : Prop :=
  scope t = s ∧ (now_ns d < expires_at_ns t)%N ∧ signature_len t = BYTE_SIZE ∧
  verify_strict (verifier d) (encode_signed_fields t) (signature t) = true.

Lemma verified_spec t s b :
  token_ok t →
  authorised t s ∧ verified d t s b = (Ok tt, b) ∨
  ¬ authorised t s ∧ verified d t s b = (Err InvalidCapabilityToken, b).
Proof.
  intros Ht. unfold verified, verify_token, covers, is_expired, authorised.
  case_bool_decide as Hs; simpl; [|right; split; [tauto|done]].
  destruct (N.leb_spec (expires_at_ns t) (now_ns d)); [right; split; [lia|done]|].
  unfold verify_signature, ed25519, ed25519_verify_signature.
  destruct (N.eqb_spec (signature_len t) BYTE_SIZE) as [Hl|]; simpl; [|right; split; [tauto|done]].
  unfold signature_bytes. rewrite Hl, (tk_signature _ Ht). simpl.
  change (Pos.to_nat 64) with (N.to_nat 64). rewrite take_ge by (by rewrite (tk_signature _ Ht)).
  destruct (verify_strict _ _ _); [by left|right; split; [naive_solver|done]].
Qed.

Lemma perform_spec t r b :
  token_ok t →
  authorised t (required_scope r) ∧ perform t r b = action r b ∨
  ¬ authorised t (required_scope r) ∧ perform t r b = (Err InvalidCapabilityToken, b).
Proof.
  intros Ht. destruct (verified_spec t (required_scope r) b Ht) as [[Ha Hv]|[Ha Hv]]; [left|right]; (split; [done|]);
    destruct r; cbn [required_scope] in Hv;
    unfold perform, action, map_mmio_region, read_performance_counter, pin_thread_to_core, set_numa_policy;
    rewrite !run_bind, Hv; done.
Qed.

(** ** The broker

    [minted] are the tokens that the security broker has signed.  The signature scheme
    is unforgeable: what verifies was signed. *)

Context (minted : CapabilityToken → Prop).
Hypothesis minted_ok : ∀ t, minted t → token_ok t.
Hypothesis unforgeable : ∀ msg sig,
  verify_strict (verifier d) msg sig = true → ∃ t, minted t ∧ msg = encode_signed_fields t.

(** The broker has issued a token for this subject and exactly this scope, that is
    still valid. *)
Definition granted (t : CapabilityToken) (s : CapabilityScope) : Prop :=
  ∃ t', minted t' ∧ subject_id t' = subject_id t ∧ scope t' = s ∧
    expires_at_ns t' = expires_at_ns t ∧ (now_ns d < expires_at_ns t')%N.

Lemma authorised_granted t s : token_ok t → authorised t s → granted t s.
Proof using minted_ok unforgeable.
  intros Ht (<- & He & _ & Hv). destruct (unforgeable _ _ Hv) as (t' & Hm & E).
  destruct (encode_inj t t' Ht (minted_ok _ Hm) E) as (E1 & E2 & E3).
  exists t'. split_and!; [done..|congruence].
Qed.

(** C16 No operation on the hardware happens without a grant.  If the signature scheme
    is unforgeable, then whatever token is presented, either the broker has minted a
    token for the same subject, with the same expiry, which has not passed, and with
    exactly the scope of the request, and the request is carried out; or the answer
    is [InvalidCapabilityToken] and nothing has changed.  A token that passes the
    checks is always served, and the checks never panic. *)
Theorem direct_access_needs_grant t r b :
  token_ok t →
  granted t (required_scope r) ∧ perform t r b = action r b ∨
  ¬ authorised t (required_scope r) ∧ perform t r b = (Err InvalidCapabilityToken, b).
Proof using minted_ok unforgeable.
  intros Ht. destruct (perform_spec t r b Ht) as [[Ha E]|[Ha E]]; [left|by right].
  split; [by apply authorised_granted|done].
Qed.

Context (H : BootHardware) (limit top : N) (seen : MapPermissions → MapPermissions).
Context {BS : BootFormatSpec F H limit top seen} (Hst : statics_ok limit st).

(** Mapping the registers of a device: when it succeeds, the broker has granted exactly
    this region; the pages of the region, and no others, now translate to
    themselves, writable and never executable, as device memory where the machine
    has such a notion; the result is the start of the first page.  When it fails
    without a grant, nothing has changed; when it fails with one, nothing outside
    the region has. *)
Theorem mmio_grant_maps_region t phys size b :
  token_ok t → boot_ok F st b → (phys + size + 4096 < U64)%N →
  let region := mkMemoryRegion phys size Mmio (iommu_present d) in
  let inside va := (region_start region ≤ va < region_end region)%N in
  (region_end region ≤ top)%N →
  match map_mmio_region F st d t phys size b with
  | (Ok v, b') =>
      granted t (MmioRegion phys size) ∧ v = region_start region ∧ boot_ok F st b' ∧
      ∀ va, (va < top)%N → translate F H st b' va =
        if decide (inside va) then Some (va, seen DEVICE_MMIO) else translate F H st b va
  | (Err InvalidCapabilityToken, b') => b' = b
  | (Err (MemoryError _), b') =>
      granted t (MmioRegion phys size) ∧ boot_ok F st b' ∧
      ∀ va, (va < top)%N → ¬ inside va → translate F H st b' va = translate F H st b va
  | (Panic, _) => False
  end.
Proof using minted_ok unforgeable BS Hst.
  intros Ht Hb Hu region inside Htop. unfold map_mmio_region. run.
  destruct (verified_spec t (MmioRegion phys size) b Ht) as [[Ha ->]|[_ ->]]; [|done].
  apply authorised_granted in Ha; [|done]. fold region. unfold map_err.
  pose proof (setup_identity_mapping_spec F H limit top seen st Hst b region DEVICE_MMIO Hb Hu Htop) as Hm.
  destruct (setup_identity_mapping _ _ _ _ _) as [[v|e|] b']; cbn [maps_region] in Hm; [| |done].
  - destruct Hm as (-> & _ & Hb' & Htr). done.
  - split; [done|]. destruct Hm as [[_ ->]|(_ & Hb' & Htr)]; [done|]. split; [done|]. intros va Hva Hn.
    by destruct (Htr va Hva) as [?|[? _]].
Qed.
End gate.

(** Only the low 32 bits of a core number are checked. *)
Lemma pin_truncates core :
  required_scope (PinThread (core + U32)) = required_scope (PinThread core).
Proof.
  cbn [required_scope]. unfold truncate. f_equal.
  by rewrite <- (N.mul_1_l U32) at 1; rewrite N.Div0.mod_add.
Qed.

(** ** A sample broker: one token, one signature *)

Definition sample_token : CapabilityToken :=
  mkToken 7 (MmioRegion 4276092944 8) 2000 (replicate 64 170%N) 64.

Definition sample_verify (key : unit) (msg sig : list N) : bool :=
  bool_decide (msg = encode_signed_fields sample_token) && bool_decide (sig = signature sample_token).

Definition sample_access : DirectAccess (V := unit) := mkAccess tt false 1000 (arm64_counter (λ c, c)).

Lemma sample_token_ok : token_ok sample_token.
Proof. split; done. Qed.

Lemma sample_unforgeable msg sig :
  sample_verify tt msg sig = true → ∃ t, t = sample_token ∧ msg = encode_signed_fields t.
Proof. unfold sample_verify. intros [E _]%andb_true_iff. apply bool_decide_eq_true_1 in E. by exists sample_token. Qed.

Lemma sample_minted_ok t : t = sample_token → token_ok t.
Proof. intros ->. exact sample_token_ok. Qed.

Lemma direct_access_needs_grant_witness :
  let F := BootX86.format in
  let m t := direct_access_needs_grant sample_verify F sample_statics sample_access (λ t, t = sample_token)
               sample_minted_ok sample_unforgeable t in
  let stolen := mkToken 7 (MmioRegion 4276092944 16) 2000 (replicate 64 170%N) 64 in
  (perform sample_verify F sample_statics sample_access sample_token (MapMmio 4276092944 8) no_tables).1 =
    Ok (Some 4276092928%N) ∧
  perform sample_verify F sample_statics sample_access stolen (MapMmio 4276092944 16) no_tables =
    (Err InvalidCapabilityToken, no_tables) ∧
  granted sample_access (λ t, t = sample_token) sample_token (MmioRegion 4276092944 8).
Proof.
  intros F m stolen. split; [by vm_compute|]. split; [by vm_compute|].
  destruct (m sample_token (MapMmio 4276092944 8) no_tables sample_token_ok) as [[Hg _]|[Hn _]]; [exact Hg|].
  destruct Hn. split_and!; by vm_compute.
Defined.

Lemma mmio_grant_maps_region_witness :
  let F := BootX86.format in
  let r := map_mmio_region (H := ed25519 sample_verify) F sample_statics sample_access
             sample_token 4276092944 8 no_tables in
  r.1 = Ok 4276092928%N ∧
  translate F BootX86.hardware sample_statics r.2 4276092952 =
    Some (4276092952%N, mkPermissions true true false true) ∧
  granted sample_access (λ t, t = sample_token) sample_token (MmioRegion 4276092944 8).
Proof.
  intros F r. assert (r.1 = Ok 4276092928%N) as Hr by by vm_compute.
  assert (region_end (mkMemoryRegion 4276092944 8 Mmio false) ≤ 2 ^ 48)%N as Ht by (vm_compute; discriminate).
  assert (4276092944 + 8 + 4096 < U64)%N as Hu by done.
  pose proof (mmio_grant_maps_region sample_verify F sample_statics sample_access (λ t, t = sample_token)
    sample_minted_ok sample_unforgeable BootX86.hardware BootX86.LIMIT (2 ^ 48) BootX86.seen
    (sample_statics_ok BootX86.LIMIT ltac:(done)) sample_token 4276092944 8 no_tables sample_token_ok
    (no_tables_ok F) Hu Ht) as Hm.
  fold r in Hm. rewrite (run_pair r _ Hr) in Hm. destruct Hm as (Hg & _ & _ & Htr).
  split; [exact Hr|]. split; [|exact Hg]. rewrite Htr by done. by vm_compute.
Defined.
