(* ===== verification/Bootloader.v ===== *)
(** * The boot loader

    [uefi-bootloader/src/main.rs]: loading the kernel's image, writing the hand-off
    block, leaving the firmware.  The firmware is a parameter: [Uefi] has the boot
    services that the loader calls, [UefiSpec] what the UEFI specification says of
    them.  Printing is left out. *)

From S2P Require Import Prelude PhysMem Elf.

(** [AllocateType] *)
Inductive AllocateType := AnyPages | Address (a : N).

(** A memory map: [meta().map_size], [meta().desc_size] and [buffer()]. *)
Record MemoryMapOwned := mkMap { mm_map_size : N; mm_desc_size : N; mm_buffer : list N }.

(** The services, over a state of the firmware; [None]: an error status.  Memory is
    that of the machine: the services write their own. *)
Class UefiServices (W : Type) := {
  allocate_pages : AllocateType → N → W → option N * W;
  memory_map : W → option MemoryMapOwned * W;
  (** [with_config_table]: the identifiers and addresses, which do not change. *)
  config_table : list (N * N);
  exit_boot_services : W → W;
  ACPI2_GUID : N;
}.

(** The errors of [load_kernel_segments] and [build_handoff_block]. *)
Inductive LoadError := BadKernelHeader | SegmentAllocation | BlockAllocation.

Record BootState (W : Type) := mkBoot { bo_uefi : W; bo_mem : N → N }.
Arguments mkBoot {W}. Arguments bo_uefi {W}. Arguments bo_mem {W}.

Definition HANDOFF_BUFFER_PAGES : N := 4.
Definition HEADER_SIZE : N := 16.

Section loader.
Context {W : Type} `{UefiServices W}.

Abbreviation B E := (M (BootState W) E) (only parsing).

Definition call {E A} (f : W → A * W) : B E A := λ b,
  let '(r, w) := f (bo_uefi b) in (Ok r, mkBoot w (bo_mem b)).

Definition write {E} (f : (N → N) → N → N) : B E unit := modify (λ b, mkBoot (bo_uefi b) (f (bo_mem b))).

(** ** The kernel's image *)

(** The body of the loop; the result is [total_loaded_bytes]. *)
Definition load_one (elf_data : list N) (total : N) (segment : LoadSegment) : B LoadError N :=
  s ← unwrap (checked_add U64 (mem_size segment) 4095);
  let page_count := (s / 4096)%N in
  allocated ← call (allocate_pages (Address (paddr segment)) page_count);
  allocated_ptr ← ok_or allocated SegmentAllocation;
  src_end ← unwrap (checked_add U64 (file_offset segment) (file_size segment));
  if (mem_size segment <? file_size segment)%N || (N.of_nat (length elf_data) <? src_end)%N then panic else
  let bytes := take (N.to_nat (file_size segment)) (drop (N.to_nat (file_offset segment)) elf_data) in
  _ ← write (write_copy allocated_ptr bytes);
  total ← unwrap (checked_add U64 total (file_size segment));
  let zero_fill_size := (mem_size segment - file_size segment)%N in
  _ ← (if (0 <? zero_fill_size)%N
       then write (write_zeros (allocated_ptr + file_size segment) zero_fill_size) else mret tt);
  mret total.

(** [for segment in segments] *)
Fixpoint load_all (elf_data : list N) (total : N) (it : Segments) (range : list N) : B LoadError unit :=
  match range with
  | [] => mret tt
  | i :: range =>
      segment ← (λ b, (segment_at it i, b));
      match segment with
      | None => load_all elf_data total it range
      | Some segment => total ← load_one elf_data total segment; load_all elf_data total it range
      end
  end.

Definition load_kernel_segments (elf_data : list N) (machine : N) : B LoadError N :=
  match parse_and_collect_load_segments elf_data machine with
  | Panic => panic
  | Err _ => throw BadKernelHeader
  | Ok (entry, segments) => _ ← load_all elf_data 0 segments (sg_range segments); mret entry
  end.

(** ** The hand-off block *)

Definition locate_acpi_rsdp : N :=
  match List.find (λ e, (e.1 =? ACPI2_GUID)%N) config_table with Some e => e.2 | None => 0%N end.

Definition build_handoff_block : B LoadError N :=
  allocated ← call (allocate_pages AnyPages HANDOFF_BUFFER_PAGES);
  addr ← ok_or allocated BlockAllocation;
  _ ← write (write_zeros addr (HANDOFF_BUFFER_PAGES * 4096));
  mret addr.

(** [memory_map(..)], or a panic. *)
Definition snapshot {E} : B E MemoryMapOwned := m ← call memory_map; unwrap m.

(** [desc_size * (map_size / desc_size)] *)
Definition map_bytes {E} (m : MemoryMapOwned) : B E N :=
  if (mm_desc_size m =? 0)%N then panic else
  unwrap (checked_mul U64 (mm_desc_size m) (mm_map_size m / mm_desc_size m)).

(** The block, with the final map. *)
Definition write_block {E} (base : N) (m : MemoryMapOwned) (final_map_bytes rsdp_addr : N) : B E unit :=
  _ ← write (λ mem, wr mem base 8 final_map_bytes);
  _ ← write (λ mem, wr mem (base + 8) 8 (mm_desc_size m));
  if (N.of_nat (length (mm_buffer m)) <? final_map_bytes)%N then panic else
  _ ← write (write_copy (base + HEADER_SIZE) (take (N.to_nat final_map_bytes) (mm_buffer m)));
  rsdp_offset ← unwrap (checked_add U64 HEADER_SIZE final_map_bytes);
  write (λ mem, wr mem (base + rsdp_offset) 8 rsdp_addr).

(** The registers with which the kernel is entered. *)
Record Jump := mkJump { j_entry : N; j_handoff : N; j_rsdp : N }.

Definition exit_boot_services_and_jump {E} (handoff_block_addr rsdp_addr entry_point : N) : B E Jump :=
  mmap ← snapshot;
  map_bytes_needed ← map_bytes mmap;
  n ← unwrap (checked_add U64 HEADER_SIZE map_bytes_needed);
  total_needed ← unwrap (checked_add U64 n 8);
  if (HANDOFF_BUFFER_PAGES * 4096 <? total_needed)%N then panic else
  final_mmap ← snapshot;
  final_map_bytes ← map_bytes final_mmap;
  _ ← write_block handoff_block_addr final_mmap final_map_bytes rsdp_addr;
  _ ← call (λ w, (tt, exit_boot_services w));
  mret (mkJump entry_point handoff_block_addr rsdp_addr).

(** An error of a stage is a panic. *)
Definition or_stop {E A} (m : B LoadError A) : B E A := λ b,
  match m b with
  | (Ok a, b) => (Ok a, b)
  | (_, b) => (Panic, b)
  end.

Definition efi_main {E} (KERNEL_ELF : list N) (KERNEL_ELF_MACHINE : N) : B E Jump :=
  entry_point ← or_stop (load_kernel_segments KERNEL_ELF KERNEL_ELF_MACHINE);
  let rsdp_addr := locate_acpi_rsdp in
  handoff_block_addr ← or_stop build_handoff_block;
  mmap ← snapshot;
  _ ← (if (mm_desc_size mmap =? 0)%N then panic else mret tt);
  exit_boot_services_and_jump handoff_block_addr rsdp_addr entry_point.
End loader.
