(* ===== verification/Handoff.v ===== *)
(** * From the boot loader to the hardware layer

    What [Bootloader.efi_main] leaves in memory when it jumps: the kernel's image at
    its physical addresses, and a hand-off block from which the parser of [Uefi]
    recovers the memory map that the firmware has reported and the address of the
    ACPI tables. *)

From S2P Require Import Prelude PhysMem Manifest Elf Uefi Bootloader.

(** What the UEFI specification says of the services: pages are given out once, at the
    address that was asked for; a memory map consists of whole bytes, and its
    descriptors have at least the fields of the first version.  [owned] are the bytes
    that someone has allocated. *)
Class UefiSpec (W : Type) `{UefiServices W} (owned : W → N → Prop) : Prop := {
  us_alloc ty n w :
    match allocate_pages ty n w with
    | (Some p, w') =>
        (∀ a, p ≤ a < p + n * 4096 → ¬ owned w a)%N ∧
        (∀ a, owned w' a ↔ owned w a ∨ p ≤ a < p + n * 4096)%N ∧
        (p + n * 4096 < U64)%N ∧ match ty with Address a => p = a | AnyPages => True end
    | (None, w') => ∀ a, owned w' a ↔ owned w a
    end;
  us_map w :
    match memory_map w with
    | (Some m, w') =>
        (∀ a, owned w a → owned w' a) ∧ Forall (λ x, x < 256)%N (mm_buffer m) ∧
        (mm_map_size m ≤ N.of_nat (length (mm_buffer m)) < U64 - 24)%N ∧ (40 ≤ mm_desc_size m < U64)%N
    | (None, w') => ∀ a, owned w a → owned w' a
    end;
  us_config e : e ∈ config_table → (e.2 < U64)%N;
}.

(** ** The image *)

Section image.
Context {W : Type} `{UefiSpec W owned}.

Abbreviation B := (M (BootState W) LoadError) (only parsing).

(** Requests of pages, one after the other; [None]: one of them is refused. *)
Fixpoint granted (requests : list (AllocateType * N)) (w : W) : option W :=
  match requests with
  | [] => Some w
  | (ty, n) :: requests =>
      match allocate_pages ty n w with
      | (Some _, w') => granted requests w'
      | (None, _) => None
      end
  end.

(** The pages of a segment, at its physical address. *)
Definition segment_request (seg : LoadSegment) : AllocateType * N :=
  (Address (paddr seg), ((mem_size seg + 4095) / 4096)%N).

Lemma granted_cons r rs w :
  granted (r :: rs) w = match granted [r] w with Some w' => granted rs w' | None => None end.
Proof. destruct r as [ty n]. cbn [granted]. by destruct (allocate_pages ty n w) as [[p|] w']. Qed.

Lemma granted_app rs rs' w :
  granted (rs ++ rs') w = match granted rs w with Some w' => granted rs' w' | None => None end.
Proof.
  revert w. induction rs as [|[ty n] rs IH]; intros w; [done|]. cbn [app granted].
  by destruct (allocate_pages ty n w) as [[p|] w'].
Qed.

(** Byte [a] of a segment in memory. *)
Definition segment_byte (data : list N) (seg : LoadSegment) (a : N) : N :=
  if (a <? file_size seg)%N then default 0%N (data !! N.to_nat (file_offset seg + a)) else 0%N.

Definition resident (data : list N) (b : BootState W) (seg : LoadSegment) : Prop :=
  ∀ a, (a < mem_size seg)%N →
    owned (bo_uefi b) (paddr seg + a) ∧ bo_mem b (paddr seg + a)%N = segment_byte data seg a.

(** The file has the bytes, and nothing overflows. *)
Definition segment_fits (data : list N) (seg : LoadSegment) : Prop :=
  (file_size seg ≤ mem_size seg ∧ mem_size seg + 4095 < U64 ∧
   file_offset seg + file_size seg ≤ N.of_nat (length data))%N.

(** What is allocated stays allocated, and is not written. *)
Definition undisturbed (b b' : BootState W) : Prop :=
  ∀ a, owned (bo_uefi b) a → owned (bo_uefi b') a ∧ bo_mem b' a = bo_mem b a.

Lemma undisturbed_refl b : undisturbed b b.
Proof. done. Qed.

Lemma undisturbed_trans b1 b2 b3 : undisturbed b1 b2 → undisturbed b2 b3 → undisturbed b1 b3.
Proof. intros H1 H2 a Ha. destruct (H1 a Ha) as [Ha' <-]. by apply H2. Qed.

Lemma resident_undisturbed data b b' seg : undisturbed b b' → resident data b seg → resident data b' seg.
Proof. intros Hu Hr a Ha. destruct (Hr a Ha) as [Ho <-]. by apply Hu. Qed.

(** Copying the bytes of the file and filling up with zeros. *)
Lemma segment_written data seg m a :
  segment_fits data seg → (a < mem_size seg)%N →
  write_zeros (paddr seg + file_size seg) (mem_size seg - file_size seg)
    (write_copy (paddr seg) (take (N.to_nat (file_size seg)) (drop (N.to_nat (file_offset seg)) data)) m)
    (paddr seg + a)%N = segment_byte data seg a.
Proof.
  intros (Hf & _ & Hl) Ha. rewrite write_zeros_at. unfold segment_byte.
  destruct (N.ltb_spec a (file_size seg)) as [Hlt|Hge]; [|by rewrite decide_True by lia].
  rewrite decide_False by lia.
  destruct (data !! N.to_nat (file_offset seg + a)) as [x|] eqn:Hx.
  2: { apply lookup_ge_None in Hx. lia. }
  rewrite <- (N2Nat.id a) at 1. apply write_copy_in. rewrite lookup_take_lt, lookup_drop by lia.
  etrans; [|exact Hx]. f_equal. lia.
Qed.

Lemma load_one_spec data total seg b :
  segment_fits data seg → (total + file_size seg < U64)%N → (N.of_nat (length data) < U64)%N →
  wp (load_one data total seg : B N)
     (λ r b', undisturbed b b' ∧
        match r with
        | Ok total' => total' = (total + file_size seg)%N ∧ resident data b' seg ∧
            granted [segment_request seg] (bo_uefi b) = Some (bo_uefi b')
        | Err _ => granted [segment_request seg] (bo_uefi b) = None
        | Panic => False
        end) b.
Proof.
  intros Hfit Ht Hlen. pose proof Hfit as (Hf & Hm & Hl). unfold load_one, wp. run.
  rewrite checked_add_lt by done. run.
  unfold granted, segment_request. set (n := ((mem_size seg + 4095) / 4096)%N). unfold call. run.
  pose proof (us_alloc (Address (paddr seg)) n (bo_uefi b)) as Ha.
  destruct (allocate_pages (Address (paddr seg)) n (bo_uefi b)) as [[p|] w'] eqn:Ealloc; run; simpl.
  2: { split; [|done]. intros a Ho. split; [by apply Ha|done]. }
  destruct Ha as (Hfree & Hown & H64 & ->). rewrite checked_add_lt by lia. run.
  rewrite (proj2 (N.ltb_ge (mem_size seg) _)), (proj2 (N.ltb_ge (N.of_nat (length data)) _)) by done.
  cbn [orb]. unfold write. run. rewrite checked_add_lt by done. run. cbn [bo_uefi bo_mem].
  set (m' := write_copy _ _ _).
  assert (mem_size seg ≤ n * 4096)%N as Hn by apply page_round_up.
  assert ((if (0 <? mem_size seg - file_size seg)%N
           then modify (λ b0, mkBoot (bo_uefi b0) (write_zeros (paddr seg + file_size seg)
                  (mem_size seg - file_size seg) (bo_mem b0)))
           else mret tt : B unit) (mkBoot w' m') =
    (Ok tt, mkBoot w' (if (0 <? mem_size seg - file_size seg)%N
       then write_zeros (paddr seg + file_size seg) (mem_size seg - file_size seg) m' else m'))) as ->
    by by destruct (_ <? _)%N.
  simpl. set (m2 := if (_ <? _)%N then _ else _).
  assert (∀ a, m2 a = write_zeros (paddr seg + file_size seg) (mem_size seg - file_size seg) m' a) as Hm2.
  { intros a. unfold m2. destruct (N.ltb_spec 0 (mem_size seg - file_size seg)); [done|].
    rewrite write_zeros_at, decide_False by lia. done. }
  split; [|split; [done|split; [|done]]].
  - intros a Ho. cbn [bo_uefi bo_mem]. split; [apply Hown; by left|]. rewrite Hm2, write_zeros_at.
    assert (¬ (paddr seg ≤ a < paddr seg + n * 4096)%N) as Hn' by (intros Hr; by apply (Hfree a Hr)).
    rewrite decide_False by lia. apply write_copy_out. rewrite length_take, length_drop. lia.
  - intros a Ha. cbn [bo_uefi bo_mem]. split; [apply Hown; right; lia|]. rewrite Hm2. by apply segment_written.
Qed.

Definition total_file (segs : list LoadSegment) : N := foldr (λ s n, file_size s + n)%N 0%N segs.

Lemma load_all_spec data it f range total done b :
  (∀ i, i ∈ range → segment_at it i = Ok (f i) :> outcome LoadError _) →
  Forall (segment_fits data) (omap f range) → (total + total_file (omap f range) < U64)%N →
  (N.of_nat (length data) < U64)%N → Forall (resident data b) done →
  wp (load_all data total it range : B unit)
     (λ r b', undisturbed b b' ∧
        match r with
        | Ok _ => Forall (resident data b') (done ++ omap f range) ∧
            granted (segment_request <$> omap f range) (bo_uefi b) = Some (bo_uefi b')
        | Err _ => granted (segment_request <$> omap f range) (bo_uefi b) = None
        | Panic => False
        end) b.
Proof.
  revert total done b. induction range as [|i range IH]; intros total dn b Hread Hfit Ht Hlen Hd.
  { apply wp_ret. split; [done|]. by rewrite app_nil_r. }
  cbn [load_all]. apply wp_bind. unfold wp at 1. cbn [fst snd]. rewrite Hread by left. cbn [omap list_omap] in *.
  assert (∀ j, j ∈ range → segment_at it j = Ok (f j) :> outcome LoadError _) as Hr by (intros; apply Hread; by right).
  destruct (f i) as [seg|]; [|by apply IH].
  apply Forall_cons in Hfit as [Hs Hfit]. cbn [total_file foldr] in Ht. fold (total_file (omap f range)) in Ht.
  apply wp_bind. eapply wp_mono; [apply load_one_spec; done || lia|].
  intros [total'|e|] b1 [Hu Hpost]; [|by rewrite fmap_cons, granted_cons, Hpost|done].
  destruct Hpost as (-> & Hres & Hg).
  eapply wp_mono.
  { apply (IH _ (dn ++ [seg])); [done|done|lia|done|]. apply Forall_app. split; [|by apply Forall_singleton].
    eapply Forall_impl; [exact Hd|]. intros. by eapply resident_undisturbed. }
  intros r b2 [Hu2 Hpost]. split; [by eapply undisturbed_trans|]. rewrite fmap_cons, granted_cons, Hg.
  destruct r; [|done..]. by rewrite <- app_assoc in Hpost.
Qed.

(** An image that can be loaded. *)
Record image_ok (data : list N) : Prop := {
  io_length : (N.of_nat (length data) + 64 < U64)%N;
  io_headers : (le data 56 2 = 0 ∨ 48 ≤ le data 54 2)%N;
  io_fits : Forall (segment_fits data) (load_segments data);
  io_total : (total_file (load_segments data) < U64)%N;
}.

Lemma load_kernel_spec data machine b :
  image_ok data →
  wp (load_kernel_segments data machine : B N)
     (λ r b', undisturbed b b' ∧
        match r with
        | Ok entry => entry = le data 24 8 ∧ Forall (resident data b') (load_segments data) ∧
            first_failure (elf_tests data machine) = None ∧
            granted (segment_request <$> load_segments data) (bo_uefi b) = Some (bo_uefi b')
        | Err _ => first_failure (elf_tests data machine) = None →
            granted (segment_request <$> load_segments data) (bo_uefi b) = None
        | Panic => False
        end) b.
Proof.
  intros [Hlen H48 Hfit Ht]. unfold load_kernel_segments.
  pose proof (parse_accepts data machine Hlen) as Hparse.
  destruct (parse_and_collect_load_segments data machine) as [[entry it]|e|] eqn:Hp;
    [|apply wp_throw; split; [done|]; by rewrite Hparse|done].
  destruct (parsed_segments (E := LoadError) _ _ _ _ Hlen H48 Hp) as (-> & Hsegs & Hread).
  rewrite <- Hsegs in Hfit, Ht |- *. apply wp_bind. eapply wp_mono.
  { apply (load_all_spec data it (segment_of data) (sg_range it) 0 []); try done. lia. }
  intros [] b' [Hu Hpost]; [|done..]. apply wp_ret. split; [done|]. by destruct Hpost.
Qed.
End image.

(** ** The block *)

Section block.
Context {W : Type} `{UefiSpec W owned}.

(** The bytes of the descriptors that are handed over. *)
Definition used_bytes (m : MemoryMapOwned) : N := (mm_desc_size m * (mm_map_size m / mm_desc_size m))%N.

Definition block_bytes (m : MemoryMapOwned) (rsdp : N) : list N :=
  to_le 8 (used_bytes m) ++ to_le 8 (mm_desc_size m) ++ take (N.to_nat (used_bytes m)) (mm_buffer m) ++ to_le 8 rsdp.

(** What [us_map] says of a map. *)
Definition map_ok (m : MemoryMapOwned) : Prop :=
  Forall (λ x, x < 256)%N (mm_buffer m) ∧
  (mm_map_size m ≤ N.of_nat (length (mm_buffer m)) < U64 - 24)%N ∧ (40 ≤ mm_desc_size m < U64)%N.

Lemma used_bytes_le m : (used_bytes m ≤ mm_map_size m)%N.
Proof. apply N.Div0.mul_div_le. Qed.

Lemma map_bytes_spec {E} m (b : BootState W) : map_ok m → map_bytes m b = (Ok (used_bytes m) : outcome E N, b).
Proof.
  intros (_ & Hs & Hd). unfold map_bytes. rewrite (proj2 (N.eqb_neq _ _)) by lia.
  pose proof (used_bytes_le m). unfold used_bytes in *. unfold checked_mul. by rewrite (proj2 (N.ltb_lt _ _)) by lia.
Qed.

Lemma write_block_spec {E} base m rsdp (b : BootState W) :
  map_ok m → ∃ mem', write_block base m (used_bytes m) rsdp b = (Ok tt : outcome E unit, mkBoot (bo_uefi b) mem') ∧
    holds mem' base (block_bytes m rsdp) ∧
    ∀ a, ¬ (base ≤ a < base + 24 + used_bytes m)%N → mem' a = bo_mem b a.
Proof.
  intros (Hb & Hs & Hd). pose proof (used_bytes_le m) as Hu. unfold write_block, write. run.
  rewrite (proj2 (N.ltb_ge _ _)) by lia. run. rewrite checked_add_lt by (unfold HEADER_SIZE; lia). run.
  cbn [bo_uefi bo_mem]. eexists. split; [done|]. set (u := used_bytes m) in *.
  set (data := take (N.to_nat u) (mm_buffer m)).
  assert (N.of_nat (length data) = u) as Hlen by (unfold data; rewrite length_take; lia).
  cbn [bo_mem]. split.
  - unfold block_bytes. fold u data. rewrite !holds_app, !to_le_length. cbn [N.of_nat].
    change (N.of_nat 8) with 8%N. rewrite Hlen. unfold HEADER_SIZE.
    split_and!.
    + eapply holds_ext; [|apply (holds_wr (bo_mem b))]. rewrite to_le_length. intros i Hi.
      by rewrite wr_other, write_copy_out, (wr_other _ (base + 8)) by lia.
    + eapply holds_ext; [|apply holds_wr]. rewrite to_le_length. intros i Hi.
      rewrite wr_other, write_copy_out by lia. done.
    + replace (base + 8 + 8)%N with (base + 16)%N by lia.
      eapply holds_ext; [|apply holds_write_copy; unfold data; by apply Forall_take].
      intros i Hi. rewrite wr_other by lia. done.
    + replace (base + 8 + 8 + u)%N with (base + (16 + u))%N by lia. apply holds_wr.
  - intros a Ha. unfold HEADER_SIZE. rewrite wr_other, write_copy_out, !wr_other by lia. done.
Qed.

(** ** Reading it back *)

(** The descriptors that the firmware has reported. *)
Definition decode_descriptor (data : list N) (off : nat) : UefiMemoryDescriptor :=
  mkDescriptor (le data off 4) (le data (off + 8) 8) (le data (off + 16) 8) (le data (off + 24) 8) (le data (off + 32) 8).

Definition reported (m : MemoryMapOwned) : list UefiMemoryDescriptor :=
  (λ i, decode_descriptor (mm_buffer m) (i * N.to_nat (mm_desc_size m)))
    <$> seq 0 (N.to_nat (mm_map_size m / mm_desc_size m)).

Lemma rd_le mem a data k off n :
  holds mem a (take k data) → off + n ≤ k → k ≤ length data → rd mem (a + N.of_nat off) n = le data off n.
Proof.
  intros Hh Hk Hl. pose proof (holds_sub _ _ _ off n Hh) as Hs.
  assert (take n (drop off (take k data)) = take n (drop off data)) as E.
  { rewrite !take_drop_commute, take_take. by rewrite Nat.min_l by lia. }
  rewrite E in Hs. apply rd_value in Hs. rewrite length_take, length_drop, Nat.min_l in Hs by lia. exact Hs.
Qed.

Lemma read_descriptor_le mem a data k off :
  holds mem a (take k data) → off + 40 ≤ k → k ≤ length data →
  read_descriptor mem (a + N.of_nat off) = decode_descriptor data off.
Proof.
  intros Hh Hk Hl. unfold read_descriptor, decode_descriptor.
  assert (∀ d n, d + n ≤ 40 → rd mem (a + N.of_nat off + N.of_nat d) n = le data (off + d) n) as E.
  { intros d n Hd. rewrite <- N.add_assoc, <- Nat2N.inj_add. apply (rd_le _ _ _ k); [done|lia|done]. }
  f_equal.
  - pose proof (E 0 4 ltac:(lia)) as E0. by rewrite N.add_0_r, Nat.add_0_r in E0.
  - exact (E 8 8 ltac:(lia)).
  - exact (E 16 8 ltac:(lia)).
  - exact (E 24 8 ltac:(lia)).
  - exact (E 32 8 ltac:(lia)).
Qed.

(** The fuel of [descriptors] is enough. *)
Lemma descriptors_enough mem a ds c i fuel :
  (40 ≤ ds)%N → c ≤ fuel →
  descriptors_from mem fuel (mkIter (a + N.of_nat i * ds) (ds * N.of_nat c) ds) =
    (λ j, read_descriptor mem (a + N.of_nat j * ds)) <$> seq i c.
Proof.
  intros Hds. revert i fuel. induction c as [|c IH]; intros i fuel Hf.
  { destruct fuel; [done|]. cbn [descriptors_from]. unfold next_descriptor. cbn [remaining_bytes it_descriptor_size].
    by rewrite (proj2 (N.ltb_lt _ _)) by lia. }
  destruct fuel as [|fuel]; [lia|]. cbn [descriptors_from]. unfold next_descriptor.
  cbn [remaining_bytes it_descriptor_size current]. unfold DESCRIPTOR_BYTES.
  rewrite (proj2 (N.ltb_ge _ _)), (proj2 (N.ltb_ge _ _)) by nia. cbn [orb seq fmap list_fmap]. f_equal.
  rewrite <- (IH (S i) fuel) by lia. f_equal. f_equal; nia.
Qed.

Lemma descriptors_reported mem base m :
  map_ok m → holds mem base (take (N.to_nat (used_bytes m)) (mm_buffer m)) →
  descriptors mem (mkIter base (used_bytes m) (mm_desc_size m)) = reported m.
Proof.
  intros (_ & Hs & Hd) Hh. unfold descriptors, reported. cbn [remaining_bytes].
  pose proof (used_bytes_le m) as Hu. unfold used_bytes in *.
  set (ds := mm_desc_size m) in *. set (c := (mm_map_size m / ds)%N) in *.
  rewrite <- (N2Nat.id c) at 2. rewrite <- (N.add_0_r base) at 1. change 0%N with (N.of_nat 0 * ds)%N.
  rewrite (descriptors_enough mem base ds (N.to_nat c) 0).
  - apply list_fmap_ext. intros k x Hx. apply lookup_seq in Hx as [-> Hk]. simpl.
    replace (N.of_nat k * ds)%N with (N.of_nat (k * N.to_nat ds)) by lia.
    apply (read_descriptor_le _ _ _ (N.to_nat (ds * c))); [done| |lia].
    assert (N.of_nat k + 1 ≤ c)%N as Hkc by lia.
    assert (ds * (N.of_nat k + 1) ≤ ds * c)%N by (by apply N.mul_le_mono_l). nia.
  - lia.
  - assert (c ≤ ds * c / DESCRIPTOR_BYTES)%N; [|lia]. unfold DESCRIPTOR_BYTES.
    apply N.div_le_lower_bound; [done|]. apply N.mul_le_mono_r. lia.
Qed.
End block.

(** ** The regions *)

Definition region_of (d : UefiMemoryDescriptor) : MemoryRegionRaw :=
  mkMemoryRegion (physical_start d) (number_of_pages d * 4096) (classify_uefi_type (ud_ty d)) false.

Definition sizes_ok (ds : list UefiMemoryDescriptor) : Prop := Forall (λ d, number_of_pages d * 4096 < U64)%N ds.

Record collected (st : MapRegions) (ds : list UefiMemoryDescriptor) : Prop := {
  cd_length : length (mr_regions st) = MAX_MEMORY_REGIONS;
  cd_count : mr_count st = MAX_MEMORY_REGIONS `min` length ds;
  cd_regions : take (mr_count st) (mr_regions st) = region_of <$> take MAX_MEMORY_REGIONS ds;
  cd_dropped : mr_dropped st = N.of_nat (length ds - MAX_MEMORY_REGIONS);
}.

#[local] Arguments MAX_MEMORY_REGIONS : simpl never.

Lemma add_descriptor_spec st ds d :
  collected st ds → (number_of_pages d * 4096 < U64)%N → (N.of_nat (length ds) + 1 < U64)%N →
  ∃ st', add_descriptor st d = Ok st' ∧ collected st' (ds ++ [d]).
Proof.
  intros [Hl Hc Hr Hd] Hp Hn. unfold add_descriptor. destruct (Nat.leb_spec MAX_MEMORY_REGIONS (mr_count st)) as [Hfull|Hfree].
  - assert (MAX_MEMORY_REGIONS ≤ length ds) as Hge by lia. rewrite checked_add_lt by lia. simpl. eexists. split; [done|].
    split; cbn [mr_regions mr_count mr_dropped]; rewrite ?length_app; cbn [length]; [done|lia| |lia].
    by rewrite take_app_le by done.
  - assert (mr_count st = length ds) as Hcount by lia. unfold checked_mul. rewrite (proj2 (N.ltb_lt _ _)) by done. simpl.
    eexists. split; [done|]. rewrite Hcount in *.
    split; cbn [mr_regions mr_count mr_dropped]; rewrite ?length_insert, ?length_app; cbn [length]; [done|lia| |lia].
    rewrite (take_S_r _ _ (region_of d)) by (apply list_lookup_insert_eq; lia).
    rewrite take_insert_ge by done. rewrite Hr, !take_ge by (rewrite ?length_app; simpl; lia).
    by rewrite fmap_app.
Qed.

Lemma add_descriptors_spec st ds ds' :
  collected st ds → sizes_ok ds' → (N.of_nat (length (ds ++ ds')) < U64)%N →
  ∃ st', add_descriptors st ds' = Ok st' ∧ collected st' (ds ++ ds').
Proof.
  revert st ds. induction ds' as [|d ds' IH]; intros st ds Hc Hs Hn.
  { exists st. by rewrite app_nil_r. }
  apply Forall_cons in Hs as [Hd Hs]. rewrite length_app in Hn. cbn [length] in Hn.
  destruct (add_descriptor_spec st ds d Hc Hd ltac:(lia)) as (st1 & E & Hc1).
  destruct (IH st1 (ds ++ [d]) Hc1 Hs) as (st' & E' & Hc').
  { rewrite !length_app. simpl. lia. }
  exists st'. cbn [add_descriptors]. rewrite E. simpl. rewrite <- app_assoc in Hc'. done.
Qed.

Lemma no_regions_collected : collected no_regions [].
Proof. split; [apply length_replicate|done..]. Qed.

Section roundtrip.
Context {W : Type} `{UefiSpec W owned}.

(** The parser of the hardware layers on a block. *)
Lemma parse_block mem base m rsdp :
  map_ok m → (rsdp < U64)%N → sizes_ok (reported m) → holds mem base (block_bytes m rsdp) →
  ∃ st, parse_map mem base = Ok (st, rsdp) ∧ collected st (reported m).
Proof.
  intros Hm Hr Hsz Hh. pose proof Hm as (_ & Hs & Hd). pose proof (used_bytes_le m) as Hu.
  unfold block_bytes in Hh. rewrite !holds_app, !to_le_length in Hh. change (N.of_nat 8) with 8%N in Hh.
  destruct Hh as (H1 & H2 & H3 & H4). rewrite length_take, Nat.min_l in H4 by lia.
  unfold parse_map. assert (read_map_header mem base = mkMapHeader (used_bytes m) (mm_desc_size m)) as ->.
  { unfold read_map_header. f_equal; apply rd_holds; try done; change (256 ^ N.of_nat 8)%N with U64; lia. }
  cbn [map_size descriptor_size]. replace (base + 8 + 8)%N with (base + MAP_HEADER_BYTES)%N in H3, H4 by (unfold MAP_HEADER_BYTES; lia).
  rewrite (descriptors_reported mem _ m Hm H3).
  assert (length (reported m) ≤ N.to_nat (mm_map_size m)) as Hlen.
  { unfold reported. rewrite length_fmap, length_seq. assert (mm_map_size m / mm_desc_size m ≤ mm_map_size m)%N; [|lia].
    apply N.Div0.div_le_upper_bound. nia. }
  destruct (add_descriptors_spec no_regions [] (reported m) no_regions_collected Hsz) as (st & -> & Hc).
  { simpl. lia. }
  exists st. split; [|done]. cbn [mbind outcome_bind]. unfold Uefi.locate_acpi_rsdp. cbn [map_size].
  rewrite checked_add_lt by (unfold MAP_HEADER_BYTES; lia). cbn [mbind outcome_bind or_panic].
  replace (base + (MAP_HEADER_BYTES + used_bytes m))%N
    with (base + MAP_HEADER_BYTES + N.of_nat (N.to_nat (used_bytes m)))%N by lia.
  by rewrite (rd_holds mem _ 8 rsdp).
Qed.

(** ** The whole boot *)

(** A snapshot of the memory map, as the firmware gives it. *)
Definition next_map (w : W) : option (MemoryMapOwned * W) :=
  match memory_map w with
  | (Some m, w') => Some (m, w')
  | (None, _) => None
  end.

Definition fits_block (m : MemoryMapOwned) : Prop := (24 + used_bytes m ≤ HANDOFF_BUFFER_PAGES * 4096)%N.

(** What a firmware in state [w] and an image allow: [Some m] is the final memory map,
    [None] says that the boot cannot go on.  The image has to be an ELF file for the
    machine, the pages of its segments and of the block have to be granted, and three
    snapshots of the map have to be given, of which the second must fit into the block. *)
Definition final_map (data : list N) (machine : N) (w : W) : option MemoryMapOwned :=
  match first_failure (elf_tests data machine) with
  | Some _ => None
  | None =>
      w ← granted ((segment_request <$> load_segments data) ++ [(AnyPages, HANDOFF_BUFFER_PAGES)]) w;
      '(_, w) ← next_map w;
      '(m, w) ← next_map w;
      if decide (fits_block m) then fst <$> next_map w else None
  end.

(** The state in which the loader jumps, with the final map [m]. *)
Definition handed_over (data : list N) (b : BootState W) (m : MemoryMapOwned) (j : Jump) (b' : BootState W) : Prop :=
  j_entry j = le data 24 8 ∧ j_rsdp j = Bootloader.locate_acpi_rsdp ∧
  (∃ st, parse_map (bo_mem b') (j_handoff j) = Ok (st, j_rsdp j) ∧ collected st (reported m)) ∧
  (fits_block m →
     Forall (λ seg, ∀ a, (a < mem_size seg)%N →
               bo_mem b' (paddr seg + a)%N = segment_byte data seg a) (load_segments data) ∧
     ∀ a, owned (bo_uefi b) a → bo_mem b' a = bo_mem b a).

Lemma rsdp_bound : (Bootloader.locate_acpi_rsdp < U64)%N.
Proof using Type*.
  unfold Bootloader.locate_acpi_rsdp. destruct (List.find _ config_table) as [e|] eqn:E; [|done].
  apply List.find_some in E as [He _]. apply us_config. by apply list_elem_of_In.
Qed.

Lemma snapshot_spec {E} (b : BootState W) :
  match (snapshot b : outcome E _ * _) with
  | (Ok m, b') => map_ok m ∧ undisturbed (owned := owned) b b' ∧ next_map (bo_uefi b) = Some (m, bo_uefi b') ∧
      ∃ w w1, memory_map w = (Some m, w1)
  | (Err _, _) => False
  | (Panic, _) => next_map (bo_uefi b) = None
  end.
Proof.
  unfold snapshot, call, next_map. run. pose proof (us_map (bo_uefi b)) as Hm.
  destruct (memory_map (bo_uefi b)) as [[m|] w'] eqn:E1; run; [|done].
  destruct Hm as (Ho & Hm). split; [done|]. split; [|split; [done|by exists (bo_uefi b), w']].
  intros a Ha. split; [by apply Ho|done].
Qed.

(** The last two snapshots. *)
Definition last_map (w : W) : option MemoryMapOwned :=
  '(m, w) ← next_map w;
  if decide (fits_block m) then fst <$> next_map w else None.

(** From the hand-off block to the jump. *)
Lemma exit_spec {E} base rsdp entry (b : BootState W) :
  (rsdp < U64)%N →
  match (exit_boot_services_and_jump base rsdp entry b : outcome E _ * _) with
  | (Ok j, b') => j = mkJump entry base rsdp ∧
      ∃ m, last_map (bo_uefi b) = Some m ∧ (∃ w w1, memory_map w = (Some m, w1)) ∧ map_ok m ∧
        holds (bo_mem b') base (block_bytes m rsdp) ∧
        ∀ a, owned (bo_uefi b) a → ¬ (base ≤ a < base + 24 + used_bytes m)%N → bo_mem b' a = bo_mem b a
  | (Err _, _) => False
  | (Panic, _) => last_map (bo_uefi b) = None
  end.
Proof.
  intros Hr. unfold exit_boot_services_and_jump, last_map. run.
  pose proof (snapshot_spec (E := E) b) as H1. destruct (snapshot b) as [[m1|e|] b1]; [|done|by rewrite H1]. run.
  destruct H1 as (Hm1 & Hu1 & -> & _). rewrite map_bytes_spec by done. run.
  pose proof (used_bytes_le m1). destruct Hm1 as (_ & Hs1 & _). unfold HEADER_SIZE, fits_block.
  rewrite checked_add_lt by lia. run. rewrite checked_add_lt by lia. run. simpl.
  destruct (N.ltb_spec (HANDOFF_BUFFER_PAGES * 4096) (16 + used_bytes m1 + 8)) as [Hbig|Hfit].
  { run. by rewrite decide_False by lia. }
  run. rewrite decide_True by lia.
  pose proof (snapshot_spec (E := E) b1) as H2. destruct (snapshot b1) as [[m|e|] b2]; [|done|by rewrite H2]. run.
  destruct H2 as (Hm & Hu2 & -> & Hw). rewrite map_bytes_spec by done. run.
  destruct (write_block_spec (E := E) base m rsdp b2 Hm) as (mem' & -> & Hh & Ho). run.
  unfold call. run. split; [done|]. exists m. split_and!; [done..|].
  intros a Ha Hn. cbn [bo_mem]. rewrite Ho by done.
  destruct (Hu1 a Ha) as [Ha1 <-]. by destruct (Hu2 a Ha1) as [_ <-].
Qed.

Lemma build_handoff_spec (b : BootState W) :
  match build_handoff_block b with
  | (Ok base, b') => undisturbed (owned := owned) b b' ∧
      granted [(AnyPages, HANDOFF_BUFFER_PAGES)] (bo_uefi b) = Some (bo_uefi b') ∧
      ∀ a, (base ≤ a < base + HANDOFF_BUFFER_PAGES * 4096)%N → ¬ owned (bo_uefi b) a
  | (Err _, _) => granted [(AnyPages, HANDOFF_BUFFER_PAGES)] (bo_uefi b) = None
  | (Panic, _) => False
  end.
Proof.
  unfold build_handoff_block, call, write, granted. run.
  pose proof (us_alloc AnyPages HANDOFF_BUFFER_PAGES (bo_uefi b)) as Ha.
  destruct (allocate_pages AnyPages HANDOFF_BUFFER_PAGES (bo_uefi b)) as [[p|] w'] eqn:E; run; [|done].
  destruct Ha as (Hf & Ho & _). split; [|done]. intros a Hoa. cbn [bo_uefi bo_mem]. split; [apply Ho; by left|].
  rewrite write_zeros_at, decide_False; [done|]. intros Hin. by apply (Hf a Hin).
Qed.

(** C24 The boot loader hands over what the firmware has said.  For an image whose
    program headers have room for their fields and whose segments lie in the file:
    the loader reaches its jump exactly if the image is accepted by the ELF tests, the
    firmware grants the pages of the segments at their addresses, in order, and those
    of the block, and gives three memory maps of which the second fits into the block
    ([final_map]); otherwise it stops with a panic.  When it jumps, it enters the kernel
    at the image's entry point, and the parser of the hardware layers reads from the
    hand-off block exactly the first 256 descriptors of the final memory map, in
    order, with the number of those that are left out, and the address of the ACPI
    tables.  If the final map fits into the block as well, then moreover every segment
    of the kernel is in memory at its physical address, with the bytes of the file and
    zeros after them, and nothing that was allocated before has been written. *)
Theorem boot_loader_hands_over data machine b :
  image_ok data → (∀ w m w1, memory_map w = (Some m, w1) → sizes_ok (reported m)) →
  match (efi_main data machine b : outcome LoadError _ * _), final_map data machine (bo_uefi b) with
  | (Ok j, b'), Some m => handed_over data b m j b'
  | (Panic, _), None => True
  | _, _ => False
  end.
Proof using Type*.
  intros Hi Hsz. unfold efi_main, final_map. run. unfold or_stop at 1. rewrite granted_app.
  pose proof (load_kernel_spec (owned := owned) data machine b Hi) as Hl. unfold wp in Hl.
  destruct (load_kernel_segments data machine b) as [[entry|e|] b1]; run; [| |by destruct Hl].
  2: { destruct Hl as [_ Hg]. cbn [fst snd] in Hg. destruct (first_failure _); [done|]. by rewrite Hg. }
  cbn [fst snd] in Hl. destruct Hl as (Hu1 & -> & Hres & -> & ->). unfold or_stop.
  pose proof (build_handoff_spec b1) as Hb.
  destruct (build_handoff_block b1) as [[base|e|] b2]; run; [|by rewrite Hb|done].
  destruct Hb as (Hu2 & -> & Hfree).
  pose proof (snapshot_spec (E := LoadError) b2) as H3. simpl.
  destruct (snapshot b2) as [[m3|e|] b3]; [|done|run; by rewrite H3]. run.
  destruct H3 as (Hm3 & Hu3 & -> & _). rewrite (proj2 (N.eqb_neq _ _)) by (destruct Hm3 as (_ & _ & ?); lia). run.
  pose proof (exit_spec (E := LoadError) base Bootloader.locate_acpi_rsdp (le data 24 8) b3 rsdp_bound) as Hx.
  unfold last_map in Hx. simpl.
  destruct (exit_boot_services_and_jump _ _ _ b3) as [[j|e|] b4]; [|done|run; by rewrite Hx].
  destruct Hx as (-> & m & -> & (w & w1 & Hw) & Hm & Hh & Ho). split; [done|]. split; [done|].
  destruct (parse_block (bo_mem b4) base m _ Hm rsdp_bound (Hsz _ _ _ Hw) Hh) as (st & Hp & Hc).
  split; [by exists st|]. unfold fits_block. intros Hfit.
  assert (∀ a, owned (bo_uefi b1) a → bo_mem b4 a = bo_mem b1 a) as Hkeep.
  { intros a Ha. destruct (Hu2 a Ha) as [Ha2 <-]. destruct (Hu3 a Ha2) as [Ha3 <-]. apply Ho; [done|].
    intros Hin. apply (Hfree a); [lia|done]. }
  split.
  - eapply Forall_impl; [exact Hres|]. intros seg Hseg a Ha. destruct (Hseg a Ha) as [Hoa <-]. by apply Hkeep.
  - intros a Ha. destruct (Hu1 a Ha) as [Ha1 <-]. by apply Hkeep.
Qed.
End roundtrip.

(** A final map that does not fit is written all the same: the size of the final map is
    not compared with that of the block. *)
Lemma block_overrun {W} `{UefiSpec W owned} {E} base m rsdp (b : BootState W) :
  map_ok m → (rsdp < U64)%N → (HANDOFF_BUFFER_PAGES * 4096 ≤ 16 + used_bytes m)%N →
  ∃ b' a, write_block base m (used_bytes m) rsdp b = (Ok tt : outcome E unit, b') ∧
    (base + HANDOFF_BUFFER_PAGES * 4096 ≤ a)%N ∧ rd (bo_mem b') a 8 = rsdp.
Proof.
  intros Hm Hr Hu. destruct (write_block_spec (E := E) base m rsdp b Hm) as (mem' & -> & Hh & _).
  eexists _, (base + 16 + used_bytes m)%N. split; [done|]. split; [lia|]. cbn [bo_mem].
  pose proof (used_bytes_le m) as Hle. destruct Hm as (_ & Hs & _).
  unfold block_bytes in Hh. rewrite !holds_app, !to_le_length in Hh. change (N.of_nat 8) with 8%N in Hh.
  destruct Hh as (_ & _ & _ & H4). rewrite length_take, Nat.min_l in H4 by lia. apply rd_holds; [|done].
  by replace (base + 16 + used_bytes m)%N with (base + 8 + 8 + N.of_nat (N.to_nat (used_bytes m)))%N by lia.
Qed.

(** ** A sample boot *)

(** The firmware keeps a list of what it has given out: starts and lengths. *)
Definition ranges_owned (w : list (N * N)) (a : N) : Prop := Exists (λ r, r.1 ≤ a < r.1 + r.2)%N w.

Definition range_overlaps (p n : N) (r : N * N) : bool := (p <? r.1 + r.2)%N && (r.1 <? p + n)%N.

Definition ranges_allocate (ty : AllocateType) (n : N) (w : list (N * N)) : option N * list (N * N) :=
  let p := match ty with Address a => a | AnyPages => foldr (λ r x, N.max (r.1 + r.2) x) 33554432%N w end in
  if existsb (range_overlaps p (n * 4096)) w || (U64 <=? p + n * 4096)%N then (None, w)
  else (Some p, (p, n * 4096)%N :: w).

(** Two descriptors of 48 bytes, and some unused bytes. *)
Definition sample_map : MemoryMapOwned :=
  mkMap 96 48 (to_le 4 7 ++ to_le 4 0 ++ to_le 8 4096 ++ to_le 8 0 ++ to_le 8 16 ++ to_le 8 15 ++ to_le 8 0 ++
               to_le 4 9 ++ to_le 4 0 ++ to_le 8 516096 ++ to_le 8 0 ++ to_le 8 2 ++ to_le 8 15 ++ to_le 8 0 ++
               replicate 10 238%N).

#[local] Instance sample_uefi : UefiServices (list (N * N)) := {|
  allocate_pages := ranges_allocate;
  memory_map w := (Some sample_map, w);
  config_table := [(5, 77); (1, 516096)]%N;
  exit_boot_services w := w;
  ACPI2_GUID := 1;
|}.

#[local] Instance sample_uefi_spec : UefiSpec (list (N * N)) ranges_owned.
Proof.
  split.
  - intros ty n w. cbn [allocate_pages sample_uefi]. unfold ranges_allocate.
    set (p := match ty with Address a => a | AnyPages => _ end).
    destruct (existsb _ w) eqn:E; [done|]. destruct (N.leb_spec U64 (p + n * 4096)); [done|]. simpl. split_and!.
    + intros a Ha (r & Hr & Hin)%Exists_exists.
      assert (existsb (range_overlaps p (n * 4096)) w = true) as Ht; [|by rewrite E in Ht].
      apply existsb_exists. exists r. split; [by apply list_elem_of_In|]. unfold range_overlaps.
      rewrite (proj2 (N.ltb_lt _ _)), (proj2 (N.ltb_lt _ _)) by lia. done.
    + intros a. unfold ranges_owned. rewrite Exists_cons. simpl. tauto.
    + done.
    + by destruct ty.
  - intros w. cbn [memory_map sample_uefi]. split_and!; [done|repeat constructor|by vm_compute..].
  - intros e He. cbn [config_table sample_uefi] in He. apply list_elem_of_In in He.
    simpl in He. destruct He as [<-|[<-|[]]]; done.
Qed.

Lemma sample_sizes w m w1 : memory_map (UefiServices := sample_uefi) w = (Some m, w1) → sizes_ok (reported m).
Proof. intros [= <- <-]. repeat constructor. Qed.

Lemma sample_image_ok : image_ok (sample_elf 56).
Proof.
  assert (load_segments (sample_elf 56) = [mkSegment 120 4 65536 65536 16 5]) as E by by vm_compute.
  split; [by vm_compute|right; vm_compute; discriminate| |]; rewrite E; [|by vm_compute].
  constructor; [|constructor]. split_and!; by vm_compute || (vm_compute; discriminate).
Qed.

Lemma boot_loader_hands_over_witness :
  let b := mkBoot [] (λ _, 255%N) in
  let r := efi_main (W := list (N * N)) (E := LoadError) (sample_elf 56) EM_RISCV b in
  r.1 = Ok (mkJump 65536 33554432 516096) ∧ handed_over (owned := ranges_owned) (sample_elf 56) b
    sample_map (mkJump 65536 33554432 516096) r.2 ∧
  (λ a, bo_mem r.2 a) <$> [65536; 65537; 65540; 65551; 33554432; 33554440]%N = [222; 173; 0; 0; 96; 48]%N.
Proof.
  intros b r. assert (r.1 = Ok (mkJump 65536 33554432 516096)) as Hr by by vm_compute.
  pose proof (boot_loader_hands_over (W := list (N * N)) (owned := ranges_owned) (sample_elf 56) EM_RISCV b sample_image_ok sample_sizes) as Hm.
  fold r in Hm. rewrite (run_pair r _ Hr) in Hm.
  assert (final_map (sample_elf 56) EM_RISCV (bo_uefi b) = Some sample_map) as Hf by by vm_compute.
  rewrite Hf in Hm.
  split; [exact Hr|]. split; [exact Hm|]. by vm_compute.
Defined.
