(* ===== verification/Retired.v ===== *)
(** * Threads that were terminated

    How the set of scheduled threads changes in a run of the system: no event
    schedules a thread that exists and is not scheduled, except the explicit
    start of that thread.  Hence a thread that was terminated never runs again,
    although a later message can still be delivered to its control block. *)

From stdpp Require Import relations.
From S2P Require Import Prelude Capability CapTable Cdt Untyped AddressSpace Ipc.
From S2P Require Import Weight ChainGroup Scheduler Manifest Kernel Syscall KernelInv Boot.
From S2P Require Import Preempt Elf Spawn ElfSpawn System.

(** ** Operations that keep a relation *)

(** [m] ends, with whatever outcome, in a state related to the first one. *)
Definition keeps {S E A} (R : relation S) (m : M S E A) : Prop := ∀ s, R s (m s).2.

Create HintDb keeps discriminated.

Section keeps.
Context {S E : Type} (R : relation S) `{!PreOrder R}.

Lemma keeps_bind {A B} (m : M S E A) (f : A → M S E B) :
  keeps R m → (∀ a, keeps R (f a)) → keeps R (m ≫= f).
Proof using PreOrder0.
  intros Hm Hf s. rewrite run_bind. specialize (Hm s). destruct (m s) as [[a|e|] s']; try exact Hm.
  etrans; [exact Hm|apply Hf].
Qed.

Lemma keeps_ret {A} (a : A) : keeps R (mret a : M S E A).
Proof using PreOrder0. intros s. simpl. reflexivity. Qed.

Lemma keeps_throw {A} (e : E) : keeps R (throw e : M S E A).
Proof using PreOrder0. intros s. simpl. reflexivity. Qed.

Lemma keeps_panic {A} : keeps R (panic : M S E A).
Proof using PreOrder0. intros s. simpl. reflexivity. Qed.

Lemma keeps_gets {A} (f : S → A) : keeps R (gets f : M S E A).
Proof using PreOrder0. intros s. simpl. reflexivity. Qed.

Lemma keeps_ok_or {A} (o : option A) (e : E) : keeps R (ok_or o e).
Proof using PreOrder0. destruct o; [apply keeps_ret|apply keeps_throw]. Qed.

Lemma keeps_ok_or_then {A B} (o : option A) (e : E) (f : A → M S E B) :
  (∀ a, o = Some a → keeps R (f a)) → keeps R (ok_or o e ≫= f).
Proof using PreOrder0. intros Hf s. destruct o; run; simpl; [by apply Hf|reflexivity]. Qed.

Lemma keeps_unwrap {A} (o : option A) : keeps R (unwrap o : M S E A).
Proof using PreOrder0. destruct o; [apply keeps_ret|apply keeps_panic]. Qed.

Lemma keeps_modify f : (∀ s, R s (f s)) → keeps R (modify f : M S E unit).
Proof using. intros Hf s. apply Hf. Qed.

Lemma keeps_ignore {E' A} (m : M S E' A) : keeps R m → keeps R (ignore m : M S E unit).
Proof using. intros Hm s. specialize (Hm s). unfold ignore. by destruct (m s) as [[] ?]. Qed.

Lemma keeps_map_err {E' A} (f : E' → E) (m : M S E' A) : keeps R m → keeps R (map_err f m).
Proof using. intros Hm s. specialize (Hm s). unfold map_err. by destruct (m s) as [[] ?]. Qed.

Lemma keeps_for_each {A} (l : list A) (f : A → M S E unit) :
  (∀ x, keeps R (f x)) → keeps R (for_each l f).
Proof using PreOrder0.
  intros Hf. induction l; simpl; [apply keeps_ret|]. by apply keeps_bind.
Qed.

Lemma keeps_on_slot {T A} (get : S → list (option T)) set i (e : E) (m : M T E A) :
  (∀ x s, R s (set x s)) → keeps R (on_slot get set i e m).
Proof using PreOrder0.
  intros Hset s. unfold on_slot. destruct (tget (get s) i) as [t|]; [|simpl; reflexivity].
  destruct (m t). apply Hset.
Qed.

Lemma keeps_zoom {T A} (get : S → T) set (m : M T E A) :
  (∀ s t, (m (get s)).2 = t → R s (set t s)) → keeps R (zoom get set m).
Proof using. intros Hm s. unfold zoom. destruct (m (get s)) eqn:Hr. apply Hm. by rewrite Hr. Qed.
End keeps.

#[export] Hint Resolve keeps_ret keeps_throw keeps_panic keeps_gets keeps_ok_or keeps_unwrap
  keeps_ignore keeps_map_err : keeps.

(** ** The scheduler *)

(** The running thread is a scheduled one. *)
Definition runs_scheduled (s : Scheduler) : Prop :=
  ∀ t, running s = Some t → is_Some (entity s t).

(** No thread is scheduled anew, except [x]. *)
Record shrinks (x : option ThreadId) (s s' : Scheduler) : Prop := {
  sh_entity t : is_Some (entity s' t) → is_Some (entity s t) ∨ x = Some t;
  sh_running : runs_scheduled s → runs_scheduled s';
}.

#[export] Instance shrinks_preorder x : PreOrder (shrinks x).
Proof.
  split; [split; auto|]. intros s1 s2 s3 [H1 R1] [H2 R2]. split; [|auto].
  intros t [Ht|?]%H2; auto.
Qed.

Section scheduler.
Context {E : Type} (x : option ThreadId).

Lemma keeps_on_entity t f : keeps (shrinks x) (on_entity t f).
Proof.
  intros s. rewrite on_entity_eq. destruct (entity s t) as [e|] eqn:He; [|simpl; reflexivity].
  assert (∀ t', is_Some (entity (set_entities (<[N.to_nat t := Some (f e)]> (entities s)) s) t') ↔
            is_Some (entity s t')) as Hiff.
  { intros t'. unfold entity in *. simpl. destruct (decide (t = t')) as [<-|Hne].
    - rewrite (tget_insert_eq _ _ _ _ He), He. split; eauto.
    - by rewrite tget_insert_ne. }
  split; simpl; [intros t'; rewrite Hiff; auto|]. intros Hr t' Ht. apply Hiff. by apply Hr.
Qed.

Lemma shrinks_running s t : (∀ y, t = Some y → is_Some (entity s y)) → shrinks x s (set_running t s).
Proof. split; auto. Qed.

Lemma shrinks_clear s t :
  shrinks x s (if decide (running s = Some t) then set_running None s else s).
Proof. case_decide; [by apply shrinks_running|reflexivity]. Qed.

Lemma keeps_note_ready t now : keeps (shrinks x) (note_ready t now).
Proof. apply keeps_on_entity. Qed.

Lemma keeps_note_blocked t : keeps (shrinks x) (note_blocked t).
Proof.
  apply (keeps_bind _); [apply keeps_on_entity|]. intros _. apply keeps_modify. intros s.
  apply shrinks_clear.
Qed.

Lemma keeps_dispatch t now : keeps (shrinks x) (Scheduler.dispatch t now).
Proof.
  intros s. unfold Scheduler.dispatch. rewrite run_bind.
  pose proof (keeps_on_entity t (λ e, set_state Running
    (set_last_wait (saturating_sub now (became_ready_ns e) / 1000000) e)) s) as H.
  revert H. rewrite on_entity_eq. destruct (entity s t) as [e|] eqn:He; [|done].
  simpl. intros [Hs Hr]. split; [exact Hs|]. intros _ y [= <-]. unfold entity in *. simpl.
  rewrite (tget_insert_eq _ _ _ _ He). eauto.
Qed.

Lemma keeps_account now : keeps (shrinks x) (account (E := E) now).
Proof.
  intros s. unfold account, mbind, M_bind, gets. destruct (running s) as [cur|]; [|simpl; reflexivity].
  destruct (entity s cur) as [e|] eqn:He; [|by apply shrinks_running].
  cbv zeta. unfold unwrap. destruct (checked_sub _ _) as [inc|]; simpl; [|reflexivity].
  set (e1 := if decide _ then _ else _).
  set (s1 := set_entities (<[N.to_nat cur := Some e1]> (entities s)) s).
  assert (shrinks x s (set_running None s1)) as H1.
  { split; [|done]. intros t. unfold entity in *. simpl. destruct (decide (cur = t)) as [<-|Hne].
    - rewrite He. eauto.
    - rewrite tget_insert_ne by done. auto. }
  destruct (chain_group e1) as [gid|]; simpl; [|exact H1].
  unfold ignore, on_slot. destruct (tget _ gid) as [g|]; simpl; [|exact H1].
  split; [apply H1|done].
Qed.

(** [remove] takes the thread out. *)
Lemma keeps_remove t : keeps (shrinks x) (Scheduler.remove (E := E) t).
Proof.
  intros s. unfold Scheduler.remove, mbind, M_bind, gets, modify. simpl.
  destruct (entity s t) as [e|] eqn:He; [|apply shrinks_clear].
  set (s1 := set_entities _ s). assert (∀ y, entity s1 y = if decide (t = y) then None else entity s y) as Hx.
  { intros y. unfold entity in *. simpl. case_decide; subst; [by rewrite (tget_insert_eq _ _ _ _ He)|].
    by rewrite tget_insert_ne. }
  split.
  - intros y Hs. assert (is_Some (entity s1 y)) as H by (revert Hs; by case_decide).
    rewrite Hx in H. case_decide; [by destruct H|by left].
  - intros Hr y. case_decide as Hd; simpl; [done|]. intros Ht.
    change (is_Some (entity s1 y)). rewrite Hx, decide_False; [by apply Hr|]. by intros ->.
Qed.

Lemma remove_gone t s : entity (Scheduler.remove (E := E) t s).2 t = None.
Proof.
  unfold Scheduler.remove, mbind, M_bind, gets, modify. simpl.
  destruct (entity s t) as [e|] eqn:He.
  - unfold entity in *. case_decide; simpl; by rewrite (tget_insert_eq _ _ _ _ He).
  - by case_decide.
Qed.

(** Only [t] is scheduled anew by [admit_thread t]. *)
Lemma keeps_admit t m p g : x = Some t → keeps (shrinks x) (admit_thread t m p g).
Proof using.
  intros Hx s. unfold admit_thread, mbind, M_bind, gets. case_match eqn:Hl; simpl; [reflexivity|].
  apply N.leb_gt in Hl.
  assert (∀ y, entity (set_entities (<[N.to_nat t := Some (entity_new t m p g)]> (entities s)) s) y =
    if decide (t = y) then Some (entity_new t m p g) else entity s y) as He.
  { intros y. unfold entity. simpl. apply tget_insert. lia. }
  split.
  - intros y. rewrite He. case_decide; subst; auto.
  - intros Hr y Hy. rewrite He. case_decide; [eauto|]. by apply Hr.
Qed.
End scheduler.

#[export] Hint Resolve keeps_note_ready keeps_note_blocked keeps_dispatch keeps_account keeps_remove
  : keeps.

(** ** The kernel *)

(** Threads stay; a thread that is scheduled anew did not exist before, or is [x]. *)
Record grows (x : option ThreadId) (k k' : KernelState) : Prop := {
  gr_tcb t : is_Some (tcb k t) → is_Some (tcb k' t);
  gr_entity t : is_Some (entity (sched k') t) →
    is_Some (entity (sched k) t) ∨ x = Some t ∨ tcb k t = None ∧ is_Some (tcb k' t);
  gr_running : runs_scheduled (sched k) → runs_scheduled (sched k');
}.

Lemma grows_refl x k : grows x k k.
Proof. split; auto. Qed.

Lemma grows_trans x k1 k2 k3 : grows x k1 k2 → grows x k2 k3 → grows x k1 k3.
Proof.
  intros [T1 E1 R1] [T2 E2 R2]. split; [auto| |auto]. intros t [He|[?|[Hn Hs]]]%E2; [|by auto|].
  - apply E1 in He as [?|[?|[? ?]]]; auto 6.
  - right. right. split; [|done]. destruct (tcb k1 t) eqn:Ht; [|done].
    destruct (T1 t) as [? ?]; [by rewrite Ht|]. congruence.
Qed.

(** The table of threads has its size. *)
Definition sized (k : KernelState) : Prop := length (tcbs k) = MAX_THREADS.

Definition evolves (x : option ThreadId) (k k' : KernelState) : Prop :=
  sized k → sized k' ∧ grows x k k'.

#[export] Instance evolves_preorder x : PreOrder (evolves x).
Proof.
  split; [intros k Hk; auto using grows_refl|]. intros k1 k2 k3 H12 H23 H1.
  apply H12 in H1 as [H2 ?]. apply H23 in H2 as [? ?]. eauto using grows_trans.
Qed.

(** Only fields other than the threads and the scheduler change. *)
Lemma evolves_same x k k' : tcbs k' = tcbs k → sched k' = sched k → evolves x k k'.
Proof.
  intros Ht Hs Hk. split; [unfold sized; by rewrite Ht|]. split; unfold tcb; rewrite ?Ht, ?Hs; auto.
Qed.

Lemma evolves_sched x k s : shrinks x (sched k) s → evolves x k (set_sched s k).
Proof. intros [He Hr] Hk. split; [done|]. split; simpl; [auto| |auto]. intros t [?|?]%He; auto. Qed.

Lemma evolves_update_tcb x t f k : evolves x k (update_tcb t f k).
Proof.
  intros Hk. split.
  - unfold update_tcb. destruct (tcb k t); [|done]. unfold sized. simpl. by rewrite length_insert.
  - split; rewrite ?sched_update_tcb; [|by left|done]. intros j Hj. rewrite tcb_update_tcb.
    case_decide; [by apply fmap_is_Some; subst|done].
Qed.

Section kernel.
Context {E : Type} (x : option ThreadId).

Abbreviation P := (M KernelState E) (only parsing).

Lemma keeps_on_sched {A} (m : M Scheduler E A) : keeps (shrinks x) m → keeps (evolves x) (on_sched m).
Proof. intros Hm. apply keeps_zoom. intros k s <-. apply evolves_sched, Hm. Qed.

Lemma keeps_update_tcb t f : keeps (evolves x) (modify (update_tcb t f) : P unit).
Proof. apply keeps_modify, evolves_update_tcb. Qed.

Lemma keeps_pick : keeps (evolves x) (pick : P _).
Proof. apply (keeps_bind _); [apply (keeps_gets _)|]. intros. apply (keeps_unwrap _). Qed.

Lemma keeps_alloc_in {A} (get : KernelState → list (option A)) set new :
  (∀ l k, evolves x k (set l k)) → keeps (evolves x) (alloc_in get set new : P _).
Proof.
  intros Hset. apply (keeps_bind _); [apply (keeps_gets _)|]. intros k.
  destruct (position _ _) as [i|]; [|apply (keeps_ret _)].
  apply (keeps_bind _); [|intros; apply (keeps_ret _)]. by apply keeps_modify.
Qed.

(** A new thread. *)
Lemma alloc_tcb_evolves cs sp k :
  evolves x k (alloc_tcb (E := E) cs sp k).2 ∧
  ∀ tid, (alloc_tcb (E := E) cs sp k).1 = Ok (Some tid) → sized k →
    tcb k tid = None ∧ is_Some (tcb (alloc_tcb (E := E) cs sp k).2 tid).
Proof.
  unfold alloc_tcb, alloc_in, mbind, M_bind, gets, modify.
  destruct (position is_none (tcbs k)) as [i|] eqn:Hp; [|split; [simpl; reflexivity|done]]. simpl.
  apply position_Some in Hp as [(o & Hi & Ho) _]. destruct o as [?|]; [done|].
  pose proof (lookup_lt_Some _ _ _ Hi) as Hlt. split.
  - intros Hk. split; [unfold sized; simpl; by rewrite length_insert|].
    split; simpl; [|by left|done]. intros t Ht. unfold tcb in *. simpl.
    rewrite tget_insert_nat by done. case_decide; [eauto|done].
  - intros tid [= <-] Hk. unfold sized in Hk. rewrite Hk in Hlt. unfold MAX_THREADS in Hlt.
    unfold truncate. rewrite N.mod_small by lia. unfold tcb. simpl.
    rewrite tget_insert_nat, decide_True by (done || (rewrite Hk; unfold MAX_THREADS; lia)).
    split; [|eauto]. unfold tget. by rewrite getN_lookup, Nat2N.id, Hi.
Qed.
End kernel.

#[export] Hint Resolve keeps_pick keeps_update_tcb eq_refl : keeps.

(** Walking down a chain of binds. *)
Ltac keeps :=
  repeat (match goal with
    | |- ∀ _, _ => intros ?
    | |- keeps _ (_ ≫= _) => apply (keeps_bind _)
    | |- keeps _ (ignore _) => apply keeps_ignore
    | |- keeps _ (map_err _ _) => apply keeps_map_err
    | |- keeps _ (on_sched _) => apply keeps_on_sched
    | |- keeps _ (for_each _ _) => apply (keeps_for_each _)
    | |- keeps _ (alloc_in _ _ _) => apply keeps_alloc_in
    | |- keeps _ (modify _) => first [apply keeps_update_tcb | apply keeps_modify]
    | |- keeps _ (on_slot _ _ _ _ _) => apply (keeps_on_slot _)
    | |- keeps _ (zoom _ _ _) => apply keeps_zoom
    | |- keeps _ (mret _) => apply (keeps_ret _)
    | |- keeps _ (gets _) => apply (keeps_gets _)
    | |- keeps _ (throw _) => apply (keeps_throw _)
    | |- keeps _ panic => apply (keeps_panic _)
    | |- keeps _ (ok_or _ _) => apply (keeps_ok_or _)
    | |- keeps _ (unwrap _) => apply (keeps_unwrap _)
    | |- evolves _ _ _ => by apply evolves_same
    | |- keeps _ (match ?x with _ => _ end) => destruct x
    | |- keeps _ _ => solve [eauto 4 with keeps]
    end; simpl).

Section calls.
Context {BF : Bitflags} (x : option ThreadId).

Lemma keeps_caller_cap_space caller : keeps (evolves x) (caller_cap_space caller).
Proof. unfold caller_cap_space. keeps. Qed.

Lemma keeps_lookup_cap caller cap : keeps (evolves x) (lookup_cap caller cap).
Proof. unfold lookup_cap. pose proof keeps_caller_cap_space. keeps. Qed.

Lemma keeps_resolve caller cap kind needed : keeps (evolves x) (resolve caller cap kind needed).
Proof. unfold resolve. pose proof keeps_lookup_cap. keeps. Qed.

Lemma keeps_cap_kind_of caller cap : keeps (evolves x) (cap_kind_of caller cap).
Proof. unfold cap_kind_of. pose proof keeps_lookup_cap. keeps. Qed.
End calls.

#[export] Hint Resolve keeps_caller_cap_space keeps_lookup_cap keeps_resolve keeps_cap_kind_of : keeps.

Section dispatch.
Context {BF : Bitflags} (x : option ThreadId).

Lemma keeps_create_object caller ty p per : keeps (evolves x) (create_object caller ty p per).
Proof.
  destruct ty; simpl; unfold alloc_endpoint, alloc_notification, alloc_addr_space, alloc_cap_space,
    alloc_untyped, alloc_shared_region; keeps.
  intros k. apply alloc_tcb_evolves.
Qed.

Lemma keeps_retype_loop caller cs ty base n i first made :
  keeps (evolves x) (retype_loop caller cs ty base n i first made).
Proof.
  revert i first made. induction n as [|n IH]; intros i first made; simpl; [apply (keeps_ret _)|].
  pose proof keeps_create_object. unfold insert_cap. keeps.
Qed.

Lemma keeps_do_map hal caller pt fr v perms : keeps (evolves x) (do_map hal caller pt fr v perms).
Proof. unfold do_map, map_hardware, map_pool_advance. keeps. Qed.

Lemma keeps_bind_irq irq n : keeps (evolves x) (bind_irq irq n : K bool).
Proof. unfold bind_irq. keeps. Qed.

Lemma keeps_deliver caller eid now : keeps (evolves x) (deliver caller eid now).
Proof. unfold deliver. keeps. Qed.

Lemma keeps_dispatch_call caller now op hal : keeps (evolves x) (dispatch caller now op hal).
Proof.
  pose proof keeps_retype_loop. pose proof keeps_do_map. pose proof keeps_bind_irq.
  pose proof keeps_deliver.
  destruct op; simpl; unfold do_yield, do_send, do_recv, do_reply, do_cap_grant, do_cap_revoke,
    do_retype, do_signal, do_wait, do_poll, do_irq_bind, wake_blocked; keeps.
Qed.
End dispatch.

(** ** Ticks, yields and terminations *)

Section preempt.
Context {E : Type} (x : option ThreadId).

Abbreviation P := (M KernelState E) (only parsing).

Lemma keeps_sched_do m : keeps (shrinks x) m → keeps (evolves x) (sched_do m : P unit).
Proof. unfold sched_do. keeps. Qed.

Lemma keeps_retire tid now : keeps (evolves x) (retire tid now : P unit).
Proof. unfold retire, running_thread. keeps. Qed.
End preempt.

#[export] Hint Resolve keeps_sched_do keeps_retire : keeps.

Section preempt_ops.
Context {E : Type} (x : option ThreadId).

Abbreviation P := (M KernelState E) (only parsing).

Lemma keeps_preempt_tick now : keeps (evolves x) (preempt_tick now : P _).
Proof. unfold preempt_tick, running_thread. keeps. Qed.

Lemma keeps_cooperative_yield now : keeps (evolves x) (cooperative_yield now : P _).
Proof. unfold cooperative_yield, running_thread. keeps. Qed.

Lemma keeps_terminate_thread tid now : keeps (evolves x) (terminate_thread tid now : P _).
Proof. unfold terminate_thread. keeps. Qed.

Lemma keeps_handoff tid incoming now :
  keeps (evolves x) (terminate_thread_and_handoff tid incoming now : P _).
Proof. unfold terminate_thread_and_handoff. keeps. Qed.

Lemma keeps_block_thread tid now : keeps (evolves x) (block_thread tid now : P _).
Proof. unfold block_thread. keeps. Qed.

Lemma keeps_yield_to_thread from to now : keeps (evolves x) (yield_to_thread from to now : P _).
Proof. unfold yield_to_thread. keeps. Qed.
End preempt_ops.


(** ** Spawns *)

#[export] Hint Resolve keeps_admit : keeps.

Section spawn.
Context {E : Type}.

Abbreviation P := (M KernelState E) (only parsing).

Lemma keeps_init_user_thread hal tid entry stack root :
  keeps (evolves (Some tid)) (init_user_thread hal tid entry stack root : P unit).
Proof. unfold init_user_thread. keeps. Qed.

Lemma keeps_start_thread hal tid entry stack :
  keeps (evolves (Some tid)) (start_thread hal tid entry stack : P unit).
Proof. unfold start_thread. keeps. Qed.

Context (x : option ThreadId).

(** [tid] was made on the way from [k] to [k']. *)
Definition creates (tid : ThreadId) (k k' : KernelState) : Prop :=
  evolves x k k' ∧ (sized k → tcb k tid = None ∧ is_Some (tcb k' tid)).

Lemma creates_then tid k k1 k2 : creates tid k k1 → evolves (Some tid) k1 k2 → evolves x k k2.
Proof.
  intros [H1 Hnew] H2 Hk. destruct (Hnew Hk) as [Hn Hs]. destruct (H1 Hk) as [Hk1 [T1 E1 R1]].
  destruct (H2 Hk1) as [Hk2 [T2 E2 R2]]. split; [done|]. split; [auto| |auto].
  intros t [Ht|[[= ->]|[Ht ?]]]%E2.
  - apply E1 in Ht as [?|[?|[? ?]]]; auto 6.
  - right. right. auto.
  - right. right. split; [|done]. destruct (tcb k t) eqn:E0; [|done].
    destruct (T1 t) as [? ?]; [by rewrite E0|]. congruence.
Qed.

(** Making a thread and starting it. *)
Lemma keeps_alloc_then {A} cs sp (f : option ThreadId → P A) :
  (∀ tid, keeps (evolves (Some tid)) (f (Some tid))) → keeps (evolves x) (f None) →
  keeps (evolves x) (alloc_tcb cs sp ≫= f).
Proof.
  intros Hf Hn k. rewrite run_bind. destruct (alloc_tcb_evolves (E := E) x cs sp k) as [H1 Hnew].
  destruct (alloc_tcb cs sp k) as [[[tid|]|e|] k1]; simpl in *; [| |exact H1..].
  - apply (creates_then tid _ k1); [|apply Hf]. split; [done|]. intros Hk. by apply Hnew.
  - etrans; [exact H1|apply Hn].
Qed.

Lemma evolves_creates tid k k1 k2 :
  evolves x k k1 → tcbs k1 = tcbs k → creates tid k1 k2 → creates tid k k2.
Proof.
  intros H1 Ht [H2 Hn]. split; [by etrans|]. intros Hk. unfold tcb. rewrite <- Ht. apply Hn.
  unfold sized. by rewrite Ht.
Qed.

Lemma spawn_objects_evolves root k :
  let '(r, k') := spawn_objects (E := E) root k in
  evolves x k k' ∧ ∀ tid cs, r = Ok (Some (tid, cs)) → creates tid k k'.
Proof.
  unfold spawn_objects, and_then. rewrite run_bind.
  assert (keeps (evolves x) (alloc_addr_space root : P _)) as H1 by (unfold alloc_addr_space; keeps).
  assert (∀ k, tcbs (alloc_addr_space (E := E) root k).2 = tcbs k) as T1.
  { intros k0. unfold alloc_addr_space, alloc_in. run. by destruct (position _ _). }
  specialize (H1 k). specialize (T1 k).
  destruct (alloc_addr_space root k) as [[[a|]|e|] k1]; [|by split..]. simpl in *. rewrite run_bind.
  assert (keeps (evolves x) (alloc_cap_space : P _)) as H2 by (unfold alloc_cap_space; keeps).
  assert (∀ k, tcbs (alloc_cap_space (E := E) k).2 = tcbs k) as T2.
  { intros k0. unfold alloc_cap_space, alloc_in. run. by destruct (position _ _). }
  specialize (H2 k1). specialize (T2 k1).
  destruct (alloc_cap_space k1) as [[[c|]|e|] k2]; simpl in *; [|split; [by etrans|done]..].
  rewrite run_bind. destruct (alloc_tcb_evolves (E := E) x c a k2) as [H3 Hnew].
  destruct (alloc_tcb c a k2) as [[[t|]|e|] k3]; simpl in *; (split; [by do 2 (etrans; [eassumption|])|]);
    [|done..].
  intros tid cs [= -> ->]. apply (evolves_creates _ _ k1); [done..|].
  apply (evolves_creates _ _ k2); [done..|]. split; [done|]. by apply Hnew.
Qed.

Lemma keeps_start_process hal root stack_vma stack_len phys entry :
  keeps (evolves x) (start_process hal root stack_vma stack_len phys entry : P _).
Proof.
  intros k. unfold start_process, and_then at 1. rewrite run_bind.
  pose proof (spawn_objects_evolves root k) as Hs.
  destruct (spawn_objects root k) as [[[[tid cs]|]|e|] k1]; [|by apply Hs..].
  destruct Hs as [_ Hc]. apply (creates_then tid _ k1); [by eapply Hc|].
  assert (keeps (evolves (Some tid)) (stack_end ← unwrap (checked_add U64 stack_vma stack_len);
    _ ← init_user_thread hal tid entry (N.land stack_end (u64_not 15)) root;
    mret (Some (tid, cs, phys)) : P _)) as H by (pose proof keeps_init_user_thread; keeps; done).
  apply H.
Qed.

Lemma keeps_carve n : keeps (evolves x) (carve n : P _).
Proof.
  intros k. unfold carve. run. destruct (untyped_of k 0) as [u|]; [|simpl; reflexivity].
  destruct (alloc 4096 n u) as [[p|e|] u']; run; simpl; [by apply evolves_same..|reflexivity].
Qed.

Lemma keeps_and_then {A B} (m : P (option A)) (f : A → P (option B)) :
  keeps (evolves x) m → (∀ a, keeps (evolves x) (f a)) → keeps (evolves x) (and_then m f).
Proof. intros Hm Hf. unfold and_then. keeps; auto. Qed.

Lemma keeps_map_step hal pages root pool v p len perm used :
  keeps (evolves x) (map_step hal pages root pool v p len perm used : P _).
Proof. unfold map_step. keeps. Qed.

Lemma keeps_spawn_process hal a b c d e f :
  keeps (evolves x) (spawn_process hal a b c d e f : P _).
Proof.
  unfold spawn_process. pose proof keeps_carve. pose proof keeps_start_process.
  pose proof keeps_map_step.
  repeat (first [progress keeps | apply keeps_and_then; [by apply keeps_carve|] | by auto]).
Qed.
End spawn.

Definition loader_evolves (x : option ThreadId) (l l' : Loader) : Prop :=
  evolves x (ld_kernel l) (ld_kernel l').

#[export] Instance loader_evolves_preorder x : PreOrder (loader_evolves x).
Proof.
  split; [intros l; unfold loader_evolves; reflexivity|]. intros l1 l2 l3 H1 H2.
  unfold loader_evolves in *. by etrans.
Qed.

Section load.
Context {E : Type} (x : option ThreadId).

Abbreviation L := (M Loader E) (only parsing).

Lemma keeps_on_kernel {A} (m : M KernelState E A) :
  keeps (evolves x) m → keeps (loader_evolves x) (on_kernel m).
Proof. intros Hm. apply keeps_zoom. intros l k <-. apply Hm. Qed.

Lemma keeps_loader_modify f :
  (∀ l, ld_kernel (f l) = ld_kernel l) → keeps (loader_evolves x) (modify f : L unit).
Proof.
  intros Hf. apply keeps_modify. intros l. unfold loader_evolves. rewrite Hf. reflexivity.
Qed.

Lemma keeps_loader_and_then {A B} (m : L (option A)) (f : A → L (option B)) :
  keeps (loader_evolves x) m → (∀ a, keeps (loader_evolves x) (f a)) →
  keeps (loader_evolves x) (and_then m f).
Proof. intros Hm Hf. unfold and_then. keeps; auto. Qed.

Lemma keeps_elf_step hal root pool v p len perm :
  keeps (loader_evolves x) (elf_step hal root pool v p len perm : L bool).
Proof.
  unfold elf_step. apply (keeps_bind _); [apply (keeps_gets _)|]. intros used.
  apply (keeps_bind _); [apply keeps_on_kernel, keeps_map_step|]. intros [ok used'].
  apply (keeps_bind _); [by apply keeps_loader_modify|]. intros. apply (keeps_ret _).
Qed.

Ltac loader := repeat (match goal with
  | |- ∀ _, _ => intros ?
  | |- keeps _ (and_then _ _) => apply keeps_loader_and_then
  | |- keeps _ (on_kernel (carve _)) => apply keeps_on_kernel, keeps_carve
  | |- keeps _ (elf_step _ _ _ _ _ _ _) => apply keeps_elf_step
  | |- keeps _ (modify _) => by apply keeps_loader_modify
  | |- keeps _ (_ ≫= _) => apply (keeps_bind _)
  | |- keeps _ (mret _) => apply (keeps_ret _)
  | |- keeps _ panic => apply (keeps_panic _)
  | |- keeps _ (unwrap _) => apply (keeps_unwrap _)
  | |- keeps _ (match ?y with _ => _ end) => destruct y
  end; cbv zeta).

Lemma keeps_load_segment hal bytes root pool seg :
  keeps (loader_evolves x) (load_segment hal bytes root pool seg : L _).
Proof. unfold load_segment. cbv zeta. loader. Qed.

Lemma keeps_load_segments_from hal bytes root pool it range :
  keeps (loader_evolves x) (load_segments_from hal bytes root pool it range : L _).
Proof.
  induction range as [|i range IH]; simpl; [apply (keeps_ret _)|]. apply (keeps_bind _).
  { intros l. simpl. reflexivity. }
  intros [seg|]; [|exact IH]. apply keeps_loader_and_then; [apply keeps_load_segment|by intros].
Qed.

Lemma keeps_spawn_from_elf hal bytes machine stack_vma stack_len :
  keeps (loader_evolves x) (spawn_process_from_elf hal bytes machine stack_vma stack_len : L _).
Proof.
  unfold spawn_process_from_elf. loader; [apply keeps_load_segments_from|].
  apply keeps_on_kernel, keeps_start_process.
Qed.
End load.

(** ** Events *)

(** The thread that an event starts by name. *)
Definition starts (e : Event) : option ThreadId :=
  match e with
  | EvStart _ tid _ _ | EvInitUser _ tid _ _ _ => Some tid
  | _ => None
  end.

Section events.
Context {BF : Bitflags}.

Abbreviation P := (M KernelState SyscallError) (only parsing).

Lemma run_event_evolves e : keeps (evolves (starts e)) (run_event e).
Proof.
  destruct e; simpl; try apply keeps_ignore;
    eauto using keeps_dispatch_call, keeps_preempt_tick, keeps_cooperative_yield,
      keeps_terminate_thread, keeps_block_thread, keeps_handoff, keeps_yield_to_thread,
      keeps_start_thread, keeps_init_user_thread, keeps_spawn_process.
  - apply keeps_modify. intros. by apply evolves_same.
  - intros k. unfold spawn_elf_kernel.
    pose proof (keeps_spawn_from_elf (E := SyscallError) None hal elf_bytes machine stack_vma
      stack_len (mkLoader k mem [] 0)) as H.
    by destruct (spawn_process_from_elf _ _ _ _ _ _).
Qed.

(** A thread that exists and is not scheduled. *)
Definition gone (k : KernelState) (t : ThreadId) : Prop :=
  is_Some (tcb k t) ∧ entity (sched k) t = None.

Lemma gone_evolves x k k' t : sized k → evolves x k k' → x ≠ Some t → gone k t → gone k' t.
Proof.
  intros Hk He Hx [Ht Hs]. destruct (He Hk) as [_ [T1 E1 _]]. split; [auto|].
  destruct (entity (sched k') t) as [y|] eqn:Hy; [exfalso|done].
  destruct (E1 t) as [[? ?]|[?|[Hn _]]]; [by rewrite Hy|congruence|done|].
  rewrite Hn in Ht. by destruct Ht.
Qed.

(** Every event keeps a thread that is gone. *)
Lemma run_events_gone t events : ∀ k r k',
  for_each events run_event k = (r, k') → sized k →
  Forall (λ e, starts e ≠ Some t) events →
  gone k t → runs_scheduled (sched k) → gone k' t ∧ runs_scheduled (sched k').
Proof.
  induction events as [|e events IH]; intros k r k' Hr Hk Hst Hg Hrun; simpl in Hr.
  { by injection Hr as <- <-. }
  apply Forall_cons in Hst as [He Hst]. rewrite run_bind in Hr.
  pose proof (run_event_evolves e k) as Hev. destruct (Hev Hk) as [Hk1 [_ _ R1]].
  pose proof (gone_evolves _ _ _ _ Hk Hev He Hg) as Hg1.
  destruct (run_event e k) as [[[]|err|] k1]; simpl in *;
    [exact (IH _ _ _ Hr Hk1 Hst Hg1 (R1 Hrun))|..];
    injection Hr as <- <-; auto.
Qed.

(** Of a state only that its size and its running thread are in order. *)
Definition orderly (k k' : KernelState) : Prop :=
  sized k → runs_scheduled (sched k) → sized k' ∧ runs_scheduled (sched k').

#[local] Instance orderly_preorder : PreOrder orderly.
Proof. split; [by intros k ??|]. intros k1 k2 k3 H1 H2 H3 H4. destruct (H1 H3 H4). auto. Qed.

Lemma keeps_orderly {E A} x (m : M KernelState E A) : keeps (evolves x) m → keeps orderly m.
Proof. intros Hm k Hk Hr. destruct (Hm k Hk) as [? [_ _ ?]]. auto. Qed.

Lemma keeps_try_insert x cs cap : keeps (evolves x) (try_insert cs cap : B _).
Proof.
  unfold try_insert. keeps.
Qed.

Lemma keeps_seed_frags x cs frags : ∀ made, keeps (evolves x) (seed_frags cs frags made : B _).
Proof.
  pose proof keeps_try_insert. unfold alloc_untyped.
  induction frags as [|[a b] frags IH]; intros made; simpl; unfold alloc_untyped; keeps.
Qed.

Lemma keeps_seed_regions x cs holes regions : ∀ made,
  keeps (evolves x) (seed_regions cs holes regions made : B _).
Proof.
  pose proof keeps_seed_frags.
  induction regions as [|r regions IH]; intros made; simpl; keeps.
Qed.

Lemma keeps_seed_device x cs kind devices : keeps (evolves x) (seed_device cs kind devices : B _).
Proof.
  pose proof keeps_try_insert. unfold seed_device, alloc_mmio_region_direct. keeps.
Qed.

Lemma keeps_populate b : keeps (evolves None) (populate_from_boot_info b).
Proof.
  pose proof keeps_seed_regions. pose proof keeps_try_insert.
  pose proof keeps_seed_device.
  unfold populate_from_boot_info, alloc_cap_space, alloc_addr_space.
  apply (keeps_bind _); [keeps|intros _].
  do 4 (apply (keeps_bind _); [keeps|intros ?]).
  apply keeps_alloc_then; intros; apply (keeps_ok_or_then _); [intros ? [= <-]|done]. keeps.
Qed.

(** [retire] takes the thread out of the scheduler. *)
Lemma retire_gone {E} tid now (k : KernelState) :
  kinv k → is_Some (tcb k tid) →
  ∃ k', retire (E := E) tid now k = (Ok tt, k') ∧ sized k' ∧ gone k' tid ∧
    (runs_scheduled (sched k) → runs_scheduled (sched k')).
Proof.
  intros Hk Ht. destruct (keeps_retire (E := E) None tid now k) as [Hk' [T _ R]].
  { apply (ki_sizes _ Hk). }
  assert (∃ k', retire (E := E) tid now k = (Ok tt, k') ∧ entity (sched k') tid = None) as (k' & E1 & Hg).
  { assert (∀ k1 : KernelState, ∃ k', (_ ← modify (update_tcb tid (set_tcb_state Exited));
      on_sched (Scheduler.remove (E := E) tid)) k1 = (Ok tt, k') ∧ entity (sched k') tid = None) as Hrest.
    { intros k1. run. unfold on_sched, zoom.
      pose proof (remove_gone (E := E) tid (sched (update_tcb tid (set_tcb_state Exited) k1))) as Hg.
      destruct (Scheduler.remove tid _) as [r s] eqn:Er. exists (set_sched s (update_tcb tid (set_tcb_state Exited) k1)).
      split; [|exact Hg]. revert Er. unfold Scheduler.remove. run. by intros [= <- _]. }
    unfold retire. rewrite run_bind. cbn [running_thread gets]. rewrite run_bind.
    case_decide; [|run; apply Hrest]. unfold on_sched at 1, zoom.
    rewrite (account_ok_eq (E := E)) by apply Hk. apply Hrest. }
  rewrite E1 in *. simpl in *. exists k'. split_and!; [done..| |done]. split; auto.
Qed.

(** The thread that an event terminates. *)
Definition kills (e : Event) : option ThreadId :=
  match e with
  | EvTerminate tid _ | EvHandoff tid _ _ => Some tid
  | _ => None
  end.

Lemma kills_gone tid e k k' :
  kinv k → kills e = Some tid → is_Some (tcb k tid) → runs_scheduled (sched k) →
  run_event e k = (Ok tt, k') → gone k' tid.
Proof.
  intros Hk He Ht Hrun Hr.
  assert (∃ A (m : P A) now, run_event e = ignore (retire tid now ≫= λ _, m) ∧ keeps (evolves None) m)
    as (A & m & now & Em & Hm).
  { destruct e; try done; injection He as ->; eexists _, _, now; (split; [done|]); keeps. }
  rewrite Em in Hr. unfold ignore in Hr. rewrite run_bind in Hr.
  destruct (retire_gone (E := SyscallError) tid now k Hk Ht) as (k1 & E1 & Hk1 & Hg & _).
  rewrite E1 in Hr. pose proof (gone_evolves None _ _ _ Hk1 (Hm k1) ltac:(done) Hg) as Hg1.
  by destruct (m k1) as [[] ?]; simplify_eq/=.
Qed.

End events.

(** A thread that waits for a message is terminated; a message is sent there all
    the same, and time passes. *)
Definition sample_after : list Event :=
  [EvSyscall 0 6 (Send 2 (msg_new 7)) sample_hal; EvTick 7; EvYield 8].

