(* ===== verification/Confined.v ===== *)
(** * Authority is confined

    No event of the system makes a capability to an existing object out of nothing:
    whatever is held after a run of events was derived, with no more rights, from a
    capability to the same object that was held before.  Only retyping creates
    capabilities that have no such origin, and their objects are new. *)

From stdpp Require Import relations.
From S2P Require Import Prelude Capability CapTable Cdt Untyped AddressSpace Ipc.
From S2P Require Import Weight ChainGroup Scheduler Manifest Kernel Syscall KernelInv Boot.
From S2P Require Import Preempt Elf Spawn ElfSpawn System Retired.

(** ** What is held *)

(** A capability is in some slot of the table. *)
Definition has_cap (t : CapTable) (c : Capability) : Prop := ∃ s, s ∈ slots t ∧ slot_cap s = Some c.

(** Some capability space holds it. *)
Definition held (ts : list (option CapTable)) (c : Capability) : Prop := ∃ t, Some t ∈ ts ∧ has_cap t c.

Lemma elem_of_insert {A} (l : list A) i x y : y ∈ <[i := x]> l → y = x ∨ y ∈ l.
Proof.
  intros (j & Hj)%list_elem_of_lookup. apply list_lookup_insert_Some in Hj as [(_ & -> & _)|[_ Hj]]; [by left|].
  right. by eapply list_elem_of_lookup_2.
Qed.

Lemma held_insert ts i t c : held (<[i := Some t]> ts) c → has_cap t c ∨ held ts c.
Proof.
  intros (t' & [[= ->]|Ht]%elem_of_insert & Hc); [by left|]. right. by exists t'.
Qed.

Lemma tget_held ts i t c : tget ts i = Some t → has_cap t c → held ts c.
Proof. intros Ht%tget_Some Hc. exists t. split; [by eapply list_elem_of_lookup_2|done]. Qed.

Lemma lookup_has t id c : lookup t id = Some c → has_cap t c.
Proof.
  unfold lookup. rewrite getN_lookup. destruct (slots t !! N.to_nat id) as [s|] eqn:Hs; [|done].
  intros Hc. exists s. split; [by eapply list_elem_of_lookup_2|done].
Qed.

(** ** One table *)

(** The table holds nothing new, except what [P] allows. *)
Definition adds (P : Capability → Prop) (t t' : CapTable) : Prop := ∀ c, has_cap t' c → has_cap t c ∨ P c.

#[export] Instance adds_preorder P : PreOrder (adds P).
Proof. split; [intros t c; auto|]. intros t1 t2 t3 H1 H2 c [[?|?]%H1|?]%H2; auto. Qed.

Lemma adds_set_slot (P : Capability → Prop) i s t : (∀ c, slot_cap s = Some c → P c) → adds P t (set_slot i s t).
Proof.
  intros Hs c (s' & [->|Hs']%elem_of_insert & Hc); [right; by apply Hs|left]. by exists s'.
Qed.

Lemma adds_same P t t' : slots t' = slots t → adds P t t'.
Proof. intros H c (s & Hs & Hc). left. exists s. by rewrite <- H. Qed.

(** Walking down the operations of a table. *)
Ltac table :=
  repeat match goal with
  | |- ∀ _, _ => intros ?
  | |- keeps _ (_ ≫= _) => apply (keeps_bind _)
  | |- keeps _ (gets _) => apply (keeps_gets _)
  | |- keeps _ (mret _) => apply (keeps_ret _)
  | |- keeps _ (throw _) => apply (keeps_throw _)
  | |- keeps _ panic => apply (keeps_panic _)
  | |- keeps _ (ok_or _ _) => apply (keeps_ok_or _)
  | |- keeps _ (unwrap _) => apply (keeps_unwrap _)
  | |- keeps _ (modify _) => apply keeps_modify
  | |- adds _ _ (set_slot _ _ _) => apply adds_set_slot; simpl
  | |- adds _ _ _ => by apply adds_same
  | |- keeps _ (match ?x with _ => _ end) => destruct x eqn:?
  | |- keeps _ (if ?x then _ else _) => destruct x eqn:?
  | |- keeps _ _ => solve [auto with keeps]
  end.

Section table.
Context {P : Capability → Prop}.

Lemma keeps_alloc_slot : keeps (adds P) alloc_slot.
Proof. unfold alloc_slot. table; done. Qed.

Lemma keeps_free_slot {E} id : keeps (adds P) (free_slot (E := E) id).
Proof. unfold free_slot. table; done. Qed.

Lemma keeps_insert_root cap : P cap → keeps (adds P) (insert_root cap).
Proof. intros HP. pose proof keeps_alloc_slot. unfold insert_root. table; congruence. Qed.

Context {BF : Bitflags}.

(** A derived capability has the object of its parent, no more rights, and its badge. *)
Lemma keeps_insert_derived pc g rights badge :
  (∀ c, derived_from pc c → P c) → keeps (adds P) (insert_derived pc g rights badge).
Proof.
  intros HP. pose proof keeps_alloc_slot. unfold insert_derived.
  destruct (is_subset_of rights (cap_rights pc)) eqn:Hr; simpl; [|table].
  apply (keeps_ok_or_then _). intros eff Hb. table; try done.
  apply HP. simplify_eq. split; [done..|]. simpl. unfold effective_badge in Hb.
  destruct (N.eqb_spec (cap_badge pc) 0); simpl in Hb; [by left|right]. by destruct (_ && _); simplify_eq.
Qed.
End table.

(** ** All tables *)

Lemma keeps_free_row {E} i row freed : keeps (adds (λ _, False)) (free_row (E := E) i row freed).
Proof.
  pose proof (@keeps_free_slot (λ _, False) E). revert i freed.
  induction row as [|b row IH]; intros i freed; simpl; table; apply IH.
Qed.

(** Entries stay in their places. *)
Definition ext {A} (l l' : list (option A)) : Prop :=
  length l' = length l ∧ ∀ i, is_Some (tget l i) → is_Some (tget l' i).

#[export] Instance ext_preorder A : PreOrder (@ext A).
Proof. split; [by split|]. intros l1 l2 l3 [? ?] [? ?]. split; [congruence|auto]. Qed.

Lemma ext_insert {A} (l : list (option A)) i x : ext l (<[i := Some x]> l).
Proof.
  split; [apply length_insert|]. intros j [y Hy]. apply tget_Some in Hy. unfold tget. rewrite getN_lookup.
  destruct (decide (i = N.to_nat j)) as [->|Hne].
  - rewrite list_lookup_insert_eq by (by eapply lookup_lt_Some). by eexists.
  - rewrite list_lookup_insert_ne by done. rewrite Hy. by eexists.
Qed.

Lemma ext_cons {A} (o o' : option A) l l' : (is_Some o → is_Some o') → ext l l' → ext (o :: l) (o' :: l').
Proof.
  intros Ho [Hl He]. split; [simpl; by rewrite Hl|]. intros i. unfold tget in *. rewrite !getN_lookup.
  destruct (N.to_nat i) as [|n] eqn:Hi; simpl; [done|]. specialize (He (N.of_nat n)).
  by rewrite !getN_lookup, Nat2N.id in He.
Qed.

(** Revocation takes capabilities away. *)
Lemma free_marked_fewer {E} ts : ∀ marked freed,
  let ts' := (free_marked (E := E) ts marked freed).2 in
  ext ts ts' ∧ ∀ c, held ts' c → held ts c.
Proof.
  induction ts as [|o ts IH]; intros marked freed; [by destruct marked|].
  assert (∀ o' ts', (is_Some o → is_Some o') → (∀ t, o' = Some t → ∀ c, has_cap t c → ∃ t0, o = Some t0 ∧ has_cap t0 c) →
    ext ts ts' ∧ (∀ c, held ts' c → held ts c) →
    ext (o :: ts) (o' :: ts') ∧ ∀ c, held (o' :: ts') c → held (o :: ts) c) as Hcons.
  { intros o' ts' Ho Hc [He Hh]. split; [by apply ext_cons|].
    intros c (t & [Ht|Ht]%elem_of_cons & Htc).
    - destruct (Hc t (eq_sym Ht) c Htc) as (t0 & -> & ?). exists t0. split; [by left|done].
    - destruct (Hh c) as (t0 & ? & ?); [by exists t|]. exists t0. split; [by right|done]. }
  destruct o as [t|], marked as [|row marked]; simpl; try done.
  - pose proof (keeps_free_row (E := E) 0 row freed t) as Hrow.
    destruct (free_row 0 row freed t) as [[n|e|] t'] eqn:Hr; simpl in Hrow.
    + specialize (IH marked n). destruct (free_marked ts marked n). apply Hcons; [done| |done].
      intros t0 [= <-] c [?|[]]%Hrow. by exists t.
    + apply Hcons; [done| |done]. intros t0 [= <-] c [?|[]]%Hrow. by exists t.
    + apply Hcons; [done| |done]. intros t0 [= <-] c [?|[]]%Hrow. by exists t.
  - specialize (IH marked freed). destruct (free_marked ts marked freed). by apply Hcons.
Qed.

(** ** The kernel *)

(** The tables of objects only grow. *)
Record extends (k k' : KernelState) : Prop := {
  ex_cap_spaces : ext (cap_spaces k) (cap_spaces k');
  ex_untyped : ext (untyped k) (untyped k');
  ex_addr_spaces : ext (addr_spaces k) (addr_spaces k');
  ex_endpoints : ext (endpoints k) (endpoints k');
  ex_notifications : ext (notifications k) (notifications k');
  ex_shared_regions : ext (shared_regions k) (shared_regions k');
  ex_mmio_regions : ext (mmio_regions k) (mmio_regions k');
  ex_tcbs : ext (tcbs k) (tcbs k');
}.

#[export] Instance extends_preorder : PreOrder extends.
Proof. split; [by split|]. intros k1 k2 k3 [] []. by split; etrans. Qed.

Lemma extends_grow k k' : extends k k' → objects_grow k k'.
Proof.
  intros [[_ ?] [_ ?] [_ ?] [_ ?] [_ ?] [_ ?] [_ ?] [_ ?]]. by apply objects_grow_table.
Qed.

(** The numbers of the objects fit into 32 bits. *)
Definition small (k : KernelState) : Prop :=
  Forall (λ n, (N.of_nat n < U32)%N)
    [length (cap_spaces k); length (untyped k); length (addr_spaces k); length (endpoints k);
     length (notifications k); length (shared_regions k); length (mmio_regions k); length (tcbs k)].

Lemma small_extends k k' : small k → extends k k' → small k'.
Proof.
  intros Hs [[E1 _] [E2 _] [E3 _] [E4 _] [E5 _] [E6 _] [E7 _] [E8 _]].
  unfold small. by rewrite E1, E2, E3, E4, E5, E6, E7, E8.
Qed.

Section confined.
Context {BF : Bitflags} {BFS : BitflagsSpec BF}.

Lemma derived_refl c : derived_from c c.
Proof. split; [apply is_subset_of_refl|done|by right]. Qed.

Lemma derived_trans c1 c2 c3 : derived_from c1 c2 → derived_from c2 c3 → derived_from c1 c3.
Proof.
  intros [R1 O1 B1] [R2 O2 B2]. split; [by eapply is_subset_of_trans|congruence|].
  destruct B1 as [?|B1]; [by left|]. destruct B2 as [B2|B2]; [left; congruence|right; congruence].
Qed.

(** The capability comes from one that is held in [k], or its object is not in [k]. *)
Definition accounted (k : KernelState) (c : Capability) : Prop :=
  object_exists k (cap_object c) → ∃ c0, held (cap_spaces k) c0 ∧ derived_from c0 c.

Record confined (k k' : KernelState) : Prop := {
  cf_extends : extends k k';
  cf_held c : held (cap_spaces k') c → accounted k c;
}.

Lemma held_accounted k c : held (cap_spaces k) c → accounted k c.
Proof. intros Hc _. exists c. split; [done|apply derived_refl]. Qed.

Lemma confined_trans k1 k2 k3 : confined k1 k2 → confined k2 k3 → confined k1 k3.
Proof.
  intros [E1 H1] [E2 H2]. split; [by etrans|]. intros c Hc Ho.
  destruct (H2 c Hc) as (c2 & Hc2 & Hd2); [by apply (extends_grow _ _ E1)|].
  destruct (H1 c2 Hc2) as (c1 & Hc1 & Hd1); [by rewrite <- (df_object _ _ Hd2)|].
  exists c1. split; [done|]. by eapply derived_trans.
Qed.

Definition contained (k k' : KernelState) : Prop := small k → confined k k'.

#[export] Instance contained_preorder : PreOrder contained.
Proof.
  split.
  - intros k _. split; [done|]. by apply held_accounted.
  - intros k1 k2 k3 H12 H23 Hs. specialize (H12 Hs). eapply confined_trans; [done|].
    apply H23. by eapply small_extends; [|apply H12].
Qed.

(** The capability spaces stay as they are. *)
Lemma contained_same k k' : extends k k' → cap_spaces k' = cap_spaces k → contained k k'.
Proof. intros He Hc _. split; [done|]. rewrite Hc. apply held_accounted. Qed.

(** One more object. *)
Lemma contained_extends k k' :
  extends k k' → (∀ c, held (cap_spaces k') c → held (cap_spaces k) c) → contained k k'.
Proof. intros He Hc _. split; [done|]. intros c Hh. by apply held_accounted, Hc. Qed.

End confined.

Ltac extends := split; simpl; try reflexivity; apply ext_insert.

Section steps.
Context {BF : Bitflags} {BFS : BitflagsSpec BF} {E : Type}.

Abbreviation P := (M KernelState E) (only parsing).

Lemma contained_update_tcb t f k : contained k (update_tcb t f k).
Proof. unfold update_tcb. destruct (tcb k t); [|reflexivity]. apply contained_same; [extends|done]. Qed.

Lemma keeps_slot {T A} (get : KernelState → list (option T)) set i (e : E) (m : M T E A) :
  (∀ x k, contained k (set (<[N.to_nat i := Some x]> (get k)) k)) → keeps contained (on_slot get set i e m).
Proof.
  intros Hset k. unfold on_slot. destruct (tget (get k) i) as [t|]; [|simpl; reflexivity].
  destruct (m t). apply Hset.
Qed.

Lemma keeps_alloc {A} (get : KernelState → list (option A)) set new :
  (∀ i x k, contained k (set (<[i := Some x]> (get k)) k)) → keeps contained (alloc_in get set new : P _).
Proof.
  intros Hset k. unfold alloc_in. run. destruct (position _ _); run; [apply Hset|simpl; reflexivity].
Qed.

(** A new space is empty. *)
Lemma keeps_alloc_cap_space : keeps contained (alloc_cap_space : P _).
Proof.
  intros k. unfold alloc_cap_space, alloc_in. run. destruct (position _ _); run; [|simpl; reflexivity].
  apply contained_extends; [extends|]. intros c [(s & Hs & Hc)|?]%held_insert; [|done].
  exfalso. apply list_elem_of_fmap in Hs as (j & -> & _). done.
Qed.

Lemma keeps_sched {A} (m : M Scheduler E A) : keeps contained (on_sched m).
Proof. apply keeps_zoom. intros k s _. apply contained_same; [extends|done]. Qed.
End steps.

#[export] Hint Resolve keeps_alloc_cap_space keeps_sched : keeps.

(** Walking down the operations of the kernel. *)
Ltac confine :=
  repeat (match goal with
    | |- ∀ _, _ => intros ?
    | |- keeps _ (_ ≫= _) => apply (keeps_bind _)
    | |- keeps _ (ignore _) => apply keeps_ignore
    | |- keeps _ (map_err _ _) => apply keeps_map_err
    | |- keeps _ (on_sched _) => apply keeps_sched
    | |- keeps _ (for_each _ _) => apply (keeps_for_each _)
    | |- keeps _ (on_slot cap_spaces _ _ _ _) => fail 1
    | |- keeps _ (on_slot _ _ _ _ _) => apply keeps_slot
    | |- keeps _ (alloc_in _ _ _) => apply keeps_alloc
    | |- keeps _ (modify _) => apply keeps_modify
    | |- contained _ (update_tcb _ _ _) => apply contained_update_tcb
    | |- contained _ _ => by apply contained_same; [extends|]
    | |- keeps _ (mret _) => apply (keeps_ret _)
    | |- keeps _ (gets _) => apply (keeps_gets _)
    | |- keeps _ (throw _) => apply (keeps_throw _)
    | |- keeps _ panic => apply (keeps_panic _)
    | |- keeps _ (ok_or _ _) => apply (keeps_ok_or _)
    | |- keeps _ (unwrap _) => apply (keeps_unwrap _)
    | |- keeps _ (match ?x with _ => _ end) => destruct x
    | |- keeps _ _ => solve [eauto 4 with keeps]
    end; simpl).

Section calls.
Context {BF : Bitflags} {BFS : BitflagsSpec BF}.

Abbreviation K := (M KernelState SyscallError) (only parsing).

(** Looking capabilities up changes nothing. *)
Lemma reads_lookup_cap caller cap : keeps eq (lookup_cap caller cap).
Proof. unfold lookup_cap, caller_cap_space. confine. Qed.

Lemma reads_caller_cap_space caller : keeps eq (caller_cap_space caller).
Proof. unfold caller_cap_space. confine. Qed.

Lemma reads_resolve caller cap kind needed : keeps eq (resolve caller cap kind needed).
Proof. unfold resolve. pose proof reads_lookup_cap. confine. Qed.

Lemma reads_cap_kind_of caller cap : keeps eq (cap_kind_of caller cap).
Proof. unfold cap_kind_of. pose proof reads_lookup_cap. confine. Qed.

Lemma keeps_reads {A} (m : K A) : keeps eq m → keeps contained m.
Proof using BFS. intros H k. rewrite <- (H k). reflexivity. Qed.

(** A step that changes nothing, and the rest from the same state. *)
Lemma reads_then {A B} (m : K A) (f : A → K B) k :
  keeps eq m → (∀ a, (m k).1 = Ok a → contained k (f a k).2) → contained k ((m ≫= f) k).2.
Proof using BFS.
  intros Hm Hf. rewrite run_bind. specialize (Hm k). destruct (m k) as [[a|e|] k']; simpl in *; subst k';
    [by apply Hf|reflexivity..].
Qed.

(** A table operation whose new capabilities are accounted for. *)
Lemma contained_on_space {A} i e (m : M CapTable CapTableError A) k :
  (∀ t, tget (cap_spaces k) i = Some t → adds (accounted k) t (m t).2) →
  contained k (on_slot cap_spaces set_cap_spaces i e (map_err ErrCap m) k).2.
Proof using BFS.
  intros Hm. unfold on_slot. destruct (tget (cap_spaces k) i) as [t|] eqn:Ht; [|simpl; reflexivity].
  specialize (Hm t eq_refl). unfold map_err. destruct (m t) as [[a|err|] t']; simpl in *;
    (intros _; split; [extends|]; intros c [Hc|Hc]%held_insert; [|by apply held_accounted];
     apply Hm in Hc as [Hc|?]; [|done]; by eapply held_accounted, tget_held).
Qed.

(** The source of a grant is a space of the kernel. *)
Lemma cap_space_pair_held k src dst s d :
  cap_space_pair k src dst = Some (s, d) → Some s ∈ cap_spaces k.
Proof using.
  unfold cap_space_pair. cbv zeta. case_match; [done|]. case_match; intros H1.
  - destruct (take (N.to_nat dst) (cap_spaces k) !! N.to_nat src) as [[x|]|] eqn:Hx; simpl in H1; [|done..].
    destruct (mjoin (drop _ _ !! 0)); simpl in H1; [|done]. injection H1 as -> _.
    apply lookup_take_Some in Hx as [Hx _]. by eapply list_elem_of_lookup_2.
  - destruct (drop (N.to_nat src) (cap_spaces k) !! 0) as [[x|]|] eqn:Hx; simpl in H1; [|done..].
    destruct (mjoin (take _ _ !! _)); simpl in H1; [|done]. injection H1 as -> _.
    rewrite lookup_drop in Hx. by eapply list_elem_of_lookup_2.
Qed.

(** A grant derives from a capability that the caller's space holds. *)
Lemma keeps_cap_grant caller target cap rights : keeps contained (do_cap_grant caller target cap rights).
Proof.
  intros k. unfold do_cap_grant.
  apply reads_then; [apply reads_resolve|intros tcap _].
  apply reads_then; [confine|intros k0 [= <-]].
  apply reads_then; [confine|intros dst_tcb _]. cbv zeta.
  apply reads_then; [apply reads_cap_kind_of|intros kind _].
  apply reads_then; [apply reads_resolve|intros ? _].
  apply reads_then; [apply reads_caller_cap_space|intros src_cs _].
  apply reads_then; [confine|intros [src d] Hp].
  assert (Some src ∈ cap_spaces k) as Hsrc.
  { destruct (cap_space_pair k src_cs (tcb_cap_space dst_tcb)) as [[x y]|] eqn:Hpair; [|done].
    injection Hp as -> ->. by eapply cap_space_pair_held. }
  rewrite run_bind.
  pose proof (contained_on_space (tcb_cap_space dst_tcb) BadCap
    (derive_child_cross_space src src_cs cap rights 0) k) as Hc.
  destruct (on_slot _ _ _ _ _ k) as [[slot|e|] k']; simpl in *; apply Hc; clear Hc.
  all: intros t _; unfold derive_child_cross_space; destruct (lookup src cap) as [pc|] eqn:Hl; [|simpl; reflexivity].
  all: apply keeps_insert_derived; intros c Hd _; exists pc; split; [exists src|done].
  all: split; [done|by eapply lookup_has].
Qed.

Lemma keeps_cap_revoke caller cap : keeps contained (do_cap_revoke caller cap).
Proof.
  intros k. unfold do_cap_revoke.
  apply reads_then; [apply reads_cap_kind_of|intros kind _].
  apply reads_then; [apply reads_resolve|intros ? _].
  apply reads_then; [apply reads_caller_cap_space|intros cs _].
  assert (keeps contained (zoom cap_spaces set_cap_spaces
    (map_err ErrCap (revoke_cross_space CAP_SLOTS_PER_SPACE (mkGlobalCapId cs cap))))) as Hz.
  { apply keeps_zoom. clear k. intros k ts <-. unfold revoke_cross_space, map_err. run.
    destruct (tget _ _); run; [|by apply contained_same; destruct k].
    destruct (lookup _ _); run; [|by apply contained_same; destruct k].
    unfold free_all. pose proof (free_marked_fewer (E := CapTableError) (cap_spaces k)
      (mark CAP_SLOTS_PER_SPACE (cap_spaces k) (mkGlobalCapId cs cap)) 0) as [He Hh].
    destruct (free_marked _ _ _) as [[] ts]; simpl in *; (apply contained_extends; [split; simpl; done|done]). }
  apply (keeps_bind _ _ _ Hz). confine.
Qed.

(** The object of a retyped capability is new. *)
Lemma alloc_in_fresh {A} (get : KernelState → list (option A)) set new k id :
  (N.of_nat (length (get k)) < U32)%N →
  (alloc_in get set new k : outcome SyscallError _ * _).1 = Ok (Some id) → tget (get k) id = None.
Proof using.
  intros Hl. unfold alloc_in. run. destruct (position is_none (get k)) as [i|] eqn:Hp; run; [|done].
  apply position_free in Hp as [Hi Hlt]. intros [= <-]. unfold truncate. rewrite N.mod_small by lia.
  unfold tget. by rewrite getN_lookup, Nat2N.id, Hi.
Qed.

Lemma contained_create_object caller ty p per : keeps contained (create_object caller ty p per).
Proof.
  destruct ty; simpl; unfold alloc_endpoint, alloc_notification, alloc_addr_space, alloc_untyped,
    alloc_shared_region, alloc_tcb; confine.
Qed.

Lemma create_object_fresh caller ty p per k kind id :
  small k → (create_object caller ty p per k).1 = Ok (kind, id) →
  ¬ object_exists k {| or_kind := kind; or_id := id |}.
Proof using.
  intros Hs. repeat (apply Forall_cons in Hs as [? Hs]).
  assert (∀ {A} (get : KernelState → list (option A)) set new (kd : KernelObjectKind),
    (N.of_nat (length (get k)) < U32)%N →
    ((o ← alloc_in get set new; i ← ok_or o ObjectTableFull; mret (kd, i) : K _) k).1 = Ok (kind, id) →
    kd = kind ∧ tget (get k) id = None) as Halloc.
  { intros A get set new kd Hl. rewrite run_bind.
    pose proof (alloc_in_fresh get set new k) as Hf.
    destruct (alloc_in get set new k) as [[[i|]|e|] k']; run; simpl in *; try done.
    intros [= -> ->]. split; [done|]. by apply Hf. }
  destruct ty; simpl.
  all: try (intros [<- Hn]%Halloc; [|done]; intros Ho; unfold object_exists in Ho; simpl in Ho;
            revert Ho; unfold endpoint, notification, addr_space, cap_space, untyped_of, shared_region;
            rewrite Hn; by intros [? [=]]).
  run. destruct (tcb k caller) as [t|]; run; [|done].
  intros [<- Hn]%Halloc; [|done]. intros Ho. unfold object_exists, tcb in Ho. simpl in Ho.
  rewrite Hn in Ho. by destruct Ho.
Qed.

Lemma contained_retype_loop caller cs ty base n i first made :
  keeps contained (retype_loop caller cs ty base n i first made).
Proof.
  revert i first made. induction n as [|n IH]; intros i first made; simpl; [apply (keeps_ret _)|].
  apply (keeps_bind _); [apply (keeps_unwrap _)|intros off].
  apply (keeps_bind _); [apply (keeps_unwrap _)|intros obj_phys].
  intros k Hs. rewrite run_bind.
  pose proof (contained_create_object caller ty obj_phys (object_size_bytes ty) k Hs) as H1.
  pose proof (create_object_fresh caller ty obj_phys (object_size_bytes ty) k) as Hnew.
  destruct (create_object caller ty obj_phys (object_size_bytes ty) k) as [[[kind id]|e|] k1]; [|exact H1..].
  specialize (Hnew kind id Hs eq_refl). simpl in H1. rewrite run_bind. unfold insert_cap.
  set (cap := full {| or_kind := kind; or_id := id |}).
  assert (confined k (on_slot cap_spaces set_cap_spaces cs NoCaller (map_err ErrCap (insert_root cap)) k1).2) as H2.
  { pose proof (keeps_insert_root (P := λ c, c = cap) cap eq_refl) as Hi.
    unfold on_slot. destruct (tget (cap_spaces k1) cs) as [t|] eqn:Ht; [|exact H1].
    specialize (Hi t). unfold map_err. destruct H1 as [E1 A1].
    destruct (insert_root cap t) as [[a|err|] t']; simpl in *;
      (split; [etrans; [exact E1|extends]|]; intros c [Hc|Hc]%held_insert; [|by apply A1];
       apply Hi in Hc as [Hc| ->]; [by eapply A1, tget_held|by intros Ho]). }
  destruct (on_slot _ _ _ _ _ k1) as [[slot|e|] k2]; [|exact H2..]. simpl in H2.
  eapply confined_trans; [exact H2|].
  assert (small k2) as Hs2 by (eapply small_extends; [exact Hs|apply H2]).
  pose proof (keeps_bind contained (unwrap (checked_add U32 made 1) : K N) _ (keeps_unwrap _ _)
    (λ m, IH (i + 1)%N (match first with Some c => Some c | None => Some slot end) m) k2 Hs2) as H3.
  exact H3.
Qed.
End calls.

#[export] Hint Resolve keeps_cap_grant keeps_cap_revoke contained_create_object contained_retype_loop : keeps.

Section dispatch.
Context {BF : Bitflags} {BFS : BitflagsSpec BF}.

Abbreviation K := (M KernelState SyscallError) (only parsing).

Lemma contained_resolve caller cap kind needed : keeps contained (resolve caller cap kind needed).
Proof. apply keeps_reads, reads_resolve. Qed.

Lemma contained_lookup_cap caller cap : keeps contained (lookup_cap caller cap).
Proof. apply keeps_reads, reads_lookup_cap. Qed.

Lemma contained_cap_kind_of caller cap : keeps contained (cap_kind_of caller cap).
Proof. apply keeps_reads, reads_cap_kind_of. Qed.

Lemma contained_caller_cap_space caller : keeps contained (caller_cap_space caller).
Proof. apply keeps_reads, reads_caller_cap_space. Qed.

Lemma contained_bind_irq irq n : keeps contained (bind_irq irq n : K bool).
Proof. unfold bind_irq. confine. Qed.

Lemma contained_do_map hal caller pt fr v perms : keeps contained (do_map hal caller pt fr v perms).
Proof.
  pose proof contained_resolve. pose proof contained_lookup_cap. unfold do_map, map_hardware, map_pool_advance. confine.
Qed.

Lemma contained_deliver caller eid now : keeps contained (deliver caller eid now).
Proof. unfold deliver, wake_blocked. confine. Qed.

Lemma contained_dispatch caller now op hal : keeps contained (dispatch caller now op hal).
Proof.
  pose proof contained_resolve. pose proof contained_cap_kind_of. pose proof contained_caller_cap_space.
  pose proof contained_bind_irq. pose proof contained_do_map. pose proof contained_deliver.
  destruct op; simpl; unfold do_yield, do_send, do_recv, do_reply, do_retype, do_signal, do_wait,
    do_poll, do_irq_bind, wake_blocked, pick; confine.
Qed.
End dispatch.

Section other.
Context {BF : Bitflags} {BFS : BitflagsSpec BF} {E : Type}.

Abbreviation P := (M KernelState E) (only parsing).

Lemma contained_pick : keeps contained (pick : P _).
Proof. unfold pick. confine. Qed.

Lemma contained_sched_do m : keeps contained (sched_do m : P unit).
Proof. unfold sched_do. confine. Qed.

Lemma contained_retire tid now : keeps contained (retire tid now : P unit).
Proof. pose proof contained_sched_do. unfold retire, running_thread. confine. Qed.

Lemma contained_init_user_thread hal tid entry stack root :
  keeps contained (init_user_thread hal tid entry stack root : P unit).
Proof. unfold init_user_thread. confine. Qed.

Lemma contained_start_process hal root stack_vma stack_len phys entry :
  keeps contained (start_process hal root stack_vma stack_len phys entry : P _).
Proof.
  pose proof contained_init_user_thread.
  unfold start_process, spawn_objects, and_then, alloc_addr_space, alloc_tcb. confine.
Qed.

Lemma contained_carve n : keeps contained (carve n : P _).
Proof.
  intros k. unfold carve. run. destruct (untyped_of k 0) as [u|]; [|simpl; reflexivity].
  destruct (alloc 4096 n u) as [[p|e|] u']; run; simpl; [|..|reflexivity]; by apply contained_same; [extends|].
Qed.

Lemma contained_map_step hal pages root pool v p len perm used :
  keeps contained (map_step hal pages root pool v p len perm used : P _).
Proof. unfold map_step. confine. Qed.

Lemma contained_spawn_process hal a b c d e f : keeps contained (spawn_process hal a b c d e f : P _).
Proof.
  pose proof contained_carve. pose proof contained_start_process. pose proof contained_map_step.
  unfold spawn_process, and_then. confine.
Qed.
End other.

(** ** Loading a program *)

Section load.
Context {BF : Bitflags} {BFS : BitflagsSpec BF} {E : Type}.

Definition loader_contained (l l' : Loader) : Prop := contained (ld_kernel l) (ld_kernel l').

#[export] Instance loader_contained_preorder : PreOrder loader_contained.
Proof.
  split; [intros l; unfold loader_contained; reflexivity|]. intros l1 l2 l3 H1 H2.
  unfold loader_contained in *. by etrans.
Qed.

Abbreviation L := (M Loader E) (only parsing).

Lemma contained_on_kernel {A} (m : M KernelState E A) :
  keeps contained m → keeps loader_contained (on_kernel m).
Proof. intros Hm. apply keeps_zoom. intros l k <-. apply Hm. Qed.

Lemma contained_loader_modify f :
  (∀ l, ld_kernel (f l) = ld_kernel l) → keeps loader_contained (modify f : L unit).
Proof. intros Hf. apply keeps_modify. intros l. unfold loader_contained. rewrite Hf. reflexivity. Qed.

Lemma contained_elf_step hal root pool v p len perm :
  keeps loader_contained (elf_step hal root pool v p len perm : L bool).
Proof.
  unfold elf_step. apply (keeps_bind _); [apply (keeps_gets _)|]. intros used.
  apply (keeps_bind _); [apply contained_on_kernel, contained_map_step|]. intros [ok used'].
  apply (keeps_bind _); [by apply contained_loader_modify|]. intros. apply (keeps_ret _).
Qed.

Ltac loader := repeat (match goal with
  | |- ∀ _, _ => intros ?
  | |- keeps _ (on_kernel (carve _)) => apply contained_on_kernel, contained_carve
  | |- keeps _ (elf_step _ _ _ _ _ _ _) => apply contained_elf_step
  | |- keeps _ (modify _) => by apply contained_loader_modify
  | |- keeps _ (_ ≫= _) => apply (keeps_bind _)
  | |- keeps _ (mret _) => apply (keeps_ret _)
  | |- keeps _ panic => apply (keeps_panic _)
  | |- keeps _ (unwrap _) => apply (keeps_unwrap _)
  | |- keeps _ (match ?y with _ => _ end) => destruct y
  end; cbv zeta).

Lemma contained_load_segment hal bytes root pool seg :
  keeps loader_contained (load_segment hal bytes root pool seg : L _).
Proof. unfold load_segment, and_then. cbv zeta. loader. Qed.

Lemma contained_load_segments_from hal bytes root pool it range :
  keeps loader_contained (load_segments_from hal bytes root pool it range : L _).
Proof.
  induction range as [|i range IH]; simpl; [apply (keeps_ret _)|]. apply (keeps_bind _).
  { intros l. simpl. reflexivity. }
  intros [seg|]; [|exact IH]. pose proof contained_load_segment. unfold and_then.
  apply (keeps_bind _); [apply contained_load_segment|]. intros [a|]; [exact IH|apply (keeps_ret _)].
Qed.

Lemma contained_spawn_from_elf hal bytes machine stack_vma stack_len :
  keeps loader_contained (spawn_process_from_elf hal bytes machine stack_vma stack_len : L _).
Proof.
  unfold spawn_process_from_elf, and_then. loader; [apply contained_load_segments_from|..].
  apply contained_on_kernel, contained_start_process.
Qed.
End load.

(** ** Runs of the system *)

Section events.
Context {BF : Bitflags} {BFS : BitflagsSpec BF}.

Lemma run_event_contained e : keeps contained (run_event e).
Proof.
  pose proof (contained_sched_do (E := SyscallError)). pose proof (contained_retire (E := SyscallError)).
  pose proof (contained_pick (E := SyscallError)).
  pose proof (contained_init_user_thread (E := SyscallError)).
  destruct e; cbn [run_event]; try apply keeps_ignore.
  - apply contained_dispatch.
  - unfold install_map_pool. confine.
  - apply contained_spawn_process.
  - intros k. unfold spawn_elf_kernel.
    pose proof (contained_spawn_from_elf (E := SyscallError) hal elf_bytes machine stack_vma stack_len
      (mkLoader k mem [] 0)) as H3.
    by destruct (spawn_process_from_elf _ _ _ _ _ _).
  - unfold preempt_tick, running_thread. confine.
  - unfold cooperative_yield, running_thread. confine.
  - unfold terminate_thread. confine.
  - unfold block_thread. confine.
  - unfold terminate_thread_and_handoff. confine.
  - unfold yield_to_thread. confine.
  - unfold start_thread. confine.
  - apply contained_init_user_thread.
Qed.

Lemma kinv_small k : kinv k → small k.
Proof. intros [[S1 S2 S3 S4 S5 S6 S7 _ S9] _]. unfold small. rewrite S1, S2, S3, S4, S5, S6, S7, S9. by repeat constructor. Qed.

(** C18 Authority is confined.  From any state of the kernel, through any sequence of
    system calls, spawns, ELF loads, ticks, yields, hand-offs, terminations and starts,
    whatever their arguments and however it ends: no object disappears, and every
    capability that some space holds in the end to an object that existed at the start
    is derived from a capability that was held at the start - it names the same object,
    its rights are a subset of that one's, and its badge is the same unless that one had
    none.  So nobody gains a right over an existing object that nobody had, and only
    retyping makes capabilities of another origin, to new objects. *)
Theorem rights_confined events k r k' :
  kinv k → for_each events run_event k = (r, k') →
  objects_grow k k' ∧
  ∀ c, held (cap_spaces k') c → object_exists k (cap_object c) →
    ∃ c0, held (cap_spaces k) c0 ∧ derived_from c0 c.
Proof.
  intros Hk Hrun. assert (keeps contained (for_each events run_event)) as Hc.
  { apply (keeps_for_each _). apply run_event_contained. }
  specialize (Hc k (kinv_small k Hk)). rewrite Hrun in Hc. destruct Hc as [He Hh].
  split; [by apply extends_grow|exact Hh].
Qed.
End events.

(** The root task grants its memory to a process, with the right to read only. *)
Definition sample_grant : list Event := [EvSyscall 0 5 (CapGrant 2 0 READ) sample_hal].

Definition granted_memory : Capability :=
  {| cap_object := {| or_kind := UntypedMemoryK; or_id := 0 |}; cap_rights := READ; cap_badge := 0 |}.

Lemma rights_confined_witness :
  let k' := (for_each sample_grant run_event sample_granting).2 in
  (t ← cap_space k' 1; lookup t 0) = Some granted_memory ∧
  objects_grow sample_granting k' ∧
  ∃ c0, held (cap_spaces sample_granting) c0 ∧ derived_from c0 granted_memory.
Proof.
  intros k'.
  assert ((t ← cap_space k' 1; lookup t 0) = Some granted_memory) as Hl by by vm_compute.
  destruct (rights_confined sample_grant sample_granting _ k' sample_granting_ok (surjective_pairing _)) as [Hg Hh].
  split; [exact Hl|]. split; [exact Hg|]. apply Hh.
  - destruct (cap_space k' 1) as [t|] eqn:Ht; [|discriminate Hl].
    apply (tget_held _ _ t _ Ht). exact (lookup_has _ _ _ Hl).
  - apply (fmap_is_Some um_base). vm_compute. eexists. reflexivity.
Defined.
