(* ===== verification/Supervise.v ===== *)
(** * Trap-level glue

    [kernel/kernel-arch-glue/src/lib.rs]: the handlers that the trap vector calls
    for timer ticks, faults and the calls of user processes: [p2_yield],
    [p2_tick], [p2_fault], the supervision of the driver by the device manager
    ([p2_watch_driver] to [p2_poll_crash]), inter-process communication
    ([p2_ipc_call], [p2_ipc_recv], [p2_ipc_reply]) and waiting for an interrupt
    ([drv_irq_wait_step]).  A pointer to a saved context is the thread whose
    context it is; log lines are left out. *)

From S2P Require Import Prelude Capability CapTable Cdt Untyped AddressSpace Ipc.
From S2P Require Import Weight ChainGroup Scheduler Manifest Kernel Syscall KernelInv Boot.
From S2P Require Import Preempt Elf Spawn ElfSpawn System Retired.

(** ** The state

    The statics [G_STATE], [WATCHED_DRIVER_TID], [PENDING_CRASH], [DM_TID] and
    [P2_TICKS], and the deadline of the timer, if it is armed. *)

Record Glue := mkGlue {
  g_kernel : KernelState;
  watched_driver : option ThreadId;
  pending_crash : option (N * N * N);
  dm_tid : option ThreadId;
  p2_ticks : N;
  timer_armed : option N;
}.

Definition set_kernel (k : KernelState) (g : Glue) : Glue :=
  mkGlue k (watched_driver g) (pending_crash g) (dm_tid g) (p2_ticks g) (timer_armed g).
Definition set_watched (w : option ThreadId) (g : Glue) : Glue :=
  mkGlue (g_kernel g) w (pending_crash g) (dm_tid g) (p2_ticks g) (timer_armed g).
Definition set_pending_crash (p : option (N * N * N)) (g : Glue) : Glue :=
  mkGlue (g_kernel g) (watched_driver g) p (dm_tid g) (p2_ticks g) (timer_armed g).
Definition set_dm (d : option ThreadId) (g : Glue) : Glue :=
  mkGlue (g_kernel g) (watched_driver g) (pending_crash g) d (p2_ticks g) (timer_armed g).
Definition set_ticks (n : N) (g : Glue) : Glue :=
  mkGlue (g_kernel g) (watched_driver g) (pending_crash g) (dm_tid g) n (timer_armed g).
Definition set_timer_armed (t : option N) (g : Glue) : Glue :=
  mkGlue (g_kernel g) (watched_driver g) (pending_crash g) (dm_tid g) (p2_ticks g) t.

Definition P2_QUANTUM_NS : N := 2000000.
Definition P2_TICK_BUDGET : N := 40.

Abbreviation G := (M Glue Empty_set) (only parsing).

(** [kstate().op(..)] *)
Definition on_k {E A} : M KernelState E A → M Glue E A := zoom g_kernel set_kernel.

(** [match m { Ok(a) => .., Err(_) => .. }]: the effect of an error is kept. *)
Definition attempt {S E E' A} (m : M S E A) : M S E' (option A) := λ s,
  match m s with
  | (Ok a, s') => (Ok (Some a), s')
  | (Err _, s') => (Ok None, s')
  | (Panic, s') => (Panic, s')
  end.

(** [o?] in a function that returns an [Option]. *)
Definition or_return {A B} (o : option A) (f : A → G (option B)) : G (option B) :=
  match o with Some a => f a | None => mret None end.

Section glue.
Context {BF : Bitflags}.

(** The two contexts of a switch; the thread resumes otherwise. *)
Definition switch_to (step : PreemptStep) : G (option (ThreadId * ThreadId)) :=
  match step with
  | Switch outgoing incoming => k ← gets g_kernel; mret (user_ctx_switch_ptrs k outgoing incoming)
  | Continue | PreemptIdle => mret None
  end.

(** [user_context_bytes(tid).map(|c| c.as_ptr())] *)
Definition context_ptr (tid : ThreadId) : G (option ThreadId) :=
  k ← gets g_kernel; mret ((λ _, tid) <$> user_context_bytes k tid).

Definition p2_yield (hal : HalInterface) : G (option (ThreadId * ThreadId)) :=
  step ← on_k (cooperative_yield (hal_now_ns hal)); switch_to step.

(** [hal.arm_timer(hal.now_ns() + P2_QUANTUM_NS)] *)
Definition arm_timer (hal : HalInterface) : G unit :=
  t ← unwrap (checked_add U64 (hal_now_ns hal) P2_QUANTUM_NS); modify (set_timer_armed (Some t)).

Definition p2_tick (hal : HalInterface) : G (option (ThreadId * ThreadId)) :=
  dm ← gets dm_tid;
  r ← on_k running_thread;
  if bool_decide (is_Some dm) && bool_decide (dm = r) then
    _ ← arm_timer hal; mret None
  else
    t ← gets p2_ticks;
    ticks ← unwrap (checked_add U32 t 1);
    _ ← modify (set_ticks ticks);
    if (P2_TICK_BUDGET <=? ticks)%N then
      _ ← modify (set_timer_armed None); mret None
    else
      _ ← arm_timer hal;
      step ← on_k (preempt_tick (hal_now_ns hal)); switch_to step.

Definition p2_fault (hal : HalInterface) (cause_code sepc stval : N) : G (option ThreadId) :=
  r ← on_k running_thread;
  match r with
  | None => mret None
  | Some tid =>
      w ← gets watched_driver;
      dm ← (if bool_decide (w = Some tid) then
              _ ← modify (set_pending_crash (Some (cause_code, sepc, stval))); gets dm_tid
            else mret None);
      let now := hal_now_ns hal in
      match dm with
      | Some dm_tid =>
          _ ← on_k (wake_blocked dm_tid now);
          _ ← on_k (terminate_thread_and_handoff tid dm_tid now);
          context_ptr dm_tid
      | None =>
          outcome ← on_k (terminate_thread tid now);
          match outcome with
          | TermSwitched incoming => context_ptr incoming
          | TermIdle => mret None
          end
      end
  end.

Definition p2_watch_driver (tid : ThreadId) : G unit := modify (set_watched (Some tid)).

Definition p2_register_device_manager (tid : ThreadId) : G unit := modify (set_dm (Some tid)).

Definition p2_dm_supervision_done : G unit := modify (set_dm None).

Definition p2_dm_wait_crash (hal : HalInterface) : G (option (ThreadId * ThreadId)) :=
  p ← gets pending_crash;
  match p with
  | Some _ => mret None
  | None =>
      r ← on_k running_thread;
      or_return r (λ tid, step ← on_k (block_thread tid (hal_now_ns hal)); switch_to step)
  end.

Definition p2_dm_handoff_to_driver (hal : HalInterface) (new_driver_tid : ThreadId)
    : G (option (ThreadId * ThreadId)) :=
  r ← on_k running_thread;
  or_return r (λ caller,
    step ← on_k (yield_to_thread caller new_driver_tid (hal_now_ns hal)); switch_to step).

Definition p2_poll_crash : G N :=
  p ← gets pending_crash;
  _ ← modify (set_pending_crash None);
  mret (match p with Some (cause, _, _) => cause | None => 0%N end).

(** ** Calls of user processes *)

Record IpcSwitch := mkSwitch {
  save : ThreadId;
  into : ThreadId;
  poke : option (N * N);
}.

Inductive IpcRecvOutcome :=
| Immediate (from label : N)
| RecvSwitch (s : IpcSwitch).

Inductive IrqWaitOutcome :=
| IrqReady (bits : N)
| IrqBlocked
| IrqError.

(** [let _ = k.sched.dispatch(n, hal.now_ns())] and the pointers of the switch. *)
Definition dispatch_to (hal : HalInterface) (caller n : ThreadId)
    : G (option (ThreadId * ThreadId)) :=
  _ ← on_k (sched_do (Scheduler.dispatch n (hal_now_ns hal)));
  k ← gets g_kernel;
  mret (user_ctx_switch_ptrs k caller n).

(** [Some((t.pending_from.take()?, t.pending_msg.take()?))]: the sender is taken
    first, whether or not there is a message. *)
Definition take_delivery (t : Tcb) : option (ThreadId * SmallMessage) * Tcb :=
  match pending_from t with
  | None => (None, t)
  | Some from =>
      let t := set_tcb_from None t in
      match pending_msg t with
      | None => (None, t)
      | Some m => (Some (from, m), set_tcb_msg None t)
      end
  end.

Definition take_msg (t : Tcb) : option SmallMessage * Tcb := (pending_msg t, set_tcb_msg None t).

(** [k.tcb_mut(n).and_then(f)] *)
Definition tcb_take {A} (n : ThreadId) (f : Tcb → option A * Tcb) : G (option A) :=
  k ← gets g_kernel;
  match tcb k n with
  | None => mret None
  | Some t => _ ← modify (set_kernel (update_tcb n (λ t, (f t).2) k)); mret (f t).1
  end.

Definition p2_ipc_call (hal : HalInterface) (caller endpoint_raw label : N)
    : G (option IpcSwitch) :=
  r ← attempt (on_k (dispatch caller (hal_now_ns hal) (Call endpoint_raw (msg_new label)) hal));
  match r with
  | Some (Reschedule (Some n)) =>
      ptrs ← dispatch_to hal caller n;
      or_return ptrs (λ '(save, into),
        d ← tcb_take n take_delivery;
        mret (Some (mkSwitch save into ((λ '(from, m), (from, msg_label m)) <$> d))))
  | _ => mret None
  end.

Definition p2_ipc_recv (hal : HalInterface) (caller endpoint_raw : N)
    : G (option IpcRecvOutcome) :=
  r ← attempt (on_k (dispatch caller (hal_now_ns hal) (Recv endpoint_raw) hal));
  match r with
  | Some (Message from msg) => mret (Some (Immediate from (msg_label msg)))
  | Some (Reschedule (Some _)) =>
      k ← gets g_kernel;
      let root := root_thread (root k) in
      ptrs ← dispatch_to hal caller root;
      or_return ptrs (λ '(save, into), mret (Some (RecvSwitch (mkSwitch save into None))))
  | _ => mret None
  end.

Definition p2_ipc_reply (hal : HalInterface) (caller to_raw label : N) : G (option IpcSwitch) :=
  r ← attempt (on_k (dispatch caller (hal_now_ns hal) (Reply to_raw (msg_new label)) hal));
  match r with
  | Some (Reschedule (Some n)) =>
      ptrs ← dispatch_to hal caller n;
      or_return ptrs (λ '(save, into),
        m ← tcb_take n take_msg;
        mret (Some (mkSwitch save into ((λ m, (msg_label m, 0%N)) <$> m))))
  | _ => mret None
  end.

Definition drv_irq_wait_step (hal : HalInterface) (caller notif_cap : N) : G IrqWaitOutcome :=
  r ← attempt (on_k (dispatch caller (hal_now_ns hal) (Wait notif_cap) hal));
  match r with
  | Some (Value bits) =>
      _ ← on_k (sched_do (Scheduler.dispatch caller (hal_now_ns hal)));
      mret (IrqReady bits)
  | Some RetBlocked => mret IrqBlocked
  | _ => mret IrqError
  end.

Definition grant_cap_into (src_cs : CapSpaceId) (cap : CapId) (dst_cs : CapSpaceId)
    (rights : CapabilityRights) : G (option CapId) :=
  k ← gets g_kernel;
  match cap_space_pair k src_cs dst_cs with
  | None => mret None
  | Some (src, _) =>
      attempt (on_k (on_slot cap_spaces set_cap_spaces dst_cs BadCap
        (map_err ErrCap (derive_child_cross_space src src_cs cap rights 0))))
  end.
End glue.

(** ** Runs of handlers *)

(** Everything the trap vector and the boot code do; [GSystem] is what happens to
    the kernel otherwise: system calls and spawns. *)
Inductive GlueEvent :=
| GSystem (e : Event)
| GYield (hal : HalInterface)
| GTick (hal : HalInterface)
| GFault (hal : HalInterface) (cause_code sepc stval : N)
| GWatchDriver (tid : ThreadId)
| GRegisterManager (tid : ThreadId)
| GSupervisionDone
| GWaitCrash (hal : HalInterface)
| GHandoffToDriver (hal : HalInterface) (tid : ThreadId)
| GPollCrash
| GIpcCall (hal : HalInterface) (caller endpoint label : N)
| GIpcRecv (hal : HalInterface) (caller endpoint : N)
| GIpcReply (hal : HalInterface) (caller to label : N)
| GIrqWait (hal : HalInterface) (caller notif_cap : N).

Section runs.
Context {BF : Bitflags}.

(** [m; ()] *)
Definition void {A} (m : G A) : G unit := _ ← m; mret tt.

Definition run_glue (e : GlueEvent) : G unit :=
  match e with
  | GSystem e => ignore (on_k (run_event e))
  | GYield hal => void (p2_yield hal)
  | GTick hal => void (p2_tick hal)
  | GFault hal cause_code sepc stval => void (p2_fault hal cause_code sepc stval)
  | GWatchDriver tid => p2_watch_driver tid
  | GRegisterManager tid => p2_register_device_manager tid
  | GSupervisionDone => p2_dm_supervision_done
  | GWaitCrash hal => void (p2_dm_wait_crash hal)
  | GHandoffToDriver hal tid => void (p2_dm_handoff_to_driver hal tid)
  | GPollCrash => void p2_poll_crash
  | GIpcCall hal caller endpoint label => void (p2_ipc_call hal caller endpoint label)
  | GIpcRecv hal caller endpoint => void (p2_ipc_recv hal caller endpoint)
  | GIpcReply hal caller to label => void (p2_ipc_reply hal caller to label)
  | GIrqWait hal caller notif_cap => void (drv_irq_wait_step hal caller notif_cap)
  end.

(** The cause of a crash of the watched driver. *)
Definition crash_of (g : Glue) (e : GlueEvent) : list N :=
  match e, running (sched (g_kernel g)) with
  | GFault _ cause_code _ _, Some tid =>
      if bool_decide (watched_driver g = Some tid) then [cause_code] else []
  | _, _ => []
  end.

(** The cause that waits to be polled. *)
Definition waiting (g : Glue) : list N :=
  match pending_crash g with Some (cause_code, _, _) => [cause_code] | None => [] end.

(** What an event answers to the device manager: the result of its polls. *)
Definition answer (e : GlueEvent) : G (list N) :=
  match e with
  | GPollCrash => cause ← p2_poll_crash; mret [cause]
  | _ => _ ← run_glue e; mret []
  end.

(** A poll that finds nothing returns 0. *)
Definition crashes_in (l : list N) : list N := filter (λ cause, cause ≠ 0%N) l.

(** The causes that the driver crashed with, and the answers of the polls. *)
Fixpoint glue_trace (es : list GlueEvent) : G (list N * list N) :=
  match es with
  | [] => mret ([], [])
  | e :: es =>
      g ← gets id;
      answers ← answer e;
      '(crashes, polls) ← glue_trace es;
      mret (crash_of g e ++ crashes, answers ++ polls)
  end.

(** A respawned driver is watched only after the last crash was polled, as the loop
    of the device manager does, and threads are started by spawning. *)
Definition event_fits (g : Glue) (e : GlueEvent) : Prop :=
  match e with
  | GSystem e => starts e = None
  | GWatchDriver _ => pending_crash g = None
  | _ => True
  end.

Fixpoint trace_ok (es : list GlueEvent) (g : Glue) : Prop :=
  match es with
  | [] => True
  | e :: es => event_fits g e ∧ trace_ok es (run_glue e g).2
  end.

Definition glue_new (k : KernelState) : Glue := mkGlue k None None None 0 None.

(** The kernel evolves and the supervision state is as before. *)
Definition glue_evolves (g g' : Glue) : Prop :=
  evolves None (g_kernel g) (g_kernel g') ∧
  watched_driver g' = watched_driver g ∧ pending_crash g' = pending_crash g.

#[local] Instance glue_evolves_preorder : PreOrder glue_evolves.
Proof.
  split; [intros g; split; [reflexivity|done]|]. intros g1 g2 g3 (H1 & ? & ?) (H2 & ? & ?).
  split; [by etrans|split; congruence].
Qed.

Lemma keeps_on_k {E A} (m : M KernelState E A) :
  keeps (evolves None) m → keeps glue_evolves (on_k m).
Proof. intros Hm. apply keeps_zoom. intros g k <-. split; [apply Hm|done]. Qed.

Lemma keeps_attempt {S E E' A} (R : relation S) (m : M S E A) :
  keeps R m → keeps R (attempt m : M S E' _).
Proof. intros Hm s. specialize (Hm s). unfold attempt. by destruct (m s) as [[] ?]. Qed.

Lemma keeps_glue_modify f :
  (∀ g, glue_evolves g (f g)) → keeps glue_evolves (modify f : G unit).
Proof. apply keeps_modify. Qed.

Lemma keeps_tcb_take {A} n (f : Tcb → option A * Tcb) : keeps glue_evolves (tcb_take n f).
Proof.
  intros g. unfold tcb_take. run. destruct (tcb (g_kernel g) n); run; simpl; [|reflexivity].
  split; [apply evolves_update_tcb|done].
Qed.

Ltac keeps_glue := repeat (match goal with
  | |- ∀ _, _ => intros ?
  | |- keeps _ (void _) => unfold void
  | |- keeps _ (_ ≫= _) => apply (keeps_bind _)
  | |- keeps _ (on_k _) => apply keeps_on_k
  | |- keeps _ (attempt _) => apply keeps_attempt
  | |- keeps _ (gets _) => apply (keeps_gets _)
  | |- keeps _ (mret _) => apply (keeps_ret _)
  | |- keeps _ (unwrap _) => apply (keeps_unwrap _)
  | |- keeps _ (tcb_take _ _) => apply keeps_tcb_take
  | |- keeps _ (modify _) => apply keeps_glue_modify; intros ?; split; [reflexivity|done]
  | |- keeps _ (or_return ?o _) => destruct o; unfold or_return
  | |- keeps _ (match ?x with _ => _ end) => destruct x
  | |- keeps _ (switch_to ?x) => destruct x; unfold switch_to
  | |- keeps _ (context_ptr _) => unfold context_ptr
  | |- keeps _ (dispatch_to _ _ _) => unfold dispatch_to
  | |- keeps _ (arm_timer _) => unfold arm_timer
  | |- keeps _ (sched_do _) => apply keeps_sched_do
  | |- keeps _ _ => solve [eauto using keeps_dispatch_call, keeps_preempt_tick,
      keeps_cooperative_yield, keeps_terminate_thread, keeps_block_thread, keeps_handoff,
      keeps_yield_to_thread with keeps]
  end; cbv zeta).

(** What an event does to the supervision state. *)
Definition is_quiet (e : GlueEvent) : bool :=
  match e with
  | GFault _ _ _ _ | GWatchDriver _ | GPollCrash => false
  | GSystem e => bool_decide (starts e = None)
  | _ => true
  end.

Lemma quiet_evolves e : is_quiet e = true → keeps glue_evolves (run_glue e).
Proof.
  destruct e; simpl; try done; intros Hq.
  - apply bool_decide_eq_true in Hq. apply keeps_ignore, keeps_on_k. rewrite <- Hq. apply run_event_evolves.
  - unfold p2_yield. keeps_glue.
  - unfold p2_tick, running_thread. keeps_glue.
  - unfold p2_dm_wait_crash, running_thread. keeps_glue.
  - unfold p2_dm_handoff_to_driver, running_thread. keeps_glue.
  - unfold p2_ipc_call. keeps_glue.
  - unfold p2_ipc_recv. keeps_glue.
  - unfold p2_ipc_reply. keeps_glue.
  - unfold drv_irq_wait_step. keeps_glue.
Qed.

(** ** The supervision invariant *)

(** Scheduled threads exist. *)
Definition threads_exist (k : KernelState) : Prop :=
  ∀ t, is_Some (entity (sched k) t) → is_Some (tcb k t).

(** As long as a crash is pending, the thread that crashed is gone. *)
Record glue_inv (g : Glue) : Prop := {
  gi_sized : sized (g_kernel g);
  gi_running : runs_scheduled (sched (g_kernel g));
  gi_exist : threads_exist (g_kernel g);
  gi_pending : pending_crash g ≠ None → ∃ w, watched_driver g = Some w ∧ gone (g_kernel g) w;
}.

Lemma evolves_exist k k' : sized k → evolves None k k' → threads_exist k → threads_exist k'.
Proof.
  intros Hk He Hx t Ht. destruct (He Hk) as [_ [T1 E1 _]]. apply E1 in Ht as [?|[?|[_ ?]]]; auto; done.
Qed.

Lemma glue_inv_evolves g g' : glue_evolves g g' → glue_inv g → glue_inv g'.
Proof.
  intros (He & Hw & Hp) [Hk Hr Hx Hpend]. destruct (He Hk) as [Hk' [_ _ R1]]. split; [done|auto| |].
  - exact (evolves_exist _ _ Hk He Hx).
  - rewrite Hp, Hw. intros Hn. destruct (Hpend Hn) as (w & Hw' & Hg). exists w. split; [done|].
    by apply (gone_evolves None _ _ _ Hk He).
Qed.

Lemma retire_Ok_gone tid now (k k' : KernelState) :
  sized k → is_Some (tcb k tid) →
  retire (E := Empty_set) tid now k = (Ok tt, k') → gone k' tid.
Proof.
  intros Hk Ht Hr. pose proof (keeps_retire (E := Empty_set) None tid now k Hk) as [_ [T _ _]].
  rewrite Hr in T. split; [by apply T|]. revert Hr. unfold retire. intros (cur & k1 & _ & H)%bind_Ok.
  apply bind_Ok in H as ([] & k2 & _ & H). revert H. run. unfold on_sched, zoom.
  pose proof (remove_gone (E := Empty_set) tid (sched (update_tcb tid (set_tcb_state Exited) k2))) as Hg.
  destruct (Scheduler.remove tid _) as [r s]. intros [= -> <-]. exact Hg.
Qed.

(** A step of the kernel inside the glue. *)
Lemma on_k_Ok {E A} (m : M KernelState E A) g a g' :
  on_k m g = (Ok a, g') → ∃ k', m (g_kernel g) = (Ok a, k') ∧ g' = set_kernel k' g.
Proof.
  unfold on_k, zoom. destruct (m (g_kernel g)) as [r k']. intros [= -> <-]. eauto.
Qed.

(** A fault: the running thread is gone, and if it was the watched driver, its crash
    is pending. *)
Lemma p2_fault_Ok hal cause_code sepc stval g r g' :
  glue_inv g → p2_fault hal cause_code sepc stval g = (Ok r, g') →
  match running (sched (g_kernel g)) with
  | None => g' = g
  | Some tid =>
      evolves None (g_kernel g) (g_kernel g') ∧ gone (g_kernel g') tid ∧
      watched_driver g' = watched_driver g ∧
      pending_crash g' = if bool_decide (watched_driver g = Some tid)
                         then Some (cause_code, sepc, stval) else pending_crash g
  end.
Proof.
  intros Hg H. unfold p2_fault in H. apply bind_Ok in H as (t & g1 & Hr & H).
  apply on_k_Ok in Hr as (k1 & [= <- <-] & ->).
  replace (set_kernel (g_kernel g) g) with g in H by (by destruct g).
  destruct (running (sched (g_kernel g))) as [tid|] eqn:Hrun; [|by injection H].
  assert (is_Some (tcb (g_kernel g) tid)) as Ht by (by apply gi_exist, gi_running).
  apply bind_Ok in H as (w & g1 & [= <- <-] & H). apply bind_Ok in H as (dm & g1 & H1 & H).
  assert (g_kernel g1 = g_kernel g ∧ watched_driver g1 = watched_driver g ∧
    pending_crash g1 = if bool_decide (watched_driver g = Some tid)
                       then Some (cause_code, sepc, stval) else pending_crash g) as (Ek & Ew & Ep).
  { case_bool_decide; [|by injection H1 as _ <-].
    apply bind_Ok in H1 as ([] & g2 & [= <-] & H1). by injection H1 as _ <-. }
  clear H1. rewrite <- Ew, <- Ep, <- Ek in *. pose proof (gi_sized _ Hg) as Hk. rewrite <- Ek in Hk.
  destruct dm as [d|].
  - apply bind_Ok in H as ([] & g2 & (k2 & H2 & ->)%on_k_Ok & H). cbn [g_kernel set_kernel] in H.
    apply bind_Ok in H as ([] & g3 & (k3 & H3 & ->)%on_k_Ok & H). injection H as _ <-.
    cbn [g_kernel set_kernel watched_driver pending_crash] in *.
    assert (evolves None (g_kernel g1) k2) as E2.
    { assert (keeps (evolves None) (wake_blocked (E := Empty_set) d (hal_now_ns hal))) as Hw
        by (unfold wake_blocked; keeps). specialize (Hw (g_kernel g1)). by rewrite H2 in Hw. }
    destruct (E2 Hk) as [Hk2 [T2 _ _]].
    pose proof (keeps_handoff (E := Empty_set) None tid d (hal_now_ns hal) k2) as E3.
    rewrite H3 in E3. unfold terminate_thread_and_handoff in H3.
    apply bind_Ok in H3 as ([] & k4 & H4 & H5). split_and!; [by etrans| |done..].
    pose proof (keeps_retire (E := Empty_set) None tid (hal_now_ns hal) k2 Hk2) as [Hk4 _].
    rewrite H4 in Hk4. apply retire_Ok_gone in H4; [|done|by apply T2].
    assert (keeps (evolves None) (sched_do (Scheduler.dispatch d (hal_now_ns hal)) : M _ Empty_set _)) as Hd
      by keeps. specialize (Hd k4). rewrite H5 in Hd.
    by apply (gone_evolves None _ _ _ Hk4 Hd).
  - apply bind_Ok in H as (o & g2 & (k2 & H2 & ->)%on_k_Ok & H).
    pose proof (keeps_terminate_thread (E := Empty_set) None tid (hal_now_ns hal) (g_kernel g1)) as E2.
    rewrite H2 in E2. unfold terminate_thread in H2. apply bind_Ok in H2 as ([] & k3 & H3 & H4).
    pose proof (keeps_retire (E := Empty_set) None tid (hal_now_ns hal) (g_kernel g1) Hk) as [Hk3 _].
    rewrite H3 in Hk3. apply retire_Ok_gone in H3; [|done|done].
    assert (g' = set_kernel k2 g1) as -> by (by destruct o; injection H as _ <-).
    split_and!; [done| |done..].
    match type of H4 with ?m k3 = _ => assert (keeps (evolves None) m) as Hm by keeps end.
    specialize (Hm k3). rewrite H4 in Hm. by apply (gone_evolves None _ _ _ Hk3 Hm).
Qed.

(** An event's answer and its effect. *)
Lemma answer_Ok e g l g' :
  answer e g = (Ok l, g') →
  run_glue e g = (Ok tt, g') ∧ crashes_in l = crashes_in (match e with GPollCrash => waiting g | _ => [] end).
Proof.
  intros H. destruct e; simpl in *; try (apply bind_Ok in H as ([] & g1 & -> & [= <- <-]); done).
  unfold p2_poll_crash, void in *. revert H. rewrite run_bind. run. intros [= <- <-]. split; [done|].
  unfold waiting. by destruct (pending_crash g) as [[[[|c] ?] ?]|].
Qed.

(** One event: the supervision state accounts for crashes and polls. *)
Lemma glue_step e g g' :
  glue_inv g → event_fits g e → run_glue e g = (Ok tt, g') →
  glue_inv g' ∧
  waiting g ++ crash_of g e =
    match e with GPollCrash => waiting g | _ => [] end ++ waiting g'.
Proof.
  intros Hg Hf Hr. destruct (is_quiet e) eqn:Hq.
  { pose proof (quiet_evolves e Hq g) as He. rewrite Hr in He. split; [by eapply glue_inv_evolves|].
    destruct He as (_ & _ & Hp). simpl in Hp. assert (crash_of g e = []) as -> by (destruct e; done).
    rewrite app_nil_r. unfold waiting. rewrite Hp. by destruct e. }
  destruct e; try done; simpl in *.
  - by rewrite Hf, bool_decide_true in Hq.
  - apply bind_Ok in Hr as (r & g1 & Hr & [= <-]).
    pose proof (p2_fault_Ok hal cause_code sepc stval g r g1 Hg Hr) as H.
    unfold crash_of. destruct (running (sched (g_kernel g))) as [tid|] eqn:Hrun.
    2: { subst g1. by rewrite app_nil_r. }
    destruct H as (He & Hgone & Hw & Hp). destruct Hg as [Hk Hr0 Hx Hpend].
    destruct (He Hk) as [Hk1 [_ _ R1]]. split.
    + split; [done|auto|exact (evolves_exist _ _ Hk He Hx)|]. rewrite Hp, Hw.
      case_bool_decide; [by exists tid|]. intros Hn. destruct (Hpend Hn) as (w & -> & Hgw).
      exists w. split; [done|]. by apply (gone_evolves None _ _ _ Hk He).
    + unfold waiting at 2. rewrite Hp. case_bool_decide as Hd; [|by rewrite app_nil_r].
      unfold waiting. destruct (pending_crash g) as [[[? ?] ?]|] eqn:Epd; [exfalso|done].
      destruct Hpend as (w & Hw' & [_ Hgw]); [done|]. apply Hr0 in Hrun. rewrite Hw' in Hd. injection Hd as ->.
      rewrite Hgw in Hrun. by destruct Hrun.
  - injection Hr as <-. split; [|unfold waiting; simpl; by rewrite Hf]. destruct Hg. by split.
  - injection Hr as <-. split; [|by rewrite !app_nil_r]. destruct Hg. by split.
Qed.

Lemma glue_trace_accounts es : ∀ g0 crashes polls g,
  glue_inv g0 → trace_ok es g0 → glue_trace es g0 = (Ok (crashes, polls), g) →
  crashes_in (waiting g0 ++ crashes) = crashes_in (polls ++ waiting g).
Proof.
  induction es as [|e es IH]; intros g0 crashes polls g Hg Hok Ht.
  - injection Ht as <- <- <-. by rewrite app_nil_r.
  - destruct Hok as [Hf Hok]. cbn [glue_trace] in Ht.
    apply bind_Ok in Ht as (g_ & g1 & [= <- <-] & Ht). apply bind_Ok in Ht as (l & g1 & Ha & Ht).
    destruct (answer_Ok _ _ _ _ Ha) as [Hr Hl].
    rewrite Hr in Hok. destruct (glue_step e g0 g1 Hg Hf Hr) as [Hg1 Heq].
    apply bind_Ok in Ht as ([c p] & g2 & Ht & [= <- <- <-]).
    specialize (IH g1 c p g2 Hg1 Hok Ht). unfold id. rewrite app_assoc, Heq, <- !app_assoc.
    unfold crashes_in in *. rewrite (filter_app _ (match e with GPollCrash => _ | _ => _ end)), IH.
    by rewrite <- Hl, <- filter_app.
Qed.

Lemma glue_new_inv b u k :
  populate_from_boot_info b EMPTY_STATE = (Ok u, k) → glue_inv (glue_new k).
Proof.
  intros Hb. pose proof (keeps_populate b EMPTY_STATE) as H. rewrite Hb in H. simpl in H.
  assert (∀ t, entity (sched EMPTY_STATE) t = None) as He.
  { intros t. unfold entity, EMPTY_STATE, sched_new. simpl. apply (tget_replicate_None MAX_THREADS). }
  pose proof H as [Hk [_ _ R]]; [done|]. split; simpl; [done| | |done].
  - apply R. done.
  - apply (evolves_exist EMPTY_STATE); [done|done|]. intros t. rewrite He. by intros [].
Qed.
End runs.

(** ** No handler panics *)

Section safety.
Context {BF : Bitflags}.

(** The clock leaves room for a quantum, the hardware layer keeps its contract. *)
Definition glue_event_ok (e : GlueEvent) : Prop :=
  match e with
  | GSystem e => event_ok e
  | GTick hal => (hal_now_ns hal + P2_QUANTUM_NS < U64)%N
  | GIpcCall hal _ _ _ | GIpcRecv hal _ _ | GIpcReply hal _ _ _ | GIrqWait hal _ _ => hal_ok hal
  | _ => True
  end.

(** [n] more ticks can be counted. *)
Definition glue_ok (n : N) (g : Glue) : Prop := kinv (g_kernel g) ∧ (p2_ticks g + n < U32)%N.

Section step.
Context (n : N).

Lemma on_k_ok {E A} (m : M KernelState E A) g :
  (∀ k, kinv k → wp m (no_panic kinv) k) → glue_ok n g → wp (on_k m) (no_panic (glue_ok n)) g.
Proof.
  intros Hm [Hk Hn]. apply wp_zoom. eapply wp_mono; [by apply Hm|]. intros r k [Hr Hk'].
  split; [exact Hr|by split].
Qed.

Lemma no_panic_bind {S E A B} (I : S → Prop) (m : M S E A) (f : A → M S E B) s :
  wp m (no_panic I) s → (∀ a s', I s' → wp (f a) (no_panic I) s') → wp (m ≫= f) (no_panic I) s.
Proof.
  intros Hm Hf. apply wp_bind. eapply wp_mono; [exact Hm|].
  intros [a|e|] s' [? Hs']; [by apply Hf|done|done].
Qed.

Lemma attempt_ok {S E E' A} (m : M S E A) (I : S → Prop) s :
  wp m (no_panic I) s → wp (attempt m : M S E' _) (no_panic I) s.
Proof.
  unfold wp, attempt. intros [Hp Hi]. by destruct (m s) as [[] ?].
Qed.

Lemma tcb_take_ok {A} t (f : Tcb → option A * Tcb) g :
  (∀ x, tcb_id (f x).2 = tcb_id x ∧ tcb_cap_space (f x).2 = tcb_cap_space x ∧
        tcb_addr_space (f x).2 = tcb_addr_space x) →
  glue_ok n g → wp (tcb_take t f) (no_panic (glue_ok n)) g.
Proof.
  intros Hf [Hk Hn]. unfold wp, tcb_take. run. destruct (tcb (g_kernel g) t); run; simpl; [|by split].
  split; [done|]. split; [by apply update_tcb_ok|done].
Qed.

Lemma glue_ret_ok {A} (a : A) g : glue_ok n g → wp (mret a : G A) (no_panic (glue_ok n)) g.
Proof. intros. by apply wp_ret. Qed.

Lemma glue_gets_ok {A} (f : Glue → A) g : glue_ok n g → wp (gets f : G A) (no_panic (glue_ok n)) g.
Proof. intros. by apply wp_gets. Qed.

Lemma glue_modify_ok f g :
  (∀ g, g_kernel (f g) = g_kernel g ∧ p2_ticks (f g) = p2_ticks g) →
  glue_ok n g → wp (modify f : G unit) (no_panic (glue_ok n)) g.
Proof.
  intros Hf [Hk Hn]. apply wp_modify. destruct (Hf g) as [E1 E2].
  split; [done|]. unfold glue_ok. by rewrite E1, E2.
Qed.

Lemma switch_to_ok step g : glue_ok n g → wp (switch_to step) (no_panic (glue_ok n)) g.
Proof. intros. destruct step; [by apply wp_bind, wp_gets, wp_ret|by apply wp_ret..]. Qed.

Lemma context_ptr_ok t g : glue_ok n g → wp (context_ptr t) (no_panic (glue_ok n)) g.
Proof. intros. by apply wp_bind, wp_gets, wp_ret. Qed.

Lemma dispatch_to_ok hal c t g : glue_ok n g → wp (dispatch_to hal c t) (no_panic (glue_ok n)) g.
Proof.
  intros Hg. apply no_panic_bind; [apply on_k_ok; [|done]; intros; by apply dispatch_do_ok|].
  intros _ g1 Hg1. by apply wp_bind, wp_gets, wp_ret.
Qed.

Lemma call_ok hal caller op g :
  hal_ok hal → op_ok op → glue_ok n g →
  wp (attempt (on_k (dispatch caller (hal_now_ns hal) op hal)) : G _) (no_panic (glue_ok n)) g.
Proof. intros Hh Ho Hg. apply attempt_ok, on_k_ok; [|done]. intros. by apply dispatch_ok. Qed.
End step.

Ltac glue_safe := repeat (match goal with
  | |- ∀ _, _ => intros ?
  | |- wp (void _) _ _ => unfold void
  | |- wp (_ ≫= _) _ _ => apply no_panic_bind
  | |- wp (mret _) _ _ => by apply glue_ret_ok
  | |- wp (gets _) _ _ => by apply glue_gets_ok
  | |- wp (modify _) _ _ => by apply glue_modify_ok
  | |- wp (switch_to _) _ _ => by apply switch_to_ok
  | |- wp (context_ptr _) _ _ => by apply context_ptr_ok
  | |- wp (dispatch_to _ _ _) _ _ => by apply dispatch_to_ok
  | |- wp (attempt (on_k (dispatch _ _ _ _))) _ _ => by apply call_ok
  | |- wp (or_return ?o _) _ _ => destruct o; unfold or_return
  | |- wp (ignore _) _ _ => apply wp_no_panic_ignore
  | |- wp (tcb_take _ _) _ _ => apply tcb_take_ok; [|done]
  | |- wp (match ?x with _ => _ end) _ _ => destruct x
  | |- wp (on_k _) _ _ => apply on_k_ok; [|done]; intros;
      eauto 2 using preempt_tick_ok, cooperative_yield_ok, terminate_thread_ok, block_thread_ok,
        terminate_thread_and_handoff_ok, yield_to_thread_ok, run_event_ok, dispatch_do_ok with simurgh
  end; cbv zeta).

Lemma p2_tick_ok n hal g :
  (hal_now_ns hal + P2_QUANTUM_NS < U64)%N → glue_ok (n + 1) g →
  wp (p2_tick hal) (no_panic (glue_ok n)) g.
Proof.
  intros Ht Hg. assert (∀ g, glue_ok n g → wp (arm_timer hal) (no_panic (glue_ok n)) g) as Harm.
  { intros g1 Hg1. unfold arm_timer. rewrite checked_add_lt by done. by apply glue_modify_ok. }
  assert (glue_ok n g) as Hgn by (destruct Hg; split; [done|lia]).
  unfold p2_tick. apply wp_bind, wp_gets, wp_bind.
  assert (on_k (E := Empty_set) running_thread g = (Ok (running (sched (g_kernel g))), g)) as Hr
    by (by destruct g).
  unfold wp at 1. rewrite Hr. simpl. case_match.
  { apply no_panic_bind; [by apply Harm|]. intros. by apply glue_ret_ok. }
  apply wp_bind, wp_gets, wp_bind. rewrite checked_add_lt by (destruct Hg; lia).
  apply wp_ret, wp_bind, wp_modify.
  assert (glue_ok n (set_ticks (p2_ticks g + 1) g)) as Hg1.
  { destruct Hg. split; [done|]. simpl. lia. }
  case_match; [glue_safe|]. apply no_panic_bind; [by apply Harm|]. intros. glue_safe.
Qed.

Lemma run_glue_ok n e g :
  glue_event_ok e → glue_ok (n + 1) g → wp (run_glue e) (no_panic (glue_ok n)) g.
Proof.
  intros He Hg. assert (glue_ok n g) as Hgn by (destruct Hg; split; [done|lia]).
  destruct e; simpl in *; unfold p2_yield, p2_fault, p2_watch_driver, p2_register_device_manager,
    p2_dm_supervision_done, p2_dm_wait_crash, p2_dm_handoff_to_driver, p2_poll_crash, p2_ipc_call,
    p2_ipc_recv, p2_ipc_reply, drv_irq_wait_step, running_thread, wake_blocked; glue_safe.
  - by apply p2_tick_ok.
  - unfold take_delivery. destruct (pending_from x); simpl; [destruct (pending_msg x)|]; done.
  - done.
Qed.

Lemma answer_ok n e g :
  glue_event_ok e → glue_ok (n + 1) g → wp (answer e) (no_panic (glue_ok n)) g.
Proof.
  intros He Hg. assert (glue_ok n g) as Hgn by (destruct Hg; split; [done|lia]).
  destruct e; try (apply no_panic_bind; [by apply run_glue_ok|intros; by apply glue_ret_ok]).
  simpl. unfold p2_poll_crash. glue_safe.
Qed.

Lemma glue_trace_ok es : ∀ n g,
  Forall glue_event_ok es → glue_ok (n + N.of_nat (length es)) g →
  ∃ crashes polls g', glue_trace es g = (Ok (crashes, polls), g') ∧ glue_ok n g'.
Proof.
  induction es as [|e es IH]; intros n g Hes Hg; cbn [glue_trace].
  { exists [], [], g. simpl in Hg. by rewrite N.add_0_r in Hg. }
  apply Forall_cons in Hes as [He Hes].
  destruct (answer_ok (n + N.of_nat (length es)) e g He) as [Hp Hg1].
  { destruct Hg. split; [done|]. simpl length in *. lia. }
  run. destruct (answer e g) as [[l|[]|] g1]; [|done]. simpl in Hg1.
  destruct (IH n g1 Hes Hg1) as (c & p & g2 & E & Hg2). rewrite run_bind, E. eauto 6.
Qed.

(** C8 No crash is lost or invented: every run of a booted system through its trap
    handlers (faults, ticks, yields, calls, spawns, and the calls of the device
    manager) ends without a panic in a state that satisfies the kernel invariant,
    and what [p2_poll_crash] returned to the device manager are exactly the causes with
    which the watched driver crashed, in that order, if the system is polled once more
    for a last crash that still waits.  A poll that finds nothing returns 0, so zeros
    are left out on both sides (and a crash of cause 0 is not told from none).
    Assumed are: a well-formed manifest; events that keep the conditions of
    [glue_event_ok] (a clock with room for a quantum, a hardware interface that keeps
    its contract, and for system calls and spawns those of [event_ok]); fewer than 2^32
    events; and [trace_ok]: threads are started by spawning, and a respawned driver is
    watched only after the last crash was polled, as the device manager's loop does. *)
Theorem no_crash_lost b u k es :
  manifest_wf (hardware_manifest b) →
  populate_from_boot_info b EMPTY_STATE = (Ok u, k) →
  Forall glue_event_ok es → (N.of_nat (length es) < U32)%N → trace_ok es (glue_new k) →
  ∃ crashes polls last g g',
    glue_trace es (glue_new k) = (Ok (crashes, polls), g) ∧ kinv (g_kernel g) ∧
    p2_poll_crash g = (Ok last, g') ∧
    crashes_in crashes = crashes_in (polls ++ [last]).
Proof.
  intros Hm Hb Hes Hlen Hok.
  destruct (glue_trace_ok es 0 (glue_new k) Hes) as (crashes & polls & g & Ht & Hg & _).
  { split; [by eapply populate_kinv|]. simpl. lia. }
  pose proof (glue_trace_accounts es (glue_new k) crashes polls g (glue_new_inv _ _ _ Hb) Hok Ht) as Hc.
  assert (∃ l g', answer GPollCrash g = (Ok l, g')) as (l & g' & Ha) by (eexists _, _; reflexivity).
  destruct (answer_Ok _ _ _ _ Ha) as [_ Hl]. apply bind_Ok in Ha as (last & g1 & Hp & [= <- <-]).
  exists crashes, polls, last, g, g1. split_and!; [done..|]. cbn [waiting glue_new pending_crash app] in Hc.
  unfold crashes_in in *. by rewrite Hc, !filter_app, Hl.
Qed.
End safety.

(** ** Calls and replies through the registers *)

Section rpc.
Context {BF : Bitflags}.

Lemma tcb_lt k t x : sized k → tcb k t = Some x → (t < N.of_nat MAX_THREADS)%N.
Proof. intros Hk Ht%tget_lt. by rewrite Hk in Ht. Qed.

Lemma dispatch_to_run hal caller n g tc tn :
  sized (g_kernel g) → tcb (g_kernel g) caller = Some tc → tcb (g_kernel g) n = Some tn →
  caller ≠ n → is_Some (entity (sched (g_kernel g)) n) →
  ∃ s, dispatch_to hal caller n g = (Ok (Some (caller, n)), set_kernel (set_sched s (g_kernel g)) g) ∧
    running s = Some n ∧
    ∀ j, is_Some (entity (sched (g_kernel g)) j) → is_Some (entity s j).
Proof.
  intros Hk Hc Hn Hne [e He]. unfold dispatch_to. rewrite run_bind.
  unfold on_k at 1, zoom at 1, sched_do, ignore, on_sched, zoom, Scheduler.dispatch.
  rewrite !run_bind, on_entity_eq, He. run.
  assert (∀ s, user_ctx_switch_ptrs (set_sched s (g_kernel g)) caller n = Some (caller, n)) as Hptr.
  { intros s. unfold user_ctx_switch_ptrs. rewrite (proj2 (N.eqb_neq _ _)) by done.
    pose proof (tcb_lt _ _ _ Hk Hc). pose proof (tcb_lt _ _ _ Hk Hn).
    rewrite !(proj2 (N.leb_gt (N.of_nat MAX_THREADS) _)) by done. simpl.
    unfold tcb in *. simpl. by rewrite Hc, Hn. }
  cbn [g_kernel set_kernel]. rewrite Hptr. eexists. split; [reflexivity|]. split; [done|].
  intros j Hj. unfold entity in *. simpl. by apply (is_Some_tget_insert _ _ _ _ e).
Qed.

Lemma tcb_take_run {A} n (f : Tcb → option A * Tcb) g t :
  tcb (g_kernel g) n = Some t →
  tcb_take n f g = (Ok (f t).1, set_kernel (update_tcb n (λ t, (f t).2) (g_kernel g)) g).
Proof. intros Ht. unfold tcb_take. run. rewrite Ht. run. done. Qed.

Lemma dispatch_sized caller now op hal k r k1 :
  sized k → dispatch caller now op hal k = (r, k1) → sized k1.
Proof.
  intros Hk Hd. pose proof (keeps_dispatch_call None caller now op hal k) as He.
  rewrite Hd in He. by apply He.
Qed.

(** A call to a waiting server. *)
Lemma p2_ipc_call_run hal caller r ecap label g c ep tr tc :
  let k := g_kernel g in
  kinv k → holds k caller ecap c → or_kind (cap_object c) = EndpointK →
  allows c WRITE = true → endpoint k (or_id (cap_object c)) = Some ep →
  blocked_receiver ep = Some r → r ≠ caller → tcb k r = Some tr → tcb k caller = Some tc →
  is_Some (entity (sched k) r) → is_Some (entity (sched k) caller) →
  ∃ g1, p2_ipc_call hal caller ecap label g = (Ok (Some (mkSwitch caller r (Some (caller, label)))), g1) ∧
    sized (g_kernel g1) ∧ running (sched (g_kernel g1)) = Some r ∧
    tcb (g_kernel g1) r = Some (set_tcb_msg None (set_tcb_from None (set_tcb_state Runnable
      (set_tcb_from (Some caller) (set_tcb_msg (Some (msg_new label)) tr))))) ∧
    tcb (g_kernel g1) caller = Some (set_tcb_state BlockedOnReply tc) ∧
    ∀ j, is_Some (entity (sched k) j) → is_Some (entity (sched (g_kernel g1)) j).
Proof.
  intros k Hk Hh Hkind Ha Hep Hr Hne Htr Htc Her Hec.
  destruct (do_send_call_run caller ecap (msg_new label) (hal_now_ns hal) k c ep r)
    as (k1 & H1 & Ht1 & Hs1); [done..|apply msg_new_wf|done|done|].
  assert (sized k1) as Hsz1.
  { eapply (dispatch_sized caller _ (Call ecap (msg_new label)) hal); [apply (ki_sizes _ Hk)|exact H1]. }
  assert (∀ j, is_Some (entity (sched k) j) → is_Some (entity (sched k1) j)) as Hent1.
  { intros j Hj. apply (fmap_is_Some se_state). fold (run_state k1 j). rewrite Hs1.
    repeat case_decide; [done..|]. by apply fmap_is_Some. }
  assert (tcb k1 r = Some (set_tcb_state Runnable (set_tcb_from (Some caller)
    (set_tcb_msg (Some (msg_new label)) tr)))) as Hr1.
  { rewrite Ht1, Htr, decide_False, decide_True by done. done. }
  assert (tcb k1 caller = Some (set_tcb_state BlockedOnReply tc)) as Hc1.
  { rewrite Ht1, Htc, decide_True by done. by rewrite decide_False. }
  destruct (dispatch_to_run hal caller r (set_kernel k1 g) _ _ Hsz1 Hc1 Hr1 (not_eq_sym Hne))
    as (s1 & Hd1 & Hrun1 & Hes1); [by apply Hent1|].
  cbn [g_kernel set_kernel] in *. eexists. split.
  - unfold p2_ipc_call. rewrite run_bind. unfold attempt, on_k at 1, zoom at 1. fold k.
    cbn [dispatch]. rewrite H1. rewrite run_bind, Hd1. cbn [or_return]. rewrite run_bind.
    rewrite (tcb_take_run r take_delivery (set_kernel (set_sched s1 k1) (set_kernel k1 g)) _ Hr1).
    reflexivity.
  - cbn [g_kernel set_kernel]. rewrite sched_update_tcb, !tcb_update_tcb. split_and!.
    + by apply (evolves_update_tcb None).
    + done.
    + rewrite decide_True by done. change (tcb (set_sched s1 k1) r) with (tcb k1 r). by rewrite Hr1.
    + by rewrite decide_False.
    + intros j Hj. by apply Hes1, Hent1.
Qed.

(** A reply to a caller that waits for it. *)
Lemma p2_ipc_reply_run hal caller to label g tc tt0 :
  let k := g_kernel g in
  sized k → caller ≠ to → tcb k caller = Some tc → tcb k to = Some tt0 →
  tcb_state tt0 = BlockedOnReply →
  is_Some (entity (sched k) to) → is_Some (entity (sched k) caller) →
  ∃ g1, p2_ipc_reply hal caller to label g = (Ok (Some (mkSwitch caller to (Some (label, 0%N)))), g1) ∧
    running (sched (g_kernel g1)) = Some to ∧ (pending_msg <$> tcb (g_kernel g1) to) = Some None.
Proof.
  intros k Hk Hne Hc Ht Hst Het Hec.
  destruct (do_reply_run caller to (msg_new label) (hal_now_ns hal) k tt0 Hne Ht Hst Het Hec)
    as (k1 & H1 & Ht1 & Hs1).
  assert (sized k1) as Hsz1 by (by eapply (dispatch_sized caller _ (Reply to (msg_new label)) hal)).
  pose proof (Ht1 to) as Hto. rewrite Ht, decide_True in Hto by done.
  pose proof (Ht1 caller) as Hca. rewrite Hc, decide_False in Hca by done.
  assert (is_Some (entity (sched k1) to)) as Het1.
  { apply (fmap_is_Some se_state). fold (run_state k1 to). rewrite Hs1.
    by rewrite decide_False, decide_True by done. }
  destruct (dispatch_to_run hal caller to (set_kernel k1 g) _ _ Hsz1 Hca Hto Hne Het1)
    as (s1 & Hd1 & Hrun1 & _).
  cbn [g_kernel set_kernel] in *. eexists. split.
  - unfold p2_ipc_reply. rewrite run_bind. unfold attempt, on_k at 1, zoom at 1. fold k.
    cbn [dispatch]. rewrite H1. rewrite run_bind, Hd1. cbn [or_return]. rewrite run_bind.
    rewrite (tcb_take_run to take_msg (set_kernel (set_sched s1 k1) (set_kernel k1 g)) _ Hto).
    reflexivity.
  - cbn [g_kernel set_kernel]. rewrite sched_update_tcb, tcb_update_tcb, decide_True by done.
    split; [done|]. change (tcb (set_sched s1 k1) to) with (tcb k1 to). by rewrite Hto.
Qed.

End rpc.

(** Two processes; the first is the driver, which crashes, is polled, is respawned
    as the third, and crashes again. *)
Definition sample_spawn : GlueEvent :=
  GSystem (EvSpawn sample_hal 65536 65536 100 131072 8192 65536).

Definition sample_supervision : list GlueEvent :=
  [sample_spawn; sample_spawn; GRegisterManager 2; GWatchDriver 1;
   GSystem (EvYieldTo 0 1 5); GFault sample_hal 13 4096 8192; GWaitCrash sample_hal; GPollCrash;
   sample_spawn; GWatchDriver 3; GHandoffToDriver sample_hal 3; GFault sample_hal 2 4096 0].

Lemma no_crash_lost_witness :
  ∃ crashes polls last g, (glue_trace sample_supervision (glue_new sample_state)).1 = Ok (crashes, polls) ∧
    crashes = [13; 2]%N ∧ polls = [13%N] ∧ (p2_poll_crash g).1 = Ok last ∧
    crashes_in crashes = crashes_in (polls ++ [last]).
Proof.
  assert (Forall glue_event_ok sample_supervision) as Hes.
  { repeat (apply Forall_cons; split); try exact I; try by apply Forall_nil.
    all: split; [apply sample_hal_ok|done]. }
  assert (trace_ok sample_supervision (glue_new sample_state)) as Hok by by vm_compute.
  assert ((glue_trace sample_supervision (glue_new sample_state)).1 = Ok ([13; 2]%N, [13]%N)) as Hr
    by by vm_compute.
  destruct (no_crash_lost sample_boot tt sample_state sample_supervision sample_manifest_wf
    sample_boots Hes eq_refl Hok) as (crashes & polls & last & g & g' & Ht & _ & Hp & Hc).
  exists crashes, polls, last, g. rewrite Ht in Hr. injection Hr as -> ->.
  rewrite Ht. split; [reflexivity|]. split; [reflexivity|]. split; [reflexivity|].
  split; [by rewrite Hp|exact Hc].
Defined.

