(* ===== verification/Virtio.v ===== *)
(** * Virtio transports

    What [driver-virtio-blk/src/lib.rs] and [driver-virtio-net/src/lib.rs] have in
    common: volatile accesses, the two transports and the accessors of their
    registers, which are the same text in both crates.

    A driver sees the machine through a [Bus]: what a load returns and what a
    store does is up to the bus, with a state of its own, so a statement for all
    buses holds whatever the device does, at any time.  [logged] records the
    accesses. *)

From S2P Require Import Prelude Ipc.

(** ** Accesses *)

Inductive Width := W8 | W16 | W32 | W64.

#[export] Instance width_eq_dec : EqDecision Width.
Proof. solve_decision. Defined.

Definition width_bytes (w : Width) : N :=
  match w with W8 => 1 | W16 => 2 | W32 => 4 | W64 => 8 end.

Definition width_mod (w : Width) : N := 2 ^ (8 * width_bytes w).

(** [bus_wait] is the system call that waits for an interrupt. *)
Record Bus (D : Type) := mkBus {
  bus_load : Width → N → D → N * D;
  bus_store : Width → N → N → D → D;
  bus_wait : D → D;
}.
Arguments mkBus {D}.
Arguments bus_load {D}.
Arguments bus_store {D}.
Arguments bus_wait {D}.

Inductive Access :=
| Load (w : Width) (addr v : N)
| Store (w : Width) (addr v : N)
| WaitIrq.

Definition logged {D} (B : Bus D) : Bus (D * list Access) := {|
  bus_load w a s := let '(v, d) := bus_load B w a s.1 in
                    (v, (d, s.2 ++ [Load w a (truncate (width_mod w) v)]));
  bus_store w a v s := (bus_store B w a v s.1, s.2 ++ [Store w a v]);
  bus_wait s := (bus_wait B s.1, s.2 ++ [WaitIrq]);
|}.

(** ** Transports *)

Module mmio.
Definition MAGIC_VALUE : N := 0.
Definition VERSION : N := 4.
Definition DEVICE_ID : N := 8.
Definition DEVICE_FEATURES : N := 16.
Definition DEVICE_FEATURES_SEL : N := 20.
Definition DRIVER_FEATURES : N := 32.
Definition DRIVER_FEATURES_SEL : N := 36.
Definition QUEUE_SEL : N := 48.
Definition QUEUE_NUM_MAX : N := 52.
Definition QUEUE_NUM : N := 56.
Definition QUEUE_READY : N := 68.
Definition QUEUE_NOTIFY : N := 80.
Definition INTERRUPT_STATUS : N := 96.
Definition INTERRUPT_ACK : N := 100.
Definition STATUS : N := 112.
Definition QUEUE_DESC_LOW : N := 128.
Definition QUEUE_DESC_HIGH : N := 132.
Definition QUEUE_DRIVER_LOW : N := 144.
Definition QUEUE_DRIVER_HIGH : N := 148.
Definition QUEUE_DEVICE_LOW : N := 160.
Definition QUEUE_DEVICE_HIGH : N := 164.
Definition CONFIG : N := 256.
End mmio.

Module status.
Definition ACKNOWLEDGE : N := 1.
Definition DRIVER : N := 2.
Definition FAILED : N := 128.
Definition FEATURES_OK : N := 8.
Definition DRIVER_OK : N := 4.
End status.

Module pci_common.
Definition DEVICE_FEATURE_SELECT : N := 0.
Definition DEVICE_FEATURE : N := 4.
Definition DRIVER_FEATURE_SELECT : N := 8.
Definition DRIVER_FEATURE : N := 12.
Definition DEVICE_STATUS : N := 20.
Definition QUEUE_SELECT : N := 22.
Definition QUEUE_SIZE : N := 24.
Definition QUEUE_MSIX_VECTOR : N := 26.
Definition QUEUE_ENABLE : N := 28.
Definition QUEUE_NOTIFY_OFF : N := 30.
Definition QUEUE_DESC : N := 32.
Definition QUEUE_DRIVER : N := 40.
Definition QUEUE_DEVICE : N := 48.
End pci_common.

Inductive Transport :=
| Mmio (base : N)
| Pci (common notify notify_off_multiplier isr device_cfg : N).

Definition VIRTIO_F_VERSION_1 : N := 1.
Definition VIRTIO_MSI_NO_VECTOR : N := 65535.

Inductive DriverError := DProbeFailed | DOutOfRange | DDeviceIo | DUnsupported.

Record DeviceInfo := mkDeviceInfo { sector_size : N; sector_count : N }.

Section accessors.
Context {D E : Type} (B : Bus D).

Abbreviation P := (M D E) (only parsing).

Definition read_volatile (w : Width) (addr : N) : P N := λ d,
  let '(v, d') := bus_load B w addr d in (Ok (truncate (width_mod w) v), d').

Definition write_volatile (w : Width) (addr v : N) : P unit := λ d,
  (Ok tt, bus_store B w addr (truncate (width_mod w) v) d).

Definition wait_for_irq : P unit := λ d, (Ok tt, bus_wait B d).

(** [((base + off) as *const T).read_volatile()], [T] of width [w]. *)
Definition load (w : Width) (base off : N) : P N :=
  addr ← unwrap (checked_add U64 base off); read_volatile w addr.

Definition store (w : Width) (base off v : N) : P unit :=
  addr ← unwrap (checked_add U64 base off); write_volatile w addr v.

Definition read_device_feature (t : Transport) (word : N) : P N :=
  match t with
  | Mmio base =>
      _ ← store W32 base mmio.DEVICE_FEATURES_SEL word;
      load W32 base mmio.DEVICE_FEATURES
  | Pci common _ _ _ _ =>
      _ ← store W32 common pci_common.DEVICE_FEATURE_SELECT word;
      load W32 common pci_common.DEVICE_FEATURE
  end.

Definition write_driver_feature (t : Transport) (word value : N) : P unit :=
  match t with
  | Mmio base =>
      _ ← store W32 base mmio.DRIVER_FEATURES_SEL word;
      store W32 base mmio.DRIVER_FEATURES value
  | Pci common _ _ _ _ =>
      _ ← store W32 common pci_common.DRIVER_FEATURE_SELECT word;
      store W32 common pci_common.DRIVER_FEATURE value
  end.

Definition read_status (t : Transport) : P N :=
  match t with
  | Mmio base => load W32 base mmio.STATUS
  | Pci common _ _ _ _ => load W8 common pci_common.DEVICE_STATUS
  end.

Definition write_status (t : Transport) (value : N) : P unit :=
  match t with
  | Mmio base => store W32 base mmio.STATUS value
  | Pci common _ _ _ _ => store W8 common pci_common.DEVICE_STATUS value
  end.

Definition select_queue (t : Transport) (idx : N) : P unit :=
  match t with
  | Mmio base => store W32 base mmio.QUEUE_SEL idx
  | Pci common _ _ _ _ => store W16 common pci_common.QUEUE_SELECT idx
  end.

Definition read_queue_size_max (t : Transport) : P N :=
  match t with
  | Mmio base => load W32 base mmio.QUEUE_NUM_MAX
  | Pci common _ _ _ _ => load W16 common pci_common.QUEUE_SIZE
  end.

Definition write_queue_size (t : Transport) (size : N) : P unit :=
  match t with
  | Mmio base => store W32 base mmio.QUEUE_NUM size
  | Pci common _ _ _ _ => store W16 common pci_common.QUEUE_SIZE size
  end.

Definition write_queue_msix_vector (t : Transport) (msix_vector : N) : P unit :=
  match t with
  | Mmio _ => mret tt
  | Pci common _ _ _ _ => store W16 common pci_common.QUEUE_MSIX_VECTOR msix_vector
  end.

Definition write_queue_addrs (t : Transport) (desc avail used : N) : P unit :=
  match t with
  | Mmio base =>
      _ ← store W32 base mmio.QUEUE_DESC_LOW desc;
      _ ← store W32 base mmio.QUEUE_DESC_HIGH (N.shiftr desc 32);
      _ ← store W32 base mmio.QUEUE_DRIVER_LOW avail;
      _ ← store W32 base mmio.QUEUE_DRIVER_HIGH (N.shiftr avail 32);
      _ ← store W32 base mmio.QUEUE_DEVICE_LOW used;
      store W32 base mmio.QUEUE_DEVICE_HIGH (N.shiftr used 32)
  | Pci common _ _ _ _ =>
      _ ← store W64 common pci_common.QUEUE_DESC desc;
      _ ← store W64 common pci_common.QUEUE_DRIVER avail;
      store W64 common pci_common.QUEUE_DEVICE used
  end.

(** The queue's notification offset; [None] for a transport that has none. *)
Definition enable_queue (t : Transport) : P (option N) :=
  match t with
  | Mmio base => _ ← store W32 base mmio.QUEUE_READY 1; mret None
  | Pci common _ _ _ _ =>
      notify_off ← load W16 common pci_common.QUEUE_NOTIFY_OFF;
      _ ← store W16 common pci_common.QUEUE_ENABLE 1;
      mret (Some notify_off)
  end.

Definition notify_queue (t : Transport) (queue_idx notify_off : N) : P unit :=
  match t with
  | Mmio base => store W32 base mmio.QUEUE_NOTIFY queue_idx
  | Pci _ notify mult _ _ =>
      off ← unwrap (checked_mul U64 notify_off mult);
      store W16 notify off queue_idx
  end.

Definition ack_interrupt (t : Transport) : P unit :=
  match t with
  | Mmio base =>
      cause ← load W32 base mmio.INTERRUPT_STATUS;
      store W32 base mmio.INTERRUPT_ACK cause
  | Pci _ _ _ isr _ => _ ← read_volatile W8 isr; mret tt
  end.

Definition read_config (w : Width) (t : Transport) (offset : N) : P N :=
  match t with
  | Mmio base =>
      base ← unwrap (checked_add U64 base mmio.CONFIG); load w base offset
  | Pci _ _ _ _ device_cfg => load w device_cfg offset
  end.

(** [queue_phys], [region_phys]: a physical address from the header word of a
    region, at [PHYS_BASE_OFFSET], which is 0 in both crates. *)
Definition region_phys (region_base offset : N) : P N :=
  base ← load W64 region_base 0; unwrap (checked_add U64 base offset).
End accessors.

(** ** What both drivers do with the accessors

    The text of these is the same in both crates, up to the constants that are
    arguments here. *)

Section handshake.
Context {D : Type} (B : Bus D).

Definition VIRTIO_MMIO_MAGIC : N := 1953655158.
Definition VIRTIO_MMIO_VERSION_MODERN : N := 2.

(** The start of [do_probe]. *)
Definition check_identity (t : Transport) (device : N) : M D DriverError unit :=
  match t with
  | Mmio base =>
      magic ← load B W32 base mmio.MAGIC_VALUE;
      device_id ← load B W32 base mmio.DEVICE_ID;
      version ← load B W32 base mmio.VERSION;
      if negb (magic =? VIRTIO_MMIO_MAGIC)%N || negb (device_id =? device)%N
      then throw DProbeFailed else
      if negb (version =? VIRTIO_MMIO_VERSION_MODERN)%N then throw DProbeFailed else mret tt
  | Pci _ _ _ _ _ => mret tt
  end.

(** The end of the negotiation. *)
Definition check_features (t : Transport) : M D DriverError unit :=
  _ ← write_status B t (N.lor (N.lor status.ACKNOWLEDGE status.DRIVER) status.FEATURES_OK);
  after_features ← read_status B t;
  if (N.land after_features status.FEATURES_OK =? 0)%N then
    _ ← write_status B t status.FAILED;
    throw DProbeFailed
  else mret tt.

(** The set-up of queue [idx] of [size] entries in the region at [base], with its
    three parts at the offsets; the result is that of [enable_queue]. *)
Definition setup_one_queue (t : Transport) (idx vector size base desc avail used : N)
    : M D DriverError (option N) :=
  _ ← select_queue B t idx;
  _ ← write_queue_msix_vector B t vector;
  max ← read_queue_size_max B t;
  if (max =? 0)%N || (truncate U16 max <? size)%N then
    _ ← write_status B t status.FAILED;
    throw DProbeFailed
  else
    _ ← write_queue_size B t size;
    desc_phys ← region_phys B base desc;
    avail_phys ← region_phys B base avail;
    used_phys ← region_phys B base used;
    _ ← write_queue_addrs B t desc_phys avail_phys used_phys;
    enable_queue B t.
End handshake.

(** ** The state of a driver *)

Section state.
Context {X D E : Type}.

(** An access; the driver's own fields do not change. *)
Definition io {A} (m : M D E A) : M (X * D) E A := zoom snd (λ d s, (s.1, d)) m.
Definition self {A} (f : X → A) : M (X * D) E A := gets (λ s, f s.1).
Definition update (f : X → X) : M (X * D) E unit := modify (λ s, (f s.1, s.2)).
End state.

(** A structure is written field by field. *)
Record VirtqDescRaw := mkDesc { d_addr : N; d_len : N; d_flags : N; d_next : N }.

Definition write_desc {D E} (B : Bus D) (base : N) (desc : VirtqDescRaw) : M D E unit :=
  _ ← store B W64 base 0 (d_addr desc);
  _ ← store B W32 base 8 (d_len desc);
  _ ← store B W16 base 12 (d_flags desc);
  store B W16 base 14 (d_next desc).

(** ** The message area of a region, at offset [message] *)

Section message.
Context {D : Type} (B : Bus D) (message base : N).

(** Words [i], [i + 1], ... *)
Fixpoint read_words (i : N) (n : nat) : M D Empty_set (list N) :=
  match n with
  | 0 => mret []
  | S n =>
      w ← load B W64 base (message + 8 * i);
      l ← read_words (i + 1) n;
      mret (w :: l)
  end.

Fixpoint write_words (i : N) (l : list N) : M D Empty_set unit :=
  match l with
  | [] => mret tt
  | w :: l =>
      _ ← store B W64 base (message + 8 * i) w;
      write_words (i + 1) l
  end.

Definition read_shared_message : M D Empty_set SmallMessage :=
  label ← load B W64 base message;
  words ← read_words 1 MSG_MAX_WORDS;
  mret (match from_words label words with inr m => m | inl _ => msg_new label end).

Definition write_shared_message (msg : SmallMessage) : M D Empty_set unit :=
  _ ← store B W64 base message (msg_label msg);
  w ← unwrap (words msg);
  write_words 1 ((λ i, default 0%N (w !! i)) <$> seq 0 MSG_MAX_WORDS).
End message.
