(* ===== verification/VirtioRules.v ===== *)
(** * The rules of virtio

    [mon] is a monitor of the rules that the virtio specification (virtio 1.x,
    2.1, 3.1, 4.1.4, 4.2) has for drivers: it reads a log of accesses and gives
    [None] at the first one that breaks a rule.  [acc] is a logic for the logs of
    a program, with a rule for every accessor of [Virtio]. *)

From S2P Require Import Prelude PhysMem Virtio.

(** ** What an access means *)

Inductive Part := Desc | Avail | Used.

#[export] Instance part_eq_dec : EqDecision Part.
Proof. solve_decision. Defined.

Inductive Half := Lo | Hi | Whole.

(** The registers of both transports; [QueueSize] is the maximum when loaded and
    the chosen size when stored; [Ram r off] is a byte of the [r]-th shared region;
    [Notify off] is an address in the notification window. *)
Inductive Reg :=
| Identity
| DeviceFeaturesSel | DeviceFeatures | DriverFeaturesSel | DriverFeatures
| Status | QueueSel | QueueSize | QueueMsix | QueueEnable | QueueNotifyOff
| QueueAddr (p : Part) (h : Half)
| InterruptStatus | InterruptAck | Isr
| Config (off : N)
| Notify (off : N)
| Ram (r : nat) (off : N).

(** The registers at an offset of a window (virtio 1.x, 4.2.2 and 4.1.4.3). *)
Definition mmio_reg (w : Width) (off : N) : option Reg :=
  if (256 <=? off)%N then Some (Config (off - 256)) else
  if negb (bool_decide (w = W32)) then None else
  match off with
  | 0 | 4 | 8 => Some Identity
  | 16 => Some DeviceFeatures
  | 20 => Some DeviceFeaturesSel
  | 32 => Some DriverFeatures
  | 36 => Some DriverFeaturesSel
  | 48 => Some QueueSel
  | 52 | 56 => Some QueueSize
  | 68 => Some QueueEnable
  | 80 => Some (Notify 0)
  | 96 => Some InterruptStatus
  | 100 => Some InterruptAck
  | 112 => Some Status
  | 128 => Some (QueueAddr Desc Lo)
  | 132 => Some (QueueAddr Desc Hi)
  | 144 => Some (QueueAddr Avail Lo)
  | 148 => Some (QueueAddr Avail Hi)
  | 160 => Some (QueueAddr Used Lo)
  | 164 => Some (QueueAddr Used Hi)
  | _ => None
  end%N.

Definition pci_reg (w : Width) (off : N) : option Reg :=
  match w, off with
  | W32, 0 => Some DeviceFeaturesSel
  | W32, 4 => Some DeviceFeatures
  | W32, 8 => Some DriverFeaturesSel
  | W32, 12 => Some DriverFeatures
  | W8, 20 => Some Status
  | W16, 22 => Some QueueSel
  | W16, 24 => Some QueueSize
  | W16, 26 => Some QueueMsix
  | W16, 28 => Some QueueEnable
  | W16, 30 => Some QueueNotifyOff
  | W64, 32 => Some (QueueAddr Desc Whole)
  | W64, 40 => Some (QueueAddr Avail Whole)
  | W64, 48 => Some (QueueAddr Used Whole)
  | _, _ => None
  end%N.

Definition in_window (base len addr : N) : bool := ((base <=? addr) && (addr <? base + len))%N.

Definition REGION : N := 4096.
Definition MMIO_LEN : N := 512.
Definition COMMON_LEN : N := 56.
Definition CONFIG_LEN : N := 256.

(** The regions, in the order of the list. *)
Fixpoint ram_reg (w : Width) (rams : list N) (addr : N) : option Reg :=
  match rams with
  | [] => None
  | base :: rams =>
      if in_window base REGION addr
      then if (addr - base + width_bytes w <=? REGION)%N then Some (Ram 0 (addr - base)) else None
      else match ram_reg w rams addr with
           | Some (Ram r off) => Some (Ram (S r) off)
           | o => o
           end
  end.

Definition decode (t : Transport) (rams : list N) (w : Width) (addr : N) : option Reg :=
  match t with
  | Mmio base =>
      if in_window base MMIO_LEN addr then mmio_reg w (addr - base) else ram_reg w rams addr
  | Pci common notify _ isr device_cfg =>
      if in_window common COMMON_LEN addr then pci_reg w (addr - common)
      else if in_window isr 1 addr then Some Isr
      else if in_window device_cfg CONFIG_LEN addr then Some (Config (addr - device_cfg))
      else match ram_reg w rams addr with
           | None => if (notify <=? addr)%N then Some (Notify (addr - notify)) else None
           | o => o
           end
  end.

(** ** The rules for drivers *)

Record Queue := mkQueue {
  q_size : option N;
  q_addr : Part → option N * option N;
  q_notify_off : N;
  q_enabled : bool;
}.

Definition queue0 : Queue := mkQueue None (λ _, (None, None)) 0 false.

(** What the driver has told the device and learnt from it: the status it wrote
    last, whether [FEATURES_OK] was read back, the two selectors, the features
    offered and accepted, the queue selected and its maximal size. *)
Record Hs := mkHs {
  h_status : N;
  h_ok : bool;
  h_dev_sel : N;
  h_drv_sel : N;
  h_offered : N → option N;
  h_accepted : N → option N;
  h_sel : option N;
  h_max : option N;
  h_queues : N → Queue;
}.

Definition hs0 : Hs :=
  mkHs 0 false 0 0 (λ _, None) (λ _, None) None None (λ _, queue0).

Definition set_status (s : N) (h : Hs) : Hs :=
  mkHs s (h_ok h) (h_dev_sel h) (h_drv_sel h) (h_offered h) (h_accepted h) (h_sel h) (h_max h) (h_queues h).
Definition set_ok (b : bool) (h : Hs) : Hs :=
  mkHs (h_status h) b (h_dev_sel h) (h_drv_sel h) (h_offered h) (h_accepted h) (h_sel h) (h_max h) (h_queues h).
Definition set_sels (dev drv : N) (h : Hs) : Hs :=
  mkHs (h_status h) (h_ok h) dev drv (h_offered h) (h_accepted h) (h_sel h) (h_max h) (h_queues h).
Definition set_features (off acc : N → option N) (h : Hs) : Hs :=
  mkHs (h_status h) (h_ok h) (h_dev_sel h) (h_drv_sel h) off acc (h_sel h) (h_max h) (h_queues h).
Definition set_sel (q max : option N) (h : Hs) : Hs :=
  mkHs (h_status h) (h_ok h) (h_dev_sel h) (h_drv_sel h) (h_offered h) (h_accepted h) q max (h_queues h).
Definition set_queues (qs : N → Queue) (h : Hs) : Hs :=
  mkHs (h_status h) (h_ok h) (h_dev_sel h) (h_drv_sel h) (h_offered h) (h_accepted h) (h_sel h) (h_max h) qs.

Definition ACK_DRIVER : N := 3.
Definition ACK_DRIVER_FEATURES : N := 11.
Definition LIVE : N := 15.

Definition guard (b : bool) (h : Hs) : option Hs := if b then Some h else None.

(** Queues are set up between the check of [FEATURES_OK] and [DRIVER_OK], and not
    changed once enabled. *)
Definition setting_up (h : Hs) : bool := (h_status h =? ACK_DRIVER_FEATURES)%N && h_ok h.

Definition on_queue (h : Hs) (f : Queue → option Queue) : option Hs :=
  match h_sel h with
  | Some q =>
      if setting_up h && negb (q_enabled (h_queues h q)) then
        match f (h_queues h q) with
        | Some q' => Some (set_queues (upd q q' (h_queues h)) h)
        | None => None
        end
      else None
  | None => None
  end.

Definition set_half (h : Half) (v : N) (a : option N * option N) : option N * option N :=
  match h with
  | Lo => (Some v, a.2)
  | Hi => (a.1, Some v)
  | Whole => (Some (truncate U32 v), Some (N.shiftr v 32))
  end.

Definition q_complete (q : Queue) : bool :=
  negb (is_none (q_size q)) &&
  forallb (λ p, negb (is_none (q_addr q p).1) && negb (is_none (q_addr q p).2)) [Desc; Avail; Used].

Section rules.
(** The queues that the device type has, and in each region the used ring, which
    only the device writes. *)
Context (needed : list N) (used_rings : list (N * N)).

Definition store_status (h : Hs) (v : N) : option Hs :=
  if (v =? 0)%N then Some hs0
  else if (v =? status.FAILED)%N then guard (negb (h_status h =? 0)%N) (set_status v h)
  else if (v =? status.ACKNOWLEDGE)%N then guard (h_status h =? 0)%N (set_status v h)
  else if (v =? ACK_DRIVER)%N then guard (h_status h =? status.ACKNOWLEDGE)%N (set_status v h)
  else if (v =? ACK_DRIVER_FEATURES)%N then
    guard ((h_status h =? ACK_DRIVER)%N &&
           match h_offered h 1, h_accepted h 1 with
           | Some o, Some a => (N.land o VIRTIO_F_VERSION_1 =? N.land a VIRTIO_F_VERSION_1)%N
           | _, _ => false
           end) (set_ok false (set_status v h))
  else if (v =? LIVE)%N then
    guard (setting_up h && forallb (λ q, q_enabled (h_queues h q)) needed) (set_status v h)
  else None.

Definition outside_used (r : nat) (off len : N) : bool :=
  match used_rings !! r with
  | Some (a, b) => (off + len <=? a)%N || (b <=? off)%N
  | None => false
  end.

Definition is_live (h : Hs) : bool := (h_status h =? LIVE)%N.

Definition reg_store (t : Transport) (h : Hs) (w : Width) (r : Reg) (v : N) : option Hs :=
  match r with
  | DeviceFeaturesSel => guard (h_status h =? ACK_DRIVER)%N (set_sels v (h_drv_sel h) h)
  | DriverFeaturesSel => guard (h_status h =? ACK_DRIVER)%N (set_sels (h_dev_sel h) v h)
  | DriverFeatures =>
      guard ((h_status h =? ACK_DRIVER)%N &&
             (N.land v (default 0 (h_offered h (h_drv_sel h))) =? v)%N)
        (set_features (h_offered h) (upd (h_drv_sel h) (Some v) (h_accepted h)) h)
  | Status => store_status h v
  | QueueSel => guard (setting_up h) (set_sel (Some v) None h)
  | QueueMsix => on_queue h Some
  | QueueSize =>
      match h_max h with
      | Some max =>
          if is_power_of_two v && (v <=? max)%N
          then on_queue h (λ q, Some (mkQueue (Some v) (q_addr q) (q_notify_off q) (q_enabled q)))
          else None
      | None => None
      end
  | QueueAddr p half =>
      on_queue h (λ q, Some (mkQueue (q_size q) (upd p (set_half half v (q_addr q p)) (q_addr q))
                               (q_notify_off q) (q_enabled q)))
  | QueueEnable =>
      on_queue h (λ q, if (v =? 1)%N && q_complete q
                       then Some (mkQueue (q_size q) (q_addr q) (q_notify_off q) true) else None)
  | InterruptAck => guard (is_live h) h
  | Notify off =>
      guard (is_live h && q_enabled (h_queues h v) &&
             match t with
             | Mmio _ => true
             | Pci _ _ mult _ _ => bool_decide (w = W16) && (off =? q_notify_off (h_queues h v) * mult)%N
             end) h
  | Ram r off => guard (outside_used r off (width_bytes w)) h
  | _ => None
  end.

Definition reg_load (h : Hs) (r : Reg) (v : N) : option Hs :=
  match r with
  | Identity => Some h
  | DeviceFeatures =>
      guard (h_status h =? ACK_DRIVER)%N
        (set_features (upd (h_dev_sel h) (Some v) (h_offered h)) (h_accepted h) h)
  | Status => Some (set_ok (h_ok h || (h_status h =? ACK_DRIVER_FEATURES)%N &&
                                      negb (N.land v status.FEATURES_OK =? 0)%N) h)
  | QueueSize => guard (setting_up h && negb (is_none (h_sel h))) (set_sel (h_sel h) (Some v) h)
  | QueueNotifyOff =>
      on_queue h (λ q, Some (mkQueue (q_size q) (q_addr q) v (q_enabled q)))
  | InterruptStatus | Isr | Config _ => guard (is_live h) h
  | Ram _ _ => Some h
  | _ => None
  end.

(** The doorbell of a live queue, wherever the device put it. *)
Definition is_doorbell (t : Transport) (h : Hs) (w : Width) (addr v : N) : bool :=
  match t with
  | Mmio _ => false
  | Pci _ notify mult _ _ =>
      is_live h && q_enabled (h_queues h v) && bool_decide (w = W16) &&
      (addr =? notify + q_notify_off (h_queues h v) * mult)%N
  end.

Definition mon (t : Transport) (rams : list N) (h : Hs) (a : Access) : option Hs :=
  match a with
  | Load w addr v =>
      match decode t rams w addr with Some r => reg_load h r v | None => None end
  | Store w addr v =>
      if is_doorbell t h w addr v then Some h else
      match decode t rams w addr with Some r => reg_store t h w r v | None => None end
  | WaitIrq => guard (is_live h) h
  end.

Fixpoint mons (t : Transport) (rams : list N) (h : Hs) (l : list Access) : option Hs :=
  match l with
  | [] => Some h
  | a :: l => match mon t rams h a with Some h' => mons t rams h' l | None => None end
  end.

Definition conforms (t : Transport) (rams : list N) (l : list Access) : Prop :=
  is_Some (mons t rams hs0 l).
End rules.

(** ** Reasoning about logs *)

Lemma in_window_add base len off : (off < len)%N → in_window base len (base + off) = true.
Proof. unfold in_window. intros. apply andb_true_intro. split; [apply N.leb_le|apply N.ltb_lt]; lia. Qed.

Lemma decode_mmio base rams w off :
  (off < MMIO_LEN)%N → decode (Mmio base) rams w (base + off) = mmio_reg w off.
Proof. intros. simpl. rewrite in_window_add by done. f_equal. lia. Qed.

Lemma decode_pci common n k i c rams w off :
  (off < COMMON_LEN)%N → decode (Pci common n k i c) rams w (common + off) = pci_reg w off.
Proof. intros. simpl. rewrite in_window_add by done. f_equal. lia. Qed.

(** The windows of a transport do not overlap each other nor the regions. *)
Definition apart (a la b lb : N) : Prop := (a + la ≤ b ∨ b + lb ≤ a)%N.

Definition layout_ok (t : Transport) (rams : list N) : Prop :=
  match t with
  | Mmio base => Forall (λ r, apart base MMIO_LEN r REGION) rams
  | Pci common _ _ isr device_cfg =>
      apart common COMMON_LEN isr 1 ∧ apart common COMMON_LEN device_cfg CONFIG_LEN ∧
      apart isr 1 device_cfg CONFIG_LEN ∧
      Forall (λ r, apart common COMMON_LEN r REGION ∧ apart isr 1 r REGION ∧
                   apart device_cfg CONFIG_LEN r REGION) rams
  end ∧ ∀ i j a b, rams !! i = Some a → rams !! j = Some b → i ≠ j → apart a REGION b REGION.

Lemma apart_window a la b lb x : apart a la b lb → in_window b lb x = true → in_window a la x = false.
Proof.
  unfold apart, in_window. intros Ha [H1 H2]%andb_prop. apply N.leb_le in H1. apply N.ltb_lt in H2.
  apply andb_false_iff. rewrite N.leb_gt, N.ltb_ge. lia.
Qed.

Lemma ram_reg_at w rams r base off :
  (∀ i j a b, rams !! i = Some a → rams !! j = Some b → i ≠ j → apart a REGION b REGION) →
  rams !! r = Some base → (off + width_bytes w ≤ REGION)%N → ram_reg w rams (base + off) = Some (Ram r off).
Proof.
  assert (0 < width_bytes w)%N as Hw by by destruct w.
  revert r. induction rams as [|b rams IH]; intros r Hd Hr Ho; [done|]. simpl.
  destruct r as [|r]; simpl in Hr.
  - injection Hr as ->. rewrite in_window_add by lia. replace (base + off - base)%N with off by lia.
    by apply N.leb_le in Ho as ->.
  - rewrite (apart_window b REGION base REGION) by
      (first [apply in_window_add; lia | by apply (Hd 0 (S r))]).
    rewrite (IH r); [done| |done|done].
    intros i j a c Hi Hj Hn. apply (Hd (S i) (S j)); [done|done|lia].
Qed.

Lemma decode_ram t rams w r base off :
  layout_ok t rams → rams !! r = Some base → (off + width_bytes w ≤ REGION)%N →
  decode t rams w (base + off) = Some (Ram r off).
Proof.
  intros [Hl Hd] Hr Ho. pose proof (ram_reg_at w rams r base off Hd Hr Ho) as E.
  assert (in_window base REGION (base + off) = true) as Hin.
  { apply in_window_add. destruct w; simpl in Ho; lia. }
  destruct t as [b|common n k isr cfg]; simpl.
  - rewrite (apart_window b MMIO_LEN base REGION); [done| |done].
    by apply (Forall_lookup_1 _ _ _ _ Hl Hr).
  - destruct Hl as (_ & _ & _ & Hl). destruct (Forall_lookup_1 _ _ _ _ Hl Hr) as (H1 & H2 & H3).
    rewrite (apart_window _ _ _ _ _ H1 Hin), (apart_window _ _ _ _ _ H2 Hin), (apart_window _ _ _ _ _ H3 Hin).
    by rewrite E.
Qed.

Lemma decode_isr common n k isr cfg rams w :
  layout_ok (Pci common n k isr cfg) rams →
  decode (Pci common n k isr cfg) rams w isr = Some Isr.
Proof.
  intros [(H1 & _ & _ & _) _]. simpl.
  assert (in_window isr 1 isr = true) as Hin by (rewrite <- (N.add_0_r isr) at 2; by apply in_window_add).
  by rewrite (apart_window _ _ _ _ _ H1 Hin), Hin.
Qed.

Lemma decode_config common n k isr cfg rams w off :
  layout_ok (Pci common n k isr cfg) rams → (off < CONFIG_LEN)%N →
  decode (Pci common n k isr cfg) rams w (cfg + off) = Some (Config off).
Proof.
  intros [(_ & H2 & H3 & _) _] Ho. simpl. pose proof (in_window_add cfg CONFIG_LEN off Ho) as Hin.
  rewrite (apart_window _ _ _ _ _ H2 Hin), (apart_window _ _ _ _ _ H3 Hin), Hin.
  repeat f_equal. lia.
Qed.

(** A store to a register that means [r]. *)
Lemma step_store needed used t rams h h' w addr v r :
  decode t rams w addr = Some r →
  reg_store needed used t h w r v = Some h' → (w ≠ W16 ∨ is_live h = false) →
  mon needed used t rams h (Store w addr v) = Some h'.
Proof.
  intros Hd Hr Hw. unfold mon. rewrite Hd.
  assert (is_doorbell t h w addr v = false) as ->; [|done].
  destruct t; [done|]. unfold is_doorbell. destruct Hw as [Hw|Hw].
  - rewrite bool_decide_eq_false_2 by done. by rewrite andb_false_r, andb_false_l.
  - by rewrite Hw.
Qed.

Lemma step_load needed used t rams h h' w addr v r :
  decode t rams w addr = Some r → reg_load h r v = Some h' → mon needed used t rams h (Load w addr v) = Some h'.
Proof. intros Hd Hr. unfold mon. by rewrite Hd. Qed.

Lemma setting_up_live h : setting_up h = true → is_live h = false.
Proof.
  unfold setting_up, is_live. intros [Hs%N.eqb_eq _]%andb_prop. by rewrite Hs.
Qed.
(** What can be said about a bus: [at_ h s] if the accesses up to the state [s] are
    as the monitor's state [h] has it; [val_ok] are the values that a load can
    give, [store_ok] the stores that are allowed, [fine] the states in which the
    bus is understood. *)
Class Observes (needed : list N) (used : list (N * N)) (t : Transport) (rams : list N)
    {D} (B : Bus D) := {
  at_ : Hs → D → Prop;
  val_ok : Width → N → N → Prop;
  store_ok : Width → N → Prop;
  ob_reg w addr r :
    decode t rams w addr = Some r → (∀ i off, r ≠ Ram i off) → store_ok w addr;
  fine : Hs → Prop;
  ob_fine h : is_live h = false → fine h;
  ob_load h s w addr v d : at_ h s → fine h → bus_load B w addr s = (v, d) →
    val_ok w addr (truncate (width_mod w) v) ∧
    ∀ h', mon needed used t rams h (Load w addr (truncate (width_mod w) v)) = Some h' → at_ h' d;
  ob_store h s w addr v h' : at_ h s → fine h → store_ok w addr →
    mon needed used t rams h (Store w addr v) = Some h' → at_ h' (bus_store B w addr v s);
  ob_wait h s h' : at_ h s → fine h → mon needed used t rams h WaitIrq = Some h' → at_ h' (bus_wait B s);
}.

Lemma mons_app needed used t rams h l a :
  mons needed used t rams h (l ++ [a]) =
    match mons needed used t rams h l with Some h' => mon needed used t rams h' a | None => None end.
Proof.
  revert h. induction l as [|b l IH]; intros h; simpl; [by destruct (mon _ _ _ _ h a)|].
  by destruct (mon _ _ _ _ h b).
Qed.

(** A log observes any bus. *)
#[export] Instance log_observes needed used t rams {D} (B : Bus D) :
  Observes needed used t rams (logged B).
Proof.
  refine {| at_ h s := mons needed used t rams hs0 s.2 = Some h;
            val_ok _ _ _ := True; store_ok _ _ := True; fine _ := True |}.
  - done.
  - done.
  - intros h s w addr v d Hs _ Hl. simpl in Hl. destruct (bus_load B w addr s.1) as [x d1].
    injection Hl as -> <-. split; [done|]. intros h' Hm. simpl. by rewrite mons_app, Hs.
  - intros h s w addr v h' Hs _ _ Hm. simpl. by rewrite mons_app, Hs.
  - intros h s h' Hs _ Hm. simpl. by rewrite mons_app, Hs.
Defined.

Section triples.
Context {D E : Type} (needed : list N) (used : list (N * N)).
Context (t : Transport) (rams : list N) (B : Bus D) {OB : Observes needed used t rams B}.

Abbreviation step := (mon needed used t rams).

(** Run from a state that is as [h] says, [m] panics or gives a result that
    satisfies [Q], and what it did is accepted by the monitor in either case. *)
Definition acc {A} (h : Hs) (m : M D E A) (Q : A → Hs → Prop) : Prop :=
  ∀ s, at_ h s → ∃ h', at_ h' (m s).2 ∧
    match (m s).1 with Ok a => Q a h' | Err _ => False | Panic => True end.

Lemma acc_ret {A} h (a : A) (Q : A → Hs → Prop) : Q a h → acc h (mret a) Q.
Proof using. intros HQ s Hs. by exists h. Qed.

Lemma acc_bind {A C} h (m : M _ E A) (k : A → M _ E C) Q :
  acc h m (λ a h', acc h' (k a) Q) → acc h (m ≫= k) Q.
Proof using.
  intros Hm s Hs. destruct (Hm s Hs) as (h1 & H1 & Hr). unfold mbind, M_bind.
  destruct (m s) as [[a|e|] s1]; simpl in *; [by apply Hr|done|by exists h1].
Qed.

Lemma acc_mono {A} h (m : M _ E A) (Q Q' : A → Hs → Prop) :
  acc h m Q → (∀ a h', Q a h' → Q' a h') → acc h m Q'.
Proof using.
  intros Hm HQ s Hs. destruct (Hm s Hs) as (h1 & H1 & Hr). exists h1. split; [done|].
  destruct (m s).1; auto.
Qed.

Lemma acc_unwrap {A} h (o : option A) (Q : A → Hs → Prop) :
  (∀ a, o = Some a → Q a h) → acc h (unwrap o) Q.
Proof using. intros HQ s Hs. exists h. destruct o; simpl; auto. Qed.

Lemma acc_sum h a b (Q : N → Hs → Prop) :
  ((a + b < U64)%N → Q (a + b)%N h) → acc h (unwrap (checked_add U64 a b)) Q.
Proof using.
  intros HQ. apply acc_unwrap. unfold checked_add. intros c.
  destruct (_ <? _)%N eqn:Hlt; intros [= <-]. by apply HQ, N.ltb_lt.
Qed.

Lemma acc_write h h' w addr v (Q : unit → Hs → Prop) :
  fine h → store_ok w addr → step h (Store w addr (truncate (width_mod w) v)) = Some h' → Q tt h' →
  acc h (write_volatile B w addr v) Q.
Proof using. intros Hf Ho Hm HQ s Hs. exists h'. split; [|done]. by eapply ob_store. Qed.

Lemma acc_read h w addr (Q : N → Hs → Prop) :
  fine h →
  (∀ v, (v < width_mod w)%N → val_ok w addr v →
        ∃ h', step h (Load w addr v) = Some h' ∧ Q v h') →
  acc h (read_volatile B w addr) Q.
Proof using.
  intros Hf HQ s Hs. unfold read_volatile. destruct (bus_load B w addr s) as [v d] eqn:Hl. simpl.
  destruct (ob_load h s w addr v d Hs Hf Hl) as [Hv Hstep].
  assert (truncate (width_mod w) v < width_mod w)%N as Hlt.
  { unfold truncate. apply N.mod_lt. by destruct w. }
  destruct (HQ _ Hlt Hv) as (h' & Hm & HQ'). exists h'. auto.
Qed.

Lemma acc_store h h' w base off v (Q : unit → Hs → Prop) :
  fine h → store_ok w (base + off) → step h (Store w (base + off) (truncate (width_mod w) v)) = Some h' → Q tt h' →
  acc h (store B w base off v) Q.
Proof using.
  intros Hf Ho Hm HQ. apply acc_bind, acc_sum. intros _. by eapply acc_write.
Qed.

Lemma acc_load h w base off (Q : N → Hs → Prop) :
  fine h →
  (∀ v, (v < width_mod w)%N → val_ok w (base + off) v →
        ∃ h', step h (Load w (base + off) v) = Some h' ∧ Q v h') →
  acc h (load B w base off) Q.
Proof using.
  intros Hf HQ. apply acc_bind, acc_sum. intros _. by apply acc_read.
Qed.

Lemma acc_wait h (Q : unit → Hs → Prop) :
  fine h → is_live h = true → Q tt h → acc h (wait_for_irq B) Q.
Proof using.
  intros Hf Hl HQ s Hs. exists h. split; [|done]. eapply ob_wait; [done|done|]. simpl. by rewrite Hl.
Qed.

End triples.

(** A register access of an accessor: what it means, and what the monitor does. *)
Ltac reg_at := first [rewrite decode_mmio by reflexivity|rewrite decode_pci by reflexivity]; reflexivity.
Ltac reg_ok := eapply ob_reg; [reg_at|done].
Ltac reg_step := first [eapply step_store; [reg_at| |]|eapply step_load; [reg_at|]].

(** ** The accessors *)

Section accessors.
Context {D E : Type} (needed : list N) (used : list (N * N)).
Context (t : Transport) (rams : list N) (B : Bus D) {OB : Observes needed used t rams B}.

Abbreviation acc := (acc (E := E) needed used t rams B).
Abbreviation step := (mon needed used t rams).

Lemma truncate_id w v : (v < w)%N → truncate w v = v.
Proof using. apply N.mod_small. Qed.

Lemma truncate_le m w v : (v < m)%N → (m <=? w)%N = true → truncate w v = v.
Proof using. intros Hv Hm%N.leb_le. apply truncate_id. lia. Qed.

Lemma fine_status h n : h_status h = n → (n =? LIVE)%N = false → fine h.
Proof using. intros Hs Hn. apply ob_fine. unfold is_live. by rewrite Hs. Qed.

Lemma fine_setting_up h : setting_up h = true → fine h.
Proof using. intros Hs. by apply ob_fine, setting_up_live. Qed.

Lemma acc_read_device_feature h word (Q : N → Hs → Prop) :
  h_status h = ACK_DRIVER → (word < U32)%N →
  (∀ v, (v < U32)%N →
     Q v (set_features (upd word (Some v) (h_offered h)) (h_accepted h) (set_sels word (h_drv_sel h) h))) →
  acc h (read_device_feature B t word) Q.
Proof using.
  intros Hs Hw HQ. unfold read_device_feature.
  assert (∀ h1, h_status h1 = ACK_DRIVER → fine h1) as Hf by (intros; by eapply fine_status).
  destruct t as [base|common n k isr cfg]; apply acc_bind;
    (eapply acc_store; [by apply Hf|reg_ok|reg_step; [simpl; by rewrite Hs|by left]|]);
    (apply acc_load; [by apply Hf|]); intros v Hv Hval; (eexists; split; [reg_step; simpl; by rewrite Hs|]);
    rewrite truncate_id by done; apply HQ, Hv.
Qed.

Lemma acc_write_driver_feature h word v (Q : unit → Hs → Prop) :
  h_status h = ACK_DRIVER → (word < U32)%N → (v < U32)%N →
  N.land v (default 0%N (h_offered h word)) = v →
  Q tt (set_features (h_offered h) (upd word (Some v) (h_accepted h)) (set_sels (h_dev_sel h) word h)) →
  acc h (write_driver_feature B t word v) Q.
Proof using.
  intros Hs Hw Hv Hsub HQ. unfold write_driver_feature.
  assert (∀ h1, h_status h1 = ACK_DRIVER → fine h1) as Hf by (intros; by eapply fine_status).
  destruct t as [base|common n k isr cfg]; apply acc_bind;
    (eapply acc_store; [by apply Hf|reg_ok|reg_step; [simpl; by rewrite Hs|by left]|]);
    (eapply acc_store; [by apply Hf|reg_ok|reg_step; [simpl; rewrite Hs, !truncate_id by done; simpl; by rewrite Hsub, N.eqb_refl
                                  |by left]|]);
    exact HQ.
Qed.

Lemma acc_write_status h h' v (Q : unit → Hs → Prop) :
  fine h → (v < 256)%N → store_status needed h v = Some h' → Q tt h' → acc h (write_status B t v) Q.
Proof using.
  intros Hf Hv Hs HQ. unfold write_status.
  destruct t as [base|common n k isr cfg];
    (eapply acc_store; [done|reg_ok|reg_step; [simpl; rewrite (truncate_le 256) by done; exact Hs|by left]|exact HQ]).
Qed.

Lemma acc_read_status h (Q : N → Hs → Prop) :
  fine h →
  (∀ v, Q v (set_ok (h_ok h || (h_status h =? ACK_DRIVER_FEATURES)%N &&
                               negb (N.land v status.FEATURES_OK =? 0)%N) h)) →
  acc h (read_status B t) Q.
Proof using.
  intros Hf HQ. unfold read_status.
  destruct t as [base|common n k isr cfg]; (apply acc_load; [done|]); intros v _ _;
    (eexists; split; [by reg_step|apply HQ]).
Qed.

Lemma acc_select_queue h q (Q : unit → Hs → Prop) :
  (q < U16)%N → setting_up h = true → Q tt (set_sel (Some q) None h) →
  acc h (select_queue B t q) Q.
Proof using.
  intros Hq Hs HQ. unfold select_queue.
  pose proof (fine_setting_up h Hs) as Hf.
  destruct t as [base|common n k isr cfg];
    (eapply acc_store; [done|reg_ok|reg_step; [simpl; rewrite (truncate_le U16) by done; by rewrite Hs
                                  |right; by apply setting_up_live]|exact HQ]).
Qed.

Lemma acc_read_queue_size_max h q (Q : N → Hs → Prop) :
  setting_up h = true → h_sel h = Some q →
  (∀ v, (v < U32)%N → Q v (set_sel (Some q) (Some v) h)) →
  acc h (read_queue_size_max B t) Q.
Proof using.
  intros Hs Hq HQ. unfold read_queue_size_max.
  pose proof (fine_setting_up h Hs) as Hf.
  destruct t as [base|common n k isr cfg]; (apply acc_load; [done|]); intros v Hv _;
    (eexists; split; [reg_step; simpl; by rewrite Hs, Hq|apply HQ; by eapply N.lt_le_trans]).
Qed.

Lemma acc_write_queue_size h q max size (Q : unit → Hs → Prop) :
  setting_up h = true → h_sel h = Some q → q_enabled (h_queues h q) = false →
  h_max h = Some max → (size ≤ max)%N → (size < U16)%N → is_power_of_two size = true →
  Q tt (set_queues (upd q (mkQueue (Some size) (q_addr (h_queues h q)) (q_notify_off (h_queues h q)) false)
                      (h_queues h)) h) →
  acc h (write_queue_size B t size) Q.
Proof using.
  intros Hs Hq He Hm Hle Hlt Hp HQ. unfold write_queue_size. apply N.leb_le in Hle.
  pose proof (fine_setting_up h Hs) as Hf.
  destruct t as [base|common n k isr cfg];
    (eapply acc_store; [done|reg_ok|reg_step; [simpl; rewrite (truncate_le U16) by done;
       rewrite Hm, Hp, Hle; unfold on_queue; simpl; by rewrite Hq, Hs, He
       |right; by apply setting_up_live]|exact HQ]).
Qed.

Lemma acc_write_queue_msix_vector h q v (Q : unit → Hs → Prop) :
  setting_up h = true → h_sel h = Some q → q_enabled (h_queues h q) = false →
  (∀ h', h' = h ∨ h' = set_queues (upd q (h_queues h q) (h_queues h)) h → Q tt h') →
  acc h (write_queue_msix_vector B t v) Q.
Proof using.
  intros Hs Hq He HQ. unfold write_queue_msix_vector.
  pose proof (fine_setting_up h Hs) as Hf.
  destruct t as [base|common n k isr cfg]; [by apply acc_ret, HQ; left|].
  eapply acc_store; [done|reg_ok|reg_step; [simpl; unfold on_queue; by rewrite Hq, Hs, He|right; by apply setting_up_live]|].
  apply HQ. by right.
Qed.

(** [h'] differs from [h] only in the queue [q], which is now [q']. *)
Record retuned (q : N) (q' : Queue) (h h' : Hs) : Prop := {
  rt_status : h_status h' = h_status h;
  rt_ok : h_ok h' = h_ok h;
  rt_sel : h_sel h' = h_sel h;
  rt_max : h_max h' = h_max h;
  rt_queue : h_queues h' q = q';
  rt_others i : i ≠ q → h_queues h' i = h_queues h i;
}.

Lemma retuned_upd q q' h : retuned q q' h (set_queues (upd q q' (h_queues h)) h).
Proof using. split; try done; unfold upd; simpl; intros; case_decide; done. Qed.

Lemma retuned_refl q h : retuned q (h_queues h q) h h.
Proof using. done. Qed.

Lemma retuned_trans q q1 q2 h h1 h2 : retuned q q1 h h1 → retuned q q2 h1 h2 → retuned q q2 h h2.
Proof using.
  intros [a1 b1 c1 d1 e1 f1] [a2 b2 c2 d2 e2 f2]. split; try congruence.
  intros i Hi. by rewrite f2, f1.
Qed.

Lemma retuned_setting_up q q' h h' : retuned q q' h h' → setting_up h' = setting_up h.
Proof using. intros [a b _ _ _ _]. unfold setting_up. by rewrite a, b. Qed.

(** The selected queue may be changed. *)
Definition tunable (q : N) (h : Hs) : Prop :=
  setting_up h = true ∧ h_sel h = Some q ∧ q_enabled (h_queues h q) = false.

Lemma tunable_retuned q q' h h' : tunable q h → retuned q q' h h' → q_enabled q' = false → tunable q h'.
Proof using.
  intros (Hs & Hq & _) R He. pose proof (retuned_setting_up _ _ _ _ R). destruct R.
  repeat split; congruence.
Qed.

Lemma on_queue_tunable q h f q' :
  tunable q h → f (h_queues h q) = Some q' → on_queue h f = Some (set_queues (upd q q' (h_queues h)) h).
Proof using. intros (Hs & Hq & He) Hf. unfold on_queue. by rewrite Hq, Hs, He, Hf. Qed.

Definition set_q_addr (p : Part) (half : Half) (v : N) (q : Queue) : Queue :=
  mkQueue (q_size q) (upd p (set_half half v (q_addr q p)) (q_addr q)) (q_notify_off q) (q_enabled q).

(** One store to an address register. *)
Lemma acc_queue_addr h q w base off p half v (Q : unit → Hs → Prop) :
  tunable q h → w ≠ W16 →
  decode t rams w (base + off) = Some (QueueAddr p half) →
  (∀ h', retuned q (set_q_addr p half (truncate (width_mod w) v) (h_queues h q)) h h' → Q tt h') →
  acc h (store B w base off v) Q.
Proof using.
  intros Ht Hw Hd HQ. eapply acc_store; [by apply fine_setting_up, Ht|by eapply ob_reg| |].
  - eapply step_store; [exact Hd|simpl; by eapply on_queue_tunable|by left].
  - apply HQ, retuned_upd.
Qed.

Definition with_addrs (desc avail used : N) (q q' : Queue) : Prop :=
  q_size q' = q_size q ∧ q_notify_off q' = q_notify_off q ∧ q_enabled q' = q_enabled q ∧
  ∀ p, let a := match p with Desc => desc | Avail => avail | Used => used end in
       q_addr q' p = (Some (truncate U32 a), Some (N.shiftr a 32)).

Lemma high_half a : (a < U64)%N → truncate (width_mod W32) (N.shiftr a 32) = N.shiftr a 32.
Proof using.
  intros Ha. apply truncate_id. rewrite N.shiftr_div_pow2. apply N.Div0.div_lt_upper_bound. exact Ha.
Qed.

Lemma acc_write_queue_addrs h q desc avail used_at (Q : unit → Hs → Prop) :
  tunable q h → (desc < U64)%N → (avail < U64)%N → (used_at < U64)%N →
  (∀ h' q', with_addrs desc avail used_at (h_queues h q) q' → retuned q q' h h' → Q tt h') →
  acc h (write_queue_addrs B t desc avail used_at) Q.
Proof using.
  intros Ht Hd Ha Hu HQ. unfold write_queue_addrs.
  assert (∀ q1 h1 w base off v p half (Q' : unit → Hs → Prop), retuned q q1 h h1 →
    q_enabled q1 = q_enabled (h_queues h q) → w ≠ W16 →
    decode t rams w (base + off) = Some (QueueAddr p half) →
    (∀ h2, retuned q (set_q_addr p half (truncate (width_mod w) v) q1) h h2 → Q' tt h2) →
    acc h1 (store B w base off v) Q') as Hstep.
  { intros q1 h1 w base off v p half Q' R He Hw Hdec HQ'. pose proof (rt_queue _ _ _ _ R) as Eq1.
    eapply acc_queue_addr; [|exact Hw|exact Hdec|].
    - eapply tunable_retuned; [exact Ht|exact R|]. rewrite He. apply Ht.
    - intros h2 R2. apply HQ'. rewrite Eq1 in R2. by eapply retuned_trans. }
  pose proof (retuned_refl q h) as R.
  destruct t as [base|common n k isr cfg].
  - do 5 (apply acc_bind; eapply Hstep; [exact R|done|done|reg_at|clear R; intros ? R]).
    eapply Hstep; [exact R|done|done|reg_at|clear R; intros h' R]. eapply HQ; [|exact R].
    split_and!; try done. intros []; simpl; unfold upd; simpl; rewrite high_half by done; done.
  - do 2 (apply acc_bind; eapply Hstep; [exact R|done|done|reg_at|clear R; intros ? R]).
    eapply Hstep; [exact R|done|done|reg_at|clear R; intros h' R]. eapply HQ; [|exact R].
    rewrite !(truncate_id (width_mod W64)) by done. split_and!; try done. by intros [].
Qed.

(** The queue once enabled; the notification offset is the device's choice. *)
Definition enabled_queue (q : Queue) (o : option N) : Queue :=
  mkQueue (q_size q) (q_addr q) (default (q_notify_off q) o) true.

Lemma acc_enable_queue h q (Q : option N → Hs → Prop) :
  tunable q h → q_complete (h_queues h q) = true →
  (∀ o h', match t with Mmio _ => o = None | Pci _ _ _ _ _ => ∃ v, o = Some v ∧ (v < U16)%N end →
           retuned q (enabled_queue (h_queues h q) o) h h' → Q o h') →
  acc h (enable_queue B t) Q.
Proof using.
  intros Ht Hc HQ. unfold enable_queue.
  assert (∀ h1, setting_up h1 = true → fine h1) as Hf by apply fine_setting_up. destruct t as [base|common n k isr cfg].
  - apply acc_bind. eapply acc_store; [by apply Hf, Ht|reg_ok| |].
    + reg_step; [|by left]. simpl. eapply on_queue_tunable; [exact Ht|]. cbv beta. by rewrite Hc.
    + apply acc_ret, HQ; [done|apply retuned_upd].
  - apply acc_bind, acc_load; [by apply Hf, Ht|]. intros v Hv _.
    set (q1 := mkQueue (q_size (h_queues h q)) (q_addr (h_queues h q)) v (q_enabled (h_queues h q))).
    exists (set_queues (upd q q1 (h_queues h)) h). split.
    { reg_step. simpl. by eapply on_queue_tunable. }
    pose proof (retuned_upd q q1 h) as R1. pose proof (rt_queue _ _ _ _ R1) as Eq1.
    apply acc_bind. eapply acc_store; [apply Hf; rewrite (retuned_setting_up _ _ _ _ R1); apply Ht|reg_ok| |].
    + reg_step; [|right; apply setting_up_live; rewrite (retuned_setting_up _ _ _ _ R1); apply Ht].
      cbn [reg_store]. eapply on_queue_tunable.
      * eapply tunable_retuned; [exact Ht|exact R1|apply Ht].
      * cbv beta. rewrite Eq1, (Hc : q_complete q1 = true). reflexivity.
    + apply acc_ret, HQ; [by exists v|]. eapply retuned_trans; [exact R1|].
      apply retuned_upd.
Qed.

Lemma acc_notify_queue h q off (Q : unit → Hs → Prop) :
  fine h → (∀ w addr, store_ok w addr) →
  (q < U16)%N → is_live h = true → q_enabled (h_queues h q) = true →
  match t with Mmio _ => True | Pci _ _ _ _ _ => off = q_notify_off (h_queues h q) end → Q tt h →
  acc h (notify_queue B t q off) Q.
Proof using.
  intros Hf Hst Hq Hl He Ho HQ. unfold notify_queue. destruct t as [base|common n k isr cfg].
  - eapply acc_store; [done|reg_ok|reg_step; [|by left]|exact HQ]. simpl. rewrite (truncate_le U16) by done.
    by rewrite Hl, He.
  - apply acc_bind, acc_unwrap. unfold checked_mul. intros a. destruct (_ <? _)%N; [intros [= <-]|done].
    eapply acc_store; [done|done| |exact HQ]. simpl. rewrite (truncate_le U16) by done.
    rewrite Hl, He, Ho, N.eqb_refl. done.
Qed.

Section in_layout.
Hypothesis Hlayout : layout_ok t rams.

Lemma acc_ack_interrupt h (Q : unit → Hs → Prop) :
  fine h → is_live h = true → Q tt h → acc h (ack_interrupt B t) Q.
Proof using Hlayout.
  intros Hf Hl HQ. unfold ack_interrupt. destruct t as [base|common n k isr cfg].
  - apply acc_bind, acc_load; [done|]. intros v Hv _. exists h. split; [reg_step; simpl; by rewrite Hl|].
    eapply acc_store; [done|reg_ok|reg_step; [simpl; by rewrite Hl|by left]|exact HQ].
  - apply acc_bind, acc_read; [done|]. intros v Hv _. exists h. split; [|by apply acc_ret].
    eapply step_load; [by apply decode_isr|simpl; by rewrite Hl].
Qed.

Lemma acc_read_config h w off (Q : N → Hs → Prop) :
  fine h → is_live h = true → (off + width_bytes w ≤ CONFIG_LEN)%N →
  (∀ v addr, (v < width_mod w)%N → decode t rams w addr = Some (Config off) → val_ok w addr v → Q v h) →
  acc h (read_config B w t off) Q.
Proof using Hlayout.
  intros Hf Hl Ho HQ. assert (off < CONFIG_LEN)%N as Hlt by (destruct w; simpl in Ho; lia).
  assert (∀ addr, decode t rams w addr = Some (Config off) →
    ∀ v, (v < width_mod w)%N → val_ok w addr v → ∃ h', step h (Load w addr v) = Some h' ∧ Q v h') as Hld.
  { intros addr Hd v Hv Hval. exists h. split; [|by eapply HQ].
    eapply step_load; [exact Hd|simpl; by rewrite Hl]. }
  unfold read_config. destruct t as [base|common n k isr cfg].
  - apply acc_bind, acc_sum. intros _. apply acc_load; [done|]. apply Hld.
    rewrite <- N.add_assoc, decode_mmio by (unfold MMIO_LEN, CONFIG_LEN, mmio.CONFIG in *; lia).
    unfold mmio_reg, mmio.CONFIG. rewrite (proj2 (N.leb_le _ _)) by lia. do 2 f_equal. lia.
  - apply acc_load; [done|]. apply Hld. by apply decode_config.
Qed.

Lemma acc_ram_load h r w base off (Q : N → Hs → Prop) :
  fine h →
  rams !! r = Some base → (off + width_bytes w ≤ REGION)%N →
  (∀ v, (v < width_mod w)%N → val_ok w (base + off) v → Q v h) → acc h (load B w base off) Q.
Proof using Hlayout.
  intros Hf Hr Ho HQ. apply acc_load; [done|]. intros v Hv Hval. exists h. split; [|by apply HQ].
  eapply step_load; [by apply (decode_ram _ _ _ r)|done].
Qed.

(** A store outside the used ring; it may be the doorbell as well. *)
Lemma acc_ram_store_at h r w base x off v (Q : unit → Hs → Prop) :
  fine h → (∀ w addr, store_ok w addr) →
  rams !! r = Some base → (x + off + width_bytes w ≤ REGION)%N →
  outside_used used r (x + off) (width_bytes w) = true → Q tt h → acc h (store B w (base + x) off v) Q.
Proof using Hlayout.
  intros Hf Hst Hr Ho Hu HQ. eapply acc_store; [done|done| |exact HQ]. unfold mon.
  destruct (is_doorbell _ _ _ _ _); [done|].
  rewrite <- N.add_assoc, (decode_ram _ _ _ r) by done. simpl. by rewrite Hu.
Qed.

Lemma acc_ram_store h r w base off v (Q : unit → Hs → Prop) :
  fine h → (∀ w addr, store_ok w addr) →
  rams !! r = Some base → (off + width_bytes w ≤ REGION)%N →
  outside_used used r off (width_bytes w) = true → Q tt h → acc h (store B w base off v) Q.
Proof using Hlayout.
  intros. rewrite <- (N.add_0_r base). by eapply acc_ram_store_at.
Qed.

Lemma acc_region_phys h r base off (Q : N → Hs → Prop) :
  fine h →
  rams !! r = Some base →
  (∀ p, val_ok W64 (base + 0) p → (p + off < U64)%N → Q (p + off)%N h) → acc h (region_phys B base off) Q.
Proof using Hlayout.
  intros Hf Hr HQ. apply acc_bind. eapply acc_ram_load; [done|exact Hr|done|]. intros v Hv Hval.
  apply acc_sum. auto.
Qed.
End in_layout.
End accessors.
