(* ===== verification/VirtioLogic.v ===== *)
(** * Reasoning about drivers

    [drv] is the logic of [VirtioRules] for programs with a driver's own state; the
    lemmas about the handshake and the message area that the two drivers share. *)

From S2P Require Import Prelude Ipc Virtio VirtioRules.

Section logic.
Context {X D : Type} (needed : list N) (used : list (N * N)).
Context (t : Transport) (rams : list N) (B : Bus D) {OB : Observes needed used t rams B}.

Abbreviation acc := (acc needed used t rams B).

(** From the driver's state [d] and a bus that is as [h] says, [m] panics or ends
    in an outcome and states that satisfy [Q]. *)
Definition drv {E A} (d : X) (h : Hs) (m : M (X * D) E A) (Q : outcome E A → X → Hs → Prop) : Prop :=
  ∀ s, at_ h s → ∃ h', at_ h' (m (d, s)).2.2 ∧ ((m (d, s)).1 = Panic ∨ Q (m (d, s)).1 (m (d, s)).2.1 h').

Section rules.
Context {E : Type}.

Abbreviation drv := (drv (E := E)).

Lemma drv_bind {A C} d h (m : M _ E A) (k : A → M _ E C) Q :
  drv d h m (λ r d' h', match r with
                        | Ok a => drv d' h' (k a) Q
                        | Err e => Q (Err e) d' h'
                        | Panic => True
                        end) →
  drv d h (m ≫= k) Q.
Proof using.
  intros Hm s Hs. destruct (Hm s Hs) as (h1 & H1 & Hr). unfold mbind, M_bind.
  destruct (m (d, s)) as [[a|e|] [d1 s1]]; simpl in *; [| |by exists h1; auto].
  - destruct Hr as [?|Hr]; [done|]. by apply Hr.
  - exists h1. split; [done|right]. by destruct Hr.
Qed.

Lemma drv_ret {A} d h (a : A) Q : Q (Ok a) d h → drv d h (mret a) Q.
Proof using. intros HQ s Hs. exists h. auto. Qed.

Lemma drv_throw {A} d h e Q : Q (Err e) d h → drv d h (throw e : M _ E A) Q.
Proof using. intros HQ s Hs. exists h. auto. Qed.

Lemma drv_unwrap {A} d h (o : option A) Q : (∀ a, o = Some a → Q (Ok a) d h) → drv d h (unwrap o) Q.
Proof using. intros HQ s Hs. exists h. destruct o; simpl; auto. Qed.

Lemma drv_self {A} d h (f : X → A) Q : Q (Ok (f d)) d h → drv d h (self f) Q.
Proof using. intros HQ s Hs. exists h. auto. Qed.

Lemma drv_update d h f Q : Q (Ok tt) (f d) h → drv d h (update f) Q.
Proof using. intros HQ s Hs. exists h. auto. Qed.

Lemma drv_io {A} d h (m : M _ E A) Q : acc h m (λ a h', Q (Ok a) d h') → drv d h (io m) Q.
Proof using.
  intros Hm s Hs. destruct (Hm s Hs) as (h1 & H1 & Hr). exists h1. unfold io, zoom. simpl.
  destruct (m s) as [[] ?]; simpl in *; auto; done.
Qed.

(** An access of a program that may end in an error. *)
Lemma drv_io_bind {A C} d h (m : M _ E A) (k : A → M _ E C) Q :
  acc h m (λ a h', drv d h' (io (k a)) Q) → drv d h (io (m ≫= k)) Q.
Proof using.
  intros Hm s Hs. destruct (Hm s Hs) as (h1 & H1 & Hr). unfold io, zoom in *. unfold mbind, M_bind. cbn [fst snd].
  destruct (m s) as [[a|e|] s1]; cbn [fst snd] in *; [by apply (Hr s1)|done|].
  exists h1. auto.
Qed.

Lemma drv_io_throw {A} d h e Q : Q (Err e) d h → drv d h (io (throw e : M _ E A)) Q.
Proof using. intros HQ s Hs. exists h. auto. Qed.

Lemma drv_mono {A} d h (m : M _ E A) (Q Q' : outcome E A → X → Hs → Prop) :
  drv d h m Q → (∀ r d' h', Q r d' h' → Q' r d' h') → drv d h m Q'.
Proof using. intros Hm HQ s Hs. destruct (Hm s Hs) as (h1 & H1 & Hr). exists h1. intuition auto. Qed.

Lemma drv_cases {A} d h (m : M _ E A) (Q Q' : outcome E A → X → Hs → Prop) :
  drv d h m Q → (∀ a d' h', Q (Ok a) d' h' → Q' (Ok a) d' h') → (∀ e d' h', Q (Err e) d' h' → Q' (Err e) d' h') →
  drv d h m Q'.
Proof using.
  intros Hm HQ HE s Hs. destruct (Hm s Hs) as (h1 & H1 & Hr). exists h1. split; [done|].
  destruct (m (d, s)).1; intuition auto.
Qed.

(** ** Invariants *)

Definition keeps {A} (I : X → Hs → Prop) (m : M (X * D) E A) : Prop :=
  ∀ d h, I d h → drv d h m (λ _ d' h', I d' h').

Lemma drv_keeps_bind {A C} I (m : M _ E A) (k : A → M _ E C) :
  keeps I m → (∀ a, keeps I (k a)) → keeps I (m ≫= k).
Proof using.
  intros Hm Hk d h Hd. apply drv_bind. eapply drv_mono; [by apply Hm|].
  intros [a|e|] d' h' Hd'; [by apply Hk|done|done].
Qed.

Lemma drv_keeps_ret {A} I (a : A) : keeps I (mret a : M _ E A).
Proof using. intros d h Hd. by apply drv_ret. Qed.

Lemma drv_keeps_panic {A} I : keeps I (panic : M _ E A).
Proof using. intros d h Hd s Hs. exists h. auto. Qed.

Lemma drv_keeps_unwrap {A} I (o : option A) : keeps I (unwrap o : M _ E A).
Proof using. intros d h Hd. by apply drv_unwrap. Qed.

Lemma keeps_self {A} I (f : X → A) : keeps I (self f : M _ E A).
Proof using. intros d h Hd. by apply drv_self. Qed.

(** What the driver reads of its own state is known. *)
Lemma keeps_self_bind {A C} (I : X → Hs → Prop) (f : X → A) (k : A → M _ E C) a :
  (∀ d h, I d h → f d = a) → keeps I (k a) → keeps I (self f ≫= k).
Proof using. intros Hf Hk d h Hd. apply drv_bind, drv_self. rewrite (Hf d h Hd). by apply Hk. Qed.

Lemma keeps_io {A} (I : X → Hs → Prop) (m : M D E A) :
  (∀ d h, I d h → acc h m (λ _ h', I d h')) → keeps I (io m).
Proof using. intros Hm d h Hd. apply drv_io. by apply Hm. Qed.

(** The guard at the start of a handler. *)
Lemma keeps_guard {A} (I J : X → Hs → Prop) (f : X → bool) (m m' : M (X * D) E A) :
  (∀ d h, I d h → f d = true → J d h) → (∀ d h, J d h → I d h) → keeps I m' → keeps J m →
  keeps I (r ← self f; if negb r then m' else m).
Proof using.
  intros HJ HI Hm' Hm d h Hd. apply drv_bind, drv_self. destruct (f d) eqn:Hf; cbn [negb].
  - eapply drv_mono; [by apply Hm, HJ|]. intros r d' h'. apply HI.
  - by apply Hm'.
Qed.
End rules.

(** ** The handshake *)

Section handshake.
Abbreviation drv := (drv (E := DriverError)).
Abbreviation acc := (VirtioRules.acc (E := DriverError) needed used t rams B).

Lemma drv_fail {A} d h h1 (Q : outcome DriverError A → X → Hs → Prop) :
  fine h → store_status needed h status.FAILED = Some h1 → (∀ e, Q (Err e) d h1) →
  drv d h (io (_ ← write_status B t status.FAILED; throw DProbeFailed)) Q.
Proof using.
  intros Hf Hs HQ. apply drv_io_bind. eapply acc_write_status; [done|done|exact Hs|]. by apply drv_io_throw.
Qed.

Lemma drv_check_identity d h device (Q : outcome DriverError unit → X → Hs → Prop) :
  fine h → (∀ r, Q r d h) → drv d h (io (check_identity B t device)) Q.
Proof using.
  intros Hf HQ. assert (∀ t', t = t' → drv d h (io (check_identity B t' device)) Q) as H; [|by apply H].
  intros [b|? ? ? ? ?] Ht; [|by apply drv_io, acc_ret]. unfold check_identity.
  do 3 (apply drv_io_bind, acc_load; [done|]; intros ? _ _; exists h; split;
        [eapply step_load; [rewrite Ht; reg_at|done]|]). cbv beta.
  destruct (_ || _); [by apply drv_io_throw|]. destruct (negb _); [by apply drv_io_throw|by apply drv_io, acc_ret].
Qed.

Lemma drv_check_features d h (Q : outcome DriverError unit → X → Hs → Prop) v :
  h_status h = ACK_DRIVER → h_offered h 1 = Some v → h_accepted h 1 = Some (N.land v VIRTIO_F_VERSION_1) →
  (∀ h', setting_up h' = true → h_queues h' = h_queues h → Q (Ok tt) d h') →
  (∀ e h', Q (Err e) d h') → drv d h (io (check_features B t)) Q.
Proof using.
  intros Hs Ho Ha HQ HE. unfold check_features.
  apply drv_io_bind. eapply acc_write_status; [by eapply fine_status|done| |].
  { unfold store_status. simpl. rewrite Hs, Ho, Ha, <- N.land_assoc, N.land_diag, (N.eqb_refl (N.land v _)). reflexivity. }
  apply drv_io_bind, acc_read_status; [by apply ob_fine|]. intros after. cbv beta.
  destruct (_ =? 0)%N eqn:Hok.
  - eapply drv_fail; [by apply ob_fine|done|done].
  - apply drv_io, acc_ret, HQ; [|done]. done.
Qed.

(** The queue is where the words of the region's header say. *)
Definition addrs_made (base desc avail used_at : N) (q : Queue) : Prop :=
  ∃ p1 p2 p3, val_ok W64 (base + 0) p1 ∧ val_ok W64 (base + 0) p2 ∧ val_ok W64 (base + 0) p3 ∧
    ∀ p, let a := match p with Desc => p1 + desc | Avail => p2 + avail | Used => p3 + used_at end%N in
         (a < U64)%N ∧ q_addr q p = (Some (truncate U32 a), Some (N.shiftr a 32)).

(** A queue that the driver set up and enabled; [o] is what it keeps of it. *)
Definition queue_made (size base desc avail used_at : N) (o : option N) (q : Queue) : Prop :=
  q_size q = Some size ∧ q_enabled q = true ∧ addrs_made base desc avail used_at q ∧
  match t with Mmio _ => o = None | _ => o = Some (q_notify_off q) end.

Hypothesis Hlayout : layout_ok t rams.

Lemma acc_fill_queue h q r base size max desc avail used_at (Q : option N → Hs → Prop) :
  tunable q h → h_max h = Some max → (size ≤ max)%N → (size < U16)%N → is_power_of_two size = true →
  rams !! r = Some base →
  (∀ o h', setting_up h' = true → (∀ i, i ≠ q → h_queues h' i = h_queues h i) →
     queue_made size base desc avail used_at o (h_queues h' q) → Q o h') →
  acc h
    (_ ← write_queue_size B t size;
     desc_phys ← region_phys B base desc;
     avail_phys ← region_phys B base avail;
     used_phys ← region_phys B base used_at;
     _ ← write_queue_addrs B t desc_phys avail_phys used_phys;
     enable_queue B t) Q.
Proof using Hlayout.
  intros T Hmax Hle Hlt Hpow Hr HQ.
  apply acc_bind. eapply (acc_write_queue_size _ _ _ _ _ _ q max); [apply T|apply T|apply T|done|done|done|done|].
  set (h1 := set_queues _ h). pose proof (retuned_upd q
    (mkQueue (Some size) (q_addr (h_queues h q)) (q_notify_off (h_queues h q)) false) h : retuned _ _ h h1) as R1.
  pose proof (tunable_retuned _ _ _ _ T R1 eq_refl) as T1. pose proof (rt_queue _ _ _ _ R1) as E1. clearbody h1.
  apply acc_bind, (acc_region_phys _ _ _ _ _ Hlayout _ r); [apply fine_setting_up, T1|done|intros p1 Hp1 Hl1].
  apply acc_bind, (acc_region_phys _ _ _ _ _ Hlayout _ r); [apply fine_setting_up, T1|done|intros p2 Hp2 Hl2].
  apply acc_bind, (acc_region_phys _ _ _ _ _ Hlayout _ r); [apply fine_setting_up, T1|done|intros p3 Hp3 Hl3].
  apply acc_bind, (acc_write_queue_addrs _ _ _ _ _ _ q); [done..|].
  intros h2 q2 W2 R2. pose proof (rt_queue _ _ _ _ R2) as E2.
  rewrite E1 in W2. destruct W2 as (Wsize & Woff & Wen & Waddr).
  pose proof (tunable_retuned _ _ _ _ T1 R2 Wen) as T2.
  apply (acc_enable_queue _ _ _ _ _ _ q); [done| |].
  { rewrite E2. unfold q_complete. simpl. by rewrite Wsize, !Waddr. }
  intros o h3 Ho R3. rewrite E2 in R3. pose proof (rt_queue _ _ _ _ R3) as E3.
  pose proof (retuned_setting_up _ _ _ _ R3) as S3. destruct T2 as [T2 _]. rewrite T2 in S3.
  apply HQ; [done| |].
  - intros i Hi. by rewrite (rt_others _ _ _ _ R3 i Hi), (rt_others _ _ _ _ R2 i Hi), (rt_others _ _ _ _ R1 i Hi).
  - rewrite E3. split_and!; [done|done| |].
    { exists p1, p2, p3. split_and!; [done..|]. intros p. split; [by destruct p|]. apply Waddr. }
    revert Ho. clear. generalize t. intros []; [done|]. by intros (x & -> & _).
Qed.

Lemma drv_setup_one d h q vector r base size desc avail used_at (Q : outcome DriverError (option N) → X → Hs → Prop) :
  setting_up h = true → h_queues h q = queue0 → (q < U16)%N → (size < U16)%N → is_power_of_two size = true →
  rams !! r = Some base →
  (∀ o h', setting_up h' = true → (∀ i, i ≠ q → h_queues h' i = h_queues h i) →
     queue_made size base desc avail used_at o (h_queues h' q) → Q (Ok o) d h') →
  (∀ e h', Q (Err e) d h') → drv d h (io (setup_one_queue B t q vector size base desc avail used_at)) Q.
Proof using Hlayout.
  intros Hs Hq0 Hq Hsz Hpow Hr HQ HE. unfold setup_one_queue.
  apply drv_io_bind, acc_select_queue; [done|done|]. set (h1 := set_sel _ _ h).
  assert (tunable q h1) as T1 by (split_and!; [done|done|by simpl; rewrite Hq0]).
  apply drv_io_bind, (acc_write_queue_msix_vector _ _ _ _ _ _ q); [apply T1..|].
  intros h2 H2. assert (retuned q queue0 h1 h2) as R2.
  { rewrite <- (Hq0 : h_queues h1 q = queue0). destruct H2 as [->| ->]; [apply retuned_refl|apply retuned_upd]. }
  assert (∀ i, h_queues h1 i = h_queues h i) as E1 by done. clearbody h1. clear H2.
  pose proof (tunable_retuned _ _ _ _ T1 R2 eq_refl) as T2.
  apply drv_io_bind, (acc_read_queue_size_max _ _ _ _ _ _ q); [apply T2..|]. intros max Hmax. cbv beta.
  destruct (_ || _) eqn:Hbad.
  { eapply drv_fail; [apply fine_setting_up, T2| |done]. destruct T2 as ([Hst _]%andb_prop & _). apply N.eqb_eq in Hst.
    unfold store_status. simpl. by rewrite Hst. }
  apply orb_false_elim in Hbad as [Hm0%N.eqb_neq Hm4%N.ltb_ge].
  apply drv_io, (acc_fill_queue _ q r base size max); try done.
  - split_and!; [apply T2|done|apply T2].
  - etransitivity; [exact Hm4|]. unfold truncate. apply N.Div0.mod_le.
  - intros o h' Hs' Hi Hmade. apply HQ; [done| |done]. intros i Hne.
    rewrite Hi by done. simpl. by rewrite (rt_others _ _ _ _ R2 i Hne).
Qed.
End handshake.

(** ** Stores to the regions *)

Section stores.
Hypothesis Hlayout : layout_ok t rams.
Hypothesis Hstores : ∀ w addr, store_ok w addr.
Hypothesis Hfine : ∀ h, fine h.

(** The message area of region [r] is in the region and outside its used ring. *)
Context (r : nat) (base message : N) (Hr : rams !! r = Some base).
Hypothesis Hmessage : ∀ i, (i < 7)%N →
  (message + 8 * i + width_bytes W64 ≤ REGION)%N ∧
  outside_used used r (message + 8 * i) (width_bytes W64) = true.

Lemma acc_read_words h i n (Q : list N → Hs → Prop) :
  (i + N.of_nat n ≤ 7)%N → (∀ l, Q l h) → acc h (read_words B message base i n) Q.
Proof using Hlayout Hfine Hr Hmessage.
  revert i Q. induction n as [|n IH]; intros i Q Hi HQ; cbn [read_words]; [by apply acc_ret|].
  apply acc_bind. eapply (acc_ram_load _ _ _ _ _ Hlayout _ r); [done|done|apply Hmessage; lia|].
  intros v _ _. apply acc_bind, IH; [lia|]. intros l. by apply acc_ret.
Qed.

Lemma acc_write_words h i l (Q : unit → Hs → Prop) :
  (i + N.of_nat (length l) ≤ 7)%N → Q tt h → acc h (write_words B message base i l) Q.
Proof using Hlayout Hstores Hfine Hr Hmessage.
  revert i. induction l as [|w l IH]; intros i Hi HQ; cbn [write_words]; [by apply acc_ret|].
  cbn [length] in Hi.
  apply acc_bind. eapply (acc_ram_store _ _ _ _ _ Hlayout _ r); [done|done|done|apply Hmessage; lia..|].
  apply IH; [lia|done].
Qed.

Lemma acc_read_message h (Q : SmallMessage → Hs → Prop) :
  (∀ m, Q m h) → acc h (read_shared_message B message base) Q.
Proof using Hlayout Hfine Hr Hmessage.
  intros HQ. destruct (Hmessage 0 ltac:(done)) as [H0 _]. rewrite N.mul_0_r, N.add_0_r in H0.
  apply acc_bind. eapply (acc_ram_load _ _ _ _ _ Hlayout _ r); [done|done|done|]. intros v _ _.
  apply acc_bind, acc_read_words; [done|]. intros l. by apply acc_ret.
Qed.

Lemma acc_write_message h msg (Q : unit → Hs → Prop) :
  Q tt h → acc h (write_shared_message B message base msg) Q.
Proof using Hlayout Hstores Hfine Hr Hmessage.
  intros HQ. destruct (Hmessage 0 ltac:(done)) as [H0 H1]. rewrite N.mul_0_r, N.add_0_r in H0, H1.
  apply acc_bind. eapply (acc_ram_store _ _ _ _ _ Hlayout _ r); [done|done|done|done|done|].
  apply acc_bind, acc_unwrap. intros w _. apply acc_write_words; [|done].
  by rewrite length_fmap, length_seq.
Qed.
End stores.
End logic.
