(* ===== verification/VirtioBlk.v ===== *)
(** * The block driver

    [driver-virtio-blk/src/lib.rs]: the handshake with the device, one request in
    flight on a split ring in a shared page, polling and interrupt-driven
    completion; [subsystem_entry.rs]: the process, which serves the requests of
    [ipc_protocol::driver].

    The theorem here is for every bus, so for every device: the driver follows the
    rules of [VirtioRules] and stays in its windows.  [BlkDevice] has what it does
    with a device that follows the specification. *)

From S2P Require Import Prelude PhysMem Ipc Protocol.
From S2P Require Import Virtio VirtioRules VirtioLogic.

Module layout.
Definition PHYS_BASE_OFFSET : N := 0.
Definition DESC_OFFSET : N := 16.
Definition AVAIL_OFFSET : N := 80.
Definition USED_OFFSET : N := 128.
Definition PCI_INFO_OFFSET : N := 176.
Definition HEADER_OFFSET : N := 256.
Definition STATUS_OFFSET : N := 272.
Definition DATA_OFFSET : N := 512.
Definition MESSAGE_OFFSET : N := 1024.
End layout.

Definition QUEUE_SIZE : N := 4.
Definition REQUEST_QUEUE : N := 0.
Definition SECTOR_SIZE : N := 512.
Definition STATUS_TIMEOUT : N := 254.
Definition VIRTQ_DESC_F_NEXT : N := 1.
Definition VIRTQ_DESC_F_WRITE : N := 2.
Definition MAX_SPINS : N := 20000000.
Definition MAX_WAIT_RETRIES : N := 8.

Inductive BlkReqType := In | Out | Flush.

Definition req_code (r : BlkReqType) : N := match r with In => 0 | Out => 1 | Flush => 4 end.

Record VirtioBlk := mkBlk {
  transport : Transport;
  queue_base : N;
  capacity_sectors : N;
  ready : bool;
  next_idx : N;
  queue_notify_off : N;
  msix_vector : N;
}.

Definition blk_new (mmio_base queue_base : N) : VirtioBlk :=
  mkBlk (Mmio mmio_base) queue_base 0 false 0 0 VIRTIO_MSI_NO_VECTOR.

Definition blk_new_pci (common notify notify_off_multiplier isr device_cfg queue_base msix_vector : N)
    : VirtioBlk :=
  mkBlk (Pci common notify notify_off_multiplier isr device_cfg) queue_base 0 false 0 0 msix_vector.

Definition set_capacity (c : N) (d : VirtioBlk) : VirtioBlk :=
  mkBlk (transport d) (queue_base d) c (ready d) (next_idx d) (queue_notify_off d) (msix_vector d).
Definition set_ready (d : VirtioBlk) : VirtioBlk :=
  mkBlk (transport d) (queue_base d) (capacity_sectors d) true (next_idx d) (queue_notify_off d) (msix_vector d).
Definition set_next_idx (i : N) (d : VirtioBlk) : VirtioBlk :=
  mkBlk (transport d) (queue_base d) (capacity_sectors d) (ready d) i (queue_notify_off d) (msix_vector d).
Definition set_notify_off (o : N) (d : VirtioBlk) : VirtioBlk :=
  mkBlk (transport d) (queue_base d) (capacity_sectors d) (ready d) (next_idx d) o (msix_vector d).

Definition transport_is_bound (d : VirtioBlk) : bool :=
  match transport d with
  | Mmio base => negb (base =? 0)%N
  | Pci common _ _ _ _ => negb (common =? 0)%N
  end.

Section driver.
Context {D : Type} (B : Bus D).

Section io.
Context {E : Type}.

Abbreviation P := (M (VirtioBlk * D) E) (only parsing).

Definition submit_request (req_type : BlkReqType) (sector data_len : N) : P unit :=
  base ← self queue_base;
  _ ← io (store B W32 base layout.HEADER_OFFSET (req_code req_type));
  _ ← io (store B W32 base (layout.HEADER_OFFSET + 4) 0);
  _ ← io (store B W64 base (layout.HEADER_OFFSET + 8) sector);
  _ ← io (store B W8 base layout.STATUS_OFFSET 255);
  header_phys ← io (region_phys B base layout.HEADER_OFFSET);
  data_phys ← io (region_phys B base layout.DATA_OFFSET);
  status_phys ← io (region_phys B base layout.STATUS_OFFSET);
  let write_to_device := match req_type with Out => true | _ => false end in
  let desc i x := (a ← unwrap (checked_add U64 base (layout.DESC_OFFSET + i * 16)); write_desc B a x) in
  _ ← io (desc 0%N (mkDesc header_phys 16 VIRTQ_DESC_F_NEXT 1));
  _ ← io (desc 1%N (mkDesc data_phys (truncate U32 data_len)
                      (N.lor VIRTQ_DESC_F_NEXT (if write_to_device then 0 else VIRTQ_DESC_F_WRITE)) 2));
  _ ← io (desc 2%N (mkDesc status_phys 1 VIRTQ_DESC_F_WRITE 0));
  idx ← self next_idx;
  _ ← io (store B W16 base (layout.AVAIL_OFFSET + 4 + (idx mod QUEUE_SIZE) * 2) 0);
  let idx := truncate U16 (idx + 1) in
  _ ← update (set_next_idx idx);
  _ ← io (store B W16 base (layout.AVAIL_OFFSET + 2) idx);
  t ← self transport;
  off ← self queue_notify_off;
  io (notify_queue B t REQUEST_QUEUE off).

Definition ack_completion : P N :=
  t ← self transport;
  _ ← io (ack_interrupt B t);
  base ← self queue_base;
  io (load B W8 base layout.STATUS_OFFSET).

Definition completion_pending : P bool :=
  base ← self queue_base;
  used_idx ← io (load B W16 base (layout.USED_OFFSET + 2));
  idx ← self next_idx;
  mret (used_idx =? idx)%N.

(** The busy loop of [wait_for_completion]. *)
Fixpoint spin (n : nat) : P bool :=
  match n with
  | 0 => mret false
  | S n => done ← completion_pending; if done : bool then mret true else spin n
  end.

Definition wait_for_completion : P N :=
  completed ← spin (N.to_nat MAX_SPINS);
  if completed : bool then ack_completion
  else
    t ← self transport;
    _ ← io (ack_interrupt B t);
    mret STATUS_TIMEOUT.

(** [lba + 1] stops the program on overflow. *)
Definition validate_io (sector_count lba : N) : P (option DriverP.DriverErrorCode) :=
  if negb (sector_count =? 1)%N then mret (Some DriverP.Unsupported) else
  capacity ← self capacity_sectors;
  if (capacity =? 0)%N then mret None else
  last ← unwrap (checked_add U64 lba 1);
  mret (if (capacity <? last)%N then Some DriverP.OutOfRange else None).

Definition status_response (status : N) : DriverP.DriverResponse :=
  if (status =? 0)%N then DriverP.Completed 1 else DriverP.Failed DriverP.DeviceIo.

(** The two arms of [handle_request] that poll. *)
Definition polled_io (kind : BlkReqType) (lba sector_count : N) : P DriverP.DriverResponse :=
  bad ← validate_io sector_count lba;
  match bad with
  | Some code => mret (DriverP.Failed code)
  | None =>
      _ ← submit_request kind lba SECTOR_SIZE;
      status ← wait_for_completion;
      mret (status_response status)
  end.

Definition handle_request (req : DriverP.DriverRequest) : P DriverP.DriverResponse :=
  r ← self ready;
  capacity ← self capacity_sectors;
  if negb r then mret (DriverP.Failed DriverP.ProbeFailed) else
  match req with
  | DriverP.Probe => mret (DriverP.Ready SECTOR_SIZE capacity)
  | DriverP.ReadBlocks lba sector_count _ => polled_io In lba sector_count
  | DriverP.WriteBlocks lba sector_count _ => polled_io Out lba sector_count
  | DriverP.Irq _ => mret (DriverP.Completed 0)
  | DriverP.Quiesce => mret (DriverP.Ready SECTOR_SIZE capacity)
  | DriverP.SendFrame _ | DriverP.PollFrame => mret (DriverP.Failed DriverP.Unsupported)
  end.

(** The loop of [handle_io]: [true] once the request is in the used ring. *)
Fixpoint await_completion (n : nat) : P bool :=
  match n with
  | 0 => mret false
  | S n =>
      _ ← io (wait_for_irq B);
      done ← completion_pending;
      if done : bool then mret true else await_completion n
  end.

Definition handle_io (kind : BlkReqType) (lba sector_count : N) : P DriverP.DriverResponse :=
  r ← self ready;
  if negb r then mret (DriverP.Failed DriverP.ProbeFailed) else
  bad ← validate_io sector_count lba;
  match bad with
  | Some code => mret (DriverP.Failed code)
  | None =>
      _ ← submit_request kind lba SECTOR_SIZE;
      completed ← await_completion (N.to_nat MAX_WAIT_RETRIES);
      if completed : bool then
        status ← ack_completion;
        mret (status_response status)
      else mret (DriverP.Failed DriverP.DeviceIo)
  end.
End io.

(** ** The handshake *)

Abbreviation P := (M (VirtioBlk * D) DriverError) (only parsing).

Definition VIRTIO_BLOCK_DEVICE : N := 2.

Definition negotiate : P unit :=
  t ← self transport;
  _ ← io (write_status B t 0);
  _ ← io (write_status B t status.ACKNOWLEDGE);
  _ ← io (write_status B t (N.lor status.ACKNOWLEDGE status.DRIVER));
  dev_features_hi ← io (read_device_feature B t 1);
  _ ← io (write_driver_feature B t 0 0);
  _ ← io (write_driver_feature B t 1 (N.land dev_features_hi VIRTIO_F_VERSION_1));
  io (check_features B t).

Definition do_probe : P unit :=
  t ← self transport;
  base ← self queue_base;
  vector ← self msix_vector;
  _ ← io (check_identity B t VIRTIO_BLOCK_DEVICE);
  _ ← negotiate;
  off ← io (setup_one_queue B t REQUEST_QUEUE vector QUEUE_SIZE base
              layout.DESC_OFFSET layout.AVAIL_OFFSET layout.USED_OFFSET);
  _ ← match off with Some off => update (set_notify_off off) | None => mret tt end;
  _ ← io (write_status B t
            (N.lor (N.lor (N.lor status.ACKNOWLEDGE status.DRIVER) status.FEATURES_OK) status.DRIVER_OK));
  cap_lo ← io (read_config B W32 t 0);
  cap_hi ← io (read_config B W32 t 4);
  update (set_capacity (N.lor cap_lo (N.shiftl cap_hi 32))).

Definition probe : P DeviceInfo :=
  d ← self id;
  if negb (transport_is_bound d) || (queue_base d =? 0)%N then throw DProbeFailed else
  _ ← do_probe;
  _ ← update set_ready;
  capacity ← self capacity_sectors;
  mret (mkDeviceInfo SECTOR_SIZE capacity).

(** ** The process *)

Section process.
Context {FB : FlagBits}.

Definition DRV_MMIO_VA : N := 3625975808.
Definition DRV_QUEUE_VA : N := 3627024384.

Definition new_driver_for_this_transport : M D Empty_set VirtioBlk :=
  let read_u64_at off := load B W64 DRV_QUEUE_VA (layout.PCI_INFO_OFFSET + off) in
  transport_kind ← read_u64_at 0%N;
  if (transport_kind =? 0)%N then mret (blk_new DRV_MMIO_VA DRV_QUEUE_VA) else
  common_cfg_va ← read_u64_at 8%N;
  notify_cfg_va ← read_u64_at 16%N;
  notify_off_multiplier ← read_u64_at 24%N;
  isr_cfg_va ← read_u64_at 32%N;
  device_cfg_va ← read_u64_at 40%N;
  msix_vector ← read_u64_at 48%N;
  mret (blk_new_pci common_cfg_va notify_cfg_va (truncate U32 notify_off_multiplier) isr_cfg_va
          device_cfg_va DRV_QUEUE_VA (truncate U16 msix_vector)).

(** One round of the loop of [subsystem_main], between [IPC_RECV] and
    [IPC_REPLY]. *)
Definition serve_at (base : N) : M (VirtioBlk * D) Empty_set unit :=
  req_msg ← io (read_shared_message B layout.MESSAGE_OFFSET base);
  resp ← match DriverP.decode_driver_request req_msg with
         | Ok (DriverP.ReadBlocks lba sector_count _) => handle_io In lba sector_count
         | Ok (DriverP.WriteBlocks lba sector_count _) => handle_io Out lba sector_count
         | Ok req => handle_request req
         | Err _ => mret (DriverP.Failed DriverP.Unsupported)
         | Panic => panic
         end;
  msg ← unwrap (DriverP.encode_driver_response resp);
  io (write_shared_message B layout.MESSAGE_OFFSET base msg).

Definition serve_one : M (VirtioBlk * D) Empty_set unit :=
  base ← self queue_base; serve_at base.

(** A number of rounds; a [Some req] is a direct call of [handle_request] instead. *)
Fixpoint rounds (l : list (option DriverP.DriverRequest)) : M (VirtioBlk * D) Empty_set unit :=
  match l with
  | [] => mret tt
  | None :: l => _ ← serve_one; rounds l
  | Some req :: l => _ ← handle_request req; rounds l
  end.

Definition probe_and_serve (l : list (option DriverP.DriverRequest)) : M (VirtioBlk * D) Empty_set unit :=
  _ ← ignore probe;
  rounds l.
End process.
End driver.

(** ** The driver follows the rules *)

(** Nobody but the device writes the used ring: 6 bytes and 8 for each entry. *)
Definition USED_RING : list (N * N) := [(layout.USED_OFFSET, layout.USED_OFFSET + 4 + 8 * QUEUE_SIZE + 2)%N].

Section rules.
Context {D : Type} (t : Transport) (base : N).
Context (B : Bus D) {OB : Observes [REQUEST_QUEUE] USED_RING t [base] B}.
Hypothesis Hlayout : layout_ok t [base].

Abbreviation acc := (acc [REQUEST_QUEUE] USED_RING t [base] B).
Abbreviation drv := (drv (X := VirtioBlk) [REQUEST_QUEUE] USED_RING t [base] B).

Definition mine (d : VirtioBlk) : Prop := transport d = t ∧ queue_base d = base.

(** The driver may use the queue. *)
Definition usable (d : VirtioBlk) (h : Hs) : Prop :=
  is_live h = true ∧ q_enabled (h_queues h REQUEST_QUEUE) = true ∧
  match t with Mmio _ => True | _ => queue_notify_off d = q_notify_off (h_queues h REQUEST_QUEUE) end.

(** The driver's state agrees with what the monitor has seen. *)
Definition inv (d : VirtioBlk) (h : Hs) : Prop := mine d ∧ (ready d = true → usable d h).

(** ** The handshake *)

Section handshake.
(** A step of the handshake. *)
Ltac hand := cbv beta; first [apply drv_bind, drv_self|apply drv_bind, drv_io|apply drv_io].

Lemma drv_negotiate d h (Q : outcome DriverError unit → VirtioBlk → Hs → Prop) :
  fine h → mine d → (∀ h', setting_up h' = true → (∀ q, h_queues h' q = queue0) → Q (Ok tt) d h') →
  (∀ e h', Q (Err e) d h') → drv d h (negotiate B) Q.
Proof using.
  intros Hf [Ht _] HQ HE. unfold negotiate. hand. rewrite Ht.
  hand. eapply acc_write_status; [done|done|reflexivity|].
  do 2 (hand; eapply acc_write_status; [by apply ob_fine|done|reflexivity|]).
  hand. apply acc_read_device_feature; [done|done|]. intros v Hv.
  hand. apply acc_write_driver_feature; [done|done|done|done|].
  hand. apply acc_write_driver_feature; [done|done| | |].
  { change VIRTIO_F_VERSION_1 with (N.ones 1). rewrite N.land_ones.
    eapply N.lt_trans; [by apply N.mod_lt|done]. }
  { simpl. unfold upd. simpl. by rewrite <- N.land_assoc, (N.land_comm _ v), N.land_assoc, N.land_diag. }
  eapply (drv_check_features _ _ _ _ _ _ _ _ v); [done|done|done| |done].
  intros h' Hs' Hq'. apply HQ; [done|]. intros q. by rewrite Hq'.
Qed.

Definition addrs_made : Queue → Prop :=
  VirtioLogic.addrs_made [REQUEST_QUEUE] USED_RING t [base] B base
    layout.DESC_OFFSET layout.AVAIL_OFFSET layout.USED_OFFSET.

(** A word of the device's configuration. *)
Definition config_word (off v : N) : Prop :=
  ∃ addr, decode t [base] W32 addr = Some (Config off) ∧ val_ok W32 addr v.

(** What a successful handshake leaves. *)
Definition probed (d d' : VirtioBlk) (h' : Hs) : Prop :=
  mine d' ∧ usable d' h' ∧ next_idx d' = next_idx d ∧ ready d' = ready d ∧
  q_size (h_queues h' REQUEST_QUEUE) = Some QUEUE_SIZE ∧ addrs_made (h_queues h' REQUEST_QUEUE) ∧
  ∃ lo hi, config_word 0 lo ∧ config_word 4 hi ∧ capacity_sectors d' = N.lor lo (N.shiftl hi 32).

(** With the queue where the driver put it, the bus is understood. *)
Hypothesis Hmade : ∀ h, addrs_made (h_queues h REQUEST_QUEUE) →
  q_size (h_queues h REQUEST_QUEUE) = Some QUEUE_SIZE → fine h.

Lemma drv_do_probe d h (Q : outcome DriverError unit → VirtioBlk → Hs → Prop) :
  fine h → mine d →
  (∀ d' h', probed d d' h' → Q (Ok tt) d' h') →
  (∀ e d' h', mine d' → ready d' = ready d → Q (Err e) d' h') → drv d h (do_probe B) Q.
Proof using Hlayout Hmade.
  intros Hf Hd HQ HE. unfold do_probe. do 3 hand. destruct Hd as [Ht Hb]. rewrite Ht, Hb.
  apply drv_bind, drv_check_identity; [done|]. intros [[]|e|]; [|by apply HE|done].
  apply drv_bind, drv_negotiate; [done|done| |by intros; apply HE].
  intros h1 Hs1 Hq1. apply drv_bind. apply (drv_setup_one _ _ _ _ _ Hlayout _ _ _ _ 0); [done..| |by intros; apply HE].
  intros o h2 Hs2 _ (Hsize & Hen & Haddr & Hoff).
  apply drv_bind. assert (∃ d2, mine d2 ∧ ready d2 = ready d ∧ next_idx d2 = next_idx d ∧
    match t with Mmio _ => True | _ => queue_notify_off d2 = q_notify_off (h_queues h2 REQUEST_QUEUE) end ∧
    ∀ Q' : outcome DriverError unit → VirtioBlk → Hs → Prop, Q' (Ok tt) d2 h2 →
      drv d h2 (match o with Some off => update (set_notify_off off) | None => mret tt end) Q')
    as (d2 & Hd2 & Hr2 & Hi2 & Hn2 & Hstep).
  { destruct o as [off|]; [exists (set_notify_off off d)|exists d]; (split_and!; [done|done|done| |]).
    - revert Hoff. clear. generalize t. by intros [] [= ->].
    - intros Q' HQ'. by apply drv_update.
    - revert Hoff. clear. generalize t. by intros [].
    - intros Q' HQ'. by apply drv_ret. }
  apply Hstep.
  hand. eapply acc_write_status; [by apply fine_setting_up|done| |].
  { unfold store_status. simpl. by rewrite Hs2, Hen. }
  hand. apply acc_read_config; [done|by apply Hmade|done|done|intros lo alo _ Hdlo Hlo].
  hand. apply acc_read_config; [done|by apply Hmade|done|done|intros hi ahi _ Hdhi Hhi].
  apply drv_update, HQ. split_and!; try done.
  exists lo, hi. split_and!; [by exists alo|by exists ahi|done].
Qed.

Lemma drv_probe d h (Q : outcome DriverError DeviceInfo → VirtioBlk → Hs → Prop) :
  fine h → mine d →
  (∀ d' h', probed d d' h' → Q (Ok (mkDeviceInfo SECTOR_SIZE (capacity_sectors d'))) (set_ready d') h') →
  (∀ e d' h', mine d' → ready d' = ready d → Q (Err e) d' h') → drv d h (probe B) Q.
Proof using Hlayout Hmade.
  intros Hf Hd HQ HE. unfold probe. hand. cbv beta.
  destruct (_ || _); [by apply drv_throw, HE|].
  apply drv_bind, drv_do_probe; [done|done| |done].
  intros d' h' Hp. apply drv_bind, drv_update, drv_bind, drv_self, drv_ret. exact (HQ d' h' Hp).
Qed.

Lemma serves_probe d h :
  fine h → mine d → ready d = false → drv d h (probe B) (λ _ d' h', inv d' h').
Proof using Hlayout Hmade.
  intros Hf Hd Hr. apply drv_probe; [done|done| |].
  - intros d' h' (Hd' & Hu' & _). by split.
  - intros e d' h' Hd' Hr'. split; [done|]. by rewrite Hr', Hr.
Qed.
End handshake.

(** ** Requests *)

Section stores.
Hypothesis Hstores : ∀ w addr, store_ok w addr.
Hypothesis Hfine : ∀ h, fine h.

Lemma acc_write_desc {E} h i desc (Q : unit → Hs → Prop) :
  (i < QUEUE_SIZE)%N → Q tt h →
  VirtioRules.acc (E := E) [REQUEST_QUEUE] USED_RING t [base] B h
    (write_desc B (base + (layout.DESC_OFFSET + i * 16)) desc) Q.
Proof using Hlayout Hstores Hfine.
  intros Hi HQ. assert (i = 0 ∨ i = 1 ∨ i = 2 ∨ i = 3)%N as [->|[->|[->| ->]]]
    by (unfold QUEUE_SIZE in Hi; lia); unfold write_desc;
  repeat (apply acc_bind; eapply (acc_ram_store_at _ _ _ _ _ Hlayout _ 0); [apply Hfine|exact Hstores|reflexivity|done|reflexivity|]);
  eapply (acc_ram_store_at _ _ _ _ _ Hlayout _ 0); done.
Qed.

Lemma acc_ring_slot {E} h idx v (Q : unit → Hs → Prop) :
  Q tt h →
  VirtioRules.acc (E := E) [REQUEST_QUEUE] USED_RING t [base] B h
    (store B W16 base (layout.AVAIL_OFFSET + 4 + (idx mod QUEUE_SIZE) * 2) v) Q.
Proof using Hlayout Hstores Hfine.
  intros HQ. pose proof (N.mod_lt idx QUEUE_SIZE ltac:(done)) as Hi. revert Hi.
  generalize (idx mod QUEUE_SIZE)%N as i. intros i Hi.
  assert (i = 0 ∨ i = 1 ∨ i = 2 ∨ i = 3)%N as [->|[->|[->| ->]]] by (unfold QUEUE_SIZE in Hi; lia);
  eapply (acc_ram_store _ _ _ _ _ Hlayout _ 0); done.
Qed.

(** One step of the driver whose access does not concern a register. *)
Ltac ram :=
  cbn [fst snd transport queue_base capacity_sectors ready next_idx queue_notify_off msix_vector
       set_capacity set_ready set_next_idx set_notify_off];
  lazymatch goal with
  | |- VirtioLogic.drv _ _ _ _ _ _ _ (self _ ≫= _) _ => apply drv_bind, drv_self
  | |- VirtioLogic.drv _ _ _ _ _ _ _ (update _ ≫= _) _ => apply drv_bind, drv_update
  | |- VirtioLogic.drv _ _ _ _ _ _ _ (io _ ≫= _) _ => apply drv_bind, drv_io
  | |- VirtioLogic.drv _ _ _ _ _ _ _ (io _) _ => apply drv_io
  | |- VirtioLogic.drv _ _ _ _ _ _ _ (mret _) _ => apply drv_ret
  | |- VirtioRules.acc _ _ _ _ _ _ (unwrap (checked_add U64 ?b ?o) ≫= _) _ =>
      apply acc_bind, acc_sum; intros _
  | |- VirtioRules.acc _ _ _ _ _ _ (_ ≫= _) _ => apply acc_bind
  | |- VirtioRules.acc _ _ _ _ _ _ (write_desc _ _ _) _ => apply acc_write_desc; [done|]
  | |- VirtioRules.acc _ _ _ _ _ _ (store _ _ _ (_ + _ * 2) _) _ => apply acc_ring_slot
  | |- VirtioRules.acc _ _ _ _ _ _ (store _ _ _ _ _) _ =>
      eapply (acc_ram_store _ _ _ _ _ Hlayout _ 0); [apply Hfine|exact Hstores|reflexivity|done|reflexivity|]
  | |- VirtioRules.acc _ _ _ _ _ _ (load _ _ _ _) _ =>
      eapply (acc_ram_load _ _ _ _ _ Hlayout _ 0); [apply Hfine|reflexivity|done|intros ? ? ?]
  | |- VirtioRules.acc _ _ _ _ _ _ (region_phys _ _ _) _ =>
      eapply (acc_region_phys _ _ _ _ _ Hlayout _ 0); [apply Hfine|reflexivity|intros ? ? ?]
  end; cbv beta.

Section io.
Context {E : Type}.

(** The driver may use the queue, and stays as ready as it is. *)
Definition running (r : bool) (d : VirtioBlk) (h : Hs) : Prop := mine d ∧ usable d h ∧ ready d = r.

Abbreviation keeps := (keeps (X := VirtioBlk) (E := E) [REQUEST_QUEUE] USED_RING t [base] B).

(** A piece of the driver that needs a usable queue, and leaves one. *)
Definition uses {A} (m : M (VirtioBlk * D) E A) : Prop := ∀ r, keeps (running r) m.

Lemma uses_submit kind sector len : uses (submit_request B kind sector len).
Proof using Hlayout Hstores Hfine.
  intros r0 d h ([Ht Hb] & (Hl & He & Ho) & Hr). destruct d as [t' b' c r i o v]; simpl in Ht, Hb, Hr; subst t' b' r0.
  unfold submit_request.
  repeat ram. apply acc_notify_queue; done.
Qed.

Lemma uses_ack_interrupt : uses (t ← self transport; io (ack_interrupt B t)).
Proof using Hlayout Hstores Hfine.
  intros r. apply (keeps_self_bind _ _ _ _ _ _ _ _ t); [by intros d h [[Ht _] _]|].
  apply keeps_io. intros d h (Hd & Hu & Hr). apply acc_ack_interrupt; [done|done|apply Hu|done].
Qed.

Lemma uses_load w off :
  (off + width_bytes w ≤ REGION)%N → uses (base ← self queue_base; io (load B w base off)).
Proof using Hlayout Hstores Hfine.
  intros Ho r. apply (keeps_self_bind _ _ _ _ _ _ _ _ base); [by intros d h [[_ Hb] _]|].
  apply keeps_io. intros d h Hd. by eapply (acc_ram_load _ _ _ _ _ Hlayout _ 0).
Qed.

Lemma uses_wait : uses (io (wait_for_irq B)).
Proof using Hfine. intros r. apply keeps_io. intros d h (Hd & Hu & Hr). by apply acc_wait; [apply Hfine|apply Hu|]. Qed.

Lemma uses_ack : uses (ack_completion B).
Proof using Hlayout Hstores Hfine.
  intros r. exact (drv_keeps_bind _ _ _ _ _ _ _ _ (uses_ack_interrupt r) (λ _, uses_load W8 layout.STATUS_OFFSET ltac:(done) r)).
Qed.

Lemma uses_pending : uses (completion_pending B).
Proof using Hlayout Hstores Hfine.
  intros r. exact (drv_keeps_bind _ _ _ _ _ _ _ _ (uses_load W16 (layout.USED_OFFSET + 2) ltac:(done) r)
    (λ used_idx, drv_keeps_bind _ _ _ _ _ _ _ _ (keeps_self _ _ _ _ _ _ next_idx) (λ idx, drv_keeps_ret _ _ _ _ _ _ (used_idx =? idx)%N))).
Qed.

Lemma uses_spin n : uses (spin B n).
Proof using Hlayout Hstores Hfine.
  intros r. induction n as [|n IH]; [apply drv_keeps_ret|]. apply drv_keeps_bind; [apply uses_pending|].
  intros []; [apply drv_keeps_ret|done].
Qed.

Lemma uses_wait_for_completion : uses (wait_for_completion B).
Proof using Hlayout Hstores Hfine.
  intros r. apply drv_keeps_bind; [apply uses_spin|]. intros []; [apply uses_ack|].
  exact (drv_keeps_bind _ _ _ _ _ _ _ _ (uses_ack_interrupt r) (λ _, drv_keeps_ret _ _ _ _ _ _ STATUS_TIMEOUT)).
Qed.

Lemma uses_await n : uses (await_completion B n).
Proof using Hlayout Hstores Hfine.
  intros r. induction n as [|n IH]; [apply drv_keeps_ret|]. apply drv_keeps_bind; [apply uses_wait|]. intros _.
  apply drv_keeps_bind; [apply uses_pending|]. intros []; [apply drv_keeps_ret|done].
Qed.

Lemma uses_validate n lba : uses (validate_io (E := E) n lba).
Proof using.
  intros r. unfold validate_io. destruct (negb _); [apply drv_keeps_ret|]. apply drv_keeps_bind; [apply keeps_self|].
  intros c. destruct (_ =? _)%N; [apply drv_keeps_ret|]. apply drv_keeps_bind; [apply drv_keeps_unwrap|].
  intros l. apply drv_keeps_ret.
Qed.

Lemma uses_polled_io kind lba n : uses (polled_io B kind lba n).
Proof using Hlayout Hstores Hfine.
  intros r. apply drv_keeps_bind; [apply uses_validate|]. intros []; [apply drv_keeps_ret|].
  apply drv_keeps_bind; [apply uses_submit|]. intros _.
  apply drv_keeps_bind; [apply uses_wait_for_completion|]. intros ?. apply drv_keeps_ret.
Qed.

(** A request, whether or not the driver is ready. *)
Abbreviation serves := (keeps inv).

Lemma inv_running d h : inv d h → ready d = true → running true d h.
Proof using. intros [Hd Hu] Hr. split_and!; auto. Qed.

Lemma running_inv d h : running true d h → inv d h.
Proof using. intros (Hd & Hu & Hr). by split. Qed.

Lemma serves_handle_io kind lba n : serves (handle_io B kind lba n).
Proof using Hlayout Hstores Hfine.
  apply (keeps_guard _ _ _ _ _ _ _ ready _ _ inv_running running_inv); [apply drv_keeps_ret|].
  apply drv_keeps_bind; [apply uses_validate|]. intros []; [apply drv_keeps_ret|].
  apply drv_keeps_bind; [apply uses_submit|]. intros _.
  apply drv_keeps_bind; [apply uses_await|]. intros []; [|apply drv_keeps_ret].
  apply drv_keeps_bind; [apply uses_ack|]. intros ?. apply drv_keeps_ret.
Qed.

Lemma serves_handle_request req : serves (handle_request B req).
Proof using Hlayout Hstores Hfine.
  intros d h Hi. unfold handle_request. do 2 ram. destruct (ready d) eqn:Hr; cbn [negb]; [|by apply drv_ret].
  assert (∀ m : M (VirtioBlk * D) E DriverP.DriverResponse, uses m → drv d h m (λ _ d' h', inv d' h')) as Huse.
  { intros m Hm. eapply drv_mono; [by apply Hm, inv_running|]. intros r d' h'. apply running_inv. }
  destruct req; apply Huse; intros r; first [apply drv_keeps_ret|apply uses_polled_io].
Qed.
End io.

(** ** The process *)

Section process.
Context {FB : FlagBits}.

Lemma message_word i : (i < 7)%N →
  (layout.MESSAGE_OFFSET + 8 * i + width_bytes W64 ≤ REGION)%N ∧
  outside_used USED_RING 0 (layout.MESSAGE_OFFSET + 8 * i) (width_bytes W64) = true.
Proof using.
  intros Hi. unfold layout.MESSAGE_OFFSET, REGION. change (width_bytes W64) with 8%N. split; [lia|].
  apply orb_true_intro. right. apply N.leb_le. vm_compute (layout.USED_OFFSET + _ + _ + _)%N. lia.
Qed.

Abbreviation serves := (keeps (E := Empty_set) [REQUEST_QUEUE] USED_RING t [base] B inv).

Lemma serves_at : serves (serve_at B base).
Proof using Hlayout Hstores Hfine.
  apply drv_keeps_bind.
  { apply keeps_io. intros d h Hd. apply (acc_read_message _ _ _ _ _ Hlayout Hfine 0 base); [done|exact message_word|done]. }
  intros msg. apply drv_keeps_bind.
  { destruct (DriverP.decode_driver_request msg) as [[]| |];
      try apply serves_handle_io; try apply serves_handle_request; [apply drv_keeps_ret|apply drv_keeps_panic]. }
  intros resp. apply drv_keeps_bind; [apply drv_keeps_unwrap|]. intros out.
  apply keeps_io. intros d h Hd. apply (acc_write_message _ _ _ _ _ Hlayout Hstores Hfine 0 base); [done|exact message_word|done].
Qed.

Lemma serves_one : serves (serve_one B).
Proof using Hlayout Hstores Hfine.
  apply (keeps_self_bind _ _ _ _ _ _ _ _ base); [by intros d h [[_ Hb] _]|]. apply serves_at.
Qed.

Lemma serves_rounds l : serves (rounds B l).
Proof using Hlayout Hstores Hfine.
  induction l as [|[req|] l IH]; simpl; [apply drv_keeps_ret| |]; (apply drv_keeps_bind; [|done]).
  - apply serves_handle_request.
  - apply serves_one.
Qed.
End process.
End stores.
End rules.

(** C10 The block driver follows the rules of virtio and stays in its windows,
    whatever the device does: on both transports, with any values read from the
    device and from shared memory at any time, in the handshake and in any
    sequence of requests, every access is to a register, to its own page or to
    the doorbell of an enabled queue; features are negotiated before the queue is
    set up, the queue is complete and not larger than the device allows when it
    is enabled, [DRIVER_OK] comes last, the doorbell never rings before, and the
    device's used ring is never written. *)
Theorem blk_follows_rules {FB : FlagBits} {D} (B : Bus D) t base d s l :
  layout_ok t [base] → transport d = t → queue_base d = base → ready d = false →
  conforms [REQUEST_QUEUE] USED_RING t [base] (probe_and_serve (logged B) l (d, (s, []))).2.2.2.
Proof.
  intros Hl Ht Hb Hr. set (OB := log_observes [REQUEST_QUEUE] USED_RING t [base] B).
  assert (at_ hs0 (s, [])) as H0 by reflexivity.
  assert (∀ w addr, store_ok (Observes := OB) w addr) as Hst by done.
  assert (∀ h, fine (Observes := OB) h) as Hf by done.
  destruct (serves_probe t base (logged B) Hl (λ h _ _, Hf h) d hs0 (Hf hs0) (conj Ht Hb) Hr (s, []) H0) as (h1 & H1 & Hp).
  assert (∀ d1 s1, at_ h1 s1 → inv t base d1 h1 →
    conforms [REQUEST_QUEUE] USED_RING t [base] (rounds (logged B) l (d1, s1)).2.2.2) as Hrun.
  { intros d1 s1 H1' Hi1.
    destruct (serves_rounds t base (logged B) Hl Hst Hf l d1 h1 Hi1 s1 H1') as (h2 & H2 & _).
    by exists h2. }
  unfold probe_and_serve, ignore, mbind, M_bind.
  destruct (probe (logged B) (d, (s, []))) as [[i|e|] [d1 s1]]; simpl in *; [| |by exists h1];
    destruct Hp as [?|Hp]; by auto.
Qed.

(** A device whose registers never change, but with which the handshake succeeds. *)
Definition still_bus : Bus unit := {|
  bus_load w addr s :=
    ((if (addr =? DRV_MMIO_VA + mmio.MAGIC_VALUE)%N then VIRTIO_MMIO_MAGIC
      else if (addr =? DRV_MMIO_VA + mmio.VERSION)%N then 2
      else if (addr =? DRV_MMIO_VA + mmio.DEVICE_ID)%N then 2
      else if (addr =? DRV_MMIO_VA + mmio.DEVICE_FEATURES)%N then 1
      else if (addr =? DRV_MMIO_VA + mmio.STATUS)%N then 11
      else if (addr =? DRV_MMIO_VA + mmio.QUEUE_NUM_MAX)%N then 8
      else 1)%N, s);
  bus_store _ _ _ s := s;
  bus_wait s := s;
|}.

Definition still_run :=
  probe_and_serve (logged still_bus) [None; Some DriverP.Probe; None] (blk_new DRV_MMIO_VA DRV_QUEUE_VA, (tt, [])).

Lemma blk_follows_rules_witness :
  conforms [REQUEST_QUEUE] USED_RING (Mmio DRV_MMIO_VA) [DRV_QUEUE_VA] still_run.2.2.2 ∧
  ready still_run.2.1 = true ∧ length still_run.2.2.2 = 58.
Proof.
  split; [|split; vm_compute; reflexivity].
  apply (blk_follows_rules still_bus (Mmio DRV_MMIO_VA) DRV_QUEUE_VA); [|done..].
  split; [by repeat constructor; vm_compute; auto|]. intros [|i] [|j] a c; naive_solver.
Defined.
