(* ===== verification/BlkDevice.v ===== *)
(** * The block driver and its device

    What the block driver does with a device that follows the virtio
    specification (virtio 1.x, 2.6 and 5.2).  [Vdev] is such a device as its driver
    can know it, [dev_step] what the device may do by itself at any moment, and
    [Complies] says that a bus behaves like one: these are documented behaviour of
    the machine, not code of the repository.  The last part is one such device. *)

From S2P Require Import Prelude PhysMem Ipc Protocol Virtio VirtioRules VirtioBlk.

(** ** Memory *)

Definition nbytes (w : Width) : nat := N.to_nat (width_bytes w).

(** The two memories agree outside some ranges. *)
Definition same_outside (l : list (N * N)) (m m' : N → N) : Prop :=
  ∀ i, Forall (λ r : N * N, ¬ (r.1 ≤ i < r.2)%N) l → m' i = m i.

Definition clear_of (a n : N) (l : list (N * N)) : bool :=
  forallb (λ r : N * N, (a + n <=? r.1)%N || (r.2 <=? a)%N) l.

Lemma same_outside_rd l m m' a n :
  same_outside l m m' → clear_of a (N.of_nat n) l = true → rd m' a n = rd m a n.
Proof.
  intros Hs Hc. apply rd_ext. intros i Hi. apply Hs.
  unfold clear_of in Hc. rewrite forallb_forall in Hc. apply Forall_forall. intros r Hr.
  apply list_elem_of_In, Hc in Hr. apply orb_prop in Hr as [Hr%N.leb_le|Hr%N.leb_le]; lia.
Qed.

Lemma same_outside_refl l m : same_outside l m m.
Proof. done. Qed.

Lemma same_outside_trans l m1 m2 m3 : same_outside l m1 m2 → same_outside l m2 m3 → same_outside l m1 m3.
Proof. intros H1 H2 i Hi. by rewrite H2, H1. Qed.

Lemma same_outside_mono l l' m m' : l ⊆ l' → same_outside l m m' → same_outside l' m m'.
Proof. intros Hl Hs i Hi. rewrite Forall_forall in Hi. apply Hs, Forall_forall. auto. Qed.

Lemma clear_of_spec a n l i : clear_of a n l = true → (a ≤ i < a + n)%N → Forall (λ r : N * N, ¬ (r.1 ≤ i < r.2)%N) l.
Proof.
  unfold clear_of. rewrite forallb_forall. intros Hc Hi. apply Forall_forall. intros r Hr.
  apply list_elem_of_In, Hc in Hr. apply orb_prop in Hr as [Hr%N.leb_le|Hr%N.leb_le]; lia.
Qed.

Lemma truncate_bound w x : (0 < w)%N → (truncate w x < w)%N.
Proof. intros. apply N.mod_lt. lia. Qed.

(** ** The device *)

(** [v_mem]: the shared page; [v_seen]: how many requests it took from the ring,
    modulo [2^16]; [v_disk]: the bytes of each sector; [v_geo]: the number of sectors,
    and whether the device may fail a request that it could perform. *)
Record Geometry := mkGeometry { g_sectors : N; g_faulty : bool }.

Record Vdev := mkVdev {
  v_hs : Hs;
  v_mem : N → N;
  v_seen : N;
  v_disk : N → list N;
  v_geo : Geometry;
}.

Definition v_capacity (v : Vdev) : N := g_sectors (v_geo v).

Definition full (a : option N * option N) : option N :=
  match a with (Some lo, Some hi) => Some (lo + hi * U32)%N | _ => None end.

Section device.
(** The physical address of the page. *)
Context (phys : N).

(** A physical address as an offset in the page. *)
Definition local (len a : N) : option N :=
  if ((phys <=? a) && (a + len <=? phys + REGION))%N then Some (a - phys)%N else None.

Definition queue (v : Vdev) : Queue := h_queues (v_hs v) REQUEST_QUEUE.

Definition ring (p : Part) (v : Vdev) : option N :=
  a ← full (q_addr (queue v) p); local 0 a.

(** Fields of a descriptor. *)
Record VDesc := mkVDesc { vd_addr : N; vd_len : N; vd_flags : N; vd_next : N }.

Definition read_desc (m : N → N) (table i : N) : VDesc :=
  let a := (table + 16 * i)%N in
  mkVDesc (rd m a 8) (rd m (a + 8) 4) (rd m (a + 12) 2) (rd m (a + 14) 2).

(** A request: a readable header of 16 bytes, the data, a writable status byte. *)
Record Req := mkReq {
  rq_type : N;
  rq_sector : N;
  rq_data : N;
  rq_len : N;
  rq_writable : bool;
  rq_status : N;
}.

Definition read_chain (m : N → N) (table size head : N) : option Req :=
  let d0 := read_desc m table head in
  let d1 := read_desc m table (vd_next d0) in
  let d2 := read_desc m table (vd_next d1) in
  if (head <? size)%N && (vd_next d0 <? size)%N && (vd_next d1 <? size)%N &&
     (vd_flags d0 =? VIRTQ_DESC_F_NEXT)%N && (vd_len d0 =? 16)%N &&
     (N.lor (vd_flags d1) VIRTQ_DESC_F_WRITE =? N.lor VIRTQ_DESC_F_NEXT VIRTQ_DESC_F_WRITE)%N &&
     (vd_flags d2 =? VIRTQ_DESC_F_WRITE)%N && (vd_len d2 =? 1)%N
  then
    header ← local 16 (vd_addr d0);
    data ← local (vd_len d1) (vd_addr d1);
    status ← local 1 (vd_addr d2);
    Some (mkReq (rd m header 4) (rd m (header + 8) 8) data (vd_len d1)
            (vd_flags d1 =? N.lor VIRTQ_DESC_F_NEXT VIRTQ_DESC_F_WRITE)%N status)
  else None.

Definition pending (v : Vdev) : bool :=
  is_live (v_hs v) && q_enabled (queue v) &&
  match ring Avail v with
  | Some avail => negb (rd (v_mem v) (avail + 2) 2 =? v_seen v)%N
  | None => false
  end.

Definition writable (r : Req) : list (N * N) :=
  (rq_status r, rq_status r + 1)%N ::
  (if rq_writable r then [(rq_data r, rq_data r + rq_len r)%N] else []).

Definition used_area (v : Vdev) : list (N * N) :=
  match ring Used v, q_size (queue v) with
  | Some used, Some size => [(used, used + 4 + 8 * size)%N]
  | _, _ => []
  end.

(** The buffers overlap neither each other nor the used ring. *)
Definition separate (v : Vdev) (r : Req) : bool :=
  clear_of (rq_status r) 1 [(rq_data r, rq_data r + rq_len r)%N] &&
  clear_of (rq_status r) 1 (used_area v) && clear_of (rq_data r) (rq_len r) (used_area v).

(** The request at the head of the available ring. *)
Definition head_request (v : Vdev) : option Req :=
  table ← ring Desc v;
  avail ← ring Avail v;
  size ← q_size (queue v);
  r ← read_chain (v_mem v) table size (rd (v_mem v) (avail + 4 + 2 * (v_seen v mod size)) 2);
  if separate v r then Some r else None.

Lemma next_idx_differs i : (i < U16)%N → truncate U16 (i + 1) ≠ i.
Proof.
  intros Hi He. unfold truncate in He. destruct (decide (i + 1 = U16)%N) as [E|E].
  - rewrite E, N.Div0.mod_same in He. lia.
  - rewrite N.mod_small in He by lia. lia.
Qed.

Definition well_formed (v : Vdev) (r : Req) : bool :=
  (rq_len r =? SECTOR_SIZE)%N && (rq_sector r <? v_capacity v)%N &&
  ((rq_type r =? 0)%N && rq_writable r || (rq_type r =? 1)%N && negb (rq_writable r)).

Definition may_fail (v : Vdev) (r : Req) : bool := g_faulty (v_geo v) || negb (well_formed v r).

(** What the device did to the disk and the data buffer, with the status byte. *)
Inductive performed (r : Req) (v v' : Vdev) : N → Prop :=
| performed_read :
    rq_type r = 0%N → rq_writable r = true → rq_len r = SECTOR_SIZE →
    bytes_at (v_mem v') (rq_data r) SECTOR_SIZE = v_disk v (rq_sector r) →
    v_disk v' = v_disk v → performed r v v' 0
| performed_write :
    rq_type r = 1%N → rq_writable r = false → rq_len r = SECTOR_SIZE →
    (∀ s, v_disk v' s = upd (rq_sector r) (bytes_at (v_mem v) (rq_data r) SECTOR_SIZE) (v_disk v) s) →
    performed r v v' 0
| performed_error st :
    st ≠ 0%N → may_fail v r = true → (∀ s, s ≠ rq_sector r ∨ rq_type r ≠ 1%N → v_disk v' s = v_disk v s) →
    performed r v v' st.

(** While a request is pending, the device may write to its buffers, or complete
    it; a request that it cannot read leaves it free to do anything. *)
Inductive dev_step (v v' : Vdev) : Prop :=
| step_work r :
    pending v = true → head_request v = Some r →
    same_outside (writable r) (v_mem v) (v_mem v') →
    v_hs v' = v_hs v → v_seen v' = v_seen v → v_disk v' = v_disk v → v_geo v' = v_geo v →
    dev_step v v'
| step_complete r :
    pending v = true → head_request v = Some r →
    same_outside (writable r ++ used_area v) (v_mem v) (v_mem v') →
    v_hs v' = v_hs v → v_seen v' = truncate U16 (v_seen v + 1) → v_geo v' = v_geo v →
    (∀ used, ring Used v = Some used → rd (v_mem v') (used + 2) 2 = v_seen v') →
    performed r v v' (rd (v_mem v') (rq_status r) 1) →
    dev_step v v'
| step_undefined :
    pending v = true → head_request v = None → dev_step v v'.

(** ** The bus of a device *)

Context (t : Transport) (base : N).

Definition mon1 := mon [REQUEST_QUEUE] USED_RING t [base].

Definition set_v_hs (h : Hs) (v : Vdev) : Vdev :=
  mkVdev h (v_mem v) (v_seen v) (v_disk v) (v_geo v).

Definition set_v_mem (m : N → N) (v : Vdev) : Vdev :=
  mkVdev (v_hs v) m (v_seen v) (v_disk v) (v_geo v).

(** What a load of a device register or of the page gives. *)
Definition load_gives (v : Vdev) (w : Width) (addr x : N) : Prop :=
  match decode t [base] w addr with
  | Some (Ram _ off) => x = rd (v_mem v) off (nbytes w)
  | Some (Config off) => w = W32 → x = truncate U32 (N.shiftr (v_capacity v) (8 * off))
  | _ => True
  end.

(** A store, with what the monitor has after it; a reset starts the ring again. *)
Definition after_store (h : Hs) (v : Vdev) (w : Width) (addr x : N) : Vdev :=
  match decode t [base] w addr with
  | Some (Ram _ off) => set_v_mem (wr (v_mem v) off (nbytes w) x) (set_v_hs h v)
  | Some Status =>
      if (x =? 0)%N then mkVdev h (v_mem v) 0 (v_disk v) (v_geo v) else set_v_hs h v
  | _ => set_v_hs h v
  end.

(** A bus that behaves like the device as long as the driver follows the rules.
    [vb_delay] counts the interrupts that can come before the next completion. *)
Class Complies {D} (B : Bus D) := {
  vb_dev : D → Vdev;
  vb_delay : D → N;
  vb_load d w addr x d' : bus_load B w addr d = (x, d') →
    (vb_delay d' ≤ vb_delay d)%N ∧
    ∃ v, rtc dev_step (vb_dev d) v ∧ load_gives v w addr (truncate (width_mod w) x) ∧
      ∀ h, mon1 (v_hs (vb_dev d)) (Load w addr (truncate (width_mod w) x)) = Some h →
           vb_dev d' = set_v_hs h v;
  vb_store d w addr x h : mon1 (v_hs (vb_dev d)) (Store w addr x) = Some h →
    ∃ v, rtc dev_step (vb_dev d) v ∧ vb_dev (bus_store B w addr x d) = after_store h v w addr x;
  vb_wait d h : mon1 (v_hs (vb_dev d)) WaitIrq = Some h →
    rtc dev_step (vb_dev d) (vb_dev (bus_wait B d)) ∧
    (pending (vb_dev (bus_wait B d)) = true → v_seen (vb_dev (bus_wait B d)) = v_seen (vb_dev d) →
     vb_delay (bus_wait B d) < vb_delay d)%N;
  vb_patience d : (vb_delay d < MAX_WAIT_RETRIES)%N;
  vb_capacity d : (v_capacity (vb_dev d) < U64)%N;
  vb_doorbell d : is_live (v_hs (vb_dev d)) = true →
    match t with
    | Mmio _ => True
    | Pci _ notify mult _ _ =>
        let off := (q_notify_off (queue (vb_dev d)) * mult)%N in
        (notify + off < U64)%N ∧ decode t [base] W16 (notify + off) = Some (Notify off)
    end;
}.

Lemma idle_steps v v' : pending v = false → rtc dev_step v v' → v' = v.
Proof using. intros Hp Hr. destruct Hr as [|v v1 v' []]; [done|congruence..]. Qed.

(** ** The handshake with the device *)

(** The page as the kernel made it. *)
Record fresh_page (m : N → N) : Prop := {
  fp_phys : rd m layout.PHYS_BASE_OFFSET 8 = phys;
  fp_avail : rd m (layout.AVAIL_OFFSET + 2) 2 = 0%N;
  fp_used : rd m (layout.USED_OFFSET + 2) 2 = 0%N;
}.

Section probe.
Context {D : Type} (B : Bus D) {C : Complies B}.
Context (m0 : N → N) (disk0 : N → list N) (geo0 : Geometry).

Definition start (h : Hs) : Vdev := mkVdev h m0 0 disk0 geo0.

Definition complies_observes : Observes [REQUEST_QUEUE] USED_RING t [base] B.
Proof using C m0 disk0 geo0.
  refine {| at_ h s := vb_dev s = start h;
            val_ok w addr x := load_gives (start hs0) w addr x;
            store_ok w addr := ∀ i off, decode t [base] w addr ≠ Some (Ram i off);
            fine h := pending (start h) = false |}.
  - intros w addr r -> Hr i off [= ->]. by eapply Hr.
  - intros h Hl. unfold pending. simpl. by rewrite Hl.
  - intros h s w addr v d Hs Hf Hl. destruct (vb_load _ _ _ _ _ Hl) as (_ & x & Hx & Hg & Hd).
    rewrite Hs in Hx, Hd. apply idle_steps in Hx as ->; [|done]. split; [done|]. intros h' Hm.
    by rewrite (Hd h' Hm).
  - intros h s w addr v h' Hs Hf Ho Hm. rewrite <- (f_equal v_hs Hs : v_hs (vb_dev s) = h) in Hm.
    destruct (vb_store _ _ _ _ _ Hm) as (x & Hx & ->).
    rewrite Hs in Hx. apply idle_steps in Hx as ->; [|done]. unfold after_store.
    destruct (decode t [base] w addr) as [[]|] eqn:Hd; try done; [by destruct (v =? 0)%N|].
    by destruct (Ho r off).
  - intros h s h' Hs Hf Hm.
    assert (h' = h) as -> by (simpl in Hm; destruct (is_live h); simplify_eq/=; done).
    rewrite <- (f_equal v_hs Hs : v_hs (vb_dev s) = h) in Hm.
    destruct (vb_wait _ _ Hm) as [Hx _]. rewrite Hs in Hx. by apply idle_steps in Hx.
Defined.
End probe.

(** The driver is ready and no request is in flight. *)
Record idle (d : VirtioBlk) (v : Vdev) : Prop := {
  id_mine : mine t base d;
  id_ready : ready d = true;
  id_usable : usable t d (v_hs v);
  id_size : q_size (queue v) = Some QUEUE_SIZE;
  id_desc : ring Desc v = Some layout.DESC_OFFSET;
  id_ravail : ring Avail v = Some layout.AVAIL_OFFSET;
  id_rused : ring Used v = Some layout.USED_OFFSET;
  id_phys : rd (v_mem v) layout.PHYS_BASE_OFFSET 8 = phys;
  id_idx : (next_idx d < U16)%N;
  id_avail : rd (v_mem v) (layout.AVAIL_OFFSET + 2) 2 = next_idx d;
  id_used : rd (v_mem v) (layout.USED_OFFSET + 2) 2 = next_idx d;
  id_seen : v_seen v = next_idx d;
  id_capacity : capacity_sectors d = v_capacity v;
}.

Section idle.
Hypothesis Hphys : (phys + REGION < U64)%N.
Hypothesis Hlayout : layout_ok t [base].

Lemma full_halves a : full (Some (truncate U32 a), Some (N.shiftr a 32)) = Some a.
Proof using.
  clear. simpl. f_equal. unfold truncate. rewrite N.shiftr_div_pow2. change (2 ^ 32)%N with U32.
  pose proof (N.div_mod a U32 ltac:(done)). lia.
Qed.

Lemma local_phys off : (off <= REGION)%N → local 0 (phys + off) = Some off.
Proof using.
  clear Hphys Hlayout. intros Ho. unfold local. rewrite (proj2 (N.leb_le _ _)) by lia. rewrite (proj2 (N.leb_le _ _)) by lia.
  simpl. f_equal. lia.
Qed.

(** The addresses that the driver computed from the header word. *)
Lemma made_rings {D} (B : Bus D) {C : Complies B} m disk geo h :
  fresh_page m →
  addrs_made (OB := complies_observes B m disk geo) t base B (h_queues h REQUEST_QUEUE) →
  let v := mkVdev h m 0 disk geo in
  ring Desc v = Some layout.DESC_OFFSET ∧ ring Avail v = Some layout.AVAIL_OFFSET ∧
  ring Used v = Some layout.USED_OFFSET.
Proof using Hlayout.
  intros Hm (p1 & p2 & p3 & H1 & H2 & H3 & Ha) v. simpl in H1, H2, H3. unfold load_gives in *.
  rewrite (decode_ram _ _ _ 0) in H1, H2, H3 by done. cbn [v_mem start] in H1, H2, H3.
  rewrite (fp_phys m Hm : rd m 0 (nbytes W64) = phys) in H1, H2, H3. subst p1 p2 p3.
  unfold ring, queue, v. simpl.
  rewrite (proj2 (Ha Desc)), (proj2 (Ha Avail)), (proj2 (Ha Used)), !full_halves. simpl.
  by rewrite !local_phys.
Qed.

Lemma join_halves a : (a < U64)%N → N.lor (truncate U32 a) (N.shiftl (truncate U32 (N.shiftr a 32)) 32) = a.
Proof using.
  clear. intros Ha. unfold truncate. change U32 with (2 ^ 32)%N in *. change U64 with (2 ^ 64)%N in Ha.
  apply N.bits_inj. intros i. rewrite N.lor_spec. destruct (N.lt_ge_cases i 32) as [Hi|Hi].
  - rewrite N.mod_pow2_bits_low, N.shiftl_spec_low by exact Hi. apply orb_false_r.
  - rewrite N.mod_pow2_bits_high, N.shiftl_spec_high' by exact Hi. rewrite orb_false_l.
    destruct (N.lt_ge_cases (i - 32) 32) as [Hj|Hj].
    + rewrite N.mod_pow2_bits_low, N.shiftr_spec' by exact Hj. f_equal. lia.
    + rewrite N.mod_pow2_bits_high by exact Hj. symmetry. rewrite <- (N.mod_small a (2 ^ 64)) by exact Ha.
      apply N.mod_pow2_bits_high. lia.
Qed.

(** A probe that succeeds leaves the driver ready for the first request. *)
Lemma probe_idle {D} (B : Bus D) {C : Complies B} d s m disk geo info s' :
  fresh_page m → vb_dev s = start m disk geo hs0 →
  mine t base d → next_idx d = 0%N →
  probe B (d, s) = (Ok info, s') →
  info = mkDeviceInfo SECTOR_SIZE (g_sectors geo) ∧ v_disk (vb_dev s'.2) = disk ∧ v_geo (vb_dev s'.2) = geo ∧
  idle s'.1 (vb_dev s'.2).
Proof using Hlayout Hphys.
  intros Hm Hs Hd Hi Hp. pose (OB := complies_observes B m disk geo).
  assert (g_sectors geo < U64)%N as Hcap by (pose proof (vb_capacity s) as Hc; by rewrite Hs in Hc).
  assert (∀ h, addrs_made (OB := OB) t base B (h_queues h REQUEST_QUEUE) →
               q_size (h_queues h REQUEST_QUEUE) = Some QUEUE_SIZE → fine (Observes := OB) h) as Hmade.
  { intros h Ha _. destruct (made_rings B m disk geo h Hm Ha) as (_ & Ea & _). simpl. unfold pending.
    unfold start. rewrite Ea. cbn [v_mem v_seen].
    rewrite (fp_avail m Hm : rd m (layout.AVAIL_OFFSET + 2) 2 = 0%N). by rewrite andb_false_r. }
  assert (fine (Observes := OB) hs0) as Hf0 by by apply ob_fine.
  pose proof (drv_probe (OB := OB) t base B Hlayout Hmade d hs0
    (λ r d' h', match r with
                | Ok i => i = mkDeviceInfo SECTOR_SIZE (capacity_sectors d') ∧
                    ∃ d1, probed (OB := OB) t base B d d1 h' ∧ d' = set_ready d1
                | _ => True
                end) Hf0 Hd (λ d1 h1 Hp1, conj eq_refl (ex_intro _ d1 (conj Hp1 eq_refl)))
    (λ _ _ _ _ _, I)) as Hdrv.
  destruct (Hdrv s Hs) as (h' & Hs' & [Hbad|Hr]); rewrite Hp in *; [done|].
  destruct s' as [d' s']. simpl in *. destruct Hr as (-> & d1 & Hp1 & ->).
  destruct Hp1 as (Hmine & Hu & Hn & _ & Hsize & Ha & lo & hi & (alo & Dlo & Hlo) & (ahi & Dhi & Hhi) & Ec).
  simpl in Hlo, Hhi. unfold load_gives in Hlo, Hhi. rewrite Dlo in Hlo. rewrite Dhi in Hhi.
  specialize (Hlo eq_refl). specialize (Hhi eq_refl). cbn [v_capacity v_geo start] in Hlo, Hhi.
  change (8 * 0)%N with 0%N in Hlo. rewrite N.shiftr_0_r in Hlo. change (8 * 4)%N with 32%N in Hhi.
  rewrite Hlo, Hhi, join_halves in Ec by done.
  destruct (made_rings B m disk geo h' Hm Ha) as (E1 & E2 & E3). fold (start m disk geo h') in *.
  change (capacity_sectors (set_ready d1)) with (capacity_sectors d1).
  rewrite Hs', Ec. split_and!; [done|done|done|].
  split; simpl; rewrite ?Hn, ?Hi; try done; apply Hm.
Qed.

(** ** A request *)

(** [m] ends without an error, in a result and a state that satisfy [Q]. *)
Definition runs {S E A} (s : S) (m : M S E A) (Q : A → S → Prop) : Prop :=
  ∃ a s', m s = (Ok a, s') ∧ Q a s'.

Lemma runs_bind {S E A A'} (s : S) (m : M S E A) (k : A → M S E A') Q :
  runs s m (λ a s', runs s' (k a) Q) → runs s (m ≫= k) Q.
Proof using.
  intros (a & s1 & Hm & a' & s2 & Hk & HQ). exists a', s2. split; [|done].
  by rewrite run_bind, Hm.
Qed.

Lemma runs_ret {S E A} (s : S) (a : A) Q : Q a s → runs s (mret a : M S E A) Q.
Proof using. intros HQ. by exists a, s. Qed.

Lemma runs_mono {S E A} (s : S) (m : M S E A) (Q Q' : A → S → Prop) :
  runs s m Q → (∀ a s', Q a s' → Q' a s') → runs s m Q'.
Proof using. intros (a & s' & Hm & HQ) HQ'. exists a, s'. auto. Qed.

Lemma runs_sum {S E} (s : S) a b (Q : N → S → Prop) :
  (a + b < U64)%N → Q (a + b)%N s → runs s (unwrap (checked_add U64 a b) : M S E N) Q.
Proof using. intros Hlt HQ. rewrite checked_add_lt by done. by apply runs_ret. Qed.

Lemma runs_io {D E A} d (s : D) (m : M D E A) (Q : A → VirtioBlk * D → Prop) :
  runs s m (λ a s', Q a (d, s')) → runs (d, s) (io m) Q.
Proof using. intros (a & s' & Hm & HQ). exists a, (d, s'). unfold io, zoom. simpl. by rewrite Hm. Qed.

Section io.
Context {D E : Type} (B : Bus D) {C : Complies B}.
Hypothesis Hbase : (base + REGION < U64)%N.

(** The device, with other contents of the page. *)
Definition with_mem (v : Vdev) (m : N → N) : Vdev := set_v_mem m v.

(** Nothing is pending with [m] on the page. *)
Definition quiet (v : Vdev) (m : N → N) : Prop := rd m (layout.AVAIL_OFFSET + 2) 2 = v_seen v.

Lemma quiet_pending v m : ring Avail v = Some layout.AVAIL_OFFSET → quiet v m → pending (with_mem v m) = false.
Proof using.
  intros Ha Hq. unfold pending. change (ring Avail (with_mem v m)) with (ring Avail v). rewrite Ha.
  cbn [v_mem v_seen with_mem set_v_mem]. rewrite Hq, N.eqb_refl. apply andb_false_r.
Qed.

Lemma ram_address off w : (off + width_bytes w ≤ REGION)%N → (base + off < U64)%N.
Proof using Hbase. clear Hphys. intros Ho. destruct w; simpl in Ho; lia. Qed.

Lemma mon_ram_store h w off x :
  (off + width_bytes w ≤ REGION)%N → outside_used USED_RING 0 off (width_bytes w) = true →
  mon1 h (Store w (base + off) x) = Some h.
Proof using Hlayout.
  intros Ho Hu. unfold mon1, mon. destruct (is_doorbell _ _ _ _ _); [done|].
  rewrite (decode_ram _ _ _ 0) by done. simpl. by rewrite Hu.
Qed.

(** A store to the page, at [off]. *)
Lemma runs_ram_store v m b o off w x (Q : unit → D → Prop) s :
  vb_dev s = with_mem v m → ring Avail v = Some layout.AVAIL_OFFSET → quiet v m →
  (b + o = base + off)%N →
  (off + width_bytes w ≤ REGION)%N → outside_used USED_RING 0 off (width_bytes w) = true →
  (∀ s', vb_dev s' = with_mem v (wr m off (nbytes w) (truncate (width_mod w) x)) → Q tt s') →
  runs (E := E) s (store B w b o x) Q.
Proof using Hlayout Hbase.
  intros Hs Ha Hq Hb Ho Hu HQ. apply runs_bind, runs_sum; rewrite Hb; [by apply (ram_address off w)|].
  eexists tt, _. split; [reflexivity|]. apply HQ.
  destruct (vb_store s w (base + off) (truncate (width_mod w) x) _ (mon_ram_store _ w off _ Ho Hu))
    as (x0 & Hx & ->).
  rewrite Hs in Hx. apply idle_steps in Hx as ->; [|by apply quiet_pending].
  unfold after_store. rewrite (decode_ram _ _ _ 0) by done. by rewrite Hs.
Qed.

Lemma runs_ram_load v m off w (Q : N → D → Prop) s :
  vb_dev s = with_mem v m → ring Avail v = Some layout.AVAIL_OFFSET → quiet v m →
  (off + width_bytes w ≤ REGION)%N →
  (∀ s', vb_dev s' = with_mem v m → Q (rd m off (nbytes w)) s') →
  runs (E := E) s (load B w base off) Q.
Proof using Hlayout Hbase.
  intros Hs Ha Hq Ho HQ. apply runs_bind, runs_sum; [by apply (ram_address off w)|].
  unfold runs, read_volatile. destruct (bus_load B w (base + off) s) as [x s1] eqn:Hl.
  destruct (vb_load _ _ _ _ _ Hl) as (_ & x0 & Hx & Hg & Hd).
  rewrite Hs in Hx. apply idle_steps in Hx as ->; [|by apply quiet_pending].
  unfold load_gives in Hg. rewrite (decode_ram _ _ _ 0) in Hg by done. cbn [v_mem with_mem set_v_mem] in Hg.
  eexists _, s1. split; [reflexivity|]. rewrite Hg. apply HQ. rewrite (Hd (v_hs (vb_dev s))).
  - by rewrite Hs.
  - unfold mon1, mon. by rewrite (decode_ram _ _ _ 0).
Qed.

(** ** Publishing a request *)

Definition blk_req (kind : BlkReqType) (sector : N) : Req :=
  mkReq (req_code kind) sector layout.DATA_OFFSET SECTOR_SIZE
    (match kind with Out => false | _ => true end) layout.STATUS_OFFSET.

(** The page with a request at the head of the ring. *)
Record published (m : N → N) (i : N) (kind : BlkReqType) (sector : N) : Prop := {
  pb_phys : rd m 0 8 = phys;
  pb_avail : rd m 82 2 = truncate U16 (i + 1);
  pb_slot : rd m (84 + (i mod 4) * 2) 2 = 0%N;
  pb_d0 : read_desc m 16 0 = mkVDesc (phys + 256) 16 1 1;
  pb_d1 : read_desc m 16 1 = mkVDesc (phys + 512) 512 (match kind with Out => 1 | _ => 3 end) 2;
  pb_d2 : read_desc m 16 2 = mkVDesc (phys + 272) 1 2 0;
  pb_type : rd m 256 4 = req_code kind;
  pb_sector : rd m 264 8 = sector;
}.

Lemma local_page len off : (off + len <= REGION)%N → local len (phys + off) = Some off.
Proof using.
  clear. intros Ho. unfold local. rewrite (proj2 (N.leb_le _ _)) by lia. rewrite (proj2 (N.leb_le _ _)) by lia.
  simpl. f_equal. lia.
Qed.

Lemma published_request v m i kind sector :
  ring Desc v = Some layout.DESC_OFFSET → ring Avail v = Some layout.AVAIL_OFFSET →
  ring Used v = Some layout.USED_OFFSET → q_size (queue v) = Some QUEUE_SIZE → v_seen v = i →
  published m i kind sector → head_request (with_mem v m) = Some (blk_req kind sector).
Proof using.
  clear. intros Hd Ha Hu Hq Hi [Hp Hav Hsl H0 H1 H2 Ht Hsec]. unfold head_request.
  change (ring Desc (with_mem v m)) with (ring Desc v). change (ring Avail (with_mem v m)) with (ring Avail v).
  change (queue (with_mem v m)) with (queue v). rewrite Hd, Ha, Hq.
  change (v_mem (with_mem v m)) with m. change (v_seen (with_mem v m)) with (v_seen v). rewrite Hi. cbn [mbind option_bind].
  replace (layout.AVAIL_OFFSET + 4 + 2 * (i mod QUEUE_SIZE))%N with (84 + (i mod 4) * 2)%N
    by (unfold layout.AVAIL_OFFSET, QUEUE_SIZE; lia).
  rewrite Hsl. unfold read_chain. change layout.DESC_OFFSET with 16%N.
  rewrite H0. cbn [vd_next vd_flags vd_len vd_addr]. rewrite H1. cbn [vd_next vd_flags vd_len vd_addr].
  rewrite H2. cbn [vd_next vd_flags vd_len vd_addr].
  rewrite !local_page by done. cbn [mbind option_bind]. change (256 + 8)%N with 264%N. rewrite Ht, Hsec.
  unfold separate, used_area. change (ring Used (with_mem v m)) with (ring Used v).
  change (queue (with_mem v m)) with (queue v). rewrite Hu, Hq. by destruct kind.
Qed.

(** The parts of the page that the driver writes for a request. *)
Definition driver_area : list (N * N) := [(16, 128); (256, 273)]%N.

Lemma same_outside_wr l m m' a n x :
  same_outside l m m' → existsb (λ r : N * N, (r.1 <=? a) && (a + N.of_nat n <=? r.2))%N l = true →
  same_outside l m (wr m' a n x).
Proof using.
  clear. intros Hs Hin i Hi. rewrite wr_other; [by apply Hs|]. intros Ha.
  apply existsb_exists in Hin as (r & Hr & Hb). apply andb_prop in Hb as [H1%N.leb_le H2%N.leb_le].
  rewrite Forall_forall in Hi. apply (Hi r); [by apply list_elem_of_In|]. lia.
Qed.

(** What the stores of a request keep, while nothing is pending. *)
Record staged (v : Vdev) (m : N → N) : Prop := {
  sg_quiet : quiet v m;
  sg_phys : rd m 0 8 = phys;
  sg_same : same_outside driver_area (v_mem v) m;
}.

Lemma staged_wr v m a n x :
  staged v m → (a + N.of_nat n ≤ 82 ∨ 84 ≤ a)%N → (8 ≤ a)%N →
  existsb (λ r : N * N, (r.1 <=? a) && (a + N.of_nat n <=? r.2))%N driver_area = true →
  staged v (wr m a n x).
Proof using.
  clear -phys. intros [Hq Hp Hs] Ha H8 Hin. split.
  - unfold quiet in *. rewrite rd_wr_other; [done|]. change (layout.AVAIL_OFFSET + 2)%N with 82%N. lia.
  - rewrite rd_wr_other; [done|lia].
  - by apply same_outside_wr.
Qed.

(** A store to a part of the page that the driver writes. *)
Lemma runs_stage v m b o off w x (Q : unit → D → Prop) s :
  ring Avail v = Some layout.AVAIL_OFFSET → staged v m → vb_dev s = with_mem v m →
  (b + o = base + off)%N → (off + width_bytes w ≤ 82 ∨ 84 ≤ off)%N → (8 ≤ off)%N →
  existsb (λ r : N * N, (r.1 <=? off) && (off + width_bytes w <=? r.2))%N driver_area = true →
  (∀ m' s', m' = wr m off (nbytes w) (truncate (width_mod w) x) → staged v m' →
            vb_dev s' = with_mem v m' → Q tt s') →
  runs (E := E) s (store B w b o x) Q.
Proof using Hlayout Hbase.
  clear Hphys. intros Ha Hst Hs Hb H82 H8 Hin HQ.
  assert (N.of_nat (nbytes w) = width_bytes w) as En by by destruct w.
  assert (off + width_bytes w ≤ 273 ∧ (off + width_bytes w ≤ 128 ∨ 256 ≤ off))%N as [Hend Hmid].
  { clear -Hin. unfold driver_area in Hin. simpl in Hin. repeat rewrite orb_true_iff in Hin.
    rewrite !andb_true_iff, !N.leb_le in Hin. destruct Hin as [?|[?|?]]; [lia|lia|done]. }
  eapply (runs_ram_store v m b o off w); [exact Hs|exact Ha|apply Hst|exact Hb| | |].
  - unfold REGION. lia.
  - change (((off + width_bytes w <=? 128) || (166 <=? off))%N = true).
    apply orb_true_intro. rewrite !N.leb_le. clear -Hmid. lia.
  - intros s' Hs'. eapply HQ; [reflexivity| |exact Hs']. apply staged_wr; rewrite ?En; done.
Qed.

(** The three descriptors. *)
Lemma runs_write_desc v m i x (Q : unit → D → Prop) s :
  ring Avail v = Some layout.AVAIL_OFFSET → staged v m → vb_dev s = with_mem v m → (i < 3)%N →
  (d_addr x < U64)%N → (d_len x < U32)%N → (d_flags x < U16)%N → (d_next x < U16)%N →
  (∀ m' s', staged v m' → vb_dev s' = with_mem v m' →
     read_desc m' 16 i = mkVDesc (d_addr x) (d_len x) (d_flags x) (d_next x) →
     same_outside [(16 + 16 * i, 32 + 16 * i)]%N m m' → Q tt s') →
  runs (E := E) s (a ← unwrap (checked_add U64 base (layout.DESC_OFFSET + i * 16)); write_desc B a x) Q.
Proof using Hlayout Hbase.
  clear Hphys. intros Ha Hst Hs Hi H1 H2 H3 H4 HQ. apply runs_bind, runs_sum.
  { unfold REGION, layout.DESC_OFFSET in *. lia. }
  assert (∀ off n, (16 + 16 * i ≤ off)%N → (off + n ≤ 32 + 16 * i)%N →
    existsb (λ r : N * N, (r.1 <=? off) && (off + n <=? r.2))%N driver_area = true) as Hin.
  { intros off n Hlo Hhi. simpl. apply orb_true_intro. left. rewrite andb_true_iff, !N.leb_le. lia. }
  apply runs_bind, (runs_stage v m _ _ (16 + 16 * i) W64); [done..|unfold layout.DESC_OFFSET; lia|simpl; lia|lia|apply Hin; simpl; lia|].
  intros m1 s1 E1 Hst1 Hs1.
  apply runs_bind, (runs_stage v m1 _ _ (24 + 16 * i) W32); [done..|unfold layout.DESC_OFFSET; lia|simpl; lia|lia|apply Hin; simpl; lia|].
  intros m2 s2 E2 Hst2 Hs2.
  apply runs_bind, (runs_stage v m2 _ _ (28 + 16 * i) W16); [done..|unfold layout.DESC_OFFSET; lia|simpl; lia|lia|apply Hin; simpl; lia|].
  intros m3 s3 E3 Hst3 Hs3.
  apply (runs_stage v m3 _ _ (30 + 16 * i) W16); [done..|unfold layout.DESC_OFFSET; lia|simpl; lia|lia|apply Hin; simpl; lia|].
  intros m4 s4 E4 Hst4 Hs4. apply (HQ m4); [done|done| |].
  - unfold read_desc.
    rewrite (truncate_id (width_mod W64)) in E1 by done. rewrite (truncate_id (width_mod W32)) in E2 by done.
    rewrite (truncate_id (width_mod W16)) in E3, E4 by done.
    replace (16 + 16 * i + 8)%N with (24 + 16 * i)%N by lia. replace (16 + 16 * i + 12)%N with (28 + 16 * i)%N by lia.
    replace (16 + 16 * i + 14)%N with (30 + 16 * i)%N by lia.
    change (nbytes W64) with 8 in *. change (nbytes W32) with 4 in *. change (nbytes W16) with 2 in *.
    subst. f_equal; rewrite ?rd_wr_other by lia; apply rd_wr; done.
  - subst. repeat (apply same_outside_wr; [|simpl; apply orb_true_intro; left;
      rewrite andb_true_iff, !N.leb_le; change (nbytes W64) with 8; change (nbytes W32) with 4;
      change (nbytes W16) with 2; lia]). apply same_outside_refl.
Qed.
End io.
End idle.
End device.
