(* ===== verification/BlkExample.v ===== *)
(** * A block device

    The smallest device that [BlkDevice.Complies] describes, on the memory-mapped
    transport: it completes the request at the head of the ring when the driver
    waits.  The theorems about all devices apply to it. *)

From S2P Require Import Prelude PhysMem Virtio VirtioRules VirtioBlk BlkDevice.

Section example.
Context (phys b base cap : N) (Hcap : (cap < U64)%N).

Abbreviation t := (Mmio b).
Abbreviation dev_step := (dev_step phys).

(** [c_raw]: the bytes of the sectors. *)
Record Card := mkCard { c_hs : Hs; c_mem : N → N; c_seen : N; c_raw : N → N → N }.

Definition card_dev (c : Card) : Vdev :=
  mkVdev (c_hs c) (c_mem c) (c_seen c) (λ s, bytes_at (c_raw c s) 0 SECTOR_SIZE) (mkGeometry cap false).

Definition value (v : Vdev) (w : Width) (addr : N) : N :=
  match decode t [base] w addr with
  | Some (Ram _ off) => rd (v_mem v) off (nbytes w)
  | Some (Config off) => N.shiftr cap (8 * off)
  | Some Identity => if (addr =? b)%N then VIRTIO_MMIO_MAGIC else 2
  | Some DeviceFeatures => if (h_dev_sel (v_hs v) =? 1)%N then VIRTIO_F_VERSION_1 else 0
  | Some Status => h_status (v_hs v)
  | Some QueueSize => 8
  | _ => 0
  end.

(** What the device does for [r]: memory, sectors, status. *)
Definition work (c : Card) (r : Req) : (N → N) * (N → N → N) * N :=
  if negb (well_formed (card_dev c) r) then (c_mem c, c_raw c, 1%N)
  else if (rq_type r =? 0)%N then (fill (c_mem c) (rq_data r) (v_disk (card_dev c) (rq_sector r)), c_raw c, 0%N)
  else (c_mem c, upd (rq_sector r) (λ i, c_mem c (rq_data r + i)%N) (c_raw c), 0%N).

Definition finish (c : Card) (r : Req) : Card :=
  let '(m, raw, st) := work c r in
  let seen := truncate U16 (c_seen c + 1) in
  let m := wr m (rq_status r) 1 st in
  let m := match ring phys Used (card_dev c) with Some used => wr m (used + 2) 2 seen | None => m end in
  mkCard (c_hs c) m seen raw.

Definition complete (c : Card) : Card :=
  if pending phys (card_dev c) then
    match head_request phys (card_dev c) with
    | Some r => finish c r
    | None => mkCard hs0 (c_mem c) (c_seen c) (c_raw c)
    end
  else c.

Definition of_dev (v : Vdev) (c : Card) : Card := mkCard (v_hs v) (v_mem v) (v_seen v) (c_raw c).

Definition example_bus : Bus Card := {|
  bus_load w addr c :=
    let x := value (card_dev c) w addr in
    (x, match mon1 t base (c_hs c) (Load w addr (truncate (width_mod w) x)) with
        | Some h => mkCard h (c_mem c) (c_seen c) (c_raw c)
        | None => c
        end);
  bus_store w addr x c :=
    match mon1 t base (c_hs c) (Store w addr x) with
    | Some h => of_dev (after_store t base h (card_dev c) w addr x) c
    | None => c
    end;
  bus_wait c := complete c;
|}.

Lemma value_gives c w addr :
  load_gives t base (card_dev c) w addr (truncate (width_mod w) (value (card_dev c) w addr)).
Proof.
  unfold load_gives, value. destruct (decode t [base] w addr) as [[]|]; try done; [by intros ->|].
  apply truncate_id. eapply N.lt_le_trans; [apply rd_bound|]. by destruct w.
Qed.

Lemma work_status c r : ((work c r).2 < 256)%N.
Proof. unfold work. by repeat case_match. Qed.

Lemma sector_bytes f : Forall (λ x, x < 256)%N (bytes_at f 0 SECTOR_SIZE).
Proof. apply Forall_fmap, Forall_forall. intros i _. by apply N.mod_lt. Qed.

Lemma raw_bytes m a : bytes_at (λ i, m (a + i)%N) 0 SECTOR_SIZE = bytes_at m a SECTOR_SIZE.
Proof. apply list_fmap_ext. intros i k _. by rewrite N.add_0_l. Qed.

(** The work stays in the request's buffers. *)
Lemma work_area c r m raw st :
  work c r = (m, raw, st) →
  same_outside (writable r) (c_mem c) m ∧
  (∀ v', v_disk v' = (λ s, bytes_at (raw s) 0 SECTOR_SIZE) →
         (rq_writable r = true → bytes_at (v_mem v') (rq_data r) (rq_len r) = bytes_at m (rq_data r) (rq_len r)) →
         performed r (card_dev c) v' st).
Proof.
  unfold work. destruct (well_formed (card_dev c) r) eqn:Hwf; cbn [negb].
  2:{ intros [= <- <- <-]. split; [done|]. intros v' Ed _. apply performed_error; [done| |].
      - unfold may_fail. by rewrite Hwf.
      - intros s _. by rewrite Ed. }
  unfold well_formed in Hwf. apply andb_prop in Hwf as [[Hl%N.eqb_eq _]%andb_prop Hkind].
  assert (length (v_disk (card_dev c) (rq_sector r)) = N.to_nat SECTOR_SIZE) as Hlen
    by (cbn [card_dev v_disk]; unfold bytes_at; by rewrite length_fmap, length_seq).
  assert (Forall (λ x, x < 256)%N (v_disk (card_dev c) (rq_sector r))) as Hby by apply sector_bytes.
  remember (v_disk (card_dev c) (rq_sector r)) as l eqn:El.
  destruct (N.eqb_spec (rq_type r) 0) as [Ht|Ht].
  - apply orb_prop in Hkind as [Hw|[Ht'%N.eqb_eq _]%andb_prop]; [|by rewrite Ht in Ht'].
    apply andb_prop in Hw as [_ Hw]. intros [= <- <- <-]. split.
    + intros i Hi. apply fill_other. unfold writable in Hi. rewrite Hw in Hi.
      apply Forall_cons in Hi as [_ [Hi _]%Forall_cons]. cbn [fst snd] in Hi. rewrite Hlen. intros Hr. apply Hi.
      rewrite Hl. lia.
    + intros v' Ed Hm. apply performed_read; [done..| |done]. rewrite Hl in Hm. rewrite Hm by done.
      rewrite <- El. rewrite <- (fill_bytes (c_mem c) (rq_data r) l Hby) at 2. by rewrite Hlen, N2Nat.id.
  - simpl in Hkind. apply andb_prop in Hkind as [Ht1%N.eqb_eq Hw%negb_true_iff].
    intros [= <- <- <-]. split; [done|]. intros v' Ed _. apply performed_write; [done..|].
    intros s. rewrite Ed. unfold upd. cbn [card_dev v_disk v_mem]. case_decide; [|done]. apply raw_bytes.
Qed.

Lemma head_separate v r : head_request phys v = Some r →
  separate phys v r = true ∧ is_Some (q_size (queue v)).
Proof.
  unfold head_request. destruct (ring phys Desc v); [|done]. destruct (ring phys Avail v); [|done].
  destruct (q_size (queue v)); [|done]. cbn [mbind option_bind]. destruct (read_chain _ _ _ _ _); [|done].
  cbn [mbind option_bind]. destruct (separate phys v _) eqn:Hs; [|done]. intros [= <-]. by split.
Qed.

Lemma finish_step c r :
  pending phys (card_dev c) = true → head_request phys (card_dev c) = Some r →
  dev_step (card_dev c) (card_dev (finish c r)).
Proof.
  intros Hp Hr. destruct (head_separate (card_dev c) r Hr) as [Hsep [size Hsize]].
  unfold separate in Hsep. apply andb_prop in Hsep as [[Hsd Hsu]%andb_prop Hdu].
  destruct (work c r) as [[m raw] st] eqn:Hw. pose proof (work_area c r m raw st Hw) as [Hm Hperf].
  set (m1 := wr m (rq_status r) 1 st).
  set (m2 := match ring phys Used (card_dev c) with Some used => wr m1 (used + 2) 2 (truncate U16 (c_seen c + 1)) | None => m1 end).
  assert (finish c r = mkCard (c_hs c) m2 (truncate U16 (c_seen c + 1)) raw) as Ef
    by (unfold finish; rewrite Hw; reflexivity).
  assert (same_outside (used_area phys (card_dev c)) m1 m2) as H2.
  { unfold m2, used_area. destruct (ring phys Used (card_dev c)) as [used|]; [|done]. rewrite Hsize.
    apply same_outside_wr; [done|]. simpl. apply orb_true_intro. left.
    apply andb_true_intro. split; apply N.leb_le; lia. }
  assert (same_outside (writable r) (c_mem c) m1) as H1.
  { apply same_outside_wr; [exact Hm|]. simpl. by rewrite N.leb_refl, N.leb_refl. }
  assert (rd m2 (rq_status r) 1 = st) as Hst.
  { rewrite (same_outside_rd _ _ _ _ _ H2) by exact Hsu. apply rd_wr.
    pose proof (work_status c r) as Hb. by rewrite Hw in Hb. }
  rewrite Ef. apply (step_complete phys (card_dev c) _ r); cbn [card_dev c_hs c_mem c_seen c_raw v_hs v_mem v_seen v_geo]; try done.
  - eapply same_outside_trans; [eapply same_outside_mono; [|exact H1]|eapply same_outside_mono; [|exact H2]];
      [by apply list_subseteq_app_l|by apply list_subseteq_app_r].
  - intros used Hu. unfold m2. rewrite Hu. apply rd_wr. by apply truncate_bound.
  - rewrite Hst. apply Hperf; [done|]. cbn [v_mem]. intros _. apply bytes_at_same. intros i Hi.
    rewrite H2 by (by eapply clear_of_spec). unfold m1. rewrite wr_other; [done|].
    unfold clear_of in Hsd. simpl in Hsd. rewrite andb_true_r, orb_true_iff, !N.leb_le in Hsd. lia.
Qed.

(** The device follows the specification. *)
#[export] Instance example_complies : Complies phys t base example_bus.
Proof using Hcap.
  refine {| vb_dev := card_dev; vb_delay _ := 0%N |}.
  - intros c w addr x c' Hl. cbn [bus_load example_bus] in Hl. apply pair_eq in Hl as [<- <-]. split; [done|].
    exists (card_dev c). split_and!; [done|apply value_gives|].
    intros h Hm. change (v_hs (card_dev c)) with (c_hs c) in Hm. cbv zeta. by rewrite Hm.
  - intros c w addr x h Hm. exists (card_dev c). split; [done|]. cbn [bus_store example_bus].
    change (v_hs (card_dev c)) with (c_hs c) in Hm. rewrite Hm. unfold of_dev, card_dev. cbn [c_hs c_mem c_seen c_raw].
    unfold after_store. destruct (decode t [base] w addr) as [[]|]; try done. by destruct (x =? 0)%N.
  - intros c h Hm. cbn [bus_wait example_bus]. unfold complete. destruct (pending phys (card_dev c)) eqn:Hp.
    2:{ split; [done|]. by rewrite Hp. }
    destruct (head_request phys (card_dev c)) as [r|] eqn:Hr.
    + split; [by apply rtc_once, finish_step|]. intros _ Hseen. exfalso. revert Hseen. unfold finish.
      destruct (work c r) as [[m raw] st]. cbn [card_dev c_seen v_seen]. intros E.
      destruct (decide (c_seen c < U16)%N) as [Hlt|Hge].
      * by apply (next_idx_differs (c_seen c)).
      * pose proof (truncate_bound U16 (c_seen c + 1) ltac:(done)). lia.
    + split; [by apply rtc_once, step_undefined|]. by unfold pending.
  - done.
  - intros c. exact Hcap.
  - done.
Defined.
End example.
