(* ===== verification/BlkDisk.v ===== *)
(** * The disk behind the block driver

    [driver-virtio-blk] and a device of [BlkDevice] together are a disk: a read
    gives the contents of its sector, a write replaces them, and an answer that
    is not [Completed] leaves every other sector as it was. *)

From S2P Require Import Prelude PhysMem Ipc Protocol Service.
From S2P Require Import Virtio VirtioRules VirtioBlk BlkDevice BlkExample.

(** The registers are at addresses of the machine. *)
Definition fits (t : Transport) : Prop :=
  match t with Mmio b => (b + MMIO_LEN < U64)%N | Pci _ _ _ isr _ => (isr < U64)%N end.

(** Acknowledging an interrupt keeps what its accesses keep. *)
Lemma acknowledges t base {D E} (B : Bus D) (P : D → Prop) h s (Q : unit → D → Prop) :
  layout_ok t [base] → fits t → is_live h = true →
  (∀ w addr r (Q' : N → D → Prop) s, decode t [base] w addr = Some r → r = InterruptStatus ∨ r = Isr → P s →
     (∀ x s', P s' → Q' x s') → runs (E := E) s (read_volatile B w addr) Q') →
  (∀ w addr x s, decode t [base] w addr = Some InterruptAck → mon1 t base h (Store w addr x) = Some h → P s →
     P (bus_store B w addr x s)) →
  P s → (∀ s', P s' → Q tt s') → runs (E := E) s (ack_interrupt B t) Q.
Proof.
  intros Hlay Hf Hl Hrd Hst Hs HQ. unfold ack_interrupt, fits in *. destruct t as [b|common notify mult isr cfg].
  - assert (∀ o, (o < MMIO_LEN)%N → decode (Mmio b) [base] W32 (b + o) = mmio_reg W32 o ∧ (b + o < U64)%N) as Hd
      by (intros o Ho; rewrite decode_mmio by done; split; [done|lia]).
    destruct (Hd mmio.INTERRUPT_STATUS ltac:(done)) as [Hd1 Ho1].
    destruct (Hd mmio.INTERRUPT_ACK ltac:(done)) as [Hd2 Ho2].
    apply runs_bind, runs_bind, runs_sum; [exact Ho1|]. eapply Hrd; [exact Hd1|by left|done|]. intros x s1 Hs1.
    apply runs_bind, runs_sum; [exact Ho2|]. eexists tt, _. split; [reflexivity|]. apply HQ, Hst; [done| |done].
    unfold mon1, mon. rewrite Hd2. simpl. by rewrite Hl.
  - apply runs_bind. eapply Hrd; [by apply decode_isr|by right|done|]. intros x s1 Hs1. by apply runs_ret, HQ.
Qed.

(** ** The disk

    What the client of the driver sees: the sectors, and the data buffer that it
    shares with the driver. *)
Record Disk := mkDisk { dk_sectors : N → list N; dk_buffer : list N }.

(** What the driver refuses without asking the device. *)
Definition refused (capacity lba n : N) : option DriverP.DriverErrorCode :=
  if negb (n =? 1)%N then Some DriverP.Unsupported
  else if (negb (capacity =? 0) && (capacity <? lba + 1))%N then Some DriverP.OutOfRange else None.

(** A read or write and its answer.  A request fails in the device only if that is
    faulty or has no such sector; it may then have left anything in the sector that
    it was to write, or in the buffer that it was to fill. *)
Inductive disk_io (g : Geometry) (kind : BlkReqType) (lba n : N) (a a' : Disk) : DriverP.DriverResponse → Prop :=
| io_refused code :
    refused (g_sectors g) lba n = Some code → a' = a → disk_io g kind lba n a a' (DriverP.Failed code)
| io_read :
    refused (g_sectors g) lba n = None → kind = In →
    dk_sectors a' = dk_sectors a → dk_buffer a' = dk_sectors a lba →
    disk_io g kind lba n a a' (DriverP.Completed 1)
| io_write :
    refused (g_sectors g) lba n = None → kind = Out →
    (∀ s, dk_sectors a' s = upd lba (dk_buffer a) (dk_sectors a) s) → dk_buffer a' = dk_buffer a →
    disk_io g kind lba n a a' (DriverP.Completed 1)
| io_failed :
    refused (g_sectors g) lba n = None → g_faulty g || negb (lba <? g_sectors g)%N = true →
    (∀ s, s ≠ lba ∨ kind ≠ Out → dk_sectors a' s = dk_sectors a s) →
    (kind = Out → dk_buffer a' = dk_buffer a) →
    disk_io g kind lba n a a' (DriverP.Failed DriverP.DeviceIo).

Definition disk_does (g : Geometry) (a : Disk) (req : DriverP.DriverRequest) (resp : DriverP.DriverResponse)
    (a' : Disk) : Prop :=
  match req with
  | DriverP.ReadBlocks lba n _ => disk_io g In lba n a a' resp
  | DriverP.WriteBlocks lba n _ => disk_io g Out lba n a a' resp
  | DriverP.Probe | DriverP.Quiesce => a' = a ∧ resp = DriverP.Ready SECTOR_SIZE (g_sectors g)
  | DriverP.Irq _ => a' = a ∧ resp = DriverP.Completed 0
  | DriverP.SendFrame _ | DriverP.PollFrame => a' = a ∧ resp = DriverP.Failed DriverP.Unsupported
  end.

Definition view (v : Vdev) : Disk := mkDisk (v_disk v) (bytes_at (v_mem v) layout.DATA_OFFSET SECTOR_SIZE).

Section disk.
Context (phys : N) (t : Transport) (base : N).

Abbreviation dev_step := (dev_step phys).
Abbreviation published := (published phys).

(** ** The device at work *)

(** What the device writes while it serves a request. *)
Definition used_bytes : list (N * N) := [(128, 164)]%N.

Definition device_area : list (N * N) := [(128, 164); (272, 273); (512, 1024)]%N.

Lemma writable_area kind sector : writable (blk_req kind sector) ⊆ device_area.
Proof. unfold writable, device_area. destruct kind; simpl; set_solver. Qed.

Lemma request_bytes kind sector : writable (blk_req kind sector) ++ used_bytes ⊆ device_area.
Proof. unfold writable, device_area, used_bytes. destruct kind; simpl; set_solver. Qed.

Lemma published_same m m' i kind sector :
  published m i kind sector → same_outside device_area m m' → published m' i kind sector.
Proof.
  intros [Hp Ha Hs H0 H1 H2 Ht Hr] Hm.
  assert (∀ a n, clear_of a (N.of_nat n) device_area = true → rd m' a n = rd m a n) as Hrd
    by (intros; by eapply same_outside_rd).
  split; try (rewrite Hrd; [done|reflexivity]).
  - rewrite Hrd; [done|]. pose proof (N.mod_lt i 4 ltac:(done)) as Hi. revert Hi.
    generalize (i mod 4)%N as j. intros j Hj.
    assert (j = 0 ∨ j = 1 ∨ j = 2 ∨ j = 3)%N as [->|[->|[->| ->]]] by lia; reflexivity.
  - rewrite <- H0. unfold read_desc. f_equal; (apply Hrd; reflexivity).
  - rewrite <- H1. unfold read_desc. f_equal; (apply Hrd; reflexivity).
  - rewrite <- H2. unfold read_desc. f_equal; (apply Hrd; reflexivity).
Qed.

(** A request is published on a live queue, and nothing else is pending. *)
Record offered (p : Vdev) (kind : BlkReqType) (sector : N) : Prop := {
  of_live : is_live (v_hs p) = true;
  of_enabled : q_enabled (queue p) = true;
  of_size : q_size (queue p) = Some QUEUE_SIZE;
  of_desc : ring phys Desc p = Some layout.DESC_OFFSET;
  of_avail : ring phys Avail p = Some layout.AVAIL_OFFSET;
  of_used : ring phys Used p = Some layout.USED_OFFSET;
  of_idx : (v_seen p < U16)%N;
  of_used_idx : rd (v_mem p) (layout.USED_OFFSET + 2) 2 = v_seen p;
  of_published : published (v_mem p) (v_seen p) kind sector;
}.

(** The device has taken a part of the request's work on itself. *)
Record in_flight (p : Vdev) (kind : BlkReqType) (sector : N) (w : Vdev) : Prop := {
  if_hs : v_hs w = v_hs p;
  if_seen : v_seen w = v_seen p;
  if_disk : v_disk w = v_disk p;
  if_geo : v_geo w = v_geo p;
  if_mem : same_outside (writable (blk_req kind sector)) (v_mem p) (v_mem w);
}.

(** The request is in the used ring. *)
Record served (p : Vdev) (kind : BlkReqType) (sector : N) (w : Vdev) : Prop := {
  sv_hs : v_hs w = v_hs p;
  sv_geo : v_geo w = v_geo p;
  sv_seen : v_seen w = truncate U16 (v_seen p + 1);
  sv_mem : same_outside (writable (blk_req kind sector) ++ used_bytes) (v_mem p) (v_mem w);
  sv_used_idx : rd (v_mem w) (layout.USED_OFFSET + 2) 2 = v_seen w;
  sv_performed : performed (blk_req kind sector) p w (rd (v_mem w) layout.STATUS_OFFSET 1);
}.

Definition tracked p kind sector w : Prop := in_flight p kind sector w ∨ served p kind sector w.

Section track.
Context (p : Vdev) (kind : BlkReqType) (sector : N) (Hp : offered p kind sector).

Lemma flight_published w : in_flight p kind sector w → published (v_mem w) (v_seen w) kind sector.
Proof using Hp.
  intros [_ -> _ _ Hm]. eapply published_same; [apply Hp|].
  eapply same_outside_mono; [apply writable_area|exact Hm].
Qed.

Lemma queue_hs w w' : v_hs w = v_hs w' → queue w = queue w'.
Proof using. unfold queue. by intros ->. Qed.

Lemma ring_hs part w w' : v_hs w = v_hs w' → ring phys part w = ring phys part w'.
Proof using. intros E. unfold ring. by rewrite (queue_hs w w'). Qed.

Lemma flight_request w : in_flight p kind sector w → head_request phys w = Some (blk_req kind sector).
Proof using Hp.
  intros Hw. pose proof (flight_published w Hw) as Hpub. destruct Hw as [Hh Hs _ _ _].
  replace w with (with_mem w (v_mem w)) by (by destruct w).
  apply (published_request phys w _ (v_seen w)); [..|done|done].
  - rewrite (ring_hs _ w p Hh). apply Hp.
  - rewrite (ring_hs _ w p Hh). apply Hp.
  - rewrite (ring_hs _ w p Hh). apply Hp.
  - rewrite (queue_hs w p Hh). apply Hp.
Qed.

Lemma served_mem w : served p kind sector w → same_outside device_area (v_mem p) (v_mem w).
Proof using. intros Hw. eapply same_outside_mono; [apply request_bytes|apply Hw]. Qed.

Lemma served_settled w : served p kind sector w → pending phys w = false.
Proof using Hp.
  intros Hw. unfold pending. rewrite (ring_hs _ w p), (of_avail _ _ _ Hp) by apply Hw.
  assert (published (v_mem w) (v_seen p) kind sector) as Hpub
    by (eapply published_same; [apply Hp|by eapply served_mem]).
  rewrite (pb_avail _ _ _ _ _ Hpub : rd (v_mem w) (layout.AVAIL_OFFSET + 2) 2 = _).
  rewrite (sv_seen _ _ _ _ Hw), N.eqb_refl. apply andb_false_r.
Qed.

Lemma flight_pending w : in_flight p kind sector w → pending phys w = true.
Proof using Hp.
  intros Hw. pose proof (flight_published w Hw) as Hpub. destruct Hw as [Hh Hs _ _ _]. unfold pending.
  rewrite (queue_hs w p Hh), (ring_hs _ w p Hh), Hh, (of_avail _ _ _ Hp), (of_live _ _ _ Hp),
    (of_enabled _ _ _ Hp). cbn [andb].
  rewrite (pb_avail _ _ _ _ _ Hpub : rd (v_mem w) (layout.AVAIL_OFFSET + 2) 2 = _), Hs.
  apply negb_true_iff, N.eqb_neq, next_idx_differs, Hp.
Qed.

(** The work done so far does not change what the request asks for. *)
Lemma performed_from w w' st :
  in_flight p kind sector w → performed (blk_req kind sector) w w' st → performed (blk_req kind sector) p w' st.
Proof using.
  intros [_ _ Hd Hg Hm] Hperf. destruct Hperf as [Ht Hw Hl Hb Hd'|Ht Hw Hl Hd'|st Hst Hf Hd'].
  - rewrite Hd in Hb, Hd'. by apply performed_read.
  - apply performed_write; [done..|]. intros s. rewrite Hd', Hd. f_equal. apply bytes_at_same. intros i Hi.
    apply Hm. unfold writable. rewrite Hw. repeat constructor. simpl in *. unfold layout.STATUS_OFFSET, layout.DATA_OFFSET in *. lia.
  - apply performed_error; [done| |].
    + unfold may_fail, well_formed, v_capacity in *. by rewrite <- Hg.
    + intros s Hs. by rewrite Hd', Hd.
Qed.

Lemma tracked_step w w' : tracked p kind sector w → dev_step w w' → tracked p kind sector w'.
Proof using Hp.
  intros [Hw|Hw] Hst.
  2:{ destruct Hst as [? Hpe| ? Hpe|Hpe]; by rewrite (served_settled w Hw) in Hpe. }
  pose proof (flight_request w Hw) as Hreq.
  destruct Hst as [r _ Hr Hm Hh Hs Hd Hc|r _ Hr Hm Hh Hs Hc Hu Hperf|_ Hr]; rewrite Hreq in Hr; [| |done];
    injection Hr as <-; pose proof Hw as [Fh Fs Fd Fc Fm].
  - left. split; [by rewrite Hh|by rewrite Hs|by rewrite Hd|by rewrite Hc|by eapply same_outside_trans].
  - right. assert (ring phys Used w = Some layout.USED_OFFSET) as Er
      by (rewrite (ring_hs _ w p Fh); apply Hp).
    split; [by rewrite Hh|by rewrite Hc|by rewrite Hs, Fs| |by apply Hu|by eapply performed_from].
    eapply same_outside_trans; [eapply same_outside_mono; [|exact Fm]; by apply list_subseteq_app_l|].
    unfold used_area in Hm. rewrite Er, (queue_hs w p Fh), (of_size _ _ _ Hp) in Hm. exact Hm.
Qed.

Lemma tracked_steps w w' : tracked p kind sector w → rtc dev_step w w' → tracked p kind sector w'.
Proof using Hp. intros Hw. induction 1; [done|]. by eauto using tracked_step. Qed.

Lemma tracked_start : tracked p kind sector p.
Proof using. left. by split. Qed.

(** The used index tells the two cases apart. *)
Lemma tracked_used_idx w :
  tracked p kind sector w → rd (v_mem w) (layout.USED_OFFSET + 2) 2 = truncate U16 (v_seen p + 1) →
  served p kind sector w.
Proof using Hp.
  intros [Hw|Hw] E; [|done]. exfalso. apply (next_idx_differs (v_seen p)); [apply Hp|]. rewrite <- E.
  rewrite <- (of_used_idx _ _ _ Hp). eapply same_outside_rd; [apply Hw|]. unfold writable. by destruct kind.
Qed.
End track.

(** ** The driver publishes a request *)

Lemma published_make m i kind sector m0 m1 m2 :
  (sector < U64)%N →
  rd m 256 4 = req_code kind → rd m 264 8 = sector →
  same_outside [(16, 32)]%N m m0 → read_desc m0 16 0 = mkVDesc (phys + 256) 16 1 1 →
  same_outside [(32, 48)]%N m0 m1 →
  read_desc m1 16 1 = mkVDesc (phys + 512) 512 (match kind with Out => 1 | _ => 3 end) 2 →
  same_outside [(48, 64)]%N m1 m2 → read_desc m2 16 2 = mkVDesc (phys + 272) 1 2 0 →
  rd m2 0 8 = phys →
  published (wr (wr m2 (84 + (i mod 4) * 2) 2 0) 82 2 (truncate U16 (i + 1))) i kind sector.
Proof.
  intros Hsec Ht Hs S0 E0 S1 E1 S2 E2 Hp. pose proof (N.mod_lt i 4 ltac:(done)) as Hj. revert Hj.
  set (j := (i mod 4)%N). intros Hj.
  set (m' := wr _ 82 2 _). assert (∀ a n, (a + N.of_nat n ≤ 82 ∨ 92 ≤ a)%N → rd m' a n = rd m2 a n) as Hfar.
  { intros a n Ha. unfold m'. rewrite !rd_wr_other by lia. done. }
  split.
  - rewrite Hfar by lia. exact Hp.
  - unfold m'. apply rd_wr. apply N.mod_lt. done.
  - fold j. unfold m'. rewrite rd_wr_other by lia. by apply rd_wr.
  - rewrite <- E0. unfold read_desc. f_equal; rewrite Hfar by lia;
      rewrite (same_outside_rd _ _ _ _ _ S2), (same_outside_rd _ _ _ _ _ S1); reflexivity.
  - rewrite <- E1. unfold read_desc. f_equal; rewrite Hfar by lia;
      rewrite (same_outside_rd _ _ _ _ _ S2); reflexivity.
  - rewrite <- E2. unfold read_desc. f_equal; rewrite Hfar by lia; reflexivity.
  - rewrite Hfar by lia.
    by rewrite (same_outside_rd _ _ _ _ _ S2), (same_outside_rd _ _ _ _ _ S1), (same_outside_rd _ _ _ _ _ S0).
  - rewrite Hfar by lia.
    by rewrite (same_outside_rd _ _ _ _ _ S2), (same_outside_rd _ _ _ _ _ S1), (same_outside_rd _ _ _ _ _ S0).
Qed.

Section io.
Context (Hphys : (phys + REGION < U64)%N) (Hlayout : layout_ok t [base]).
Context {D E : Type} (B : Bus D) {C : Complies phys t base B}.
Context (Hbase : (base + REGION < U64)%N).

Context (Hfits : fits t).

Abbreviation vb_dev := (vb_dev phys t base).
Abbreviation vb_delay := (vb_delay phys t base).
Abbreviation runs_stage := (runs_stage phys t base Hlayout B Hbase).
Abbreviation idle := (idle phys t base).

(** An access of the driver, and the rest. *)
Lemma runs_io_bind {A A'} d s (m : M D E A) (k : A → M (VirtioBlk * D) E A') Q :
  runs s m (λ a s', runs (d, s') (k a) Q) → runs (d, s) (io m ≫= k) Q.
Proof using. intros H. by apply runs_bind, runs_io. Qed.

(** The header and the status byte. *)
Lemma runs_header {A} v kind sector d s (k : M (VirtioBlk * D) E A) Q :
  ring phys Avail v = Some layout.AVAIL_OFFSET → staged phys v (v_mem v) → vb_dev s = v → (sector < U64)%N →
  (∀ m s', staged phys v m → vb_dev s' = with_mem v m → rd m 256 4 = req_code kind → rd m 264 8 = sector →
           runs (d, s') k Q) →
  runs (d, s)
    (_ ← io (store B W32 base layout.HEADER_OFFSET (req_code kind));
     _ ← io (store B W32 base (layout.HEADER_OFFSET + 4) 0);
     _ ← io (store B W64 base (layout.HEADER_OFFSET + 8) sector);
     _ ← io (store B W8 base layout.STATUS_OFFSET 255); k) Q.
Proof using Hlayout Hbase.
  clear Hphys. intros Ha H0 Hs Hsec HQ.
  apply runs_io_bind, (runs_stage v (v_mem v) _ _ 256 W32); [done|done|by destruct v|done|simpl; lia|done|done|].
  intros m1 s1 E1 H1 Hs1.
  apply runs_io_bind, (runs_stage v m1 _ _ 260 W32); [done|done|done|done|simpl; lia|done|done|].
  intros m2 s2 E2 H2 Hs2.
  apply runs_io_bind, (runs_stage v m2 _ _ 264 W64); [done|done|done|done|simpl; lia|done|done|].
  intros m3 s3 E3 H3 Hs3.
  apply runs_io_bind, (runs_stage v m3 _ _ 272 W8); [done|done|done|done|simpl; lia|done|done|].
  intros m4 s4 E4 H4 Hs4.
  rewrite (truncate_id (width_mod W32)) in E1 by (by destruct kind). rewrite (truncate_id (width_mod W64)) in E3 by done.
  change (nbytes W64) with 8 in *. change (nbytes W32) with 4 in *. change (nbytes W8) with 1 in *.
  apply (HQ m4); [done|done| |]; subst; rewrite ?rd_wr_other by lia; apply rd_wr; [by destruct kind|done].
Qed.

Lemma runs_region_phys v m off (Q : N → D → Prop) s :
  ring phys Avail v = Some layout.AVAIL_OFFSET → staged phys v m → vb_dev s = with_mem v m → (off ≤ REGION)%N →
  (∀ s', vb_dev s' = with_mem v m → Q (phys + off)%N s') →
  runs (E := E) s (region_phys B base off) Q.
Proof using Hlayout Hbase Hphys.
  intros Ha Hm Hs Ho HQ. apply runs_bind.
  eapply (runs_ram_load phys t base Hlayout B Hbase v m); [done|done|apply Hm|done|].
  intros s' Hs'. change (rd m 0 (nbytes W64)) with (rd m 0 8). rewrite (sg_phys _ _ _ Hm).
  apply runs_sum; [|by apply HQ]. lia.
Qed.

(** The slot of the ring and the doorbell are all that is left. *)
Definition ready_to_publish (v : Vdev) (kind : BlkReqType) (sector : N) (m : N → N) : Prop :=
  staged phys v m ∧
  ∀ i, published (wr (wr m (84 + (i mod 4) * 2) 2 0) 82 2 (truncate U16 (i + 1))) i kind sector.

Definition request_desc (kind : BlkReqType) (i : N) : VirtqDescRaw :=
  match i with
  | 0 => mkDesc (phys + layout.HEADER_OFFSET) 16 VIRTQ_DESC_F_NEXT 1
  | 1 => mkDesc (phys + layout.DATA_OFFSET) (truncate U32 SECTOR_SIZE)
           (N.lor VIRTQ_DESC_F_NEXT (if match kind with Out => true | _ => false end then 0 else VIRTQ_DESC_F_WRITE)) 2
  | _ => mkDesc (phys + layout.STATUS_OFFSET) 1 VIRTQ_DESC_F_WRITE 0
  end%N.

Lemma runs_chain {A} v kind sector m d s (k : M (VirtioBlk * D) E A) Q :
  ring phys Avail v = Some layout.AVAIL_OFFSET → staged phys v m → vb_dev s = with_mem v m → (sector < U64)%N →
  rd m 256 4 = req_code kind → rd m 264 8 = sector →
  (∀ m' s', ready_to_publish v kind sector m' → vb_dev s' = with_mem v m' → runs (d, s') k Q) →
  let desc i x := (a ← unwrap (checked_add U64 base (layout.DESC_OFFSET + i * 16)); write_desc B a x) in
  runs (d, s)
    (_ ← io (desc 0%N (request_desc kind 0));
     _ ← io (desc 1%N (request_desc kind 1));
     _ ← io (desc 2%N (request_desc kind 2)); k) Q.
Proof using Hlayout Hbase Hphys.
  intros Ha Hm Hs Hsec Ht Hsc HQ desc. unfold desc.
  assert (∀ i, (d_addr (request_desc kind i) < U64 ∧ d_len (request_desc kind i) < U32 ∧
                d_flags (request_desc kind i) < U16 ∧ d_next (request_desc kind i) < U16)%N) as Hb.
  { intros i. unfold REGION in Hphys.
    assert (phys + layout.HEADER_OFFSET < U64 ∧ phys + layout.DATA_OFFSET < U64 ∧ phys + layout.STATUS_OFFSET < U64)%N
      as (? & ? & ?) by (unfold layout.HEADER_OFFSET, layout.DATA_OFFSET, layout.STATUS_OFFSET; lia).
    destruct i as [|[]]; simpl; split_and!; try done; by destruct kind. }
  apply runs_io_bind.
  eapply (runs_write_desc phys t base Hlayout B Hbase v m 0 (request_desc kind 0)); try done; try apply Hb.
  intros m0 s0 H0 Hs0 E0 S0. apply runs_io_bind.
  eapply (runs_write_desc phys t base Hlayout B Hbase v m0 1 (request_desc kind 1)); try done; try apply Hb.
  intros m1 s1 H1 Hs1 E1 S1. apply runs_io_bind.
  eapply (runs_write_desc phys t base Hlayout B Hbase v m1 2 (request_desc kind 2)); try done; try apply Hb.
  intros m2 s2 H2 Hs2 E2 S2. apply (HQ m2); [|done]. split; [done|]. intros i.
  apply (published_make m i kind sector m0 m1 m2); [done|done|done|exact S0|exact E0|exact S1| |exact S2|exact E2|apply H2].
  rewrite E1. by destruct kind.
Qed.

Lemma tracked_hs p kind sector w : tracked p kind sector w → v_hs w = v_hs p.
Proof using. intros [Hw|Hw]; apply Hw. Qed.

Lemma set_own_hs h v : v_hs v = h → set_v_hs h v = v.
Proof using. intros <-. by destruct v. Qed.

(** The doorbell starts no more than the device may do anyway. *)
Lemma runs_notify p kind sector off s (Q : unit → D → Prop) :
  offered p kind sector → tracked p kind sector (vb_dev s) →
  match t with Mmio _ => True | _ => off = q_notify_off (queue p) end →
  (∀ s', tracked p kind sector (vb_dev s') → Q tt s') →
  runs (E := E) s (notify_queue B t REQUEST_QUEUE off) Q.
Proof using Hfits C.
  clear Hphys Hlayout Hbase. intros Hp Hs Ho HQ. pose proof (tracked_hs _ _ _ _ Hs) as Hh.
  assert (is_live (v_hs (vb_dev s)) = true) as Hl by (rewrite Hh; apply Hp).
  assert (q_enabled (h_queues (v_hs (vb_dev s)) 0) = true) as He by (rewrite Hh; apply Hp).
  pose proof (vb_doorbell phys t base s Hl) as Hbell.
  assert (∀ w addr o, decode t [base] w addr = Some (Notify o) →
            mon1 t base (v_hs (vb_dev s)) (Store w addr 0) = Some (v_hs (vb_dev s)) →
            Q tt (bus_store B w addr 0 s)) as Hgo.
  { intros w addr o Hd Hm. apply HQ. destruct (vb_store phys t base s w addr 0 _ Hm) as (v & Hv & ->).
    apply (tracked_steps p kind sector Hp _ _ Hs) in Hv. unfold after_store. rewrite Hd, set_own_hs; [done|].
    by rewrite (tracked_hs _ _ _ _ Hv). }
  unfold notify_queue, mon1, mon, is_doorbell, fits, queue in *. clear HQ Hs Hp.
  generalize dependent (v_hs (vb_dev s)). intros h Hh Hl He Hbell Hgo. rewrite <- Hh in Ho. clear C p Hh.
  destruct t as [b|common notify mult isr cfg].
  - apply runs_bind, runs_sum; [unfold mmio.QUEUE_NOTIFY, MMIO_LEN in *; lia|].
    eexists tt, _. split; [reflexivity|]. change (truncate (width_mod W32) REQUEST_QUEUE) with 0%N.
    assert (decode (Mmio b) [base] W32 (b + mmio.QUEUE_NOTIFY) = Some (Notify 0)) as Hd
      by (rewrite decode_mmio by done; reflexivity).
    apply (Hgo W32 _ 0%N Hd). rewrite Hd. cbn [reg_store guard]. by rewrite Hl, He.
  - rewrite <- Ho in Hbell. destruct Hbell as [Hlt Hd]. apply runs_bind. unfold checked_mul.
    rewrite (proj2 (N.ltb_lt _ _)) by lia. apply runs_ret, runs_bind, runs_sum; [exact Hlt|].
    eexists tt, _. split; [reflexivity|]. change (truncate (width_mod W16) REQUEST_QUEUE) with 0%N.
    apply (Hgo W16 _ _ Hd). rewrite Hl, He. cbn [andb].
    change REQUEST_QUEUE with 0%N in Ho. by rewrite <- Ho, N.eqb_refl.
Qed.

Lemma idle_offered d v kind sector m :
  idle d v → ready_to_publish v kind sector m →
  let m' := wr (wr m (84 + (v_seen v mod 4) * 2) 2 0) 82 2 (truncate U16 (v_seen v + 1)) in
  offered (with_mem v m') kind sector ∧ same_outside driver_area (v_mem v) m'.
Proof using.
  clear Hphys Hlayout Hbase Hfits. intros Hi [Hm Hpub] m'. pose proof (N.mod_lt (v_seen v) 4 ltac:(done)) as Hj.
  assert (same_outside driver_area (v_mem v) m') as Hs.
  { unfold m'. revert Hj. generalize (v_seen v mod 4)%N as j. intros j Hj.
    apply same_outside_wr; [apply same_outside_wr|reflexivity]; [apply Hm|].
    apply existsb_exists. exists (16, 128)%N. split; [by left|]. cbn [fst snd].
    apply andb_true_intro. split; apply N.leb_le; lia. }
  split; [|exact Hs].
  destruct Hi as [_ _ (Hl & He & _) Hsz Hd Ha Hu _ Hix _ Huse Hseen _].
  split; try done.
  - cbn [v_seen with_mem set_v_mem]. by rewrite Hseen.
  - cbn [v_seen v_mem with_mem set_v_mem]. rewrite (same_outside_rd _ _ _ _ _ Hs) by reflexivity. by rewrite Huse.
  - apply Hpub.
Qed.

Lemma idle_staged d v : idle d v → staged phys v (v_mem v).
Proof using.
  clear Hphys Hlayout Hbase Hfits. intros Hi. split; [|apply Hi|done].
  unfold quiet. by rewrite (id_avail _ _ _ _ _ Hi), (id_seen _ _ _ _ _ Hi).
Qed.

(** A request is on its way. *)
Record submitted (v p : Vdev) (kind : BlkReqType) (sector : N) : Prop := {
  sb_offered : offered p kind sector;
  sb_hs : v_hs p = v_hs v;
  sb_seen : v_seen p = v_seen v;
  sb_disk : v_disk p = v_disk v;
  sb_geo : v_geo p = v_geo v;
  sb_mem : same_outside driver_area (v_mem v) (v_mem p);
}.

Lemma runs_submit d s kind sector (Q : unit → VirtioBlk * D → Prop) :
  idle d (vb_dev s) → (sector < U64)%N →
  (∀ p s', submitted (vb_dev s) p kind sector → tracked p kind sector (vb_dev s') →
     Q tt (set_next_idx (truncate U16 (v_seen p + 1)) d, s')) →
  runs (E := E) (d, s) (submit_request B kind sector SECTOR_SIZE) Q.
Proof using Hphys Hlayout Hbase Hfits.
  intros Hi Hsec HQ. pose proof (idle_staged d _ Hi) as H0. remember (vb_dev s) as v eqn:Hs. symmetry in Hs.
  pose proof (id_ravail _ _ _ _ _ Hi) as Ha. destruct (id_mine _ _ _ _ _ Hi) as [Et Eb].
  unfold submit_request. apply runs_bind. eexists _, (d, s). split; [reflexivity|]. cbn [fst]. rewrite Eb.
  apply (runs_header v); [done..|]. intros m1 s1 H1 Hs1 Ht1 Hc1.
  apply runs_io_bind, (runs_region_phys v m1); [done..|]. intros s2 Hs2.
  apply runs_io_bind, (runs_region_phys v m1); [done..|]. intros s3 Hs3.
  apply runs_io_bind, (runs_region_phys v m1); [done..|]. intros s4 Hs4.
  apply (runs_chain v kind sector m1); [done..|]. intros m2 s5 H2 Hs5.
  apply runs_bind. eexists _, (d, s5). split; [reflexivity|]. cbn [fst]. rewrite <- (id_seen _ _ _ _ _ Hi).
  destruct (idle_offered d v kind sector m2 Hi H2) as [Hof Hsame].
  pose proof (N.mod_lt (v_seen v) QUEUE_SIZE ltac:(done)) as Hj.
  apply runs_io_bind, (runs_stage v m2 _ _ (84 + (v_seen v mod 4) * 2) W16);
    [done|apply H2|done|unfold layout.AVAIL_OFFSET, QUEUE_SIZE; lia|right; apply N.le_add_r|etrans; [|apply N.le_add_r]; done| |].
  { apply existsb_exists. exists (16, 128)%N. split; [by left|]. cbn [fst snd]. change (width_bytes W16) with 2%N.
    change QUEUE_SIZE with 4%N in Hj. apply andb_true_intro. clear -Hj; revert Hj; generalize (v_seen v mod 4)%N; intros j Hj; split; apply N.leb_le; lia. }
  intros m3 s6 E3 H3 Hs6. apply runs_bind. eexists tt, (set_next_idx (truncate U16 (v_seen v + 1)) d, s6).
  split; [reflexivity|].
  apply runs_io_bind, (runs_ram_store phys t base Hlayout B Hbase v m3 _ _ 82 W16);
    [done|done|apply H3|done|done|reflexivity|].
  intros s7 Hs7. rewrite (truncate_id (width_mod W16)) in Hs7 by (apply N.mod_lt; done).
  change (truncate (width_mod W16) 0) with 0%N in E3. change (nbytes W16) with 2 in *. subst m3.
  set (p := with_mem v (wr _ 82 2 _)) in *.
  apply runs_bind. eexists _, (_, s7). split; [reflexivity|].
  apply runs_bind. eexists _, (_, s7). split; [reflexivity|]. cbn [fst transport set_next_idx queue_notify_off].
  rewrite Et. apply runs_io, (runs_notify p kind sector); [done|rewrite Hs7; apply tracked_start| |].
  - pose proof (id_usable _ _ _ _ _ Hi) as (_ & _ & Hn). exact Hn.
  - intros s8 Hs8. apply (HQ p); [|done]. by split.
Qed.

(** ** The completion *)

(** A load that changes nothing for the driver. *)
Lemma runs_track_read p kind sector w addr r s (Q : N → D → Prop) :
  offered p kind sector → tracked p kind sector (vb_dev s) → decode t [base] w addr = Some r →
  (∀ x, reg_load (v_hs p) r x = Some (v_hs p)) →
  (∀ x s', tracked p kind sector (vb_dev s') → (vb_delay s' ≤ vb_delay s)%N →
           rtc dev_step (vb_dev s) (vb_dev s') → load_gives t base (vb_dev s') w addr x → Q x s') →
  runs (E := E) s (read_volatile B w addr) Q.
Proof using C.
  clear Hphys Hlayout Hbase Hfits. intros Hp Hs Hd Hr HQ. unfold runs, read_volatile.
  destruct (bus_load B w addr s) as [x s'] eqn:Hl.
  destruct (vb_load phys t base s w addr x s' Hl) as (Hdel & v & Hv & Hg & Hm).
  pose proof (tracked_steps p kind sector Hp _ _ Hs Hv) as Hw.
  assert (vb_dev s' = v) as E'.
  { rewrite (Hm (v_hs p)).
    - apply set_own_hs. by rewrite (tracked_hs _ _ _ _ Hw).
    - rewrite (tracked_hs _ _ _ _ Hs). unfold mon1, mon. by rewrite Hd. }
  rewrite <- E' in *. eexists _, s'. split; [reflexivity|]. by apply HQ.
Qed.

Lemma runs_track_load p kind sector w off s (Q : N → D → Prop) :
  offered p kind sector → tracked p kind sector (vb_dev s) → (off + width_bytes w ≤ REGION)%N →
  (∀ s', tracked p kind sector (vb_dev s') → (vb_delay s' ≤ vb_delay s)%N →
         rtc dev_step (vb_dev s) (vb_dev s') → Q (rd (v_mem (vb_dev s')) off (nbytes w)) s') →
  runs (E := E) s (load B w base off) Q.
Proof using C Hlayout Hbase.
  clear Hphys Hfits. intros Hp Hs Ho HQ. apply runs_bind, runs_sum; [by apply (ram_address base Hbase off w)|].
  assert (decode t [base] w (base + off) = Some (Ram 0 off)) as Hd by (by apply decode_ram).
  eapply (runs_track_read p kind sector); [done|done|exact Hd|done|]. intros x s' H1 H2 H3 Hg.
  unfold load_gives in Hg. rewrite Hd in Hg. rewrite Hg. by apply HQ.
Qed.

(** The driver waits for this request. *)
Record awaits (d : VirtioBlk) (p : Vdev) : Prop := {
  aw_mine : mine t base d;
  aw_idx : next_idx d = truncate U16 (v_seen p + 1);
}.

Lemma runs_pending p kind sector d s (Q : bool → VirtioBlk * D → Prop) :
  offered p kind sector → awaits d p → tracked p kind sector (vb_dev s) →
  (∀ s', served p kind sector (vb_dev s') → Q true (d, s')) →
  (∀ s', tracked p kind sector (vb_dev s') → (vb_delay s' ≤ vb_delay s)%N →
         pending phys (vb_dev s) = true → Q false (d, s')) →
  runs (E := E) (d, s) (completion_pending B) Q.
Proof using C Hlayout Hbase.
  clear Hphys Hfits. intros Hp [[_ Hb] Hi] Hs HT HF. unfold completion_pending.
  apply runs_bind. eexists _, (d, s). split; [reflexivity|]. cbn [fst]. rewrite Hb.
  apply runs_io_bind. eapply (runs_track_load p kind sector); [done|done|done|]. intros s' Hs' Hd Hrtc.
  apply runs_bind. eexists _, (d, s'). split; [reflexivity|]. cbn [fst]. apply runs_ret. rewrite Hi.
  change (nbytes W16) with 2. destruct (N.eqb_spec (rd (v_mem (vb_dev s')) (layout.USED_OFFSET + 2) 2) (truncate U16 (v_seen p + 1))) as [E'|E'].
  - apply HT. by eapply tracked_used_idx.
  - apply HF; [done|done|]. destruct (pending phys (vb_dev s)) eqn:Hpend; [done|]. exfalso. apply E'.
    apply idle_steps in Hrtc; [|done]. destruct Hs as [Hw|Hw].
    + by rewrite (flight_pending p kind sector Hp _ Hw) in Hpend.
    + rewrite Hrtc, (sv_used_idx _ _ _ _ Hw). apply Hw.
Qed.

(** The waits are enough: the device completes the request before them. *)
Lemma runs_await p kind sector d n s (Q : bool → VirtioBlk * D → Prop) :
  offered p kind sector → awaits d p → tracked p kind sector (vb_dev s) → (vb_delay s < N.of_nat n)%N →
  (∀ s', served p kind sector (vb_dev s') → Q true (d, s')) →
  runs (E := E) (d, s) (await_completion B n) Q.
Proof using C Hlayout Hbase.
  clear Hphys Hfits. intros Hp Hd Hs Hn HQ. revert s Hs Hn.
  induction n as [|n IH]; intros s Hs Hn; [lia|]. cbn [await_completion].
  destruct (vb_wait phys t base s (v_hs (vb_dev s))) as [Hrtc Hdel].
  { cbn [mon1 mon]. rewrite (tracked_hs _ _ _ _ Hs). unfold guard. by rewrite (of_live _ _ _ Hp). }
  apply runs_io_bind. eexists tt, _. split; [reflexivity|].
  pose proof (tracked_steps p kind sector Hp _ _ Hs Hrtc) as Hs1.
  apply runs_bind, (runs_pending p kind sector); [done|done|done| |].
  - intros s' Hs'. by apply runs_ret, HQ.
  - intros s' Hs' Hle Hpend. apply IH; [done|].
    destruct Hs1 as [Hw1|Hw1]; [|by rewrite (served_settled p kind sector Hp _ Hw1) in Hpend].
    destruct Hs as [Hw|Hw].
    + assert (vb_delay (bus_wait B s) < vb_delay s)%N; [|lia]. apply Hdel; [done|].
      by rewrite (if_seen _ _ _ _ Hw1), (if_seen _ _ _ _ Hw).
    + apply idle_steps in Hrtc; [|by eapply served_settled].
      by rewrite Hrtc, (served_settled p kind sector Hp _ Hw) in Hpend.
Qed.

Lemma runs_ack_interrupt p kind sector s (Q : unit → D → Prop) :
  offered p kind sector → served p kind sector (vb_dev s) →
  (∀ s', served p kind sector (vb_dev s') → Q tt s') →
  runs (E := E) s (ack_interrupt B t) Q.
Proof using C Hlayout Hfits.
  clear Hphys Hbase. intros Hp Hs HQ. pose proof (of_live _ _ _ Hp) as Hl.
  assert (∀ w addr r (Q' : N → D → Prop) s, decode t [base] w addr = Some r →
    (∀ x, reg_load (v_hs p) r x = Some (v_hs p)) → served p kind sector (vb_dev s) →
    (∀ x s', served p kind sector (vb_dev s') → Q' x s') → runs (E := E) s (read_volatile B w addr) Q') as Hrd.
  { intros w addr r Q' s1 Hd Hr Hs1 HQ'. eapply (runs_track_read p kind sector); [done|by right|exact Hd|done|].
    intros x s' _ _ Hrtc _. apply HQ'. apply idle_steps in Hrtc as ->; [done|].
    by eapply served_settled. }
  assert (∀ w addr x s, decode t [base] w addr = Some InterruptAck →
    mon1 t base (v_hs p) (Store w addr x) = Some (v_hs p) →
    served p kind sector (vb_dev s) → served p kind sector (vb_dev (bus_store B w addr x s))) as Hst.
  { intros w addr x s1 Hd Hm Hs1. rewrite <- (sv_hs _ _ _ _ Hs1) in Hm.
    destruct (vb_store phys t base s1 w addr x _ Hm) as (v & Hrtc & ->).
    apply idle_steps in Hrtc as ->; [|by eapply served_settled].
    unfold after_store. rewrite Hd. by rewrite set_own_hs. }
  eapply (acknowledges t base B (λ s, served p kind sector (vb_dev s)) (v_hs p)); try done.
  intros w addr r Q' s1 Hd Hr. apply (Hrd w addr r); [exact Hd|]. intros y. destruct Hr as [-> | ->]; simpl; by rewrite Hl.
Qed.

Lemma runs_ack p kind sector d s (Q : N → VirtioBlk * D → Prop) :
  offered p kind sector → awaits d p → served p kind sector (vb_dev s) →
  (∀ s', served p kind sector (vb_dev s') → Q (rd (v_mem (vb_dev s')) layout.STATUS_OFFSET 1) (d, s')) →
  runs (E := E) (d, s) (ack_completion B) Q.
Proof using C Hlayout Hfits Hbase.
  clear Hphys. intros Hp [[Ht Hb] _] Hs HQ. unfold ack_completion.
  apply runs_bind. eexists _, (d, s). split; [reflexivity|]. cbn [fst]. rewrite Ht.
  apply runs_io_bind, (runs_ack_interrupt p kind sector); [done|done|]. intros s1 Hs1.
  apply runs_bind. eexists _, (d, s1). split; [reflexivity|]. cbn [fst]. rewrite Hb.
  apply runs_io. eapply (runs_track_load p kind sector); [done|by right|done|]. intros s' Hs' _ Hrtc.
  apply HQ. by apply idle_steps in Hrtc as ->; [|by eapply served_settled].
Qed.

(** ** The answer *)

(** The parts of the page that a request may change. *)
Definition request_area : list (N * N) := driver_area ++ device_area.

Lemma served_buffer v p sector w :
  submitted v p Out sector → served p Out sector w → dk_buffer (view w) = dk_buffer (view v).
Proof using.
  clear Hphys Hlayout Hbase Hfits. intros Hv Hw. apply bytes_at_same. intros i Hi.
  unfold layout.DATA_OFFSET, SECTOR_SIZE in Hi.
  rewrite (sv_mem _ _ _ _ Hw), (sb_mem _ _ _ _ Hv); [done|..];
    unfold driver_area, used_bytes, writable; simpl; unfold layout.STATUS_OFFSET; repeat constructor; simpl; lia.
Qed.

Lemma served_answered v p kind sector w :
  kind ≠ Flush → submitted v p kind sector → served p kind sector w → refused (v_capacity v) sector 1 = None →
  disk_io (v_geo v) kind sector 1 (view v) (view w) (status_response (rd (v_mem w) layout.STATUS_OFFSET 1)).
Proof using.
  clear Hphys Hlayout Hbase Hfits. intros Hk Hv Hw Href. pose proof Hv as [_ _ _ Hdisk Hgeo Hm].
  destruct (sv_performed _ _ _ _ Hw) as [Ht Hwr Hl Hb Hd|Ht Hwr Hl Hd|st Hst Hf Hd]; unfold status_response.
  - simpl in Ht. apply io_read; [done|by destruct kind| |]; simpl.
    + by rewrite Hd.
    + rewrite <- Hdisk. exact Hb.
  - simpl in Ht. destruct kind; try done. apply io_write; [done|done| |by eapply served_buffer].
    intros s. simpl. rewrite Hd, Hdisk. simpl. f_equal.
    apply bytes_at_same. intros i Hi. apply Hm. unfold driver_area, SECTOR_SIZE, layout.DATA_OFFSET in *.
    repeat constructor; simpl; lia.
  - rewrite (proj2 (N.eqb_neq _ _)) by done. apply io_failed; [done| | |].
    + unfold may_fail, well_formed, v_capacity in Hf. rewrite Hgeo in Hf. cbn [rq_len rq_sector rq_type rq_writable blk_req] in Hf.
      destruct (g_faulty (v_geo v)); [done|]. cbn [orb] in *. rewrite <- Hf. f_equal.
      destruct kind; cbn; rewrite ?andb_true_r; done.
    + intros s Hs. simpl. rewrite Hd, Hdisk; [done|]. destruct Hs as [Hs|Hs]; [by left|right]. by destruct kind.
    + intros ->. by eapply served_buffer.
Qed.

(** The driver is ready again. *)
Lemma served_idle d v p kind sector w :
  idle d v → submitted v p kind sector → served p kind sector w →
  idle (set_next_idx (truncate U16 (v_seen p + 1)) d) w.
Proof using.
  clear Hphys Hlayout Hbase Hfits. intros Hi Hv Hw.
  assert (v_hs w = v_hs v) as Eh by (rewrite (sv_hs _ _ _ _ Hw); apply Hv).
  assert (published (v_mem w) (v_seen p) kind sector) as Hpub
    by (eapply published_same; [apply Hv|by eapply served_mem]).
  destruct Hi as [Hm Hr Hu Hsz Hd Ha Hus Hp Hix Hav Hui Hs Hc].
  split; cbn [next_idx set_next_idx ready capacity_sectors].
  - exact Hm.
  - exact Hr.
  - rewrite Eh. exact Hu.
  - by rewrite (queue_hs w v Eh).
  - by rewrite (ring_hs _ w v Eh).
  - by rewrite (ring_hs _ w v Eh).
  - by rewrite (ring_hs _ w v Eh).
  - apply Hpub.
  - apply N.mod_lt. done.
  - apply Hpub.
  - rewrite (sv_used_idx _ _ _ _ Hw). apply Hw.
  - apply Hw.
  - rewrite Hc. unfold v_capacity. by rewrite (sv_geo _ _ _ _ Hw), (sb_geo _ _ _ _ Hv).
Qed.

Lemma runs_validate d s n lba (Q : option DriverP.DriverErrorCode → VirtioBlk * D → Prop) :
  (lba + 1 < U64)%N → Q (refused (capacity_sectors d) lba n) (d, s) →
  runs (E := E) (d, s) (validate_io n lba) Q.
Proof using.
  clear Hphys Hlayout Hbase Hfits. intros Hl HQ. unfold validate_io, refused in *.
  destruct (negb (n =? 1)%N); [by apply runs_ret|].
  apply runs_bind. eexists _, (d, s). split; [reflexivity|]. cbn [fst].
  destruct (capacity_sectors d =? 0)%N; [by apply runs_ret|].
  apply runs_bind, runs_sum; [done|]. apply runs_ret. exact HQ.
Qed.

(** A request of the process. *)
Lemma runs_handle_io d s kind lba n :
  idle d (vb_dev s) → (lba + 1 < U64)%N → kind ≠ Flush →
  runs (E := E) (d, s) (handle_io B kind lba n) (λ resp x,
    disk_io (v_geo (vb_dev s)) kind lba n (view (vb_dev s)) (view (vb_dev x.2)) resp ∧
    same_outside request_area (v_mem (vb_dev s)) (v_mem (vb_dev x.2)) ∧
    idle x.1 (vb_dev x.2) ∧ v_geo (vb_dev x.2) = v_geo (vb_dev s)).
Proof using Hphys Hlayout Hfits Hbase C.
  intros Hi Hl Hk. unfold handle_io. apply runs_bind. eexists _, (d, s). split; [reflexivity|]. cbn [fst].
  rewrite (id_ready _ _ _ _ _ Hi). cbn [negb]. apply runs_bind, runs_validate; [done|].
  rewrite (id_capacity _ _ _ _ _ Hi).
  destruct (refused _ _ _) as [code|] eqn:Href.
  { apply runs_ret. cbn [fst snd]. split_and!; try done. by apply io_refused. }
  assert (n = 1)%N as -> by (unfold refused in Href; destruct (N.eqb_spec n 1); [done|discriminate Href]).
  apply runs_bind, runs_submit; [done|lia|]. intros p s1 Hv Hs1. pose proof (sb_offered _ _ _ _ Hv) as Hp.
  assert (awaits (set_next_idx (truncate U16 (v_seen p + 1)) d) p) as Ha by (split; [apply Hi|done]).
  apply runs_bind, (runs_await p kind lba); [done|done|done| |].
  { rewrite N2Nat.id. apply vb_patience. }
  intros s2 Hs2. apply runs_bind, (runs_ack p kind lba); [done|done|done|].
  intros s3 Hs3. apply runs_ret. cbn [fst snd]. split_and!;
    [by eapply served_answered| |by eapply served_idle|by rewrite (sv_geo _ _ _ _ Hs3), (sb_geo _ _ _ _ Hv)].
  apply (same_outside_trans _ _ (v_mem p)).
  - eapply same_outside_mono; [|apply Hv]. by apply list_subseteq_app_l.
  - eapply same_outside_mono; [|by eapply served_mem]. by apply list_subseteq_app_r.
Qed.
End io.

(** ** The message page *)

(** The message area of the page, as [Service] has it. *)
Definition page_word (m : N → N) (i : nat) : N := rd m (layout.MESSAGE_OFFSET + 8 * N.of_nat i) 8.

Definition page_at (m : N → N) : Page := mkPage (page_word m 0) (page_word m <$> seq 1 MSG_MAX_WORDS).

Lemma page_at_wf m : page_wf (page_at m).
Proof. split; [done|]. apply Forall_fmap, Forall_forall. intros i _. apply (rd_bound m _ 8). Qed.

Definition message_area : list (N * N) := [(1024, 1080)]%N.

Lemma idle_with_mem d v m :
  idle phys t base d v → same_outside [(512, 1080)]%N (v_mem v) m → idle phys t base d (with_mem v m).
Proof.
  intros [Hm Hr Hu Hsz Hd Ha Hus Hp Hix Hav Hui Hs Hc] Hmem.
  split; try done; cbn [v_mem with_mem set_v_mem];
    rewrite (same_outside_rd _ _ _ _ _ Hmem) by reflexivity; done.
Qed.

Section serve.
Context (Hphys : (phys + REGION < U64)%N) (Hlayout : layout_ok t [base]).
Context {D : Type} (B : Bus D) {C : Complies phys t base B}.
Context (Hbase : (base + REGION < U64)%N) (Hfits : fits t).

Abbreviation vb_dev := (vb_dev phys t base).
Abbreviation idle := (idle phys t base).

Section quiet.
Context (v : Vdev) (Ha : ring phys Avail v = Some layout.AVAIL_OFFSET).

Lemma runs_page_load m i s (Q : N → D → Prop) :
  quiet v m → vb_dev s = with_mem v m → i < 7 →
  (∀ s', vb_dev s' = with_mem v m → Q (page_word m i) s') →
  runs (E := Empty_set) s (load B W64 base (layout.MESSAGE_OFFSET + 8 * N.of_nat i)) Q.
Proof using Hlayout Hbase Ha C.
  clear Hphys Hfits. intros Hq Hs Hi HQ.
  eapply (runs_ram_load phys t base Hlayout B Hbase v m); [done|done|done| |exact HQ].
  apply message_word. lia.
Qed.

Lemma runs_read_words m n i s (Q : list N → D → Prop) :
  quiet v m → vb_dev s = with_mem v m → i + n ≤ 7 →
  (∀ s', vb_dev s' = with_mem v m → Q (page_word m <$> seq i n) s') →
  runs s (read_words B layout.MESSAGE_OFFSET base (N.of_nat i) n) Q.
Proof using Hlayout Hbase Ha C.
  clear Hphys Hfits. intros Hq. revert i s Q. induction n as [|n IH]; intros i s Q Hs Hi HQ; cbn [read_words].
  - by apply runs_ret, HQ.
  - apply runs_bind, (runs_page_load m i); [done|done|lia|]. intros s1 Hs1.
    replace (N.of_nat i + 1)%N with (N.of_nat (S i)) by lia.
    apply runs_bind, IH; [done|lia|]. intros s2 Hs2. by apply runs_ret, HQ.
Qed.

Lemma runs_read_message m s (Q : SmallMessage → D → Prop) :
  quiet v m → vb_dev s = with_mem v m →
  (∀ s', vb_dev s' = with_mem v m → Q (Service.read_shared_message (page_at m)) s') →
  runs s (Virtio.read_shared_message B layout.MESSAGE_OFFSET base) Q.
Proof using Hlayout Hbase Ha C.
  clear Hphys Hfits. intros Hq Hs HQ. unfold Virtio.read_shared_message.
  apply runs_bind. change layout.MESSAGE_OFFSET with (layout.MESSAGE_OFFSET + 8 * N.of_nat 0)%N.
  apply (runs_page_load m 0); [done|done|lia|]. intros s1 Hs1.
  apply runs_bind, (runs_read_words m MSG_MAX_WORDS 1); [done|done|unfold MSG_MAX_WORDS; lia|].
  intros s2 Hs2. by apply runs_ret, HQ.
Qed.

Lemma message_range i : i < 7 →
  (1024 ≤ layout.MESSAGE_OFFSET + 8 * N.of_nat i ∧ layout.MESSAGE_OFFSET + 8 * N.of_nat i + 8 ≤ 1080)%N.
Proof using. clear. intros Hi. unfold layout.MESSAGE_OFFSET. lia. Qed.

(** A store to word [i]. *)
Lemma runs_page_store m i x s (Q : unit → D → Prop) :
  quiet v m → vb_dev s = with_mem v m → i < 7 → (x < U64)%N →
  (∀ m' s', vb_dev s' = with_mem v m' → quiet v m' → same_outside message_area m m' →
     page_word m' i = x → (∀ j, j ≠ i → page_word m' j = page_word m j) → Q tt s') →
  runs (E := Empty_set) s (store B W64 base (layout.MESSAGE_OFFSET + 8 * N.of_nat i) x) Q.
Proof using Hlayout Hbase Ha C.
  clear Hphys Hfits. intros Hq Hs Hi Hx HQ. destruct (message_range i Hi) as [Hlo Hhi].
  destruct (message_word (N.of_nat i)) as [Ho Hu]; [lia|].
  eapply (runs_ram_store phys t base Hlayout B Hbase v m); [done|done|done|reflexivity|done|done|].
  intros s' Hs'. rewrite (truncate_id (width_mod W64)) in Hs' by done. change (nbytes W64) with 8 in Hs'.
  eapply HQ; [exact Hs'| | | |].
  - unfold quiet in *. rewrite rd_wr_other; [done|].
    change (layout.AVAIL_OFFSET + 2)%N with 82%N. left. by apply (N.le_trans _ 1024).
  - apply same_outside_wr; [apply same_outside_refl|]. apply existsb_exists. exists (1024, 1080)%N.
    split; [by left|]. cbn [fst snd]. apply andb_true_intro. split; apply N.leb_le; [exact Hlo|exact Hhi].
  - by apply rd_wr.
  - intros j Hj. unfold page_word. apply rd_wr_other. clear -Hj. change (N.of_nat 8) with 8%N. lia.
Qed.

Lemma runs_write_words l m i s (Q : unit → D → Prop) :
  quiet v m → vb_dev s = with_mem v m → i + length l ≤ 7 → Forall (λ x, x < U64)%N l →
  (∀ m' s', vb_dev s' = with_mem v m' → same_outside message_area m m' →
     page_word m' <$> seq i (length l) = l → (∀ j, j < i → page_word m' j = page_word m j) → Q tt s') →
  runs s (write_words B layout.MESSAGE_OFFSET base (N.of_nat i) l) Q.
Proof using Hlayout Hbase Ha C.
  clear Hphys Hfits. revert m i s. induction l as [|x l IH]; intros m i s Hq Hs Hi Hl HQ; cbn [write_words].
  - by apply runs_ret, (HQ m).
  - apply Forall_cons in Hl as [Hx Hl]. cbn [length] in Hi. apply runs_bind, (runs_page_store m i); [done|done|lia|done|].
    intros m1 s1 Hs1 Hq1 Hsame1 Hw1 Ho1. replace (N.of_nat i + 1)%N with (N.of_nat (S i)) by lia.
    apply (IH m1); [done|done|lia|done|]. intros m2 s2 Hs2 Hsame2 Hw2 Ho2. apply (HQ m2); [done| | |].
    + by eapply same_outside_trans.
    + cbn [length seq fmap list_fmap]. f_equal; [|exact Hw2]. rewrite Ho2 by lia. exact Hw1.
    + intros j Hj. rewrite Ho2, Ho1 by lia. done.
Qed.

Lemma runs_write_message m msg pg s (Q : unit → D → Prop) :
  quiet v m → vb_dev s = with_mem v m →
  Service.write_shared_message msg = Some pg → page_wf pg → (pg_label pg < U64)%N →
  (∀ m' s', vb_dev s' = with_mem v m' → same_outside message_area m m' → page_at m' = pg → Q tt s') →
  runs s (Virtio.write_shared_message B layout.MESSAGE_OFFSET base msg) Q.
Proof using Hlayout Hbase Ha C.
  clear Hphys Hfits. intros Hq Hs Hpg [Hlen Hu] Hlab HQ. unfold Virtio.write_shared_message.
  unfold Service.write_shared_message in Hpg. destruct (words msg) as [w|]; [|done].
  cbn [mbind option_bind] in Hpg. injection Hpg as <-. cbn [pg_label pg_words] in *.
  apply runs_bind. change layout.MESSAGE_OFFSET with (layout.MESSAGE_OFFSET + 8 * N.of_nat 0)%N.
  apply (runs_page_store m 0); [done|done|lia|done|]. intros m1 s1 Hs1 Hq1 Hsame1 Hw1 Ho1.
  apply runs_bind, runs_ret. apply (runs_write_words _ m1 1); [done|done|simpl; lia|done|].
  intros m2 s2 Hs2 Hsame2 Hw2 Ho2. apply (HQ m2); [done|by eapply same_outside_trans|].
  unfold page_at. f_equal; [|exact Hw2]. rewrite Ho2 by lia. exact Hw1.
Qed.
End quiet.

(** ** A round of the process *)

(** [validate_io] adds one to the sector number. *)
Definition addressable (req : DriverP.DriverRequest) : Prop :=
  match req with
  | DriverP.ReadBlocks lba _ _ | DriverP.WriteBlocks lba _ _ => (lba + 1 < U64)%N
  | _ => True
  end.

(** What the process promises about a request, from one state to another. *)
Definition promise (req : DriverP.DriverRequest) (x : VirtioBlk * D) (resp : DriverP.DriverResponse)
    (x' : VirtioBlk * D) : Prop :=
  disk_does (v_geo (vb_dev x.2)) (view (vb_dev x.2)) req resp (view (vb_dev x'.2)) ∧
  idle x'.1 (vb_dev x'.2) ∧ v_geo (vb_dev x'.2) = v_geo (vb_dev x.2).

Lemma promise_same req d s resp :
  idle d (vb_dev s) → disk_does (v_geo (vb_dev s)) (view (vb_dev s)) req resp (view (vb_dev s)) →
  promise req (d, s) resp (d, s).
Proof using. by split. Qed.

(** The two handlers of the process, as [subsystem_main] picks them. *)
Lemma runs_dispatch {FB : FlagBits} d s msg req :
  idle d (vb_dev s) → DriverP.decode_driver_request msg = Ok req → addressable req →
  runs (E := Empty_set) (d, s)
    (match DriverP.decode_driver_request msg with
     | Ok (DriverP.ReadBlocks lba sector_count _) => handle_io B In lba sector_count
     | Ok (DriverP.WriteBlocks lba sector_count _) => handle_io B Out lba sector_count
     | Ok req => handle_request B req
     | Err _ => mret (DriverP.Failed DriverP.Unsupported)
     | Panic => panic
     end) (promise req (d, s)).
Proof using Hphys Hlayout Hfits Hbase C.
  intros Hi -> Hreq.
  assert (∀ kind lba n c, req = (match kind with Out => DriverP.WriteBlocks | _ => DriverP.ReadBlocks end) lba n c →
            kind ≠ Flush → runs (E := Empty_set) (d, s) (handle_io B kind lba n) (promise req (d, s))) as Hio.
  { intros kind lba n c Ereq Hk. eapply runs_mono; [eapply runs_handle_io; try done|].
    - subst req. by destruct kind.
    - intros resp x (H1 & _ & H3 & H4). split; [|done]. subst req. by destruct kind. }
  assert (handle_request (E := Empty_set) B req (d, s) = (Ok (match req with
            | DriverP.Probe | DriverP.Quiesce => DriverP.Ready SECTOR_SIZE (g_sectors (v_geo (vb_dev s)))
            | DriverP.Irq _ => DriverP.Completed 0
            | _ => DriverP.Failed DriverP.Unsupported end), (d, s)) ∨
          match req with DriverP.ReadBlocks _ _ _ | DriverP.WriteBlocks _ _ _ => True | _ => False end) as Hrq.
  { change (g_sectors (v_geo (vb_dev s))) with (v_capacity (vb_dev s)). rewrite <- (id_capacity _ _ _ _ _ Hi).
    destruct req; try (by right); left; unfold handle_request; rewrite !run_bind; cbn [self gets fst];
      by rewrite (id_ready _ _ _ _ _ Hi). }
  destruct req as [|line|lba n c|lba n c| |len|];
    try (destruct Hrq as [Hrq|[]]; eexists _, (d, s); split; [exact Hrq|by apply promise_same]).
  - apply (Hio In lba n c); [reflexivity|discriminate].
  - apply (Hio Out lba n c); [reflexivity|discriminate].
Qed.

Lemma encode_label {FB : FlagBits} {FBS : FlagBitsSpec FB} p (r : payload p) msg :
  in_range p r → encode p r = Some msg → (msg_label msg < U64)%N.
Proof using.
  clear -FBS. intros Hr Hm. destruct (encode_packs (FB := FB) p r Hr) as (op & ws & n & E & Hop & Hn & _).
  destruct (pack_opens (proto_ns p) op ws n Hop Hn) as (m & Em & _ & Hl & _).
  rewrite E, Em in Hm. injection Hm as <-. rewrite Hl. by apply label_fields.
Qed.

Lemma promise_in_range req x resp x' :
  (g_sectors (v_geo (vb_dev x.2)) < U64)%N → promise req x resp x' → in_range DriverResp resp.
Proof using.
  intros Hc [Hd _]. destruct req; simpl in Hd;
    try (destruct Hd as [_ ->]; done); by destruct Hd.
Qed.

(** One round: the page holds a request, and afterwards its answer. *)
Lemma runs_serve {FB : FlagBits} {FBS : FlagBitsSpec FB} d s req :
  idle d (vb_dev s) → addressable req →
  Protocol.decode DriverReq (Service.read_shared_message (page_at (v_mem (vb_dev s)))) = Ok req →
  runs (d, s) (serve_one B) (λ _ x', ∃ resp, promise req (d, s) resp x' ∧
    Protocol.decode DriverResp (Service.read_shared_message (page_at (v_mem (vb_dev x'.2)))) = Ok resp).
Proof using Hphys Hlayout Hfits Hbase C.
  intros Hi Hreq Hdec. destruct (id_mine _ _ _ _ _ Hi) as [_ Hb].
  apply runs_bind. eexists _, (d, s). split; [reflexivity|]. cbn [fst]. rewrite Hb.
  apply runs_io_bind, (runs_read_message (vb_dev s) (id_ravail _ _ _ _ _ Hi) (v_mem (vb_dev s)));
    [exact (sg_quiet _ _ _ (idle_staged _ _ Hi))|by destruct (vb_dev s)|].
  intros s1 Hs1. assert (vb_dev s1 = vb_dev s) as Es by (rewrite Hs1; by destruct (vb_dev s)).
  apply runs_bind. eapply runs_mono; [apply (runs_dispatch d s1 _ req); [by rewrite Es|exact Hdec|done]|].
  intros resp [d2 s2] Hp. pose proof Hp as (Hdoes & Hi2 & Hc2). cbn [fst snd] in *. rewrite Es in Hdoes.
  assert (in_range DriverResp resp) as Hrange.
  { eapply (promise_in_range req (d, s1)); [|exact Hp]. exact (vb_capacity phys t base s1). }
  destruct (page_roundtrip DriverResp resp Hrange) as (pg & Epg & Hpg & Hback).
  destruct (encode DriverResp resp) as [msg|] eqn:Emsg; [|done].
  change (DriverP.encode_driver_response resp) with (encode DriverResp resp). rewrite Emsg.
  apply runs_bind, runs_ret, runs_io.
  apply (runs_write_message (vb_dev s2) (id_ravail _ _ _ _ _ Hi2) (v_mem (vb_dev s2)) msg pg);
    [exact (sg_quiet _ _ _ (idle_staged _ _ Hi2))|by destruct (vb_dev s2)|exact Epg|done| |].
  { assert (pg_label pg = msg_label msg) as ->; [|by eapply encode_label].
    cbn [mbind option_bind] in Epg. unfold Service.write_shared_message in Epg. destruct (words msg); [|done].
    by injection Epg as <-. }
  intros m' s3 Hs3 Hsame Hpage. exists resp. cbn [fst snd]. split; [|by rewrite Hs3, <- Hpage in *].
  split_and!; [| |cbn [fst snd]; rewrite Hs3, <- Es; exact Hc2].
  - cbn [fst snd]. replace (view (vb_dev s3)) with (view (vb_dev s2)); [exact Hdoes|].
    rewrite Hs3. unfold view. f_equal. symmetry. apply bytes_at_same. intros i Hx. apply Hsame.
    unfold message_area, layout.DATA_OFFSET, SECTOR_SIZE in *. repeat constructor. simpl. lia.
  - cbn [fst snd]. rewrite Hs3. apply idle_with_mem; [exact Hi2|]. intros i Hx. apply Hsame.
    unfold message_area. repeat constructor. apply Forall_cons in Hx as [Hx _]. simpl in *. lia.
Qed.
End serve.
End disk.

(** ** A client's session *)

(** A call of the driver: what the client put in the data buffer, its request, how
    the round of the process ended, what the client decodes, and the data buffer
    then. *)
Record Exchange := mkExchange {
  ex_data : list N;
  ex_request : DriverP.DriverRequest;
  ex_run : outcome Empty_set unit;
  ex_result : outcome DecodeError DriverP.DriverResponse;
  ex_buffer : list N;
}.

(** The client writes to the data buffer and the message area only. *)
Definition client_area : list (N * N) := [(512, 1080)]%N.

Inductive session {FB : FlagBits} phys t base {D} (B : Bus D) {C : Complies phys t base B} :
    VirtioBlk * D → list Exchange → VirtioBlk * D → Prop :=
| session_end x : session phys t base B x [] x
| session_call d s m s1 req l x :
    vb_dev phys t base s1 = with_mem (vb_dev phys t base s) m →
    same_outside client_area (v_mem (vb_dev phys t base s)) m →
    encode DriverReq req ≫= Service.write_shared_message = Some (page_at m) →
    session phys t base B (serve_one B (d, s1)).2 l x →
    let m' := v_mem (vb_dev phys t base (serve_one B (d, s1)).2.2) in
    session phys t base B (d, s)
      (mkExchange (bytes_at m layout.DATA_OFFSET SECTOR_SIZE) req (serve_one B (d, s1)).1
         (Protocol.decode DriverResp (Service.read_shared_message (page_at m')))
         (bytes_at m' layout.DATA_OFFSET SECTOR_SIZE) :: l) x.

(** The same on the abstract disk. *)
Inductive disk_session (g : Geometry) : (N → list N) → list Exchange → (N → list N) → Prop :=
| disk_end k : disk_session g k [] k
| disk_call k e l k' a resp :
    disk_does g (mkDisk k (ex_data e)) (ex_request e) resp a →
    ex_run e = Ok tt → ex_result e = Ok resp → ex_buffer e = dk_buffer a →
    disk_session g (dk_sectors a) l k' → disk_session g k (e :: l) k'.

Definition acceptable (e : Exchange) : Prop :=
  in_range DriverReq (ex_request e) ∧ addressable (ex_request e).

Lemma session_disk {FB : FlagBits} {FBS : FlagBitsSpec FB} phys t base
    {D} (B : Bus D) {C : Complies phys t base B} x l x' :
  (phys + REGION < U64)%N → layout_ok t [base] → (base + REGION < U64)%N → fits t →
  session phys t base B x l x' → Forall acceptable l →
  idle phys t base x.1 (vb_dev phys t base x.2) →
  disk_session (v_geo (vb_dev phys t base x.2)) (v_disk (vb_dev phys t base x.2)) l (v_disk (vb_dev phys t base x'.2)) ∧
  idle phys t base x'.1 (vb_dev phys t base x'.2).
Proof.
  intros Hphys Hlay Hbase Hfits Hs Hl. induction Hs as [x|d s m s1 req l x Hs1 Hm Hreq Hs IH m']; intros Hi.
  { split; [constructor|done]. }
  apply Forall_cons in Hl as [[Hrange Haddr] Hl]. cbn [ex_request fst snd] in *.
  destruct (page_roundtrip DriverReq req Hrange) as (pg & Hpg & Hwf & Hdec). rewrite Hreq in Hpg. injection Hpg as <-.
  assert (idle phys t base d (vb_dev phys t base s1)) as Hi1 by (rewrite Hs1; by apply idle_with_mem).
  assert (v_mem (vb_dev phys t base s1) = m) as Em by (by rewrite Hs1).
  destruct (runs_serve phys t base Hphys Hlay B Hbase Hfits d s1 req Hi1 Haddr) as ([] & x1 & Hx1 & resp & Hp & Hr).
  { by rewrite Em. }
  subst m'. rewrite Hx1 in *. cbn [fst snd] in *. destruct Hp as (Hdoes & Hi2 & Hc). cbn [fst snd] in *.
  destruct (IH Hl Hi2) as [Hk Hend]. split; [|exact Hend]. 
  assert (v_geo (vb_dev phys t base s) = v_geo (vb_dev phys t base s1)) as Es by (by rewrite Hs1).
  assert (v_disk (vb_dev phys t base s) = v_disk (vb_dev phys t base s1)) as Ed by (by rewrite Hs1).
  rewrite Hc, <- Es in Hk.
  apply (disk_call _ _ _ _ _ (view (vb_dev phys t base x1.2)) resp); [|reflexivity|exact Hr|reflexivity|exact Hk].
  cbn [ex_data ex_request]. rewrite Es, Ed, <- Em. exact Hdoes.
Qed.

(** A sound device fails no request of a session. *)
Lemma sound_session g k l k' :
  disk_session g k l k' → g_faulty g = false → g_sectors g ≠ 0%N →
  Forall (λ e, ex_result e ≠ Ok (DriverP.Failed DriverP.DeviceIo)) l.
Proof.
  intros Hs Hf Hn. induction Hs as [|k e l k' a resp Hdoes _ Hr _ _ IH]; constructor; [|exact IH].
  rewrite Hr. intros [= ->].
  assert (∀ kind lba n b, ¬ disk_io g kind lba n b a (DriverP.Failed DriverP.DeviceIo)) as Hio.
  { intros kind lba n b Hio. inversion Hio as [code Href| | |Href Hbad]; unfold refused in Href.
    - destruct (negb (n =? 1)%N); [done|]. by destruct (_ && _).
    - rewrite Hf in Hbad. cbn [orb] in Hbad. apply negb_true_iff, N.ltb_ge in Hbad.
      destruct (negb (n =? 1)%N); [done|]. rewrite (proj2 (N.eqb_neq _ _)), (proj2 (N.ltb_lt _ _)) in Href by lia.
      done. }
  destruct (ex_request e); simpl in Hdoes; try (by destruct Hdoes); by eapply Hio.
Qed.

(** C12 The block driver and a device that follows the specification are a disk.  The
    device ([Complies]) moreover is patient with: it completes a request within the eight
    interrupts that the driver waits for, which the specification does not promise (a
    later completion is mixed up with the next request, [late_completion_overlaps]);
    the requests are [acceptable]: their fields are in range, and the sector's number
    plus one is below 2^64 (the last one panics, [last_lba_panics]); and the pages of the
    driver and the register windows do not wrap around.  Then from a fresh page, once the
    handshake has succeeded, for every sequence of such requests that a client makes
    through the message page, every round ends without a panic in an answer that the
    client decodes; a read that completes gives the
    contents of its sector and changes none, a write that completes replaces them
    with the client's data, a request out of range or of another size is refused
    and changes nothing, and a device error concerns no other sector.  If the device
    is sound and has a sector, there is no device error at all. *)
Theorem blk_refines_disk {FB : FlagBits} {FBS : FlagBitsSpec FB} phys t base
    {D} (B : Bus D) {C : Complies phys t base B} d s m disk geo info x l x' :
  (phys + REGION < U64)%N → layout_ok t [base] → (base + REGION < U64)%N → fits t →
  fresh_page phys m → vb_dev phys t base s = start m disk geo hs0 → mine t base d → next_idx d = 0%N →
  probe B (d, s) = (Ok info, x) → session phys t base B x l x' → Forall acceptable l →
  info = mkDeviceInfo SECTOR_SIZE (g_sectors geo) ∧
  disk_session geo disk l (v_disk (vb_dev phys t base x'.2)) ∧
  (g_faulty geo = false → g_sectors geo ≠ 0%N →
   Forall (λ e, ex_result e ≠ Ok (DriverP.Failed DriverP.DeviceIo)) l).
Proof.
  intros Hphys Hlay Hbase Hfits Hm Hs Hd Hn Hp Hses Hl.
  destruct (probe_idle phys t base Hphys Hlay B d s m disk geo info x Hm Hs Hd Hn Hp) as (-> & Hk & Hc & Hi).
  destruct (session_disk phys t base B x l x' Hphys Hlay Hbase Hfits Hses Hl Hi) as [Hdisk _].
  rewrite Hc, Hk in Hdisk. split_and!; [done|exact Hdisk|]. by eapply sound_session.
Qed.

(** A session with [BlkExample]: read sector 3, write sector 5, read it back, and
    ask for a sector that does not exist. *)
Definition phys0 : N := 4096000.
Definition bus0 : Bus Card := example_bus phys0 DRV_MMIO_VA DRV_QUEUE_VA 64.

#[export] Instance bus0_complies : Complies phys0 (Mmio DRV_MMIO_VA) DRV_QUEUE_VA bus0 :=
  example_complies phys0 DRV_MMIO_VA DRV_QUEUE_VA 64 eq_refl.

Fixpoint put_words (m : N → N) (a : N) (l : list N) : N → N :=
  match l with
  | [] => m
  | x :: l => wr (put_words m (a + 8) l) a 8 x
  end.

Definition put_call (m : N → N) (data : list N) (req : DriverP.DriverRequest) : N → N :=
  match encode DriverReq req ≫= Service.write_shared_message with
  | Some pg => fill (put_words m 1024 (pg_label pg :: pg_words pg)) 512 (take 512 data)
  | None => m
  end.

Lemma put_words_other m a l i : ¬ (a ≤ i < a + 8 * N.of_nat (length l))%N → put_words m a l i = m i.
Proof.
  revert a. induction l as [|x l IH]; intros a Hi; [done|]. cbn [put_words length] in *.
  rewrite wr_other by lia. apply IH. lia.
Qed.

Lemma put_call_client m data req : same_outside client_area m (put_call m data req).
Proof.
  unfold put_call. destruct (_ ≫= _) as [pg|] eqn:Hpg; [|done]. intros i Hi.
  apply Forall_cons in Hi as [Hi _]. simpl in Hi.
  rewrite fill_other by (rewrite length_take; lia). apply put_words_other. cbn [length].
  destruct (encode DriverReq req) as [msg|]; [|done]. cbn [mbind option_bind] in Hpg.
  unfold Service.write_shared_message in Hpg. destruct (words msg); [|done]. cbn [mbind option_bind] in Hpg.
  injection Hpg as <-. simpl. lia.
Qed.

Definition page0 : N → N := wr (λ _, 0%N) 0 8 phys0.
Definition raw0 (s i : N) : N := s + i.
Definition sectors0 (s : N) : list N := bytes_at (raw0 s) 0 SECTOR_SIZE.
Definition device0 : Card := mkCard hs0 page0 0 raw0.
Definition probed0 := (probe bus0 (blk_new DRV_MMIO_VA DRV_QUEUE_VA, device0)).2.

Definition set_c_mem (m : N → N) (c : Card) : Card := mkCard (c_hs c) m (c_seen c) (c_raw c).

Definition call_with (x : VirtioBlk * Card) (data : list N) (req : DriverP.DriverRequest) : VirtioBlk * Card :=
  (x.1, set_c_mem (put_call (c_mem x.2) data req) x.2).

Definition served_by (x : VirtioBlk * Card) (data : list N) (req : DriverP.DriverRequest) :=
  serve_one bus0 (call_with x data req).

Definition exchange (x : VirtioBlk * Card) (data : list N) (req : DriverP.DriverRequest) : Exchange :=
  let m' := v_mem (vb_dev phys0 (Mmio DRV_MMIO_VA) DRV_QUEUE_VA (served_by x data req).2.2) in
  mkExchange (bytes_at (put_call (c_mem x.2) data req) layout.DATA_OFFSET SECTOR_SIZE) req (served_by x data req).1
    (Protocol.decode DriverResp (Service.read_shared_message (page_at m')))
    (bytes_at m' layout.DATA_OFFSET SECTOR_SIZE).

Abbreviation session0 := (session phys0 (Mmio DRV_MMIO_VA) DRV_QUEUE_VA bus0).

#[export] Instance page_eq_dec : EqDecision Page.
Proof. solve_decision. Defined.

Lemma call_session x data req l x' :
  bool_decide ((encode DriverReq req ≫= Service.write_shared_message) =
               Some (page_at (put_call (c_mem x.2) data req))) = true →
  ∀ y, y = (served_by x data req).2 → session0 y l x' → session0 x (exchange x data req :: l) x'.
Proof.
  intros Hreq%bool_decide_eq_true y -> Hs. destruct x as [d s]. unfold exchange, served_by, call_with in *. cbn [fst snd] in *.
  apply (session_call phys0 (Mmio DRV_MMIO_VA) DRV_QUEUE_VA bus0 d s _
           (set_c_mem (put_call (c_mem s) data req) s) req l x'); [reflexivity|apply put_call_client|exact Hreq|exact Hs].
Qed.

Definition data5 : list N := replicate 512 7%N.
Definition x1 := (served_by probed0 [] (DriverP.ReadBlocks 3 1 0)).2.
Definition x2 := (served_by x1 data5 (DriverP.WriteBlocks 5 1 0)).2.
Definition x3 := (served_by x2 (replicate 512 9%N) (DriverP.ReadBlocks 5 1 0)).2.
Definition x4 := (served_by x3 [] (DriverP.ReadBlocks 64 1 0)).2.

Definition session_log : list Exchange :=
  [exchange probed0 [] (DriverP.ReadBlocks 3 1 0);
   exchange x1 data5 (DriverP.WriteBlocks 5 1 0);
   exchange x2 (replicate 512 9%N) (DriverP.ReadBlocks 5 1 0);
   exchange x3 [] (DriverP.ReadBlocks 64 1 0)].

Lemma probed0_ok : (probe bus0 (blk_new DRV_MMIO_VA DRV_QUEUE_VA, device0)).1 = Ok (mkDeviceInfo 512 64).
Proof. vm_compute. reflexivity. Qed.

Lemma session_log_ok : session0 probed0 session_log x4.
Proof.
  unfold session_log. apply call_session with x1; [vm_compute; reflexivity|unfold x1; reflexivity|].
  apply call_session with x2; [vm_compute; reflexivity|unfold x2; reflexivity|].
  apply call_session with x3; [vm_compute; reflexivity|unfold x3; reflexivity|].
  apply call_session with x4; [vm_compute; reflexivity|unfold x4; reflexivity|]. apply session_end.
Qed.

Lemma blk_refines_disk_witness :
  (ex_result <$> session_log) = [Ok (DriverP.Completed 1); Ok (DriverP.Completed 1); Ok (DriverP.Completed 1);
                                 Ok (DriverP.Failed DriverP.OutOfRange)] ∧
  ex_buffer <$> session_log !! 0 = Some (sectors0 3) ∧ ex_buffer <$> session_log !! 2 = Some data5 ∧
  disk_session (mkGeometry 64 false) sectors0 session_log
    (v_disk (vb_dev phys0 (Mmio DRV_MMIO_VA) DRV_QUEUE_VA x4.2)).
Proof.
  split; [vm_compute; reflexivity|]. split; [vm_compute; reflexivity|]. split; [vm_compute; reflexivity|].
  refine (proj1 (proj2 _)).
  apply (blk_refines_disk phys0 (Mmio DRV_MMIO_VA) DRV_QUEUE_VA bus0 (blk_new DRV_MMIO_VA DRV_QUEUE_VA)
      device0 page0 sectors0 (mkGeometry 64 false) (mkDeviceInfo 512 64) probed0 session_log x4).
  - done.
  - split; [by repeat constructor; vm_compute; auto|]. intros [|i] [|j] a c; naive_solver.
  - done.
  - done.
  - split; vm_compute; reflexivity.
  - reflexivity.
  - done.
  - done.
  - exact (run_pair _ _ probed0_ok).
  - exact session_log_ok.
  - by repeat constructor.
Defined.

(** ** Two findings *)

(** [lba + 1] overflows for the last sector number. *)
Lemma last_lba_panics {D} (B : Bus D) kind d s :
  ready d = true → capacity_sectors d ≠ 0%N →
  (handle_io (E := Empty_set) B kind (U64 - 1) 1 (d, s)).1 = Panic.
Proof.
  intros Hr Hc. unfold handle_io. rewrite run_bind. cbn [self gets fst]. rewrite Hr.
  cbn [negb]. rewrite run_bind. unfold validate_io. cbn [N.eqb Pos.eqb negb]. rewrite run_bind. cbn [self gets fst].
  by rewrite (proj2 (N.eqb_neq _ _) Hc).
Qed.

(** A device that has not completed a request after eight interrupts finds the next
    one in its place: the first is still in the ring when the second overwrites its
    header, its descriptors and its buffer. *)
Definition late0 : Vdev := card_dev 64 probed0.2.

Definition slow_bus : Bus Vdev := {|
  bus_load w addr v := (value DRV_MMIO_VA DRV_QUEUE_VA 64 v w addr, v);
  bus_store w addr x v := after_store (Mmio DRV_MMIO_VA) DRV_QUEUE_VA (v_hs v) v w addr x;
  bus_wait v := v;
|}.

Definition late_run :=
  (a ← handle_io (E := Empty_set) slow_bus In 3 1;
   b ← handle_io slow_bus Out 5 1; mret (a, b)) (probed0.1, late0).

Lemma late_completion_overlaps :
  let m := v_mem late_run.2.2 in
  late_run.1 = Ok (DriverP.Failed DriverP.DeviceIo, DriverP.Failed DriverP.DeviceIo) ∧
  pending phys0 late_run.2.2 = true ∧ v_seen late_run.2.2 = 0%N ∧
  rd m (layout.AVAIL_OFFSET + 2) 2 = 2%N ∧
  head_request phys0 late_run.2.2 = Some (blk_req Out 5).
Proof. vm_compute. done. Qed.
