(* ===== verification/VirtioNet.v ===== *)
(** * The network driver

    [driver-virtio-net/src/lib.rs]: the handshake with the device for its two
    queues, one receive buffer that is always posted, one frame at a time on the
    transmit queue; [subsystem_entry.rs]: the process.  Each queue has a shared page
    of its own; the receive page holds the message area as well.

    The theorem is that of [VirtioBlk], for two queues and two pages. *)

From S2P Require Import Prelude PhysMem Ipc Protocol.
From S2P Require Import Virtio VirtioRules VirtioLogic.

Module layout.
Definition PHYS_BASE_OFFSET : N := 0.
Definition MAC_OFFSET : N := 8.
Definition DESC_OFFSET : N := 16.
Definition AVAIL_OFFSET : N := 48.
Definition USED_OFFSET : N := 64.
Definition PCI_INFO_OFFSET : N := 96.
Definition TX_NOTIFY_OFF_OFFSET : N := 152.
Definition BUFFER_OFFSET : N := 256.
Definition MESSAGE_OFFSET : N := 1024.
End layout.

Definition VIRTIO_NET_F_MAC : N := 32.
Definition FALLBACK_MAC : list N := [2; 0; 0; 0; 0; 1]%N.
Definition QUEUE_SIZE : N := 2.
Definition RX_QUEUE : N := 0.
Definition TX_QUEUE : N := 1.
Definition VIRTIO_NET_HDR_LEN : N := 12.
Definition FRAME_MAX : N := 700.
Definition VIRTQ_DESC_F_WRITE : N := 2.
Definition MAX_SPINS : N := 20000000.
Definition MAX_WAIT_RETRIES : N := 8.
Definition VIRTIO_NETWORK_DEVICE : N := 1.

Record VirtioNet := mkNet {
  transport : Transport;
  rx_base : N;
  tx_base : N;
  ready : bool;
  rx_next_idx : N;
  tx_next_idx : N;
  mac : list N;
  rx_notify_off : N;
  tx_notify_off : N;
  msix_vector : N;
}.

Definition net_new (mmio_base rx_base tx_base : N) : VirtioNet :=
  mkNet (Mmio mmio_base) rx_base tx_base false 0 0 (replicate 6 0%N) 0 0 VIRTIO_MSI_NO_VECTOR.

Definition net_new_pci (common notify notify_off_multiplier isr device_cfg rx_base tx_base msix_vector : N)
    : VirtioNet :=
  mkNet (Pci common notify notify_off_multiplier isr device_cfg) rx_base tx_base false 0 0
    (replicate 6 0%N) 0 0 msix_vector.

Definition set_ready (d : VirtioNet) : VirtioNet :=
  mkNet (transport d) (rx_base d) (tx_base d) true (rx_next_idx d) (tx_next_idx d) (mac d)
    (rx_notify_off d) (tx_notify_off d) (msix_vector d).
Definition set_rx_next_idx (i : N) (d : VirtioNet) : VirtioNet :=
  mkNet (transport d) (rx_base d) (tx_base d) (ready d) i (tx_next_idx d) (mac d)
    (rx_notify_off d) (tx_notify_off d) (msix_vector d).
Definition set_tx_next_idx (i : N) (d : VirtioNet) : VirtioNet :=
  mkNet (transport d) (rx_base d) (tx_base d) (ready d) (rx_next_idx d) i (mac d)
    (rx_notify_off d) (tx_notify_off d) (msix_vector d).
Definition set_mac (m : list N) (d : VirtioNet) : VirtioNet :=
  mkNet (transport d) (rx_base d) (tx_base d) (ready d) (rx_next_idx d) (tx_next_idx d) m
    (rx_notify_off d) (tx_notify_off d) (msix_vector d).

(** [if queue_idx == RX_QUEUE { self.rx_notify_off = .. } else { .. }] *)
Definition set_notify_off (queue_idx o : N) (d : VirtioNet) : VirtioNet :=
  let rx := (queue_idx =? RX_QUEUE)%N in
  mkNet (transport d) (rx_base d) (tx_base d) (ready d) (rx_next_idx d) (tx_next_idx d) (mac d)
    (if rx then o else rx_notify_off d) (if rx then tx_notify_off d else o) (msix_vector d).

Definition regions_bound (d : VirtioNet) : bool :=
  match transport d with
  | Mmio base => negb (base =? 0)%N
  | Pci common _ _ _ _ => negb (common =? 0)%N
  end && negb (rx_base d =? 0)%N && negb (tx_base d =? 0)%N.

(** ** The accessors

    The crate has its own copies of the accessors of [driver-virtio-blk], with the
    same text. *)

Section accessors.
Context {D E : Type} (B : Bus D).

Definition read_device_feature := Virtio.read_device_feature (E := E) B.
Definition write_driver_feature := Virtio.write_driver_feature (E := E) B.
Definition read_status := Virtio.read_status (E := E) B.
Definition write_status := Virtio.write_status (E := E) B.
Definition select_queue := Virtio.select_queue (E := E) B.
Definition read_queue_size_max := Virtio.read_queue_size_max (E := E) B.
Definition write_queue_size := Virtio.write_queue_size (E := E) B.
Definition write_queue_addrs := Virtio.write_queue_addrs (E := E) B.
Definition enable_queue := Virtio.enable_queue (E := E) B.
Definition write_queue_msix_vector := Virtio.write_queue_msix_vector (E := E) B.
Definition notify_queue := Virtio.notify_queue (E := E) B.
Definition ack_interrupt := Virtio.ack_interrupt (E := E) B.
Definition region_phys := Virtio.region_phys (E := E) B.

Definition read_config_byte (t : Transport) (offset : N) : M D E N := read_config B W8 t offset.
End accessors.

Section driver.
Context {D : Type} (B : Bus D).

Section io.
Context {E : Type}.

Abbreviation P := (M (VirtioNet * D) E) (only parsing).

(** The result is the new value of [*next_idx]. *)
Definition publish_and_notify (region_base queue_idx notify_off next_idx : N) (desc : VirtqDescRaw) : P N :=
  _ ← io (a ← unwrap (checked_add U64 region_base layout.DESC_OFFSET); write_desc B a desc);
  _ ← io (store B W16 region_base (layout.AVAIL_OFFSET + 4 + (next_idx mod QUEUE_SIZE) * 2) 0);
  let next_idx := truncate U16 (next_idx + 1) in
  _ ← io (store B W16 region_base (layout.AVAIL_OFFSET + 2) next_idx);
  t ← self transport;
  _ ← io (notify_queue B t queue_idx notify_off);
  mret next_idx.

Definition post_rx_buffer : P unit :=
  rx_base ← self rx_base;
  buf_phys ← io (region_phys B rx_base layout.BUFFER_OFFSET);
  next_idx ← self rx_next_idx;
  off ← self rx_notify_off;
  next_idx ← publish_and_notify rx_base RX_QUEUE off next_idx
               (mkDesc buf_phys (truncate U32 (VIRTIO_NET_HDR_LEN + FRAME_MAX)) VIRTQ_DESC_F_WRITE 0);
  update (set_rx_next_idx next_idx).

(** Bytes [i], [i + 1], ... at [offset]. *)
Fixpoint write_bytes_at (base offset : N) (l : list N) : P unit :=
  match l with
  | [] => mret tt
  | x :: l => _ ← io (store B W8 base offset x); write_bytes_at base (offset + 1) l
  end.

Definition submit_tx_request (len : N) : P unit :=
  tx_base ← self tx_base;
  _ ← write_bytes_at tx_base layout.BUFFER_OFFSET (replicate (N.to_nat VIRTIO_NET_HDR_LEN) 0%N);
  buf_phys ← io (region_phys B tx_base layout.BUFFER_OFFSET);
  total ← unwrap (checked_add U64 VIRTIO_NET_HDR_LEN len);
  next_idx ← self tx_next_idx;
  off ← self tx_notify_off;
  next_idx ← publish_and_notify tx_base TX_QUEUE off next_idx (mkDesc buf_phys (truncate U32 total) 0 0);
  update (set_tx_next_idx next_idx).

Definition tx_completion_pending : P bool :=
  tx_base ← self tx_base;
  used_idx ← io (load B W16 tx_base (layout.USED_OFFSET + 2));
  next_idx ← self tx_next_idx;
  mret (used_idx =? next_idx)%N.

Definition ack_tx_completion : P unit :=
  t ← self transport; io (ack_interrupt B t).

(** The busy loop of [submit_tx]. *)
Fixpoint spin (n : nat) : P bool :=
  match n with
  | 0 => mret false
  | S n => done ← tx_completion_pending; if done : bool then mret true else spin n
  end.

Definition submit_tx (len : N) : P bool :=
  _ ← submit_tx_request len;
  completed ← spin (N.to_nat MAX_SPINS);
  _ ← ack_tx_completion;
  mret completed.

Definition poll_rx : P (option N) :=
  rx_base ← self rx_base;
  used_idx ← io (load B W16 rx_base (layout.USED_OFFSET + 2));
  next_idx ← self rx_next_idx;
  if negb (used_idx =? next_idx)%N then mret None else
  let slot := (truncate U16 (next_idx + (U16 - 1)) mod QUEUE_SIZE)%N in
  total_len ← io (load B W32 rx_base (layout.USED_OFFSET + 4 + slot * 8 + 4));
  t ← self transport;
  _ ← io (ack_interrupt B t);
  _ ← post_rx_buffer;
  mret (Some (total_len - VIRTIO_NET_HDR_LEN)%N).

Definition handle_request (req : DriverP.DriverRequest) : P DriverP.DriverResponse :=
  r ← self ready;
  if negb r then mret (DriverP.Failed DriverP.ProbeFailed) else
  mret match req with
       | DriverP.Probe | DriverP.Irq _ | DriverP.Quiesce => DriverP.Ready 0 0
       | DriverP.ReadBlocks _ _ _ | DriverP.WriteBlocks _ _ _
       | DriverP.SendFrame _ | DriverP.PollFrame => DriverP.Failed DriverP.Unsupported
       end.

(** The loop of [handle_send_frame]. *)
Fixpoint await_tx (n : nat) : P bool :=
  match n with
  | 0 => mret false
  | S n =>
      _ ← io (wait_for_irq B);
      done ← tx_completion_pending;
      if done : bool then mret true else await_tx n
  end.

Definition handle_send_frame (len : N) : P DriverP.DriverResponse :=
  r ← self ready;
  if negb r then mret (DriverP.Failed DriverP.ProbeFailed) else
  if (FRAME_MAX <? len)%N then mret (DriverP.Failed DriverP.Unsupported) else
  _ ← submit_tx_request len;
  completed ← await_tx (N.to_nat MAX_WAIT_RETRIES);
  if completed : bool then
    _ ← ack_tx_completion;
    mret DriverP.FrameSent
  else mret (DriverP.Failed DriverP.DeviceIo).

Definition handle_poll_frame : P DriverP.DriverResponse :=
  r ← self ready;
  if negb r then mret (DriverP.Failed DriverP.ProbeFailed) else
  frame ← poll_rx;
  mret match frame with Some len => DriverP.FrameReceived len | None => DriverP.Failed DriverP.NoData end.
End io.

(** ** The handshake *)

Abbreviation P := (M (VirtioNet * D) DriverError) (only parsing).

(** The result is [mac_offered]. *)
Definition negotiate : P bool :=
  t ← self transport;
  _ ← io (write_status B t 0);
  _ ← io (write_status B t status.ACKNOWLEDGE);
  _ ← io (write_status B t (N.lor status.ACKNOWLEDGE status.DRIVER));
  dev_features_lo ← io (read_device_feature B t 0);
  dev_features_hi ← io (read_device_feature B t 1);
  let mac_offered := negb (N.land dev_features_lo VIRTIO_NET_F_MAC =? 0)%N in
  _ ← io (write_driver_feature B t 0 (if mac_offered then VIRTIO_NET_F_MAC else 0));
  _ ← io (write_driver_feature B t 1 (N.land dev_features_hi VIRTIO_F_VERSION_1));
  _ ← io (check_features B t);
  mret mac_offered.

Fixpoint setup_queues (l : list (N * N)) : P unit :=
  match l with
  | [] => mret tt
  | (queue_idx, region_base) :: l =>
      t ← self transport;
      vector ← self msix_vector;
      notify_off ← io (setup_one_queue B t queue_idx vector QUEUE_SIZE region_base
                         layout.DESC_OFFSET layout.AVAIL_OFFSET layout.USED_OFFSET);
      _ ← update (set_notify_off queue_idx (default 0%N notify_off));
      setup_queues l
  end.

Fixpoint read_mac (t : Transport) (i : N) (n : nat) : P (list N) :=
  match n with
  | 0 => mret []
  | S n => x ← io (read_config_byte B t i); l ← read_mac t (i + 1) n; mret (x :: l)
  end.

Definition do_probe : P unit :=
  t ← self transport;
  rx_base ← self rx_base;
  tx_base ← self tx_base;
  _ ← io (check_identity B t VIRTIO_NETWORK_DEVICE);
  mac_offered ← negotiate;
  _ ← setup_queues [(RX_QUEUE, rx_base); (TX_QUEUE, tx_base)];
  _ ← io (write_status B t
            (N.lor (N.lor (N.lor status.ACKNOWLEDGE status.DRIVER) status.FEATURES_OK) status.DRIVER_OK));
  m ← if mac_offered : bool then read_mac t 0 6 else mret FALLBACK_MAC;
  _ ← update (set_mac m);
  _ ← write_bytes_at rx_base layout.MAC_OFFSET m;
  off ← self tx_notify_off;
  _ ← io (store B W64 rx_base layout.TX_NOTIFY_OFF_OFFSET off);
  post_rx_buffer.

Definition probe : P DeviceInfo :=
  d ← self id;
  if negb (regions_bound d) then throw DProbeFailed else
  _ ← do_probe;
  _ ← update set_ready;
  mret (mkDeviceInfo 0 0).

(** ** The process *)

Section process.
Context {FB : FlagBits}.

Definition DRV_MMIO_VA : N := 3628072960.
Definition DRV_RX_VA : N := 3629121536.
Definition DRV_TX_VA : N := 3630170112.

Definition new_driver_for_this_transport : M D Empty_set VirtioNet :=
  transport_kind ← load B W64 DRV_RX_VA layout.PCI_INFO_OFFSET;
  if (transport_kind =? 0)%N then mret (net_new DRV_MMIO_VA DRV_RX_VA DRV_TX_VA) else
  let read_u64_at off := load B W64 DRV_RX_VA (layout.PCI_INFO_OFFSET + off) in
  common_cfg_va ← read_u64_at 8%N;
  notify_cfg_va ← read_u64_at 16%N;
  notify_off_multiplier ← read_u64_at 24%N;
  isr_cfg_va ← read_u64_at 32%N;
  device_cfg_va ← read_u64_at 40%N;
  msix_vector ← read_u64_at 48%N;
  mret (net_new_pci common_cfg_va notify_cfg_va (truncate U32 notify_off_multiplier) isr_cfg_va device_cfg_va
          DRV_RX_VA DRV_TX_VA (truncate U16 msix_vector)).

(** One round of the loop of [subsystem_main], between [IPC_RECV] and
    [IPC_REPLY]; the message area is at [DRV_RX_VA]. *)
Definition serve_at (base : N) : M (VirtioNet * D) Empty_set unit :=
  req_msg ← io (read_shared_message B layout.MESSAGE_OFFSET base);
  resp ← match DriverP.decode_driver_request req_msg with
         | Ok (DriverP.SendFrame len) => handle_send_frame len
         | Ok DriverP.PollFrame => handle_poll_frame
         | Ok req => handle_request req
         | Err _ => mret (DriverP.Failed DriverP.Unsupported)
         | Panic => panic
         end;
  msg ← unwrap (DriverP.encode_driver_response resp);
  io (write_shared_message B layout.MESSAGE_OFFSET base msg).

Definition serve_one : M (VirtioNet * D) Empty_set unit :=
  base ← self rx_base; serve_at base.

(** A number of rounds; [Some len] is a direct call of [submit_tx] instead. *)
Fixpoint rounds (l : list (option N)) : M (VirtioNet * D) Empty_set unit :=
  match l with
  | [] => mret tt
  | None :: l => _ ← serve_one; rounds l
  | Some len :: l =>
      r ← self ready;
      _ ← if r : bool then submit_tx len else mret false;
      rounds l
  end.

Definition probe_and_serve (l : list (option N)) : M (VirtioNet * D) Empty_set unit :=
  _ ← ignore probe;
  rounds l.
End process.
End driver.

(** ** The driver follows the rules *)

(** Nobody but the device writes the used rings: 6 bytes and 8 for each entry. *)
Definition USED_RING : N * N := (layout.USED_OFFSET, layout.USED_OFFSET + 4 + 8 * QUEUE_SIZE + 2)%N.
Definition QUEUES : list N := [RX_QUEUE; TX_QUEUE].
Definition USED_RINGS : list (N * N) := [USED_RING; USED_RING].

Section rules.
Context {D : Type} (t : Transport) (rx tx : N).
Context (B : Bus D) {OB : Observes QUEUES USED_RINGS t [rx; tx] B}.
Hypothesis Hlayout : layout_ok t [rx; tx].
Hypothesis Hstores : ∀ w addr, store_ok w addr.
Hypothesis Hfine : ∀ h, fine h.

Abbreviation drv := (drv (X := VirtioNet) QUEUES USED_RINGS t [rx; tx] B).

Definition mine (d : VirtioNet) : Prop := transport d = t ∧ rx_base d = rx ∧ tx_base d = tx.

Definition offset_ok (h : Hs) (q off : N) : Prop :=
  match t with Mmio _ => True | _ => off = q_notify_off (h_queues h q) end.

(** The driver may use both queues. *)
Definition usable (d : VirtioNet) (h : Hs) : Prop :=
  is_live h = true ∧ q_enabled (h_queues h RX_QUEUE) = true ∧ q_enabled (h_queues h TX_QUEUE) = true ∧
  offset_ok h RX_QUEUE (rx_notify_off d) ∧ offset_ok h TX_QUEUE (tx_notify_off d).

(** The driver's state agrees with what the monitor has seen. *)
Definition inv (d : VirtioNet) (h : Hs) : Prop := mine d ∧ (ready d = true → usable d h).

(** The driver may use the queues, and keeps its fields that describe them. *)
Definition running (r : bool) (ro to : N) (d : VirtioNet) (h : Hs) : Prop :=
  mine d ∧ usable d h ∧ ready d = r ∧ rx_notify_off d = ro ∧ tx_notify_off d = to.

(** ** Frames *)

Section io.
Context {E : Type}.

Abbreviation acc := (acc (E := E) QUEUES USED_RINGS t [rx; tx] B).
Abbreviation keeps := (keeps (X := VirtioNet) (E := E) QUEUES USED_RINGS t [rx; tx] B).

Definition uses {A} (m : M (VirtioNet * D) E A) : Prop := ∀ r ro to, keeps (running r ro to) m.

(** A region and its queue. *)
Inductive region : nat → N → N → Prop :=
| region_rx : region 0 rx RX_QUEUE
| region_tx : region 1 tx TX_QUEUE.

Lemma region_at r base q : region r base q → [rx; tx] !! r = Some base ∧ USED_RINGS !! r = Some USED_RING ∧ (q < U16)%N.
Proof using. by intros []. Qed.

Lemma acc_region_store r base q h w x off v (Q : unit → Hs → Prop) :
  region r base q → (x + off + width_bytes w ≤ REGION)%N →
  (x + off + width_bytes w ≤ USED_RING.1 ∨ USED_RING.2 ≤ x + off)%N → Q tt h →
  acc h (store B w (base + x) off v) Q.
Proof using Hlayout Hstores Hfine.
  intros Hr Ho Hu HQ. destruct (region_at r base q Hr) as (Hb & Hring & _).
  eapply (acc_ram_store_at _ _ _ _ _ Hlayout _ r); [apply Hfine|exact Hstores|exact Hb|exact Ho| |exact HQ].
  unfold outside_used. rewrite Hring. unfold USED_RING in *. cbn [fst snd] in Hu.
  apply orb_true_intro. rewrite !N.leb_le. exact Hu.
Qed.

Lemma acc_region_store0 r base q h w off v (Q : unit → Hs → Prop) :
  region r base q → (off + width_bytes w ≤ REGION)%N →
  (off + width_bytes w ≤ USED_RING.1 ∨ USED_RING.2 ≤ off)%N → Q tt h →
  acc h (store B w base off v) Q.
Proof using Hlayout Hstores Hfine.
  intros Hr Ho Hu HQ. rewrite <- (N.add_0_r base). by eapply acc_region_store.
Qed.

Lemma keeps_acc {A} I (m : M D E A) : (∀ h (Q : A → Hs → Prop), (∀ a, Q a h) → acc h m Q) → keeps I (io m).
Proof using. intros Hm. apply keeps_io. intros d h Hd. by apply Hm. Qed.

Lemma uses_write_bytes r base q off l :
  region r base q → (86 ≤ off ∨ off + N.of_nat (length l) ≤ 64)%N → (off + N.of_nat (length l) ≤ REGION)%N →
  uses (write_bytes_at B base off l).
Proof using Hlayout Hstores Hfine.
  intros Hr Hu Ho b ro to. revert off Hu Ho. induction l as [|x l IH]; intros off Hu Ho; [apply drv_keeps_ret|].
  cbn [write_bytes_at length] in *. apply drv_keeps_bind; [|intros _; apply IH; lia].
  apply keeps_acc. intros h Q HQ. eapply acc_region_store0; [exact Hr| | |apply HQ];
    unfold USED_RING, layout.USED_OFFSET, QUEUE_SIZE; simpl; lia.
Qed.

Lemma uses_publish r base q off next desc ro to b :
  region r base q → off = (if (q =? RX_QUEUE)%N then ro else to) →
  keeps (running b ro to) (publish_and_notify B base q off next desc).
Proof using Hlayout Hstores Hfine.
  intros Hr Hoff. unfold publish_and_notify.
  assert (∀ w o v, (o + width_bytes w ≤ 64)%N → keeps (running b ro to) (io (store B w base o v))) as Hst.
  { intros w o v Ho. apply keeps_acc. intros h Q HQ. eapply acc_region_store0; [exact Hr| | |apply HQ];
      unfold USED_RING, layout.USED_OFFSET, REGION; simpl; lia. }
  apply drv_keeps_bind.
  { apply keeps_acc. intros h Q HQ. apply acc_bind, acc_sum. intros _. unfold write_desc.
    repeat (apply acc_bind; eapply acc_region_store; [exact Hr|done|by left|]).
    eapply acc_region_store; [exact Hr|done|by left|apply HQ]. }
  intros _. apply drv_keeps_bind.
  { apply Hst. pose proof (N.mod_lt next QUEUE_SIZE ltac:(done)) as Hi. unfold layout.AVAIL_OFFSET, QUEUE_SIZE in *.
    simpl. lia. }
  intros _. apply drv_keeps_bind; [by apply Hst|]. intros _.
  apply (keeps_self_bind _ _ _ _ _ _ _ _ t); [by intros d h [[Ht _] _]|].
  apply drv_keeps_bind; [|intros _; apply drv_keeps_ret].
  apply keeps_io. intros d h ((Ht & Hb) & Hu & Hrd & Hro & Hto). destruct Hu as (Hl & He1 & He2 & Ho1 & Ho2).
  apply acc_notify_queue; [done|done|by eapply region_at|done|by destruct Hr| |done].
  subst ro to off. destruct Hr; [exact Ho1|exact Ho2].
Qed.

Lemma uses_region_phys r base q off : region r base q → uses (io (region_phys B base off)).
Proof using Hlayout Hfine.
  intros Hr b ro to. apply keeps_acc. intros h Q HQ.
  eapply (acc_region_phys _ _ _ _ _ Hlayout _ r); [done|by eapply region_at|by intros].
Qed.

Lemma keeps_next (f : VirtioNet → VirtioNet) b ro to :
  (∀ d h, running b ro to d h → running b ro to (f d) h) → keeps (running b ro to) (update f).
Proof using. intros Hf d h Hd. by apply drv_update, Hf. Qed.

Lemma uses_post_rx : uses (post_rx_buffer B).
Proof using Hlayout Hstores Hfine.
  intros b ro to. apply (keeps_self_bind _ _ _ _ _ _ _ _ rx); [by intros d h [(_ & Hb & _) _]|].
  apply drv_keeps_bind; [by eapply uses_region_phys, region_rx|]. intros buf.
  apply drv_keeps_bind; [apply keeps_self|]. intros next.
  apply (keeps_self_bind _ _ _ _ _ _ _ _ ro); [by intros d h (_ & _ & _ & Hro & _)|].
  apply drv_keeps_bind; [by eapply uses_publish; [apply region_rx|]|]. intros next'. by apply keeps_next.
Qed.

Lemma uses_submit_tx_request len : uses (submit_tx_request B len).
Proof using Hlayout Hstores Hfine.
  intros b ro to. apply (keeps_self_bind _ _ _ _ _ _ _ _ tx); [by intros d h [(_ & _ & Hb) _]|].
  apply drv_keeps_bind; [by eapply uses_write_bytes; [apply region_tx|left|]|]. intros _.
  apply drv_keeps_bind; [by eapply uses_region_phys, region_tx|]. intros buf.
  apply drv_keeps_bind; [apply drv_keeps_unwrap|]. intros total.
  apply drv_keeps_bind; [apply keeps_self|]. intros next.
  apply (keeps_self_bind _ _ _ _ _ _ _ _ to); [by intros d h (_ & _ & _ & _ & Hto)|].
  apply drv_keeps_bind; [by eapply uses_publish; [apply region_tx|]|]. intros next'. by apply keeps_next.
Qed.

Lemma uses_region_load r base q w off :
  region r base q → (off + width_bytes w ≤ REGION)%N → uses (io (load B w base off)).
Proof using Hlayout Hfine.
  intros Hr Ho b ro to. apply keeps_acc. intros h Q HQ.
  eapply (acc_ram_load _ _ _ _ _ Hlayout _ r); [done|by eapply region_at|done|by intros].
Qed.

Lemma net_uses_pending : uses (tx_completion_pending B).
Proof using Hlayout Hfine.
  intros b ro to. apply (keeps_self_bind _ _ _ _ _ _ _ _ tx); [by intros d h [(_ & _ & Hb) _]|].
  apply drv_keeps_bind; [by eapply uses_region_load; [apply region_tx|]|]. intros used.
  apply drv_keeps_bind; [apply keeps_self|]. intros next. apply drv_keeps_ret.
Qed.

Lemma net_uses_ack : uses (ack_tx_completion B).
Proof using Hlayout Hstores Hfine.
  intros b ro to. apply (keeps_self_bind _ _ _ _ _ _ _ _ t); [by intros d h [[Ht _] _]|].
  apply keeps_io. intros d h (Hd & Hu & Hr). apply acc_ack_interrupt; [done|done|apply Hu|done].
Qed.

Lemma net_uses_spin n : uses (spin B n).
Proof using Hlayout Hstores Hfine.
  intros b ro to. induction n as [|n IH]; [apply drv_keeps_ret|]. apply drv_keeps_bind; [apply net_uses_pending|].
  intros []; [apply drv_keeps_ret|done].
Qed.

Lemma uses_submit_tx len : uses (submit_tx B len).
Proof using Hlayout Hstores Hfine.
  intros b ro to. apply drv_keeps_bind; [apply uses_submit_tx_request|]. intros _.
  apply drv_keeps_bind; [apply net_uses_spin|]. intros c. apply drv_keeps_bind; [apply net_uses_ack|]. intros _. apply drv_keeps_ret.
Qed.

Lemma net_uses_await n : uses (await_tx B n).
Proof using Hlayout Hstores Hfine.
  intros b ro to. induction n as [|n IH]; [apply drv_keeps_ret|]. apply drv_keeps_bind.
  { apply keeps_io. intros d h (Hd & Hu & Hr). by apply acc_wait; [apply Hfine|apply Hu|]. }
  intros _. apply drv_keeps_bind; [apply net_uses_pending|]. intros []; [apply drv_keeps_ret|done].
Qed.

Lemma uses_poll_rx : uses (poll_rx B).
Proof using Hlayout Hstores Hfine.
  intros b ro to. apply (keeps_self_bind _ _ _ _ _ _ _ _ rx); [by intros d h [(_ & Hb & _) _]|].
  apply drv_keeps_bind; [by eapply uses_region_load; [apply region_rx|]|]. intros used.
  apply drv_keeps_bind; [apply keeps_self|]. intros next. destruct (negb _); [apply drv_keeps_ret|].
  apply drv_keeps_bind.
  { eapply uses_region_load; [apply region_rx|].
    pose proof (N.mod_lt (truncate U16 (next + (U16 - 1))) QUEUE_SIZE ltac:(done)) as Hi.
    unfold layout.USED_OFFSET, QUEUE_SIZE, REGION in *. simpl. lia. }
  intros total. apply (keeps_self_bind _ _ _ _ _ _ _ _ t); [by intros d h [[Ht _] _]|].
  apply drv_keeps_bind.
  { apply keeps_io. intros d h (Hd & Hu & Hr). apply acc_ack_interrupt; [done|done|apply Hu|done]. }
  intros _. apply drv_keeps_bind; [apply uses_post_rx|]. intros _. apply drv_keeps_ret.
Qed.

(** A request, whether or not the driver is ready. *)
Lemma serves_ready {A} (m m' : M (VirtioNet * D) E A) :
  keeps inv m' → uses m → keeps inv (r ← self ready; if negb r then m' else m).
Proof using.
  intros Hm' Hm d h [Hd Hu]. apply drv_bind, drv_self. destruct (ready d) eqn:Hr; cbn [negb].
  - eapply drv_mono; [apply (Hm true (rx_notify_off d) (tx_notify_off d)); by split_and!; auto|].
    intros r d' h' (Hd' & Hu' & _). by split.
  - apply Hm'. split; [done|]. by rewrite Hr.
Qed.

Lemma serves_handle_send len : keeps inv (handle_send_frame B len).
Proof using Hlayout Hstores Hfine.
  apply serves_ready; [apply drv_keeps_ret|]. intros b ro to.
  destruct (_ <? _)%N; [apply drv_keeps_ret|]. apply drv_keeps_bind; [apply uses_submit_tx_request|]. intros _.
  apply drv_keeps_bind; [apply net_uses_await|]. intros []; [|apply drv_keeps_ret].
  apply drv_keeps_bind; [apply net_uses_ack|]. intros _. apply drv_keeps_ret.
Qed.

Lemma serves_handle_poll : keeps inv (handle_poll_frame B).
Proof using Hlayout Hstores Hfine.
  apply serves_ready; [apply drv_keeps_ret|]. intros b ro to. apply drv_keeps_bind; [apply uses_poll_rx|].
  intros frame. apply drv_keeps_ret.
Qed.

Lemma net_serves_handle_request req : keeps inv (handle_request (D := D) req).
Proof using. apply serves_ready; [apply drv_keeps_ret|]. intros b ro to. apply drv_keeps_ret. Qed.
End io.

(** ** The handshake *)

Section handshake.
(** A step of the handshake. *)
Ltac hand := cbv beta; first [apply drv_bind, drv_self|apply drv_bind, drv_io|apply drv_io].

Lemma mac_bit v : (N.land v VIRTIO_NET_F_MAC =? 0)%N = false → N.land VIRTIO_NET_F_MAC v = VIRTIO_NET_F_MAC.
Proof using.
  intros Hv%N.eqb_neq. apply N.bits_inj. intros i. rewrite N.land_spec. change VIRTIO_NET_F_MAC with (2 ^ 5)%N in *.
  destruct (decide (i = 5%N)) as [->|Hi].
  - rewrite N.pow2_bits_true. simpl. destruct (N.testbit v 5) eqn:Hb; [done|]. exfalso. apply Hv, N.bits_inj_0.
    intros j. rewrite N.land_spec. destruct (decide (j = 5%N)) as [->|Hj]; [by rewrite Hb|].
    by rewrite N.pow2_bits_false, andb_false_r by congruence.
  - by rewrite N.pow2_bits_false by congruence.
Qed.

Lemma net_drv_negotiate d h (Q : outcome DriverError bool → VirtioNet → Hs → Prop) :
  mine d → (∀ o h', setting_up h' = true → (∀ q, h_queues h' q = queue0) → Q (Ok o) d h') →
  (∀ e h', Q (Err e) d h') → drv d h (negotiate B) Q.
Proof using Hfine.
  intros [Ht _] HQ HE. unfold negotiate. hand. rewrite Ht.
  do 3 (hand; eapply acc_write_status; [apply Hfine|done|reflexivity|]).
  hand. apply acc_read_device_feature; [done|done|]. intros lo Hlo.
  hand. apply acc_read_device_feature; [done|done|]. intros v Hv. cbv zeta.
  hand. apply acc_write_driver_feature; [done|done|by destruct (negb _)| |].
  { cbn [set_features set_sels h_offered]. unfold upd. simpl. destruct (_ =? 0)%N eqn:Hmac; [done|]. by apply mac_bit. }
  hand. apply acc_write_driver_feature; [done|done| | |].
  { change VIRTIO_F_VERSION_1 with (N.ones 1). rewrite N.land_ones.
    eapply N.lt_trans; [by apply N.mod_lt|done]. }
  { simpl. unfold upd. simpl. by rewrite <- N.land_assoc, (N.land_comm _ v), N.land_assoc, N.land_diag. }
  apply drv_bind. eapply (drv_check_features _ _ _ _ _ _ _ _ v); [done|done|done| |done].
  intros h' Hs' Hq'. apply drv_ret, HQ; [done|]. intros q. by rewrite Hq'.
Qed.

Lemma drv_setup_queues d h (Q : outcome DriverError unit → VirtioNet → Hs → Prop) :
  mine d → setting_up h = true → (∀ q, h_queues h q = queue0) →
  (∀ d' h', mine d' → ready d' = ready d → setting_up h' = true →
     q_enabled (h_queues h' RX_QUEUE) = true → q_enabled (h_queues h' TX_QUEUE) = true →
     offset_ok h' RX_QUEUE (rx_notify_off d') → offset_ok h' TX_QUEUE (tx_notify_off d') → Q (Ok tt) d' h') →
  (∀ e d' h', mine d' → ready d' = ready d → Q (Err e) d' h') →
  drv d h (setup_queues B [(RX_QUEUE, rx); (TX_QUEUE, tx)]) Q.
Proof using Hlayout.
  intros [Ht Hb] Hs Hq0 HQ HE. cbn [setup_queues]. do 2 hand. rewrite Ht.
  apply drv_bind, (drv_setup_one _ _ _ _ _ Hlayout _ _ _ _ 0); [done..| |by intros; apply HE].
  intros o1 h1 Hs1 Hq1 (_ & He1 & _ & Ho1). apply drv_bind, drv_update. do 2 hand. cbn [transport set_notify_off]. rewrite Ht.
  apply drv_bind, (drv_setup_one _ _ _ _ _ Hlayout _ _ _ _ 1); [done|by rewrite Hq1|done..| |by intros; apply HE].
  intros o2 h2 Hs2 Hq2 (_ & He2 & _ & Ho2). apply drv_bind, drv_update, drv_ret.
  assert (h_queues h2 RX_QUEUE = h_queues h1 RX_QUEUE) as E12 by by apply Hq2.
  apply HQ; [done|done|done|by rewrite E12|done| |]; unfold offset_ok; cbn [set_notify_off rx_notify_off tx_notify_off];
    rewrite ?E12; simpl; [revert Ho1|revert Ho2]; clear; generalize t; intros []; try done; by intros ->.
Qed.

Lemma uses_read_mac i n : (i + N.of_nat n ≤ CONFIG_LEN)%N → uses (E := DriverError) (read_mac B t i n).
Proof using Hlayout Hfine.
  intros Hi b ro to. revert i Hi. induction n as [|n IH]; intros i Hi; [apply drv_keeps_ret|]. cbn [read_mac].
  apply drv_keeps_bind.
  { apply keeps_io. intros d h (Hd & Hu & Hr). apply acc_read_config; [done|apply Hfine|apply Hu|simpl; lia|done]. }
  intros x. apply drv_keeps_bind; [apply IH; lia|]. intros l. apply drv_keeps_ret.
Qed.

Lemma read_mac_length t' i n s m s' : read_mac B t' i n s = (Ok m, s') → length m = n.
Proof using.
  revert i s m s'. induction n as [|n IH]; intros i s m s'; cbn [read_mac]; [by intros [= <- <-]|].
  rewrite run_bind. destruct (io _ s) as [[x|e|] s1]; [|done|done]. rewrite run_bind.
  destruct (read_mac B t' (i + 1) n s1) as [[l|e|] s2] eqn:Hl; [|done|done]. intros [= <- <-].
  simpl. f_equal. by eapply IH.
Qed.

(** After [DRIVER_OK]. *)
Lemma uses_announce (offered : bool) :
  uses (m ← if offered then read_mac B t 0 6 else mret FALLBACK_MAC;
        _ ← update (set_mac m);
        _ ← write_bytes_at B rx layout.MAC_OFFSET m;
        off ← self tx_notify_off;
        _ ← io (store B W64 rx layout.TX_NOTIFY_OFF_OFFSET off);
        post_rx_buffer B).
Proof using Hlayout Hstores Hfine.
  intros b ro to d h Hd. apply drv_bind.
  assert (drv d h (if offered then read_mac B t 0 6 else mret FALLBACK_MAC)
            (λ r d' h', match r with Ok m => length m = 6 ∧ running b ro to d' h' | _ => running b ro to d' h' end)) as Hm.
  { destruct offered; [|by apply drv_ret].
    pose proof (uses_read_mac 0 6 ltac:(done) b ro to d h Hd) as Hk. intros s Hs.
    destruct (Hk s Hs) as (h' & Hs' & Hr). exists h'. split; [done|]. destruct Hr as [?|Hr]; [by left|right].
    destruct (read_mac B t 0 6 (d, s)) as [[m|e|] s1] eqn:Hl; [|exact Hr|exact Hr]. split; [by eapply read_mac_length|exact Hr]. }
  eapply drv_mono; [exact Hm|]. intros [m|e|] d1 h1 Hd1; [|done|done]. destruct Hd1 as [Hlen Hd1].
  refine (drv_keeps_bind _ _ _ _ _ (running b ro to) _ _ _ _ d1 h1 Hd1); [by apply keeps_next|]. intros _.
  apply drv_keeps_bind.
  { eapply uses_write_bytes; [apply region_rx|right; rewrite Hlen; done|rewrite Hlen; done]. }
  intros _. apply (keeps_self_bind _ _ _ _ _ _ _ _ to); [by intros ? ? (_ & _ & _ & _ & Hto)|].
  apply drv_keeps_bind; [|intros _; apply uses_post_rx].
  apply keeps_acc. intros h2 Q HQ. eapply acc_region_store0; [apply region_rx|done|by right|apply HQ].
Qed.

Lemma net_drv_do_probe d h (Q : outcome DriverError unit → VirtioNet → Hs → Prop) :
  mine d →
  (∀ d' h', mine d' → usable d' h' → ready d' = ready d → Q (Ok tt) d' h') →
  (∀ e d' h', mine d' → ready d' = ready d → Q (Err e) d' h') → drv d h (do_probe B) Q.
Proof using Hlayout Hstores Hfine.
  intros Hd HQ HE. unfold do_probe. do 3 hand. pose proof Hd as (Ht & Hrx & Htx). rewrite Ht, Hrx, Htx.
  apply drv_bind, drv_check_identity; [done|]. intros [[]|e|]; [|by apply HE|done].
  apply drv_bind, net_drv_negotiate; [done| |by intros; apply HE].
  intros offered h1 Hs1 Hq1. apply drv_bind, drv_setup_queues; [done|done|done| |done].
  intros d2 h2 Hd2 Hr2 Hs2 He1 He2 Ho1 Ho2.
  hand. eapply acc_write_status; [apply Hfine|done| |].
  { unfold store_status. simpl. by rewrite Hs2, He1, He2. }
  eapply drv_cases; [apply (uses_announce offered (ready d) (rx_notify_off d2) (tx_notify_off d2) d2); by split_and!| |].
  - intros [] d3 h3 (Hd3 & Hu3 & Hr3 & _). by apply HQ.
  - intros e d3 h3 (Hd3 & Hu3 & Hr3 & _). by apply HE.
Qed.

Lemma net_serves_probe d h :
  mine d → ready d = false → drv d h (probe B) (λ _ d' h', inv d' h').
Proof using Hlayout Hstores Hfine.
  intros Hd Hr. unfold probe. hand. cbv beta.
  assert (∀ d' h', mine d' → ready d' = ready d → inv d' h') as Hno by (intros; split; [done|congruence]).
  destruct (negb _); [by apply drv_throw, Hno|].
  apply drv_bind, net_drv_do_probe; [done| |by intros; apply Hno].
  intros d' h' Hd' Hu' _. apply drv_bind, drv_update, drv_ret. by split.
Qed.
End handshake.

(** ** The process *)

Section process.
Context {FB : FlagBits}.

Lemma net_message_word i : (i < 7)%N →
  (layout.MESSAGE_OFFSET + 8 * i + width_bytes W64 ≤ REGION)%N ∧
  outside_used USED_RINGS 0 (layout.MESSAGE_OFFSET + 8 * i) (width_bytes W64) = true.
Proof using.
  clear. intros Hi. unfold layout.MESSAGE_OFFSET, REGION. change (width_bytes W64) with 8%N. split; [lia|].
  apply orb_true_intro. right. apply N.leb_le. vm_compute (layout.USED_OFFSET + _ + _ + _)%N. lia.
Qed.

Abbreviation serves := (keeps (X := VirtioNet) (E := Empty_set) QUEUES USED_RINGS t [rx; tx] B inv).

Lemma net_serves_at : serves (serve_at B rx).
Proof using Hlayout Hstores Hfine.
  apply drv_keeps_bind.
  { apply keeps_io. intros d h Hd. apply (acc_read_message _ _ _ _ _ Hlayout Hfine 0 rx); [done|exact net_message_word|done]. }
  intros msg. apply drv_keeps_bind.
  { destruct (DriverP.decode_driver_request msg) as [[]| |];
      try apply net_serves_handle_request; try apply serves_handle_send; try apply serves_handle_poll;
      [apply drv_keeps_ret|apply drv_keeps_panic]. }
  intros resp. apply drv_keeps_bind; [apply drv_keeps_unwrap|]. intros out.
  apply keeps_io. intros d h Hd. apply (acc_write_message _ _ _ _ _ Hlayout Hstores Hfine 0 rx); [done|exact net_message_word|done].
Qed.

Lemma net_serves_one : serves (serve_one B).
Proof using Hlayout Hstores Hfine.
  apply (keeps_self_bind _ _ _ _ _ _ _ _ rx); [by intros d h [(_ & Hb & _) _]|]. apply net_serves_at.
Qed.

Lemma net_serves_rounds l : serves (rounds B l).
Proof using Hlayout Hstores Hfine.
  induction l as [|[len|] l IH]; simpl; [apply drv_keeps_ret| |].
  - intros d h Hi. apply drv_bind, drv_self, drv_bind.
    eapply (drv_mono _ _ _ _ _ _ _ _ (λ _ d' h', inv d' h')).
    + destruct (ready d) eqn:Hr; [|by apply drv_ret]. destruct Hi as [Hd Hu].
      eapply drv_mono; [apply (uses_submit_tx len true (rx_notify_off d) (tx_notify_off d)); by split_and!; auto|].
      intros r d' h' (Hd' & Hu' & _). by split.
    + intros [a|e|] d' h' Hi'; [by apply IH|done|done].
  - apply drv_keeps_bind; [apply net_serves_one|done].
Qed.
End process.
End rules.

(** C13 The network driver follows the rules of virtio and stays in its windows,
    whatever the device does: as [VirtioBlk.blk_follows_rules], for two queues and
    two pages, in the handshake and in any sequence of requests, with frames sent
    by polling or by waiting for interrupts. *)
Theorem net_follows_rules {FB : FlagBits} {D} (B : Bus D) t rx tx d s l :
  layout_ok t [rx; tx] → transport d = t → rx_base d = rx → tx_base d = tx → ready d = false →
  conforms QUEUES USED_RINGS t [rx; tx] (probe_and_serve (logged B) l (d, (s, []))).2.2.2.
Proof.
  intros Hl Ht Hrx Htx Hr. set (OB := log_observes QUEUES USED_RINGS t [rx; tx] B).
  assert (at_ hs0 (s, [])) as H0 by reflexivity.
  assert (∀ w addr, store_ok (Observes := OB) w addr) as Hst by done.
  assert (∀ h, fine (Observes := OB) h) as Hf by done.
  destruct (net_serves_probe t rx tx (logged B) Hl Hst Hf d hs0 (conj Ht (conj Hrx Htx)) Hr (s, []) H0) as (h1 & H1 & Hp).
  assert (∀ d1 s1, at_ h1 s1 → inv t rx tx d1 h1 →
    conforms QUEUES USED_RINGS t [rx; tx] (rounds (logged B) l (d1, s1)).2.2.2) as Hrun.
  { intros d1 s1 H1' Hi1.
    destruct (net_serves_rounds t rx tx (logged B) Hl Hst Hf l d1 h1 Hi1 s1 H1') as (h2 & H2 & _).
    by exists h2. }
  unfold probe_and_serve, ignore, mbind, M_bind.
  destruct (probe (logged B) (d, (s, []))) as [[i|e|] [d1 s1]]; simpl in *; [| |by exists h1];
    destruct Hp as [?|Hp]; by auto.
Qed.

(** A device whose registers never change, but with which the handshake succeeds. *)
Definition still_bus : Bus unit := {|
  bus_load w addr s :=
    ((if (addr =? DRV_MMIO_VA + mmio.MAGIC_VALUE)%N then VIRTIO_MMIO_MAGIC
      else if (addr =? DRV_MMIO_VA + mmio.VERSION)%N then 2
      else if (addr =? DRV_MMIO_VA + mmio.DEVICE_ID)%N then 1
      else if (addr =? DRV_MMIO_VA + mmio.DEVICE_FEATURES)%N then 33
      else if (addr =? DRV_MMIO_VA + mmio.STATUS)%N then 11
      else if (addr =? DRV_MMIO_VA + mmio.QUEUE_NUM_MAX)%N then 2
      else 1)%N, s);
  bus_store _ _ _ s := s;
  bus_wait s := s;
|}.

Definition still_run :=
  probe_and_serve (logged still_bus) [None; Some 60%N; None]
    (net_new DRV_MMIO_VA DRV_RX_VA DRV_TX_VA, (tt, [])).

Lemma net_follows_rules_witness :
  conforms QUEUES USED_RINGS (Mmio DRV_MMIO_VA) [DRV_RX_VA; DRV_TX_VA] still_run.2.2.2 ∧
  ready still_run.2.1 = true ∧ mac still_run.2.1 = replicate 6 1%N ∧ tx_next_idx still_run.2.1 = 1%N.
Proof.
  split; [|split_and!; vm_compute; reflexivity].
  apply (net_follows_rules still_bus (Mmio DRV_MMIO_VA) DRV_RX_VA DRV_TX_VA); [|done..].
  split; [by repeat constructor; vm_compute; auto|].
  intros [|[|i]] [|[|j]] a c Ha Hc Hn; simplify_eq/=; first [done|left; done|right; done].
Defined.

(** ** Two findings about received frames

    A bus that is only memory, with the device's page as it is when the first frame
    has arrived: [poll_rx] hands the buffer back to the device before anybody has
    read the frame, and the length is whatever the device wrote. *)
Fixpoint peek (m : N → N) (a : N) (n : nat) : N :=
  match n with 0 => 0 | S n => m a + 256 * peek m (a + 1) n end.

Fixpoint poke (m : N → N) (a : N) (n : nat) (v : N) : N → N :=
  match n with 0 => m | S n => upd a (v mod 256)%N (poke m (a + 1) n (v / 256)) end.

Definition memory_bus : Bus (N → N) := {|
  bus_load w addr m := (peek m addr (N.to_nat (width_bytes w)), m);
  bus_store w addr v m := poke m addr (N.to_nat (width_bytes w)) v;
  bus_wait m := m;
|}.

(** Page 4096 of the machine: a used ring with one entry, of [len] bytes. *)
Definition arrived (len : N) : N → N :=
  poke (poke (poke (λ _, 0%N) DRV_RX_VA 8 4096) (DRV_RX_VA + layout.USED_OFFSET + 2) 2 1)
    (DRV_RX_VA + layout.USED_OFFSET + 8) 4 len.

Definition receiver : VirtioNet :=
  set_rx_next_idx 1 (set_ready (net_new DRV_MMIO_VA DRV_RX_VA DRV_TX_VA)).

Lemma frame_reposted_before_read :
  let r := handle_poll_frame (E := Empty_set) memory_bus (receiver, arrived 72) in
  r.1 = Ok (DriverP.FrameReceived 60) ∧
  peek r.2.2 (DRV_RX_VA + layout.AVAIL_OFFSET + 2) 2 = 2%N ∧
  peek r.2.2 (DRV_RX_VA + layout.DESC_OFFSET) 8 = (4096 + layout.BUFFER_OFFSET)%N.
Proof. vm_compute. done. Qed.

Lemma frame_length_unbounded :
  (handle_poll_frame (E := Empty_set) memory_bus (receiver, arrived 5012)).1 = Ok (DriverP.FrameReceived 5000) ∧
  (FRAME_MAX < 5000)%N.
Proof. vm_compute. done. Qed.
