(* ===== verification/PciConfig.v ===== *)
(** * PCI configuration space

    What [hal-*/src/peripheral.rs] and [hal-*/src/compute.rs] share, which is the same
    text in each of them: the address of a function's registers, the two ways to reach
    them (memory-mapped, and the two I/O ports of x86), the header, the sizing of a base
    address register.

    [PciFunction] is a function as the PCI specification has it: registers with
    bits that can be written and bits that cannot.  [ConfigSpec] is what an access method
    promises of a machine made of these; [ecam_access] and [port_access] keep it. *)

From stdpp Require Import gmap.
From S2P Require Import Prelude Virtio.

(** ** Addresses *)

Record Bdf := mkBdf { bus : N; device : N; function : N }.

Definition ecam_offset (b : Bdf) : N :=
  N.lor (N.lor (N.shiftl (bus b) 20) (N.shiftl (device b) 15)) (N.shiftl (function b) 12).

(** The argument of the address port; [offset & 0xFC]. *)
Definition pci_config_address (b : Bdf) (offset : N) : N :=
  N.lor (N.lor (N.lor (N.lor (N.shiftl 1 31) (N.shiftl (bus b) 16)) (N.shiftl (device b) 11))
           (N.shiftl (function b) 8)) (N.land offset 252).

(** ** Access methods *)

(** The code has no errors here. *)
Abbreviation P D := (M D Empty_set).

Class ConfigAccess (D : Type) := {
  config_read : Bdf → N → P D N;
  config_write : Bdf → N → N → P D unit;
}.

Definition PCI_CONFIG_ADDRESS : N := 3320.
Definition PCI_CONFIG_DATA : N := 3324.

Section methods.
Context {D : Type} (B : Bus D).

Definition ecam_read_u32 (ecam_base : N) (b : Bdf) (offset : N) : P D N :=
  base ← unwrap (checked_add U64 ecam_base (ecam_offset b)); load B W32 base offset.

Definition ecam_write_u32 (ecam_base : N) (b : Bdf) (offset value : N) : P D unit :=
  base ← unwrap (checked_add U64 ecam_base (ecam_offset b)); store B W32 base offset value.

Definition ecam (ecam_base : N) : ConfigAccess D :=
  {| config_read := ecam_read_u32 ecam_base; config_write := ecam_write_u32 ecam_base |}.

(** [out] and [in]: [B] is the bus of the I/O ports. *)
Definition pci_config_read_u32 (b : Bdf) (offset : N) : P D N :=
  _ ← write_volatile B W32 PCI_CONFIG_ADDRESS (pci_config_address b offset);
  read_volatile B W32 PCI_CONFIG_DATA.

Definition pci_config_write_u32 (b : Bdf) (offset value : N) : P D unit :=
  _ ← write_volatile B W32 PCI_CONFIG_ADDRESS (pci_config_address b offset);
  write_volatile B W32 PCI_CONFIG_DATA value.

Definition ports : ConfigAccess D :=
  {| config_read := pci_config_read_u32; config_write := pci_config_write_u32 |}.
End methods.

(** ** Headers and base address registers *)

Record PciDeviceHeader := mkHeader {
  vendor_id : N;
  device_id : N;
  class_code : N;
  subclass : N;
  header_type : N;
}.

(** [!x] of a [u32]. *)
Definition u32_not (a : N) : N := N.lnot a 32.

Section access.
Context {D : Type} {A : ConfigAccess D}.

Definition read_pci_header (b : Bdf) : P D (option PciDeviceHeader) :=
  dword0 ← config_read b 0;
  let vendor := N.land dword0 65535 in
  if (vendor =? 65535)%N then mret None else
  let dev := N.shiftr dword0 16 in
  dword2 ← config_read b 8;
  let sub := N.land (N.shiftr dword2 16) 255 in
  let class := N.land (N.shiftr dword2 24) 255 in
  dword3 ← config_read b 12;
  mret (Some (mkHeader vendor dev class sub (N.land (N.shiftr dword3 16) 255))).

Definition probe_bar0 (b : Bdf) : P D (option (N * N)) :=
  bar0 ← config_read b 16;
  if negb (N.land bar0 1 =? 0)%N then mret None else
  let base := N.land bar0 4294967280 in
  _ ← config_write b 16 4294967295;
  size_mask ← config_read b 16;
  _ ← config_write b 16 bar0;
  if (size_mask =? 0)%N then mret None else
  size ← unwrap (checked_add U64 (u32_not (N.land size_mask 4294967280)) 1);
  mret (Some (base, size)).

Definition probe_bar_size (b : Bdf) (bar_index : N) : P D (option N) :=
  o ← unwrap (checked_mul U8 bar_index 4);
  offset ← unwrap (checked_add U8 16 o);
  original ← config_read b offset;
  if negb (N.land original 1 =? 0)%N then mret None else
  _ ← config_write b offset 4294967295;
  size_mask ← config_read b offset;
  _ ← config_write b offset original;
  if (size_mask =? 0)%N then mret None else
  let size_bits := N.land size_mask 4294967280 in
  size ← unwrap (checked_add U64 (u32_not size_bits) 1);
  mret (Some size).
End access.

(** ** The machine *)

(** The registers of a function, as dwords, and the bits of each that can be written. *)
Record PciFunction := mkPciFunction { regs : list N; writable : list N }.

(** The functions that are present, by [ecam_offset]. *)
Abbreviation Config := (gmap N PciFunction).

Definition reg (f : PciFunction) (i : nat) : N := truncate U32 (default 0%N (regs f !! i)).

Definition write_word (old mask v : N) : N := N.lor (N.land v mask) (N.ldiff old mask).

Definition write_fn (f : PciFunction) (i : nat) (v : N) : PciFunction :=
  mkPciFunction (<[i := write_word (reg f i) (default 0%N (writable f !! i)) (truncate U32 v)]> (regs f)) (writable f).

(** A function that is absent reads as all ones. *)
Definition read_reg (c : Config) (key offset : N) : N :=
  match c !! key with Some f => reg f (N.to_nat (offset / 4)) | None => 4294967295 end.

Definition write_reg (c : Config) (key offset v : N) : Config :=
  match c !! key with Some f => <[key := write_fn f (N.to_nat (offset / 4)) v]> c | None => c end.

Record bdf_ok (b : Bdf) : Prop := {
  bo_bus : (bus b < 256)%N;
  bo_device : (device b < 32)%N;
  bo_function : (function b < 8)%N;
}.

Definition offset_ok (offset : N) : Prop := (offset mod 4 = 0 ∧ offset < 256)%N.

(** [m] returns [v] and takes the machine from the configuration [c] to [c']. *)
Definition yields {D E X} (config_of : D → Config) (c : Config) (m : M D E X) (v : X) (c' : Config) : Prop :=
  ∀ d, config_of d = c → ∃ d', m d = (Ok v, d') ∧ config_of d' = c'.

Class ConfigSpec {D} (A : ConfigAccess D) (config_of : D → Config) : Prop := {
  cs_read c b offset : bdf_ok b → offset_ok offset →
    yields config_of c (config_read b offset) (read_reg c (ecam_offset b) offset) c;
  cs_write c b offset v : bdf_ok b → offset_ok offset →
    yields config_of c (config_write b offset v) tt (write_reg c (ecam_offset b) offset v);
}.

Lemma yields_ret {D E X} (config_of : D → Config) c (v : X) : yields config_of c (mret v : M D E X) v c.
Proof. intros d Hd. by exists d. Qed.

Lemma yields_bind {D E X Y} (config_of : D → Config) c c' c'' (m : M D E X) (k : X → M D E Y) v w :
  yields config_of c m v c' → yields config_of c' (k v) w c'' → yields config_of c (m ≫= k) w c''.
Proof.
  intros Hm Hk d Hd. destruct (Hm d Hd) as (d1 & E1 & H1). destruct (Hk d1 H1) as (d2 & E2 & H2).
  exists d2. split; [|done]. by rewrite run_bind, E1.
Qed.

Lemma yields_unwrap {D E X} (config_of : D → Config) c (o : option X) v :
  o = Some v → yields config_of c (unwrap o : M D E X) v c.
Proof. intros ->. apply yields_ret. Qed.

(** ** Words with bits that cannot be written *)

Lemma write_word_bits old mask v i :
  N.testbit (write_word old mask v) i = if N.testbit mask i then N.testbit v i else N.testbit old i.
Proof.
  unfold write_word. rewrite N.lor_spec, N.land_spec, N.ldiff_spec.
  by destruct (N.testbit v i), (N.testbit mask i), (N.testbit old i).
Qed.

Lemma write_word_bound old mask v : (old < U32)%N → (v < U32)%N → (write_word old mask v < U32)%N.
Proof.
  intros Ho Hv. apply bits_u32. intros i Hi. rewrite write_word_bits.
  by destruct (N.testbit mask i); apply u32_bits.
Qed.

(** Writing back what was read before undoes a write. *)
Lemma write_word_restore old mask v : write_word (write_word old mask v) mask old = old.
Proof. apply N.bits_inj. intros i. rewrite !write_word_bits. by destruct (N.testbit mask i). Qed.

(** Ones from bit [k] to bit [w]. *)
Lemma ones_from w k i :
  (k ≤ w)%N → N.testbit (2 ^ w - 2 ^ k) i = ((k <=? i) && (i <? w))%N.
Proof.
  intros Hk. assert (2 ^ w - 2 ^ k = N.shiftl (N.ones (w - k)) k)%N as ->.
  { rewrite N.shiftl_mul_pow2, N.ones_equiv, <- N.sub_1_r, N.mul_sub_distr_r, <- N.pow_add_r, N.mul_1_l.
    do 2 f_equal. lia. }
  destruct (N.leb_spec k i).
  - rewrite N.shiftl_spec_high' by done. destruct (N.ltb_spec i w).
    + by rewrite N.ones_spec_low by lia.
    + by rewrite N.ones_spec_high by lia.
  - by rewrite N.shiftl_spec_low.
Qed.

Lemma multiple_bits base k i : (base mod 2 ^ k = 0)%N → (i < k)%N → N.testbit base i = false.
Proof.
  intros Hb Hi. rewrite <- (N.mod_pow2_bits_low base k i Hi), Hb. apply N.bits_0.
Qed.

Lemma reg_bound f i : (reg f i < U32)%N.
Proof. unfold reg, truncate. apply N.mod_lt. done. Qed.

Lemma truncate_reg f i : truncate U32 (reg f i) = reg f i.
Proof. apply N.mod_small, reg_bound. Qed.

Lemma write_fn_regs f i v j :
  i < length (regs f) →
  reg (write_fn f i v) j =
    if decide (i = j) then write_word (reg f i) (default 0%N (writable f !! i)) (truncate U32 v) else reg f j.
Proof.
  intros Hi. unfold reg at 1, write_fn. cbn [regs]. case_decide as Hj.
  - subst j. rewrite list_lookup_insert_eq by done. apply N.mod_small, write_word_bound; [apply reg_bound|].
    apply N.mod_lt. done.
  - by rewrite list_lookup_insert_ne.
Qed.

(** A function's registers, as many as the configuration space has. *)
Record function_ok (f : PciFunction) : Prop := {
  fo_regs : length (regs f) = 64;
  fo_words : Forall (λ v, v < U32)%N (regs f);
  fo_vendor : N.land (reg f 0) 65535 ≠ 65535%N;
}.

Definition config_ok (c : Config) : Prop := map_Forall (λ _, function_ok) c.

Lemma offset_index offset : offset_ok offset → N.to_nat (offset / 4) < 64.
Proof. intros [_ Ho]. assert (offset / 4 < 64)%N by (apply N.Div0.div_lt_upper_bound; lia). lia. Qed.

(** Writing a value over the old one, and the old one again. *)
Lemma write_fn_restore f i v : function_ok f → i < 64 → write_fn (write_fn f i v) i (reg f i) = f.
Proof.
  intros [Hl Hw _] Hi. transitivity (mkPciFunction (regs f) (writable f)); [|by destruct f]. unfold write_fn at 1.
  rewrite write_fn_regs, decide_True by lia. cbn [write_fn regs writable]. f_equal.
  rewrite truncate_reg, write_word_restore, list_insert_insert_eq.
  apply list_insert_id. unfold reg, truncate. destruct (lookup_lt_is_Some_2 (regs f) i) as [x Hx]; [lia|].
  rewrite Hx. cbn [default]. rewrite N.mod_small; [done|]. by eapply Forall_lookup_1 in Hw.
Qed.

Lemma write_fn_ok f i v : function_ok f → i ≠ 0 → i < 64 → function_ok (write_fn f i v).
Proof.
  intros [Hl Hw Hv] Hz Hi. split.
  - cbn. by rewrite length_insert.
  - cbn. apply Forall_insert; [done|]. apply write_word_bound; [apply reg_bound|]. by apply N.mod_lt.
  - rewrite write_fn_regs, decide_False by lia. done.
Qed.

Lemma write_reg_restore c key offset v :
  config_ok c → offset_ok offset →
  write_reg (write_reg c key offset v) key offset (read_reg c key offset) = c.
Proof.
  intros Hc Ho. unfold write_reg, read_reg. destruct (c !! key) as [f|] eqn:Hf; [|by rewrite Hf].
  rewrite lookup_insert_eq, insert_insert_eq. apply insert_id. rewrite Hf. f_equal. symmetry.
  apply write_fn_restore; [by apply (Hc _ _ Hf)|by apply offset_index].
Qed.

(** ** What the code reads *)

Definition header_of (f : PciFunction) : PciDeviceHeader :=
  mkHeader (N.land (reg f 0) 65535) (N.shiftr (reg f 0) 16) (N.land (N.shiftr (reg f 2) 24) 255)
    (N.land (N.shiftr (reg f 2) 16) 255) (N.land (N.shiftr (reg f 3) 16) 255).

(** Base address registers: [size] is a power of two, [base] a multiple of it.  A wide one
    takes the next register as well. *)
Inductive Bar := NoBar | IoBar | MemBar (wide prefetchable : bool) (base size : N).

Definition bar_type (wide prefetchable : bool) : N :=
  N.lor (if wide then 4 else 0) (if prefetchable then 8 else 0).

Definition bar_width (wide : bool) : N := if wide then 64 else 32.

Definition mask (f : PciFunction) (i : nat) : N := default 0%N (writable f !! i).

Record mem_bar (f : PciFunction) (i : nat) (wide prefetchable : bool) (base k : N) : Prop := {
  mb_size : (4 ≤ k < bar_width wide)%N;
  mb_aligned : (base mod 2 ^ k = 0)%N;
  mb_base : (base < 2 ^ bar_width wide)%N;
  mb_low : reg f i = N.lor (base mod U32) (bar_type wide prefetchable);
  mb_mask : mask f i = ((2 ^ bar_width wide - 2 ^ k) mod U32)%N;
  mb_high : wide = true → reg f (S i) = (base / U32)%N ∧ mask f (S i) = ((2 ^ 64 - 2 ^ k) / U32)%N;
}.

Definition bar_at (f : PciFunction) (i : nat) (b : Bar) : Prop :=
  match b with
  | NoBar => reg f i = 0%N ∧ mask f i = 0%N
  | IoBar => N.testbit (reg f i) 0 = true
  | MemBar wide prefetchable base size => ∃ k, size = (2 ^ k)%N ∧ mem_bar f i wide prefetchable base k
  end.

(** A probe of one register reports the low half of the base, and no size above 4 GiB. *)
Definition reported (b : Bar) : option (N * N) :=
  match b with
  | MemBar _ _ base size => Some (base mod U32, N.min size U32)%N
  | _ => None
  end.

Lemma bar_type_bits wide prefetchable i :
  N.testbit (bar_type wide prefetchable) i = wide && (2 =? i)%N || prefetchable && (3 =? i)%N.
Proof.
  unfold bar_type. rewrite N.lor_spec. change 4%N with (2 ^ 2)%N. change 8%N with (2 ^ 3)%N.
  destruct wide, prefetchable; rewrite ?N.pow2_bits_eqb, ?N.bits_0; done.
Qed.

Lemma low_mask w k :
  (k < w)%N → (32 ≤ w)%N → ((2 ^ w - 2 ^ k) mod U32 = if (k <? 32)%N then 2 ^ 32 - 2 ^ k else 0)%N.
Proof.
  intros Hk Hw. change U32 with (2 ^ 32)%N. apply N.bits_inj. intros i.
  destruct (N.lt_ge_cases i 32) as [Hi|Hi].
  - rewrite N.mod_pow2_bits_low, ones_from by lia. rewrite (proj2 (N.ltb_lt i w)) by lia.
    destruct (N.ltb_spec k 32).
    + rewrite ones_from by lia. by rewrite (proj2 (N.ltb_lt i 32)) by lia.
    + rewrite N.bits_0. by rewrite (proj2 (N.leb_gt k i)) by lia.
  - rewrite N.mod_pow2_bits_high by lia. destruct (N.ltb_spec k 32); [|done].
    rewrite ones_from by lia. by rewrite (proj2 (N.ltb_ge i 32)), andb_false_r by lia.
Qed.

(** The value that a register shows after all ones have been written. *)
Definition size_word (f : PciFunction) (i : nat) : N := write_word (reg f i) (mask f i) 4294967295.

Section bar.
Context (f : PciFunction) (i : nat) (wide prefetchable : bool) (base k : N).
Hypothesis Hb : mem_bar f i wide prefetchable base k.

Lemma bar_low_bits j :
  (j < 32)%N → N.testbit (reg f i) j = N.testbit base j || (wide && (2 =? j)%N || prefetchable && (3 =? j)%N).
Proof using Hb.
  intros Hj. rewrite (mb_low _ _ _ _ _ _ Hb), N.lor_spec, bar_type_bits. f_equal.
  change U32 with (2 ^ 32)%N. by apply N.mod_pow2_bits_low.
Qed.

Lemma base_low_bits j : (j < k)%N → N.testbit base j = false.
Proof using Hb. intros Hj. eapply multiple_bits; [apply Hb|done]. Qed.

Lemma bar_is_memory : N.land (reg f i) 1 = 0%N.
Proof using Hb.
  pose proof (mb_size _ _ _ _ _ _ Hb) as Hs. change 1%N with (N.ones 1). rewrite N.land_ones. apply N.bits_inj. intros j.
  rewrite N.bits_0. destruct (decide (j = 0%N)) as [->|Hj].
  - rewrite N.mod_pow2_bits_low, bar_low_bits by lia. rewrite base_low_bits by lia. by destruct wide, prefetchable.
  - apply N.mod_pow2_bits_high. lia.
Qed.

Lemma address_bits v j :
  N.testbit (N.land v 4294967280) j = ((4 <=? j) && (j <? 32))%N && N.testbit v j.
Proof using. change 4294967280%N with (2 ^ 32 - 2 ^ 4)%N. by rewrite N.land_spec, ones_from, andb_comm by done. Qed.

Lemma bar_base : N.land (reg f i) 4294967280 = (base mod U32)%N.
Proof using Hb.
  pose proof (mb_size _ _ _ _ _ _ Hb) as Hs. apply N.bits_inj. intros j. rewrite address_bits. change U32 with (2 ^ 32)%N.
  destruct (N.ltb_spec j 32).
  - rewrite bar_low_bits, N.mod_pow2_bits_low by done. destruct (N.leb_spec 4 j).
    + rewrite !(proj2 (N.eqb_neq _ j)) by lia. by rewrite !andb_false_r, orb_false_r.
    + by rewrite base_low_bits by lia.
  - by rewrite andb_false_r, N.mod_pow2_bits_high by lia.
Qed.

Lemma size_word_bits j :
  (j < 32)%N → N.testbit (size_word f i) j = (k <=? j)%N || N.testbit (reg f i) j.
Proof using Hb.
  intros Hj. pose proof (mb_size _ _ _ _ _ _ Hb) as Hs. unfold size_word. rewrite write_word_bits, (mb_mask _ _ _ _ _ _ Hb).
  change U32 with (2 ^ 32)%N. rewrite N.mod_pow2_bits_low, ones_from by (destruct wide; simpl in *; lia).
  rewrite (proj2 (N.ltb_lt j (bar_width wide))), andb_true_r by (destruct wide; simpl; lia).
  change 4294967295%N with (N.ones 32). rewrite N.ones_spec_low by lia. by destruct (k <=? j)%N.
Qed.

Lemma size_word_mask : N.land (size_word f i) 4294967280 = (if (k <? 32)%N then 2 ^ 32 - 2 ^ k else 0)%N.
Proof using Hb.
  pose proof (mb_size _ _ _ _ _ _ Hb) as Hs. apply N.bits_inj. intros j. rewrite address_bits.
  destruct (N.ltb_spec j 32); [rewrite size_word_bits, bar_low_bits by done|].
  - destruct (N.leb_spec 4 j); cbn [andb].
    + rewrite !(proj2 (N.eqb_neq _ j)) by lia. rewrite !andb_false_r, orb_false_r.
      destruct (N.leb_spec k j); cbn [orb]; destruct (N.ltb_spec k 32); try lia.
      * rewrite ones_from by lia. by rewrite (proj2 (N.leb_le _ _)), (proj2 (N.ltb_lt _ _)) by lia.
      * rewrite ones_from by lia. rewrite base_low_bits by lia. by rewrite (proj2 (N.leb_gt _ _)) by lia.
      * rewrite base_low_bits by lia. by rewrite N.bits_0.
    + destruct (N.ltb_spec k 32); [|by rewrite N.bits_0].
      rewrite ones_from by lia. by rewrite (proj2 (N.leb_gt k j)) by lia.
  - rewrite andb_false_r. destruct (N.ltb_spec k 32); [|by rewrite N.bits_0].
    rewrite ones_from by lia. by rewrite (proj2 (N.ltb_ge j 32)), andb_false_r by lia.
Qed.

Lemma size_word_implemented : size_word f i ≠ 0%N.
Proof using Hb.
  pose proof (mb_size _ _ _ _ _ _ Hb) as Hs. intros E.
  assert (N.testbit (size_word f i) (if (k <? 32)%N then 31 else 2) = true) as Ht; [|by rewrite E in Ht; rewrite N.bits_0 in Ht].
  destruct (N.ltb_spec k 32).
  - rewrite size_word_bits by done. by rewrite (proj2 (N.leb_le _ _)) by lia.
  - rewrite size_word_bits, bar_low_bits by done. destruct wide; [|simpl in Hs; lia].
    cbn [andb orb N.eqb]. by rewrite !orb_true_r.
Qed.
End bar.

(** The size that the complement of the mask gives. *)
Lemma complement_size w k : (k < w)%N → (N.lnot (2 ^ w - 2 ^ k) w + 1 = 2 ^ k)%N.
Proof.
  intros Hk. pose proof (N.pow_lt_mono_r 2 k w ltac:(lia) Hk) as Hlt.
  assert (N.log2 (2 ^ w - 2 ^ k) < w)%N as Hl.
  { assert (2 ^ k ≠ 0)%N by (by apply N.pow_nonzero). apply N.log2_lt_pow2; lia. }
  pose proof (N.add_lnot_diag_low (2 ^ w - 2 ^ k) w Hl) as Ha. rewrite N.ones_equiv, <- N.sub_1_r in Ha. lia.
Qed.

(** [(!size_bits) as u64 + 1] is the size, up to 4 GiB. *)
Lemma reported_size {S E} k :
  unwrap (checked_add U64 (u32_not (if (k <? 32)%N then 2 ^ 32 - 2 ^ k else 0)) 1) =
  (mret (N.min (2 ^ k) U32) : M S E N).
Proof.
  assert (u32_not (if (k <? 32)%N then 2 ^ 32 - 2 ^ k else 0) + 1 = N.min (2 ^ k) U32)%N as Hn.
  { destruct (N.ltb_spec k 32) as [Hk|Hk].
    - unfold u32_not. rewrite complement_size by done. symmetry. apply N.min_l. change U32 with (2 ^ 32)%N.
      apply N.pow_le_mono_r; lia.
    - symmetry. rewrite N.min_r; [done|]. change U32 with (2 ^ 32)%N. by apply N.pow_le_mono_r. }
  unfold checked_add. rewrite Hn, (proj2 (N.ltb_lt _ _)); [done|]. lia.
Qed.

(** ** The probes *)

Section probes.
Context {D : Type} {A : ConfigAccess D} (config_of : D → Config) {CS : ConfigSpec A config_of}.

Lemma read_header_spec c b :
  config_ok c → bdf_ok b → yields config_of c (read_pci_header b) (header_of <$> c !! ecam_offset b) c.
Proof using CS.
  intros Hc Hb. unfold read_pci_header. eapply yields_bind; [by apply cs_read|]. unfold read_reg.
  destruct (c !! ecam_offset b) as [f|] eqn:Hf; [|apply yields_ret].
  change (N.to_nat (0 / 4)) with 0. rewrite (proj2 (N.eqb_neq _ _)) by apply (Hc _ _ Hf).
  eapply yields_bind; [by apply cs_read|]. eapply yields_bind; [by apply cs_read|].
  unfold read_reg. rewrite Hf. apply yields_ret.
Qed.

(** Sizing: all ones, a read, and the old value again. *)
Lemma sizing_spec {X} c b f offset (k : N → P D X) v :
  config_ok c → bdf_ok b → offset_ok offset → c !! ecam_offset b = Some f →
  let i := N.to_nat (offset / 4) in
  yields config_of c (k (size_word f i)) v c →
  yields config_of c
    (_ ← config_write b offset 4294967295; s ← config_read b offset; _ ← config_write b offset (reg f i); k s) v c.
Proof using CS.
  intros Hc Hb Ho Hf i Hk. pose proof (offset_index offset Ho) as Hi. pose proof (fo_regs _ (Hc _ _ Hf)) as Hl.
  pose proof (write_reg_restore c (ecam_offset b) offset 4294967295 Hc Ho) as Hr.
  unfold read_reg in Hr. rewrite Hf in Hr. fold i in Hi, Hr.
  eapply yields_bind; [by apply cs_write|]. eapply yields_bind; [by apply cs_read|].
  eapply yields_bind; [by apply cs_write|]. rewrite Hr.
  unfold read_reg, write_reg. rewrite Hf, lookup_insert_eq, write_fn_regs, decide_True by (fold i; lia). exact Hk.
Qed.

Lemma offset_16 : offset_ok 16.
Proof. by split. Qed.

(** What the two probes do, up to what they return. *)
Lemma probe_spec {X} (result : N → N → X) c b f bar :
  config_ok c → bdf_ok b → c !! ecam_offset b = Some f → bar_at f 4 bar →
  yields config_of c
    (bar0 ← config_read b 16;
     if negb (N.land bar0 1 =? 0)%N then mret None else
     _ ← config_write b 16 4294967295;
     size_mask ← config_read b 16;
     _ ← config_write b 16 bar0;
     if (size_mask =? 0)%N then mret None else
     size ← unwrap (checked_add U64 (u32_not (N.land size_mask 4294967280)) 1);
     mret (Some (result (N.land bar0 4294967280) size)))
    ((λ '(base, size), result base size) <$> reported bar) c.
Proof using CS.
  intros Hc Hb Hf Hbar. eapply yields_bind; [by apply cs_read|].
  unfold read_reg. rewrite Hf. change (N.to_nat (16 / 4)) with 4.
  destruct bar as [| |wide pf base size]; cbn [bar_at reported] in *.
  - destruct Hbar as [Hr Hm]. replace (N.land (reg f 4) 1) with 0%N by by rewrite Hr. cbn [N.eqb negb].
    apply (sizing_spec c b f 16); [done..|]. change (N.to_nat (16 / 4)) with 4.
    unfold size_word. rewrite Hr, Hm. apply yields_ret.
  - assert (N.land (reg f 4) 1 ≠ 0)%N as Hn.
    { intros E. assert (N.testbit (N.land (reg f 4) 1) 0 = true) as Ht by (by rewrite N.land_spec, Hbar). by rewrite E in Ht. }
    rewrite (proj2 (N.eqb_neq _ _) Hn). apply yields_ret.
  - destruct Hbar as (k & -> & Hmem). rewrite (bar_is_memory _ _ _ _ _ _ Hmem), (bar_base _ _ _ _ _ _ Hmem). cbn [N.eqb negb].
    apply (sizing_spec c b f 16); [done..|]. change (N.to_nat (16 / 4)) with 4.
    rewrite (proj2 (N.eqb_neq _ _) (size_word_implemented _ _ _ _ _ _ Hmem)), (size_word_mask _ _ _ _ _ _ Hmem).
    rewrite reported_size. apply yields_ret.
Qed.

Lemma probe_bar0_spec c b f bar :
  config_ok c → bdf_ok b → c !! ecam_offset b = Some f → bar_at f 4 bar →
  yields config_of c (probe_bar0 b) (reported bar) c.
Proof using CS.
  intros Hc Hb Hf Hbar. replace (reported bar) with ((λ '(base, size), (base, size)) <$> reported bar) by by destruct bar.
  by apply (probe_spec pair c b f bar).
Qed.

Lemma probe_bar_size_spec c b f bar :
  config_ok c → bdf_ok b → c !! ecam_offset b = Some f → bar_at f 4 bar →
  yields config_of c (probe_bar_size b 0) (snd <$> reported bar) c.
Proof using CS.
  intros Hc Hb Hf Hbar. replace (snd <$> reported bar) with ((λ '(_, size), size) <$> reported bar) by by destruct bar.
  by apply (probe_spec (λ _ size, size) c b f bar).
Qed.
End probes.

(** ** Two machines *)

(** The window of the memory-mapped registers. *)
Definition ecam_bus (ecam_base : N) : Bus Config := {|
  bus_load w a c := (read_reg c ((a - ecam_base) / 4096 * 4096) ((a - ecam_base) mod 4096), c);
  bus_store w a v c := write_reg c ((a - ecam_base) / 4096 * 4096) ((a - ecam_base) mod 4096) v;
  bus_wait c := c;
|}.

(** The two ports: the address that was written last, if it has the enable bit. *)
Definition port_key (latch : N) : N := (latch / 256 mod 65536 * 4096)%N.

Definition port_bus : Bus (N * Config) := {|
  bus_load w a '(latch, c) :=
    (if (a =? PCI_CONFIG_DATA)%N && N.testbit latch 31 then read_reg c (port_key latch) (latch mod 256) else 4294967295%N,
     (latch, c));
  bus_store w a v '(latch, c) :=
    if (a =? PCI_CONFIG_ADDRESS)%N then (v, c)
    else if (a =? PCI_CONFIG_DATA)%N && N.testbit latch 31 then (latch, write_reg c (port_key latch) (latch mod 256) v)
    else (latch, c);
  bus_wait s := s;
|}.

(** Joining fields that do not overlap. *)
Lemma lor_fields a b n : (b < 2 ^ n)%N → N.lor (a * 2 ^ n) b = (a * 2 ^ n + b)%N.
Proof.
  intros Hb. assert (N.land (a * 2 ^ n) b = 0%N) as Hz.
  { apply N.bits_inj. intros i. rewrite N.land_spec, N.bits_0, <- N.shiftl_mul_pow2.
    destruct (N.lt_ge_cases i n) as [Hi|Hi]; [by rewrite N.shiftl_spec_low|].
    replace b with (b mod 2 ^ n)%N by by apply N.mod_small. rewrite N.mod_pow2_bits_high by done. apply andb_false_r. }
  by rewrite N.add_nocarry_lxor, N.lxor_lor.
Qed.

Lemma ecam_offset_sum b :
  bdf_ok b → ecam_offset b = (bus b * 1048576 + device b * 32768 + function b * 4096)%N.
Proof.
  intros [Hb Hd Hf]. unfold ecam_offset. rewrite !N.shiftl_mul_pow2.
  rewrite (lor_fields (bus b) (device b * 2 ^ 15) 20) by (change (2 ^ 20)%N with (32 * 2 ^ 15)%N; lia).
  replace (bus b * 2 ^ 20 + device b * 2 ^ 15)%N with ((bus b * 32 + device b) * 2 ^ 15)%N by lia.
  rewrite lor_fields by lia. lia.
Qed.

Lemma ecam_offset_aligned b : bdf_ok b → ∃ n, ecam_offset b = (n * 4096)%N ∧ (n < 65536)%N.
Proof.
  intros Hb. exists (bus b * 256 + device b * 8 + function b)%N. rewrite ecam_offset_sum by done. destruct Hb. lia.
Qed.

Lemma read_reg_truncate c key offset : truncate (width_mod W32) (read_reg c key offset) = read_reg c key offset.
Proof. unfold read_reg. destruct (c !! key); [apply truncate_reg|done]. Qed.

Lemma write_reg_truncate c key offset v :
  write_reg c key offset (truncate (width_mod W32) v) = write_reg c key offset v.
Proof.
  unfold write_reg. destruct (c !! key); [|done]. unfold write_fn, truncate. change (width_mod W32) with U32.
  by rewrite N.Div0.mod_mod.
Qed.

#[export] Instance ecam_access ecam_base :
  (ecam_base + 268435456 < U64)%N → ConfigSpec (ecam (ecam_bus ecam_base) ecam_base) (λ c, c).
Proof.
  intros Hbase. assert (∀ b offset, bdf_ok b → offset_ok offset →
    checked_add U64 ecam_base (ecam_offset b) = Some (ecam_base + ecam_offset b)%N ∧
    checked_add U64 (ecam_base + ecam_offset b) offset = Some (ecam_base + ecam_offset b + offset)%N ∧
    (ecam_base + ecam_offset b + offset - ecam_base) / 4096 * 4096 = ecam_offset b ∧
    (ecam_base + ecam_offset b + offset - ecam_base) mod 4096 = offset)%N as Ha.
  { intros b offset Hb [_ Ho]. destruct (ecam_offset_aligned b Hb) as (n & -> & Hn).
    rewrite !checked_add_lt by lia. replace (ecam_base + n * 4096 + offset - ecam_base)%N with (offset + n * 4096)%N by lia.
    rewrite N.div_add, N.Div0.mod_add by done. rewrite (N.div_small offset), (N.mod_small offset) by lia. done. }
  split; intros c b offset; [|intros v]; intros Hb Ho d ->; destruct (Ha b offset Hb Ho) as (E1 & E2 & E3 & E4).
  - exists c. split; [|done]. cbn [config_read ecam]. unfold ecam_read_u32. rewrite E1. run. unfold load. rewrite E2. run.
    unfold read_volatile. cbn [bus_load ecam_bus]. by rewrite E3, E4, read_reg_truncate.
  - eexists. split; [|reflexivity]. cbn [config_write ecam]. unfold ecam_write_u32. rewrite E1. run. unfold store. rewrite E2. run.
    unfold write_volatile. cbn [bus_store ecam_bus]. by rewrite E3, E4, write_reg_truncate.
Qed.

Lemma pci_config_address_sum b offset :
  bdf_ok b → offset_ok offset →
  pci_config_address b offset = (2147483648 + (bus b * 256 + device b * 8 + function b) * 256 + offset)%N.
Proof.
  intros [Hb Hd Hf] [Hm Ho]. unfold pci_config_address.
  assert (N.land offset 252 = offset) as ->.
  { apply N.bits_inj. intros i. change 252%N with (2 ^ 8 - 2 ^ 2)%N. rewrite N.land_spec, ones_from by done.
    destruct (N.lt_ge_cases i 8) as [Hi|Hi].
    - rewrite (proj2 (N.ltb_lt i 8)), andb_true_r by done. destruct (N.leb_spec 2 i); [apply andb_true_r|].
      by rewrite (multiple_bits offset 2 i Hm) by done.
    - rewrite (proj2 (N.ltb_ge i 8)), andb_false_r, andb_false_r by done. symmetry.
      replace offset with (offset mod 2 ^ 8)%N by by apply N.mod_small. by apply N.mod_pow2_bits_high. }
  rewrite !N.shiftl_mul_pow2.
  rewrite (lor_fields 1 (bus b * 2 ^ 16) 31) by (change (2 ^ 31)%N with (32768 * 2 ^ 16)%N; lia).
  replace (1 * 2 ^ 31 + bus b * 2 ^ 16)%N with ((32768 + bus b) * 2 ^ 16)%N by lia.
  rewrite (lor_fields _ (device b * 2 ^ 11) 16) by (change (2 ^ 16)%N with (32 * 2 ^ 11)%N; lia).
  replace ((32768 + bus b) * 2 ^ 16 + device b * 2 ^ 11)%N with (((32768 + bus b) * 32 + device b) * 2 ^ 11)%N by lia.
  rewrite (lor_fields _ (function b * 2 ^ 8) 11) by (change (2 ^ 11)%N with (8 * 2 ^ 8)%N; lia).
  replace (((32768 + bus b) * 32 + device b) * 2 ^ 11 + function b * 2 ^ 8)%N
    with ((((32768 + bus b) * 32 + device b) * 8 + function b) * 2 ^ 8)%N by lia.
  rewrite lor_fields by done. lia.
Qed.

#[export] Instance port_access : ConfigSpec (ports port_bus) snd.
Proof.
  assert (∀ b offset, bdf_ok b → offset_ok offset →
    let a := truncate (width_mod W32) (pci_config_address b offset) in
    N.testbit a 31 = true ∧ port_key a = ecam_offset b ∧ (a mod 256)%N = offset) as Ha.
  { intros b offset Hb Ho a. unfold a. rewrite pci_config_address_sum by done. change (width_mod W32) with U32.
    rewrite ecam_offset_sum by done. destruct Hb as [Hb Hd Hf], Ho as [_ Ho].
    set (n := (bus b * 256 + device b * 8 + function b)%N). assert (n < 65536)%N as Hn by lia.
    unfold truncate. rewrite N.mod_small by lia. split_and!.
    - rewrite N.testbit_true. replace (2147483648 + n * 256 + offset)%N with (n * 256 + offset + 1 * 2 ^ 31)%N by lia.
      rewrite N.div_add by done. rewrite N.div_small by lia. done.
    - unfold port_key. replace (2147483648 + n * 256 + offset)%N with (offset + (8388608 + n) * 256)%N by lia.
      rewrite N.div_add, N.div_small by lia. replace (0 + (8388608 + n))%N with (n + 128 * 65536)%N by lia.
      rewrite N.Div0.mod_add, N.mod_small by lia. lia.
    - replace (2147483648 + n * 256 + offset)%N with (offset + (8388608 + n) * 256)%N by lia.
      rewrite N.Div0.mod_add. by apply N.mod_small. }
  split; intros c b offset; [|intros v]; intros Hb Ho [latch c0]; cbn [snd]; intros ->;
    destruct (Ha b offset Hb Ho) as (E1 & E2 & E3); set (a := truncate _ _) in *.
  - exists (a, c). split; [|done]. cbn [config_read ports]. unfold pci_config_read_u32, write_volatile, read_volatile. run.
    cbn [bus_store bus_load port_bus]. rewrite N.eqb_refl. fold a. cbn [bus_load port_bus]. rewrite N.eqb_refl, E1, E2, E3.
    cbn [andb]. by rewrite read_reg_truncate.
  - exists (a, write_reg c (ecam_offset b) offset v). split; [|done]. cbn [config_write ports].
    unfold pci_config_write_u32, write_volatile. run. cbn [bus_store port_bus]. rewrite N.eqb_refl. fold a.
    cbn [bus_store port_bus]. change (PCI_CONFIG_DATA =? PCI_CONFIG_ADDRESS)%N with false. cbv iota.
    rewrite N.eqb_refl, E1, E2, E3. cbn [andb]. by rewrite write_reg_truncate.
Qed.
