(* ===== verification/PciScan.v ===== *)
(** * Scanning the PCI buses

    [hal-x86_64/src/peripheral.rs], [hal-arm64/src/peripheral.rs] (the virtio devices)
    and [hal-*/src/compute.rs] (accelerators): the same three loops over buses,
    devices and functions, with their own classification and their own entries.  A
    theorem on the loops says that they find the functions of the machine in order, as
    many as fit, and leave every register as it was. *)

From stdpp Require Import gmap.
From S2P Require Import Prelude Manifest DeviceTree Virtio PciConfig.

(** ** The loops *)

(** [0..n] *)
Definition indices_to (n : nat) : list N := N.of_nat <$> seq 0 n.

Section scan.
Context {D : Type} {A : ConfigAccess D} {K T : Type}.
Context (MAX : nat) (ZERO : T) (classify : PciDeviceHeader → option K) (entry : Bdf → PciDeviceHeader → K → P D T).

(** [devices] and [device_count]. *)
Abbreviation Found := (list T * nat)%type (only parsing).

(** [for x in l]; the result says that the body left the loop ['bus_scan]. *)
Fixpoint scan_while {X} (body : X → Found → P D (bool * Found)) (l : list X) (s : Found) : P D (bool * Found) :=
  match l with
  | [] => mret (false, s)
  | x :: l => '(stop, s) ← body x s; if stop : bool then mret (true, s) else scan_while body l s
  end.

Definition scan_function (b : Bdf) (s : Found) : P D (bool * Found) :=
  header ← read_pci_header b;
  match header with
  | None => mret (false, s)
  | Some header =>
      match classify header with
      | None => mret (false, s)
      | Some kind =>
          if MAX <=? s.2 then mret (true, s) else
          e ← entry b header kind;
          _ ← unwrap (s.1 !! s.2);
          mret (false, (<[s.2 := e]> s.1, S s.2))
      end
  end.

Definition scan_device (bus device : N) (s : Found) : P D (bool * Found) :=
  header0 ← read_pci_header (mkBdf bus device 0);
  match header0 with
  | None => mret (false, s)
  | Some header0 =>
      let function_count := if negb (N.land (header_type header0) 128 =? 0)%N then 8 else 1 in
      scan_while (λ fn, scan_function (mkBdf bus device fn)) (indices_to function_count) s
  end.

Definition scan_bus (bus : N) : Found → P D (bool * Found) := scan_while (scan_device bus) (indices_to 32).

Definition bus_scan : P D Found :=
  '(_, s) ← scan_while scan_bus (indices_to 256) (replicate MAX ZERO, 0); mret s.
End scan.

(** ** Virtio devices *)

Definition VIRTIO_PCI_VENDOR_ID : N := 6900.
Definition PCI_CLASS_MASS_STORAGE : N := 1.
Definition PCI_CLASS_NETWORK : N := 2.
Definition PCI_CLASS_DISPLAY : N := 3.
Definition X86_64_VIRTIO_BLK_MSI_VECTOR : N := 44.
Definition X86_64_VIRTIO_NET_MSI_VECTOR : N := 45.
Definition PCI_INTERRUPT_PIN_OFFSET : N := 60.
Definition QEMU_VIRT_PCIE_IRQ_SPI_BASE : N := 3.

Definition msi_vector_for_kind (kind : PeripheralKind) : N :=
  match kind with
  | Block => X86_64_VIRTIO_BLK_MSI_VECTOR
  | Network => X86_64_VIRTIO_NET_MSI_VECTOR
  | _ => X86_64_VIRTIO_NET_MSI_VECTOR + 1
  end.

Definition classify_virtio_pci_device (header : PciDeviceHeader) : PeripheralKind :=
  if (class_code header =? PCI_CLASS_MASS_STORAGE)%N then Block
  else if (class_code header =? PCI_CLASS_NETWORK)%N then Network
  else if (class_code header =? PCI_CLASS_DISPLAY)%N then GpuDevice else UnknownDevice.

(** The test of the vendor, and the classification. *)
Definition virtio_kind (header : PciDeviceHeader) : option PeripheralKind :=
  if (vendor_id header =? VIRTIO_PCI_VENDOR_ID)%N then Some (classify_virtio_pci_device header) else None.

Section virtio.
Context {D : Type} (B : Bus D) (ecam_base : N).
#[local] Existing Instance ecam.

Definition resolve_pci_intx_irq (b : Bdf) : P D N :=
  dword ← ecam_read_u32 B ecam_base b PCI_INTERRUPT_PIN_OFFSET;
  let interrupt_pin := N.land (N.shiftr dword 8) 255 in
  if (interrupt_pin =? 0)%N then mret 0%N else
  let pin0 := (interrupt_pin - 1)%N in
  let swizzled := ((device b + pin0) mod 4)%N in
  let spi := (QEMU_VIRT_PCIE_IRQ_SPI_BASE + swizzled)%N in
  mret (32 + spi)%N.

(** The entry of a device; [irq] is what the machine assigns to it. *)
Definition virtio_entry (irq : Bdf → PeripheralKind → P D N) (b : Bdf) (_ : PciDeviceHeader) (kind : PeripheralKind)
    : P D PeripheralDeviceRaw :=
  bar0 ← @probe_bar0 D (ecam B ecam_base) b;
  let '(base, size) := default (0, 0)%N bar0 in
  config ← unwrap (checked_add U64 ecam_base (ecam_offset b));
  line ← irq b kind;
  mret (peripheral_new_pci kind base size line config).

(** [PeripheralDiscovery::new]: the scan, and [d.device_index = i]. *)
Definition pci_peripherals (irq : Bdf → PeripheralKind → P D N) : P D (list PeripheralDeviceRaw * nat) :=
  '(ds, count) ← @bus_scan D (ecam B ecam_base) _ _ MAX_PERIPHERAL_DEVICES PeripheralDeviceRaw_ZERO virtio_kind
                   (virtio_entry irq);
  mret (imap (λ i d, if i <? count then with_peripheral_index (N.of_nat i) d else d) ds, count).

Definition x86_peripherals : P D (list PeripheralDeviceRaw * nat) :=
  pci_peripherals (λ _ kind, mret (msi_vector_for_kind kind)).

Definition arm64_peripherals : P D (list PeripheralDeviceRaw * nat) :=
  pci_peripherals (λ b _, resolve_pci_intx_irq b).
End virtio.

(** ** Accelerators *)

Definition PCI_CLASS_DISPLAY_CONTROLLER : N := 3.
Definition PCI_CLASS_PROCESSING_ACCELERATOR : N := 18.
Definition KNOWN_NPU_TPU_VENDOR_IDS : list (N * ComputeKind) := [(6880%N, Tpu)].

Definition classify_pci_device (header : PciDeviceHeader) : option ComputeKind :=
  if (class_code header =? PCI_CLASS_DISPLAY_CONTROLLER)%N then Some Gpu
  else if (class_code header =? PCI_CLASS_PROCESSING_ACCELERATOR)%N then Some Npu
  else snd <$> List.find (λ e, (vendor_id header =? e.1)%N) KNOWN_NPU_TPU_VENDOR_IDS.

Inductive RescanError := TooManyComputeDevices.

Section compute.
Context {D : Type} {A : ConfigAccess D}.

Definition compute_entry (b : Bdf) (header : PciDeviceHeader) (kind : ComputeKind) : P D ComputeDeviceRaw :=
  dedicated ← probe_bar_size b 0;
  let z := ComputeDeviceRaw_ZERO in
  mret (mkComputeDevice kind (vendor_id header) (bool_decide (is_Some dedicated)) (default 0%N dedicated) false
          (bandwidth_to_cpu_mbps z) (short_name z) (short_name_len z) (cdr_device_index z)).

(** [ComputeDiscovery::new] *)
Definition compute_discovery : P D (list ComputeDeviceRaw * nat) :=
  bus_scan MAX_COMPUTE_DEVICES ComputeDeviceRaw_ZERO classify_pci_device compute_entry.

(** [rescan]; [kind_filter] is not used.  The result is the new state of the discovery. *)
Definition rescan (kind_filter : option ComputeKind) : M D RescanError (list ComputeDeviceRaw * nat) :=
  fresh ← map_err (λ e : Empty_set, match e with end) compute_discovery;
  if MAX_COMPUTE_DEVICES <? fresh.2 then throw TooManyComputeDevices else mret fresh.
End compute.

Definition enumerate_compute_devices (p : list ComputeDeviceRaw * nat) : list ComputeDeviceRaw := take p.2 p.1.

Definition compute_device_by_index (p : list ComputeDeviceRaw * nat) (i : N) : option ComputeDeviceRaw :=
  snd <$> list_find (λ d, cdr_device_index d = i) (enumerate_compute_devices p).

(** ** The functions of a machine

    In the order of their addresses: function 0 of every device that is present, and the
    others if its header says that there are more. *)

Definition multifunction (f : PciFunction) : bool := N.testbit (header_type (header_of f)) 7.

Definition present (c : Config) (b : Bdf) : bool := negb (is_none (c !! ecam_offset b)).

Definition functions_of (c : Config) (bus device : N) : list Bdf :=
  match c !! ecam_offset (mkBdf bus device 0) with
  | None => []
  | Some f =>
      if multifunction f then List.filter (present c) (mkBdf bus device <$> indices_to 8)
      else [mkBdf bus device 0]
  end.

Definition machine_functions (c : Config) : list Bdf :=
  flat_map (λ bus, flat_map (functions_of c bus) (indices_to 32)) (indices_to 256).

Lemma indices_to_lt n x : x ∈ indices_to n → (x < N.of_nat n)%N.
Proof. intros Hx. apply list_elem_of_fmap in Hx as (i & -> & Hi). apply elem_of_seq in Hi. lia. Qed.

Lemma omap_flat_map {X Y Z} (f : Y → option Z) (g : X → list Y) l :
  omap f (flat_map g l) = flat_map (λ x, omap f (g x)) l.
Proof. induction l as [|x l IH]; [done|]. cbn [flat_map]. by rewrite omap_app, IH. Qed.

Section walks.
Context {D : Type} {A : ConfigAccess D} (config_of : D → Config) {CS : ConfigSpec A config_of}.
Context {K T : Type} (MAX : nat) (ZERO : T) (classify : PciDeviceHeader → option K).
Context (entry : Bdf → PciDeviceHeader → K → P D T) (found : Bdf → PciFunction → K → T) (c : Config).
Hypothesis Hc : config_ok c.
Hypothesis Hentry : ∀ b f kind, bdf_ok b → c !! ecam_offset b = Some f → classify (header_of f) = Some kind →
  yields config_of c (entry b (header_of f) kind) (found b f kind) c.

Definition found_at (b : Bdf) : option T :=
  f ← c !! ecam_offset b; kind ← classify (header_of f); Some (found b f kind).

Definition slots_of (a : list T) : list T * nat := (a ++ replicate (MAX - length a) ZERO, length a).

(** A part of the loops that adds [l], as far as it fits. *)
Definition walks (body : list T * nat → P D (bool * (list T * nat))) (l : list T) : Prop := ∀ a,
  length a ≤ MAX →
  yields config_of c (body (slots_of a)) (MAX <? length (a ++ l), slots_of (take MAX (a ++ l))) c.

Lemma scan_while_walks {X} (body : X → list T * nat → P D (bool * (list T * nat))) (g : X → list T) l :
  (∀ x, x ∈ l → walks (body x) (g x)) → walks (scan_while body l) (flat_map g l).
Proof using.
  induction l as [|x l IH]; intros Hl a Ha; cbn [scan_while flat_map].
  - rewrite app_nil_r, take_ge, (proj2 (Nat.ltb_ge _ _)) by done. apply yields_ret.
  - eapply yields_bind; [apply Hl; [left|done]|]. cbv beta iota. destruct (Nat.ltb_spec MAX (length (a ++ g x))) as [Hx|Hx].
    + rewrite app_assoc, (take_app_le (a ++ g x)) by lia. rewrite length_app, (proj2 (Nat.ltb_lt _ _)) by lia. apply yields_ret.
    + rewrite take_ge by done. rewrite app_assoc. apply IH; [|done]. intros y Hy. apply Hl. by right.
Qed.

Lemma slots_insert a e :
  length a < MAX →
  fst (slots_of a) !! length a = Some ZERO ∧
  (<[length a := e]> (fst (slots_of a)), S (length a)) = slots_of (a ++ [e]).
Proof using.
  intros Ha. unfold slots_of. cbn [fst]. destruct (MAX - length a) as [|n] eqn:Hn; [lia|].
  rewrite lookup_app_r, insert_app_r_alt, Nat.sub_diag, length_app, <- app_assoc by lia. cbn.
  split; [done|]. f_equal; [|lia]. do 3 f_equal. lia.
Qed.

Lemma scan_function_walks b :
  bdf_ok b → walks (scan_function MAX classify entry b) (option_list (found_at b)).
Proof using CS Hc Hentry.
  intros Hb a Ha. unfold scan_function. eapply yields_bind; [by apply read_header_spec|]. unfold found_at.
  assert (∀ s, yields config_of c (mret (false, slots_of s) : P D _) (MAX <? length (s ++ []), slots_of (take MAX (s ++ []))) c ∨ MAX < length s) as Hnone.
  { intros s. destruct (decide (MAX < length s)); [by right|left]. rewrite app_nil_r, take_ge, (proj2 (Nat.ltb_ge _ _)) by lia.
    apply yields_ret. }
  destruct (Hnone a) as [Hn|?]; [|lia]. clear Hnone.
  destruct (c !! ecam_offset b) as [f|] eqn:Hf; cbn [fmap option_fmap option_map mbind option_bind]; [|exact Hn].
  destruct (classify (header_of f)) as [kind|] eqn:Hk; cbn [mbind option_bind option_list]; [|exact Hn].
  cbn [slots_of snd]. destruct (Nat.leb_spec MAX (length a)).
  - rewrite length_app, take_app_le, take_ge by lia. rewrite (proj2 (Nat.ltb_lt _ _)) by (simpl; lia). apply yields_ret.
  - destruct (slots_insert a (found b f kind)) as [Hz He]; [done|].
    eapply yields_bind; [by apply Hentry|]. eapply yields_bind; [apply yields_unwrap, Hz|].
    cbn [option_list]. rewrite He, take_ge by (rewrite length_app; simpl; lia).
    rewrite length_app, (proj2 (Nat.ltb_ge _ _)) by (simpl; lia). apply yields_ret.
Qed.

Lemma scan_device_walks bus device :
  (bus < 256)%N → (device < 32)%N →
  walks (scan_device MAX classify entry bus device) (omap found_at (functions_of c bus device)).
Proof using CS Hc Hentry.
  intros Hb Hd a Ha. unfold scan_device, functions_of. eapply yields_bind; [by apply read_header_spec|].
  destruct (c !! ecam_offset (mkBdf bus device 0)) as [f|] eqn:Hf; cbn [fmap option_fmap option_map].
  2:{ cbn [omap list_omap]. rewrite app_nil_r, take_ge, (proj2 (Nat.ltb_ge _ _)) by done. apply yields_ret. }
  assert (negb (N.land (header_type (header_of f)) 128 =? 0)%N = multifunction f) as ->.
  { unfold multifunction. destruct (N.testbit _ 7) eqn:Ht.
    - apply negb_true_iff, N.eqb_neq. intros E.
      assert (N.testbit (N.land (header_type (header_of f)) 128) 7 = true) as Hn by (by rewrite N.land_spec, Ht). by rewrite E in Hn.
    - apply negb_false_iff, N.eqb_eq. apply N.bits_inj. intros i. change 128%N with (2 ^ 7)%N.
      rewrite N.land_spec, N.pow2_bits_eqb, N.bits_0. destruct (N.eqb_spec 7 i) as [<-|]; [by rewrite Ht|apply andb_false_r]. }
  set (n := if multifunction f then 8 else 1).
  assert (omap found_at (if multifunction f then List.filter (present c) (mkBdf bus device <$> indices_to 8) else [mkBdf bus device 0])
    = flat_map (λ fn, option_list (found_at (mkBdf bus device fn))) (indices_to n)) as ->.
  { unfold n. destruct (multifunction f).
    - generalize (indices_to 8). intros l. induction l as [|fn l IH]; [done|]. cbn [fmap list_fmap List.filter flat_map].
      unfold present at 1. destruct (c !! ecam_offset (mkBdf bus device fn)) as [g|] eqn:Hg; cbn [is_none negb omap list_omap].
      + rewrite IH. by destruct (found_at (mkBdf bus device fn)).
      + rewrite IH. unfold found_at at 2. by rewrite Hg.
    - cbn. by destruct (found_at _). }
  apply scan_while_walks; [|done]. intros fn Hfn. apply scan_function_walks. apply indices_to_lt in Hfn.
  split; [done..|]. unfold n in Hfn. cbn. destruct (multifunction f); lia.
Qed.

Lemma bus_scan_finds :
  yields config_of c (bus_scan MAX ZERO classify entry)
    (slots_of (take MAX (omap found_at (machine_functions c)))) c.
Proof using CS Hc Hentry.
  unfold bus_scan, machine_functions.
  assert (walks (scan_while (scan_bus MAX classify entry) (indices_to 256))
    (flat_map (λ bus, flat_map (λ device, omap found_at (functions_of c bus device)) (indices_to 32)) (indices_to 256))) as Hw.
  { apply scan_while_walks. intros bus Hbus%indices_to_lt. apply scan_while_walks. intros device Hdev%indices_to_lt.
    by apply scan_device_walks. }
  specialize (Hw [] ltac:(simpl; lia)). cbn [app] in Hw. unfold slots_of at 1 in Hw. rewrite Nat.sub_0_r in Hw.
  eapply yields_bind; [exact Hw|]. cbv beta iota. rewrite omap_flat_map.
  erewrite (flat_map_ext (λ bus, omap found_at _)); [apply yields_ret|]. intros bus. apply omap_flat_map.
Qed.
End walks.

(** ** What the scans report *)

(** The entries, numbered. *)
Definition numbered (l : list PeripheralDeviceRaw) : list PeripheralDeviceRaw :=
  imap (λ i d, with_peripheral_index (N.of_nat i) d) l.

Lemma numbered_index l i :
  snd <$> list_find (λ d, pdr_device_index d = i) (numbered l) = numbered l !! N.to_nat i.
Proof.
  unfold numbered. destruct (imap (λ j d, with_peripheral_index (N.of_nat j) d) l !! N.to_nat i) as [d|] eqn:Hd.
  - enough (list_find (λ d, pdr_device_index d = i) (imap (λ j d, with_peripheral_index (N.of_nat j) d) l) = Some (N.to_nat i, d)) as -> by done.
    pose proof Hd as Hi. rewrite list_lookup_imap in Hi. apply fmap_Some in Hi as (x & Hx & ->).
    apply list_find_Some. split_and!; [done|cbn; lia|].
    intros j y Hy Hj. rewrite list_lookup_imap in Hy. apply fmap_Some in Hy as (z & _ & ->). cbn. lia.
  - destruct (list_find _ _) as [[j d]|] eqn:Hf; [|done]. exfalso.
    apply list_find_Some in Hf as (Hj & Hi & _). pose proof Hj as Hx. rewrite list_lookup_imap in Hx.
    apply fmap_Some in Hx as (x & _ & ->). cbn in Hi. subst i. rewrite Nat2N.id in Hd. congruence.
Qed.

Lemma number_slots l k z :
  imap (λ i d, if i <? length l then with_peripheral_index (N.of_nat i) d else d) (l ++ replicate k z) =
  numbered l ++ replicate k z.
Proof.
  rewrite imap_app. f_equal.
  - apply imap_ext. intros i x Hi. apply lookup_lt_Some in Hi. by rewrite (proj2 (Nat.ltb_lt _ _)).
  - rewrite <- (list_fmap_id (replicate k z)) at 2. rewrite <- imap_const. apply imap_ext. intros i x _.
    unfold compose. by rewrite (proj2 (Nat.ltb_ge _ _)) by lia.
Qed.

Section reports.
Context {D : Type} (B : Bus D) (config_of : D → Config) (ecam_base : N) (c : Config) (bars : N → Bar).
Context {CS : ConfigSpec (ecam B ecam_base) config_of}.

(** The interrupt of a function on the arm64 machine: its pin, rotated by the device number. *)
Definition intx_of (b : Bdf) (f : PciFunction) : N :=
  let pin := N.land (N.shiftr (reg f 15) 8) 255 in
  if decide (pin = 0%N) then 0%N else (35 + (device b + (pin - 1)) mod 4)%N.

Definition virtio_device (irq : Bdf → PciFunction → PeripheralKind → N) (b : Bdf) (f : PciFunction)
    (kind : PeripheralKind) : PeripheralDeviceRaw :=
  let '(base, size) := default (0, 0)%N (reported (bars (ecam_offset b))) in
  peripheral_new_pci kind base size (irq b f kind) (ecam_base + ecam_offset b).

(** The virtio devices of the machine, as a scan reports them. *)
Definition virtio_devices (irq : Bdf → PciFunction → PeripheralKind → N) : list PeripheralDeviceRaw :=
  numbered (take MAX_PERIPHERAL_DEVICES (omap (found_at virtio_kind (virtio_device irq) c) (machine_functions c))).

(** A scan that reports [l], by position and by index, and leaves the machine as it was. *)
Definition reports (scan : P D (list PeripheralDeviceRaw * nat)) (l : list PeripheralDeviceRaw) : Prop :=
  ∀ d, config_of d = c → ∃ p d', scan d = (Ok p, d') ∧ config_of d' = c ∧
    enumerate_peripheral_devices p = l ∧ ∀ i, device_by_index p i = l !! N.to_nat i.

Hypothesis Hc : config_ok c.
Hypothesis Hbase : (ecam_base + 268435456 ≤ U64)%N.
Hypothesis Hbars : ∀ key f kind, c !! key = Some f → virtio_kind (header_of f) = Some kind → bar_at f 4 (bars key).

Lemma pci_peripherals_report irq irq_of :
  (∀ b f kind, bdf_ok b → c !! ecam_offset b = Some f → yields config_of c (irq b kind) (irq_of b f kind) c) →
  reports (pci_peripherals B ecam_base irq) (virtio_devices irq_of).
Proof using CS Hc Hbase Hbars.
  intros Hirq d Hd. unfold virtio_devices. set (l := omap _ _).
  assert (yields config_of c (pci_peripherals B ecam_base irq)
    (numbered (take MAX_PERIPHERAL_DEVICES l) ++ replicate (MAX_PERIPHERAL_DEVICES - length (take MAX_PERIPHERAL_DEVICES l)) PeripheralDeviceRaw_ZERO,
     length (take MAX_PERIPHERAL_DEVICES l)) c) as Hy.
  { unfold pci_peripherals. eapply yields_bind.
    - apply (bus_scan_finds config_of _ _ _ _ (virtio_device irq_of) c Hc). intros b f kind Hb Hf Hk.
      unfold virtio_entry, virtio_device. eapply yields_bind; [eapply probe_bar0_spec; eauto|].
      destruct (default (0, 0)%N (reported (bars (ecam_offset b)))) as [base size].
      eapply yields_bind; [|eapply yields_bind; [by apply Hirq|apply yields_ret]]. apply yields_unwrap, checked_add_lt.
      destruct (ecam_offset_aligned b Hb) as (n & -> & ?). lia.
    - fold l. unfold slots_of. cbv beta iota. rewrite number_slots. apply yields_ret. }
  destruct (Hy d Hd) as (d' & E & Hd'). eexists _, d'. split; [exact E|]. split_and!; [done|..].
  - unfold enumerate_peripheral_devices. cbn [fst snd]. apply take_app_length'. unfold numbered. by rewrite length_imap.
  - intros i. unfold device_by_index, enumerate_peripheral_devices. cbn [fst snd].
    rewrite take_app_length' by (unfold numbered; by rewrite length_imap). apply numbered_index.
Qed.

(** C26 Discovery of PCI devices: on any machine whose functions behave as the PCI
    specification says, the scan reports exactly the virtio functions in the order of
    their addresses, the first thirty-two of them, each with its kind, its first
    base address register, its interrupt and the address of its configuration space;
    a lookup by index finds the device at that position.  It does not panic, and
    every register has the value it had before: the sizing of the registers is undone. *)
Theorem pci_devices_found :
  reports (x86_peripherals B ecam_base) (virtio_devices (λ _ _ kind, msi_vector_for_kind kind)) ∧
  reports (arm64_peripherals B ecam_base) (virtio_devices (λ b f _, intx_of b f)).
Proof using CS Hc Hbase Hbars.
  split; apply pci_peripherals_report; intros b f kind Hb Hf; [apply yields_ret|].
  unfold resolve_pci_intx_irq, intx_of. eapply yields_bind; [by apply (cs_read (A := ecam B ecam_base))|].
  unfold read_reg. rewrite Hf. change (N.to_nat (PCI_INTERRUPT_PIN_OFFSET / 4)) with 15.
  case_decide as Hp; [rewrite (proj2 (N.eqb_eq _ _) Hp)|rewrite (proj2 (N.eqb_neq _ _) Hp)]; [apply yields_ret|].
  unfold QEMU_VIRT_PCIE_IRQ_SPI_BASE. rewrite N.add_assoc. apply yields_ret.
Qed.
End reports.

(** ** Accelerators *)

Section accelerators.
Context {D : Type} {A : ConfigAccess D} (config_of : D → Config) {CS : ConfigSpec A config_of}.
Context (c : Config) (bars : N → Bar).
Hypothesis Hc : config_ok c.
Hypothesis Hbars : ∀ key f kind, c !! key = Some f → classify_pci_device (header_of f) = Some kind → bar_at f 4 (bars key).

Definition accelerator (b : Bdf) (f : PciFunction) (kind : ComputeKind) : ComputeDeviceRaw :=
  let memory := snd <$> reported (bars (ecam_offset b)) in
  let z := ComputeDeviceRaw_ZERO in
  mkComputeDevice kind (vendor_id (header_of f)) (bool_decide (is_Some memory)) (default 0%N memory) false
    (bandwidth_to_cpu_mbps z) (short_name z) (short_name_len z) (cdr_device_index z).

Definition accelerators : list ComputeDeviceRaw :=
  take MAX_COMPUTE_DEVICES (omap (found_at classify_pci_device accelerator c) (machine_functions c)).

(** The same of accelerators, for each of the ways to reach the registers. *)
Lemma accelerators_found :
  ∀ d, config_of d = c → ∃ p d', compute_discovery d = (Ok p, d') ∧ config_of d' = c ∧
    enumerate_compute_devices p = accelerators ∧ ∀ filter, rescan filter d = (Ok p, d').
Proof using CS Hc Hbars.
  intros d Hd. assert (yields config_of c compute_discovery
    (slots_of MAX_COMPUTE_DEVICES ComputeDeviceRaw_ZERO accelerators) c) as Hy.
  { apply (bus_scan_finds config_of _ _ _ _ accelerator c Hc). intros b f kind Hb Hf Hk.
    unfold compute_entry, accelerator. eapply yields_bind; [eapply probe_bar_size_spec; eauto|]. apply yields_ret. }
  destruct (Hy d Hd) as (d' & E & Hd'). eexists _, d'. split; [exact E|]. split_and!; [done|..].
  - by apply take_app_length.
  - intros filter. unfold rescan. rewrite run_bind. unfold map_err. rewrite E. cbn [slots_of snd].
    rewrite (proj2 (Nat.ltb_ge _ _)); [done|]. unfold accelerators. rewrite length_take. lia.
Qed.

(** The discovery does not number its devices: every one has index 0, and a lookup finds
    the first or none. *)
Lemma compute_index_lost p d d' i :
  config_of d = c → compute_discovery d = (Ok p, d') → i ≠ 0%N → compute_device_by_index p i = None.
Proof using CS Hc Hbars.
  intros Hd E Hi. destruct (accelerators_found d Hd) as (p' & d1 & E' & _ & Hp & _).
  rewrite E in E'. injection E' as <- <-. unfold compute_device_by_index. rewrite Hp.
  destruct (list_find _ accelerators) as [[j x]|] eqn:Hf; [|done]. exfalso.
  apply list_find_Some in Hf as (Hj & Hx & _). unfold accelerators in Hj. apply lookup_take_Some in Hj as [Hj _].
  apply list_elem_of_lookup_2, list_elem_of_omap in Hj as (b & _ & Hb). unfold found_at in Hb.
  destruct (c !! ecam_offset b) as [f|]; [|done]. cbn in Hb. destruct (classify_pci_device _); [|done].
  injection Hb as <-. done.
Qed.
End accelerators.

(** The class is tested before the list of known vendors. *)
Lemma class_before_vendor header :
  vendor_id header = 6880%N → class_code header = PCI_CLASS_PROCESSING_ACCELERATOR →
  classify_pci_device header = Some Npu.
Proof. intros _ E. unfold classify_pci_device. by rewrite E. Qed.

(** ** A machine with a host bridge, a disk and a card of two functions *)

Definition sample_function (vendor class header bar0 mask0 pin : N) : PciFunction :=
  mkPciFunction
    ([vendor + 65536 * 4161; 0; class * 16777216; header * 65536; bar0] ++ replicate 10 0 ++ [pin * 256] ++ replicate 48 0)%N
    ([0; 0; 0; 0; mask0] ++ replicate 59 0)%N.

Definition host_bridge : PciFunction := sample_function 32902 6 0 0 0 0.
Definition disk : PciFunction := sample_function 6900 1 0 4273803264 4294963200 1.
Definition card0 : PciFunction := sample_function 6900 2 128 49217 0 1.
Definition card1 : PciFunction := sample_function 6900 3 128 4273807372 0 2.

(** Device 1 is the disk, device 2 the card, whose second function has eight gigabytes. *)
Definition machine0 : Config :=
  <[0%N := host_bridge]> (<[32768%N := disk]> (<[65536%N := card0]> {[ 69632%N := mkPciFunction (<[5:=2%N]> (<[4:=12%N]> (regs card1))) (<[5:=4294967294%N]> (writable card1)) ]})).

Definition bars0 (key : N) : Bar :=
  if decide (key = 32768%N) then MemBar false false 4273803264 4096
  else if decide (key = 65536%N) then IoBar
  else if decide (key = 69632%N) then MemBar true true 8589934592 8589934592
  else NoBar.

Definition ECAM0 : N := 2952790016.

Lemma machine0_ok : config_ok machine0.
Proof.
  unfold machine0. repeat (apply map_Forall_insert_2; [split; [done|by repeat constructor|done]|]).
  apply map_Forall_empty.
Qed.

Lemma bars0_ok key f kind :
  machine0 !! key = Some f → virtio_kind (header_of f) = Some kind → bar_at f 4 (bars0 key).
Proof.
  unfold machine0. intros Hf _.
  apply lookup_insert_Some in Hf as [[<- <-]|[_ Hf]]; [by split|].
  apply lookup_insert_Some in Hf as [[<- <-]|[_ Hf]]; [exists 12%N; by split|].
  apply lookup_insert_Some in Hf as [[<- <-]|[_ Hf]]; [done|].
  apply lookup_singleton_Some in Hf as [<- <-]. exists 33%N. by split.
Qed.

Lemma ECAM0_ok : (ECAM0 + 268435456 < U64)%N.
Proof. done. Qed.

Lemma pci_devices_found_witness :
  let x86 := x86_peripherals (ecam_bus ECAM0) ECAM0 machine0 in
  let arm64 := arm64_peripherals (ecam_bus ECAM0) ECAM0 machine0 in
  (∃ p, x86 = (Ok p, machine0) ∧ enumerate_peripheral_devices p =
     [mkPeripheral Block 4273803264 4096 44 0 (ECAM0 + 32768); mkPeripheral Network 0 0 45 1 (ECAM0 + 65536);
      mkPeripheral GpuDevice 0 4294967296 46 2 (ECAM0 + 69632)]%N) ∧
  (∃ p, arm64 = (Ok p, machine0) ∧ irq <$> enumerate_peripheral_devices p = [36; 37; 38]%N).
Proof.
  pose proof (@ecam_access ECAM0 ECAM0_ok) as CS.
  destruct (pci_devices_found (ecam_bus ECAM0) (λ c, c) ECAM0 machine0 bars0 machine0_ok
    ltac:(by apply N.lt_le_incl, ECAM0_ok) bars0_ok) as [Hx Ha].
  destruct (Hx machine0 eq_refl) as (p & d & E & -> & Hp & _), (Ha machine0 eq_refl) as (q & e & F & -> & Hq & _).
  split; [exists p|exists q]; (split; [done|]).
  - rewrite Hp. by vm_compute.
  - rewrite Hq. by vm_compute.
Defined.
