(* ===== verification/PciTransport.v ===== *)
(** * Wiring a PCI device to its driver

    [kernel/kernel-arch-glue/src/lib.rs], from [pci_cfg_read8] to
    [wire_virtio_pci_transport_net]: sizing any base address register, walking the
    capability list, mapping the register windows into the driver's process, enabling
    MSI-X, and the block of addresses that the driver reads.

    The kernel reaches a device through its own page table: an access to a virtual
    address is one to the physical address that the last mapping of it gives, and stops
    the program where there is none.  The machine behind the physical addresses is a
    [Bus].  Translations are not cached, so [flush_tlb] has no counterpart. *)

From stdpp Require Import gmap.
From S2P Require Import Prelude PhysMem Capability Kernel Syscall Spawn ElfSpawn Virtio PciConfig.
From S2P Require VirtioBlk VirtioNet.

Definition PCI_CAP_POINTER_OFFSET : N := 52.
Definition PCI_COMMAND_OFFSET : N := 4.
Definition PCI_COMMAND_MEMORY_SPACE : N := 2.
Definition PCI_COMMAND_BUS_MASTER : N := 4.
Definition PCI_CAP_ID_VENDOR_SPECIFIC : N := 9.
Definition VIRTIO_PCI_CAP_COMMON_CFG : N := 1.
Definition VIRTIO_PCI_CAP_NOTIFY_CFG : N := 2.
Definition VIRTIO_PCI_CAP_ISR_CFG : N := 3.
Definition VIRTIO_PCI_CAP_DEVICE_CFG : N := 4.
Definition DRV_PCI_BAR_VA_BASE : N := 3628072960.
Definition DRV_PCI_BAR_VA_STRIDE : N := 1048576.
Definition DRV_PCI_MAX_BARS : nat := 4.
Definition KERNEL_PCI_CFG_VA : N := 3623878656.
Definition KERNEL_MSIX_BAR_VA : N := 3624927232.
Definition KERNEL_MSIX_COMMON_VA : N := 3624992768.
Definition VIRTIO_PCI_COMMON_QUEUE_SELECT : N := 22.
Definition VIRTIO_PCI_COMMON_QUEUE_MSIX_VECTOR : N := 26.
Definition PCI_CAP_ID_MSIX : N := 17.
Definition MSIX_TABLE_OFFSET_BIR : N := 4.
Definition MSIX_ENABLE_BIT : N := 2147483648.

Record VirtioPciCapWindow := mkWindow { win_bar : N; win_offset : N }.
Record MsixLocation := mkMsix { cap_ptr : N; msix_bar : N; table_offset : N }.

Record VirtioPciCapLayout := mkLayout {
  common : option VirtioPciCapWindow;
  notify : option VirtioPciCapWindow;
  notify_off_multiplier : N;
  isr : option VirtioPciCapWindow;
  device_cfg : option VirtioPciCapWindow;
  msix : option MsixLocation;
}.

Definition default_layout : VirtioPciCapLayout := mkLayout None None 0 None None None.

Definition set_common w l := mkLayout (Some w) (notify l) (notify_off_multiplier l) (isr l) (device_cfg l) (msix l).
Definition set_notify w mult l := mkLayout (common l) (Some w) mult (isr l) (device_cfg l) (msix l).
Definition set_isr w l := mkLayout (common l) (notify l) (notify_off_multiplier l) (Some w) (device_cfg l) (msix l).
Definition set_device w l := mkLayout (common l) (notify l) (notify_off_multiplier l) (isr l) (Some w) (msix l).
Definition set_msix m l := mkLayout (common l) (notify l) (notify_off_multiplier l) (isr l) (device_cfg l) (Some m).

(** The variables [G_DRV_ISR_CFG_VA], and [G_DRV_NET_ISR_CFG_VA] to
    [G_DRV_NET_NOTIFY_OFF_MULT]. *)
Record Statics := mkStatics {
  drv_isr_cfg_va : N;
  net_isr_cfg_va : N;
  net_isr_cfg_phys : N;
  net_notify_phys : N;
  net_notify_va : N;
  net_notify_off_mult : N;
}.

Record Wiring (D : Type) := mkWiring {
  wi_kernel : KernelState;
  wi_mem : N → N;
  wi_maps : list Mapped;
  wi_dev : D;
  wi_statics : Statics;
}.
Arguments mkWiring {D}. Arguments wi_kernel {D}. Arguments wi_mem {D}. Arguments wi_maps {D}.
Arguments wi_dev {D}. Arguments wi_statics {D}.

(** [va] in the address space of [root]: the last mapping counts. *)
Definition covers (root va : N) (m : Mapped) : bool :=
  (mp_root m =? root)%N && (mp_vaddr m <=? va)%N && (va <? mp_vaddr m + mp_len m)%N.

Definition translate (maps : list Mapped) (root va : N) : option N :=
  m ← List.find (covers root va) (rev maps); Some (mp_paddr m + (va - mp_vaddr m))%N.

Section wire.
Context {D E : Type} (B : Bus D) (hal : HalInterface) (msi_message : N → option (N * N)).
Context (drv_root_pt caller_root_pt : N).

Abbreviation W := (M (Wiring D) E) (only parsing).

Definition in_kernel {A} : M KernelState E A → W A :=
  zoom wi_kernel (λ k w, mkWiring k (wi_mem w) (wi_maps w) (wi_dev w) (wi_statics w)).
Definition on_bus {A} : M D E A → W A :=
  zoom wi_dev (λ d w, mkWiring (wi_kernel w) (wi_mem w) (wi_maps w) d (wi_statics w)).
Definition write_mem (f : (N → N) → N → N) : W unit :=
  modify (λ w, mkWiring (wi_kernel w) (f (wi_mem w)) (wi_maps w) (wi_dev w) (wi_statics w)).
Definition add_mapping (m : Mapped) : W unit :=
  modify (λ w, mkWiring (wi_kernel w) (wi_mem w) (wi_maps w ++ [m]) (wi_dev w) (wi_statics w)).
Definition set_statics (f : Statics → Statics) : W unit :=
  modify (λ w, mkWiring (wi_kernel w) (wi_mem w) (wi_maps w) (wi_dev w) (f (wi_statics w))).

(** Volatile accesses of the kernel, under its own page table. *)
Definition kernel_load (width : Width) (base off : N) : W N :=
  va ← unwrap (checked_add U64 base off);
  maps ← gets wi_maps;
  pa ← unwrap (translate maps caller_root_pt va);
  on_bus (read_volatile B width pa).

Definition kernel_store (width : Width) (base off v : N) : W unit :=
  va ← unwrap (checked_add U64 base off);
  maps ← gets wi_maps;
  pa ← unwrap (translate maps caller_root_pt va);
  on_bus (write_volatile B width pa v).

Definition pci_cfg_read8 : N → N → W N := kernel_load W8.
Definition pci_cfg_read32 : N → N → W N := kernel_load W32.
Definition pci_cfg_write32 : N → N → N → W unit := kernel_store W32.

(** ** Base address registers *)

Definition pci_bar_phys (config_phys bar_index : N) : W (option (N * N)) :=
  let bar_off := (16 + bar_index * 4)%N in
  bar_lo ← pci_cfg_read32 config_phys bar_off;
  if negb (N.land bar_lo 1 =? 0)%N then mret None else
  let is_64bit := (N.land (N.shiftr bar_lo 1) 3 =? 2)%N in
  _ ← pci_cfg_write32 config_phys bar_off 4294967295;
  size_lo ← pci_cfg_read32 config_phys bar_off;
  _ ← pci_cfg_write32 config_phys bar_off bar_lo;
  let base_lo := N.land bar_lo 4294967280 in
  if negb is_64bit then
    if (size_lo =? 0)%N then mret None else
    size ← unwrap (checked_add U64 (u32_not (N.land size_lo 4294967280)) 1);
    mret (Some (base_lo, size))
  else
    let bar_hi_off := (bar_off + 4)%N in
    bar_hi ← pci_cfg_read32 config_phys bar_hi_off;
    _ ← pci_cfg_write32 config_phys bar_hi_off 4294967295;
    size_hi ← pci_cfg_read32 config_phys bar_hi_off;
    _ ← pci_cfg_write32 config_phys bar_hi_off bar_hi;
    let base := N.lor base_lo (N.shiftl bar_hi 32) in
    let size_mask := N.lor (N.shiftl size_hi 32) (N.land size_lo 4294967280) in
    if (size_mask =? 0)%N then mret None else
    size ← unwrap (checked_add U64 (u64_not size_mask) 1);
    mret (Some (base, size)).

(** ** The capability list *)

(** The body of the loop, with a capability at [ptr]. *)
Definition note_capability (config_phys ptr cap_id : N) (layout : VirtioPciCapLayout) : W VirtioPciCapLayout :=
  if (cap_id =? PCI_CAP_ID_VENDOR_SPECIFIC)%N then
    cfg_type ← pci_cfg_read8 config_phys (ptr + 3);
    bar ← pci_cfg_read8 config_phys (ptr + 4);
    offset ← pci_cfg_read32 config_phys (ptr + 8);
    let window := mkWindow bar offset in
    if (cfg_type =? VIRTIO_PCI_CAP_COMMON_CFG)%N then mret (set_common window layout)
    else if (cfg_type =? VIRTIO_PCI_CAP_NOTIFY_CFG)%N then
      mult ← pci_cfg_read32 config_phys (ptr + 16); mret (set_notify window mult layout)
    else if (cfg_type =? VIRTIO_PCI_CAP_ISR_CFG)%N then mret (set_isr window layout)
    else if (cfg_type =? VIRTIO_PCI_CAP_DEVICE_CFG)%N then mret (set_device window layout)
    else mret layout
  else if (cap_id =? PCI_CAP_ID_MSIX)%N then
    bir_dword ← pci_cfg_read32 config_phys (ptr + MSIX_TABLE_OFFSET_BIR);
    mret (set_msix (mkMsix ptr (N.land bir_dword 7) (N.ldiff bir_dword 7)) layout)
  else mret layout.

(** [for _ in 0..n] *)
Fixpoint walk_capabilities (n : nat) (config_phys ptr : N) (layout : VirtioPciCapLayout) : W VirtioPciCapLayout :=
  match n with
  | 0 => mret layout
  | S n =>
      if (ptr =? 0)%N then mret layout else
      cap_id ← pci_cfg_read8 config_phys ptr;
      cap_next ← pci_cfg_read8 config_phys (ptr + 1);
      layout ← note_capability config_phys ptr cap_id layout;
      walk_capabilities n config_phys cap_next layout
  end.

Definition walk_virtio_pci_capabilities (config_phys : N) : W VirtioPciCapLayout :=
  ptr ← pci_cfg_read8 config_phys PCI_CAP_POINTER_OFFSET;
  walk_capabilities 48 config_phys ptr default_layout.

(** ** Mapping windows *)

(** [map_range], with the pool's [pages]. *)
Definition map_window (root va pa len perm pool pages : N) : W bool :=
  let n := hal_map_range hal root va pa len perm pool pages in
  if (n =? id_max)%N then mret false else
  _ ← add_mapping (mkMapped root va pa len perm);
  mret true.

(** [div_ceil(4096) * 4096] *)
Definition page_len (size : N) : option N := checked_mul U64 ((size + 4095) / 4096) 4096.

(** A zeroed pool of untyped memory. *)
Definition zeroed_pool (bytes : N) : W (option N) :=
  and_then (in_kernel (carve bytes)) (λ pool,
  _ ← write_mem (write_zeros pool bytes);
  mret (Some pool)).

(** [mapped[..mapped_count]]; the result has the new one as well. *)
Definition map_pci_bar (config_phys bar_index : N) (mapped : list (N * N)) : W (option (N * list (N * N))) :=
  match List.find (λ e, (e.1 =? bar_index)%N) mapped with
  | Some (_, va) => mret (Some (va, mapped))
  | None =>
      if DRV_PCI_MAX_BARS <=? length mapped then mret None else
      and_then (pci_bar_phys config_phys bar_index) (λ '(bar_phys, bar_size),
      map_len ← unwrap (page_len bar_size);
      if (map_len =? 0)%N || (DRV_PCI_BAR_VA_STRIDE <? map_len)%N then mret None else
      let va := (DRV_PCI_BAR_VA_BASE + N.of_nat (length mapped) * DRV_PCI_BAR_VA_STRIDE)%N in
      let pages_needed := (map_len / 4096)%N in
      let pool_pages := (2 + (pages_needed + 511) / 512)%N in
      and_then (zeroed_pool (4096 * pool_pages)) (λ pool,
      ok ← map_window drv_root_pt va bar_phys map_len 11 pool pool_pages;
      if ok : bool then mret (Some (va, mapped ++ [(bar_index, va)])) else mret None))
  end.

(** A window of the kernel, for the whole of a register. *)
Definition map_kernel_bar (config_va bar_index va : N) : W (option unit) :=
  and_then (zeroed_pool (4096 * 2)) (λ pool,
  and_then (pci_bar_phys config_va bar_index) (λ '(bar_phys, bar_size),
  map_len ← unwrap (page_len bar_size);
  ok ← map_window caller_root_pt va bar_phys map_len 3 pool 2;
  if ok : bool then mret (Some tt) else mret None)).

Definition enable_and_program_msix (config_va : N) (m : MsixLocation) (common : VirtioPciCapWindow)
    (message : N * N) : W (option unit) :=
  and_then (map_kernel_bar config_va (msix_bar m) KERNEL_MSIX_BAR_VA) (λ _,
  let table_va := (KERNEL_MSIX_BAR_VA + table_offset m)%N in
  let '(addr, data) := message in
  _ ← kernel_store W32 table_va 0 (truncate U32 addr);
  _ ← kernel_store W32 table_va 4 (truncate U32 (N.shiftr addr 32));
  _ ← kernel_store W32 table_va 8 data;
  _ ← kernel_store W32 table_va 12 0;
  ctrl_dword ← pci_cfg_read32 config_va (cap_ptr m);
  _ ← pci_cfg_write32 config_va (cap_ptr m) (N.lor ctrl_dword MSIX_ENABLE_BIT);
  and_then (map_kernel_bar config_va (win_bar common) KERNEL_MSIX_COMMON_VA) (λ _,
  let common_cfg_kernel_va := (KERNEL_MSIX_COMMON_VA + win_offset common)%N in
  _ ← kernel_store W16 common_cfg_kernel_va VIRTIO_PCI_COMMON_QUEUE_SELECT 0;
  _ ← kernel_store W16 common_cfg_kernel_va VIRTIO_PCI_COMMON_QUEUE_MSIX_VECTOR 0;
  mret (Some tt))).

(** The closure [resolve]; 0 where there is no window. *)
Definition resolve (config_va : N) (window : option VirtioPciCapWindow) (mapped : list (N * N))
    : W (N * list (N * N)) :=
  match window with
  | None => mret (0%N, mapped)
  | Some w =>
      base ← map_pci_bar config_va (win_bar w) mapped;
      match base with
      | Some (va, mapped) => mret ((va + win_offset w)%N, mapped)
      | None => mret (0%N, mapped)
      end
  end.

(** What the two functions below have in common: the result has the capabilities, the four
    addresses and the vector. *)
Record Windows := mkWindows {
  w_caps : VirtioPciCapLayout;
  common_cfg_va : N;
  notify_cfg_va : N;
  isr_cfg_va : N;
  device_cfg_va : N;
  msix_vector : N;
}.

(** Mapping the configuration space, and switching the device on. *)
Definition open_config_space (config_phys : N) : W (option unit) :=
  and_then (zeroed_pool (4096 * 2)) (λ cfg_pool,
  ok ← map_window caller_root_pt KERNEL_PCI_CFG_VA config_phys 4096 3 cfg_pool 2;
  if negb ok then mret None else
  cmd_status ← pci_cfg_read32 KERNEL_PCI_CFG_VA PCI_COMMAND_OFFSET;
  _ ← pci_cfg_write32 KERNEL_PCI_CFG_VA PCI_COMMAND_OFFSET
        (N.lor (N.lor cmd_status PCI_COMMAND_MEMORY_SPACE) PCI_COMMAND_BUS_MASTER);
  mret (Some tt)).

(** MSI-X, where the device and the interrupt controller have it. *)
Definition select_vector (caps : VirtioPciCapLayout) (common : VirtioPciCapWindow) (irq : N) : W (option N) :=
  match msix caps, msi_message irq with
  | Some m, Some message =>
      and_then (enable_and_program_msix KERNEL_PCI_CFG_VA m common message) (λ _, mret (Some 0%N))
  | _, _ => mret (Some VIRTIO_MSI_NO_VECTOR)
  end.

Definition wire_windows (config_phys irq : N) : W (option Windows) :=
  and_then (open_config_space config_phys) (λ _,
  caps ← walk_virtio_pci_capabilities KERNEL_PCI_CFG_VA;
  match common caps with
  | None => mret None
  | Some c =>
      and_then (map_pci_bar KERNEL_PCI_CFG_VA (win_bar c) []) (λ '(common_va, mapped),
      let common_cfg_va := (common_va + win_offset c)%N in
      '(notify_va, mapped) ← resolve KERNEL_PCI_CFG_VA (notify caps) mapped;
      '(isr_va, mapped) ← resolve KERNEL_PCI_CFG_VA (isr caps) mapped;
      '(device_va, mapped) ← resolve KERNEL_PCI_CFG_VA (device_cfg caps) mapped;
      and_then (select_vector caps c irq) (λ vector,
      mret (Some (mkWindows caps common_cfg_va notify_va isr_va device_va vector))))
  end).

(** The seven words of the header block. *)
Definition write_header (header : N) (w : Windows) : W unit :=
  let put off v := a ← unwrap (checked_add U64 header off); write_mem (λ m, wr m a 8 v) in
  _ ← put 0%N 1%N;
  _ ← put 8%N (common_cfg_va w);
  _ ← put 16%N (notify_cfg_va w);
  _ ← put 24%N (notify_off_multiplier (w_caps w));
  _ ← put 32%N (isr_cfg_va w);
  _ ← put 40%N (device_cfg_va w);
  put 48%N (msix_vector w).

Definition wire_virtio_pci_transport (config_phys region_phys irq : N) : W (option unit) :=
  and_then (wire_windows config_phys irq) (λ w,
  _ ← set_statics (λ g, mkStatics (isr_cfg_va w) (net_isr_cfg_va g) (net_isr_cfg_phys g) (net_notify_phys g)
                          (net_notify_va g) (net_notify_off_mult g));
  header ← unwrap (checked_add U64 region_phys VirtioBlk.layout.PCI_INFO_OFFSET);
  _ ← write_header header w;
  mret (Some tt)).

(** The physical address of a window, or [usize::MAX]. *)
Definition window_phys (window : option VirtioPciCapWindow) : W N :=
  match window with
  | None => mret (U64 - 1)%N
  | Some w =>
      bar ← pci_bar_phys KERNEL_PCI_CFG_VA (win_bar w);
      match bar with
      | None => mret (U64 - 1)%N
      | Some (base, _) => unwrap (checked_add U64 base (win_offset w))
      end
  end.

Definition wire_virtio_pci_transport_net (config_phys region_phys irq : N) : W (option unit) :=
  and_then (wire_windows config_phys irq) (λ w,
  _ ← set_statics (λ g, mkStatics (drv_isr_cfg_va g) (isr_cfg_va w) (net_isr_cfg_phys g) (net_notify_phys g)
                          (net_notify_va g) (net_notify_off_mult g));
  isr_cfg_phys ← window_phys (isr (w_caps w));
  notify_cfg_phys ← window_phys (notify (w_caps w));
  _ ← set_statics (λ g, mkStatics (drv_isr_cfg_va g) (net_isr_cfg_va g) isr_cfg_phys notify_cfg_phys (notify_cfg_va w)
                          (notify_off_multiplier (w_caps w)));
  header ← unwrap (checked_add U64 region_phys VirtioNet.layout.PCI_INFO_OFFSET);
  _ ← write_header header w;
  mret (Some tt)).
End wire.
