(* ===== verification/PciWindows.v ===== *)
(** * The register windows of a PCI device

    What [PciTransport] does to a device that follows the PCI and virtio
    specifications, and what its driver finds. *)

From stdpp Require Import gmap.
From S2P Require Import Prelude PhysMem Capability Kernel Syscall KernelInv Spawn ElfSpawn.
From S2P Require Import Virtio PciConfig PciTransport.
From S2P Require VirtioBlk VirtioNet.

(** ** The device *)

(** Byte and dword [off] of the configuration space. *)
Definition dword (f : PciFunction) (off : N) : N := reg f (N.to_nat (off / 4)).
Definition byte (f : PciFunction) (off : N) : N := (N.shiftr (dword f off) (8 * (off mod 4)) mod 256)%N.

(** A machine with the function's configuration space at [config_phys]: accesses there
    are accesses to its registers, and others leave these alone. *)
Class PciDevice {D} (B : Bus D) (config_phys : N) (fn_of : D → PciFunction) : Prop := {
  pd_read off d : offset_ok off →
    truncate (width_mod W32) (bus_load B W32 (config_phys + off) d).1 = dword (fn_of d) off ∧
    fn_of (bus_load B W32 (config_phys + off) d).2 = fn_of d;
  pd_read8 off d : (off < 256)%N →
    truncate (width_mod W8) (bus_load B W8 (config_phys + off) d).1 = byte (fn_of d) off ∧
    fn_of (bus_load B W8 (config_phys + off) d).2 = fn_of d;
  pd_write off v d : offset_ok off →
    fn_of (bus_store B W32 (config_phys + off) v d) = write_fn (fn_of d) (N.to_nat (off / 4)) v;
  pd_other w a v d : (a < config_phys ∨ config_phys + 4096 ≤ a)%N → fn_of (bus_store B w a v d) = fn_of d;
}.

(** ** Capabilities *)

Inductive PciCap :=
| VirtioCap (cfg_type bar offset multiplier : N)
| MsixCap (bar table : N)
| OtherCap (id : N).

Definition cap_at (f : PciFunction) (ptr : N) (c : PciCap) : Prop :=
  match c with
  | VirtioCap t b o mult =>
      byte f ptr = PCI_CAP_ID_VENDOR_SPECIFIC ∧ byte f (ptr + 3) = t ∧ byte f (ptr + 4) = b ∧
      dword f (ptr + 8) = o ∧ (t = VIRTIO_PCI_CAP_NOTIFY_CFG → dword f (ptr + 16) = mult)
  | MsixCap b table =>
      byte f ptr = PCI_CAP_ID_MSIX ∧ dword f (ptr + 4) = (table + b)%N ∧ (b < 8)%N ∧ (table mod 8 = 0)%N
  | OtherCap id => byte f ptr = id ∧ id ≠ PCI_CAP_ID_VENDOR_SPECIFIC ∧ id ≠ PCI_CAP_ID_MSIX
  end.

(** The linked list from [ptr], behind the header. *)
Fixpoint cap_list (f : PciFunction) (ptr : N) (l : list (N * PciCap)) : Prop :=
  match l with
  | [] => ptr = 0%N
  | (p, c) :: l =>
      ptr = p ∧ (64 ≤ p)%N ∧ (p mod 4 = 0)%N ∧ (p + 20 ≤ 256)%N ∧ cap_at f p c ∧ cap_list f (byte f (p + 1)) l
  end.

(** The last window of a kind. *)
Definition window_of (kind : N) (l : list (N * PciCap)) : option VirtioPciCapWindow :=
  last (omap (λ e, match e.2 with
                   | VirtioCap t b o _ => if (t =? kind)%N then Some (mkWindow b o) else None
                   | _ => None
                   end) l).

Definition multiplier_of (l : list (N * PciCap)) : N :=
  default 0%N (last (omap (λ e, match e.2 with
                                | VirtioCap t _ _ mult => if (t =? VIRTIO_PCI_CAP_NOTIFY_CFG)%N then Some mult else None
                                | _ => None
                                end) l)).

Definition msix_of (l : list (N * PciCap)) : option MsixLocation :=
  last (omap (λ e, match e.2 with MsixCap b table => Some (mkMsix e.1 b table) | _ => None end) l).

Definition layout_of (l : list (N * PciCap)) : VirtioPciCapLayout :=
  mkLayout (window_of VIRTIO_PCI_CAP_COMMON_CFG l) (window_of VIRTIO_PCI_CAP_NOTIFY_CFG l) (multiplier_of l)
    (window_of VIRTIO_PCI_CAP_ISR_CFG l) (window_of VIRTIO_PCI_CAP_DEVICE_CFG l) (msix_of l).

(** ** Registers *)

(** The base and the size of a memory register, of both widths. *)
Definition located (b : Bar) : option (N * N) :=
  match b with MemBar _ _ base size => Some (base, size) | _ => None end.

(** The function once it decodes memory and masters the bus. *)
Definition opened (f : PciFunction) : PciFunction :=
  write_fn f 1 (N.lor (N.lor (reg f 1) PCI_COMMAND_MEMORY_SPACE) PCI_COMMAND_BUS_MASTER).

Definition msix_enabled (f : PciFunction) (m : MsixLocation) : PciFunction :=
  write_fn f (N.to_nat (cap_ptr m / 4)) (N.lor (dword f (cap_ptr m)) MSIX_ENABLE_BIT).

(** [f'] differs from [f] in the command register only, or further up than the base
    address registers. *)
Definition same_bars (f f' : PciFunction) : Prop :=
  writable f' = writable f ∧ ∀ i, 4 ≤ i ≤ 10 → reg f' i = reg f i.

(** A 64-bit register takes two places: at the second, no register begins. *)
Definition upper_half (bars : N → Bar) (b : N) : bool :=
  (0 <? b)%N && match bars (b - 1)%N with MemBar true _ _ _ => true | _ => false end.

Definition bar_index (bars : N → Bar) (b : N) : Prop := (b ≤ 5)%N ∧ upper_half bars b = false.

Definition bars_at (f : PciFunction) (bars : N → Bar) : Prop :=
  ∀ i, bar_index bars (N.of_nat i) → bar_at f (4 + i) (bars (N.of_nat i)).

Lemma bars_at_index f bars b : bars_at f bars → bar_index bars b → bar_at f (4 + N.to_nat b) (bars b).
Proof. intros Hb Hi. rewrite <- (N2Nat.id b) at 2. apply Hb. by rewrite N2Nat.id. Qed.

Lemma bars_at_same f f' bars : same_bars f f' → bars_at f bars → bars_at f' bars.
Proof.
  intros [Hw Hr] Hb i Hi. specialize (Hb i Hi). destruct Hi as [Hi _]. unfold bar_at, mask in *.
  destruct (bars (N.of_nat i)) as [| |wide pf base size]; rewrite ?Hr, ?Hw by lia; [done..|].
  destruct Hb as (k & -> & []). exists k. split; [done|]. split; unfold mask in *; rewrite ?Hw, ?Hr by lia; done.
Qed.

Lemma write_fn_same_bars f i v : i < length (regs f) → (i < 4 ∨ 10 < i) → same_bars f (write_fn f i v).
Proof. intros Hl Hi. split; [done|]. intros j Hj. rewrite write_fn_regs by done. by rewrite decide_False by lia. Qed.

Lemma cap_list_same f f' ptr l : (∀ i, 16 ≤ i → reg f' i = reg f i) → cap_list f ptr l → cap_list f' ptr l.
Proof.
  intros Hr. revert ptr. induction l as [|[p c] l IH]; intros ptr; [done|].
  assert (∀ off, (64 ≤ off)%N → dword f' off = dword f off) as Hdw.
  { intros off Ho. apply Hr.
    assert (64 / 4 ≤ off / 4)%N by (by apply N.Div0.div_le_mono). change (64 / 4)%N with 16%N in *. lia. }
  assert (∀ off, (64 ≤ off)%N → byte f' off = byte f off) as Hby by (intros off Ho; unfold byte; by rewrite Hdw).
  intros (-> & Hp & Hm & Hl & Hc & Hn). cbn [cap_list]. split_and!; [done..| |].
  - destruct c; cbn [cap_at] in *; rewrite ?Hdw, ?Hby by lia; done.
  - rewrite Hby by lia. by apply IH.
Qed.

(** ** Accesses *)

Definition set_dev {D} (d : D) (w : Wiring D) : Wiring D :=
  mkWiring (wi_kernel w) (wi_mem w) (wi_maps w) d (wi_statics w).

Lemma translate_snoc maps m root va :
  translate (maps ++ [m]) root va =
    if covers root va m then Some (mp_paddr m + (va - mp_vaddr m))%N else translate maps root va.
Proof. unfold translate. rewrite rev_unit. cbn [List.find]. by destruct (covers root va m). Qed.

Lemma covers_spec root va m :
  covers root va m = true ↔ mp_root m = root ∧ (mp_vaddr m ≤ va < mp_vaddr m + mp_len m)%N.
Proof. unfold covers. rewrite !andb_true_iff, N.eqb_eq, N.leb_le, N.ltb_lt. tauto. Qed.

Lemma translate_new maps x i :
  (i < mp_len x)%N → translate (maps ++ [x]) (mp_root x) (mp_vaddr x + i) = Some (mp_paddr x + i)%N.
Proof.
  intros Hi. rewrite translate_snoc. rewrite (proj2 (covers_spec _ _ _)) by lia. f_equal. lia.
Qed.

Section device.
Context {D E : Type} (B : Bus D) (config_phys : N) (fn_of : D → PciFunction) {PD : PciDevice B config_phys fn_of}.
Context (caller_root_pt : N).

Abbreviation W := (M (Wiring D) E) (only parsing).
Abbreviation fn w := (fn_of (wi_dev w)).

(** The page of the configuration space is mapped. *)
Definition config_mapped (w : Wiring D) : Prop := ∀ off, (off < 4096)%N →
  translate (wi_maps w) caller_root_pt (KERNEL_PCI_CFG_VA + off) = Some (config_phys + off)%N.

Lemma config_address off : (off < 4096)%N → checked_add U64 KERNEL_PCI_CFG_VA off = Some (KERNEL_PCI_CFG_VA + off)%N.
Proof. intros Ho. apply checked_add_lt. unfold KERNEL_PCI_CFG_VA. lia. Qed.

Lemma wp_cfg_read32 w off (Q : outcome E N → Wiring D → Prop) :
  config_mapped w → offset_ok off →
  (∀ d, fn_of d = fn w → Q (Ok (dword (fn w) off)) (set_dev d w)) →
  wp (pci_cfg_read32 B caller_root_pt KERNEL_PCI_CFG_VA off) Q w.
Proof using PD.
  intros Hm Ho HQ. unfold pci_cfg_read32, kernel_load. pose proof (proj2 Ho).
  apply wp_bind. rewrite config_address by lia. apply wp_ret, wp_bind, wp_gets, wp_bind. rewrite Hm by lia. apply wp_ret.
  destruct (pd_read off (wi_dev w) Ho) as [Hv Hf]. apply wp_zoom. unfold read_volatile, wp.
  destruct (bus_load B W32 (config_phys + off) (wi_dev w)) as [v d]. cbn [fst snd] in *. rewrite Hv. by apply HQ.
Qed.

Lemma wp_cfg_read8 w off (Q : outcome E N → Wiring D → Prop) :
  config_mapped w → (off < 256)%N →
  (∀ d, fn_of d = fn w → Q (Ok (byte (fn w) off)) (set_dev d w)) →
  wp (pci_cfg_read8 B caller_root_pt KERNEL_PCI_CFG_VA off) Q w.
Proof using PD.
  intros Hm Ho HQ. unfold pci_cfg_read8, kernel_load.
  apply wp_bind. rewrite config_address by lia. apply wp_ret, wp_bind, wp_gets, wp_bind. rewrite Hm by lia. apply wp_ret.
  destruct (pd_read8 off (wi_dev w) Ho) as [Hv Hf]. apply wp_zoom. unfold read_volatile, wp.
  destruct (bus_load B W8 (config_phys + off) (wi_dev w)) as [v d]. cbn [fst snd] in *. rewrite Hv. by apply HQ.
Qed.

Lemma wp_cfg_write32 w off v (Q : outcome E unit → Wiring D → Prop) :
  config_mapped w → offset_ok off →
  (∀ d, fn_of d = write_fn (fn w) (N.to_nat (off / 4)) v → Q (Ok tt) (set_dev d w)) →
  wp (pci_cfg_write32 B caller_root_pt KERNEL_PCI_CFG_VA off v) Q w.
Proof using PD.
  intros Hm Ho HQ. unfold pci_cfg_write32, kernel_store. pose proof (proj2 Ho).
  apply wp_bind. rewrite config_address by lia. apply wp_ret, wp_bind, wp_gets, wp_bind. rewrite Hm by lia. apply wp_ret.
  apply wp_zoom. unfold write_volatile, wp. cbn [fst snd]. apply HQ. rewrite pd_write by done.
  unfold write_fn, truncate. change (width_mod W32) with U32. by rewrite N.Div0.mod_mod.
Qed.

(** ** Base address registers of both widths *)

Lemma sizing_high f i wide prefetchable base k :
  mem_bar f i wide prefetchable base k → wide = true →
  reg f (S i) = (base / U32)%N ∧ size_word f (S i) = ((2 ^ 64 - 2 ^ k) / U32)%N.
Proof using.
  intros [Hs Ha _ _ _ Hh] ->. destruct (Hh eq_refl) as [Hr Hm]. split; [done|]. cbn [bar_width] in Hs.
  apply N.bits_inj. intros j. unfold size_word. rewrite write_word_bits, Hm, Hr.
  change U32 with (2 ^ 32)%N. rewrite <- !N.shiftr_div_pow2, !N.shiftr_spec', ones_from by lia.
  change 4294967295%N with (N.ones 32).
  destruct (N.leb_spec k (j + 32)); cbn [andb].
  - destruct (N.ltb_spec (j + 32) 64); [by rewrite N.ones_spec_low by lia|].
    rewrite <- Hr in *. pose proof (reg_bound f (S i)) as Hb. rewrite Hr in Hb.
    replace (base / U32)%N with (N.shiftr base 32) in Hb by (by rewrite N.shiftr_div_pow2).
    rewrite <- N.shiftr_spec'. apply u32_bits; [done|lia].
  - eapply multiple_bits; [exact Ha|done].
Qed.

Lemma not_wide_type f i prefetchable base k :
  mem_bar f i false prefetchable base k → (N.land (N.shiftr (reg f i) 1) 3 =? 2)%N = false.
Proof using.
  intros Hb. apply N.eqb_neq. intros Ht. assert (N.testbit (N.land (N.shiftr (reg f i) 1) 3) 1 = true) as Hn by by rewrite Ht.
  rewrite N.land_spec, N.shiftr_spec' in Hn. change (1 + 1)%N with 2%N in Hn. pose proof (mb_size _ _ _ _ _ _ Hb) as Hs.
  rewrite (bar_low_bits f i false prefetchable base k Hb) in Hn by done.
  rewrite (base_low_bits f i false prefetchable base k Hb) in Hn by lia. by destruct prefetchable.
Qed.

Lemma wide_type f i prefetchable base k :
  mem_bar f i true prefetchable base k → (N.land (N.shiftr (reg f i) 1) 3 =? 2)%N = true.
Proof using.
  intros Hb. apply N.eqb_eq, N.bits_inj. intros j. pose proof (mb_size _ _ _ _ _ _ Hb) as Hs.
  change 3%N with (N.ones 2). rewrite N.land_spec, N.shiftr_spec'. change 2%N with (2 ^ 1)%N at 2. rewrite N.pow2_bits_eqb.
  destruct (N.lt_ge_cases j 2) as [Hj|Hj].
  - rewrite N.ones_spec_low, andb_true_r by done. rewrite (bar_low_bits f i true prefetchable base k Hb) by lia.
    rewrite (base_low_bits f i true prefetchable base k Hb) by lia.
    assert (j = 0 ∨ j = 1)%N as [-> | ->] by lia; by destruct prefetchable.
  - rewrite N.ones_spec_high, andb_false_r by done. symmetry. apply N.eqb_neq. lia.
Qed.
Lemma set_dev_mapped d w : config_mapped w → config_mapped (set_dev d w).
Proof using. done. Qed.

Lemma wp_sizing {X} w off v (k : N → W X) Q :
  config_mapped w → function_ok (fn w) → offset_ok off →
  let i := N.to_nat (off / 4) in
  v = reg (fn w) i →
  (∀ d, fn_of d = fn w → wp (k (size_word (fn w) i)) Q (set_dev d w)) →
  wp (_ ← pci_cfg_write32 B caller_root_pt KERNEL_PCI_CFG_VA off 4294967295;
      s ← pci_cfg_read32 B caller_root_pt KERNEL_PCI_CFG_VA off;
      _ ← pci_cfg_write32 B caller_root_pt KERNEL_PCI_CFG_VA off v; k s) Q w.
Proof using PD.
  intros Hm Hf Ho i -> HQ. pose proof (offset_index off Ho) as Hi. fold i in Hi.
  apply wp_bind, wp_cfg_write32; [done..|]. intros d1 H1. apply wp_bind, wp_cfg_read32; [done..|]. intros d2 H2.
  apply wp_bind, wp_cfg_write32; [done..|]. intros d3 H3. cbn [set_dev wi_dev] in *.
  assert (dword (fn_of d1) off = size_word (fn w) i) as ->.
  { unfold dword. rewrite H1, write_fn_regs, decide_True by (rewrite ?(fo_regs _ Hf); lia). done. }
  apply HQ. rewrite H3, H2, H1. by apply write_fn_restore.
Qed.

Lemma bar_offset i : i ≤ 6 → offset_ok (16 + N.of_nat i * 4) ∧ N.to_nat ((16 + N.of_nat i * 4) / 4) = 4 + i.
Proof using.
  intros Hi. replace (16 + N.of_nat i * 4)%N with ((4 + N.of_nat i) * 4)%N by lia.
  rewrite N.div_mul by done. split; [|lia]. split; [apply N.Div0.mod_mul|lia].
Qed.

Lemma wp_bar w i bar (Q : outcome E (option (N * N)) → Wiring D → Prop) :
  config_mapped w → function_ok (fn w) → i ≤ 5 → bar_at (fn w) (4 + i) bar →
  (∀ d, fn_of d = fn w → Q (Ok (located bar)) (set_dev d w)) →
  wp (pci_bar_phys B caller_root_pt KERNEL_PCI_CFG_VA (N.of_nat i)) Q w.
Proof using PD.
  intros Hm Hf Hi Hb HQ. destruct (bar_offset i ltac:(lia)) as [Ho Hidx]. unfold pci_bar_phys.
  apply wp_bind, wp_cfg_read32; [done..|]. intros d1 H1. unfold dword. rewrite Hidx.
  destruct bar as [| |wide pf base size]; cbn [bar_at located] in *.
  - destruct Hb as [Hr Hmask]. replace (N.land (reg (fn w) (4 + i)) 1) with 0%N by by rewrite Hr. cbn [N.eqb negb].
    replace (N.land (N.shiftr (reg (fn w) (4 + i)) 1) 3 =? 2)%N with false by by rewrite Hr. cbn [negb].
    apply wp_sizing; [done|cbn; by rewrite H1|done|cbn; by rewrite H1, Hidx|]. intros d2 H2. cbn [set_dev wi_dev] in *. rewrite Hidx, H1.
    unfold size_word. rewrite Hr, Hmask. apply wp_ret. apply HQ. by rewrite H2.
  - assert (N.land (reg (fn w) (4 + i)) 1 ≠ 0)%N as Hn.
    { intros Ez. assert (N.testbit (N.land (reg (fn w) (4 + i)) 1) 0 = true) as Ht by (by rewrite N.land_spec, Hb). by rewrite Ez in Ht. }
    rewrite (proj2 (N.eqb_neq _ _) Hn). by apply wp_ret, HQ.
  - destruct Hb as (k & -> & Hmem). rewrite (bar_is_memory _ _ _ _ _ _ Hmem), (bar_base _ _ _ _ _ _ Hmem). cbn [N.eqb negb].
    apply wp_sizing; [done|cbn; by rewrite H1|done|cbn; by rewrite H1, Hidx|]. intros d2 H2. cbn [set_dev wi_dev] in *. rewrite Hidx, H1.
    rewrite (size_word_mask _ _ _ _ _ _ Hmem). pose proof (mb_size _ _ _ _ _ _ Hmem) as Hsize.
    pose proof (mb_base _ _ _ _ _ _ Hmem) as Hbase. destruct wide; cbn [bar_width] in *.
    + rewrite (wide_type _ _ _ _ _ Hmem). cbn [negb].
      destruct (sizing_high _ _ _ _ _ _ Hmem eq_refl) as [Hrh Hsh].
      destruct (bar_offset (S i) ltac:(lia)) as [Ho' Hidx'].
      replace (16 + N.of_nat i * 4 + 4)%N with (16 + N.of_nat (S i) * 4)%N by lia.
      apply wp_bind, wp_cfg_read32; [done..|]. intros d3 H3. unfold dword. rewrite Hidx'. cbn [set_dev wi_dev] in *.
      apply wp_sizing; [done|cbn; by rewrite H3, H2, H1|done|cbn; by rewrite H3, Hidx'|]. intros d4 H4. cbn [set_dev wi_dev] in *. rewrite Hidx', H3, H2, H1.
      replace (4 + S i) with (S (4 + i)) by lia. rewrite Hrh, Hsh.
      rewrite <- (low_mask 64 k) by lia. change U32 with (2 ^ 32)%N. rewrite !N.shiftl_mul_pow2.
      rewrite (N.lor_comm (base mod 2 ^ 32)), !lor_fields by (by apply N.mod_lt).
      rewrite !(N.mul_comm (_ / 2 ^ 32)), <- !N.div_mod by done.
      assert (2 ^ k < 2 ^ 64)%N by (apply N.pow_lt_mono_r; lia).
      rewrite (proj2 (N.eqb_neq _ _)) by lia. unfold u64_not, checked_add. rewrite complement_size by lia.
      rewrite (proj2 (N.ltb_lt _ _)) by done. apply wp_ret, HQ. by rewrite H4, H3, H2.
    + rewrite (not_wide_type _ _ _ _ _ Hmem). cbn [negb].
      rewrite (proj2 (N.eqb_neq _ _) (size_word_implemented _ _ _ _ _ _ Hmem)), reported_size.
      apply wp_ret. rewrite N.min_l by (change U32 with (2 ^ 32)%N; apply N.pow_le_mono_r; lia).
      change U32 with (2 ^ 32)%N. rewrite N.mod_small by done. apply HQ. by rewrite H2, H1.
Qed.
(** ** The walk *)

Definition note (layout : VirtioPciCapLayout) (e : N * PciCap) : VirtioPciCapLayout :=
  match e.2 with
  | VirtioCap t b o mult =>
      if (t =? VIRTIO_PCI_CAP_COMMON_CFG)%N then set_common (mkWindow b o) layout
      else if (t =? VIRTIO_PCI_CAP_NOTIFY_CFG)%N then set_notify (mkWindow b o) mult layout
      else if (t =? VIRTIO_PCI_CAP_ISR_CFG)%N then set_isr (mkWindow b o) layout
      else if (t =? VIRTIO_PCI_CAP_DEVICE_CFG)%N then set_device (mkWindow b o) layout
      else layout
  | MsixCap b table => set_msix (mkMsix e.1 b table) layout
  | OtherCap _ => layout
  end.

Lemma note_all l : foldl note default_layout l = layout_of l.
Proof using.
  induction l as [|[p c] l IH] using rev_ind; [done|]. rewrite foldl_app. cbn [foldl]. rewrite IH.
  unfold layout_of, window_of, multiplier_of, msix_of, note. rewrite !omap_app, !last_app.
  destruct c as [t b o mult|b table|id]; cbn [snd fst omap list_omap last]; [|done|done].
  assert (∀ k, t ≠ k → (if (t =? k)%N then Some (mkWindow b o) else None) = None) as Hk.
  { intros k Hk. by rewrite (proj2 (N.eqb_neq _ _)). }
  destruct (N.eqb_spec t VIRTIO_PCI_CAP_COMMON_CFG) as [->|?]; [done|].
  destruct (N.eqb_spec t VIRTIO_PCI_CAP_NOTIFY_CFG) as [->|?]; [done|].
  destruct (N.eqb_spec t VIRTIO_PCI_CAP_ISR_CFG) as [->|?]; [done|].
  destruct (N.eqb_spec t VIRTIO_PCI_CAP_DEVICE_CFG) as [->|?]; done.
Qed.

Lemma offset_aligned p k : (p mod 4 = 0)%N → (p + k < 256)%N → (k mod 4 = 0)%N → offset_ok (p + k).
Proof using. intros Hp Hk Hm. split; [|done]. rewrite N.Div0.add_mod, Hp, Hm. done. Qed.

Lemma wp_note w p c layout (Q : outcome E VirtioPciCapLayout → Wiring D → Prop) :
  config_mapped w → (p mod 4 = 0)%N → (p + 20 ≤ 256)%N → cap_at (fn w) p c →
  (∀ d, fn_of d = fn w → Q (Ok (note layout (p, c))) (set_dev d w)) →
  wp (note_capability B caller_root_pt KERNEL_PCI_CFG_VA p (byte (fn w) p) layout) Q w.
Proof using PD.
  intros Hm Hp Hl Hc HQ. unfold note_capability. destruct c as [t b o mult|b table|id]; cbn [cap_at note fst snd] in *.
  - destruct Hc as (-> & Ht & Hb & Ho & Hmult). cbn [N.eqb]. change (PCI_CAP_ID_VENDOR_SPECIFIC =? PCI_CAP_ID_VENDOR_SPECIFIC)%N with true. cbv iota.
    apply wp_bind, wp_cfg_read8; [done|lia|]. intros d1 H1. rewrite Ht.
    apply wp_bind, wp_cfg_read8; [done|lia|]. intros d2 H2. cbn [set_dev wi_dev] in *. rewrite H1, Hb.
    apply wp_bind, wp_cfg_read32; [done|by apply offset_aligned; [|lia|]|]. intros d3 H3. cbn [set_dev wi_dev] in *. rewrite H2, H1, Ho.
    assert (fn_of d3 = fn w) as Hd by by rewrite H3, H2, H1.
    destruct (t =? VIRTIO_PCI_CAP_COMMON_CFG)%N; [by apply wp_ret, HQ|].
    destruct (N.eqb_spec t VIRTIO_PCI_CAP_NOTIFY_CFG) as [Hnotify|_].
    + specialize (Hmult Hnotify). apply wp_bind, wp_cfg_read32; [done|by apply offset_aligned; [|lia|]|]. intros d4 H4. cbn [set_dev wi_dev] in *.
      rewrite Hd, Hmult. apply wp_ret. apply (HQ d4). by rewrite H4.
    + destruct (t =? VIRTIO_PCI_CAP_ISR_CFG)%N; [by apply wp_ret, HQ|].
      destruct (t =? VIRTIO_PCI_CAP_DEVICE_CFG)%N; by apply wp_ret, HQ.
  - destruct Hc as (-> & Hd & Hb & Ht). change (PCI_CAP_ID_MSIX =? PCI_CAP_ID_VENDOR_SPECIFIC)%N with false.
    change (PCI_CAP_ID_MSIX =? PCI_CAP_ID_MSIX)%N with true. cbv iota.
    apply wp_bind, wp_cfg_read32; [done|by apply offset_aligned; [|unfold MSIX_TABLE_OFFSET_BIR; lia|]|]. intros d1 H1.
    unfold MSIX_TABLE_OFFSET_BIR. rewrite Hd. apply wp_ret.
    change 7%N with (N.ones 3). rewrite N.land_ones, N.ldiff_ones_r.
    replace (table + b)%N with (b + table / 8 * 8)%N by (pose proof (N.div_mod table 8 ltac:(done)); lia).
    change (2 ^ 3)%N with 8%N. rewrite N.Div0.mod_add, N.mod_small by done.
    rewrite N.shiftl_mul_pow2, N.shiftr_div_pow2. change (2 ^ 3)%N with 8%N. rewrite N.div_add, (N.div_small b) by done.
    replace ((0 + table / 8) * 8)%N with table by (pose proof (N.div_mod table 8 ltac:(done)); lia). by apply HQ.
  - destruct Hc as (-> & Hv & Hx). rewrite (proj2 (N.eqb_neq _ _) Hv), (proj2 (N.eqb_neq _ _) Hx).
    apply wp_ret. specialize (HQ (wi_dev w) eq_refl). by destruct w.
Qed.

Lemma wp_walk n l ptr layout w (Q : outcome E VirtioPciCapLayout → Wiring D → Prop) :
  config_mapped w → cap_list (fn w) ptr l → length l ≤ n →
  (∀ d, fn_of d = fn w → Q (Ok (foldl note layout l)) (set_dev d w)) →
  wp (walk_capabilities B caller_root_pt n KERNEL_PCI_CFG_VA ptr layout) Q w.
Proof using PD.
  revert l ptr layout w. induction n as [|n IH]; intros l ptr layout w Hm Hc Hl HQ; cbn [walk_capabilities].
  - destruct l; [|simpl in Hl; lia]. apply wp_ret. specialize (HQ (wi_dev w) eq_refl). by destruct w.
  - destruct l as [|[p c] l]; cbn [cap_list] in Hc.
    + rewrite Hc. apply wp_ret. specialize (HQ (wi_dev w) eq_refl). by destruct w.
    + destruct Hc as (-> & Hp & Ha & Hb & Hcap & Hn). rewrite (proj2 (N.eqb_neq p 0)) by lia.
      apply wp_bind, wp_cfg_read8; [done|lia|]. intros d1 H1.
      apply wp_bind, wp_cfg_read8; [done|lia|]. intros d2 H2. cbn [set_dev wi_dev] in *. rewrite H1.
      assert (fn_of d2 = fn w) as H by by rewrite H2, H1.
      rewrite <- H at 1. apply wp_bind, (wp_note (set_dev d2 w) p c); [done..|cbn; by rewrite H|]. intros d3 H3. cbn [set_dev wi_dev] in *.
      apply (IH l); [done|cbn; by rewrite H3, H|simpl in Hl; lia|]. intros d4 H4. cbn [set_dev wi_dev] in *. cbn [foldl] in HQ.
      apply HQ. by rewrite H4, H3, H.
Qed.

(** A list of at most forty-eight capabilities: the last of each kind counts. *)
Lemma wp_walk_virtio w l (Q : outcome E VirtioPciCapLayout → Wiring D → Prop) :
  config_mapped w → cap_list (fn w) (byte (fn w) PCI_CAP_POINTER_OFFSET) l → length l ≤ 48 →
  (∀ d, fn_of d = fn w → Q (Ok (layout_of l)) (set_dev d w)) →
  wp (walk_virtio_pci_capabilities B caller_root_pt KERNEL_PCI_CFG_VA) Q w.
Proof using PD.
  intros Hm Hc Hl HQ. apply wp_bind, wp_cfg_read8; [done..|]. intros d1 H1.
  apply (wp_walk 48 l); [done|cbn; by rewrite H1|done|]. intros d2 H2. cbn [set_dev wi_dev] in *.
  rewrite note_all. apply HQ. by rewrite H2.
Qed.
(** ** Mappings *)

Definition put_kernel (k : KernelState) (m : N → N) (w : Wiring D) : Wiring D :=
  mkWiring k m (wi_maps w) (wi_dev w) (wi_statics w).
Definition put_map (x : Mapped) (w : Wiring D) : Wiring D :=
  mkWiring (wi_kernel w) (wi_mem w) (wi_maps w ++ [x]) (wi_dev w) (wi_statics w).

Lemma page_len_spec size : (size ≤ 2 ^ 63)%N → ∃ len, page_len size = Some len ∧ (size ≤ len)%N.
Proof using.
  intros Hs. exists ((size + 4095) / 4096 * 4096)%N. change (2 ^ 63)%N with 9223372036854775808%N in Hs.
  pose proof (N.Div0.mul_div_le (size + 4095) 4096). pose proof (N.mul_succ_div_gt (size + 4095) 4096 ltac:(done)).
  split; [|lia]. unfold page_len, checked_mul. by rewrite (proj2 (N.ltb_lt _ _)) by lia.
Qed.

Lemma located_size f i bar base size :
  bar_at f i bar → located bar = Some (base, size) → (0 < size ≤ 2 ^ 63)%N.
Proof using.
  intros Hb Hl. destruct bar as [| |wide pf b s]; [done..|]. injection Hl as -> ->.
  destruct Hb as (k & -> & Hm). pose proof (mb_size _ _ _ _ _ _ Hm) as Hs. split.
  - apply N.neq_0_lt_0, N.pow_nonzero. done.
  - apply N.pow_le_mono_r; [done|]. destruct wide; simpl in Hs; lia.
Qed.

Section mapping.
Context {BF : Bitflags} (hal : HalInterface).

Lemma wp_zeroed_pool w bytes (Q : outcome E (option N) → Wiring D → Prop) :
  kinv (wi_kernel w) →
  (∀ o k m, kinv k → only_untyped (wi_kernel w) k → Q (Ok o) (put_kernel k m w)) →
  wp (zeroed_pool bytes) Q w.
Proof using.
  intros Hk HQ. apply wp_and_then. unfold in_kernel. apply wp_zoom. eapply wp_mono; [by apply carve_spec|].
  intros r k ((o & -> & _) & Hk' & Hu). destruct o as [p|].
  - apply wp_bind, wp_modify, wp_ret. by apply HQ.
  - by apply (HQ None k (wi_mem w)).
Qed.

Lemma wp_map_window w root va pa len perm pool pages (Q : outcome E bool → Wiring D → Prop) :
  Q (Ok false) w → Q (Ok true) (put_map (mkMapped root va pa len perm) w) →
  wp (map_window hal root va pa len perm pool pages) Q w.
Proof using.
  intros H1 H2. unfold map_window. destruct (_ =? id_max)%N; [by apply wp_ret|].
  apply wp_bind, wp_modify, wp_ret. done.
Qed.

Lemma config_mapped_put x w :
  config_mapped w → (mp_root x ≠ caller_root_pt ∨ KERNEL_PCI_CFG_VA + 4096 ≤ mp_vaddr x)%N → config_mapped (put_map x w).
Proof using.
  intros Hm Hx off Ho. cbn [put_map wi_maps]. rewrite translate_snoc. specialize (Hm off Ho).
  destruct (covers caller_root_pt _ x) eqn:Hc; [|done]. apply covers_spec in Hc as [Hr Hc]. unfold KERNEL_PCI_CFG_VA in *.
  destruct Hx; [done|lia].
Qed.
Context (msi_message : N → option (N * N)) (drv_root_pt : N) (bars : N → Bar).
Hypothesis Hroots : drv_root_pt ≠ caller_root_pt.

Definition slot (n : nat) : N := DRV_PCI_BAR_VA_BASE + N.of_nat n * DRV_PCI_BAR_VA_STRIDE.

(** The [size] bytes at the physical address [base] are at [va]. *)
Definition shows (maps : list Mapped) (root va base size : N) : Prop :=
  ∀ i, (i < size)%N → translate maps root (va + i) = Some (base + i)%N.

(** Each register that is mapped has a slot of its own in the driver's process. *)
Definition windows_ok (maps : list Mapped) (mapped : list (N * N)) : Prop :=
  length mapped ≤ DRV_PCI_MAX_BARS ∧
  ∀ n b va, mapped !! n = Some (b, va) →
    va = slot n ∧ ∃ base size, located (bars b) = Some (base, size) ∧ (size ≤ DRV_PCI_BAR_VA_STRIDE)%N ∧
      shows maps drv_root_pt va base size.

Record wired (f : PciFunction) (g : Statics) (k0 : KernelState) (mapped : list (N * N)) (w : Wiring D) : Prop := {
  wr_config : config_mapped w;
  wr_kernel : kinv (wi_kernel w);
  wr_only : only_untyped k0 (wi_kernel w);
  wr_fn : fn w = f;
  wr_statics : wi_statics w = g;
  wr_mapped : windows_ok (wi_maps w) mapped;
}.

Section wired.
Context (f : PciFunction) (g : Statics) (k0 : KernelState).

Lemma wired_kernel mapped k m w :
  wired f g k0 mapped w → kinv k → only_untyped (wi_kernel w) k → wired f g k0 mapped (put_kernel k m w).
Proof using. intros [] Hk Hu. split; try done. by eapply only_untyped_trans. Qed.

Lemma wired_dev mapped d w : wired f g k0 mapped w → fn_of d = fn w → wired f g k0 mapped (set_dev d w).
Proof using. intros [] Hd. split; try done. cbn. by rewrite Hd. Qed.

(** A new mapping that leaves the windows and the configuration space alone. *)
Lemma wired_map mapped x w :
  wired f g k0 mapped w →
  (mp_root x = drv_root_pt ∧ slot (length mapped) ≤ mp_vaddr x ∨
   mp_root x = caller_root_pt ∧ KERNEL_PCI_CFG_VA + 4096 ≤ mp_vaddr x)%N →
  wired f g k0 mapped (put_map x w).
Proof using Hroots.
  intros [Hc Hk Ho Hf Hg [Hl Hw]] Hx. split; try done.
  - apply config_mapped_put; [done|]. destruct Hx as [[-> _]|[_ ?]]; auto.
  - split; [done|]. intros n b va Hn. destruct (Hw n b va Hn) as (-> & base & size & Hb & Hs & Ht).
    split; [done|]. exists base, size. split_and!; [done..|]. intros i Hi. cbn [put_map wi_maps].
    rewrite translate_snoc, Ht by done. destruct (covers drv_root_pt _ x) eqn:Hcov; [|done]. exfalso.
    apply covers_spec in Hcov as [Hr Hva]. destruct Hx as [[_ Hx]|[Hx _]]; [|congruence].
    apply lookup_lt_Some in Hn. unfold slot, DRV_PCI_BAR_VA_STRIDE in *. lia.
Qed.
End wired.

(** A register is mapped once; what was mapped before stays. *)
Lemma wp_map_pci_bar f g k0 mapped w b (Q : outcome E (option (N * list (N * N))) → Wiring D → Prop) :
  wired f g k0 mapped w → function_ok f → bars_at f bars → bar_index bars b →
  (∀ w', wired f g k0 mapped w' → (∀ va, (b, va) ∉ mapped) → Q (Ok None) w') →
  (∀ w' va mapped', wired f g k0 mapped' w' → (b, va) ∈ mapped' → mapped `prefix_of` mapped' →
     Q (Ok (Some (va, mapped'))) w') →
  wp (map_pci_bar B hal drv_root_pt caller_root_pt KERNEL_PCI_CFG_VA b mapped) Q w.
Proof using PD Hroots.
  intros Hw Hf Hbars Hb HN HS. unfold map_pci_bar.
  destruct (List.find _ mapped) as [[b' va]|] eqn:Hfind.
  { apply List.find_some in Hfind as [Hin Heq]. cbn in Heq. apply N.eqb_eq in Heq as ->.
    apply wp_ret. apply HS; [done| |done]. by apply list_elem_of_In. }
  assert (∀ va, (b, va) ∉ mapped) as Hnot.
  { intros va Hin. apply list_elem_of_In in Hin. pose proof (List.find_none _ _ Hfind _ Hin) as Hn. cbn in Hn.
    by rewrite N.eqb_refl in Hn. }
  destruct (Nat.leb_spec DRV_PCI_MAX_BARS (length mapped)) as [|Hlen]; [by apply wp_ret, HN|].
  apply wp_and_then. rewrite <- (N2Nat.id b). eapply wp_bar; [apply Hw|by rewrite (wr_fn _ _ _ _ _ Hw)|destruct Hb; lia|rewrite (wr_fn _ _ _ _ _ Hw); by apply bars_at_index|].
  rewrite N2Nat.id. intros d Hd. pose proof (wired_dev _ _ _ _ d w Hw Hd) as Hw1.
  destruct (located (bars b)) as [[base size]|] eqn:Hloc; [|by apply HN].
  assert (0 < size ≤ 2 ^ 63)%N as Hsize.
  { eapply (located_size f (4 + N.to_nat b) (bars b)); [|exact Hloc]. by apply bars_at_index. }
  destruct (page_len_spec size (proj2 Hsize)) as (len & Hlen' & Hle).
  apply wp_bind. rewrite Hlen'. apply wp_ret.
  destruct (N.eqb_spec len 0) as [->|_]; [lia|]. cbn [orb].
  destruct (N.ltb_spec DRV_PCI_BAR_VA_STRIDE len) as [|Hstride]; [by apply wp_ret, HN|].
  apply wp_and_then, wp_zeroed_pool; [apply Hw1|]. intros o k m Hk Hu.
  pose proof (wired_kernel _ _ _ _ k m _ Hw1 Hk Hu) as Hw2. destruct o as [pool|]; [|by apply HN].
  apply wp_bind, wp_map_window; [by apply wp_ret, HN|]. fold (slot (length mapped)).
  set (x := mkMapped drv_root_pt (slot (length mapped)) base len 11).
  pose proof (wired_map f g k0 mapped x _ Hw2 ltac:(left; done)) as [Hc3 Hk3 Ho3 Hf3 Hg3 [_ Hm3]].
  apply wp_ret, HS; [|rewrite elem_of_app; right; by constructor|by eexists].
  split; [done..|]. split; [rewrite length_app; simpl; lia|]. intros n b' va Hn.
  apply lookup_app_Some in Hn as [Hn|[Hge Hn]]; [by apply Hm3|].
  destruct (n - length mapped) as [|j] eqn:Hj; [|done]. injection Hn as <- <-.
  replace n with (length mapped) by lia. split; [done|]. exists base, size. split_and!; [done|lia|].
  intros i Hi. apply (translate_new _ x). cbn. lia.
Qed.
(** The address of a window: in a slot, or 0 where its register could not be mapped. *)
Definition resolved (common_bar : N) (mapped : list (N * N)) (window : option VirtioPciCapWindow) (va : N) : Prop :=
  match window with
  | None => va = 0%N
  | Some win => va = 0%N ∧ win_bar win ≠ common_bar ∨ ∃ base, (win_bar win, base) ∈ mapped ∧ va = (base + win_offset win)%N
  end.

Lemma resolved_prefix common_bar mapped mapped' window va :
  mapped `prefix_of` mapped' → resolved common_bar mapped window va → resolved common_bar mapped' window va.
Proof using.
  intros [l ->]. destruct window as [win|]; [|done]. cbn. intros [?|(base & Hin & ->)]; [by left|right].
  exists base. split; [|done]. rewrite elem_of_app. by left.
Qed.

Lemma wp_resolve_window f g k0 mapped w common_bar common_va window (Q : outcome E (N * list (N * N)) → Wiring D → Prop) :
  wired f g k0 mapped w → function_ok f → bars_at f bars → (common_bar, common_va) ∈ mapped →
  (∀ win, window = Some win → bar_index bars (win_bar win)) →
  (∀ w' va mapped', wired f g k0 mapped' w' → mapped `prefix_of` mapped' → resolved common_bar mapped' window va →
     Q (Ok (va, mapped')) w') →
  wp (resolve B hal drv_root_pt caller_root_pt KERNEL_PCI_CFG_VA window mapped) Q w.
Proof using PD Hroots.
  intros Hw Hf Hbars Hin Hwin HQ. unfold resolve. destruct window as [win|]; [|by apply wp_ret, HQ].
  apply wp_bind. eapply wp_map_pci_bar; [done..|by apply Hwin| |].
  - intros w' Hw' Hnot. apply wp_ret, HQ; [done|done|]. left. split; [done|]. intros <-. by eapply Hnot.
  - intros w' va mapped' Hw' Hin' Hp. apply wp_ret, HQ; [done|done|]. right. by exists va.
Qed.

(** ** Windows of the kernel *)

Lemma wp_map_kernel_bar f g k0 mapped w b va (Q : outcome E (option unit) → Wiring D → Prop) :
  wired f g k0 mapped w → function_ok f → bars_at f bars → bar_index bars b → (KERNEL_PCI_CFG_VA + 4096 ≤ va)%N →
  (∀ w', wired f g k0 mapped w' → Q (Ok None) w') →
  (∀ w' base size, wired f g k0 mapped w' → located (bars b) = Some (base, size) →
     shows (wi_maps w') caller_root_pt va base size → Q (Ok (Some tt)) w') →
  wp (map_kernel_bar B hal caller_root_pt KERNEL_PCI_CFG_VA b va) Q w.
Proof using PD Hroots.
  intros Hw Hf Hbars Hb Hva HN HS. unfold map_kernel_bar.
  apply wp_and_then, wp_zeroed_pool; [apply Hw|]. intros o k m Hk Hu.
  pose proof (wired_kernel _ _ _ _ k m _ Hw Hk Hu) as Hw1. destruct o as [pool|]; [|by apply HN].
  apply wp_and_then. rewrite <- (N2Nat.id b). eapply wp_bar; [apply Hw1|by rewrite (wr_fn _ _ _ _ _ Hw1)|destruct Hb; lia|rewrite (wr_fn _ _ _ _ _ Hw1); by apply bars_at_index|].
  intros d Hd. pose proof (wired_dev _ _ _ _ d _ Hw1 Hd) as Hw2.
  destruct (located (bars b)) as [[base size]|] eqn:Hloc; [|by apply HN].
  assert (0 < size ≤ 2 ^ 63)%N as Hsize.
  { eapply (located_size f (4 + N.to_nat b) (bars b)); [|exact Hloc]. by apply bars_at_index. }
  destruct (page_len_spec size (proj2 Hsize)) as (len & Hlen' & Hle).
  apply wp_bind. rewrite Hlen'. apply wp_ret, wp_bind, wp_map_window; [by apply wp_ret, HN|].
  set (x := mkMapped caller_root_pt va base len 3). apply wp_ret. eapply HS; [|done|].
  - apply wired_map; [done|]. by right.
  - intros i Hi. apply (translate_new _ x). cbn. lia.
Qed.

(** A store into such a window does not reach the configuration space. *)
Lemma wp_kernel_store w width va base size o off v (Q : outcome E unit → Wiring D → Prop) :
  shows (wi_maps w) caller_root_pt va base size → (o + off < size)%N → (va + o + off < U64)%N →
  (base + size ≤ config_phys ∨ config_phys + 4096 ≤ base)%N →
  (∀ d, fn_of d = fn w → Q (Ok tt) (set_dev d w)) →
  wp (kernel_store B caller_root_pt width (va + o) off v) Q w.
Proof using PD Hroots.
  intros Hs Ho Hu Hc HQ. unfold kernel_store. apply wp_bind. rewrite checked_add_lt by done.
  apply wp_ret, wp_bind, wp_gets, wp_bind. rewrite <- N.add_assoc, Hs by done. apply wp_ret, wp_zoom.
  unfold write_volatile, wp. cbn [fst snd]. apply HQ. apply pd_other. lia.
Qed.

(** What holds of the state even where the wiring gives up. *)
Record harmless (f : PciFunction) (g : Statics) (k0 : KernelState) (w : Wiring D) : Prop := {
  hl_kernel : kinv (wi_kernel w);
  hl_only : only_untyped k0 (wi_kernel w);
  hl_statics : wi_statics w = g;
  hl_bars : same_bars f (fn w);
}.

Lemma wired_harmless f f' g k0 mapped w : same_bars f f' → wired f' g k0 mapped w → harmless f g k0 w.
Proof using. intros Hs [_ Hk Ho Hf Hg _]. split; [done..|]. by rewrite Hf. Qed.

Lemma same_bars_refl f : same_bars f f.
Proof using. done. Qed.

Record msix_ok (f : PciFunction) (m : MsixLocation) : Prop := {
  mo_ptr : (64 ≤ cap_ptr m ∧ cap_ptr m mod 4 = 0 ∧ cap_ptr m < 256)%N;
  mo_bar : bar_index bars (msix_bar m);
  mo_table : ∀ base size, located (bars (msix_bar m)) = Some (base, size) → (table_offset m + 16 ≤ size)%N;
  mo_small : (table_offset m < U32)%N;
}.

Definition bars_clear : Prop := ∀ b base size, located (bars b) = Some (base, size) →
  (base + size ≤ config_phys ∨ config_phys + 4096 ≤ base)%N.

(** The registers of COMMON_CFG are in their window. *)
Definition common_ok (c : VirtioPciCapWindow) : Prop :=
  bar_index bars (win_bar c) ∧ (win_offset c < U32)%N ∧
  ∀ base size, located (bars (win_bar c)) = Some (base, size) → (win_offset c + 56 ≤ size)%N.

Lemma msix_index m f : msix_ok f m → offset_ok (cap_ptr m) ∧ 16 ≤ N.to_nat (cap_ptr m / 4) < 64.
Proof using Hroots.
  intros [[H1 [H2 H3]] _ _ _]. assert (offset_ok (cap_ptr m)) as Ho by by split.
  split; [done|]. split; [|by apply offset_index].
  assert (64 / 4 ≤ cap_ptr m / 4)%N by (by apply N.Div0.div_le_mono). change (64 / 4)%N with 16%N in *. lia.
Qed.

Lemma msix_enabled_same f m : function_ok f → msix_ok f m → same_bars f (msix_enabled f m).
Proof using Hroots.
  intros Hf Hm. destruct (msix_index m f Hm) as [_ Hi]. apply write_fn_same_bars; [rewrite (fo_regs _ Hf); lia|lia].
Qed.

Lemma wp_enable_msix f g k0 mapped w m c message (Q : outcome E (option unit) → Wiring D → Prop) :
  wired f g k0 mapped w → function_ok f → bars_at f bars → bars_clear → msix_ok f m → common_ok c →
  (∀ w', harmless f g k0 w' → Q (Ok None) w') →
  (∀ w', wired (msix_enabled f m) g k0 mapped w' → Q (Ok (Some tt)) w') →
  wp (enable_and_program_msix B hal caller_root_pt KERNEL_PCI_CFG_VA m c message) Q w.
Proof using PD Hroots.
  intros Hw Hf Hbars Hclear Hm (Hcb & Hcu & Hcs) HN HS. unfold enable_and_program_msix.
  destruct (msix_index m f Hm) as [Ho Hi]. pose proof (msix_enabled_same f m Hf Hm) as Hsame.
  destruct Hm as [_ Hmb Hmt Hmu].
  apply wp_and_then. eapply wp_map_kernel_bar; [done..|unfold KERNEL_PCI_CFG_VA, KERNEL_MSIX_BAR_VA; lia| |].
  { intros w1 Hw1. by eapply HN, (wired_harmless f f). }
  intros w1 base size Hw1 Hloc Hshow. specialize (Hmt base size Hloc). specialize (Hclear _ _ _ Hloc) as Hcl.
  destruct message as [addr data].
  apply wp_bind. eapply wp_kernel_store; [done|lia|unfold KERNEL_MSIX_BAR_VA; lia|done|]. intros d1 E1.
  apply wp_bind. eapply wp_kernel_store; [done|lia|unfold KERNEL_MSIX_BAR_VA; lia|done|]. intros d2 E2.
  apply wp_bind. eapply wp_kernel_store; [done|lia|unfold KERNEL_MSIX_BAR_VA; lia|done|]. intros d3 E3.
  apply wp_bind. eapply wp_kernel_store; [done|lia|unfold KERNEL_MSIX_BAR_VA; lia|done|]. intros d4 E4.
  cbn [set_dev wi_dev] in *. assert (fn_of d4 = fn w1) as E7 by congruence.
  pose proof (wired_dev _ _ _ _ d4 w1 Hw1 E7) as Hw4.
  apply wp_bind, wp_cfg_read32; [apply Hw4|done|]. intros d5 E5. cbn [set_dev wi_dev] in *.
  apply wp_bind, wp_cfg_write32; [apply Hw4|done|]. intros d6 E6. cbn [set_dev wi_dev] in *.
  rewrite E5, E7, (wr_fn _ _ _ _ _ Hw1) in E6.
  assert (wired (msix_enabled f m) g k0 mapped (set_dev d6 w1)) as Hw6 by (destruct Hw1; by split).
  assert (function_ok (msix_enabled f m)) as Hf' by (apply write_fn_ok; [done|lia|lia]).
  apply wp_and_then. eapply wp_map_kernel_bar; [exact Hw6|done|by eapply bars_at_same|done|unfold KERNEL_PCI_CFG_VA, KERNEL_MSIX_COMMON_VA; lia| |].
  { intros w7 Hw7. by eapply HN, (wired_harmless f (msix_enabled f m)). }
  intros w7 base' size' Hw7 Hloc' Hshow'. specialize (Hcs base' size' Hloc').
  pose proof (Hclear _ _ _ Hloc') as Hcl'.
  apply wp_bind. eapply wp_kernel_store; [done|unfold VIRTIO_PCI_COMMON_QUEUE_SELECT; lia|unfold KERNEL_MSIX_COMMON_VA, VIRTIO_PCI_COMMON_QUEUE_SELECT; lia|done|]. intros d8 E8.
  apply wp_bind. eapply wp_kernel_store; [done|unfold VIRTIO_PCI_COMMON_QUEUE_MSIX_VECTOR; lia|unfold KERNEL_MSIX_COMMON_VA, VIRTIO_PCI_COMMON_QUEUE_MSIX_VECTOR; lia|done|]. intros d9 E9.
  cbn [set_dev wi_dev] in *. apply wp_ret, HS. apply (wired_dev _ _ _ _ d9 w7 Hw7). congruence.
Qed.

(** ** The whole *)

(** What is asked of a capability: its window, or its table, is in its register. *)
Definition cap_ok (c : PciCap) : Prop :=
  match c with
  | VirtioCap t b o _ =>
      bar_index bars b ∧ (∀ base size, located (bars b) = Some (base, size) → (o < size)%N) ∧
      (t = VIRTIO_PCI_CAP_COMMON_CFG → common_ok (mkWindow b o))
  | MsixCap b table =>
      bar_index bars b ∧ ∀ base size, located (bars b) = Some (base, size) → (table + 16 ≤ size)%N
  | OtherCap _ => True
  end.

Record device_ok (f : PciFunction) (l : list (N * PciCap)) : Prop := {
  dk_function : function_ok f;
  dk_list : cap_list f (byte f PCI_CAP_POINTER_OFFSET) l;
  dk_length : length l ≤ 48;
  dk_caps : Forall (λ e, cap_ok e.2) l;
  dk_bars : bars_at f bars;
  dk_clear : bars_clear;
}.

Lemma cap_list_elem f ptr l p c :
  cap_list f ptr l → (p, c) ∈ l → (64 ≤ p)%N ∧ (p mod 4 = 0)%N ∧ (p + 20 ≤ 256)%N ∧ cap_at f p c.
Proof using.
  revert ptr. induction l as [|[p' c'] l IH]; intros ptr Hl Hin; [by apply elem_of_nil in Hin|].
  destruct Hl as (-> & H1 & H2 & H3 & H4 & Hl). apply elem_of_cons in Hin as [[= -> ->]|Hin]; [done|by eapply IH].
Qed.

Lemma window_of_elem kind l win :
  window_of kind l = Some win → ∃ p mult, (p, VirtioCap kind (win_bar win) (win_offset win) mult) ∈ l.
Proof using.
  intros Hw. apply last_Some_elem_of, list_elem_of_omap in Hw as ([p c] & Hin & Hc). cbn in Hc.
  destruct c as [t b o mult|b table|id]; [|done..]. destruct (N.eqb_spec t kind) as [->|]; [|done]. injection Hc as <-. eauto.
Qed.

Lemma msix_of_elem l m : msix_of l = Some m → (cap_ptr m, MsixCap (msix_bar m) (table_offset m)) ∈ l.
Proof using.
  intros Hm. apply last_Some_elem_of, list_elem_of_omap in Hm as ([p c] & Hin & Hc). cbn in Hc.
  destruct c as [t b o mult|b table|id]; [done| |done]. by injection Hc as <-.
Qed.

Section ok.
Context (f : PciFunction) (l : list (N * PciCap)) (Hok : device_ok f l).

Lemma window_bar kind win : window_of kind l = Some win → (bar_index bars (win_bar win) ∧ win_offset win < U32)%N ∧
  ∀ base size, located (bars (win_bar win)) = Some (base, size) → (win_offset win < size)%N.
Proof using Hok.
  intros Hw. apply window_of_elem in Hw as (p & mult & Hin). pose proof (dk_caps _ _ Hok) as Hc.
  rewrite Forall_forall in Hc. destruct (Hc _ Hin) as (Hb & Hs & _).
  destruct (cap_list_elem _ _ _ _ _ (dk_list _ _ Hok) Hin) as (_ & _ & _ & Ha).
  split; [|done]. split; [done|]. destruct Ha as (_ & _ & _ & <- & _). apply reg_bound.
Qed.

Lemma common_window c : window_of VIRTIO_PCI_CAP_COMMON_CFG l = Some c → common_ok c.
Proof using Hok.
  intros Hw. apply window_of_elem in Hw as (p & mult & Hin). pose proof (dk_caps _ _ Hok) as Hc.
  rewrite Forall_forall in Hc. destruct (Hc _ Hin) as (_ & _ & Hs). specialize (Hs eq_refl). by destruct c.
Qed.

Lemma msix_location m : msix_of l = Some m → msix_ok f m.
Proof using Hok.
  intros Hm%msix_of_elem. pose proof (dk_caps _ _ Hok) as Hc. rewrite Forall_forall in Hc.
  destruct (Hc _ Hm) as [Hb Ht]. destruct (cap_list_elem _ _ _ _ _ (dk_list _ _ Hok) Hm) as (H1 & H2 & H3 & Ha).
  destruct Ha as (_ & Hd & _). split; [|done|done|].
  - split_and!; [done|done|]. eapply N.lt_le_trans; [|exact H3]. by apply N.lt_add_pos_r.
  - eapply N.le_lt_trans; [apply N.le_add_r|]. rewrite <- Hd. apply reg_bound.
Qed.

Lemma opened_same : same_bars f (opened f).
Proof using Hok. apply write_fn_same_bars; [rewrite (fo_regs _ (dk_function _ _ Hok))|left]; clear; lia. Qed.

Lemma opened_ok : device_ok (opened f) l.
Proof using Hok.
  destruct Hok as [Hf Hl Hn Hc Hb Hx].
  assert (∀ i, i ≠ 1 → reg (opened f) i = reg f i) as Hr.
  { intros i Hi. unfold opened. rewrite write_fn_regs by (rewrite (fo_regs _ Hf); clear; lia). by rewrite decide_False. }
  split; [apply write_fn_ok; [done|done|clear; lia]| |done|done|eapply bars_at_same; [apply opened_same|done]|done].
  apply (cap_list_same f); [intros i Hi; apply Hr; clear -Hi; lia|].
  unfold byte, dword. rewrite Hr by done. exact Hl.
Qed.
End ok.

(** The window is in the driver's address space at [va]; where it could not be mapped,
    [va] is 0, which cannot be if the window shares the register of COMMON_CFG. *)
Definition window_at (maps : list Mapped) (common_bar : N) (window : option VirtioPciCapWindow) (va : N) : Prop :=
  match window with
  | None => va = 0%N
  | Some win =>
      va = 0%N ∧ win_bar win ≠ common_bar ∨
      ∃ base size, located (bars (win_bar win)) = Some (base, size) ∧ (win_offset win < size)%N ∧
        shows maps drv_root_pt va (base + win_offset win) (size - win_offset win)
  end.

Lemma window_resolved f l kind mapped maps common_bar va :
  device_ok f l → windows_ok maps mapped → resolved common_bar mapped (window_of kind l) va →
  window_at maps common_bar (window_of kind l) va ∧ (va < U64)%N.
Proof using Hroots.
  intros Hok [Hlen Hw]. destruct (window_of kind l) as [win|] eqn:Hwin; [|by intros ->].
  destruct (window_bar f l Hok kind win Hwin) as [[_ Ho] Hsize].
  intros [[-> Hne]|(start & Hin & ->)]; [split; [by left|done]|].
  apply list_elem_of_lookup in Hin as [n Hn]. destruct (Hw n _ _ Hn) as (-> & base & size & Hloc & _ & Hshow).
  apply lookup_lt_Some in Hn. unfold DRV_PCI_MAX_BARS in Hlen. split.
  - right. exists base, size. split_and!; [done|by eapply Hsize|]. intros i Hi.
    rewrite <- !N.add_assoc. apply Hshow. clear -Hi. lia.
  - unfold slot, DRV_PCI_BAR_VA_BASE, DRV_PCI_BAR_VA_STRIDE. clear -Hlen Hn Ho. lia.
Qed.

(** The result of the wiring, before it is written down. *)
Record windows_found (f : PciFunction) (l : list (N * PciCap)) (g : Statics) (k0 : KernelState) (x : Windows)
    (w : Wiring D) : Prop := {
  wf_caps : w_caps x = layout_of l;
  wf_common : ∃ c, window_of VIRTIO_PCI_CAP_COMMON_CFG l = Some c ∧ common_cfg_va x ≠ 0%N ∧
    window_at (wi_maps w) (win_bar c) (Some c) (common_cfg_va x) ∧
    window_at (wi_maps w) (win_bar c) (window_of VIRTIO_PCI_CAP_NOTIFY_CFG l) (notify_cfg_va x) ∧
    window_at (wi_maps w) (win_bar c) (window_of VIRTIO_PCI_CAP_ISR_CFG l) (isr_cfg_va x) ∧
    window_at (wi_maps w) (win_bar c) (window_of VIRTIO_PCI_CAP_DEVICE_CFG l) (device_cfg_va x);
  wf_words : (common_cfg_va x < U64 ∧ notify_cfg_va x < U64 ∧ isr_cfg_va x < U64 ∧ device_cfg_va x < U64)%N;
  wf_vector : msix_vector x = VIRTIO_MSI_NO_VECTOR ∧ fn w = opened f ∨
    msix_vector x = 0%N ∧ ∃ m, msix_of l = Some m ∧ fn w = msix_enabled (opened f) m;
  wf_config : config_mapped w;
  wf_harmless : harmless f g k0 w;
}.

Lemma same_bars_trans f1 f2 f3 : same_bars f1 f2 → same_bars f2 f3 → same_bars f1 f3.
Proof using. intros [H1 H2] [H3 H4]. split; [congruence|]. intros i Hi. by rewrite H4, H2. Qed.

Lemma wp_open_config_space f l g w (Q : outcome E (option unit) → Wiring D → Prop) :
  device_ok f l → kinv (wi_kernel w) → fn w = f → wi_statics w = g →
  (∀ w', harmless f g (wi_kernel w) w' → Q (Ok None) w') →
  (∀ w', wired (opened f) g (wi_kernel w) [] w' → Q (Ok (Some tt)) w') →
  wp (open_config_space B hal caller_root_pt config_phys) Q w.
Proof using PD Hroots.
  intros Hok Hk Hf Hg HN HS. unfold open_config_space.
  apply wp_and_then, wp_zeroed_pool; [done|]. intros o k m Hk' Hu.
  assert (∀ d, fn_of d = f → harmless f g (wi_kernel w) (put_kernel k m (set_dev d w))) as Hh by (intros d Hd; split; [done..|by rewrite <- Hd]).
  destruct o as [pool|]; [|by apply HN, (Hh (wi_dev w))].
  apply wp_bind, wp_map_window; [by apply wp_ret, HN, (Hh (wi_dev w))|]. cbn [negb].
  set (x := mkMapped caller_root_pt KERNEL_PCI_CFG_VA config_phys 4096 3).
  set (w1 := put_map x (put_kernel k m w)).
  assert (config_mapped w1) as Hm by (intros off Ho; by apply (translate_new _ x)).
  apply wp_bind, wp_cfg_read32; [done|by split|]. intros d1 H1.
  apply wp_bind, wp_cfg_write32; [done|by split|]. intros d2 H2. cbn [set_dev wi_dev] in *.
  apply wp_ret, HS. split; [done..| |done|].
  - cbn. rewrite H2, H1. cbn. unfold opened. by rewrite Hf.
  - split; [cbn; clear; lia|]. intros n b va Hn. by rewrite lookup_nil in Hn.
Qed.

Lemma wp_select_vector f l g k0 mapped w c irq (Q : outcome E (option N) → Wiring D → Prop) :
  device_ok f l → common_ok c → wired f g k0 mapped w →
  (∀ w', harmless f g k0 w' → Q (Ok None) w') →
  (∀ w', wired f g k0 mapped w' → Q (Ok (Some VIRTIO_MSI_NO_VECTOR)) w') →
  (∀ w' m, msix_of l = Some m → wired (msix_enabled f m) g k0 mapped w' → Q (Ok (Some 0%N)) w') →
  wp (select_vector B hal msi_message caller_root_pt (layout_of l) c irq) Q w.
Proof using PD Hroots.
  intros Hok Hc Hw HN H0 H1. unfold select_vector. change (msix (layout_of l)) with (msix_of l).
  destruct (msix_of l) as [m|] eqn:Hm; [|by apply wp_ret, H0]. destruct (msi_message irq) as [message|]; [|by apply wp_ret, H0].
  pose proof (msix_location f l Hok m Hm) as Hmo. destruct Hok as [Hf _ _ _ Hb Hx].
  apply wp_and_then. eapply wp_enable_msix; [done..|]. intros w' Hw'. by apply wp_ret, (H1 w' m).
Qed.

Lemma wp_wire_windows f l g w irq (Q : outcome E (option Windows) → Wiring D → Prop) :
  device_ok f l → kinv (wi_kernel w) → fn w = f → wi_statics w = g →
  (∀ w', harmless f g (wi_kernel w) w' → Q (Ok None) w') →
  (∀ w' x, windows_found f l g (wi_kernel w) x w' → Q (Ok (Some x)) w') →
  wp (wire_windows B hal msi_message drv_root_pt caller_root_pt config_phys irq) Q w.
Proof using PD Hroots.
  intros Hok Hk Hf Hg HN HS. set (k0 := wi_kernel w) in *. unfold wire_windows. pose proof (opened_same f l Hok) as Hsame.
  apply wp_and_then. eapply wp_open_config_space; [done..|]. fold k0. intros w1 Hw1.
  pose proof (opened_ok f l Hok) as Hok1. pose proof Hok1 as [Hf1 Hl1 Hn1 _ Hb1 _].
  apply wp_bind. eapply wp_walk_virtio; [apply Hw1|by rewrite (wr_fn _ _ _ _ _ Hw1)|done|]. intros d Hd.
  pose proof (wired_dev _ _ _ _ d w1 Hw1 Hd) as Hw2.
  change (common (layout_of l)) with (window_of VIRTIO_PCI_CAP_COMMON_CFG l).
  change (notify (layout_of l)) with (window_of VIRTIO_PCI_CAP_NOTIFY_CFG l).
  change (isr (layout_of l)) with (window_of VIRTIO_PCI_CAP_ISR_CFG l).
  change (device_cfg (layout_of l)) with (window_of VIRTIO_PCI_CAP_DEVICE_CFG l).
  assert (∀ w' mapped, wired (opened f) g k0 mapped w' → Q (Ok None) w') as HN'.
  { intros w' mapped Hw'. by eapply HN, (wired_harmless f (opened f)). }
  destruct (window_of VIRTIO_PCI_CAP_COMMON_CFG l) as [c|] eqn:Hc; [|by apply wp_ret, (HN' _ [])].
  pose proof (common_window _ _ Hok c Hc) as Hcok.
  assert (∀ kind win, window_of kind l = Some win → bar_index bars (win_bar win)) as Hbars by (intros kind win Hwin; by apply (window_bar f l Hok kind)).
  apply wp_and_then. eapply wp_map_pci_bar; [done..|by apply (Hbars _ c Hc)|intros w' Hw' _; by eapply HN'|].
  intros w3 common_va mapped Hw3 Hin _.
  apply wp_bind. eapply wp_resolve_window; [done..|by apply Hbars|]. intros w4 notify_va mapped4 Hw4 Hp4 Hr4.
  assert (∀ y, y ∈ mapped → y ∈ mapped4) as Hsub by (destruct Hp4 as [? ->]; intros y Hy; rewrite elem_of_app; by left).
  apply wp_bind. eapply wp_resolve_window; [done..|by apply Hsub|by apply Hbars|]. intros w5 isr_va mapped5 Hw5 Hp5 Hr5.
  assert (∀ y, y ∈ mapped4 → y ∈ mapped5) as Hsub5 by (destruct Hp5 as [? ->]; intros y Hy; rewrite elem_of_app; by left).
  apply wp_bind. eapply wp_resolve_window; [done..|by apply Hsub5, Hsub|by apply Hbars|]. intros w6 device_va mapped6 Hw6 Hp6 Hr6.
  assert ((win_bar c, common_va) ∈ mapped6) as Hin6 by (destruct Hp6 as [? ->]; rewrite elem_of_app; left; by apply Hsub5, Hsub).
  apply (resolved_prefix _ _ mapped6) in Hr5; [|done].
  apply (resolved_prefix _ _ mapped6) in Hr4; [|by etrans].
  assert (∀ w' vector, config_mapped w' → windows_ok (wi_maps w') mapped6 → harmless f g k0 w' →
    (vector = VIRTIO_MSI_NO_VECTOR ∧ fn w' = opened f ∨
     vector = 0%N ∧ ∃ m, msix_of l = Some m ∧ fn w' = msix_enabled (opened f) m) →
    Q (Ok (Some (mkWindows (layout_of l) (common_va + win_offset c) notify_va isr_va device_va vector))) w') as Hdone.
  { intros w' vector Hcm Hwin Hh Hv. apply HS.
    destruct (window_resolved f l _ _ _ _ _ Hok Hwin Hr4) as [A4 B4], (window_resolved f l _ _ _ _ _ Hok Hwin Hr5) as [A5 B5],
      (window_resolved f l _ _ _ _ _ Hok Hwin Hr6) as [A6 B6].
    assert (resolved (win_bar c) mapped6 (window_of VIRTIO_PCI_CAP_COMMON_CFG l) (common_va + win_offset c)) as Hrc
      by (rewrite Hc; right; by exists common_va).
    destruct (window_resolved f l _ _ _ _ _ Hok Hwin Hrc) as [Ac Bc]. rewrite Hc in Ac.
    split; [done| |done|done|done|done]. exists c. split_and!; [done| |done..].
    apply list_elem_of_lookup in Hin6 as [n Hn]. destruct (proj2 Hwin n _ _ Hn) as [-> _]. cbn.
    unfold slot, DRV_PCI_BAR_VA_BASE. clear. lia. }
  apply wp_and_then. eapply wp_select_vector; [done|done|done|..].
  - intros w' [Hk' Ho' Hg' Hs']. apply HN. split; [done..|by eapply same_bars_trans].
  - intros w' Hw'. apply wp_ret, Hdone; [apply Hw'|apply Hw'|by eapply (wired_harmless f (opened f))|].
    left. split; [done|apply Hw'].
  - intros w' m Hm Hw'. apply wp_ret, Hdone; [apply Hw'|apply Hw'| |].
    + eapply (wired_harmless f (msix_enabled (opened f) m)); [|done]. eapply same_bars_trans; [done|].
      apply msix_enabled_same; [done|]. by eapply msix_location.
    + right. split; [done|]. exists m. split; [done|apply Hw'].
Qed.
End mapping.
End device.
