(* ===== verification/PciDriver.v ===== *)
(** * From the capability list to the driver

    [wire_virtio_pci_transport] and [wire_virtio_pci_transport_net] of
    [kernel-arch-glue/src/lib.rs] together with [new_driver_for_this_transport] of the two
    drivers: the kernel resolves the register windows and leaves their addresses in the
    shared page, where the driver finds them. *)

From stdpp Require Import gmap.
From S2P Require Import Prelude PhysMem Capability CapTable Cdt Kernel Syscall KernelInv Boot Spawn.
From S2P Require Import ElfSpawn Virtio PciConfig PciTransport PciWindows.
From S2P Require VirtioBlk VirtioNet.

(** ** The shared page *)

(** The driver's loads from its page at [va] are reads of the page at [region]. *)
Definition sees {D} (DB : Bus D) (va region : N) (m : N → N) : Prop :=
  ∀ off d, (off + 8 ≤ 4096)%N → bus_load DB W64 (va + off) d = (rd m (region + off) 8, d).

Record header_at (m : N → N) (header : N) (x : Windows) : Prop := {
  ha_kind : rd m header 8 = 1%N;
  ha_common : rd m (header + 8) 8 = common_cfg_va x;
  ha_notify : rd m (header + 16) 8 = notify_cfg_va x;
  ha_multiplier : rd m (header + 24) 8 = notify_off_multiplier (w_caps x);
  ha_isr : rd m (header + 32) 8 = isr_cfg_va x;
  ha_device : rd m (header + 40) 8 = device_cfg_va x;
  ha_vector : rd m (header + 48) 8 = msix_vector x;
}.

Record words_ok (x : Windows) : Prop := {
  wo_addresses : (common_cfg_va x < U64 ∧ notify_cfg_va x < U64 ∧ isr_cfg_va x < U64 ∧ device_cfg_va x < U64)%N;
  wo_multiplier : (notify_off_multiplier (w_caps x) < U32)%N;
  wo_vector : (msix_vector x < U16)%N;
}.

Lemma load_header {D E} (DB : Bus D) va region m off v d :
  sees DB va region m → (va + 4096 < U64)%N → (off + 8 ≤ 4096)%N → rd m (region + off) 8 = v →
  (load DB W64 va off : M D E N) d = (Ok v, d).
Proof.
  intros Hs Hva Ho Hv. unfold load. rewrite checked_add_lt by lia. unfold unwrap, mbind, M_bind, mret, M_ret, read_volatile.
  rewrite Hs, Hv by done. do 2 f_equal. apply N.mod_small. subst v. apply rd_bound.
Qed.

Lemma blk_reads_header {D} (DB : Bus D) region m x d :
  sees DB VirtioBlk.DRV_QUEUE_VA region m → header_at m (region + VirtioBlk.layout.PCI_INFO_OFFSET) x → words_ok x →
  VirtioBlk.new_driver_for_this_transport DB d =
    (Ok (VirtioBlk.blk_new_pci (common_cfg_va x) (notify_cfg_va x) (notify_off_multiplier (w_caps x)) (isr_cfg_va x)
           (device_cfg_va x) VirtioBlk.DRV_QUEUE_VA (msix_vector x)), d).
Proof.
  intros Hs [H0 H1 H2 H3 H4 H5 H6] [_ Hm Hv]. unfold VirtioBlk.new_driver_for_this_transport.
  assert (∀ off v, (off ≤ 48)%N → rd m (region + VirtioBlk.layout.PCI_INFO_OFFSET + off) 8 = v →
    (load DB W64 VirtioBlk.DRV_QUEUE_VA (VirtioBlk.layout.PCI_INFO_OFFSET + off) : M D Empty_set N) d = (Ok v, d)) as Hl.
  { intros off v Ho Hr. eapply load_header; [done|done|unfold VirtioBlk.layout.PCI_INFO_OFFSET; lia|]. by rewrite N.add_assoc. }
  rewrite run_bind, (Hl 0%N 1%N) by (done || by rewrite N.add_0_r). cbn [N.eqb].
  do 6 (rewrite run_bind; erewrite Hl by done; cbv beta iota). unfold truncate. by rewrite !N.mod_small.
Qed.

Lemma net_reads_header {D} (DB : Bus D) region m x d :
  sees DB VirtioNet.DRV_RX_VA region m → header_at m (region + VirtioNet.layout.PCI_INFO_OFFSET) x → words_ok x →
  VirtioNet.new_driver_for_this_transport DB d =
    (Ok (VirtioNet.net_new_pci (common_cfg_va x) (notify_cfg_va x) (notify_off_multiplier (w_caps x)) (isr_cfg_va x)
           (device_cfg_va x) VirtioNet.DRV_RX_VA VirtioNet.DRV_TX_VA (msix_vector x)), d).
Proof.
  intros Hs [H0 H1 H2 H3 H4 H5 H6] [_ Hm Hv]. unfold VirtioNet.new_driver_for_this_transport.
  assert (∀ off v, (off ≤ 48)%N → rd m (region + VirtioNet.layout.PCI_INFO_OFFSET + off) 8 = v →
    (load DB W64 VirtioNet.DRV_RX_VA (VirtioNet.layout.PCI_INFO_OFFSET + off) : M D Empty_set N) d = (Ok v, d)) as Hl.
  { intros off v Ho Hr. eapply load_header; [done|done|unfold VirtioNet.layout.PCI_INFO_OFFSET; lia|]. by rewrite N.add_assoc. }
  rewrite run_bind. rewrite <- (N.add_0_r VirtioNet.layout.PCI_INFO_OFFSET) at 1. rewrite (Hl 0%N 1%N) by (done || by rewrite N.add_0_r). cbn [N.eqb].
  do 6 (rewrite run_bind; erewrite Hl by done; cbv beta iota). unfold truncate. by rewrite !N.mod_small.
Qed.

Section header.
Context {D E : Type}.

Lemma wp_write_header header x w (Q : outcome E unit → Wiring D → Prop) :
  (header + 56 < U64)%N → words_ok x →
  (∀ m, header_at m header x → Q (Ok tt) (mkWiring (wi_kernel w) m (wi_maps w) (wi_dev w) (wi_statics w))) →
  wp (write_header header x) Q w.
Proof.
  intros Hh [Ha Hm Hv] HQ. unfold write_header.
  do 6 (apply wp_bind, wp_bind; rewrite checked_add_lt by lia; apply wp_ret, wp_modify).
  apply wp_bind. rewrite checked_add_lt by lia. apply wp_ret, wp_modify. apply HQ. cbn [wi_mem].
  rewrite N.add_0_r. split; repeat (rewrite rd_wr_other by lia); apply rd_wr; cbn; lia.
Qed.
End header.

(** ** The theorem *)

Lemma multiplier_bound f ptr l : cap_list f ptr l → (multiplier_of l < U32)%N.
Proof.
  intros Hl. unfold multiplier_of. destruct (last _) as [mult|] eqn:Hm; [|done]. cbn.
  apply last_Some_elem_of, list_elem_of_omap in Hm as ([p c] & Hin & Hc). cbn in Hc.
  destruct c as [t b o mult'|b table|id]; [|done..]. destruct (N.eqb_spec t VIRTIO_PCI_CAP_NOTIFY_CFG) as [->|]; [|done]. injection Hc as ->.
  destruct (cap_list_elem _ _ _ _ _ Hl Hin) as (_ & _ & _ & _ & _ & _ & _ & Hd). rewrite <- Hd by done. apply reg_bound.
Qed.

(** A register ends within the address space. *)
Lemma bar_end f i bar base size : bar_at f i bar → located bar = Some (base, size) → (base + size ≤ U64)%N.
Proof.
  intros Hb Hl. destruct bar as [| |wide pf b s]; [done..|]. injection Hl as -> ->.
  destruct Hb as (k & -> & [Hs Ha Hb _ _ _]). assert (2 ^ bar_width wide ≤ U64)%N as Hw by by destruct wide.
  assert (bar_width wide = k + (bar_width wide - k))%N as Hk by lia. rewrite Hk, N.pow_add_r in Hb, Hw.
  apply N.Div0.mod_divides in Ha as [q ->].
  assert (2 ^ k ≠ 0)%N by (by apply N.pow_nonzero).
  apply N.mul_lt_mono_pos_l in Hb; [|lia]. nia.
Qed.

Section driver.
Context {D E : Type} (B : Bus D) (config_phys : N) (fn_of : D → PciFunction) {PD : PciDevice B config_phys fn_of}.
Context (caller_root_pt drv_root_pt : N) (Hroots : drv_root_pt ≠ caller_root_pt) {BF : Bitflags} (hal : HalInterface).
Context (msi_message : N → option (N * N)) (bars : N → Bar).

Abbreviation found := (windows_found config_phys fn_of caller_root_pt drv_root_pt bars).
Abbreviation quiet := (harmless fn_of).
Abbreviation fn w := (fn_of (wi_dev w)).

Lemma found_words f l g k0 x w : device_ok config_phys bars f l → found f l g k0 x w → words_ok x.
Proof using.
  intros Hok [Hc _ Hw Hv _ _]. split; [done| |].
  - rewrite Hc. eapply multiplier_bound, dk_list. exact Hok.
  - by destruct Hv as [[-> _]|[-> _]].
Qed.

Lemma found_function f l g k0 x w :
  device_ok config_phys bars f l → found f l g k0 x w → function_ok (fn w) ∧ bars_at (fn w) bars.
Proof using Hroots.
  intros Hok [_ _ _ Hv _ [_ _ _ Hs]]. split; [|by eapply bars_at_same, dk_bars].
  pose proof (opened_ok _ _ _ _ Hok) as Hok1. pose proof (dk_function _ _ _ _ Hok1) as Hf1.
  destruct Hv as [[_ ->]|(_ & m & Hm & ->)]; [done|].
  pose proof (msix_location _ _ _ _ Hok1 m Hm) as Hmo. eapply msix_index in Hmo as [_ Hi]; [|exact Hroots].
  apply write_fn_ok; [done|lia|lia].
Qed.

(** The physical address of a window. *)
Definition phys_of (window : option VirtioPciCapWindow) : N :=
  match window with
  | None => U64 - 1
  | Some win =>
      match located (bars (win_bar win)) with Some (base, _) => base + win_offset win | None => U64 - 1 end
  end.

Lemma wp_window_phys f l kind w (Q : outcome E N → Wiring D → Prop) :
  device_ok config_phys bars f l → config_mapped config_phys caller_root_pt w → function_ok (fn w) → bars_at (fn w) bars →
  (∀ d, fn_of d = fn w → Q (Ok (phys_of (window_of kind l))) (set_dev d w)) →
  wp (window_phys B caller_root_pt (window_of kind l)) Q w.
Proof using PD Hroots.
  intros Hok Hm Hf Hb HQ. unfold window_phys, phys_of in *. destruct (window_of kind l) as [win|] eqn:Hw.
  2: { apply wp_ret. specialize (HQ (wi_dev w) eq_refl). by destruct w. }
  destruct (window_bar _ _ _ _ Hok _ _ Hw) as [[Hbi _] Hs]. pose proof Hbi as [Hb5 _].
  assert (∃ i, i ≤ 5 ∧ win_bar win = N.of_nat i) as (i & Hi & Eb) by (exists (N.to_nat (win_bar win)); lia).
  apply wp_bind. rewrite Eb in *. eapply wp_bar; [done|done|done|exact Hi|by apply Hb|].
  intros d Hd. destruct (located (bars (N.of_nat i))) as [[base size]|] eqn:Hloc; [|by apply wp_ret, HQ].
  rewrite checked_add_lt; [by apply wp_ret, HQ|]. specialize (Hs base size eq_refl).
  pose proof (bar_end (fn w) (4 + i) (bars (N.of_nat i)) base size (Hb i Hbi) Hloc). lia.
Qed.

(** The outcomes of a wiring: it gives up, or the windows are found and [P] holds. *)
Definition wires (f : PciFunction) (l : list (N * PciCap)) (w : Wiring D) (P : Windows → Wiring D → Prop)
    (r : outcome E (option unit)) (w' : Wiring D) : Prop :=
  match r with
  | Ok (Some _) => ∃ x, found f l (wi_statics w') (wi_kernel w) x w' ∧ P x w'
  | Ok None => quiet f (wi_statics w) (wi_kernel w) w'
  | _ => False
  end.

Lemma found_change f l g g' k0 x w w' :
  found f l g k0 x w → wi_maps w' = wi_maps w → wi_kernel w' = wi_kernel w → fn w' = fn w → wi_statics w' = g' →
  found f l g' k0 x w'.
Proof using.
  intros [H1 H2 H3 H4 H5 [H6 H7 _ H8]] Hm Hk Hf Hg. split; try done; try (by rewrite Hm); try (by rewrite Hf).
  - intros off Ho. rewrite Hm. by apply H5.
  - split; try done; try (by rewrite Hk). by rewrite Hf.
Qed.

(** C14 The drivers find their devices.  For every PCI function whose registers and
    capability list follow the specifications: wiring does not panic or fault; it either
    gives up or maps the windows of the capabilities (the last of each kind) into
    the driver's process, so that each address in the shared page translates to the
    window's physical address; and the driver that is started builds its transport from
    exactly these addresses.  COMMON_CFG and every window in the same register are
    always there; another is 0 if its register could not be mapped.  The base address
    registers have the values they had; of the kernel's objects only the
    untyped memory has changed. *)
Theorem driver_finds_device f l w region irq :
  device_ok config_phys bars f l → kinv (wi_kernel w) → fn w = f → (region + 4096 < U64)%N →
  (let '(r, w') := wire_virtio_pci_transport B hal msi_message drv_root_pt caller_root_pt config_phys region irq w in
   wires f l w (λ x w',
     drv_isr_cfg_va (wi_statics w') = isr_cfg_va x ∧
     ∀ D' (DB : Bus D') d, sees DB VirtioBlk.DRV_QUEUE_VA region (wi_mem w') →
       VirtioBlk.new_driver_for_this_transport DB d =
         (Ok (VirtioBlk.blk_new_pci (common_cfg_va x) (notify_cfg_va x) (multiplier_of l) (isr_cfg_va x)
                (device_cfg_va x) VirtioBlk.DRV_QUEUE_VA (msix_vector x)), d)) r w') ∧
  (let '(r, w') := wire_virtio_pci_transport_net B hal msi_message drv_root_pt caller_root_pt config_phys region irq w in
   wires f l w (λ x w',
     wi_statics w' = mkStatics (drv_isr_cfg_va (wi_statics w)) (isr_cfg_va x)
       (phys_of (window_of VIRTIO_PCI_CAP_ISR_CFG l)) (phys_of (window_of VIRTIO_PCI_CAP_NOTIFY_CFG l))
       (notify_cfg_va x) (multiplier_of l) ∧
     ∀ D' (DB : Bus D') d, sees DB VirtioNet.DRV_RX_VA region (wi_mem w') →
       VirtioNet.new_driver_for_this_transport DB d =
         (Ok (VirtioNet.net_new_pci (common_cfg_va x) (notify_cfg_va x) (multiplier_of l) (isr_cfg_va x)
                (device_cfg_va x) VirtioNet.DRV_RX_VA VirtioNet.DRV_TX_VA (msix_vector x)), d)) r w').
Proof using PD Hroots.
  intros Hok Hk Hf Hr. split.
  - enough (wp (wire_virtio_pci_transport B hal msi_message drv_root_pt caller_root_pt config_phys region irq) (wires f l w _) w) as Hwp
      by (unfold wp in Hwp; by destruct (wire_virtio_pci_transport _ _ _ _ _ _ _ _ w)).
    apply wp_and_then. eapply wp_wire_windows; [done..|by intros w' Hw'|]. intros w1 x Hx.
    pose proof (found_words _ _ _ _ _ _ Hok Hx) as Hwords. apply wp_bind, wp_modify, wp_bind.
    unfold VirtioBlk.layout.PCI_INFO_OFFSET. rewrite checked_add_lt by lia. apply wp_ret, wp_bind, wp_write_header; [lia|done|].
    intros m Hm. apply wp_ret. exists x. split; [by eapply found_change|]. split; [done|]. intros D' DB d Hs.
    rewrite (blk_reads_header DB region m x d Hs Hm Hwords). by rewrite (wf_caps _ _ _ _ _ _ _ _ _ _ _ Hx).
  - enough (wp (wire_virtio_pci_transport_net B hal msi_message drv_root_pt caller_root_pt config_phys region irq) (wires f l w _) w) as Hwp
      by (unfold wp in Hwp; by destruct (wire_virtio_pci_transport_net _ _ _ _ _ _ _ _ w)).
    apply wp_and_then. eapply wp_wire_windows; [done..|by intros w' Hw'|]. intros w1 x Hx.
    pose proof (found_words _ _ _ _ _ _ Hok Hx) as Hwords. destruct (found_function _ _ _ _ _ _ Hok Hx) as [Hf1 Hb1].
    pose proof (wf_caps _ _ _ _ _ _ _ _ _ _ _ Hx) as Hcaps. rewrite Hcaps. apply wp_bind, wp_modify, wp_bind.
    change (isr (layout_of l)) with (window_of VIRTIO_PCI_CAP_ISR_CFG l). change (notify (layout_of l)) with (window_of VIRTIO_PCI_CAP_NOTIFY_CFG l).
    eapply wp_window_phys; [done|by apply (wf_config _ _ _ _ _ _ _ _ _ _ _ Hx)|done|done|]. intros d1 H1. cbn [set_dev wi_dev] in *.
    apply wp_bind. eapply wp_window_phys; [done|by apply (wf_config _ _ _ _ _ _ _ _ _ _ _ Hx)|cbn; by rewrite H1|cbn; by rewrite H1|].
    intros d2 H2. cbn [set_dev wi_dev] in *. apply wp_bind, wp_modify, wp_bind.
    unfold VirtioNet.layout.PCI_INFO_OFFSET. rewrite checked_add_lt by lia. apply wp_ret, wp_bind, wp_write_header; [lia|done|].
    intros m Hm. apply wp_ret. exists x. split.
    { eapply found_change; [exact Hx|done|done| |done]. cbn. by rewrite H2, H1. }
    split; [cbn; by rewrite (hl_statics _ _ _ _ _ (wf_harmless _ _ _ _ _ _ _ _ _ _ _ Hx))|]. intros D' DB d Hs.
    rewrite (net_reads_header DB region m x d Hs Hm Hwords). by rewrite Hcaps.
Qed.
End driver.

(** ** A disk on the bus *)

(** The function alone behind the bus. *)
Definition function_bus (config_phys : N) : Bus PciFunction := {|
  bus_load w a f :=
    (if (config_phys <=? a)%N && (a <? config_phys + 256)%N then
       match w with W8 => byte f (a - config_phys) | _ => dword f (a - config_phys) end
     else 0%N, f);
  bus_store w a v f :=
    if (config_phys <=? a)%N && (a <? config_phys + 256)%N then write_fn f (N.to_nat ((a - config_phys) / 4)) v else f;
  bus_wait f := f;
|}.

#[export] Instance function_device config_phys : PciDevice (function_bus config_phys) config_phys (λ f, f).
Proof.
  split.
  - intros off f [_ Ho]. cbn [function_bus bus_load fst snd]. rewrite (proj2 (N.leb_le _ _)), (proj2 (N.ltb_lt _ _)) by lia.
    cbn [andb]. replace (config_phys + off - config_phys)%N with off by lia. split; [apply truncate_reg|done].
  - intros off f Ho. cbn [function_bus bus_load fst snd]. rewrite (proj2 (N.leb_le _ _)), (proj2 (N.ltb_lt _ _)) by lia.
    cbn [andb]. replace (config_phys + off - config_phys)%N with off by lia. split; [|done].
    apply N.mod_small. unfold byte. by apply N.mod_lt.
  - intros off v f [_ Ho]. cbn [function_bus bus_store]. rewrite (proj2 (N.leb_le _ _)), (proj2 (N.ltb_lt _ _)) by lia.
    cbn [andb]. by replace (config_phys + off - config_phys)%N with off by lia.
  - intros w a v f Ha. cbn [function_bus bus_store]. destruct (N.leb_spec config_phys a); [|done].
    by rewrite (proj2 (N.ltb_ge _ _)) by lia.
Qed.

(** The first two words of a capability, [next] being the one after it. *)
Definition cap_words (next cfg_type bar offset : N) : list N :=
  [9 + next * 256 + cfg_type * 16777216; bar; offset; 4096; 4]%N.

Definition disk_function : PciFunction :=
  mkPciFunction
    ([6900 + 65536 * 4161; 1048576; 16777216; 0; 0; 4273803264; 0; 0; 12; 128] ++ replicate 3 0 ++ [64] ++ replicate 2 0 ++
     cap_words 84 1 4 0 ++ cap_words 104 2 4 12288 ++ cap_words 124 3 4 4096 ++ cap_words 144 4 4 8192 ++
     [17; 1; 0] ++ replicate 25 0)%N
    ([0; 6; 0; 0; 0; 4294963200; 0; 0; 4294950912; 4294967295] ++ replicate 26 0 ++ [2147483648] ++ replicate 27 0)%N.

Definition disk_caps : list (N * PciCap) :=
  [(64, VirtioCap 1 4 0 4); (84, VirtioCap 2 4 12288 4); (104, VirtioCap 3 4 4096 4); (124, VirtioCap 4 4 8192 4);
   (144, MsixCap 1 0)]%N.

Definition disk_bars (b : N) : Bar :=
  if (b =? 1)%N then MemBar false false 4273803264 4096
  else if (b =? 4)%N then MemBar true true 549755813888 16384 else NoBar.

Definition ECAM_PHYS : N := 2952822784.

Lemma disk_ok : device_ok ECAM_PHYS disk_bars disk_function disk_caps.
Proof.
  assert (∀ b base size, located (disk_bars b) = Some (base, size) →
    base = 4273803264 ∧ size = 4096 ∨ base = 549755813888 ∧ size = 16384)%N as Hl.
  { unfold disk_bars. intros b base size. destruct (b =? 1)%N; [|destruct (b =? 4)%N]; [| |done]; intros [= <- <-]; auto. }
  split.
  - split; [done|by repeat constructor|done].
  - cbn [cap_list disk_caps]. by split_and!.
  - cbn. lia.
  - repeat constructor; cbn [cap_ok snd]; try done; cbn; intros base size [= <- <-]; done.
  - intros i [Hi Hu]. do 6 (destruct i as [|i]; [first [done | by split | exists 12%N; by split | exists 14%N; by split]|]). lia.
  - intros b base size [[-> ->]|[-> ->]]%Hl; unfold ECAM_PHYS; lia.
Qed.

(** The page of the driver, and what it has been given. *)
Definition page_bus (va region : N) (m : N → N) : Bus unit := {|
  bus_load w a u := (rd m (region + (a - va)) 8, u);
  bus_store w a v u := u;
  bus_wait u := u;
|}.

Definition disk_wiring : Wiring PciFunction :=
  mkWiring sample_state (λ _, 0%N) [] disk_function (mkStatics 0 0 0 0 0 0).

Lemma page_bus_sees va region m : sees (page_bus va region m) va region m.
Proof. intros off d _. cbn. by replace (region + (va + off - va))%N with (region + off)%N by lia. Qed.

Definition wire_disk : outcome Empty_set (option unit) * Wiring PciFunction :=
  wire_virtio_pci_transport (function_bus ECAM_PHYS) sample_hal (λ irq, Some (4276092928, irq)%N) 131072 65536 ECAM_PHYS
    196608 44 disk_wiring.

(** A disk whose windows lie in a 64-bit register, with its MSI-X table in another. *)
Lemma driver_finds_device_witness :
  wires ECAM_PHYS (λ f, f) 65536 131072 disk_bars disk_function disk_caps disk_wiring
    (λ x w',
      VirtioBlk.new_driver_for_this_transport (page_bus VirtioBlk.DRV_QUEUE_VA 196608 (wi_mem w')) tt =
        (Ok (VirtioBlk.blk_new_pci (common_cfg_va x) (notify_cfg_va x) 4 (isr_cfg_va x) (device_cfg_va x)
               VirtioBlk.DRV_QUEUE_VA (msix_vector x)), tt)) wire_disk.1 wire_disk.2 ∧
  wire_disk.1 = Ok (Some tt) ∧
  drv_isr_cfg_va (wi_statics wire_disk.2) = 3628077056%N ∧
  translate (wi_maps wire_disk.2) 131072 3628085248 = Some 549755826176%N ∧
  (VirtioBlk.new_driver_for_this_transport (page_bus VirtioBlk.DRV_QUEUE_VA 196608 (wi_mem wire_disk.2)) tt).1 =
    (Ok (VirtioBlk.blk_new_pci 3628072960 3628085248 4 3628077056 3628081152 VirtioBlk.DRV_QUEUE_VA 0)
     : outcome Empty_set VirtioBlk.VirtioBlk).
Proof.
  destruct (driver_finds_device (E := Empty_set) (function_bus ECAM_PHYS) ECAM_PHYS (λ f, f) 65536 131072 ltac:(done) sample_hal
    (λ irq, Some (4276092928, irq)%N) disk_bars disk_function disk_caps disk_wiring 196608 44 disk_ok sample_state_kinv
    eq_refl eq_refl) as [H _].
  split; [|split_and!; vm_compute; reflexivity].
  unfold wire_disk. destruct (wire_virtio_pci_transport _ _ _ _ _ _ _ _ _) as [r w']. unfold wires in *. cbn [fst snd].
  destruct r as [[u|]|e|]; try done. destruct H as (x & Hx & _ & Hd). exists x. split; [done|].
  apply Hd, page_bus_sees.
Defined.
