(* ===== verification/Irq.v ===== *)
(** * Interrupt controllers

    [hal-core/src/interrupt.rs], and what [hal-*/src/interrupt.rs] have in common: the table
    of handlers with its range checks, around four operations on the hardware
    ([IrqHw]).  [IrqMachine] is what a machine promises of these operations and of its
    dispatch of an interrupt; [serves] is the contract of the trait, and
    [irq_machine_serves] derives it for every such machine.

    A handler is a function pointer of type [H]: its calls are recorded.  Handlers do not use
    the controller (the kernel's trampolines signal a notification). *)

From stdpp Require Import gmap.
From S2P Require Import Prelude.

(** ** The code *)

Inductive IrqError := InvalidIrqId | IrqAlreadyRegistered | InvalidIpiTarget.

Inductive Call (H : Type) := CallHandler (h : H) (irq : N) | CallTimer.
Arguments CallHandler {H}. Arguments CallTimer {H}.

(** The device and the registers of the processor ([mc_dev]); the controller's fields;
    [GLOBAL_CONTROLLER_PTR] not being zero. *)
Record Machine (D H : Type) := mkMachine {
  mc_dev : D;
  mc_handlers : list (option H);
  mc_core_count : N;
  mc_installed : bool;
  mc_calls : list (Call H);
}.
Arguments mkMachine {D H}. Arguments mc_dev {D H}. Arguments mc_handlers {D H}.
Arguments mc_core_count {D H}. Arguments mc_installed {D H}. Arguments mc_calls {D H}.

(** What differs between the machines: the usable lines [hw_first <= irq < hw_limit], the
    size of the table, and the accesses to the hardware. *)
Class IrqHw (D : Type) := {
  hw_first : N;
  hw_limit : N;
  hw_slots : nat;
  hw_register : ∀ {E}, N → M D E unit;
  hw_unregister : ∀ {E}, N → M D E unit;
  hw_mask : ∀ {E}, N → M D E unit;
  hw_unmask : ∀ {E}, N → M D E unit;
  hw_send_ipi : ∀ {E}, N → N → M D E unit;
}.

Section code.
Context {D H : Type} `{HW : IrqHw D}.

Abbreviation W E := (M (Machine D H) E) (only parsing).

Definition on_dev {E A} : M D E A → W E A :=
  zoom mc_dev (λ d m, mkMachine d (mc_handlers m) (mc_core_count m) (mc_installed m) (mc_calls m)).

Definition set_handlers {E} (l : list (option H)) : W E unit :=
  modify (λ m, mkMachine (mc_dev m) l (mc_core_count m) (mc_installed m) (mc_calls m)).

Definition record_call {E} (c : Call H) : W E unit :=
  modify (λ m, mkMachine (mc_dev m) (mc_handlers m) (mc_core_count m) (mc_installed m) (mc_calls m ++ [c])).

(** [InterruptCtrl::new], once it is made the global controller. *)
Definition new_controller (d : D) : Machine D H :=
  mkMachine d (replicate hw_slots None) 1 true [].

Definition set_topology {E} (core_count : N) : W E unit :=
  modify (λ m, mkMachine (mc_dev m) (mc_handlers m) core_count (mc_installed m) (mc_calls m)).

Definition usable (irq : N) : bool := (hw_first <=? irq)%N && (irq <? hw_limit)%N.

(** [handlers.borrow()[idx]] *)
Definition handler_at {E} (irq : N) : W E (option H) :=
  l ← gets mc_handlers; unwrap (l !! N.to_nat (irq - hw_first)).

Definition register_irq (irq : N) (handler : H) : W IrqError unit :=
  if negb (usable irq) then throw InvalidIrqId else
  h ← handler_at irq;
  match h with
  | Some _ => throw IrqAlreadyRegistered
  | None =>
      l ← gets mc_handlers;
      _ ← set_handlers (<[N.to_nat (irq - hw_first) := Some handler]> l);
      on_dev (hw_register irq)
  end.

Definition unregister_irq (irq : N) : W IrqError unit :=
  if negb (usable irq) then mret tt else
  _ ← handler_at irq;
  l ← gets mc_handlers;
  _ ← set_handlers (<[N.to_nat (irq - hw_first) := None]> l);
  on_dev (hw_unregister irq).

Definition mask_irq (irq : N) : W IrqError unit :=
  if negb (usable irq) then throw InvalidIrqId else on_dev (hw_mask irq).

Definition unmask_irq (irq : N) : W IrqError unit :=
  if negb (usable irq) then throw InvalidIrqId else on_dev (hw_unmask irq).

Definition send_ipi (target_core vector : N) : W IrqError unit :=
  count ← gets mc_core_count;
  if (count <=? truncate U32 target_core)%N then throw InvalidIpiTarget else on_dev (hw_send_ipi target_core vector).

Definition ipi_target_core_count (m : Machine D H) : N := mc_core_count m.

(** The part of a dispatch that calls the handler of a line. *)
Definition call_handler {E} (irq : N) : W E unit :=
  if negb (usable irq) then mret tt else
  h ← handler_at irq;
  match h with
  | Some h => record_call (CallHandler h irq)
  | None => mret tt
  end.
End code.

(** ** The contract *)

(** What a client sees: handlers, the lines that may interrupt, the lines that devices have
    raised and that have not been served, and the calls so far. *)
Record View (H : Type) := mkView {
  registered : gmap N H;
  unmasked : gset N;
  raised : gset N;
  calls : list (Call H);
}.
Arguments mkView {H}. Arguments registered {H}. Arguments unmasked {H}. Arguments raised {H}. Arguments calls {H}.

Inductive Event (H : Type) :=
| Register (irq : N) (h : H)
| Unregister (irq : N)
| Mask (irq : N)
| Unmask (irq : N)
| Raise (irq : N)
| Interrupt.
Arguments Register {H}. Arguments Unregister {H}. Arguments Mask {H}. Arguments Unmask {H}.
Arguments Raise {H}. Arguments Interrupt {H}.

(** [maskable]: the controller can mask a line.  [timer]: the line of the timer, which has no
    handler in the table.  [line i]: a device may raise [i]. *)
Record Lines := mkLines {
  ln_first : N;
  ln_limit : N;
  ln_maskable : bool;
  ln_timer : option N;
  ln_line : N → Prop;
}.

Section spec.
Context {H : Type} (L : Lines).

Definition in_lines (irq : N) : Prop := (ln_first L ≤ irq < ln_limit L)%N.

Definition hide (irq : N) (u : gset N) : gset N := if ln_maskable L then u ∖ {[irq]} else u.

(** What is called for a line. *)
Definition called (r : gmap N H) (irq : N) : list (Call H) :=
  if decide (ln_timer L = Some irq) then [CallTimer]
  else match r !! irq with Some h => [CallHandler h irq] | None => [] end.

Definition deliverable (v : View H) : gset N := raised v ∩ unmasked v.

Definition spec_step (v : View H) (e : Event H) (r : outcome IrqError unit) (v' : View H) : Prop :=
  match e with
  | Register irq h =>
      if decide (in_lines irq) then
        match registered v !! irq with
        | Some _ => r = Err IrqAlreadyRegistered ∧ v' = v
        | None => r = Ok tt ∧
            v' = mkView (<[irq := h]> (registered v)) ({[irq]} ∪ unmasked v) (raised v) (calls v)
        end
      else r = Err InvalidIrqId ∧ v' = v
  | Unregister irq =>
      r = Ok tt ∧
      v' = if decide (in_lines irq) then mkView (delete irq (registered v)) (hide irq (unmasked v)) (raised v) (calls v)
           else v
  | Mask irq =>
      if decide (in_lines irq) then
        r = Ok tt ∧ v' = mkView (registered v) (hide irq (unmasked v)) (raised v) (calls v)
      else r = Err InvalidIrqId ∧ v' = v
  | Unmask irq =>
      if decide (in_lines irq) then
        r = Ok tt ∧ ∃ u, u ∖ {[irq]} = unmasked v ∖ {[irq]} ∧ (is_Some (registered v !! irq) → irq ∈ u) ∧
          v' = mkView (registered v) u (raised v) (calls v)
      else r = Err InvalidIrqId ∧ v' = v
  | Raise irq => r = Ok tt ∧ v' = mkView (registered v) (unmasked v) ({[irq]} ∪ raised v) (calls v)
  | Interrupt =>
      r = Ok tt ∧
      (deliverable v = ∅ ∧ v' = v ∨
       ∃ irq, irq ∈ deliverable v ∧
         v' = mkView (registered v) (unmasked v) (raised v ∖ {[irq]}) (calls v ++ called (registered v) irq))
  end.

Inductive spec_run : View H → list (Event H) → list (outcome IrqError unit) → View H → Prop :=
| spec_nil v : spec_run v [] [] v
| spec_cons v e r v' es rs v'' :
    spec_step v e r v' → spec_run v' es rs v'' → spec_run v (e :: es) (r :: rs) v''.

(** Serving in a row leaves nothing deliverable, and calls each handler once. *)
Lemma spec_drain n : ∀ v rs v',
  spec_run v (replicate n Interrupt) rs v' → size (deliverable v) ≤ n →
  deliverable v' = ∅ ∧ ∃ order, order ≡ₚ elements (deliverable v) ∧
    calls v' = calls v ++ mjoin (called (registered v) <$> order).
Proof.
  induction n as [|n IH]; intros v rs v' Hr Hn; inversion Hr as [|? ? r v1 ? ? ? Hs Hr']; subst; clear Hr.
  { assert (deliverable v' = ∅) as E by (apply leibniz_equiv, size_empty_iff; lia).
    split; [done|]. exists []. by rewrite E, elements_empty, app_nil_r. }
  destruct Hs as [_ [[E ->]|(irq & Hirq & ->)]].
  { destruct (IH _ _ _ Hr') as [H1 H2]; [rewrite E, size_empty; lia|]. by split. }
  set (v1 := mkView _ _ _ _) in *.
  assert (deliverable v = {[irq]} ∪ deliverable v1 ∧ irq ∉ deliverable v1) as [Hd Hni].
  { unfold deliverable, v1 in *. cbn. split; [|set_solver]. apply set_eq. intros j.
    destruct (decide (j = irq)); set_solver. }
  destruct (IH _ _ _ Hr') as (Hend & order & Hp & Hc).
  { rewrite Hd, size_union, size_singleton in Hn by set_solver. lia. }
  split; [done|]. exists (irq :: order). split.
  - rewrite Hd, elements_union_singleton by done. by constructor.
  - rewrite Hc. cbn. by rewrite <- app_assoc.
Qed.
End spec.

(** ** What a machine promises *)

(** How a device raises a line, the processor's reaction to a raised line, and what can be
    seen of the device: nothing is in service ([im_quiet]), lines the controller has set up. *)
Class IrqMachine (D : Type) := {
  im_raise : N → D → D;
  im_interrupt : ∀ {H}, M (Machine D H) IrqError unit;
  im_quiet : D → Prop;
  im_unmasked : D → gset N;
  im_raised : D → gset N;
  im_configured : D → gset N;
}.

Record effect {D} `{IrqMachine D} (d d' : D) (u r : gset N) : Prop := {
  ef_quiet : im_quiet d';
  ef_unmasked : im_unmasked d' = u;
  ef_raised : im_raised d' = r;
  ef_configured : im_configured d ⊆ im_configured d';
}.

(** The handlers as a map. *)
Definition table_is {D H} `{IrqHw D} (m : Machine D H) (r : gmap N H) : Prop :=
  ∀ irq, r !! irq = if usable irq then mjoin (mc_handlers m !! N.to_nat (irq - hw_first)) else None.

Definition with_dev {D H} (d : D) (m : Machine D H) : Machine D H :=
  mkMachine d (mc_handlers m) (mc_core_count m) (mc_installed m) (mc_calls m).

Definition add_calls {D H} (c : list (Call H)) (m : Machine D H) : Machine D H :=
  mkMachine (mc_dev m) (mc_handlers m) (mc_core_count m) (mc_installed m) (mc_calls m ++ c).

Class IrqMachineSpec (D : Type) `{HW : IrqHw D} `{IM : IrqMachine D} (L : Lines) : Prop := {
  is_first : ln_first L = hw_first;
  is_limit : ln_limit L = hw_limit;
  is_slots : (hw_limit ≤ hw_first + N.of_nat hw_slots)%N;
  is_register irq d : in_lines L irq → im_quiet d → ∃ d',
    (∀ E, hw_register (E := E) irq d = (Ok tt, d')) ∧ effect d d' ({[irq]} ∪ im_unmasked d) (im_raised d) ∧
    irq ∈ im_configured d';
  is_unregister irq d : in_lines L irq → im_quiet d → ∃ d',
    (∀ E, hw_unregister (E := E) irq d = (Ok tt, d')) ∧ effect d d' (hide L irq (im_unmasked d)) (im_raised d);
  is_mask irq d : in_lines L irq → im_quiet d → ∃ d',
    (∀ E, hw_mask (E := E) irq d = (Ok tt, d')) ∧ effect d d' (hide L irq (im_unmasked d)) (im_raised d);
  is_unmask irq d : in_lines L irq → im_quiet d → ∃ d' u,
    (∀ E, hw_unmask (E := E) irq d = (Ok tt, d')) ∧ effect d d' u (im_raised d) ∧
    u ∖ {[irq]} = im_unmasked d ∖ {[irq]} ∧ (irq ∈ im_configured d → irq ∈ u);
  is_raise irq d : ln_line L irq → im_quiet d → effect d (im_raise irq d) (im_unmasked d) ({[irq]} ∪ im_raised d);
  is_interrupt H (m : Machine D H) r :
    im_quiet (mc_dev m) → mc_installed m = true → length (mc_handlers m) = hw_slots → table_is m r →
    let d := mc_dev m in
    ∃ d' c r', im_interrupt m = (Ok tt, with_dev d' (add_calls c m)) ∧ effect d d' (im_unmasked d) r' ∧
      (im_raised d ∩ im_unmasked d = ∅ ∧ r' = im_raised d ∧ c = [] ∨
       ∃ irq, irq ∈ im_raised d ∩ im_unmasked d ∧ r' = im_raised d ∖ {[irq]} ∧ c = called L r irq);
}.

Lemma run_on_dev {D H E A} (op : M D E A) (m : Machine D H) r d' :
  op (mc_dev m) = (r, d') → on_dev op m = (r, with_dev d' m).
Proof. intros E'. unfold on_dev, zoom. by rewrite E'. Qed.

(** What a dispatch calls, as a function of the table. *)
Lemma call_handler_run {D H E} `{HW : IrqHw D} (m : Machine D H) r irq :
  (hw_limit ≤ hw_first + N.of_nat hw_slots)%N → length (mc_handlers m) = hw_slots → table_is m r →
  (call_handler irq m : outcome E unit * _) =
    (Ok tt, add_calls (match r !! irq with Some h => [CallHandler h irq] | None => [] end) m).
Proof.
  intros Hs Hl Ht. unfold call_handler. rewrite (Ht irq). destruct (usable irq) eqn:Hu; cbn [negb].
  - apply andb_prop in Hu as [H1%N.leb_le H2%N.ltb_lt].
    destruct (lookup_lt_is_Some_2 (mc_handlers m) (N.to_nat (irq - hw_first))) as [o Ho]; [lia|].
    unfold handler_at. run. rewrite Ho. run. destruct o as [h|]; cbn [mjoin option_join]; [done|].
    unfold add_calls. rewrite app_nil_r. by destruct m.
  - unfold add_calls. rewrite app_nil_r. by destruct m.
Qed.

Lemma add_remove (u : gset N) (i : N) : ({[i]} ∪ u) ∖ {[i]} = u ∖ {[i]}.
Proof. set_solver. Qed.

Lemma called_no_timer {H} (L : Lines) (r : gmap N H) irq :
  ln_timer L ≠ Some irq → called L r irq = match r !! irq with Some h => [CallHandler h irq] | None => [] end.
Proof. intros Ht. unfold called. by rewrite decide_False. Qed.

(** ** The theorem *)

Section refinement.
Context {D H : Type} `{HW : IrqHw D} `{IM : IrqMachine D} (L : Lines) {IS : IrqMachineSpec D L}.

Definition run_event (e : Event H) : M (Machine D H) IrqError unit :=
  match e with
  | Register irq h => register_irq irq h
  | Unregister irq => unregister_irq irq
  | Mask irq => mask_irq irq
  | Unmask irq => unmask_irq irq
  | Raise irq => modify (λ m, with_dev (im_raise irq (mc_dev m)) m)
  | Interrupt => im_interrupt
  end.

Fixpoint run_events (es : list (Event H)) (m : Machine D H) : list (outcome IrqError unit) * Machine D H :=
  match es with
  | [] => ([], m)
  | e :: es => let '(r, m) := run_event e m in let '(rs, m) := run_events es m in (r :: rs, m)
  end.

Record sees (m : Machine D H) (v : View H) : Prop := {
  se_quiet : im_quiet (mc_dev m);
  se_installed : mc_installed m = true;
  se_slots : length (mc_handlers m) = hw_slots;
  se_table : table_is m (registered v);
  se_unmasked : unmasked v = im_unmasked (mc_dev m);
  se_raised : raised v = im_raised (mc_dev m);
  se_calls : calls v = mc_calls m;
  se_configured : dom (registered v) ⊆ im_configured (mc_dev m);
}.

Definition event_ok (e : Event H) : Prop := match e with Raise irq => ln_line L irq | _ => True end.

Lemma usable_lines irq : usable irq = bool_decide (in_lines L irq).
Proof using IS.
  unfold usable, in_lines. rewrite is_first, is_limit. destruct (N.leb_spec hw_first irq), (N.ltb_spec irq hw_limit); cbn;
    symmetry; [apply bool_decide_true|apply bool_decide_false..]; lia.
Qed.

Lemma slot_in_table (m : Machine D H) v irq :
  sees m v → in_lines L irq → ∃ o, mc_handlers m !! N.to_nat (irq - hw_first) = Some o ∧ registered v !! irq = o.
Proof using IS.
  intros Hs Hi. destruct (lookup_lt_is_Some_2 (mc_handlers m) (N.to_nat (irq - hw_first))) as [o Ho].
  { rewrite (se_slots _ _ Hs). pose proof is_slots as Hlen. unfold in_lines in Hi. rewrite is_first, is_limit in Hi. lia. }
  exists o. split; [done|]. rewrite (se_table _ _ Hs irq), usable_lines, bool_decide_true, Ho by done. by destruct o.
Qed.

(** The table with one slot changed. *)
Lemma table_insert (m : Machine D H) v irq o :
  sees m v → in_lines L irq →
  table_is (mkMachine (mc_dev m) (<[N.to_nat (irq - hw_first) := o]> (mc_handlers m)) (mc_core_count m) (mc_installed m) (mc_calls m))
    (match o with Some h => <[irq := h]> (registered v) | None => delete irq (registered v) end).
Proof using IS.
  intros Hs Hi. pose proof Hi as Hi'. unfold in_lines in Hi'. rewrite is_first, is_limit in Hi'.
  destruct (slot_in_table m v irq Hs Hi) as (o0 & Ho & _). apply lookup_lt_Some in Ho. intros j. cbn [mc_handlers].
  destruct (decide (j = irq)) as [->|Hj].
  - rewrite usable_lines, bool_decide_true, list_lookup_insert_eq by done. destruct o; simplify_map_eq; done.
  - transitivity (registered v !! j); [destruct o; by simplify_map_eq|]. rewrite (se_table _ _ Hs j).
    destruct (usable j) eqn:Hu; [|done]. rewrite list_lookup_insert_ne; [done|].
    rewrite usable_lines in Hu. apply bool_decide_eq_true in Hu. unfold in_lines in Hu. rewrite is_first, is_limit in Hu. lia.
Qed.

(** An operation on the device that has an [effect]. *)
Lemma sees_effect (m : Machine D H) v d' u r c :
  sees m v → effect (mc_dev m) d' u r →
  sees (with_dev d' (add_calls c m)) (mkView (registered v) u r (calls v ++ c)).
Proof using.
  intros [Hq Hi Hl Ht Hu Hr Hc Hcf] [Q1 Q2 Q3 Q4]. split; cbn; [done..|by rewrite Hc|by etrans].
Qed.

Lemma view_eta (v : View H) : mkView (registered v) (unmasked v) (raised v) (calls v) = v.
Proof using. by destruct v. Qed.

(** With no calls. *)
Lemma sees_dev (m : Machine D H) v d' u :
  sees m v → effect (mc_dev m) d' u (im_raised (mc_dev m)) →
  sees (with_dev d' m) (mkView (registered v) u (raised v) (calls v)).
Proof using.
  intros Hs He. pose proof (sees_effect m v d' u _ [] Hs He) as Hn. rewrite <- (se_raised _ _ Hs), app_nil_r in Hn.
  unfold add_calls, with_dev in *. cbn in Hn. by rewrite app_nil_r in Hn.
Qed.

Lemma register_sees irq h m v :
  sees m v → ∃ v', spec_step L v (Register irq h) (register_irq irq h m).1 v' ∧ sees (register_irq irq h m).2 v'.
Proof using IS.
  intros Hs. unfold register_irq, spec_step. rewrite usable_lines. case_bool_decide as Hi; cbn [negb].
  2: { exists v. split; [|done]. by rewrite decide_False. }
  destruct (slot_in_table m v irq Hs Hi) as (o & Ho & Hr). unfold handler_at. run. rewrite Ho. run.
  destruct o as [h0|]; [exists v; split; [by rewrite decide_True, Hr|done]|]. run. unfold set_handlers. run. cbn [mc_handlers].
  destruct (is_register irq (mc_dev m) Hi (se_quiet _ _ Hs)) as (d' & Hrun & He & Hc).
  set (m1 := mkMachine _ _ _ _ _). rewrite (run_on_dev (hw_register irq) m1 (Ok tt) d') by apply Hrun. cbn [fst snd].
  eexists. split; [by rewrite decide_True, Hr by done|]. pose proof (table_insert m v irq (Some h) Hs Hi) as Ht.
  destruct Hs as [Hq Hin Hl _ Hu Hra Hca Hcf], He as [Q1 Q2 Q3 Q4].
  split; cbn; [done..|by rewrite length_insert|done|by rewrite Hu|by rewrite Hra|done|].
  rewrite dom_insert. set_solver.
Qed.

Lemma unregister_sees irq m v :
  sees m v → ∃ v', spec_step L v (Unregister irq) (unregister_irq irq m).1 v' ∧ sees (unregister_irq irq m).2 v'.
Proof using IS.
  intros Hs. unfold unregister_irq, spec_step. rewrite usable_lines. case_bool_decide as Hi; cbn [negb].
  2: { exists v. split; [|done]. by rewrite decide_False. }
  destruct (slot_in_table m v irq Hs Hi) as (o & Ho & Hr). unfold handler_at. run. rewrite Ho. run.
  unfold set_handlers. run. destruct (is_unregister irq (mc_dev m) Hi (se_quiet _ _ Hs)) as (d' & Hrun & He).
  set (m1 := mkMachine _ _ _ _ _). rewrite (run_on_dev (hw_unregister irq) m1 (Ok tt) d') by apply Hrun. cbn [fst snd].
  eexists. split; [by rewrite decide_True|]. pose proof (table_insert m v irq None Hs Hi) as Ht.
  destruct Hs as [Hq Hin Hl _ Hu Hra Hca Hcf], He as [Q1 Q2 Q3 Q4].
  split; cbn; [done..|by rewrite length_insert|done|by rewrite Hu|by rewrite Hra|done|].
  rewrite dom_delete. set_solver.
Qed.

(** [mask_irq] and [unmask_irq]. *)
Lemma dev_op_sees irq (op : M D IrqError unit) m v (P : gset N → Prop) :
  sees m v → (in_lines L irq → ∃ d' u, op (mc_dev m) = (Ok tt, d') ∧ effect (mc_dev m) d' u (im_raised (mc_dev m)) ∧ P u) →
  let op' := if negb (usable irq) then throw InvalidIrqId else on_dev op in
  ∃ v', (if decide (in_lines L irq) then
           (op' m).1 = Ok tt ∧ ∃ u, P u ∧ v' = mkView (registered v) u (raised v) (calls v)
         else (op' m).1 = Err InvalidIrqId ∧ v' = v) ∧ sees (op' m).2 v'.
Proof using IS.
  intros Hs Hop. cbv zeta. rewrite usable_lines. case_bool_decide as Hi; cbn [negb].
  2: { exists v. split; [|done]. by rewrite decide_False. }
  destruct (Hop Hi) as (d' & u & Hrun & He & HP). rewrite (run_on_dev op m (Ok tt) d' Hrun). cbn [fst snd].
  exists (mkView (registered v) u (raised v) (calls v)). split; [|by apply sees_dev].
  rewrite decide_True by done. split; [done|]. by exists u.
Qed.

Lemma mask_sees irq m v :
  sees m v → ∃ v', spec_step L v (Mask irq) (mask_irq irq m).1 v' ∧ sees (mask_irq irq m).2 v'.
Proof using IS.
  intros Hs. destruct (dev_op_sees irq (hw_mask irq) m v (λ u, u = hide L irq (unmasked v)) Hs) as (v' & H1 & H2).
  { intros Hi. destruct (is_mask irq _ Hi (se_quiet _ _ Hs)) as (d' & Hrun & He). exists d', (hide L irq (im_unmasked (mc_dev m))).
    by rewrite (se_unmasked _ _ Hs). }
  exists v'. split; [|done]. unfold spec_step, mask_irq. case_decide; [|done]. destruct H1 as (E & u & -> & ->). done.
Qed.

Lemma unmask_sees irq m v :
  sees m v → ∃ v', spec_step L v (Unmask irq) (unmask_irq irq m).1 v' ∧ sees (unmask_irq irq m).2 v'.
Proof using IS.
  intros Hs. destruct (dev_op_sees irq (hw_unmask irq) m v
    (λ u, u ∖ {[irq]} = unmasked v ∖ {[irq]} ∧ (is_Some (registered v !! irq) → irq ∈ u)) Hs) as (v' & H1 & H2).
  { intros Hi. destruct (is_unmask irq _ Hi (se_quiet _ _ Hs)) as (d' & u & Hrun & He & Hu & Hc). exists d', u.
    rewrite (se_unmasked _ _ Hs). split_and!; [done..|]. intros Hr%elem_of_dom. by apply Hc, (se_configured _ _ Hs). }
  exists v'. split; [|done]. unfold spec_step. case_decide; [|done]. destruct H1 as (E & u & [? ?] & ->). split; [done|]. by exists u.
Qed.

Lemma interrupt_sees m v :
  sees m v → ∃ v', spec_step L v Interrupt (im_interrupt m).1 v' ∧ sees (im_interrupt m).2 v'.
Proof using IS.
  intros Hs. destruct (is_interrupt H m (registered v) (se_quiet _ _ Hs) (se_installed _ _ Hs) (se_slots _ _ Hs) (se_table _ _ Hs))
    as (d' & c & r' & Hrun & He & Hc).
  rewrite Hrun. cbn [fst snd]. exists (mkView (registered v) (im_unmasked (mc_dev m)) r' (calls v ++ c)). split.
  - split; [done|]. unfold deliverable. rewrite (se_raised _ _ Hs), (se_unmasked _ _ Hs).
    destruct Hc as [(Hn & -> & ->)|(irq & Hi & -> & ->)]; [left; split; [done|]|right; by exists irq].
    rewrite app_nil_r, <- (se_raised _ _ Hs), <- (se_unmasked _ _ Hs). apply view_eta.
  - by apply sees_effect.
Qed.

Lemma event_sees e m v :
  event_ok e → sees m v → ∃ v', spec_step L v e (run_event e m).1 v' ∧ sees (run_event e m).2 v'.
Proof using IS.
  destruct e as [irq h|irq|irq|irq|irq|]; cbn [run_event event_ok]; intros Hok Hs.
  - by apply register_sees.
  - by apply unregister_sees.
  - by apply mask_sees.
  - by apply unmask_sees.
  - eexists. split; [done|]. pose proof (is_raise irq _ Hok (se_quiet _ _ Hs)) as He.
    rewrite <- (se_raised _ _ Hs), <- (se_unmasked _ _ Hs) in He.
    pose proof (sees_effect m v _ _ _ [] Hs He) as Hn. rewrite app_nil_r in Hn. unfold add_calls, with_dev in *. cbn in *.
    by rewrite app_nil_r in Hn.
  - by apply interrupt_sees.
Qed.

(** Every run is a run of the contract. *)
Lemma events_see es : ∀ m v,
  Forall event_ok es → sees m v →
  ∃ v', spec_run L v es (run_events es m).1 v' ∧ sees (run_events es m).2 v'.
Proof using IS.
  induction es as [|e es IH]; intros m v Hok Hs; cbn [run_events].
  { exists v. split; [constructor|done]. }
  inversion Hok as [|? ? He Hes]; subst. destruct (event_sees e m v He Hs) as (v1 & H1 & Hs1).
  destruct (run_event e m) as [r m1]. cbn [fst snd] in *. destruct (IH m1 v1 Hes Hs1) as (v2 & H2 & Hs2).
  destruct (run_events es m1) as [rs m2]. cbn [fst snd] in *. exists v2. split; [by econstructor|done].
Qed.

(** The contract of the trait, from a new controller on: every run is one of the
    contract's, and after it as many interrupts as there are deliverable lines serve each of
    these once and leave none. *)
Definition serves (d : D) : Prop := ∀ es,
  Forall event_ok es → ∃ v,
  spec_run L (mkView ∅ (im_unmasked d) (im_raised d) []) es (run_events es (new_controller d)).1 v ∧
  let m := (run_events es (new_controller d)).2 in
  mc_calls m = calls v ∧
  let served := (run_events (replicate (size (deliverable v)) Interrupt) m).2 in
  im_quiet (mc_dev served) ∧ im_raised (mc_dev served) ∩ im_unmasked (mc_dev served) = ∅ ∧
  ∃ order, order ≡ₚ elements (deliverable v) ∧ mc_calls served = calls v ++ mjoin (called L (registered v) <$> order).

Lemma irq_machine_serves d : im_quiet d → serves d.
Proof using IS.
  intros Hq es Hok.
  assert (sees (new_controller d) (mkView ∅ (im_unmasked d) (im_raised d) [])) as Hs.
  { split; cbn; [done|done|by rewrite length_replicate| |done|done|done|by rewrite dom_empty].
    intros irq. rewrite lookup_empty. destruct (usable irq); [|done]. cbn.
    destruct (replicate _ _ !! _) as [o|] eqn:Ho; [|done]. by apply lookup_replicate in Ho as [-> _]. }
  destruct (events_see es _ _ Hok Hs) as (v & Hr & Hv). exists v. split; [done|]. split; [by rewrite (se_calls _ _ Hv)|].
  destruct (events_see (replicate (size (deliverable v)) Interrupt) (run_events es (new_controller d)).2 v) as (v' & Hr' & Hv').
  { by apply Forall_replicate. } { done. }
  destruct (spec_drain L _ _ _ _ Hr' ltac:(done)) as (Hd & order & Hp & Hc). split; [apply Hv'|].
  rewrite <- (se_raised _ _ Hv'), <- (se_unmasked _ _ Hv'). split; [done|]. exists order. split; [done|].
  by rewrite <- (se_calls _ _ Hv').
Qed.
End refinement.
