(* ===== verification/IrqRiscv.v ===== *)
(** * The platform-level interrupt controller

    [hal-riscv64/src/interrupt.rs], on a device that follows the PLIC specification
    ([PlicSpec]): it keeps the contract of [Irq].  [plic_bus] is such a device. *)

From stdpp Require Import gmap.
From S2P Require Import Prelude Virtio Irq.

(** ** The code *)

Module plic_reg.
Definition PRIORITY_BASE : N := 0.
Definition ENABLE_BASE : N := 8192.
Definition ENABLE_CONTEXT_STRIDE : N := 128.
Definition CONTEXT_BASE : N := 2097152.
Definition CONTEXT_STRIDE : N := 4096.
Definition THRESHOLD_OFFSET : N := 0.
Definition CLAIM_COMPLETE_OFFSET : N := 4.
End plic_reg.

Definition PLIC_CONTEXT : N := 1.
Definition FIRST_USABLE_SOURCE : N := 1.
Definition MAX_TRACKED_SOURCES : nat := 512.
Definition SIE_SEIE_BIT : N := N.shiftl 1 9.
Definition SIE_SSIE_BIT : N := N.shiftl 1 1.
Definition SCAUSE_SUPERVISOR_SOFTWARE_INTERRUPT : N := 1.
Definition SCAUSE_SUPERVISOR_TIMER_INTERRUPT : N := 5.
Definition SCAUSE_SUPERVISOR_EXTERNAL_INTERRUPT : N := 9.

(** [csrs sie], [csrci sip, 2] and the firmware call [sbi_send_ipi]. *)
Record Hart (D : Type) := mkHart {
  csrs_sie : N → D → D;
  clear_ssip : D → D;
  sbi_send_ipi : N → D → D;
}.
Arguments mkHart {D}. Arguments csrs_sie {D}. Arguments clear_ssip {D}. Arguments sbi_send_ipi {D}.

Section code.
Context {D : Type} (B : Bus D) (C : Hart D) (plic_base : N).

Abbreviation W E := (M D E) (only parsing).

Definition plic_read32 {E} (offset : N) : W E N := load B W32 plic_base offset.
Definition plic_write32 {E} (offset value : N) : W E unit := store B W32 plic_base offset value.

Definition set_priority {E} (source priority : N) : W E unit :=
  plic_write32 (plic_reg.PRIORITY_BASE + source * 4) priority.

Definition set_enabled {E} (source : N) (enabled : bool) : W E unit :=
  let word_index := (source / 32)%N in
  let bit := (source mod 32)%N in
  let offset := (plic_reg.ENABLE_BASE + PLIC_CONTEXT * plic_reg.ENABLE_CONTEXT_STRIDE + word_index * 4)%N in
  current ← plic_read32 offset;
  let updated := if enabled then N.lor current (N.shiftl 1 bit) else N.ldiff current (N.shiftl 1 bit) in
  plic_write32 offset updated.

(** [1 << target_core] of a [u64]. *)
Definition riscv_send_ipi {E} (target_core vector : N) : W E unit :=
  hart_mask ← unwrap (if (target_core <? 64)%N then Some (N.shiftl 1 target_core) else None);
  modify (sbi_send_ipi C hart_mask).

#[export] Instance riscv_hw : IrqHw D := {
  hw_first := FIRST_USABLE_SOURCE;
  hw_limit := N.of_nat MAX_TRACKED_SOURCES;
  hw_slots := MAX_TRACKED_SOURCES;
  hw_register E source := _ ← set_priority (E := E) source 1; set_enabled source true;
  hw_unregister E source := set_enabled source false;
  hw_mask E source := set_enabled source false;
  hw_unmask E source := set_enabled source true;
  hw_send_ipi E := riscv_send_ipi (E := E);
}.

Definition claim_complete : N :=
  plic_reg.CONTEXT_BASE + PLIC_CONTEXT * plic_reg.CONTEXT_STRIDE + plic_reg.CLAIM_COMPLETE_OFFSET.

Definition end_of_interrupt {E} (source : N) : W E unit := plic_write32 claim_complete source.

Definition read_claim {E} : W E N := plic_read32 claim_complete.

Definition bootstrap_current_core {E} : W E unit :=
  let threshold_offset :=
    (plic_reg.CONTEXT_BASE + PLIC_CONTEXT * plic_reg.CONTEXT_STRIDE + plic_reg.THRESHOLD_OFFSET)%N in
  _ ← plic_write32 threshold_offset 0;
  modify (csrs_sie C (N.lor SIE_SEIE_BIT SIE_SSIE_BIT)).

(** The branch of an external interrupt. *)
Definition dispatch_external {H E} : M (Machine D H) E unit :=
  installed ← gets mc_installed;
  if negb installed then mret tt else
  source ← on_dev read_claim;
  if (source =? 0)%N then mret tt else
  _ ← call_handler source;
  on_dev (end_of_interrupt source).

Definition dispatch_current_interrupt {H E} (cause_code : N) : M (Machine D H) E unit :=
  if (cause_code =? SCAUSE_SUPERVISOR_TIMER_INTERRUPT)%N then record_call CallTimer
  else if (cause_code =? SCAUSE_SUPERVISOR_SOFTWARE_INTERRUPT)%N then on_dev (modify (clear_ssip C))
  else if (cause_code =? SCAUSE_SUPERVISOR_EXTERNAL_INTERRUPT)%N then dispatch_external
  else mret tt.
End code.

(** ** The device *)

(** Per source its priority; the enable words of the kernel's context; its threshold; the
    sources that are pending and those that are being served. *)
Record Plic := mkPlic {
  priority : N → N;
  enable : N → N;
  threshold : N;
  pending : gset N;
  serving : gset N;
}.

Definition sources : gset N := list_to_set (N.of_nat <$> seq 1 1023).

Lemma elem_of_sources i : i ∈ sources ↔ (1 ≤ i < 1024)%N.
Proof.
  unfold sources. rewrite elem_of_list_to_set, list_elem_of_fmap. setoid_rewrite elem_of_seq. split.
  - intros (n & -> & ?). lia.
  - intros ?. exists (N.to_nat i). lia.
Qed.

#[global] Opaque sources.

Definition is_enabled (p : Plic) (i : N) : bool := N.testbit (enable p (i / 32)) (i mod 32).

Definition open_sources (p : Plic) : gset N :=
  filter (λ i, is_enabled p i = true ∧ (threshold p < priority p i)%N) sources.

Lemma plic_elem_of_open p i :
  i ∈ open_sources p ↔ (is_enabled p i = true ∧ (threshold p < priority p i)%N) ∧ (1 ≤ i < 1024)%N.
Proof. unfold open_sources. by rewrite elem_of_filter, elem_of_sources. Qed.

Lemma open_same p pend serv : open_sources (mkPlic (priority p) (enable p) (threshold p) pend serv) = open_sources p.
Proof. by destruct p. Qed.

#[global] Opaque open_sources.

Definition set_word (p : Plic) (w v : N) : Plic :=
  mkPlic (priority p) (λ x, if (x =? w)%N then v else enable p x) (threshold p) (pending p) (serving p).
Definition set_source_priority (p : Plic) (i v : N) : Plic :=
  mkPlic (λ x, if (x =? i)%N then v else priority p x) (enable p) (threshold p) (pending p) (serving p).

(** What the specification says of the registers; every PLIC has the priorities 0 and
    1.  Which of the open sources is claimed is left to the device. *)
Class PlicSpec {D} (B : Bus D) (C : Hart D) (plic_base : N) (assert_irq : N → D → D) (plic_of : D → Plic) : Prop := {
  pl_base : (plic_base + 67108864 ≤ U64)%N;
  pl_enable_load w d : (w < 32)%N →
    let '(v, d') := bus_load B W32 (plic_base + (8320 + w * 4)) d in
    plic_of d' = plic_of d ∧ truncate U32 v = truncate U32 (enable (plic_of d) w);
  pl_enable_store w v d : (w < 32)%N → (v < U32)%N →
    plic_of (bus_store B W32 (plic_base + (8320 + w * 4)) v d) = set_word (plic_of d) w v;
  pl_priority i v d : (1 ≤ i < 1024)%N → (v ≤ 1)%N →
    plic_of (bus_store B W32 (plic_base + i * 4) v d) = set_source_priority (plic_of d) i v;
  pl_threshold v d : (v ≤ 1)%N → let p := plic_of d in
    plic_of (bus_store B W32 (plic_base + 2101248) v d) = mkPlic (priority p) (enable p) v (pending p) (serving p);
  pl_claim d : let '(v, d') := bus_load B W32 (plic_base + 2101252) d in
    let p := plic_of d in
    v = 0%N ∧ pending p ∩ open_sources p = ∅ ∧ plic_of d' = p ∨
    v ∈ pending p ∩ open_sources p ∧
      plic_of d' = mkPlic (priority p) (enable p) (threshold p) (pending p ∖ {[v]}) ({[v]} ∪ serving p);
  pl_complete i d : (i < 1024)%N → let p := plic_of d in
    plic_of (bus_store B W32 (plic_base + 2101252) i d) =
    if is_enabled p i then mkPlic (priority p) (enable p) (threshold p) (pending p) (serving p ∖ {[i]}) else p;
  pl_raise i d : (1 ≤ i < 1024)%N → i ∉ serving (plic_of d) → let p := plic_of d in
    plic_of (assert_irq i d) = mkPlic (priority p) (enable p) (threshold p) ({[i]} ∪ pending p) (serving p);
  pl_hart d : (∀ v, plic_of (csrs_sie C v d) = plic_of d) ∧ plic_of (clear_ssip C d) = plic_of d ∧
    ∀ v, plic_of (sbi_send_ipi C v d) = plic_of d;
}.

(** ** The contract *)

Definition riscv_lines : Lines := mkLines 1 512 true None (λ i, (1 ≤ i < 1024)%N).

(** Nothing is served, and the kernel accepts every priority. *)
Record plic_quiet (p : Plic) : Prop := {
  pq_serving : serving p = ∅;
  pq_threshold : threshold p = 0%N;
  pq_words : ∀ w, (enable p w < U32)%N;
  pq_pending : pending p ⊆ sources;
}.

Section spec.
Context {D : Type} (B : Bus D) (C : Hart D) (plic_base : N) (assert_irq : N → D → D) (plic_of : D → Plic).
Context {PS : PlicSpec B C plic_base assert_irq plic_of}.

#[export] Instance riscv_machine : IrqMachine D := {
  im_raise := assert_irq;
  im_interrupt H := dispatch_current_interrupt B C plic_base (H := H) SCAUSE_SUPERVISOR_EXTERNAL_INTERRUPT;
  im_quiet d := plic_quiet (plic_of d);
  im_unmasked d := open_sources (plic_of d);
  im_raised d := pending (plic_of d);
  im_configured d := filter (λ i, 0 < priority (plic_of d) i)%N sources;
}.

Definition set_bit (v bit : N) (b : bool) : N :=
  if b then N.lor v (N.shiftl 1 bit) else N.ldiff v (N.shiftl 1 bit).

Lemma set_bit_spec v bit b j : N.testbit (set_bit v bit b) j = if (j =? bit)%N then b else N.testbit v j.
Proof using.
  unfold set_bit. rewrite N.shiftl_1_l. destruct b; rewrite ?N.lor_spec, ?N.ldiff_spec, N.pow2_bits_eqb, (N.eqb_sym bit);
    destruct (j =? bit)%N, (N.testbit v j); done.
Qed.

Lemma set_bit_bound v bit b : (v < U32)%N → (bit < 32)%N → (set_bit v bit b < U32)%N.
Proof using.
  intros Hv Hb. apply bits_u32. intros j Hj. rewrite set_bit_spec.
  rewrite (proj2 (N.eqb_neq _ _)) by lia. by apply u32_bits.
Qed.

(** An access at an offset of the window. *)
Lemma plic_run_write {E} off v d : (off < 67108864)%N → (v < U32)%N →
  (plic_write32 B plic_base off v : M D E unit) d = (Ok tt, bus_store B W32 (plic_base + off) v d).
Proof using PS.
  intros Ho Hv. pose proof pl_base. unfold plic_write32, store. rewrite checked_add_lt by lia. cbn [unwrap].
  unfold mbind, M_bind, mret, M_ret, write_volatile, truncate. cbn [width_mod width_bytes]. by rewrite N.mod_small.
Qed.

Lemma plic_run_read {E} off d : (off < 67108864)%N →
  (plic_read32 B plic_base off : M D E N) d =
  (Ok (truncate U32 (bus_load B W32 (plic_base + off) d).1), (bus_load B W32 (plic_base + off) d).2).
Proof using PS.
  intros Ho. pose proof pl_base. unfold plic_read32, load. rewrite checked_add_lt by lia. cbn [unwrap].
  unfold mbind, M_bind, mret, M_ret, read_volatile. by destruct (bus_load _ _ _ _).
Qed.

Lemma set_enabled_run irq b d : (irq < 1024)%N → plic_quiet (plic_of d) →
  let p := plic_of d in
  ∃ d', (∀ E, set_enabled B plic_base (E := E) irq b d = (Ok tt, d')) ∧
    plic_of d' = set_word p (irq / 32) (set_bit (enable p (irq / 32)) (irq mod 32) b).
Proof using PS.
  intros Hi Hq. cbv zeta. assert (irq / 32 < 32)%N as Hw by (by apply N.Div0.div_lt_upper_bound).
  pose proof (N.mod_lt irq 32 ltac:(done)) as Hb.
  change (plic_reg.ENABLE_BASE + PLIC_CONTEXT * plic_reg.ENABLE_CONTEXT_STRIDE)%N with 8320%N.
  pose proof (pl_enable_load (irq / 32) d Hw) as Hl. unfold set_enabled. set (off := (8320 + irq / 32 * 4)%N) in *.
  change (plic_reg.ENABLE_BASE + PLIC_CONTEXT * plic_reg.ENABLE_CONTEXT_STRIDE + irq / 32 * 4)%N with off.
  destruct (bus_load B W32 (plic_base + off) d) as [v d1] eqn:Hrun. destruct Hl as [Hp Hv].
  pose proof (pq_words _ Hq (irq / 32)) as Hbound. rewrite (N.mod_small (enable _ _) U32 Hbound : truncate U32 _ = _) in Hv.
  eexists. split.
  - intros E. rewrite run_bind, plic_run_read by (unfold off; lia). rewrite Hrun. cbn [fst snd]. rewrite Hv.
    fold (set_bit (enable (plic_of d) (irq / 32)) (irq mod 32) b). apply plic_run_write; [unfold off; lia|by apply set_bit_bound].
  - unfold off. rewrite pl_enable_store; [by rewrite Hp|done|by apply set_bit_bound].
Qed.

Lemma set_priority_run irq d : (1 ≤ irq < 1024)%N →
  ∃ d', (∀ E, set_priority B plic_base (E := E) irq 1 d = (Ok tt, d')) ∧ plic_of d' = set_source_priority (plic_of d) irq 1.
Proof using PS.
  intros Hi. eexists. split.
  - intros E. unfold set_priority. change (plic_reg.PRIORITY_BASE + irq * 4)%N with (irq * 4)%N. apply plic_run_write; lia.
  - by apply pl_priority.
Qed.

Lemma plic_is_enabled_set p irq b j :
  is_enabled (set_word p (irq / 32) (set_bit (enable p (irq / 32)) (irq mod 32) b)) j =
  if (j =? irq)%N then b else is_enabled p j.
Proof using.
  unfold is_enabled. cbn [enable set_word]. destruct (N.eqb_spec (j / 32) (irq / 32)) as [Hd|Hd].
  - rewrite set_bit_spec. destruct (N.eqb_spec (j mod 32) (irq mod 32)) as [Hm|Hm].
    + rewrite (N.div_mod j 32), (N.div_mod irq 32), Hd, Hm by done. by rewrite N.eqb_refl.
    + rewrite (proj2 (N.eqb_neq j irq)) by congruence. by rewrite Hd.
  - by rewrite (proj2 (N.eqb_neq j irq)) by congruence.
Qed.

Lemma quiet_set p irq b : plic_quiet p →
  plic_quiet (set_word p (irq / 32) (set_bit (enable p (irq / 32)) (irq mod 32) b)).
Proof using.
  intros [H1 H2 H3 H4]. split; [done|done| |done]. intros w. cbn [enable set_word]. destruct (N.eqb_spec w (irq / 32)); [|done].
  apply set_bit_bound; [done|]. by apply N.mod_lt.
Qed.

Lemma plic_disable_effect irq d : (1 ≤ irq < 512)%N → plic_quiet (plic_of d) → ∃ d',
  (∀ E, set_enabled B plic_base (E := E) irq false d = (Ok tt, d')) ∧
  effect d d' (hide riscv_lines irq (im_unmasked d)) (im_raised d).
Proof using PS.
  intros Hi Hq. destruct (set_enabled_run irq false d ltac:(lia) Hq) as (d' & Hrun & Hp). exists d'. split; [done|].
  split; cbn [im_quiet im_unmasked im_raised im_configured riscv_machine]; rewrite Hp; [by apply quiet_set| |done|done].
  unfold hide. cbn [ln_maskable riscv_lines]. apply set_eq. intros j.
  rewrite elem_of_difference, elem_of_singleton, 2!plic_elem_of_open, plic_is_enabled_set. cbn [threshold priority set_word].
  destruct (N.eqb_spec j irq) as [->|Hj]; [|by split; [|intros [? _]]].
  split; [by intros [[? _] _]|by intros [_ ?]].
Qed.

Lemma plic_enable_effect irq d : (1 ≤ irq < 512)%N → plic_quiet (plic_of d) → ∃ d' u,
  (∀ E, set_enabled B plic_base (E := E) irq true d = (Ok tt, d')) ∧ effect d d' u (im_raised d) ∧
  u ∖ {[irq]} = im_unmasked d ∖ {[irq]} ∧ (irq ∈ im_configured d → irq ∈ u).
Proof using PS.
  intros Hi Hq. destruct (set_enabled_run irq true d ltac:(lia) Hq) as (d' & Hrun & Hp). exists d', (im_unmasked d').
  cbn [im_quiet im_unmasked im_raised im_configured riscv_machine] in *. split; [done|]. split; [|split].
  - split; cbn [im_quiet im_unmasked im_raised im_configured riscv_machine]; [rewrite Hp; by apply quiet_set|reflexivity|by rewrite Hp|by rewrite Hp].
  - rewrite Hp. apply set_eq. intros j. rewrite 2!elem_of_difference, 2!plic_elem_of_open, elem_of_singleton, plic_is_enabled_set.
    cbn [threshold priority set_word]. destruct (N.eqb_spec j irq) as [->|Hj]; [split; intros [_ Hn]; exfalso; apply Hn; reflexivity|reflexivity].
  - rewrite elem_of_filter, Hp, plic_elem_of_open, plic_is_enabled_set, N.eqb_refl. cbn [threshold priority set_word].
    rewrite (pq_threshold _ Hq). intros [? _]. split; [done|lia].
Qed.

Lemma plic_register_effect irq d : (1 ≤ irq < 512)%N → plic_quiet (plic_of d) → ∃ d',
  (∀ E, hw_register (IrqHw := riscv_hw B C plic_base) (E := E) irq d = (Ok tt, d')) ∧
  effect d d' ({[irq]} ∪ im_unmasked d) (im_raised d) ∧ irq ∈ im_configured d'.
Proof using PS.
  intros Hi Hq. destruct (set_priority_run irq d ltac:(lia)) as (d1 & Hrun1 & Hp1).
  assert (plic_quiet (plic_of d1)) as Hq1 by (rewrite Hp1; destruct Hq; by split).
  destruct (set_enabled_run irq true d1 ltac:(lia) Hq1) as (d' & Hrun & Hp).
  assert (priority (plic_of d') = priority (plic_of d1)) as Hpr by by rewrite Hp.
  exists d'. cbn [im_quiet im_unmasked im_raised im_configured riscv_machine] in *. split; [|split].
  - intros E. cbn [hw_register riscv_hw]. by rewrite run_bind, Hrun1.
  - split; cbn [im_quiet im_unmasked im_raised im_configured riscv_machine].
    + rewrite Hp. by apply quiet_set.
    + rewrite Hp. apply set_eq. intros j. rewrite elem_of_union, elem_of_singleton, 2!plic_elem_of_open, plic_is_enabled_set, Hp1.
      cbn [threshold priority set_word set_source_priority]. change (is_enabled (set_source_priority (plic_of d) irq 1) j) with (is_enabled (plic_of d) j).
      rewrite (pq_threshold _ Hq). destruct (N.eqb_spec j irq) as [->|Hj]; [|by split; [right|intros [?|?]]].
      split; [by left|]. intros _. split; [split; [done|lia]|lia].
    + by rewrite Hp, Hp1.
    + rewrite Hpr, Hp1. intros j. rewrite !elem_of_filter. cbn [priority set_source_priority].
      destruct (N.eqb_spec j irq); [|done]. intros [_ ?]. split; [lia|done].
  - rewrite elem_of_filter, elem_of_sources, Hpr, Hp1. cbn [priority set_source_priority]. rewrite N.eqb_refl. lia.
Qed.

Lemma plic_raise_effect irq d : (1 ≤ irq < 1024)%N → plic_quiet (plic_of d) →
  effect d (im_raise irq d) (im_unmasked d) ({[irq]} ∪ im_raised d).
Proof using PS.
  intros Hi [H1 H2 H3 H4]. pose proof (pl_raise irq d Hi ltac:(rewrite H1; set_solver)) as Hp. cbv zeta in Hp.
  split; cbn [im_raise im_quiet im_unmasked im_raised im_configured riscv_machine]; rewrite Hp; [|apply open_same|reflexivity..].
  split; [done..|]. cbn [pending]. intros j. rewrite elem_of_union, elem_of_singleton. intros [->|Hj]; [by apply elem_of_sources|by apply H4].
Qed.

(** The claim, the handler and the completion. *)
Lemma plic_interrupt_effect H (m : Machine D H) r (HW := riscv_hw B C plic_base) :
  im_quiet (mc_dev m) → mc_installed m = true → length (mc_handlers m) = hw_slots → table_is m r →
  let d := mc_dev m in
  ∃ d' c r', im_interrupt m = (Ok tt, with_dev d' (add_calls c m)) ∧ effect d d' (im_unmasked d) r' ∧
    (im_raised d ∩ im_unmasked d = ∅ ∧ r' = im_raised d ∧ c = [] ∨
     ∃ irq, irq ∈ im_raised d ∩ im_unmasked d ∧ r' = im_raised d ∖ {[irq]} ∧ c = called riscv_lines r irq).
Proof using PS.
  intros Hq Hin Hl Ht. cbv zeta. cbn [im_interrupt im_quiet im_unmasked im_raised im_configured riscv_machine] in *.
  set (d := mc_dev m) in *.
  change (dispatch_current_interrupt B C plic_base SCAUSE_SUPERVISOR_EXTERNAL_INTERRUPT m)
    with (dispatch_external B C plic_base m : outcome IrqError unit * Machine D H).
  unfold dispatch_external, read_claim, end_of_interrupt. replace claim_complete with 2101252%N by reflexivity.
  rewrite run_bind. cbn [gets]. rewrite Hin. cbn [negb]. rewrite run_bind.
  pose proof (pl_claim d) as Hclaim. destruct (bus_load B W32 (plic_base + 2101252) d) as [v d1] eqn:Hrun.
  erewrite (run_on_dev (plic_read32 B plic_base 2101252) m) by (rewrite plic_run_read by done; fold d; by rewrite Hrun).
  cbn [fst snd]. destruct Hclaim as [(-> & Hnone & Hp)|[Hv Hp]].
  - exists d1, [], (pending (plic_of d)). split; [|split].
    + change (truncate U32 0) with 0%N. cbn [N.eqb]. unfold add_calls. rewrite app_nil_r. by destruct m.
    + split; cbn [im_quiet im_unmasked im_raised im_configured riscv_machine]; rewrite Hp; [done|reflexivity..].
    + by left.
  - apply elem_of_intersection in Hv as [Hpend Hopen]. pose proof (proj1 (plic_elem_of_open _ _) Hopen) as [[Hen _] Hr].
    unfold truncate. rewrite N.mod_small by lia. rewrite (proj2 (N.eqb_neq _ _)) by lia.
    rewrite run_bind. rewrite (call_handler_run (with_dev d1 m) r v); [|cbn; lia|exact Hl|exact Ht].
    rewrite <- (called_no_timer riscv_lines r v) by done. set (c := called riscv_lines r v).
    erewrite run_on_dev by (apply plic_run_write; lia).
    exists (bus_store B W32 (plic_base + 2101252) v d1), c, (pending (plic_of d) ∖ {[v]}).
    split; [reflexivity|]. split; [|right; exists v; split; [apply elem_of_intersection; split; assumption|split; reflexivity]].
    cbn [mc_dev with_dev add_calls]. pose proof (pl_complete v d1 ltac:(lia)) as Hc. cbv zeta in Hc.
    rewrite Hp in Hc. change (is_enabled (mkPlic _ _ _ _ _) v) with (is_enabled (plic_of d) v) in Hc. rewrite Hen in Hc.
    cbn [priority enable threshold pending serving] in Hc. destruct Hq as [Q1 Q2 Q3 Q4].
    split; cbn [im_quiet im_unmasked im_raised im_configured riscv_machine]; rewrite Hc; [|apply open_same|reflexivity..].
    split; cbn [priority enable threshold pending serving]; [rewrite Q1; clear; set_solver|exact Q2|exact Q3|].
    intros j [Hj _]%elem_of_difference. exact (Q4 j Hj).
Qed.

(** A device that serves nothing becomes quiet when the hart is set up. *)
Definition plic_fresh (p : Plic) : Prop :=
  serving p = ∅ ∧ (∀ w, (enable p w < U32)%N) ∧ pending p ⊆ sources.

Lemma riscv_bootstrap d : plic_fresh (plic_of d) →
  ∃ d', (∀ E, bootstrap_current_core B C plic_base (E := E) d = (Ok tt, d')) ∧ im_quiet d' ∧ im_raised d' = im_raised d.
Proof using PS.
  intros (H1 & H2 & H3). eexists. split.
  - intros E. unfold bootstrap_current_core. rewrite run_bind, plic_run_write by done. reflexivity.
  - pose proof (pl_threshold 0 d ltac:(done)) as Hp. cbv zeta in Hp.
    change 2101248%N with (plic_reg.CONTEXT_BASE + PLIC_CONTEXT * plic_reg.CONTEXT_STRIDE + plic_reg.THRESHOLD_OFFSET)%N in Hp.
    cbn [im_quiet im_raised riscv_machine modify]. rewrite (proj1 (pl_hart _)). cbn. rewrite Hp. split; [by split|done].
Qed.

#[export] Instance riscv_spec : IrqMachineSpec D (HW := riscv_hw B C plic_base) riscv_lines.
Proof using PS.
  split; [done|done|by vm_compute| | | | | |].
  - intros irq d Hi Hq. by apply plic_register_effect.
  - intros irq d Hi Hq. by apply plic_disable_effect.
  - intros irq d Hi Hq. by apply plic_disable_effect.
  - intros irq d Hi Hq. by apply plic_enable_effect.
  - intros irq d Hi Hq. by apply plic_raise_effect.
  - intros H m r. apply plic_interrupt_effect.
Qed.
End spec.

(** ** A device *)

(** One that claims any open source first in the order of the set. *)
Definition claims (p : Plic) : option N := head (elements (pending p ∩ open_sources p)).

Definition plic_bus (plic_base : N) : Bus Plic := {|
  bus_load w a p :=
    let off := (a - plic_base)%N in
    if (off =? 2101252)%N then
      match claims p with
      | Some i => (i, mkPlic (priority p) (enable p) (threshold p) (pending p ∖ {[i]}) ({[i]} ∪ serving p))
      | None => (0%N, p)
      end
    else (enable p ((off - 8320) / 4), p);
  bus_store w a v p :=
    let off := (a - plic_base)%N in
    if (off =? 2101252)%N then
      if is_enabled p v then mkPlic (priority p) (enable p) (threshold p) (pending p) (serving p ∖ {[v]}) else p
    else if (off =? 2101248)%N then mkPlic (priority p) (enable p) v (pending p) (serving p)
    else if (off <? 4096)%N then set_source_priority p (off / 4) v
    else set_word p ((off - 8320) / 4) v;
  bus_wait p := p;
|}.

Definition plic_assert (i : N) (p : Plic) : Plic :=
  mkPlic (priority p) (enable p) (threshold p) ({[i]} ∪ pending p) (serving p).

Definition plic_hart : Hart Plic := {| csrs_sie _ p := p; clear_ssip p := p; sbi_send_ipi _ p := p |}.

Lemma claims_spec p :
  match claims p with Some i => i ∈ pending p ∩ open_sources p | None => pending p ∩ open_sources p = ∅ end.
Proof.
  unfold claims. destruct (elements _) as [|i l] eqn:E; cbn.
  - by apply leibniz_equiv, elements_empty_inv.
  - apply elem_of_elements. rewrite E. by left.
Qed.

#[export] Instance plic_bus_spec plic_base :
  (plic_base + 67108864 < U64)%N → PlicSpec (plic_bus plic_base) plic_hart plic_base plic_assert (λ p, p).
Proof.
  intros Hb. assert (∀ off, (plic_base + off - plic_base = off)%N) as Ho by lia.
  split; cbn [plic_bus bus_load bus_store plic_hart csrs_sie clear_ssip sbi_send_ipi]; intros; rewrite ?Ho.
  - by apply N.lt_le_incl.
  - rewrite (proj2 (N.eqb_neq _ _)) by lia. replace ((8320 + w * 4 - 8320) / 4)%N with w; [done|].
    replace (8320 + w * 4 - 8320)%N with (w * 4)%N by lia. by rewrite N.div_mul.
  - rewrite 2!(proj2 (N.eqb_neq _ _)), (proj2 (N.ltb_ge _ _)) by lia. f_equal.
    replace (8320 + w * 4 - 8320)%N with (w * 4)%N by lia. by rewrite N.div_mul.
  - rewrite 2!(proj2 (N.eqb_neq _ _)), (proj2 (N.ltb_lt _ _)) by lia. by rewrite N.div_mul.
  - done.
  - change (2101252 =? 2101252)%N with true. pose proof (claims_spec d) as Hc. destruct (claims d) as [i|]; [right|left]; done.
  - done.
  - done.
  - done.
Qed.

(** The state after a reset: no priority is accepted. *)
Definition plic_reset : Plic := mkPlic (λ _, 0%N) (λ _, 0%N) 7 ∅ ∅.

Lemma plic_reset_fresh : plic_fresh plic_reset.
Proof. split_and!; [done|done|]. by intros i []%elem_of_empty. Qed.
