(* ===== verification/IrqArm64.v ===== *)
(** * The generic interrupt controller

    [hal-arm64/src/interrupt.rs], on a device that follows the GICv3 specification
    ([GicSpec]): it keeps the contract of [Irq].  [gic_bus] is such a device. *)

From stdpp Require Import gmap.
From S2P Require Import Prelude Virtio Irq.

(** ** The code *)

Module gicr_reg.
Definition WAKER : N := 20.
Definition ISENABLER0 : N := 256.
Definition IPRIORITYR : N := 1024.
Definition SGI_BASE_OFFSET : N := 65536.
End gicr_reg.

Module gicd_reg.
Definition CTLR : N := 0.
Definition ISENABLER : N := 256.
Definition ICENABLER : N := 384.
Definition IPRIORITYR : N := 1024.
Definition IROUTER : N := 24832.
End gicd_reg.

Definition TIMER_PPI_INTID : N := 30.
Definition FIRST_USABLE_INTID : N := 32.
Definition MAX_TRACKED_INTIDS : nat := 480.
Definition QEMU_VIRT_DEFAULT_GICR_BASE : N := 134873088.

(** The system registers [ICC_IAR1_EL1], [ICC_EOIR1_EL1] and [ICC_SGI1R_EL1], and
    [enable_cpu_interface]. *)
Record GicCpu (D : Type) := mkGicCpu {
  icc_iar : D → N * D;
  icc_eoir : N → D → D;
  icc_sgi1r : N → D → D;
  icc_enable : D → D;
}.
Arguments mkGicCpu {D}. Arguments icc_iar {D}. Arguments icc_eoir {D}. Arguments icc_sgi1r {D}. Arguments icc_enable {D}.

(** The wait for the redistributor has no bound in the code. *)
Inductive StillAsleep := OutOfFuel.

Section code.
Context {D : Type} (B : Bus D) (C : GicCpu D) (gicd_base : N).

Abbreviation W E := (M D E) (only parsing).

Definition gicd_read32 {E} (base offset : N) : W E N := load B W32 base offset.
Definition gicd_write32 {E} (base offset value : N) : W E unit := store B W32 base offset value.
Definition gicd_write64 {E} (base offset value : N) : W E unit := store B W64 base offset value.

Definition read_iar {E} : W E N := λ d, let '(v, d) := icc_iar C d in (Ok (N.land v 16777215), d).
Definition write_eoi {E} (intid : N) : W E unit := modify (icc_eoir C intid).

(** [(offset) & !0x3] *)
Definition align4 (offset : N) : N := N.ldiff offset 3.

Definition enable_line {E} (intid : N) : W E unit :=
  gicd_write32 gicd_base (gicd_reg.ISENABLER + intid / 32 * 4) (N.shiftl 1 (intid mod 32)).

Definition disable_line {E} (intid : N) : W E unit :=
  gicd_write32 gicd_base (gicd_reg.ICENABLER + intid / 32 * 4) (N.shiftl 1 (intid mod 32)).

Definition configure_spi {E} (intid : N) : W E unit :=
  let byte_offset := (gicd_reg.IPRIORITYR + intid)%N in
  _ ← gicd_write32 gicd_base (align4 byte_offset) 2155905152;
  _ ← gicd_write64 gicd_base (gicd_reg.IROUTER + (intid - 32) * 8) 0;
  enable_line intid.

(** [1 << target_core] of a [u64]. *)
Definition arm64_send_ipi {E} (target_core vector : N) : W E unit :=
  let sgi_id := N.land vector 15 in
  target_list ← unwrap (if (target_core <? 64)%N then Some (N.shiftl 1 target_core) else None);
  modify (icc_sgi1r C (N.lor (N.shiftl sgi_id 24) target_list)).

#[export] Instance arm64_hw : IrqHw D := {
  hw_first := FIRST_USABLE_INTID;
  hw_limit := FIRST_USABLE_INTID + N.of_nat MAX_TRACKED_INTIDS;
  hw_slots := MAX_TRACKED_INTIDS;
  hw_register E := configure_spi (E := E);
  hw_unregister E := disable_line (E := E);
  hw_mask E := disable_line (E := E);
  hw_unmask E := enable_line (E := E);
  hw_send_ipi E := arm64_send_ipi (E := E);
}.

Definition end_of_interrupt {E} (intid : N) : W E unit := write_eoi intid.

(** [while .. & (1 << 2) != 0]: at most [n] reads. *)
Fixpoint wait_awake (n : nat) (gicr_base : N) : W StillAsleep unit :=
  match n with
  | 0 => throw OutOfFuel
  | S n =>
      v ← gicd_read32 gicr_base gicr_reg.WAKER;
      if negb (N.land v 4 =? 0)%N then wait_awake n gicr_base else mret tt
  end.

Definition bootstrap_current_core (n : nat) : W StillAsleep unit :=
  _ ← modify (icc_enable C);
  _ ← gicd_write32 gicd_base gicd_reg.CTLR 19;
  let gicr_base := QEMU_VIRT_DEFAULT_GICR_BASE in
  waker ← gicd_read32 gicr_base gicr_reg.WAKER;
  _ ← gicd_write32 gicr_base gicr_reg.WAKER (N.ldiff waker 2);
  _ ← wait_awake n gicr_base;
  let sgi_base := (gicr_base + gicr_reg.SGI_BASE_OFFSET)%N in
  let byte_offset := (gicr_reg.IPRIORITYR + TIMER_PPI_INTID)%N in
  _ ← gicd_write32 sgi_base (align4 byte_offset) 2155905152;
  gicd_write32 sgi_base gicr_reg.ISENABLER0 (N.shiftl 1 TIMER_PPI_INTID).

(** The result is the number that was acknowledged. *)
Definition dispatch_current_irq {H E} : M (Machine D H) E N :=
  installed ← gets mc_installed;
  if negb installed then mret 1023%N else
  intid ← on_dev read_iar;
  if (1020 <=? intid)%N then mret intid else
  if (intid =? TIMER_PPI_INTID)%N then
    _ ← record_call CallTimer;
    _ ← on_dev (end_of_interrupt intid);
    mret intid
  else
    _ ← call_handler intid;
    _ ← on_dev (end_of_interrupt intid);
    mret intid.
End code.

(** ** The device *)

(** Enable words of the distributor (from 1 on) and of the redistributor; priorities and
    the mask; whether interrupts are forwarded; the sleep state of the redistributor,
    with the number of reads until it is awake. *)
Record Gic := mkGic {
  words : N → N;
  private : N;
  prio : N → N;
  pmr : N;
  forwards : bool;
  asleep : bool;
  waking : nat;
  pending : gset N;
  active : gset N;
}.

Definition intids : gset N := list_to_set (N.of_nat <$> seq 0 1020).

Lemma elem_of_intids i : i ∈ intids ↔ (i < 1020)%N.
Proof.
  unfold intids. rewrite elem_of_list_to_set, list_elem_of_fmap. setoid_rewrite elem_of_seq. split.
  - intros (n & -> & ?). lia.
  - intros ?. exists (N.to_nat i). lia.
Qed.

#[global] Opaque intids.

Definition is_enabled (g : Gic) (i : N) : bool :=
  if (i <? 32)%N then N.testbit (private g) i else N.testbit (words g (i / 32)) (i mod 32).

Definition open_intids (g : Gic) : gset N :=
  filter (λ i, is_enabled g i = true ∧ (prio g i < pmr g)%N ∧ forwards g = true) intids.

Lemma gic_elem_of_open g i :
  i ∈ open_intids g ↔ (is_enabled g i = true ∧ (prio g i < pmr g)%N ∧ forwards g = true) ∧ (i < 1020)%N.
Proof. unfold open_intids. by rewrite elem_of_filter, elem_of_intids. Qed.

Definition with_lines (g : Gic) (w : N → N) (p : N) : Gic :=
  mkGic w p (prio g) (pmr g) (forwards g) (asleep g) (waking g) (pending g) (active g).
Definition with_prio (g : Gic) (p : N → N) : Gic :=
  mkGic (words g) (private g) p (pmr g) (forwards g) (asleep g) (waking g) (pending g) (active g).
Definition with_sets (g : Gic) (p a : gset N) : Gic :=
  mkGic (words g) (private g) (prio g) (pmr g) (forwards g) (asleep g) (waking g) p a.
Definition with_control (g : Gic) (m : N) (f : bool) : Gic :=
  mkGic (words g) (private g) (prio g) m f (asleep g) (waking g) (pending g) (active g).
Definition with_sleep (g : Gic) (s : bool) (n : nat) : Gic :=
  mkGic (words g) (private g) (prio g) (pmr g) (forwards g) s n (pending g) (active g).

Lemma open_sets g p a : open_intids (with_sets g p a) = open_intids g.
Proof. by destruct g. Qed.

#[global] Opaque open_intids.

(** The four priorities of a word. *)
Definition set_prio (f : N → N) (k v : N) : N → N :=
  λ i, if (i / 4 =? k)%N then (N.shiftr v (8 * (i mod 4)) mod 256)%N else f i.

Definition set_at (f : N → N) (k v : N) : N → N := λ i, if (i =? k)%N then v else f i.

(** What the specification says of the registers; which of the open interrupts is
    acknowledged is left to the device. *)
Class GicSpec {D} (B : Bus D) (C : GicCpu D) (gicd_base : N) (assert_irq : N → D → D) (gic_of : D → Gic) : Prop := {
  gs_base : (gicd_base + 65536 ≤ U64)%N;
  gs_isenabler w v d : (1 ≤ w < 32)%N → (v < U32)%N → let g := gic_of d in
    gic_of (bus_store B W32 (gicd_base + (256 + w * 4)) v d) =
    with_lines g (set_at (words g) w (N.lor (words g w) v)) (private g);
  gs_icenabler w v d : (1 ≤ w < 32)%N → (v < U32)%N → let g := gic_of d in
    gic_of (bus_store B W32 (gicd_base + (384 + w * 4)) v d) =
    with_lines g (set_at (words g) w (N.ldiff (words g w) v)) (private g);
  gs_priority k v d : (8 ≤ k < 255)%N → (v < U32)%N → let g := gic_of d in
    gic_of (bus_store B W32 (gicd_base + (1024 + k * 4)) v d) = with_prio g (set_prio (prio g) k v);
  gs_router i v d : (i < 988)%N → gic_of (bus_store B W64 (gicd_base + (24832 + i * 8)) v d) = gic_of d;
  gs_control v d : (v < U32)%N → let g := gic_of d in
    gic_of (bus_store B W32 gicd_base v d) = with_control g (pmr g) (N.testbit v 1);
  gs_waker_store v d : (v < U32)%N → let g := gic_of d in
    gic_of (bus_store B W32 134873108 v d) = with_sleep g (N.testbit v 1) (waking g);
  gs_waker_load d : let '(v, d') := bus_load B W32 134873108 d in let g := gic_of d in
    if asleep g then gic_of d' = g
    else N.testbit v 2 = negb (waking g =? 0) ∧ gic_of d' = with_sleep g false (pred (waking g));
  gs_private_priority k v d : (k < 8)%N → (v < U32)%N → let g := gic_of d in
    gic_of (bus_store B W32 (134938624 + (1024 + k * 4)) v d) = with_prio g (set_prio (prio g) k v);
  gs_private_enable v d : (v < U32)%N → let g := gic_of d in
    gic_of (bus_store B W32 (134938624 + 256) v d) = with_lines g (words g) (N.lor (private g) v);
  gs_enable_cpu d : let g := gic_of d in gic_of (icc_enable C d) = with_control g 255 (forwards g);
  gs_acknowledge d : let '(v, d') := icc_iar C d in let g := gic_of d in let i := N.land v 16777215 in
    i = 1023%N ∧ pending g ∩ open_intids g = ∅ ∧ gic_of d' = g ∨
    i ∈ pending g ∩ open_intids g ∧ gic_of d' = with_sets g (pending g ∖ {[i]}) ({[i]} ∪ active g);
  gs_complete i d : let g := gic_of d in gic_of (icc_eoir C i d) = with_sets g (pending g) (active g ∖ {[i]});
  gs_sgi v d : gic_of (icc_sgi1r C v d) = gic_of d;
  gs_raise i d : (i < 1020)%N → let g := gic_of d in gic_of (assert_irq i d) = with_sets g ({[i]} ∪ pending g) (active g);
}.

(** ** The contract *)

Definition arm64_lines : Lines := mkLines 32 512 true (Some 30%N) (λ i, (i < 1020)%N).

(** Nothing is active, and the processor takes interrupts of every priority in use. *)
Record gic_quiet (g : Gic) : Prop := {
  gq_active : active g = ∅;
  gq_forwards : forwards g = true;
  gq_pmr : pmr g = 255%N;
  gq_prio : ∀ i, (prio g i < 255)%N;
}.

Lemma quiet_open g i : gic_quiet g → i ∈ open_intids g ↔ is_enabled g i = true ∧ (i < 1020)%N.
Proof.
  intros [_ H1 H2 H3]. rewrite gic_elem_of_open, H2. specialize (H3 i). split; [intros [[? _] ?]; by split|].
  intros [? ?]. by split_and!.
Qed.

Section spec.
Context {D : Type} (B : Bus D) (C : GicCpu D) (gicd_base : N) (assert_irq : N → D → D) (gic_of : D → Gic).
Context {GS : GicSpec B C gicd_base assert_irq gic_of}.

Definition acknowledge {H} : M (Machine D H) IrqError unit := _ ← dispatch_current_irq B C gicd_base; mret tt.

#[export] Instance arm64_machine : IrqMachine D := {
  im_raise := assert_irq;
  im_interrupt H := acknowledge;
  im_quiet d := gic_quiet (gic_of d);
  im_unmasked d := open_intids (gic_of d);
  im_raised d := pending (gic_of d);
  im_configured d := intids;
}.

(** An access at an offset of a window. *)
Lemma gic_run_write {E} w base off v d : (base + off < U64)%N → (v < width_mod w)%N →
  (store B w base off v : M D E unit) d = (Ok tt, bus_store B w (base + off) v d).
Proof using.
  intros Ho Hv. unfold store. rewrite checked_add_lt by done. cbn [unwrap].
  unfold mbind, M_bind, mret, M_ret, write_volatile, truncate. by rewrite N.mod_small.
Qed.

Lemma gic_run_read {E} w base off d : (base + off < U64)%N →
  (load B w base off : M D E N) d =
  (Ok (truncate (width_mod w) (bus_load B w (base + off) d).1), (bus_load B w (base + off) d).2).
Proof using.
  intros Ho. unfold load. rewrite checked_add_lt by done. cbn [unwrap].
  unfold mbind, M_bind, mret, M_ret, read_volatile. by destruct (bus_load _ _ _ _).
Qed.

Lemma bit_bound intid : (N.shiftl 1 (intid mod 32) < U32)%N.
Proof using.
  rewrite N.shiftl_1_l. change U32 with (2 ^ 32)%N. apply N.pow_lt_mono_r; [done|]. by apply N.mod_lt.
Qed.

Lemma word_of intid : (32 ≤ intid < 1024)%N → (1 ≤ intid / 32 < 32)%N.
Proof using.
  intros Hi. split; [|apply N.Div0.div_lt_upper_bound; lia].
  change 1%N with (32 / 32)%N. apply N.Div0.div_le_mono. lia.
Qed.

(** One line of the enable words. *)
Lemma gic_is_enabled_set g intid v b j : (32 ≤ intid)%N →
  (∀ k, N.testbit v k = if (k =? intid mod 32)%N then b else N.testbit (words g (intid / 32)) k) →
  is_enabled (with_lines g (set_at (words g) (intid / 32) v) (private g)) j = if (j =? intid)%N then b else is_enabled g j.
Proof using.
  intros Hi Hv. unfold is_enabled. cbn [words private with_lines]. destruct (N.ltb_spec j 32) as [Hj|Hj].
  { by rewrite (proj2 (N.eqb_neq j intid)) by lia. }
  unfold set_at. destruct (N.eqb_spec (j / 32) (intid / 32)) as [Hd|Hd].
  - rewrite Hv. destruct (N.eqb_spec (j mod 32) (intid mod 32)) as [Hm|Hm].
    + assert (j = intid) as -> by (rewrite (N.div_mod j 32), (N.div_mod intid 32), Hd, Hm; done). by rewrite N.eqb_refl.
    + rewrite (proj2 (N.eqb_neq j intid)) by congruence. by rewrite Hd.
  - by rewrite (proj2 (N.eqb_neq j intid)) by congruence.
Qed.

Lemma quiet_lines g w p : gic_quiet g → gic_quiet (with_lines g w p).
Proof using. intros [H1 H2 H3 H4]. by split. Qed.

(** The open lines after one of them is enabled or disabled. *)
Lemma open_line g g' intid (b : bool) : gic_quiet g → gic_quiet g' → (intid < 1020)%N →
  (∀ j, is_enabled g' j = if (j =? intid)%N then b else is_enabled g j) →
  open_intids g' = if b then {[intid]} ∪ open_intids g else open_intids g ∖ {[intid]}.
Proof using.
  intros Hq Hq' Hi He. apply set_eq. intros j. rewrite (quiet_open g' j Hq'), He.
  destruct b; [rewrite elem_of_union, (quiet_open g j Hq), elem_of_singleton|rewrite elem_of_difference, (quiet_open g j Hq), elem_of_singleton];
    destruct (N.eqb_spec j intid) as [->|Hn].
  - split; [by left|by split].
  - split; [by right|by intros [?|?]].
  - split; [by intros [? _]|by intros [_ ?]].
  - split; [by split|by intros [? _]].
Qed.

Lemma enable_run intid d : (32 ≤ intid < 512)%N → let g := gic_of d in
  ∃ d', (∀ E, enable_line B gicd_base (E := E) intid d = (Ok tt, d')) ∧
    ∃ w, gic_of d' = with_lines g w (private g) ∧
    ∀ j, is_enabled (with_lines g w (private g)) j = if (j =? intid)%N then true else is_enabled g j.
Proof using GS.
  intros Hi. pose proof gs_base as Hb. pose proof (word_of intid ltac:(lia)) as Hw. pose proof (bit_bound intid) as Hv.
  eexists. split; [intros E; apply gic_run_write; [unfold gicd_reg.ISENABLER; lia|exact Hv]|].
  eexists. split; [by apply gs_isenabler|]. intros j. apply gic_is_enabled_set; [lia|]. intros k.
  rewrite N.lor_spec, N.shiftl_1_l, N.pow2_bits_eqb, (N.eqb_sym (intid mod 32)).
  destruct (N.eqb k _); [apply orb_true_r|apply orb_false_r].
Qed.

Lemma disable_run intid d : (32 ≤ intid < 512)%N → let g := gic_of d in
  ∃ d', (∀ E, disable_line B gicd_base (E := E) intid d = (Ok tt, d')) ∧
    ∃ w, gic_of d' = with_lines g w (private g) ∧
    ∀ j, is_enabled (with_lines g w (private g)) j = if (j =? intid)%N then false else is_enabled g j.
Proof using GS.
  intros Hi. pose proof gs_base as Hb. pose proof (word_of intid ltac:(lia)) as Hw. pose proof (bit_bound intid) as Hv.
  eexists. split; [intros E; apply gic_run_write; [unfold gicd_reg.ICENABLER; lia|exact Hv]|].
  eexists. split; [by apply gs_icenabler|]. intros j. apply gic_is_enabled_set; [lia|]. intros k.
  rewrite N.ldiff_spec, N.shiftl_1_l, N.pow2_bits_eqb, (N.eqb_sym (intid mod 32)).
  destruct (N.eqb k _); [apply andb_false_r|apply andb_true_r].
Qed.

Lemma line_effect (op : ∀ E, N → M D E unit) intid (b : bool) d :
  (∃ d', (∀ E, op E intid d = (Ok tt, d')) ∧ ∃ w, gic_of d' = with_lines (gic_of d) w (private (gic_of d)) ∧
    ∀ j, is_enabled (with_lines (gic_of d) w (private (gic_of d))) j = if (j =? intid)%N then b else is_enabled (gic_of d) j) →
  (intid < 1020)%N → gic_quiet (gic_of d) →
  ∃ d', (∀ E, op E intid d = (Ok tt, d')) ∧
    effect d d' (if b then {[intid]} ∪ im_unmasked d else im_unmasked d ∖ {[intid]}) (im_raised d).
Proof using.
  intros (d' & Hrun & w & Hg & He) Hi Hq. exists d'. split; [exact Hrun|].
  pose proof (quiet_lines (gic_of d) w (private (gic_of d)) Hq) as Hq'.
  split; cbn [im_quiet im_unmasked im_raised im_configured arm64_machine]; [by rewrite Hg| |by rewrite Hg|reflexivity].
  rewrite Hg. by apply open_line.
Qed.

Lemma gic_enable_effect intid d : (32 ≤ intid < 512)%N → gic_quiet (gic_of d) → ∃ d',
  (∀ E, enable_line B gicd_base (E := E) intid d = (Ok tt, d')) ∧ effect d d' ({[intid]} ∪ im_unmasked d) (im_raised d).
Proof using GS.
  intros Hi Hq. apply (line_effect (λ E, enable_line B gicd_base) intid true d); [by apply enable_run|lia|done].
Qed.

Lemma gic_disable_effect intid d : (32 ≤ intid < 512)%N → gic_quiet (gic_of d) → ∃ d',
  (∀ E, disable_line B gicd_base (E := E) intid d = (Ok tt, d')) ∧ effect d d' (hide arm64_lines intid (im_unmasked d)) (im_raised d).
Proof using GS.
  intros Hi Hq. apply (line_effect (λ E, disable_line B gicd_base) intid false d); [by apply disable_run|lia|done].
Qed.

Lemma align4_word n : align4 (1024 + n) = (1024 + n / 4 * 4)%N.
Proof using.
  unfold align4. change 3%N with (N.ones 2). rewrite N.ldiff_ones_r, N.shiftl_mul_pow2, N.shiftr_div_pow2.
  change (2 ^ 2)%N with 4%N. change 1024%N with (256 * 4)%N. rewrite N.div_add_l by done. lia.
Qed.

(** The priority that the code writes. *)
Lemma default_priority f k i : (∀ j, f j < 255)%N → (set_prio f k 2155905152 i < 255)%N.
Proof using.
  intros Hf. unfold set_prio. destruct (N.eqb_spec (i / 4) k); [|done].
  pose proof (N.mod_lt i 4 ltac:(done)) as Hm. generalize dependent (i mod 4)%N. intros m Hm.
  assert (m = 0 ∨ m = 1 ∨ m = 2 ∨ m = 3)%N as [->|[->|[->| ->]]] by lia; done.
Qed.

Lemma quiet_prio g k : gic_quiet g → gic_quiet (with_prio g (set_prio (prio g) k 2155905152)).
Proof using. intros [H1 H2 H3 H4]. split; [done..|]. intros i. by apply default_priority. Qed.

Lemma gic_register_effect intid d : (32 ≤ intid < 512)%N → gic_quiet (gic_of d) → ∃ d',
  (∀ E, hw_register (IrqHw := arm64_hw B C gicd_base) (E := E) intid d = (Ok tt, d')) ∧
  effect d d' ({[intid]} ∪ im_unmasked d) (im_raised d) ∧ intid ∈ im_configured d'.
Proof using GS.
  intros Hi Hq. pose proof gs_base as Hb.
  assert (8 ≤ intid / 4 < 255)%N as Hk.
  { split; [change 8%N with (32 / 4)%N; apply N.Div0.div_le_mono|apply N.Div0.div_lt_upper_bound]; lia. }
  pose proof (gs_priority (intid / 4) 2155905152 d Hk ltac:(done)) as Hp. cbv zeta in Hp.
  set (d1 := bus_store B W32 (gicd_base + (1024 + intid / 4 * 4)) 2155905152 d) in *.
  pose proof (gs_router (intid - 32) 0 d1 ltac:(lia)) as Hr. set (d2 := bus_store B W64 _ _ _) in Hr.
  assert (gic_quiet (gic_of d2)) as Hq2 by (rewrite Hr, Hp; by apply quiet_prio).
  destruct (gic_enable_effect intid d2 Hi Hq2) as (d' & Hrun & He). exists d'. split; [|split].
  - intros E. cbn [hw_register arm64_hw]. unfold configure_spi, gicd_reg.IPRIORITYR, gicd_reg.IROUTER. rewrite align4_word.
    rewrite run_bind. unfold gicd_write32 at 1. rewrite gic_run_write by (try done; lia).
    rewrite run_bind. unfold gicd_write64. rewrite gic_run_write by (try done; lia). apply Hrun.
  - destruct He as [Q1 Q2 Q3 Q4]. cbn [im_quiet im_unmasked im_raised im_configured arm64_machine] in *.
    split; cbn [im_quiet im_unmasked im_raised im_configured arm64_machine]; [exact Q1| |rewrite Q3, Hr, Hp; reflexivity|reflexivity].
    assert (open_intids (gic_of d2) = open_intids (gic_of d)) as Ho.
    { apply set_eq. intros j. rewrite (quiet_open _ j Hq2), (quiet_open _ j Hq), Hr, Hp. reflexivity. }
    rewrite Q2, Ho. reflexivity.
  - cbn [im_configured arm64_machine]. apply elem_of_intids. lia.
Qed.

Lemma gic_raise_effect intid d : (intid < 1020)%N → gic_quiet (gic_of d) →
  effect d (im_raise intid d) (im_unmasked d) ({[intid]} ∪ im_raised d).
Proof using GS.
  intros Hi [H1 H2 H3 H4]. pose proof (gs_raise intid d Hi) as Hg. cbv zeta in Hg.
  split; cbn [im_raise im_quiet im_unmasked im_raised im_configured arm64_machine]; rewrite ?Hg;
    [by split|apply open_sets|reflexivity|reflexivity].
Qed.

(** The acknowledgement, the handler and the end of the interrupt. *)
Lemma gic_interrupt_effect H (m : Machine D H) r (HW := arm64_hw B C gicd_base) :
  im_quiet (mc_dev m) → mc_installed m = true → length (mc_handlers m) = hw_slots → table_is m r →
  let d := mc_dev m in
  ∃ d' c r', im_interrupt m = (Ok tt, with_dev d' (add_calls c m)) ∧ effect d d' (im_unmasked d) r' ∧
    (im_raised d ∩ im_unmasked d = ∅ ∧ r' = im_raised d ∧ c = [] ∨
     ∃ irq, irq ∈ im_raised d ∩ im_unmasked d ∧ r' = im_raised d ∖ {[irq]} ∧ c = called arm64_lines r irq).
Proof using GS.
  intros Hq Hin Hl Ht. cbv zeta. cbn [im_interrupt im_quiet im_unmasked im_raised im_configured arm64_machine] in *.
  set (d := mc_dev m) in *. pose proof (gs_acknowledge d) as Ha. unfold acknowledge, dispatch_current_irq.
  rewrite run_bind, run_bind. cbn [gets]. rewrite Hin. cbn [negb].
  destruct (icc_iar C d) as [v d1] eqn:Hrun. cbv zeta in Ha. set (i := N.land v 16777215) in *.
  rewrite run_bind, (run_on_dev (read_iar C) m (Ok i) d1) by (unfold read_iar; fold d; by rewrite Hrun).
  destruct Ha as [(-> & Hnone & Hg)|[Hi Hg]].
  - exists d1, [], (pending (gic_of d)). split; [|split].
    + change (1020 <=? 1023)%N with true. unfold add_calls. rewrite app_nil_r. by destruct m.
    + split; cbn [im_quiet im_unmasked im_raised im_configured arm64_machine]; rewrite ?Hg; [done|reflexivity..].
    + by left.
  - apply elem_of_intersection in Hi as [Hpend Hopen]. pose proof (proj1 (gic_elem_of_open _ _) Hopen) as [_ Hr].
    rewrite (proj2 (N.leb_gt _ _)) by exact Hr.
    set (c := called arm64_lines r i). set (d' := icc_eoir C i d1). exists d', c, (pending (gic_of d) ∖ {[i]}).
    split; [|split; [|right; exists i; split; [apply elem_of_intersection; split; assumption|split; reflexivity]]].
    + unfold c, called. cbn [ln_timer arm64_lines]. unfold TIMER_PPI_INTID. destruct (N.eqb_spec i 30) as [E|E].
      * rewrite decide_True by congruence. reflexivity.
      * rewrite decide_False by congruence. rewrite run_bind, (call_handler_run (with_dev d1 m) r i); [reflexivity|by vm_compute|exact Hl|exact Ht].
    + pose proof (gs_complete i d1) as Hc. cbv zeta in Hc. fold d' in Hc. rewrite Hg in Hc. destruct Hq as [Q1 Q2 Q3 Q4].
      split; cbn [im_quiet im_unmasked im_raised im_configured arm64_machine]; rewrite ?Hc; [|apply (open_sets (gic_of d))|reflexivity..].
      split; cbn [active forwards pmr prio with_sets]; [rewrite Q1; clear; set_solver|exact Q2|exact Q3|exact Q4].
Qed.

(** The processor and the redistributor are set up, with as many reads as it takes the
    redistributor to wake, and one more. *)
Definition gic_fresh (g : Gic) : Prop := active g = ∅ ∧ ∀ i, (prio g i < 255)%N.

Lemma wait_awake_run n : ∀ d, asleep (gic_of d) = false → waking (gic_of d) < n →
  ∃ d', wait_awake B n QEMU_VIRT_DEFAULT_GICR_BASE d = (Ok tt, d') ∧
    gic_of d' = with_sleep (gic_of d) false 0.
Proof using GS.
  induction n as [|n IH]; intros d Ha Hn; [lia|]. cbn [wait_awake]. unfold gicd_read32.
  rewrite run_bind, gic_run_read by done. change (QEMU_VIRT_DEFAULT_GICR_BASE + gicr_reg.WAKER)%N with 134873108%N.
  pose proof (gs_waker_load d) as Hl. destruct (bus_load B W32 134873108 d) as [v d1]. cbn [fst snd]. cbv zeta in Hl. rewrite Ha in Hl.
  destruct Hl as [Hv Hg]. cbv beta iota.
  assert (N.land (truncate (width_mod W32) v) 4 = if negb (waking (gic_of d) =? 0)%nat then 4 else 0)%N as Hb.
  { unfold truncate. change (width_mod W32) with (2 ^ 32)%N. rewrite <- Hv. apply N.bits_inj. intros j. rewrite N.land_spec.
    change 4%N with (2 ^ 2)%N. rewrite N.pow2_bits_eqb. destruct (N.eqb_spec 2 j) as [<-|Hj].
    - rewrite N.mod_pow2_bits_low, andb_true_r by done. by destruct (N.testbit v 2).
    - rewrite andb_false_r. destruct (N.testbit v 2); [|by rewrite N.bits_0].
      change 4%N with (2 ^ 2)%N. rewrite N.pow2_bits_eqb. by apply N.eqb_neq in Hj as ->. }
  rewrite Hb. destruct (Nat.eqb_spec (waking (gic_of d)) 0) as [E|E]; cbn [negb N.eqb].
  - exists d1. split; [reflexivity|]. by rewrite Hg, E.
  - destruct (IH d1) as (d' & Hrun & Hg'); [by rewrite Hg|rewrite Hg; cbn; lia|].
    exists d'. split; [exact Hrun|]. by rewrite Hg', Hg.
Qed.

Lemma arm64_bootstrap n d : gic_fresh (gic_of d) → waking (gic_of d) < n →
  ∃ d', bootstrap_current_core B C gicd_base n d = (Ok tt, d') ∧ im_quiet d' ∧ im_raised d' = im_raised d ∧
    TIMER_PPI_INTID ∈ im_unmasked d'.
Proof using GS.
  intros [H1 H2] Hn. pose proof gs_base as Hb. unfold bootstrap_current_core.
  pose proof (gs_enable_cpu d) as G1. cbv zeta in G1. set (d1 := icc_enable C d) in *.
  pose proof (gs_control 19 d1 ltac:(done)) as G2. cbv zeta in G2. set (d2 := bus_store B W32 gicd_base 19 d1) in *.
  rewrite run_bind. cbn [modify]. fold d1. rewrite run_bind. unfold gicd_write32 at 1, gicd_reg.CTLR.
  rewrite gic_run_write, N.add_0_r by (try done; lia). fold d2. rewrite run_bind.
  unfold gicd_read32. rewrite gic_run_read by done. change (QEMU_VIRT_DEFAULT_GICR_BASE + gicr_reg.WAKER)%N with 134873108%N.
  pose proof (gs_waker_load d2) as G3. destruct (bus_load B W32 134873108 d2) as [v d3]. cbn [fst snd]. cbv zeta in G3.
  set (waker := N.ldiff (truncate (width_mod W32) v) 2).
  assert (waker < U32)%N as Hw.
  { apply bits_u32. intros j Hj. unfold waker. rewrite N.ldiff_spec, u32_bits; [done|by apply N.mod_lt|done]. }
  assert (N.testbit waker 1 = false) as Hw1 by (unfold waker; by rewrite N.ldiff_spec, andb_false_r).
  pose proof (gs_waker_store waker d3 Hw) as G4. cbv zeta in G4. rewrite Hw1 in G4.
  rewrite run_bind. unfold gicd_write32 at 1. rewrite gic_run_write by (try done; exact Hw).
  change (QEMU_VIRT_DEFAULT_GICR_BASE + gicr_reg.WAKER)%N with 134873108%N. set (d4 := bus_store B W32 134873108 waker d3) in *.
  assert (waking (gic_of d3) ≤ waking (gic_of d) ∧ with_sleep (gic_of d3) false 0 = with_sleep (gic_of d2) false 0) as [Hwk Hs3].
  { assert (waking (gic_of d2) = waking (gic_of d)) as Hw2 by by rewrite G2, G1.
    destruct (asleep (gic_of d2)); [rewrite G3|destruct G3 as [_ ->]]; cbn; rewrite <- Hw2; split; [lia|done|lia|done]. }
  destruct (wait_awake_run n d4) as (d5 & Hrun & G5); [by rewrite G4|rewrite G4; cbn; lia|].
  rewrite run_bind, Hrun. rewrite run_bind. unfold gicd_write32, gicr_reg.IPRIORITYR. rewrite align4_word.
  rewrite gic_run_write by done. rewrite gic_run_write by done.
  change (QEMU_VIRT_DEFAULT_GICR_BASE + gicr_reg.SGI_BASE_OFFSET)%N with 134938624%N.
  pose proof (gs_private_priority (TIMER_PPI_INTID / 4) 2155905152 d5 ltac:(done) ltac:(done)) as G6. cbv zeta in G6.
  set (d6 := bus_store B W32 (134938624 + (1024 + _)) _ d5) in *.
  pose proof (gs_private_enable (N.shiftl 1 TIMER_PPI_INTID) d6 ltac:(done)) as G7. cbv zeta in G7.
  change gicr_reg.ISENABLER0 with 256%N. set (d7 := bus_store B W32 (134938624 + 256) _ d6) in *.
  assert (gic_of d7 = with_lines (with_prio (with_control (with_sleep (gic_of d) false 0) 255 true)
    (set_prio (prio (gic_of d)) (TIMER_PPI_INTID / 4) 2155905152)) (words (gic_of d)) (N.lor (private (gic_of d)) (N.shiftl 1 30))) as G.
  { rewrite G7, G6, G5, G4. change (with_sleep (with_sleep ?g ?a ?b) ?x ?y) with (with_sleep g x y).
    rewrite Hs3, G2, G1. reflexivity. }
  assert (gic_quiet (gic_of d7)) as Hq.
  { rewrite G. split; [exact H1|done|done|]. intros i. by apply default_priority. }
  exists d7. split; [reflexivity|]. cbn [im_quiet im_unmasked im_raised arm64_machine]. split; [exact Hq|]. split; [by rewrite G|].
  apply quiet_open; [exact Hq|]. split; [|done]. rewrite G. unfold is_enabled. cbn [private with_lines].
  change (TIMER_PPI_INTID <? 32)%N with true. rewrite N.lor_spec. by rewrite orb_true_r.
Qed.

#[export] Instance arm64_spec : IrqMachineSpec D (HW := arm64_hw B C gicd_base) arm64_lines.
Proof using GS.
  split; [done|done|by vm_compute| | | | | |].
  - intros irq d Hi Hq. by apply gic_register_effect.
  - intros irq d Hi Hq. by apply gic_disable_effect.
  - intros irq d Hi Hq. by apply gic_disable_effect.
  - intros irq d Hi Hq. destruct (gic_enable_effect irq d Hi Hq) as (d' & Hrun & He).
    exists d', ({[irq]} ∪ im_unmasked d). split; [exact Hrun|]. split; [exact He|]. split; [apply add_remove|].
    intros _. apply elem_of_union. left. by apply elem_of_singleton.
  - intros irq d Hi Hq. by apply gic_raise_effect.
  - intros H m r. apply gic_interrupt_effect.
Qed.
End spec.

(** ** A device *)

(** One that acknowledges any open interrupt first in the order of the set. *)
Definition gic_bus (gicd_base : N) : Bus Gic := {|
  bus_load w a g :=
    if (a =? 134873108)%N then
      if asleep g then (4%N, g)
      else ((if (waking g =? 0)%nat then 0 else 4)%N, with_sleep g false (pred (waking g)))
    else (0%N, g);
  bus_store w a v g :=
    if (a =? 134873108)%N then with_sleep g (N.testbit v 1) (waking g)
    else if (134938624 <=? a)%N then
      let off := (a - 134938624)%N in
      if (off =? 256)%N then with_lines g (words g) (N.lor (private g) v)
      else with_prio g (set_prio (prio g) ((off - 1024) / 4) v)
    else
      let off := (a - gicd_base)%N in
      if (off =? 0)%N then with_control g (pmr g) (N.testbit v 1)
      else if (off <? 384)%N then
        let w := ((off - 256) / 4)%N in with_lines g (set_at (words g) w (N.lor (words g w) v)) (private g)
      else if (off <? 512)%N then
        let w := ((off - 384) / 4)%N in with_lines g (set_at (words g) w (N.ldiff (words g w) v)) (private g)
      else if (off <? 2048)%N then with_prio g (set_prio (prio g) ((off - 1024) / 4) v)
      else g;
  bus_wait g := g;
|}.

Definition gic_assert (i : N) (g : Gic) : Gic := with_sets g ({[i]} ∪ pending g) (active g).

Definition gic_cpu : GicCpu Gic := {|
  icc_iar g :=
    match head (elements (pending g ∩ open_intids g)) with
    | Some i => (i, with_sets g (pending g ∖ {[i]}) ({[i]} ∪ active g))
    | None => (1023%N, g)
    end;
  icc_eoir i g := with_sets g (pending g) (active g ∖ {[i]});
  icc_sgi1r _ g := g;
  icc_enable g := with_control g 255 (forwards g);
|}.

Lemma word_index (base k : N) : ((base + k * 4 - base) / 4 = k)%N.
Proof. replace (base + k * 4 - base)%N with (k * 4)%N by lia. by apply N.div_mul. Qed.

#[export] Instance gic_bus_spec gicd_base :
  (gicd_base + 65536 ≤ 134873088)%N → GicSpec (gic_bus gicd_base) gic_cpu gicd_base gic_assert (λ g, g).
Proof.
  intros Hb. assert (∀ off, (gicd_base + off - gicd_base = off)%N) as Ho by lia.
  split; cbn [gic_bus bus_load bus_store gic_cpu icc_iar icc_eoir icc_sgi1r icc_enable]; intros; cbv zeta.
  - lia.
  - rewrite (proj2 (N.eqb_neq _ 134873108)), (proj2 (N.leb_gt _ _)), Ho, (proj2 (N.eqb_neq _ 0)), (proj2 (N.ltb_lt _ 384)) by lia.
    by rewrite word_index.
  - rewrite (proj2 (N.eqb_neq _ 134873108)), (proj2 (N.leb_gt _ _)), Ho, (proj2 (N.eqb_neq _ 0)), (proj2 (N.ltb_ge _ 384)),
      (proj2 (N.ltb_lt _ 512)) by lia. by rewrite word_index.
  - rewrite (proj2 (N.eqb_neq _ 134873108)), (proj2 (N.leb_gt _ _)), Ho, (proj2 (N.eqb_neq _ 0)), (proj2 (N.ltb_ge _ 384)),
      (proj2 (N.ltb_ge _ 512)), (proj2 (N.ltb_lt _ 2048)) by lia. by rewrite word_index.
  - by rewrite (proj2 (N.eqb_neq _ 134873108)), (proj2 (N.leb_gt _ _)), Ho, (proj2 (N.eqb_neq _ 0)), (proj2 (N.ltb_ge _ 384)),
      (proj2 (N.ltb_ge _ 512)), (proj2 (N.ltb_ge _ 2048)) by lia.
  - by rewrite (proj2 (N.eqb_neq _ 134873108)), (proj2 (N.leb_gt _ _)), N.sub_diag by lia.
  - done.
  - rewrite N.eqb_refl. destruct (asleep d); [done|]. by destruct (waking d).
  - rewrite (proj2 (N.eqb_neq _ 134873108)), (proj2 (N.leb_le _ _)) by lia.
    replace (134938624 + (1024 + k * 4) - 134938624)%N with (1024 + k * 4)%N by lia.
    by rewrite (proj2 (N.eqb_neq _ 256)), word_index by lia.
  - done.
  - done.
  - destruct (elements _) as [|i l] eqn:E; cbn [head].
    + left. split; [done|]. split; [|done]. by apply leibniz_equiv, elements_empty_inv.
    + assert (i ∈ pending d ∩ open_intids d) as Hi by (apply elem_of_elements; rewrite E; by left). right.
      pose proof Hi as [_ [_ Hlt]%gic_elem_of_open]%elem_of_intersection.
      assert (N.land i 16777215 = i) as ->; [|by split].
      change 16777215%N with (N.ones 24). rewrite N.land_ones. apply N.mod_small. change (2 ^ 24)%N with 16777216%N. lia.
  - done.
  - done.
  - done.
Qed.

(** After a reset the redistributor sleeps. *)
Definition gic_reset : Gic := mkGic (λ _, 0%N) 0 (λ _, 0%N) 0 false true 3 ∅ ∅.

Lemma gic_reset_fresh : gic_fresh gic_reset.
Proof. done. Qed.
