(* ===== verification/IrqX86.v ===== *)
(** * The local APIC

    [hal-x86_64/src/interrupt.rs], on a device that follows the APIC specification
    ([ApicSpec]), in both of its modes: it keeps the contract of [Irq], except that a
    line cannot be masked.  [apic_bus] is such a device. *)

From stdpp Require Import gmap.
From S2P Require Import Prelude Virtio Irq.

(** ** The code *)

Record CpuidResult := mkCpuid { eax : N; ebx : N; ecx : N; edx : N }.

(** [rdmsr], [wrmsr] and [cpuid]; [take_vector] is how the processor takes an interrupt. *)
Record X86Cpu (D : Type) := mkX86Cpu {
  cpu_rdmsr : N → D → N * D;
  cpu_wrmsr : N → N → D → D;
  cpuid : N → N → CpuidResult;
  take_vector : D → option (N * D);
}.
Arguments mkX86Cpu {D}. Arguments cpu_rdmsr {D}. Arguments cpu_wrmsr {D}. Arguments cpuid {D}. Arguments take_vector {D}.

Definition IA32_APIC_BASE_MSR : N := 27.
Definition X2APIC_MSR_BASE : N := 2048.

Module xapic_reg.
Definition ID : N := 32.
Definition EOI : N := 176.
Definition SPURIOUS_INTERRUPT_VECTOR : N := 240.
Definition LVT_TIMER : N := 800.
Definition ICR_LOW : N := 768.
Definition ICR_HIGH : N := 784.
Definition INITIAL_COUNT : N := 896.
Definition CURRENT_COUNT : N := 912.
Definition DIVIDE_CONFIGURATION : N := 992.
End xapic_reg.

Module x2apic_reg.
Definition ID : N := X2APIC_MSR_BASE + N.shiftr xapic_reg.ID 4.
Definition EOI : N := X2APIC_MSR_BASE + N.shiftr xapic_reg.EOI 4.
Definition SPURIOUS_INTERRUPT_VECTOR : N := X2APIC_MSR_BASE + N.shiftr xapic_reg.SPURIOUS_INTERRUPT_VECTOR 4.
Definition LVT_TIMER : N := X2APIC_MSR_BASE + N.shiftr xapic_reg.LVT_TIMER 4.
Definition ICR : N := X2APIC_MSR_BASE + 48.
Definition INITIAL_COUNT : N := X2APIC_MSR_BASE + N.shiftr xapic_reg.INITIAL_COUNT 4.
Definition CURRENT_COUNT : N := X2APIC_MSR_BASE + N.shiftr xapic_reg.CURRENT_COUNT 4.
Definition DIVIDE_CONFIGURATION : N := X2APIC_MSR_BASE + N.shiftr xapic_reg.DIVIDE_CONFIGURATION 4.
End x2apic_reg.

Definition TIMER_VECTOR : N := 32.
Definition FIRST_USABLE_IRQ_VECTOR : N := 33.
Definition IRQ_TABLE_SIZE : nat := 256 - N.to_nat FIRST_USABLE_IRQ_VECTOR.
Definition APIC_GLOBAL_ENABLE : N := N.shiftl 1 11.
Definition X2APIC_ENABLE : N := N.shiftl 1 10.
Definition APIC_SOFTWARE_ENABLE : N := N.shiftl 1 8.
Definition SPURIOUS_VECTOR : N := 255.
Definition LVT_TIMER_MODE_TSC_DEADLINE : N := N.shiftl 1 18.
Definition LVT_MASKED : N := N.shiftl 1 16.
Definition DIVIDE_BY_16 : N := 3.

Inductive ApicMode := Xapic (mmio_base : N) | X2apic.

Definition detect_x2apic {D} (C : X86Cpu D) : bool := negb (N.land (ecx (cpuid C 1 0)) (N.shiftl 1 21) =? 0)%N.

Definition initial_apic_id {D} (C : X86Cpu D) : N := N.shiftr (ebx (cpuid C 1 0)) 24.

(** [msi_message]: the address and the data that raise the vector. *)
Definition msi_message {D} (C : X86Cpu D) (vector : N) : option (N * N) :=
  if (vector <? FIRST_USABLE_IRQ_VECTOR)%N || (255 <? vector)%N then None else
  Some (N.lor 4276092928 (N.shiftl (initial_apic_id C) 12), vector).

Section code.
Context {D : Type} (B : Bus D) (C : X86Cpu D).

Abbreviation W E := (M D E) (only parsing).

Definition rdmsr {E} (msr : N) : W E N := λ d, let '(v, d) := cpu_rdmsr C msr d in (Ok (truncate U64 v), d).
Definition wrmsr {E} (msr value : N) : W E unit := modify (cpu_wrmsr C msr (truncate U64 value)).

Definition xapic_mmio_base {E} : W E N := v ← rdmsr IA32_APIC_BASE_MSR; mret (N.land v 4503599627366400).

(** The mode that [InterruptCtrl::new] selects. *)
Definition new_mode {E} : W E ApicMode :=
  if detect_x2apic C then mret X2apic else base ← xapic_mmio_base; mret (Xapic base).

Section mode.
Context (mode : ApicMode).

Definition xapic_read {E} (mmio_base offset : N) : W E N := load B W32 mmio_base offset.
Definition xapic_write {E} (mmio_base offset value : N) : W E unit := store B W32 mmio_base offset value.

Definition read_reg {E} (xapic_offset x2apic_msr : N) : W E N :=
  match mode with
  | Xapic mmio_base => xapic_read mmio_base xapic_offset
  | X2apic => v ← rdmsr x2apic_msr; mret (truncate U32 v)
  end.

Definition write_reg {E} (xapic_offset x2apic_msr value : N) : W E unit :=
  match mode with
  | Xapic mmio_base => xapic_write mmio_base xapic_offset value
  | X2apic => wrmsr x2apic_msr value
  end.

Definition write_icr {E} (destination_apic_id low_bits : N) : W E unit :=
  match mode with
  | Xapic mmio_base =>
      _ ← xapic_write mmio_base xapic_reg.ICR_HIGH (truncate U32 (N.shiftl destination_apic_id 24));
      xapic_write mmio_base xapic_reg.ICR_LOW low_bits
  | X2apic => wrmsr x2apic_reg.ICR (N.lor (N.shiftl destination_apic_id 32) low_bits)
  end.

Definition primary_base : N := match mode with Xapic mmio_base => mmio_base | X2apic => 0 end.

Definition x86_send_ipi {E} (target_core vector : N) : W E unit :=
  write_icr (truncate U32 target_core) (N.lor vector (N.shiftl 1 14)).

(** Masking has no effect on the hardware. *)
#[export] Instance x86_hw : IrqHw D := {
  hw_first := FIRST_USABLE_IRQ_VECTOR;
  hw_limit := 256;
  hw_slots := IRQ_TABLE_SIZE;
  hw_register E _ := mret (M := M D E) tt;
  hw_unregister E _ := mret (M := M D E) tt;
  hw_mask E _ := mret (M := M D E) tt;
  hw_unmask E _ := mret (M := M D E) tt;
  hw_send_ipi E := x86_send_ipi (E := E);
}.

Definition end_of_interrupt {E} : W E unit := write_reg xapic_reg.EOI x2apic_reg.EOI 0.

Definition bootstrap_current_core {E} (tsc_deadline_capable : bool) : W E unit :=
  apic_base ← rdmsr IA32_APIC_BASE_MSR;
  let desired := match mode with
                 | Xapic _ => N.lor apic_base APIC_GLOBAL_ENABLE
                 | X2apic => N.lor (N.lor apic_base APIC_GLOBAL_ENABLE) X2APIC_ENABLE
                 end in
  _ ← (if (desired =? apic_base)%N then mret tt else wrmsr IA32_APIC_BASE_MSR desired);
  _ ← write_reg xapic_reg.SPURIOUS_INTERRUPT_VECTOR x2apic_reg.SPURIOUS_INTERRUPT_VECTOR
        (N.lor APIC_SOFTWARE_ENABLE SPURIOUS_VECTOR);
  let lvt_timer_value :=
    if tsc_deadline_capable then N.lor LVT_TIMER_MODE_TSC_DEADLINE TIMER_VECTOR else TIMER_VECTOR in
  _ ← write_reg xapic_reg.LVT_TIMER x2apic_reg.LVT_TIMER lvt_timer_value;
  write_reg xapic_reg.DIVIDE_CONFIGURATION x2apic_reg.DIVIDE_CONFIGURATION DIVIDE_BY_16.

Definition set_lvt_timer_masked {E} (masked : bool) : W E unit :=
  current ← read_reg xapic_reg.LVT_TIMER x2apic_reg.LVT_TIMER;
  let next := if masked then N.lor current LVT_MASKED else N.ldiff current LVT_MASKED in
  write_reg xapic_reg.LVT_TIMER x2apic_reg.LVT_TIMER next.

Definition write_initial_count {E} (ticks : N) : W E unit :=
  write_reg xapic_reg.INITIAL_COUNT x2apic_reg.INITIAL_COUNT ticks.

Definition read_current_count {E} : W E N := read_reg xapic_reg.CURRENT_COUNT x2apic_reg.CURRENT_COUNT.

Definition dispatch_vector {H E} (vector : N) : M (Machine D H) E unit :=
  installed ← gets mc_installed;
  if negb installed then mret tt else
  if (vector =? TIMER_VECTOR)%N then _ ← record_call CallTimer; on_dev end_of_interrupt
  else _ ← call_handler vector; on_dev end_of_interrupt.

(** The processor takes an interrupt, if there is one. *)
Definition take_interrupt {H} : M (Machine D H) IrqError unit := λ m,
  match take_vector C (mc_dev m) with
  | Some (vector, d) => dispatch_vector vector (with_dev d m)
  | None => (Ok tt, m)
  end.
End mode.
End code.

(** ** The device *)

(** The vectors that wait and those in service; the global and the software enable bit, and
    the one of x2APIC mode. *)
Record Apic := mkApic {
  irr : gset N;
  isr : gset N;
  global_on : bool;
  software_on : bool;
  x2_on : bool;
}.

Definition vectors : gset N := list_to_set (N.of_nat <$> seq 32 224).

Lemma elem_of_vectors i : i ∈ vectors ↔ (32 ≤ i < 256)%N.
Proof.
  unfold vectors. rewrite elem_of_list_to_set, list_elem_of_fmap. setoid_rewrite elem_of_seq. split.
  - intros (n & -> & ?). lia.
  - intros ?. exists (N.to_nat i). lia.
Qed.

#[global] Opaque vectors.

Definition with_sets (a : Apic) (r s : gset N) : Apic := mkApic r s (global_on a) (software_on a) (x2_on a).

(** The register at an offset, in either mode. *)
Definition reg_store {D} (B : Bus D) (C : X86Cpu D) (mode : ApicMode) (off v : N) (d : D) : D :=
  match mode with
  | Xapic mmio_base => bus_store B W32 (mmio_base + off) v d
  | X2apic => cpu_wrmsr C (X2APIC_MSR_BASE + N.shiftr off 4) v d
  end.

(** The registers answer in the mode that is switched on. *)
Definition mode_on (mode : ApicMode) (a : Apic) : Prop :=
  global_on a = true ∧ x2_on a = match mode with X2apic => true | Xapic _ => false end.

(** What the specification says of the registers that matter for the delivery. *)
Class ApicSpec {D} (B : Bus D) (C : X86Cpu D) (mode : ApicMode) (assert_irq : N → D → D) (apic_of : D → Apic) : Prop := {
  ap_base : match mode with Xapic mmio_base => mmio_base + 4096 ≤ U64 | X2apic => True end%N;
  ap_rdmsr d : let '(v, d') := cpu_rdmsr C IA32_APIC_BASE_MSR d in
    (v < U64)%N ∧ apic_of d' = apic_of d ∧ N.testbit v 11 = global_on (apic_of d) ∧ N.testbit v 10 = x2_on (apic_of d);
  ap_wrmsr v d : (v < U64)%N → let a := apic_of d in
    apic_of (cpu_wrmsr C IA32_APIC_BASE_MSR v d) = mkApic (irr a) (isr a) (N.testbit v 11) (software_on a) (N.testbit v 10);
  ap_spurious v d : mode_on mode (apic_of d) → (v < U32)%N → let a := apic_of d in
    apic_of (reg_store B C mode xapic_reg.SPURIOUS_INTERRUPT_VECTOR v d) =
    mkApic (irr a) (isr a) (global_on a) (N.testbit v 8) (x2_on a);
  ap_other off v d : mode_on mode (apic_of d) → (v < U32)%N →
    off ∈ [xapic_reg.LVT_TIMER; xapic_reg.DIVIDE_CONFIGURATION; xapic_reg.INITIAL_COUNT] →
    apic_of (reg_store B C mode off v d) = apic_of d;
  ap_eoi d i : mode_on mode (apic_of d) → let a := apic_of d in
    i ∈ isr a → (∀ j, j ∈ isr a → (j ≤ i)%N) →
    apic_of (reg_store B C mode xapic_reg.EOI 0 d) = with_sets a (irr a) (isr a ∖ {[i]});
  ap_take d : let a := apic_of d in
    match take_vector C d with
    | None => irr a ∩ (if software_on a then vectors else ∅) = ∅
    | Some (i, d') => i ∈ irr a ∩ vectors ∧ apic_of d' = with_sets a (irr a ∖ {[i]}) ({[i]} ∪ isr a)
    end;
  ap_raise i d : (32 ≤ i < 256)%N → let a := apic_of d in apic_of (assert_irq i d) = with_sets a ({[i]} ∪ irr a) (isr a);
}.

(** ** The contract *)

(** The gate of vector 128 is the one of system calls. *)
Definition x86_lines : Lines := mkLines 33 256 false (Some 32%N) (λ i, (32 ≤ i < 256)%N ∧ i ≠ 128%N).

Record apic_quiet (mode : ApicMode) (a : Apic) : Prop := {
  aq_isr : isr a = ∅;
  aq_mode : mode_on mode a;
  aq_software : software_on a = true;
}.

(** The value that is written to [IA32_APIC_BASE]. *)
Definition desired_base (mode : ApicMode) (v : N) : N :=
  match mode with
  | Xapic _ => N.lor v APIC_GLOBAL_ENABLE
  | X2apic => N.lor (N.lor v APIC_GLOBAL_ENABLE) X2APIC_ENABLE
  end.

Lemma desired_bits mode v : let v' := truncate U64 (desired_base mode v) in
  N.testbit v' 11 = true ∧ N.testbit v' 10 = match mode with X2apic => true | Xapic _ => N.testbit v 10 end.
Proof.
  cbv zeta. unfold truncate. change U64 with (2 ^ 64)%N. rewrite 2!N.mod_pow2_bits_low by done.
  unfold desired_base. destruct mode; rewrite ?N.lor_spec; cbn; rewrite ?orb_true_r, ?orb_false_r; done.
Qed.

Section spec.
Context {D : Type} (B : Bus D) (C : X86Cpu D) (mode : ApicMode) (assert_irq : N → D → D) (apic_of : D → Apic).
Context {AS : ApicSpec B C mode assert_irq apic_of}.

#[export] Instance x86_machine : IrqMachine D := {
  im_raise := assert_irq;
  im_interrupt H := take_interrupt B C mode (H := H);
  im_quiet d := apic_quiet mode (apic_of d);
  im_unmasked d := if software_on (apic_of d) then vectors else ∅;
  im_raised d := irr (apic_of d);
  im_configured d := vectors;
}.

Lemma write_reg_run {E} off v d : (off < 4096)%N → (v < U32)%N →
  (write_reg B C mode off (X2APIC_MSR_BASE + N.shiftr off 4) v : M D E unit) d = (Ok tt, reg_store B C mode off v d).
Proof using AS.
  intros Ho Hv. pose proof ap_base as Hb. unfold write_reg, reg_store. destruct mode as [mmio_base|].
  - unfold xapic_write, store. rewrite checked_add_lt by lia. cbn [unwrap].
    unfold mbind, M_bind, mret, M_ret, write_volatile, truncate. cbn [width_mod width_bytes]. by rewrite N.mod_small.
  - unfold wrmsr, modify, truncate. rewrite N.mod_small; [done|]. lia.
Qed.

(** Nothing happens on the device. *)
Lemma idle_effect (d : D) : im_quiet d → effect d d (im_unmasked d) (im_raised d).
Proof using. intros Hq. split; [exact Hq|reflexivity..]. Qed.

Lemma line_open irq (d : D) : (33 ≤ irq < 256)%N → im_quiet d → irq ∈ im_unmasked d.
Proof using.
  intros Hi Hq. cbn [im_unmasked x86_machine]. rewrite (aq_software _ _ Hq). apply elem_of_vectors. lia.
Qed.

Lemma add_elem (u : gset N) i : i ∈ u → {[i]} ∪ u = u.
Proof using. intros Hi. by apply subseteq_union_1_L, singleton_subseteq_l. Qed.

Lemma apic_raise_effect irq d : (32 ≤ irq < 256)%N → im_quiet d →
  effect d (im_raise irq d) (im_unmasked d) ({[irq]} ∪ im_raised d).
Proof using AS.
  intros Hi [H1 [H2 H3] H4]. pose proof (ap_raise irq d Hi) as Ha. cbv zeta in Ha.
  split; cbn [im_raise im_quiet im_unmasked im_raised im_configured x86_machine]; rewrite ?Ha; [|reflexivity..].
  by split.
Qed.

Lemma apic_interrupt_effect H (m : Machine D H) r (HW := x86_hw B C mode) :
  im_quiet (mc_dev m) → mc_installed m = true → length (mc_handlers m) = hw_slots → table_is m r →
  let d := mc_dev m in
  ∃ d' c r', im_interrupt m = (Ok tt, with_dev d' (add_calls c m)) ∧ effect d d' (im_unmasked d) r' ∧
    (im_raised d ∩ im_unmasked d = ∅ ∧ r' = im_raised d ∧ c = [] ∨
     ∃ irq, irq ∈ im_raised d ∩ im_unmasked d ∧ r' = im_raised d ∖ {[irq]} ∧ c = called x86_lines r irq).
Proof using AS.
  intros Hq Hin Hl Ht. cbv zeta. cbn [im_interrupt im_quiet im_unmasked im_raised im_configured x86_machine] in *.
  set (d := mc_dev m) in *. pose proof (ap_take d) as Ha. cbv zeta in Ha. unfold take_interrupt. fold d.
  rewrite (aq_software _ _ Hq) in *. destruct (take_vector C d) as [[i d1]|] eqn:Hrun.
  - destruct Ha as [Hi Ha]. pose proof Hi as [_ Hv%elem_of_vectors]%elem_of_intersection.
    set (c := called x86_lines r i). set (d' := reg_store B C mode xapic_reg.EOI 0 d1).
    assert (∀ E, end_of_interrupt B C mode (E := E) d1 = (Ok tt, d')) as Heoi by (intros E; by apply write_reg_run).
    exists d', c, (irr (apic_of d) ∖ {[i]}). split; [|split; [|right; exists i; split; [exact Hi|split; reflexivity]]].
    + unfold dispatch_vector. rewrite run_bind. cbn [gets with_dev mc_installed]. rewrite Hin. cbn [negb].
      unfold c, called, TIMER_VECTOR. cbn [ln_timer x86_lines]. destruct (N.eqb_spec i 32) as [E|E].
      * rewrite decide_True by congruence. rewrite run_bind. cbn [record_call modify].
        erewrite run_on_dev by apply Heoi. reflexivity.
      * rewrite decide_False by congruence. rewrite run_bind, (call_handler_run (with_dev d1 m) r i); [|by vm_compute|exact Hl|exact Ht].
        erewrite run_on_dev by apply Heoi. reflexivity.
    + destruct Hq as [Q1 Q2 Q3]. assert (mode_on mode (apic_of d1)) as Hm by (rewrite Ha; exact Q2).
      assert (isr (apic_of d1) = {[i]}) as Hs by (rewrite Ha; cbn [isr with_sets]; rewrite Q1; clear; set_solver).
      pose proof (ap_eoi d1 i Hm) as He. cbv zeta in He. fold d' in He. rewrite Hs in He.
      rewrite Ha in He. specialize (He ltac:(by apply elem_of_singleton) ltac:(intros j ->%elem_of_singleton; done)).
      split; cbn [im_quiet im_unmasked im_raised im_configured x86_machine]; rewrite ?He; [|cbn [software_on with_sets]; by rewrite Q3|reflexivity..].
      split; [cbn [isr with_sets]; clear; set_solver|exact Q2|exact Q3].
  - exists d, [], (irr (apic_of d)). split; [|split; [|by left]].
    + unfold add_calls, with_dev. rewrite app_nil_r. by destruct m.
    + pose proof (idle_effect d Hq) as He. cbn [im_unmasked im_raised x86_machine] in He.
      rewrite (aq_software _ _ Hq) in He. exact He.
Qed.

#[export] Instance x86_spec : IrqMachineSpec D (HW := x86_hw B C mode) x86_lines.
Proof using AS.
  split; [done|done|by vm_compute| | | | | |].
  - intros irq d Hi Hq. exists d. split; [done|]. rewrite (add_elem _ _ (line_open irq d Hi Hq)).
    split; [by apply idle_effect|]. apply elem_of_vectors. unfold in_lines in Hi. cbn in Hi. lia.
  - intros irq d Hi Hq. exists d. split; [done|by apply idle_effect].
  - intros irq d Hi Hq. exists d. split; [done|by apply idle_effect].
  - intros irq d Hi Hq. exists d, (im_unmasked d). split; [done|]. split; [by apply idle_effect|]. split; [done|].
    intros _. by apply line_open.
  - intros irq d [Hi _] Hq. by apply apic_raise_effect.
  - intros H m r. apply apic_interrupt_effect.
Qed.
(** Nothing is in service; x2APIC mode may be on already, where there is such a mode. *)
Record apic_fresh (a : Apic) : Prop := {
  af_isr : isr a = ∅;
  af_x2 : x2_on a = true → detect_x2apic C = true;
}.

Definition switched_on (a : Apic) (v : N) : Apic :=
  mkApic (irr a) (isr a) true (software_on a) (match mode with X2apic => true | Xapic _ => N.testbit v 10 end).

(** Switching the APIC on. *)
Lemma switch_on_run d v : (v < U64)%N →
  N.testbit v 11 = global_on (apic_of d) → N.testbit v 10 = x2_on (apic_of d) →
  ∃ d', (∀ E, (if (desired_base mode v =? v)%N then mret (M := M D E) tt else wrmsr C IA32_APIC_BASE_MSR (desired_base mode v)) d = (Ok tt, d')) ∧
    apic_of d' = switched_on (apic_of d) v.
Proof using AS.
  intros Hv H11 H10. pose proof (desired_bits mode v) as [B11 B10]. destruct (N.eqb_spec (desired_base mode v) v) as [E|E].
  - exists d. split; [done|]. rewrite E in B11, B10. unfold truncate in *. rewrite N.mod_small in B11, B10 by exact Hv.
    unfold switched_on. rewrite <- B10, H10, <- B11, H11. by destruct (apic_of d).
  - eexists. split; [reflexivity|]. rewrite ap_wrmsr by (by apply N.mod_lt). cbv zeta. rewrite B11, B10. done.
Qed.

Lemma new_mode_run d : new_mode C (E := IrqError) d =
  (Ok (if detect_x2apic C then X2apic else Xapic (N.land (truncate U64 (cpu_rdmsr C IA32_APIC_BASE_MSR d).1) 4503599627366400)),
   if detect_x2apic C then d else (cpu_rdmsr C IA32_APIC_BASE_MSR d).2).
Proof using.
  unfold new_mode, xapic_mmio_base. destruct (detect_x2apic C); [done|]. unfold rdmsr, mbind, M_bind. by destruct (cpu_rdmsr _ _ _).
Qed.

(** The processor that selects the mode and is set up is ready. *)
Lemma x86_bootstrap tsc d d0 : apic_fresh (apic_of d) → new_mode C (E := IrqError) d = (Ok mode, d0) →
  ∃ d', (∀ E, bootstrap_current_core B C mode (E := E) tsc d0 = (Ok tt, d')) ∧ im_quiet d' ∧ im_raised d' = im_raised d.
Proof using AS.
  intros [Hisr Hx2]. rewrite new_mode_run. intros Hn.
  assert (apic_of d0 = apic_of d ∧ detect_x2apic C = match mode with X2apic => true | Xapic _ => false end) as [E0 Hdet].
  { pose proof (ap_rdmsr d) as Hr. destruct (cpu_rdmsr C IA32_APIC_BASE_MSR d) as [v d1]. cbn [fst snd] in Hn.
    destruct (detect_x2apic C); injection Hn as <- <-; [done|]. split; [apply Hr|done]. }
  pose proof (ap_rdmsr d0) as Hr. destruct (cpu_rdmsr C IA32_APIC_BASE_MSR d0) as [v d1] eqn:Hrun.
  destruct Hr as (Hv & E1 & B11 & B10). rewrite <- E1 in B11, B10.
  destruct (switch_on_run d1 v Hv B11 B10) as (d2 & Hrun2 & E2).
  assert (mode_on mode (apic_of d2)) as Hm.
  { rewrite E2. split; [done|]. cbn. destruct mode; [|done]. rewrite B10, E1, E0.
    destruct (x2_on (apic_of d)); [|done]. rewrite Hx2 in Hdet by done. done. }
  pose proof (ap_spurious 511 d2 Hm ltac:(done)) as E3. cbv zeta in E3.
  set (d3 := reg_store B C mode xapic_reg.SPURIOUS_INTERRUPT_VECTOR 511 d2) in *.
  assert (mode_on mode (apic_of d3)) as Hm3 by (rewrite E3; exact Hm).
  set (lvt := if tsc then N.lor LVT_TIMER_MODE_TSC_DEADLINE TIMER_VECTOR else TIMER_VECTOR).
  assert (lvt < U32)%N as Hl by (by destruct tsc).
  pose proof (ap_other xapic_reg.LVT_TIMER lvt d3 Hm3 Hl ltac:(by left)) as E4.
  set (d4 := reg_store B C mode xapic_reg.LVT_TIMER lvt d3) in *.
  assert (mode_on mode (apic_of d4)) as Hm4 by (rewrite E4; exact Hm3).
  pose proof (ap_other xapic_reg.DIVIDE_CONFIGURATION DIVIDE_BY_16 d4 Hm4 ltac:(done) ltac:(by right; left)) as E5.
  exists (reg_store B C mode xapic_reg.DIVIDE_CONFIGURATION DIVIDE_BY_16 d4). split.
  - intros E. unfold bootstrap_current_core. rewrite run_bind. assert (rdmsr C (E := E) IA32_APIC_BASE_MSR d0 = (Ok v, d1)) as ->.
    { unfold rdmsr. rewrite Hrun. unfold truncate. by rewrite N.mod_small by exact Hv. }
    cbv beta iota zeta. fold (desired_base mode v). rewrite run_bind, Hrun2.
    rewrite run_bind. rewrite (write_reg_run xapic_reg.SPURIOUS_INTERRUPT_VECTOR) by done. fold d3.
    rewrite run_bind. fold lvt. rewrite (write_reg_run xapic_reg.LVT_TIMER) by done. fold d4.
    apply (write_reg_run xapic_reg.DIVIDE_CONFIGURATION); done.
  - cbn [im_quiet im_raised x86_machine]. rewrite E5, E4, E3, E2, E1, E0. split; [|reflexivity].
    split; [exact Hisr| |reflexivity]. rewrite E3 in Hm3. rewrite E2, E1, E0 in Hm3. exact Hm3.
Qed.
End spec.

(** ** A device *)

(** One that takes any waiting vector first in the order of the set, at the usual address,
    with or without x2APIC mode. *)
Definition apic_base : N := 4276092928.

Definition apic_write (off v : N) (a : Apic) : Apic :=
  if (off =? 176)%N then with_sets a (irr a) (isr a ∖ {[foldr N.max 0%N (elements (isr a))]})
  else if (off =? 240)%N then mkApic (irr a) (isr a) (global_on a) (N.testbit v 8) (x2_on a)
  else a.

Definition apic_bus : Bus Apic := {|
  bus_load w addr a := (0%N, a);
  bus_store w addr v a := apic_write (addr - apic_base) v a;
  bus_wait a := a;
|}.

Definition apic_assert (i : N) (a : Apic) : Apic := with_sets a ({[i]} ∪ irr a) (isr a).

Definition apic_cpu (x2apic : bool) : X86Cpu Apic := {|
  cpu_rdmsr msr a :=
    (if (msr =? 27)%N then apic_base + (if global_on a then 2048 else 0) + (if x2_on a then 1024 else 0) else 0, a)%N;
  cpu_wrmsr msr v a :=
    if (msr =? 27)%N then mkApic (irr a) (isr a) (N.testbit v 11) (software_on a) (N.testbit v 10)
    else apic_write (N.shiftl (msr - 2048) 4) v a;
  cpuid leaf sub := mkCpuid 0 0 (if x2apic then N.shiftl 1 21 else 0) 0;
  take_vector a :=
    if software_on a then
      match head (elements (irr a ∩ vectors)) with
      | Some i => Some (i, with_sets a (irr a ∖ {[i]}) ({[i]} ∪ isr a))
      | None => None
      end
    else None;
|}.

Definition apic_mode (x2apic : bool) : ApicMode := if x2apic then X2apic else Xapic apic_base.

Lemma apic_store x2apic off v a :
  off ∈ [xapic_reg.EOI; xapic_reg.SPURIOUS_INTERRUPT_VECTOR; xapic_reg.LVT_TIMER; xapic_reg.DIVIDE_CONFIGURATION;
         xapic_reg.INITIAL_COUNT] →
  reg_store apic_bus (apic_cpu x2apic) (apic_mode x2apic) off v a = apic_write off v a.
Proof.
  intros Ho. destruct x2apic; cbn [reg_store apic_mode apic_bus apic_cpu bus_store cpu_wrmsr].
  - repeat (apply elem_of_cons in Ho as [->|Ho]; [reflexivity|]). by apply not_elem_of_nil in Ho.
  - by replace (apic_base + off - apic_base)%N with off by lia.
Qed.

(** The highest vector in service. *)
Lemma highest l (i : N) : i ∈ l → (∀ j, j ∈ l → (j ≤ i)%N) → foldr N.max 0%N l = i.
Proof.
  intros Hi Hmax. assert (foldr N.max 0%N l ≤ i)%N as H1.
  { clear Hi. induction l as [|x l IH]; cbn; [lia|]. pose proof (Hmax x ltac:(by left)).
    specialize (IH ltac:(intros j Hj; apply Hmax; by right)). lia. }
  enough (i ≤ foldr N.max 0%N l)%N by lia. clear Hmax H1.
  induction Hi as [x l|x y l Hi IH]; cbn; lia.
Qed.

#[export] Instance apic_bus_spec x2apic :
  ApicSpec apic_bus (apic_cpu x2apic) (apic_mode x2apic) apic_assert (λ a, a).
Proof.
  split; intros; cbv zeta.
  - by destruct x2apic.
  - destruct d as [r s [] w []]; by vm_compute.
  - done.
  - by rewrite apic_store by (by right; left).
  - rewrite apic_store; [|right; right; set_solver]. unfold apic_write.
    repeat (apply elem_of_cons in H1 as [->|H1]; [reflexivity|]). by apply not_elem_of_nil in H1.
  - rewrite apic_store by (by left). unfold apic_write. change (xapic_reg.EOI =? 176)%N with true. cbv iota.
    rewrite (highest _ i); [done|by apply elem_of_elements|]. intros j Hj%elem_of_elements. by apply H1.
  - cbn [apic_cpu take_vector]. destruct (software_on a) eqn:Hs; subst a; rewrite Hs; [|apply intersection_empty_r_L].
    destruct (elements _) as [|i l] eqn:E; cbn [head]; [by apply leibniz_equiv, elements_empty_inv|].
    split; [|done]. apply elem_of_elements. rewrite E. by left.
  - done.
Qed.

(** The state after a reset, which firmware may have left with x2APIC mode on. *)
Definition apic_reset (x2apic : bool) : Apic := mkApic ∅ ∅ true false x2apic.

Lemma apic_reset_fresh x2apic : apic_fresh (apic_cpu x2apic) (apic_reset x2apic).
Proof. by destruct x2apic. Qed.
