(* ===== verification/IrqMachines.v ===== *)
(** * The three interrupt controllers keep one contract

    The contract of [Irq] for the controllers of [IrqRiscv], [IrqArm64] and
    [IrqX86], each from the set-up of its processor on. *)

From stdpp Require Import gmap.
From S2P Require Import Prelude Virtio Irq IrqRiscv IrqArm64 IrqX86.

(** A device that is ready for the kernel, with the lines [r] raised. *)
Definition ready {D} (HW : IrqHw D) (IM : IrqMachine D) (L : Lines) (d : D) (r : gset N) : Prop :=
  im_raised d = r ∧ ∀ H, serves (H := H) L d.

(** C15 The interrupt controllers of the three machines keep one contract.  On any device
    that follows its specification - a PLIC, a GICv3, a local APIC in either mode - and that
    serves nothing when the kernel starts, the set-up of the processor succeeds, and keeps
    what devices have raised.  From then on any sequence of registrations, removals,
    maskings and unmaskings, of lines that devices raise and of interrupts gives the
    results, and makes the calls, of the contract: an interrupt serves one line that is
    raised and enabled and calls its handler, if there is one, with the line's number (the
    timer's callback for the timer's line), is completed whether or not there is a handler,
    and serves nothing only when no such line is left.  After the sequence, as many
    interrupts as lines are deliverable call the handler of each of them once, and leave
    none. *)
Theorem interrupts_served :
  (∀ D B C base assert_irq plic_of, PlicSpec (D := D) B C base assert_irq plic_of →
    ∀ d, plic_fresh (plic_of d) → ∃ d',
    (∀ E, IrqRiscv.bootstrap_current_core B C base (E := E) d = (Ok tt, d')) ∧
    ready (riscv_hw B C base) (riscv_machine B C base assert_irq plic_of) riscv_lines d' (IrqRiscv.pending (plic_of d))) ∧
  (∀ D B C base assert_irq gic_of, GicSpec (D := D) B C base assert_irq gic_of →
    ∀ n d, gic_fresh (gic_of d) → waking (gic_of d) < n → ∃ d',
    IrqArm64.bootstrap_current_core B C base n d = (Ok tt, d') ∧
    ready (arm64_hw B C base) (arm64_machine B C base assert_irq gic_of) arm64_lines d' (IrqArm64.pending (gic_of d))) ∧
  (∀ D B C mode assert_irq apic_of, ApicSpec (D := D) B C mode assert_irq apic_of →
    ∀ tsc d d0, apic_fresh C (apic_of d) → new_mode C (E := IrqError) d = (Ok mode, d0) → ∃ d',
    (∀ E, IrqX86.bootstrap_current_core B C mode (E := E) tsc d0 = (Ok tt, d')) ∧
    ready (x86_hw B C mode) (x86_machine B C mode assert_irq apic_of) x86_lines d' (irr (apic_of d))).
Proof.
  split; [|split].
  - intros D B C base assert_irq plic_of PS d Hd. destruct (riscv_bootstrap B C base assert_irq plic_of d Hd) as (d' & Hrun & Hq & Hr).
    exists d'. split; [exact Hrun|]. split; [exact Hr|]. intros H. exact (irq_machine_serves riscv_lines d' Hq).
  - intros D B C base assert_irq gic_of GS n d Hd Hn.
    destruct (arm64_bootstrap B C base assert_irq gic_of n d Hd Hn) as (d' & Hrun & Hq & Hr & _).
    exists d'. split; [exact Hrun|]. split; [exact Hr|]. intros H. exact (irq_machine_serves arm64_lines d' Hq).
  - intros D B C mode assert_irq apic_of AS tsc d d0 Hd Hm.
    destruct (x86_bootstrap B C mode assert_irq apic_of tsc d d0 Hd Hm) as (d' & Hrun & Hq & Hr).
    exists d'. split; [exact Hrun|]. split; [exact Hr|]. intros H. exact (irq_machine_serves x86_lines d' Hq).
Qed.

(** The core of an inter-processor interrupt is compared as 32 bits: with 2^32 added, the
    local APIC interrupts the core that remains, and the other two overflow the shift. *)
Lemma ipi_core_wraps {D H} B C base (R : Hart D) (G : GicCpu D) (X : X86Cpu D) mode t v (m : Machine D H) :
  send_ipi (HW := x86_hw B X mode) (t + U32) v m = send_ipi (HW := x86_hw B X mode) t v m ∧
  ((truncate U32 t < mc_core_count m)%N →
    (send_ipi (HW := riscv_hw B R base) (t + U32) v m).1 = Panic ∧
    (send_ipi (HW := arm64_hw B G C) (t + U32) v m).1 = Panic).
Proof.
  assert (truncate U32 (t + U32) = truncate U32 t) as E.
  { unfold truncate. rewrite N.Div0.add_mod, N.Div0.mod_same, N.add_0_r. apply N.Div0.mod_mod. }
  unfold send_ipi. split; [|intros Hc%N.leb_gt; split]; rewrite !run_bind; cbn [gets]; rewrite E.
  - cbn [hw_send_ipi x86_hw]. unfold x86_send_ipi. by rewrite E.
  - rewrite Hc. cbn [hw_send_ipi riscv_hw]. unfold riscv_send_ipi.
    rewrite (proj2 (N.ltb_ge (t + _) 64)) by lia. reflexivity.
  - rewrite Hc. cbn [hw_send_ipi arm64_hw]. unfold arm64_send_ipi.
    rewrite (proj2 (N.ltb_ge (t + _) 64)) by lia. reflexivity.
Qed.

(** ** Concrete devices *)

(** Line 33 is raised before it has a handler, 40 with one; the first stays waiting where it
    can be masked. *)
Definition sample_events : list (Event nat) :=
  [Raise 33; Register 40 7; Raise 40; Interrupt; Register 40 8; Mask 40; Raise 40; Interrupt; Unregister 40; Register 5 1].

Lemma sample_ok (L : Lines) : ln_line L 33 → ln_line L 40 → Forall (event_ok L) sample_events.
Proof. intros H1 H2. by repeat constructor. Qed.

Lemma interrupts_served_witness :
  (∃ d', ready (riscv_hw (plic_bus 201326592) plic_hart 201326592)
     (riscv_machine (plic_bus 201326592) plic_hart 201326592 plic_assert (λ p, p)) riscv_lines d' ∅ ∧
     ∃ v, spec_run riscv_lines (mkView ∅ ∅ ∅ []) sample_events
       [Ok tt; Ok tt; Ok tt; Ok tt; Err IrqAlreadyRegistered; Ok tt; Ok tt; Ok tt; Ok tt; Ok tt] v) ∧
  (∃ d', ready (arm64_hw (gic_bus 134217728) gic_cpu 134217728)
     (arm64_machine (gic_bus 134217728) gic_cpu 134217728 gic_assert (λ g, g)) arm64_lines d' ∅) ∧
  (∀ x2apic, ∃ d', ready (x86_hw apic_bus (apic_cpu x2apic) (apic_mode x2apic))
     (x86_machine apic_bus (apic_cpu x2apic) (apic_mode x2apic) apic_assert (λ a, a)) x86_lines d' ∅).
Proof.
  destruct interrupts_served as (R & A & X). split; [|split].
  - destruct (R _ _ _ _ _ _ (plic_bus_spec 201326592 ltac:(done)) plic_reset plic_reset_fresh) as (d' & Hrun & Hr).
    exists d'. split; [exact Hr|]. destruct Hr as [_ Hs].
    destruct (Hs nat sample_events (sample_ok riscv_lines ltac:(done) ltac:(done))) as (v & Hv & _). exists v.
    specialize (Hrun Empty_set). injection Hrun as <-. exact Hv.
  - destruct (A _ _ _ _ _ _ (gic_bus_spec 134217728 ltac:(done)) 4 gic_reset gic_reset_fresh ltac:(by vm_compute; lia)) as (d' & _ & Hr).
    exists d'. exact Hr.
  - intros x2apic.
    destruct (X _ _ _ _ _ _ (apic_bus_spec x2apic) true (apic_reset x2apic) (apic_reset x2apic) (apic_reset_fresh x2apic))
      as (d' & _ & Hr); [by destruct x2apic|]. exists d'. exact Hr.
Defined.
